(* ===== verification/_CoqProject ===== *)
-Q . S2P
Prelude.v
Effects.v
MessageBuffer.v
MessageBufferThm.v
PeerReading.v
PeerReadingThm.v
PeerReadingProps.v
UndoIndex.v
UndoIndexThm.v
DbSession.v
Accumulator.v
Limbs.v
FieldSpec.v
Field10x26.v
ScalarSpec.v
ScalarInverse.v
Scalar8x32.v
Scalar4x64.v
ShortName.v
LongName.v
Asset.v
ChainUtils.v
Block.v
Raw.v
BlockLog.v
Abi.v
BlockPack.v
ForkDb.v
ForkDbInv.v
ForkDbThm.v
Objects.v
Tables.v
Context.v
Authority.v
AuthorityThm.v
Sums.v
Voting.v
VotingThm.v
VotingProps.v
SystemContract.v
Erc.v
SystemContractThm.v
SystemContractProps.v
ErcThm.v
ErcProps.v
Records.v
RecordsThm.v
RecordsProps.v
NativeApi.v
Contracts.v
Tracked.v
Transaction.v
Applying.v
ApplyingThm.v
ApplyingProps.v
Replay.v
ForkRun.v
Follows.v
ForkFrames.v
AbiThm.v
AbiProps.v
AbiCodec.v
Chain.v
BlockLogThm.v
BlockLogProps.v
ChainUndo.v
ChainLog.v
ChainReplay.v
ChainProps.v
Protocol.v
Connection.v
PeerMessages.v
ConnectionThm.v
PeerMessagesThm.v
ConnectionProps.v
PeerMessagesProps.v
BlockBuilder.v
BlockBuilderThm.v
BlockBuilderProps.v
ContractsProps.v
