(* ===== verification/Prelude.v ===== *)
(** * XMAX support-chain: a model of the chain's own logic and of the
    arithmetic under its signatures

    This library models the C and C++ code of the repository that decides what
    the chain's state is: the object database with its undo history, the fork
    database, block packs and the dpos rule, the chain controller from the
    arrival of a block to its place in the log, the files of the log and the
    binary form of blocks, names and assets, the native contracts, permissions,
    votes, the types of contracts, the execution of transactions, and the
    scalar and field arithmetic of the vendored secp256k1.  The definitions are
    translated from the source and executable; the theorems say what makes each
    part correct, and the places where the code does not do what it means to do
    are stated as theorems or examples too.

    ** Conventions

    - A w-bit integer is a [Z] with its wrap-around written out ([u8] to
      [u128], [s8] to [s64] below).  share_type is int64_t: its overflow is
      undefined behaviour ([Tables.int64]).
    - Code that may throw and changes nothing returns a [result]; code that
      changes state is a program of the monad [Effects.M], whose runs end with
      a value, an exception (the state reached is kept, as in C++) or
      undefined behaviour.  Exceptions are told apart by their texts;
      [std_exception] lists those that are not fc's.
    - Hash functions, recovery of public keys, boost's text conversions, the
      packing of most messages and the JavaScript machine are parameters; what
      a theorem needs of them is a hypothesis or a class, with a concrete
      instance in its witness.  The packing of blocks, of abis and of the
      messages that carry contracts is modelled ([Raw], [Abi], [Contracts]).
    - The copy constructor of an object need not make the same object: the
      undo history keeps [UndoIndex.copied] objects, and [Objects.row_copied]
      says that the copy of an account has no contract.
    - Memory the code reads before it writes it is a parameter ([raw],
      [stack], [raw_threshold]).

    ** The parts

    The database.  [Effects] is the monad.  [UndoIndex] is
    foundation/basechain: generic_index with undo states and sessions, and the
    database's sessions over all indices; [UndoIndexThm] proves that it refines
    a stack of snapshots, and what violations of unique keys do; [DbSession]
    that a session not kept restores every index.  [Objects] has the object
    classes of blockchain/chain/include/objects, [Tables] the typed access of
    Basechain::database, [Sums] sums over tables, and [Tracked] shows that the
    native handlers keep to the interface [DbSession] asks for.

    Names and values.  [ShortName], [LongName], [Asset]: the codecs and
    arithmetic of foundation/basetypes, with round trips and bounds.

    Blocks.  [ChainUtils], [Block], [BlockPack]: times, builder lists, merkle
    roots, digests, signatures, confirmations and the numbers of the last
    confirmed and irreversible blocks.  [ForkDb] is the fork database with its
    four indices and shared pointers; [ForkDbInv] is the consistency of the
    indices, [ForkDbThm] what the operations guarantee.  [Raw] is fc's binary
    form of blocks, [BlockLog] the two files of chain_stream byte by byte;
    [BlockLogThm] and [BlockLogProps] prove them a list of blocks.

    Permissions.  [Authority] is authority_utls.cpp; [AuthorityThm] proves what
    passing check_authorization means, and the soundness, completeness and
    termination of its parts.

    Contracts.  [Context] is the context of a message; [Voting],
    [SystemContract] and [Erc] are the handlers of
    blockchain/native_contract; [VotingThm] and [VotingProps] the books of the
    vote, [SystemContractThm] and [SystemContractProps] the conservation of
    tokens, [ErcThm] and [ErcProps] the supplies and ownership of ERC20 and
    ERC721 tokens.  [NativeApi] is the registration of handlers.  [Abi] is
    abi_serializer: the types of a contract, their validation and the
    conversion of values; [AbiThm] and [AbiProps] say what validation decides,
    [AbiCodec] is the round trip of values.  [Contracts] has the handlers that
    put contracts into accounts, [ContractsProps] what they do.  [Records] are
    the records contracts keep in tables, as the templates of
    message_context_xmax give them to the machines; [RecordsThm] and
    [RecordsProps] prove them a finite map and the reading functions an
    enumeration of it.

    Transactions.  [Transaction] executes the messages of a transaction;
    [Applying] is what chain_xmax does with a transaction from its arrival to
    its receipt and its selection for a block, [ApplyingThm] and
    [ApplyingProps] what a failed one leaves and that execution ends.  [Replay]
    proves that applying again from the same state gives the same receipts.

    The chain controller.  [Chain] is the rest of chain_xmax.cpp: building,
    applying and validating blocks, the switch between forks, irreversible
    blocks and the log, the start of the chain.  [ForkRun], [Follows] and
    [ForkFrames] are its steps on the fork database and what they leave alone;
    [ChainUndo] proves that a branch is undone, [ChainLog] that the log grows
    by linked blocks, [ChainReplay] that what one node builds another accepts;
    [ChainProps] states the results.

    Nodes.  [BlockBuilder] is the plugin that builds and confirms blocks: its
    keys, its timer, and the answers to blocks and confirmations from peers;
    [BlockBuilderThm] and [BlockBuilderProps] prove that it builds in its turn
    and once in a slot, and that nodes with one chain have one chain again after
    a block and its confirmations.  [MessageBuffer] is the chain of buffers of a
    connection, which [MessageBufferThm] proves a queue of bytes; [PeerReading]
    cuts the bytes of a peer into messages, and [PeerReadingThm] and
    [PeerReadingProps] say that messages arrive whole, and which byte hangs the
    node.  [Protocol] has the messages.  [Connection] is the sending side of a
    connection as a machine whose events are the calls of the node and the
    reports of the socket; [ConnectionThm] and [ConnectionProps] prove that what
    is queued is written and heard, that ranges of blocks are sent, and when a
    connection falls silent.  [PeerMessages] answers the handshake, notices and
    requests; [PeerMessagesThm] and [PeerMessagesProps] say what a node that
    connects is sent and who is turned away.

    Arithmetic.  [ScalarSpec] and [FieldSpec] are interfaces, which the
    representations [Scalar8x32] and [Scalar4x64] (with [Accumulator]) and
    [Field10x26] (with [Limbs]) discharge; [ScalarInverse] is proved against
    the scalar interface.

    ** Fuel and bounds

    Recursion is structural where the code's loops run over data.  The climb
    along parent authorities takes fuel, and [parent_permission_decides_ancestry]
    gives an amount that is enough; undo_all, the walks of the fork database
    and the loop over notified accounts have their own lemmas.  Depths are the
    code's constants: three levels of authorities, five of inline messages.
    In [Chain] the fuel bounds the walks over blocks and the work of one block;
    in [Abi] it is the depth of the stack, for the recursion over types, and
    the turns of the loops of validate: [validation_ends] gives an amount that
    is enough, and [overflowing_abi_ends_the_node] shows that none may be.
    Where fuel runs out the run is undefined ([Undef]), never a result.  In
    [PeerMessages] it is one more than the number of blocks, for the way back
    from the head, which no run goes twice.

    ** Not modelled

    Sockets, locks, threads and the memory mapped files of the database; the
    file the fork database is kept in, whose packing of block_pack is fc's; the
    packing of the messages of the native contracts, whose handlers take the
    unpacked message; the JavaScript and WebAssembly machines and the memory
    they copy records to; the cash contracts; the mnemonic word list, which is a
    table; of the network plugin the set of connections with its listener and its
    monitor, and the messages about time and about other nodes; the other plugins
    and the application framework; the field in 5x52 limbs, the group and the
    signatures of secp256k1; the other vendored code apart from the few functions
    of fc named above. *)

From Stdlib Require Import ZArith Lia Bool Ascii String List Sorted.
Import ListNotations.
Local Open Scope Z_scope.

(** ** Machine integers

    A w-bit unsigned integer is a [Z]; the functions below are the C
    conversions to the unsigned types, and [s32]/[s64] the two's complement
    conversions to the signed ones. *)

Definition u8 (z : Z) : Z := z mod 2 ^ 8.
Definition u16 (z : Z) : Z := z mod 2 ^ 16.
Definition u32 (z : Z) : Z := z mod 2 ^ 32.
Definition u64 (z : Z) : Z := z mod 2 ^ 64.
Definition u128 (z : Z) : Z := z mod 2 ^ 128.

(** Two's complement reading of the low [w] bits. *)
Definition swrap (w z : Z) : Z :=
  let m := z mod 2 ^ w in if m <? 2 ^ (w - 1) then m else m - 2 ^ w.

Definition s8 (z : Z) : Z := swrap 8 z.
Definition s32 (z : Z) : Z := swrap 32 z.
Definition s64 (z : Z) : Z := swrap 64 z.

(** The C value of a comparison or of a logical operator. *)
Definition c_bool (b : bool) : Z := if b then 1 else 0.

(** ** Ranges as a type class

    [Bnd e m] says that [e] lies in [0..m].  Instance resolution walks over
    an expression and computes a bound of it, so that the absence of
    wrap-around in a long straight-line computation is a matter of comparing
    two numerals. *)

Class Bnd (e m : Z) : Prop := bnd : 0 <= e <= m.

#[export] Hint Mode Bnd ! - : typeclass_instances.

Lemma bnd_weaken e m n : Bnd e m -> m <= n -> Bnd e n.
Proof. unfold Bnd; lia. Qed.

#[export] Instance Bnd_add a b m n : Bnd a m -> Bnd b n -> Bnd (a + b) (m + n).
Proof. unfold Bnd; lia. Qed.

#[export] Instance Bnd_mul a b m n : Bnd a m -> Bnd b n -> Bnd (a * b) (m * n).
Proof. unfold Bnd; nia. Qed.

Lemma bnd_pos p : Bnd (Zpos p) (Zpos p).
Proof. unfold Bnd; lia. Qed.
#[export] Existing Instance bnd_pos.

#[export] Instance Bnd_pow k : Bnd (2 ^ k) (2 ^ k).
Proof. unfold Bnd; split; [apply Z.pow_nonneg |]; lia. Qed.

#[export] Instance Bnd_0 : Bnd 0 0.
Proof. unfold Bnd; lia. Qed.

Lemma land_bnd_r a b m : 0 <= a -> Bnd b m -> Bnd (Z.land a b) m.
Proof.
  unfold Bnd; intros Ha Hb; split.
  - apply Z.land_nonneg; lia.
  - apply Z.le_trans with b; [| lia].
    apply Z.ldiff_le; [lia |].
    apply Z.bits_inj'; intros n Hn.
    rewrite Z.ldiff_spec, Z.land_spec, Z.bits_0.
    destruct (Z.testbit a n), (Z.testbit b n); reflexivity.
Qed.

#[export] Instance Bnd_land a b m n : Bnd a m -> Bnd b n -> Bnd (Z.land a b) n | 5.
Proof. intros Ha Hb; apply land_bnd_r; [apply Ha | exact Hb]. Qed.

#[export] Instance Bnd_shiftr a k m : Bnd a m -> Bnd k k -> Bnd (Z.shiftr a k) (m / 2 ^ k).
Proof.
  unfold Bnd; intros Ha Hk. rewrite Z.shiftr_div_pow2 by lia.
  assert (0 < 2 ^ k) by (apply Z.pow_pos_nonneg; lia).
  split; [apply Z.div_pos; lia | apply Z.div_le_mono; lia].
Qed.

#[export] Instance Bnd_shiftl a k m : Bnd a m -> Bnd k k -> Bnd (Z.shiftl a k) (m * 2 ^ k).
Proof.
  unfold Bnd; intros Ha Hk. rewrite Z.shiftl_mul_pow2 by lia.
  assert (0 < 2 ^ k) by (apply Z.pow_pos_nonneg; lia). nia.
Qed.

Lemma wrap_bnd w z : 0 <= w -> Bnd (z mod 2 ^ w) (2 ^ w - 1).
Proof.
  intros Hw. unfold Bnd.
  pose proof (Z.mod_pos_bound z (2 ^ w) ltac:(apply Z.pow_pos_nonneg; lia)). lia.
Qed.

#[export] Instance Bnd_u8 z : Bnd (u8 z) (2 ^ 8 - 1) | 9.
Proof. apply wrap_bnd; lia. Qed.
#[export] Instance Bnd_u32 z : Bnd (u32 z) (2 ^ 32 - 1) | 9.
Proof. apply wrap_bnd; lia. Qed.
#[export] Instance Bnd_u64 z : Bnd (u64 z) (2 ^ 64 - 1) | 9.
Proof. apply wrap_bnd; lia. Qed.
#[export] Instance Bnd_u128 z : Bnd (u128 z) (2 ^ 128 - 1) | 9.
Proof. apply wrap_bnd; lia. Qed.

(** A conversion of a value already in range is the identity; the bound is
    found by instance resolution and compared by computation. *)
Lemma u32_id z m : Bnd z m -> (m <? 2 ^ 32) = true -> u32 z = z.
Proof. unfold Bnd, u32; intros Hz Hm%Z.ltb_lt; apply Z.mod_small; lia. Qed.
Lemma u64_id z m : Bnd z m -> (m <? 2 ^ 64) = true -> u64 z = z.
Proof. unfold Bnd, u64; intros Hz Hm%Z.ltb_lt; apply Z.mod_small; lia. Qed.
Lemma u128_id z m : Bnd z m -> (m <? 2 ^ 128) = true -> u128 z = z.
Proof. unfold Bnd, u128; intros Hz Hm%Z.ltb_lt; apply Z.mod_small; lia. Qed.

(** ** Masks and shifts *)

Lemma mask_shift_split d k : 0 <= k -> d = Z.land d (Z.ones k) + 2 ^ k * Z.shiftr d k.
Proof.
  intros Hk. rewrite Z.land_ones, Z.shiftr_div_pow2 by lia.
  pose proof (Z.div_mod d (2 ^ k) ltac:(apply Z.pow_nonzero; lia)). lia.
Qed.

Lemma u32_split z : 0 <= z -> exists q, z = u32 z + 2 ^ 32 * q /\ q = z / 2 ^ 32.
Proof.
  intros. exists (z / 2 ^ 32). unfold u32.
  pose proof (Z.div_mod z (2 ^ 32) ltac:(lia)). lia.
Qed.

(** ** Symbolic execution of straight-line code

    A C function body is a chain of [let]s.  [sym_open f] turns a goal about
    [f args] into [Q (let x := e in ...)]; [sym_step] moves the first binding
    into the context as an equation [E : x = e]. *)

Lemma pair_lift {A A' B} (Q : B -> Prop) (e : A * A') (b : A -> A' -> B) :
  (forall x y, e = (x, y) -> Q (b x y)) -> Q (let '(x, y) := e in b x y).
Proof. destruct e; eauto. Qed.

Ltac sym_open t f :=
  pattern t;
  match goal with
  | |- ?P _ => let Q := fresh "Q" in pose (Q := P); change (Q t); cbv beta delta [f]
  end.

Ltac sym_let :=
  lazymatch goal with
  | |- ?Q (let x := ?e in @?b x) =>
      let y := fresh x in
      let E := fresh "E" y in
      change (let y := e in Q (b y)); intro y;
      assert (E : y = e) by reflexivity; clearbody y; cbv beta
  | |- ?Q (let '(x, y) := ?e in @?b x y) =>
      refine (pair_lift Q e b _);
      let x' := fresh x in
      let y' := fresh y in
      let E := fresh "E" x' in
      intros x' y' E; cbv beta
  end.

(** Close a symbolic execution: expose the postcondition. *)
Ltac sym_close := match goal with |- ?Q _ => subst Q; cbv beta iota end.

Ltac bnd_const := vm_compute; reflexivity.

(** Remove the conversions of [E] that do not wrap, innermost first. *)
Ltac wrap_simpl E :=
  repeat match type of E with
  | context [u32 ?z] =>
      lazymatch z with context [u64 _] => fail | context [u32 _] => fail | _ => idtac end;
      rewrite (u32_id z _ ltac:(typeclasses eauto) ltac:(bnd_const)) in E
  | context [u64 ?z] =>
      lazymatch z with context [u64 _] => fail | context [u128 _] => fail | _ => idtac end;
      rewrite (u64_id z _ ltac:(typeclasses eauto) ltac:(bnd_const)) in E
  | context [u128 ?z] =>
      lazymatch z with context [u64 _] => fail | context [u128 _] => fail | _ => idtac end;
      rewrite (u128_id z _ ltac:(typeclasses eauto) ltac:(bnd_const)) in E
  end.

(** Record the range of the variable bound by [E]. *)
Ltac bnd_record E :=
  match type of E with
  | ?x = ?e =>
      let B := fresh "B" x in
      eassert (B : Bnd e _) by typeclasses eauto;
      match type of B with
      | Bnd _ ?m => let m' := eval vm_compute in m in change (Bnd e m') in B
      end;
      rewrite <- E in B
  end.

Ltac sym_word :=
  sym_let;
  match goal with E : ?x = _ |- _ => wrap_simpl E; bnd_record E end.

(** Turn every pair [r = t & mask], [t' = t >> k] of the context into the
    linear equation [t = r + 2^k * t'], and a mask whose carry is dropped into
    the same equation with a fresh carry. *)
Ltac carry_eqs :=
  repeat match goal with
  | E1 : ?r = Z.land ?t ?M, E2 : ?s = Z.shiftr ?t ?k |- _ =>
      let H := fresh "Ec" in
      pose proof (mask_shift_split t k ltac:(lia)) as H;
      replace (Z.ones k) with M in H by (vm_compute; reflexivity);
      rewrite <- E1, <- E2 in H; clear E1 E2;
      let p := eval vm_compute in (2 ^ k) in change (2 ^ k) with p in H
  end;
  repeat match goal with
  | E1 : ?r = Z.land ?t ?M |- _ =>
      let H := fresh "Ec" in
      let k := eval vm_compute in (Z.log2 (M + 1)) in
      pose proof (mask_shift_split t k ltac:(lia)) as H;
      replace (Z.ones k) with M in H by (vm_compute; reflexivity);
      rewrite <- E1 in H; clear E1;
      let p := eval vm_compute in (2 ^ k) in change (2 ^ k) with p in H;
      let q := fresh "q" in
      pose (q := Z.shiftr t k); fold q in H; 
      assert (0 <= q) by (apply Z.shiftr_nonneg; match goal with B : Bnd t _ |- _ => apply B end);
      clearbody q
  end.

Ltac bnds := repeat match goal with H : Bnd _ _ |- _ => unfold Bnd in H end.

(** Lists of ranges. *)
Ltac solve_Forall :=
  repeat (apply Forall_cons; [first [assumption | eapply bnd_weaken; [eassumption | lia]] |]);
  apply Forall_nil.

Ltac destruct_Forall H :=
  repeat match type of H with
  | Forall _ (_ :: _) =>
      let H1 := fresh "Bm" in
      apply Forall_cons_iff in H; destruct H as [H1 H]
  end; clear H.

(** ** C integers used as booleans *)

Lemma c_bool_01 b : c_bool b = 0 \/ c_bool b = 1.
Proof. destruct b; auto. Qed.

Lemma land_not1 b : Z.land (c_bool b) (Z.lnot 1) = 0.
Proof. destruct b; reflexivity. Qed.
Lemma land_not0 b : Z.land (c_bool b) (Z.lnot 0) = c_bool b.
Proof. destruct b; reflexivity. Qed.
Lemma lor_1_c b : Z.lor 1 (c_bool b) = 1.
Proof. destruct b; reflexivity. Qed.
Lemma lor_0_c b : Z.lor 0 (c_bool b) = c_bool b.
Proof. reflexivity. Qed.

Create Rewrite HintDb c_int.
#[export] Hint Rewrite land_not1 land_not0 lor_1_c lor_0_c Z.lor_0_r : c_int.

(** Evaluate a chain of [yes]/[no] flags one assignment at a time, with a case
    analysis on a comparison only while both flags are still open. *)
Ltac flag_step :=
  sym_let;
  match goal with
  | E : ?x = _ |- _ =>
      autorewrite with c_int in E;
      try match type of E with
      | context [c_bool (?a <? ?b)] => destruct (Z.ltb_spec a b)
      | context [c_bool (?a >? ?b)] => rewrite (Z.gtb_ltb a b) in E; destruct (Z.ltb_spec b a)
      | context [c_bool (?a >=? ?b)] => rewrite (Z.geb_leb a b) in E; destruct (Z.leb_spec b a)
      end;
      cbn [c_bool] in E; autorewrite with c_int in E; subst x
  end.

(** ** Bits of sums and slices *)

Lemma testbit_high x k n : 0 <= x < 2 ^ k -> k <= n -> Z.testbit x n = false.
Proof.
  intros Hx Hn. destruct (Z.lt_ge_cases k 0) as [L | L].
  - rewrite Z.pow_neg_r in Hx by lia. lia.
  - rewrite <- (Z.mod_small x (2 ^ k)) by lia. apply Z.mod_pow2_bits_high; lia.
Qed.

Lemma lor_shiftl_add x y k : 0 <= k -> 0 <= x < 2 ^ k -> Z.lor x (Z.shiftl y k) = x + 2 ^ k * y.
Proof.
  intros Hk Hx. pose proof (Z.add_lor_land x (Z.shiftl y k)) as E.
  assert (Z.land x (Z.shiftl y k) = 0) as L.
  { apply Z.bits_inj'; intros n Hn. rewrite Z.land_spec, Z.bits_0.
    destruct (Z.lt_ge_cases n k).
    - rewrite (Z.shiftl_spec_low y k n) by lia. apply andb_false_r.
    - rewrite (testbit_high x k n) by lia. reflexivity. }
  rewrite L, Z.shiftl_mul_pow2 in * by lia. lia.
Qed.

(** Writing a field of [b] bits under the bits already written of a [W]-bit word. *)
Lemma lor_field W N rem b s :
  0 <= b <= rem -> rem <= W -> 0 <= s < 2 ^ b ->
  Z.lor (2 ^ rem * N) (Z.shiftl s (rem - b) mod 2 ^ W) = 2 ^ (rem - b) * (2 ^ b * N + s).
Proof.
  intros Hb Hr Hs. rewrite Z.shiftl_mul_pow2 by lia.
  assert (E : 2 ^ rem = 2 ^ b * 2 ^ (rem - b)) by (rewrite <- Z.pow_add_r by lia; f_equal; lia).
  assert (0 < 2 ^ (rem - b)) by (apply Z.pow_pos_nonneg; lia).
  assert (s * 2 ^ (rem - b) < 2 ^ rem) by nia.
  assert (2 ^ rem <= 2 ^ W) by (apply Z.pow_le_mono_r; lia).
  rewrite Z.mod_small by lia. rewrite Z.lor_comm.
  replace (2 ^ rem * N) with (Z.shiftl N rem) by (rewrite Z.shiftl_mul_pow2 by lia; ring).
  rewrite lor_shiftl_add by lia. rewrite E. ring.
Qed.

(** A slice of [count] bits starting at [off]. *)
Definition slice (x off count : Z) : Z := (x / 2 ^ off) mod 2 ^ count.

Lemma slice_spec x off count n :
  0 <= off -> 0 <= count -> 0 <= n ->
  Z.testbit (slice x off count) n = (n <? count) && Z.testbit x (n + off).
Proof.
  intros Ho Hc Hn. unfold slice. destruct (Z.ltb_spec n count).
  - rewrite Z.mod_pow2_bits_low, Z.div_pow2_bits by lia. reflexivity.
  - rewrite Z.mod_pow2_bits_high by lia. reflexivity.
Qed.

Lemma slice_range x off count : 0 <= count -> 0 <= slice x off count < 2 ^ count.
Proof. intros. apply Z.mod_pos_bound, Z.pow_pos_nonneg; lia. Qed.

Lemma ones_sub count : 0 <= count -> Z.shiftl 1 count - 1 = Z.ones count.
Proof. intros. rewrite Z.shiftl_mul_pow2, Z.ones_equiv by lia. lia. Qed.

Lemma slice_unique x lo d hi off count :
  0 <= off -> 0 <= count -> 0 <= lo < 2 ^ off -> 0 <= d < 2 ^ count ->
  x = lo + 2 ^ off * (d + 2 ^ count * hi) -> slice x off count = d.
Proof.
  intros Ho Hc Hlo Hd ->. unfold slice.
  rewrite Z.add_comm, Z.mul_comm, Z.div_add_l, (Z.div_small lo) by lia.
  rewrite Z.add_0_r, Z.mul_comm, Z_mod_plus_full. apply Z.mod_small; lia.
Qed.

(** Little-endian evaluation of limbs of [w] bits; a limb is a slice of the
    value, also past the end, where both sides are zero. *)
Fixpoint leval (w : Z) (l : list Z) : Z :=
  match l with [] => 0 | d :: l => d + 2 ^ w * leval w l end.

Lemma leval_nonneg w l : 0 <= w -> Forall (fun d => 0 <= d < 2 ^ w) l -> 0 <= leval w l.
Proof.
  intros Hw. induction 1 as [| d l Hd Hl IH]; cbn; [lia |].
  assert (0 < 2 ^ w) by (apply Z.pow_pos_nonneg; lia). nia.
Qed.

Lemma slice_shift x d w k count :
  0 <= w -> 0 <= k -> 0 <= d < 2 ^ w -> slice (d + 2 ^ w * x) (w + k) count = slice x k count.
Proof.
  intros Hw Hk Hd. unfold slice.
  rewrite Z.pow_add_r, <- Z.div_div by (try apply Z.pow_nonzero; try apply Z.pow_pos_nonneg; lia).
  do 2 f_equal. rewrite Z.mul_comm, Z.div_add, Z.div_small by lia. lia.
Qed.

(** The same digits read most significant first. *)
Lemma fold_leval w l : forall acc,
  0 <= w -> fold_left (fun a d => 2 ^ w * a + d) l acc = 2 ^ (w * Z.of_nat (length l)) * acc + leval w (rev l).
Proof.
  assert (A : forall l m, 0 <= w -> leval w (l ++ m) = leval w l + 2 ^ (w * Z.of_nat (length l)) * leval w m).
  { intros l' m Hw. induction l' as [| d l' IH]; cbn [app leval length].
    - rewrite Z.mul_0_r, Z.pow_0_r. lia.
    - rewrite IH. replace (w * Z.of_nat (S (length l'))) with (w + w * Z.of_nat (length l')) by lia.
      rewrite Z.pow_add_r by lia. ring. }
  induction l as [| d l IH]; intros acc Hw; cbn [fold_left rev].
  - change (leval w []) with 0. cbn [length]. rewrite Z.mul_0_r, Z.pow_0_r. lia.
  - rewrite IH, A by assumption. rewrite length_rev. cbn [leval length].
    replace (w * Z.of_nat (S (length l))) with (w + w * Z.of_nat (length l)) by lia.
    rewrite Z.pow_add_r by lia. ring.
Qed.

Lemma nth_slice w l i :
  0 <= w -> Forall (fun d => 0 <= d < 2 ^ w) l ->
  nth i l 0 = slice (leval w l) (w * Z.of_nat i) w.
Proof.
  intros Hw H. revert i. induction H as [| d l Hd Hl IH]; intros i.
  - change (leval w []) with 0. unfold slice.
    rewrite Zdiv_0_l, Zmod_0_l. destruct i; reflexivity.
  - destruct i as [| i]; cbn [nth leval].
    + symmetry. apply (slice_unique _ 0 _ (leval w l)); rewrite ?Z.mul_0_r, ?Z.pow_0_r; lia.
    + rewrite IH. replace (w * Z.of_nat (S i)) with (w + w * Z.of_nat i) by lia.
      symmetry; apply slice_shift; lia.
Qed.

(** Two equal slices: compare bit by bit. *)
Ltac by_bits := apply Z.bits_inj'; let n := fresh "n" in let Hn := fresh "Hn" in intros n Hn.

(** Two neighbouring words joined into the slice that straddles them. *)
Lemma join_lor V o s w :
  0 <= o -> 0 <= s < w ->
  Z.lor (Z.shiftr (slice V o w) s) (Z.shiftl (slice V (o + w) w) (w - s) mod 2 ^ w) = slice V (o + s) w.
Proof.
  intros Ho Hs. by_bits.
  rewrite Z.lor_spec, Z.shiftr_spec, !slice_spec by lia.
  destruct (Z.ltb_spec n w) as [Lw | Lw].
  - rewrite Z.mod_pow2_bits_low by lia. destruct (Z.ltb_spec (n + s) w).
    + rewrite Z.shiftl_spec_low by lia. rewrite orb_false_r. cbn [andb]. f_equal; lia.
    + rewrite Z.shiftl_spec, slice_spec by lia. cbn [andb orb].
      destruct (Z.ltb_spec (n - (w - s)) w); [cbn [andb]; f_equal; lia | lia].
  - rewrite Z.mod_pow2_bits_high by lia. destruct (Z.ltb_spec (n + s) w); [lia | reflexivity].
Qed.

Lemma join_add V o s w :
  0 <= o -> 0 <= s < w ->
  Z.shiftr (slice V o w) s + Z.shiftl (slice V (o + w) w) (w - s) mod 2 ^ w = slice V (o + s) w.
Proof.
  intros Ho Hs. rewrite <- (join_lor V o s w) by lia.
  set (x := Z.shiftr (slice V o w) s). set (y := slice V (o + w) w).
  assert (E : Z.shiftl y (w - s) mod 2 ^ w = Z.shiftl (y mod 2 ^ s) (w - s)).
  { by_bits. destruct (Z.lt_ge_cases n (w - s)).
    - rewrite Z.mod_pow2_bits_low, !Z.shiftl_spec_low by lia. reflexivity.
    - rewrite (Z.shiftl_spec (y mod 2 ^ s)) by lia. destruct (Z.lt_ge_cases n w).
      + rewrite !Z.mod_pow2_bits_low, Z.shiftl_spec by lia. reflexivity.
      + rewrite !Z.mod_pow2_bits_high by lia. reflexivity. }
  assert (Hx : 0 <= x < 2 ^ (w - s)).
  { unfold x. rewrite Z.shiftr_div_pow2 by lia. pose proof (slice_range V o w ltac:(lia)).
    assert (0 < 2 ^ s) by (apply Z.pow_pos_nonneg; lia).
    split; [apply Z.div_pos; lia | apply Z.div_lt_upper_bound; [lia |]].
    rewrite <- Z.pow_add_r by lia. replace (s + (w - s)) with w by lia. lia. }
  rewrite E, lor_shiftl_add, Z.shiftl_mul_pow2 by lia. ring.
Qed.

Lemma slice_slice0 x off w : 0 <= off -> slice x off w = slice (x / 2 ^ off) 0 w.
Proof. intros. unfold slice. now rewrite Z.pow_0_r, Z.div_1_r. Qed.

Lemma slice_div x a b w : 0 <= a -> 0 <= b -> slice (x / 2 ^ a) b w = slice x (a + b) w.
Proof.
  intros. unfold slice. assert (0 < 2 ^ a) by (apply Z.pow_pos_nonneg; lia).
  assert (0 < 2 ^ b) by (apply Z.pow_pos_nonneg; lia).
  rewrite Z.div_div, <- Z.pow_add_r by lia. reflexivity.
Qed.

Lemma slice_zero x off w : 0 <= off -> 0 <= x < 2 ^ off -> slice x off w = 0.
Proof. intros. unfold slice. rewrite Z.div_small by lia. apply Zmod_0_l. Qed.

(** Masking with a shifted mask is masking the shifted word. *)
Lemma land_shifted_mask x m k : 0 <= k -> Z.land x (Z.shiftl m k) = Z.shiftl (Z.land (Z.shiftr x k) m) k.
Proof.
  intros Hk. by_bits. rewrite Z.land_spec. destruct (Z.lt_ge_cases n k).
  - rewrite !Z.shiftl_spec_low by lia. apply andb_false_r.
  - rewrite !Z.shiftl_spec, Z.land_spec, Z.shiftr_spec by lia. do 2 f_equal; lia.
Qed.

(** The quotient plus the bit below it is the quotient rounded to nearest. *)
Lemma round_half x k : 1 <= k -> (x + 2 ^ (k - 1)) / 2 ^ k = x / 2 ^ k + slice x (k - 1) 1.
Proof.
  intros Hk. unfold slice. rewrite Z.pow_1_r.
  assert (0 < 2 ^ (k - 1)) by (apply Z.pow_pos_nonneg; lia).
  replace (2 ^ k) with (2 ^ (k - 1) * 2) by (rewrite Z.mul_comm, <- Z.pow_succ_r by lia; f_equal; lia).
  rewrite <- !Z.div_div by lia.
  replace (x + 2 ^ (k - 1)) with (x + 1 * 2 ^ (k - 1)) by ring. rewrite Z.div_add by lia.
  set (y := x / 2 ^ (k - 1)). pose proof (Z.div_mod y 2 ltac:(lia)). pose proof (Z.mod_pos_bound y 2 ltac:(lia)).
  pose proof (Z.div_mod (y + 1) 2 ltac:(lia)). pose proof (Z.mod_pos_bound (y + 1) 2 ltac:(lia)). lia.
Qed.

(** The value of consecutive slices is the value they were cut from. *)
Fixpoint slices (w : Z) (n : nat) (x off : Z) : list Z :=
  match n with O => [] | S n => slice x off w :: slices w n x (off + w) end.

Lemma slices_leval w l : forall x off,
  0 <= w -> 0 <= off -> Forall (fun d => 0 <= d < 2 ^ w) l ->
  0 <= x < 2 ^ off -> slices w (length l) (x + 2 ^ off * leval w l) off = l.
Proof.
  induction l as [| d l IH]; intros x off Hw Ho Hl Hx; [reflexivity |].
  inversion_clear Hl as [| ? ? Hd Hl']. cbn [length slices leval]. f_equal.
  - apply (slice_unique _ x d (leval w l)); assumption || reflexivity.
  - assert (E : x + 2 ^ off * (d + 2 ^ w * leval w l) = (x + 2 ^ off * d) + 2 ^ (off + w) * leval w l)
      by (rewrite Z.pow_add_r by lia; ring).
    rewrite E. apply IH; try assumption; [lia |]. rewrite Z.pow_add_r by lia. nia.
Qed.

Lemma leval_slices w n x off :
  0 <= w -> 0 <= off -> leval w (slices w n x off) = (x / 2 ^ off) mod 2 ^ (w * Z.of_nat n).
Proof.
  intros Hw. revert off. induction n as [| n IH]; intros off Ho.
  - cbn [slices leval]. rewrite Z.mul_0_r, Z.pow_0_r, Z.mod_1_r. reflexivity.
  - cbn [slices leval]. rewrite IH by lia.
    rewrite Z.pow_add_r, <- Z.div_div by (try apply Z.pow_nonzero; try apply Z.pow_pos_nonneg; lia).
    unfold slice. set (y := x / 2 ^ off).
    replace (w * Z.of_nat (S n)) with (w + w * Z.of_nat n) by lia.
    rewrite Z.pow_add_r, Z.rem_mul_r by (try apply Z.pow_nonzero; try apply Z.pow_pos_nonneg; lia).
    reflexivity.
Qed.

Lemma slice_top V o s w :
  0 <= o -> 0 <= s < w -> 0 <= V < 2 ^ (o + w) -> Z.shiftr (slice V o w) s = slice V (o + s) w.
Proof.
  intros Ho Hs HV. rewrite <- (join_lor V o s w), (slice_zero V (o + w)) by lia.
  rewrite Z.shiftl_0_l, Zmod_0_l, Z.lor_0_r. reflexivity.
Qed.

Lemma slice_low x w n : 0 <= n <= w -> slice x 0 w mod 2 ^ n = x mod 2 ^ n.
Proof.
  intros. unfold slice. rewrite Z.pow_0_r, Z.div_1_r.
  by_bits. destruct (Z.lt_ge_cases n0 n).
  - rewrite !Z.mod_pow2_bits_low by lia. reflexivity.
  - rewrite !Z.mod_pow2_bits_high by lia. reflexivity.
Qed.

Lemma u32_slice x off : u32 (slice x off 32) = slice x off 32.
Proof. apply Z.mod_small, slice_range; lia. Qed.
Lemma u64_slice x off : u64 (slice x off 64) = slice x off 64.
Proof. apply Z.mod_small, slice_range; lia. Qed.

(** ** Byte strings, most significant byte first *)

Fixpoint beval (acc : Z) (l : list Z) : Z :=
  match l with [] => acc | b :: l => beval (256 * acc + b) l end.

Definition be_val (l : list Z) : Z := beval 0 l.

Lemma lor_bytes b0 b1 b2 b3 :
  Bnd b0 255 -> Bnd b1 255 -> Bnd b2 255 -> Bnd b3 255 ->
  Z.lor (Z.lor (Z.lor b0 (u32 (Z.shiftl b1 8))) (u32 (Z.shiftl b2 16))) (u32 (Z.shiftl b3 24))
  = b0 + 2 ^ 8 * b1 + 2 ^ 16 * b2 + 2 ^ 24 * b3.
Proof.
  unfold Bnd; intros H0 H1 H2 H3. unfold u32.
  rewrite (Z.mod_small (Z.shiftl b1 8)), (Z.mod_small (Z.shiftl b2 16)), (Z.mod_small (Z.shiftl b3 24))
    by (rewrite Z.shiftl_mul_pow2; lia).
  rewrite (lor_shiftl_add b0 b1 8), (lor_shiftl_add _ b2 16), (lor_shiftl_add _ b3 24) by lia. reflexivity.
Qed.

Lemma bytes_of_word d :
  Bnd d 0xFFFFFFFF ->
  u8 d + 2 ^ 8 * u8 (Z.shiftr d 8) + 2 ^ 16 * u8 (Z.shiftr d 16) + 2 ^ 24 * u8 (Z.shiftr d 24) = d.
Proof.
  unfold Bnd, u8; intros H. rewrite !Z.shiftr_div_pow2 by lia.
  rewrite (Z.mod_small (d / 2 ^ 24)) by (split; [apply Z.div_pos | apply Z.div_lt_upper_bound]; lia).
  assert (E2 : d / 2 ^ 16 = d / 2 ^ 8 / 2 ^ 8) by (rewrite Z.div_div by lia; reflexivity).
  assert (E3 : d / 2 ^ 24 = d / 2 ^ 8 / 2 ^ 8 / 2 ^ 8) by (rewrite !Z.div_div by lia; reflexivity).
  rewrite E3, E2.
  pose proof (Z.div_mod d (2 ^ 8) ltac:(lia)).
  pose proof (Z.div_mod (d / 2 ^ 8) (2 ^ 8) ltac:(lia)).
  pose proof (Z.div_mod (d / 2 ^ 8 / 2 ^ 8) (2 ^ 8) ltac:(lia)). lia.
Qed.

Lemma beval_linear l acc : beval acc l = 256 ^ Z.of_nat (length l) * acc + be_val l.
Proof.
  unfold be_val. revert acc. induction l as [| b l IH]; intros acc; cbn [beval length]; [lia |].
  rewrite IH, (IH (256 * 0 + b)), Nat2Z.inj_succ, Z.pow_succ_r by lia. ring.
Qed.

Lemma be_val_cons b l : be_val (b :: l) = 256 ^ Z.of_nat (length l) * b + be_val l.
Proof. unfold be_val at 1; cbn [beval]. rewrite beval_linear. f_equal; ring. Qed.

Definition bytes (l : list Z) : Prop := Forall (fun x => Bnd x 255) l.

Lemma slices_bytes n x off : bytes (slices 8 n x off).
Proof.
  revert off. induction n as [| n IH]; intros off; cbn [slices]; constructor; [| apply IH].
  unfold Bnd. pose proof (slice_range x off 8 ltac:(lia)). lia.
Qed.

Lemma length_slices w n x : forall off, length (slices w n x off) = n.
Proof. induction n as [| n IH]; intros off; cbn [slices length]; [reflexivity |]. rewrite IH. reflexivity. Qed.

Lemma be_val_range l : bytes l -> 0 <= be_val l < 256 ^ Z.of_nat (length l).
Proof.
  induction 1 as [| b l Hb Hl IH]; [unfold be_val; cbn; lia |].
  unfold Bnd in Hb. rewrite be_val_cons. cbn [length]. rewrite Nat2Z.inj_succ, Z.pow_succ_r by lia. nia.
Qed.

(** Equally long byte strings with the same value are the same string. *)
Lemma be_val_inj l : forall m, bytes l -> bytes m -> length l = length m -> be_val l = be_val m -> l = m.
Proof.
  induction l as [| b l IH]; intros [| c m] Hl Hm E V; try discriminate; [reflexivity |].
  inversion_clear Hl as [| ? ? Hb Hl']; inversion_clear Hm as [| ? ? Hc Hm'].
  injection E as E. rewrite !be_val_cons, E in V.
  pose proof (be_val_range l Hl'); pose proof (be_val_range m Hm'). rewrite E in *.
  unfold Bnd in *. assert (b = c) by nia. subst c. f_equal. apply IH; auto; lia.
Qed.

(** ** Sorted lists that grow at the end *)

Lemma Sorted_snoc {A} (R : A -> A -> Prop) l z x :
  Sorted R (l ++ [z]) -> R z x -> Sorted R ((l ++ [z]) ++ [x]).
Proof.
  induction l as [| a l IH]; intros H HR.
  - cbn. repeat constructor. exact HR.
  - cbn [app] in *. apply Sorted_inv in H as [H Hd]. constructor; [apply IH; assumption |].
    destruct l as [| b l]; cbn [app] in *; inversion_clear Hd; constructor; assumption.
Qed.

Lemma Sorted_replace_last {A} (R : A -> A -> Prop) l z x :
  Sorted R (l ++ [z]) -> (forall a, R a z -> R a x) -> Sorted R (l ++ [x]).
Proof.
  induction l as [| a l IH]; intros H HR.
  - cbn. repeat constructor.
  - cbn [app] in *. apply Sorted_inv in H as [H Hd]. constructor; [apply IH; assumption |].
    destruct l as [| b l]; cbn [app] in *; inversion_clear Hd; constructor; auto.
Qed.

Lemma StronglySorted_snoc {A} (R : A -> A -> Prop) l x :
  StronglySorted R l -> Forall (fun a => R a x) l -> StronglySorted R (l ++ [x]).
Proof.
  induction 1 as [| a l Hl IH Ha]; intros F; cbn [app]; [repeat constructor |].
  inversion_clear F. constructor; [auto |]. apply Forall_app. auto.
Qed.

Lemma StronglySorted_app_l {A} (R : A -> A -> Prop) l m : StronglySorted R (l ++ m) -> StronglySorted R l.
Proof.
  induction l as [| a l IH]; intros H; [constructor |].
  cbn [app] in H. inversion_clear H as [| ? ? Hl Ha]. constructor; [auto |]. apply Forall_app in Ha. tauto.
Qed.

(** ** Characters and C strings

    A [char] is an [ascii]; [ord] is its code.  Where the code compares
    characters as signed values, codes from 128 up are negative and lie
    outside every range it tests, as they do here.  A C string is read up to
    its first null character. *)

Definition ord (c : ascii) : Z := Z.of_N (N_of_ascii c).
Definition nul : ascii := ascii_of_N 0.
Definition chars (s : string) : list ascii := list_ascii_of_string s.

Fixpoint c_str (s : list ascii) : list ascii :=
  match s with
  | [] => []
  | ch :: s => if Ascii.eqb ch nul then [] else ch :: c_str s
  end.

Lemma ord_range c : 0 <= ord c < 256.
Proof. unfold ord. pose proof (N_ascii_bounded c). lia. Qed.

Lemma ord_inj a b : ord a = ord b -> a = b.
Proof.
  unfold ord; intros H%N2Z.inj. rewrite <- (ascii_N_embedding a), <- (ascii_N_embedding b), H. reflexivity.
Qed.

(** Case analysis on every character: what holds of the 256 codes holds. *)
Lemma ascii_all (P : ascii -> bool) :
  forallb (fun n => P (ascii_of_nat n)) (seq 0 256) = true -> forall c, P c = true.
Proof.
  intros H c. rewrite forallb_forall in H. rewrite <- (ascii_nat_embedding c).
  apply H, in_seq. pose proof (nat_ascii_bounded c). lia.
Qed.

(** ** Results

    A C++ function that may throw, or stop at a failed assertion, returns a
    [result]: a value, or the name of the exception class (for an assertion,
    its condition). *)

Inductive result (A : Type) : Type :=
| Ok (a : A)
| Throw (e : string).
Arguments Ok {A} a.
Arguments Throw {A} e.

Definition bind {A B} (m : result A) (k : A -> result B) : result B :=
  match m with Ok a => k a | Throw e => Throw e end.

Declare Scope result_scope.
Delimit Scope result_scope with result.
Notation "'let*' x := m 'in' k" := (bind m (fun x => k))
  (at level 10, x pattern, m at level 200, k at level 200) : result_scope.

(** [check b e]: go on when [b], throw [e] otherwise. *)
Definition check (b : bool) (e : string) : result unit := if b then Ok tt else Throw e.

Lemma bind_ok {A B} (m : result A) (k : A -> result B) b :
  bind m k = Ok b -> exists a, m = Ok a /\ k a = Ok b.
Proof. destruct m; cbn; [eauto | discriminate]. Qed.

Lemma check_ok b e u : check b e = Ok u -> b = true.
Proof. destruct b; cbn; congruence. Qed.

(** Split a successful run into its steps. *)
Ltac invert_ok :=
  repeat match goal with
  | H : bind ?m _ = Ok _ |- _ => apply bind_ok in H; destruct H as (? & ? & H)
  | H : check _ _ = Ok _ |- _ => apply check_ok in H
  | H : Ok _ = Ok _ |- _ => injection H as H; subst
  | H : Throw _ = Ok _ |- _ => discriminate H
  end.
