(* ===== verification/Effects.v ===== *)
(** Stateful code that may throw: a small monad for the components whose
    operations change an object and can leave it half changed.

    A run ends with a value, with an exception (its message or its condition),
    or in behaviour the C++ standard leaves undefined, such as the use of an
    iterator past the end.  An exception keeps the state the run had reached:
    nothing is rolled back unless the code does it. *)

From Stdlib Require Import Bool String List.
From stdpp Require Import base list.
Import ListNotations.

Inductive outcome (S A : Type) : Type :=
| Ret (s : S) (a : A)
| Exc (s : S) (e : string)
| Undef.
Arguments Ret {S A} s a.
Arguments Exc {S A} s e.
Arguments Undef {S A}.

Definition M (S A : Type) : Type := S -> outcome S A.

#[export] Instance M_ret S : MRet (M S) := fun A a s => Ret s a.

#[export] Instance M_bind S : MBind (M S) := fun A B k m s =>
  match m s with
  | Ret s a => k a s
  | Exc s e => Exc s e
  | Undef => Undef
  end.

Definition throw {S A} (e : string) : M S A := fun s => Exc s e.
Definition undefined {S A} : M S A := fun _ => Undef.
Definition gets {S A} (f : S -> A) : M S A := fun s => Ret s (f s).
Definition update {S} (f : S -> S) : M S unit := fun s => Ret (f s) tt.

(** XMAX_ASSERT and its kin. *)
Definition require {S} (b : bool) (e : string) : M S unit := if b then mret tt else throw e.

(** for (auto& x : l) f(x); *)
Fixpoint for_each {S B} (l : list B) (f : B -> M S unit) : M S unit :=
  match l with
  | [] => mret tt
  | x :: l => f x ;; for_each l f
  end.

(** ** Exceptions of std and of fc

    Exceptions are told apart by their texts; these are of std::out_of_range
    and std::logic_error, which the database throws. *)

Definition std_exception (e : string) : bool :=
  String.eqb e "unknown key" || String.eqb e "key not found"
  || String.eqb e "could not insert object, most likely a uniqueness constraint was violated"
  || String.eqb e "Could not modify object, most likely a uniqueness constraint was violated"
  || String.eqb e "Could not restore object, most likely a uniqueness constraint was violated".

Definition fc_exception (e : string) : bool := negb (std_exception e).

(** FC_CAPTURE_AND_RETHROW: an exception of std becomes one of fc. *)
Definition rethrown (e : string) : string := if std_exception e then String.append "fc: " e else e.

Definition capture_and_rethrow {S A} (m : M S A) : M S A := fun s =>
  match m s with
  | Exc s e => Exc s (rethrown e)
  | o => o
  end.

(** ** Reasoning

    [ends m s Q X]: a run of [m] from [s] is defined, a normal end satisfies
    [Q] and an exception [X]. *)

Definition ends {S A} (m : M S A) (s : S) (Q : S -> A -> Prop) (X : S -> string -> Prop) : Prop :=
  match m s with
  | Ret s a => Q s a
  | Exc s e => X s e
  | Undef => False
  end.

Lemma ends_bind {S A B} (m : M S A) (k : A -> M S B) s Q X :
  ends m s (fun s a => ends (k a) s Q X) X -> ends (m ≫= k) s Q X.
Proof. unfold ends, mbind, M_bind. destruct (m s); auto. Qed.

Lemma ends_weaken {S A} (m : M S A) s (Q Q' : S -> A -> Prop) (X X' : S -> string -> Prop) :
  ends m s Q X -> (forall s a, Q s a -> Q' s a) -> (forall s e, X s e -> X' s e) -> ends m s Q' X'.
Proof. unfold ends. destruct (m s); auto. Qed.

Lemma ends_require {S} b e (s : S) (Q : S -> unit -> Prop) X :
  (b = true -> Q s tt) -> (b = false -> X s e) -> ends (require b e) s Q X.
Proof. destruct b; unfold ends; cbn; auto. Qed.

(** A loop keeps what its body keeps; [P] sees the elements still to come. *)
Lemma ends_for_each {S B} (P : list B -> S -> Prop) X (f : B -> M S unit) l : forall s,
  P l s -> (forall x l s, P (x :: l) s -> ends (f x) s (fun s _ => P l s) X) ->
  ends (for_each l f) s (fun s _ => P [] s) X.
Proof.
  induction l as [| x l IH]; intros s H HS; [exact H |].
  cbn [for_each]. apply ends_bind. eapply ends_weaken; [apply HS, H | | auto].
  intros s' u Hu. apply IH; assumption.
Qed.

Lemma for_each_ext {S B} (f g : B -> M S unit) l : (forall x s, x ∈ l -> f x s = g x s) -> forall s, for_each l f s = for_each l g s.
Proof.
  induction l as [| x l IH]; intros E s; [reflexivity |]. cbn [for_each]. unfold mbind, M_bind.
  rewrite (E x s) by left. destruct (g x s); [| reflexivity ..]. apply IH. intros y s1 Hy. apply E. right. exact Hy.
Qed.

Lemma ends_capture {S A} (m : M S A) s Q X : ends m s Q (fun s e => X s (rethrown e)) -> ends (capture_and_rethrow m) s Q X.
Proof. unfold ends, capture_and_rethrow. destruct (m s); auto. Qed.

Lemma rethrown_fc e : fc_exception (rethrown e) = true.
Proof.
  unfold rethrown. destruct (std_exception e) eqn:E; [| unfold fc_exception; rewrite E; reflexivity].
  reflexivity.
Qed.

Definition no_exc {S} (s : S) (e : string) : Prop := False.

(** Any exception is accepted: for code whose caller gives the changes up. *)
Definition any_exc {S} (s : S) (e : string) : Prop := True.

Lemma no_exc_any {S A} (m : M S A) s Q : ends m s Q no_exc -> ends m s Q any_exc.
Proof. unfold ends, no_exc, any_exc. destruct (m s); auto. Qed.

Lemma ends_ret {S A} (m : M S A) s Q : ends m s Q no_exc -> exists s' a, m s = Ret s' a /\ Q s' a.
Proof. unfold ends, no_exc. destruct (m s) as [s' a | |]; intros H; try contradiction. eauto. Qed.

(** A run that ends normally. *)
Definition returns {S A} (o : outcome S A) : bool := match o with Ret _ _ => true | _ => false end.

Lemma returns_ret {S A} (o : outcome S A) : returns o = true -> exists s a, o = Ret s a.
Proof. destruct o; [eauto | discriminate ..]. Qed.

Lemma mapped_some {A B} (f : A -> B) o x y : option_map f o = Some y -> o = Some x -> f x = y.
Proof. intros E ->. injection E. auto. Qed.

Lemma mbind_ret {S A B} (m : M S A) (k : A -> M S B) s s' a : m s = Ret s' a -> (m ≫= k) s = k a s'.
Proof. unfold mbind, M_bind. intros ->. reflexivity. Qed.

Lemma ret_of_bind {S A B} (m : M S A) (f : A -> M S B) s s' b : (m ≫= f) s = Ret s' b -> exists s1 a, m s = Ret s1 a /\ f a s1 = Ret s' b.
Proof. unfold mbind, M_bind. destruct (m s) as [s1 a | |]; [eauto | discriminate ..]. Qed.
