(* ===== verification/MessageBuffer.v ===== *)
(** The message buffer of a connection: class message_buffer
    (plugins/chainnet_plugin/include/message_buffer.hpp).

    A chain of buffers of [buffer_len] bytes from a pool, with the place of
    the next byte to read and of the next byte to write.  What the memory of a
    new buffer holds is the parameter [raw].  Where the process exits the run
    is undefined.  [fill] is what a read of the socket does to the memory that
    get_buffer_sequence_for_boost_async_read names. *)

From Stdlib Require Import ZArith Lia Bool String List.
From stdpp Require Import base decidable list.
From S2P Require Import Prelude Effects.
Import ListNotations.
Local Open Scope Z_scope.

Definition index_t : Type := Z * Z.

Record message_buffer := MessageBuffer {
  buffers : list (list Z); read_ind : index_t; write_ind : index_t; sanity_check : Z }.

Section Buffer.
Variables (buffer_len : Z) (raw : list Z).

Definition new_message_buffer : message_buffer := MessageBuffer [raw] (0, 0) (0, 0) 1.

Definition chain_size (mb : message_buffer) : Z := Z.of_nat (length (buffers mb)).

Definition read_index : M message_buffer index_t := gets read_ind.

Definition push_buffer (mb : message_buffer) : message_buffer :=
  MessageBuffer (buffers mb ++ [raw]) (read_ind mb) (write_ind mb) (sanity_check mb + 1).

Definition add_buffer_to_chain : M message_buffer unit := update push_buffer.

Definition add_space (bytes : Z) : M message_buffer unit :=
  let buffers_to_add := s32 (u32 (bytes / buffer_len + 1)) in
  update (fun mb => Nat.iter (Z.to_nat buffers_to_add) push_buffer mb).

Definition reset : M message_buffer unit :=
  mb ← gets id;
  if negb (chain_size mb =? sanity_check mb) || (1000000 <? chain_size mb) then undefined
  else update (fun mb => MessageBuffer (take 1 (buffers mb)) (0, 0) (0, 0) (sanity_check mb - Z.of_nat (length (drop 1 (buffers mb))))).

Definition bytes_to_read (mb : message_buffer) : Z :=
  u32 ((fst (write_ind mb) - fst (read_ind mb)) * buffer_len + snd (write_ind mb) - snd (read_ind mb)).

Definition total_bytes (mb : message_buffer) : Z := u32 (buffer_len * chain_size mb).

Definition bytes_to_write (mb : message_buffer) : Z :=
  u32 (total_bytes mb - fst (write_ind mb) * buffer_len - snd (write_ind mb)).

Definition advance_index (index : index_t) (bytes : Z) : index_t :=
  (u32 (fst index + u32 (bytes + snd index) / buffer_len), u32 (bytes + snd index) mod buffer_len).

Definition set_read (index : index_t) (mb : message_buffer) : message_buffer :=
  MessageBuffer (buffers mb) index (write_ind mb) (sanity_check mb).
Definition set_write (index : index_t) (mb : message_buffer) : message_buffer :=
  MessageBuffer (buffers mb) (read_ind mb) index (sanity_check mb).

(** The loop over the buffers the read pointer has left, [n] of them. *)
Fixpoint drop_buffers (n : nat) : M message_buffer unit :=
  match n with
  | O => mret tt
  | S n =>
      mb ← gets id;
      match buffers mb with
      | [] => undefined
      | _ :: rest =>
          update (fun mb => MessageBuffer rest (fst (read_ind mb) - 1, snd (read_ind mb))
                              (u32 (fst (write_ind mb) - 1), snd (write_ind mb)) (sanity_check mb - 1)) ;;
          drop_buffers n
      end
  end.

Definition advance_read_ptr (bytes : Z) : M message_buffer unit :=
  update (fun mb => set_read (advance_index (read_ind mb) bytes) mb) ;;
  mb ← gets id;
  if bool_decide (read_ind mb = write_ind mb) then reset
  else drop_buffers (Z.to_nat (fst (read_ind mb))).

Definition advance_write_ptr (bytes : Z) : M message_buffer unit :=
  update (fun mb => set_write (advance_index (write_ind mb) bytes) mb) ;;
  update (fun mb => Nat.iter (Z.to_nat (fst (write_ind mb) + 1 - chain_size mb)) push_buffer mb).

(** [size] bytes at the pointer of an index; at() throws past the end of a
    buffer, and a copy past it is undefined. *)
Definition bytes_at (index : index_t) (size : Z) : M message_buffer (list Z) :=
  mb ← gets id;
  match buffers mb !! Z.to_nat (fst index) with
  | None => undefined
  | Some b =>
      require (snd index <? buffer_len) "std::out_of_range" ;;
      if snd index + size <=? buffer_len then mret (take (Z.to_nat size) (drop (Z.to_nat (snd index)) b)) else undefined
  end.

(** What is written to [s], or None for false; the inner call's result is not
    looked at. *)
Fixpoint read_loop (fuel : nat) (size : Z) : M message_buffer (option (list Z)) :=
  match fuel with
  | O => undefined
  | S fuel =>
      mb ← gets id;
      if bytes_to_read mb <? size then mret None
      else if u32 (snd (read_ind mb) + size) <=? buffer_len then
        s ← bytes_at (read_ind mb) size;
        advance_read_ptr size ;;
        mret (Some s)
      else
        let num_in_buffer := u32 (buffer_len - snd (read_ind mb)) in
        s ← bytes_at (read_ind mb) num_in_buffer;
        advance_read_ptr num_in_buffer ;;
        rest ← read_loop fuel (u32 (size - num_in_buffer));
        mret (Some (s ++ default [] rest))
  end.

Definition read (size : Z) : M message_buffer (option (list Z)) := read_loop (S (Z.to_nat size)) size.

Fixpoint peek_loop (fuel : nat) (size : Z) (index : index_t) : M message_buffer (option (list Z)) :=
  match fuel with
  | O => undefined
  | S fuel =>
      mb ← gets id;
      if bytes_to_read mb <? size then mret None
      else if u32 (snd index + size) <=? buffer_len then
        s ← bytes_at index size;
        mret (Some s)
      else
        let num_in_buffer := u32 (buffer_len - snd index) in
        s ← bytes_at index num_in_buffer;
        rest ← peek_loop fuel (u32 (size - num_in_buffer)) (advance_index index num_in_buffer);
        mret (Some (s ++ default [] rest))
  end.

Definition peek (size : Z) (index : index_t) : M message_buffer (option (list Z)) := peek_loop (S (Z.to_nat size)) size index.

(** The bytes of the sequence given to async_read, from the write pointer on. *)
Definition sequence_size (mb : message_buffer) : Z :=
  buffer_len * (chain_size mb - fst (write_ind mb)) - snd (write_ind mb).

(** The socket puts [data] into the buffers of the sequence, in order. *)
Fixpoint fill (bufs : list (list Z)) (off : nat) (data : list Z) : list (list Z) :=
  match bufs with
  | [] => []
  | b :: bufs => (take off b ++ take (length b - off) data ++ drop (off + length data) b) :: fill bufs 0 (drop (length b - off) data)
  end.

Definition read_some (data : list Z) (mb : message_buffer) : message_buffer :=
  let w := Z.to_nat (fst (write_ind mb)) in
  MessageBuffer (take w (buffers mb) ++ fill (drop w (buffers mb)) (Z.to_nat (snd (write_ind mb))) data)
    (read_ind mb) (write_ind mb) (sanity_check mb).

(** ** The queue *)

(** The bytes that are in the buffer. *)
Definition queued (mb : message_buffer) : list Z :=
  take (Z.to_nat (bytes_to_read mb)) (drop (Z.to_nat (snd (read_ind mb))) (concat (buffers mb))).

Record buffer_inv (mb : message_buffer) : Prop := {
  inv_buffers : Forall (fun b => length b = Z.to_nat buffer_len) (buffers mb);
  inv_read : fst (read_ind mb) = 0 /\ 0 <= snd (read_ind mb) < buffer_len;
  inv_write : 0 <= fst (write_ind mb) < chain_size mb /\ 0 <= snd (write_ind mb) < buffer_len;
  inv_order : snd (read_ind mb) <= fst (write_ind mb) * buffer_len + snd (write_ind mb);
  inv_sane : sanity_check mb = chain_size mb;
  inv_size : chain_size mb <= 1000000 /\ buffer_len * chain_size mb < 2 ^ 32 }.
End Buffer.
