(* ===== verification/MessageBufferThm.v ===== *)
(** The message buffer is a queue of bytes: its operations keep the
    invariant, a read from the socket appends to the queue, advancing and
    reading take from its front, peeking leaves it alone. *)

From Stdlib Require Import ZArith Lia Bool String List.
From stdpp Require Import base decidable list.
From S2P Require Import Prelude Effects MessageBuffer.
Import ListNotations.
Local Open Scope Z_scope.

Lemma u32_small z : 0 <= z < 2 ^ 32 -> u32 z = z.
Proof. apply Z.mod_small. Qed.

(** ** Lists of buffers of the same length *)

Section Chains.
Context {A : Type} (n : nat).
Implicit Types (l : list (list A)).

Lemma concat_length_uniform l : Forall (fun b => length b = n) l -> length (concat l) = (length l * n)%nat.
Proof using. induction 1 as [| b l B F IH]; cbn; [reflexivity |]. rewrite length_app, B, IH. reflexivity. Qed.

Lemma drop_concat l k : Forall (fun b => length b = n) l -> drop (k * n) (concat l) = concat (drop k l).
Proof using.
  intros F. revert k. induction F as [| b l B F IH]; intros [| k]; cbn; [reflexivity | apply drop_nil | reflexivity |].
  rewrite drop_app_ge, B by lia. rewrite <- IH. f_equal. lia.
Qed.

Lemma take_concat l k : Forall (fun b => length b = n) l -> take (k * n) (concat l) = concat (take k l).
Proof using.
  intros F. revert k. induction F as [| b l B F IH]; intros [| k]; cbn; [reflexivity | apply take_nil | reflexivity |].
  rewrite take_app_ge, B by lia. rewrite <- IH. repeat f_equal. lia.
Qed.

(** The bytes of one buffer are those of the chain from its place on. *)
Lemma chain_piece l k off m b : Forall (fun b => length b = n) l -> l !! k = Some b -> (off + m <= n)%nat ->
  take m (drop off b) = take m (drop (k * n + off) (concat l)).
Proof using.
  intros F L B. rewrite <- drop_drop, (drop_concat l k F), (drop_S l b k L). cbn.
  assert (Hb : length b = n) by (eapply Forall_lookup_1 in F; eauto).
  rewrite drop_app_le by lia. rewrite take_app_le; [reflexivity | rewrite length_drop; lia].
Qed.
End Chains.

Lemma fill_length bufs off data : length (fill bufs off data) = length bufs.
Proof. revert off data. induction bufs as [| b bufs IH]; intros; cbn; [| rewrite IH]; reflexivity. Qed.

Lemma fill_uniform n bufs off data : Forall (fun b => length b = n) bufs -> (off <= n)%nat -> Forall (fun b => length b = n) (fill bufs off data).
Proof.
  intros F. revert off data. induction F as [| b bufs B F IH]; intros off data O; cbn; [constructor |]. constructor; [| apply IH; lia].
  rewrite !length_app, !length_take, length_drop. lia.
Qed.

Lemma fill_concat n bufs off data : Forall (fun b => length b = n) bufs -> (off <= n)%nat -> (off + length data <= length (concat bufs))%nat ->
  concat (fill bufs off data) = take off (concat bufs) ++ data ++ drop (off + length data) (concat bufs).
Proof.
  intros F. revert off data. induction F as [| b bufs B F IH]; intros off data O L; cbn in *.
  - destruct data; [rewrite take_nil, drop_nil; reflexivity | cbn in L; lia].
  - rewrite length_app, B in L. rewrite take_app_le by lia. rewrite B. destruct (le_lt_dec (off + length data) n) as [S | S].
    + rewrite (take_ge data), (drop_ge data) by lia. rewrite IH by (cbn; lia). cbn. rewrite drop_app_le by lia. rewrite <- !app_assoc. reflexivity.
    + rewrite (drop_ge b) by lia. rewrite IH by (rewrite ?length_drop; lia). rewrite app_nil_r. rewrite (drop_app_ge b) by lia. cbn.
      rewrite length_drop, B. rewrite <- app_assoc. f_equal. rewrite !app_assoc. f_equal; [rewrite app_nil_r, take_drop; reflexivity |].
      f_equal. lia.
Qed.

Section Buffer.
Variables (buffer_len : Z) (raw : list Z).
Hypothesis Len_pos : 0 < buffer_len.
Hypothesis Raw_len : length raw = Z.to_nat buffer_len.

Abbreviation inv := (buffer_inv buffer_len).
Abbreviation queued := (queued buffer_len).
Implicit Types (mb : message_buffer).

(** Where the next byte goes in the chain as a whole. *)
Definition write_pos mb : Z := fst (write_ind mb) * buffer_len + snd (write_ind mb).
Definition flat mb : list Z := concat (buffers mb).

Lemma write_pos_bound mb : inv mb -> 0 <= write_pos mb < buffer_len * chain_size mb.
Proof using Len_pos Raw_len. intros [_ _ W _ _ _]. unfold write_pos. nia. Qed.

Lemma flat_length mb : inv mb -> Z.of_nat (length (flat mb)) = buffer_len * chain_size mb.
Proof using Len_pos Raw_len.
  intros [B _ _ _ _ _]. unfold flat, chain_size. rewrite (concat_length_uniform (Z.to_nat buffer_len)) by exact B. nia.
Qed.

Lemma bytes_to_read_pos mb : inv mb -> bytes_to_read buffer_len mb = write_pos mb - snd (read_ind mb).
Proof using Len_pos Raw_len.
  intros I. pose proof (write_pos_bound mb I) as W. destruct I as [_ [R0 R] _ O _ S]. unfold bytes_to_read. rewrite R0, u32_small; unfold write_pos in *; lia.
Qed.

Lemma queued_flat mb : inv mb -> queued mb = drop (Z.to_nat (snd (read_ind mb))) (take (Z.to_nat (write_pos mb)) (flat mb)).
Proof using Len_pos Raw_len.
  intros I. unfold MessageBuffer.queued. rewrite (bytes_to_read_pos mb I). rewrite take_drop_commute. do 2 f_equal.
  pose proof (write_pos_bound mb I). destruct I as [_ [_ R] _ O _ _]. unfold write_pos in *. lia.
Qed.

Lemma queued_length mb : inv mb -> Z.of_nat (length (queued mb)) = bytes_to_read buffer_len mb.
Proof using Len_pos Raw_len.
  intros I. rewrite (queued_flat mb I), (bytes_to_read_pos mb I). pose proof (write_pos_bound mb I). pose proof (flat_length mb I).
  rewrite length_drop, length_take. destruct I as [_ [_ R] _ O _ _]. unfold write_pos in *. lia.
Qed.

Lemma new_buffer_inv : buffer_len < 2 ^ 32 -> inv (new_message_buffer raw) /\ queued (new_message_buffer raw) = [].
Proof using Len_pos Raw_len.
  intros L. assert (I : inv (new_message_buffer raw)).
  { split; unfold chain_size; cbn; [constructor; [exact Raw_len | constructor] | lia ..]. }
  split; [exact I |]. apply length_zero_iff_nil. pose proof (queued_length _ I) as Q. rewrite (bytes_to_read_pos _ I) in Q. unfold write_pos in Q. cbn in Q. lia.
Qed.

(** The place [bytes] further on. *)
Lemma advance_index_spec i bytes : 0 <= fst i -> 0 <= snd i < buffer_len -> 0 <= bytes ->
  fst i * buffer_len + snd i + bytes < 2 ^ 32 ->
  let j := advance_index buffer_len i bytes in
  0 <= fst i <= fst j /\ 0 <= snd j < buffer_len /\ fst j * buffer_len + snd j = fst i * buffer_len + snd i + bytes.
Proof using Len_pos Raw_len.
  intros I0 I1 B S. unfold advance_index. cbv zeta. cbn [fst snd]. assert (0 <= fst i * buffer_len) by (apply Z.mul_nonneg_nonneg; lia).
  rewrite (u32_small (bytes + snd i)) by lia. pose proof (Z.div_mod (bytes + snd i) buffer_len) as D.
  pose proof (Z.mod_pos_bound (bytes + snd i) buffer_len Len_pos). assert (0 <= (bytes + snd i) / buffer_len) by (apply Z.div_pos; lia).
  rewrite u32_small by nia. nia.
Qed.

Lemma push_iter k mb : Nat.iter k (push_buffer raw) mb =
  MessageBuffer (buffers mb ++ replicate k raw) (read_ind mb) (write_ind mb) (sanity_check mb + Z.of_nat k).
Proof using Raw_len.
  induction k as [| k IH].
  - cbn. rewrite app_nil_r, Z.add_0_r. destruct mb; reflexivity.
  - rewrite Nat.iter_succ, IH. unfold push_buffer. cbn [buffers read_ind write_ind sanity_check].
    rewrite <- app_assoc, <- replicate_S_end. f_equal. lia.
Qed.

(** More space changes nothing else. *)
Lemma push_inv k mb : inv mb -> chain_size mb + Z.of_nat k <= 1000000 -> buffer_len * (chain_size mb + Z.of_nat k) < 2 ^ 32 ->
  let mb' := Nat.iter k (push_buffer raw) mb in
  inv mb' /\ queued mb' = queued mb /\ chain_size mb' = chain_size mb + Z.of_nat k.
Proof using Len_pos Raw_len.
  intros I C S mb'. assert (Cs : chain_size mb' = chain_size mb + Z.of_nat k).
  { unfold mb', chain_size. rewrite push_iter. cbn. rewrite length_app, length_replicate. lia. }
  assert (Bs : buffers mb' = buffers mb ++ replicate k raw /\ read_ind mb' = read_ind mb /\ write_ind mb' = write_ind mb /\
               sanity_check mb' = sanity_check mb + Z.of_nat k) by (unfold mb'; rewrite push_iter; cbn; auto).
  destruct Bs as (Eb & Er & Ew & Es).
  assert (I' : inv mb').
  { destruct I as [B R W O Sn Sz]. split; rewrite ?Eb, ?Er, ?Ew, ?Es, ?Cs; try assumption; try lia.
    apply Forall_app. split; [exact B | apply Forall_replicate, Raw_len]. }
  split; [exact I' |]. split; [| exact Cs]. rewrite (queued_flat mb' I'), (queued_flat mb I). unfold write_pos, flat. rewrite Eb, Er, Ew.
  f_equal. rewrite concat_app, take_app_le; [reflexivity |]. pose proof (flat_length mb I) as F. pose proof (write_pos_bound mb I).
  unfold flat, write_pos in *. lia.
Qed.

(** Bytes from the socket join the queue; the chain grows by a buffer at most. *)
Lemma received data mb : inv mb -> Z.of_nat (length data) <= sequence_size buffer_len mb ->
  chain_size mb < 1000000 -> buffer_len * (chain_size mb + 1) < 2 ^ 32 ->
  exists mb', advance_write_ptr buffer_len raw (Z.of_nat (length data)) (read_some data mb) = Ret mb' tt /\
    inv mb' /\ queued mb' = queued mb ++ data /\ chain_size mb <= chain_size mb' <= chain_size mb + 1.
Proof using Len_pos Raw_len.
  intros I Sq C S. pose proof (write_pos_bound mb I) as Wb. pose proof (flat_length mb I) as Fl. pose proof I as [B R W O Sn Sz].
  set (m1 := read_some data mb). set (d := Z.of_nat (length data)) in *.
  assert (C1 : chain_size m1 = chain_size mb).
  { unfold m1, read_some, chain_size. cbn. rewrite length_app, fill_length, <- length_app, take_drop. reflexivity. }
  unfold sequence_size in Sq. unfold write_pos in Wb.
  assert (F1 : flat m1 = take (Z.to_nat (write_pos mb)) (flat mb) ++ data ++ drop (Z.to_nat (write_pos mb) + length data) (flat mb)).
  { unfold flat at 1, m1, read_some. cbn. rewrite concat_app, (fill_concat (Z.to_nat buffer_len)).
    - rewrite <- !(take_concat (Z.to_nat buffer_len)), <- !(drop_concat (Z.to_nat buffer_len)) by exact B. fold (flat mb).
      rewrite drop_drop, app_assoc. unfold write_pos.
      replace (Z.to_nat (fst (write_ind mb) * buffer_len + snd (write_ind mb)))
        with (Z.to_nat (fst (write_ind mb)) * Z.to_nat buffer_len + Z.to_nat (snd (write_ind mb)))%nat
        by (rewrite Z2Nat.inj_add, Z2Nat.inj_mul by (try apply Z.mul_nonneg_nonneg; lia); reflexivity).
      f_equal; [| f_equal; f_equal; lia]. rewrite <- take_take_drop. f_equal.
    - apply Forall_drop, B.
    - lia.
    - rewrite <- (drop_concat (Z.to_nat buffer_len)), length_drop by exact B. fold (flat mb). nia. }
  destruct (advance_index_spec (write_ind mb) d) as (J0 & J1 & J2); [lia .. |].
  set (j := advance_index buffer_len (write_ind mb) d) in *.
  set (k := Z.to_nat (fst j + 1 - chain_size mb)).
  assert (K : (k <= 1)%nat) by (unfold k; nia).
  exists (Nat.iter k (push_buffer raw) (set_write j m1)). split.
  { unfold advance_write_ptr. unfold update, mbind, M_bind. cbn [write_ind set_write]. unfold k. rewrite <- C1. reflexivity. }
  assert (Rd : read_ind m1 = read_ind mb) by reflexivity. assert (Sn1 : sanity_check m1 = sanity_check mb) by reflexivity.
  assert (B1 : Forall (fun b => length b = Z.to_nat buffer_len) (buffers m1)).
  { unfold m1, read_some. cbn. apply Forall_app. split; [apply Forall_take, B | apply fill_uniform; [apply Forall_drop, B | lia]]. }
  rewrite push_iter. set (mb' := MessageBuffer _ _ _ _).
  assert (C' : chain_size mb' = chain_size mb + Z.of_nat k).
  { rewrite <- C1. unfold mb', chain_size. cbn [buffers set_write]. rewrite length_app, length_replicate. lia. }
  assert (I' : inv mb').
  { split; change (buffers mb') with (buffers m1 ++ replicate k raw) || change (sanity_check mb') with (sanity_check mb + Z.of_nat k) || idtac;
      change (read_ind mb') with (read_ind mb) || idtac; change (write_ind mb') with j || idtac; rewrite ?C'.
    - apply Forall_app. split; [exact B1 | apply Forall_replicate, Raw_len].
    - exact R.
    - unfold k. lia.
    - rewrite J2. lia.
    - lia.
    - split; [lia |]. eapply Z.le_lt_trans; [| exact S]. apply Z.mul_le_mono_nonneg_l; lia. }
  split; [exact I' |]. split; [| lia].
  rewrite (queued_flat mb' I'), (queued_flat mb I). replace (write_pos mb') with (write_pos mb + d) by (exact (eq_sym J2)).
  change (read_ind mb') with (read_ind mb).
  replace (flat mb') with (flat m1 ++ concat (replicate k raw)) by (symmetry; apply concat_app). rewrite F1. unfold write_pos. set (w := fst (write_ind mb) * buffer_len + snd (write_ind mb)) in *.
  assert (Lw : length (take (Z.to_nat w) (flat mb)) = Z.to_nat w) by (rewrite length_take; lia).
  replace (Z.to_nat (w + d)) with (length (take (Z.to_nat w) (flat mb)) + length data)%nat by lia.
  rewrite <- !app_assoc, take_app_add, take_app_length, drop_app_le by (rewrite Lw; unfold write_pos, w in *; lia). reflexivity.
Qed.

Lemma drop_buffers_runs k mb : (k <= length (buffers mb))%nat -> Z.of_nat k <= fst (write_ind mb) < 2 ^ 32 ->
  drop_buffers k mb = Ret (MessageBuffer (drop k (buffers mb)) (fst (read_ind mb) - Z.of_nat k, snd (read_ind mb))
                             (fst (write_ind mb) - Z.of_nat k, snd (write_ind mb)) (sanity_check mb - Z.of_nat k)) tt.
Proof using Len_pos Raw_len.
  revert mb. induction k as [| k IH]; intros [bufs [r0 r1] [w0 w1] sc] L W; cbn [buffers read_ind write_ind sanity_check fst snd drop_buffers] in *.
  - cbn. rewrite !Z.sub_0_r. reflexivity.
  - destruct bufs as [| b bufs]; [cbn in L; lia |]. unfold gets, update, mbind, M_bind. cbn [buffers read_ind write_ind sanity_check fst snd id].
    rewrite IH; cbn [buffers read_ind write_ind sanity_check fst snd]; rewrite ?u32_small by lia.
    + f_equal. f_equal; [f_equal; lia | f_equal; lia | lia].
    + cbn in L. lia.
    + lia.
Qed.

(** Advancing takes bytes from the front. *)
Lemma advance_read n mb : inv mb -> 0 <= n <= bytes_to_read buffer_len mb ->
  exists mb', advance_read_ptr buffer_len n mb = Ret mb' tt /\ inv mb' /\ queued mb' = drop (Z.to_nat n) (queued mb) /\ chain_size mb' <= chain_size mb.
Proof using Len_pos Raw_len.
  intros I N. pose proof (bytes_to_read_pos mb I) as Bp. pose proof (write_pos_bound mb I) as Wb. pose proof (queued_length mb I) as Ql.
  pose proof I as [B [R0 R] W O Sn Sz]. unfold advance_read_ptr. unfold update, gets, mbind at 1 2, M_bind at 1 2. cbn [id].
  destruct (advance_index_spec (read_ind mb) n) as (J0 & J1 & J2); [lia .. |].
  set (j := advance_index buffer_len (read_ind mb) n) in *. rewrite R0 in J2. cbn [read_ind write_ind set_read].
  case_bool_decide as E.
  - assert (Wp : write_pos mb = snd (read_ind mb) + n) by (unfold write_pos; rewrite <- E; lia).
    unfold reset, gets, update, mbind, M_bind. cbn [id buffers sanity_check set_read]. unfold chain_size at 1 2. cbn [buffers set_read]. fold (chain_size mb).
    rewrite Sn, Z.eqb_refl. destruct (Z.ltb_spec 1000000 (chain_size mb)); [lia |]. cbn [negb orb].
    assert (C1 : length (take 1 (buffers mb)) = 1%nat) by (rewrite length_take; unfold chain_size in W; lia).
    exists (MessageBuffer (take 1 (buffers mb)) (0, 0) (0, 0) (chain_size mb - Z.of_nat (length (drop 1 (buffers mb))))).
    split; [cbn [buffers sanity_check set_read]; rewrite Sn; reflexivity |].
    assert (I' : inv (MessageBuffer (take 1 (buffers mb)) (0, 0) (0, 0) (chain_size mb - Z.of_nat (length (drop 1 (buffers mb)))))).
    { split; unfold chain_size in *; cbn [buffers read_ind write_ind sanity_check fst snd]; rewrite ?C1; try lia.
      - apply Forall_take, B.
      - rewrite length_drop. lia.
      - nia. }
    split; [exact I' |]. split; [| unfold chain_size in *; cbn [buffers]; lia].
    apply queued_length in I' as Q'. rewrite (bytes_to_read_pos _ I') in Q'. unfold write_pos in Q'. cbn [write_ind read_ind fst snd] in Q'.
    rewrite (drop_ge (queued mb)) by lia. apply length_zero_iff_nil. lia.
  - assert (Pos : snd (read_ind mb) + n <= write_pos mb) by lia.
    assert (Wf : fst j <= fst (write_ind mb)) by (unfold write_pos in *; nia).
    rewrite drop_buffers_runs; cbn [buffers read_ind write_ind sanity_check set_read]; rewrite ?Z2Nat.id by lia; [| unfold chain_size in *; lia | nia].
    eexists. split; [reflexivity |]. set (mb' := MessageBuffer _ _ _ _).
    assert (C' : chain_size mb' = chain_size mb - fst j) by (unfold mb', chain_size in *; cbn [buffers]; rewrite length_drop; lia).
    assert (I' : inv mb').
    { split; rewrite ?C'; unfold mb'; cbn [buffers read_ind write_ind sanity_check fst snd]; try lia.
      - apply Forall_drop, B.
      - unfold write_pos in *. nia.
      - split; [lia |]. eapply Z.le_lt_trans; [| apply Sz]. apply Z.mul_le_mono_nonneg_l; lia. }
    split; [exact I' |]. split; [| lia].
    rewrite (queued_flat mb' I'), (queued_flat mb I). unfold write_pos, flat, mb'. cbn [buffers read_ind write_ind fst snd].
    rewrite <- (drop_concat (Z.to_nat buffer_len)) by exact B. fold (flat mb).
    rewrite take_drop_commute, !drop_drop.
    assert (0 <= fst j * buffer_len) by (apply Z.mul_nonneg_nonneg; lia).
    assert (0 <= (fst (write_ind mb) - fst j) * buffer_len) by (apply Z.mul_nonneg_nonneg; lia).
    assert (Z.of_nat (Z.to_nat (fst j) * Z.to_nat buffer_len) = fst j * buffer_len) by (rewrite Nat2Z.inj_mul, !Z2Nat.id by lia; reflexivity).
    assert (write_pos mb = fst (write_ind mb) * buffer_len + snd (write_ind mb)) by reflexivity.
    f_equal; [lia |]. f_equal. lia.
Qed.

(** Bytes that lie in one buffer are copied. *)
Lemma bytes_at_runs i size mb : inv mb -> 0 <= fst i < chain_size mb -> 0 <= snd i < buffer_len -> 0 <= size -> snd i + size <= buffer_len ->
  bytes_at buffer_len i size mb = Ret mb (take (Z.to_nat size) (drop (Z.to_nat (fst i * buffer_len + snd i)) (flat mb))).
Proof using Len_pos Raw_len.
  intros I F S0 Z0 S. unfold bytes_at, gets, mbind at 1, M_bind at 1. cbn [id].
  destruct (lookup_lt_is_Some_2 (buffers mb) (Z.to_nat (fst i))) as [b L]; [unfold chain_size in F; lia |]. rewrite L.
  destruct (Z.ltb_spec (snd i) buffer_len); [| lia]. destruct (Z.leb_spec (snd i + size) buffer_len); [| lia].
  unfold require, mbind, M_bind, mret, M_ret. f_equal.
  rewrite (chain_piece (Z.to_nat buffer_len) (buffers mb) (Z.to_nat (fst i))); [| apply I | exact L | lia].
  fold (flat mb). do 2 f_equal. rewrite Z2Nat.inj_add, Z2Nat.inj_mul by (try apply Z.mul_nonneg_nonneg; lia). reflexivity.
Qed.

(** The front of the queue, copied from the read pointer. *)
Lemma front_bytes n mb : inv mb -> 0 <= n <= bytes_to_read buffer_len mb ->
  take (Z.to_nat n) (drop (Z.to_nat (0 * buffer_len + snd (read_ind mb))) (flat mb)) = take (Z.to_nat n) (queued mb).
Proof using Len_pos Raw_len. intros I N. cbn [Z.mul Z.add]. unfold MessageBuffer.queued. rewrite take_take. f_equal. lia. Qed.

(** A read of bytes that are there takes them from the front. *)
Lemma buffer_read_runs size mb : inv mb -> 0 <= size <= bytes_to_read buffer_len mb ->
  exists mb', read buffer_len size mb = Ret mb' (Some (take (Z.to_nat size) (queued mb))) /\
    inv mb' /\ queued mb' = drop (Z.to_nat size) (queued mb) /\ chain_size mb' <= chain_size mb.
Proof using Len_pos Raw_len.
  unfold read. assert (F : (Z.to_nat size < S (Z.to_nat size))%nat) by lia. revert F. generalize (S (Z.to_nat size)) as fuel.
  intros fuel. revert size mb. induction fuel as [| fuel IH]; intros size mb F I N; [lia |].
  pose proof (bytes_to_read_pos mb I) as Bp. pose proof (write_pos_bound mb I) as Wb. pose proof I as [B [R0 R] W O Sn Sz].
  assert (Lb : buffer_len < 2 ^ 32) by nia.
  cbn [read_loop]. unfold gets, mbind at 1, M_bind at 1. cbn [id]. destruct (Z.ltb_spec (bytes_to_read buffer_len mb) size); [lia |].
  rewrite u32_small by lia. destruct (Z.leb_spec (snd (read_ind mb) + size) buffer_len).
  - rewrite (mbind_ret _ _ mb mb _ (bytes_at_runs (read_ind mb) size mb I ltac:(lia) ltac:(lia) ltac:(lia) ltac:(lia))).
    rewrite R0, front_bytes by assumption. destruct (advance_read size mb I N) as (mb' & Run & I' & Q & C).
    rewrite (mbind_ret _ _ mb mb' tt Run). exists mb'. auto.
  - rewrite (u32_small (buffer_len - snd (read_ind mb))) by lia. set (num := buffer_len - snd (read_ind mb)) in *.
    rewrite (mbind_ret _ _ mb mb _ (bytes_at_runs (read_ind mb) num mb I ltac:(lia) ltac:(lia) ltac:(lia) ltac:(lia))).
    rewrite R0, front_bytes by (assumption || lia). destruct (advance_read num mb I ltac:(lia)) as (m1 & Run & I1 & Q1 & C1).
    rewrite (mbind_ret _ _ mb m1 tt Run). rewrite u32_small by lia.
    pose proof (queued_length mb I) as L0. pose proof (queued_length m1 I1) as L1. rewrite Q1, length_drop in L1.
    destruct (IH (size - num) m1 ltac:(lia) I1 ltac:(lia)) as (mb' & Run' & I' & Q' & C').
    rewrite (mbind_ret _ _ m1 mb' _ Run'). exists mb'. cbn [default].
    replace (Z.to_nat size) with (Z.to_nat num + Z.to_nat (size - num))%nat by lia.
    rewrite Q1 in Run', Q' |- *. split; [| split; [exact I' | split; [rewrite Q', drop_drop; reflexivity | lia]]].
    unfold mret, M_ret, id. do 2 f_equal. apply take_take_drop.
Qed.

(** Peeking gives the bytes from a place in the queue on and changes nothing. *)
Lemma peek_runs size i mb : inv mb -> 0 <= fst i -> 0 <= snd i < buffer_len -> 0 <= size <= bytes_to_read buffer_len mb ->
  fst i * buffer_len + snd i + size <= write_pos mb ->
  peek buffer_len size i mb = Ret mb (Some (take (Z.to_nat size) (drop (Z.to_nat (fst i * buffer_len + snd i)) (flat mb)))).
Proof using Len_pos Raw_len.
  unfold peek. assert (F : (Z.to_nat size < S (Z.to_nat size))%nat) by lia. revert F. generalize (S (Z.to_nat size)) as fuel.
  intros fuel. revert size i. induction fuel as [| fuel IH]; intros size i F I I0 I1 N P; [lia |].
  pose proof (write_pos_bound mb I) as Wb. pose proof I as [_ _ W _ _ Sz]. assert (Lb : buffer_len < 2 ^ 32) by nia. assert (0 <= fst i * buffer_len) by (apply Z.mul_nonneg_nonneg; lia).
  cbn [peek_loop]. unfold gets, mbind at 1, M_bind at 1. cbn [id]. destruct (Z.ltb_spec (bytes_to_read buffer_len mb) size); [lia |].
  assert (Fi : fst i < chain_size mb) by nia. rewrite u32_small by lia. destruct (Z.leb_spec (snd i + size) buffer_len).
  - rewrite (mbind_ret _ _ mb mb _ (bytes_at_runs i size mb I ltac:(lia) ltac:(lia) ltac:(lia) ltac:(lia))). reflexivity.
  - rewrite (u32_small (buffer_len - snd i)) by lia. set (num := buffer_len - snd i) in *.
    rewrite (mbind_ret _ _ mb mb _ (bytes_at_runs i num mb I ltac:(lia) ltac:(lia) ltac:(lia) ltac:(lia))). rewrite u32_small by lia.
    destruct (advance_index_spec i num) as (J0 & J1 & J2); [lia .. |].
    rewrite (mbind_ret _ _ mb mb _ (IH (size - num) (advance_index buffer_len i num) ltac:(lia) I ltac:(lia) J1 ltac:(lia) ltac:(lia))).
    rewrite J2. unfold mret, M_ret. cbn [default]. unfold id. do 2 f_equal. replace (Z.to_nat size) with (Z.to_nat num + Z.to_nat (size - num))%nat by lia.
    rewrite <- take_take_drop, drop_drop. do 3 f_equal. lia.
Qed.

Lemma peek_front size mb : inv mb -> 0 <= size <= bytes_to_read buffer_len mb ->
  peek buffer_len size (read_ind mb) mb = Ret mb (Some (take (Z.to_nat size) (queued mb))).
Proof using Len_pos Raw_len.
  intros I N. pose proof (bytes_to_read_pos mb I) as Bp. pose proof I as [_ [R0 R] _ _ _ _].
  rewrite peek_runs by (assumption || lia). rewrite R0, front_bytes by assumption. reflexivity.
Qed.

Lemma read_too_much size mb : bytes_to_read buffer_len mb < size -> read buffer_len size mb = Ret mb None.
Proof using Len_pos Raw_len.
  intros L. unfold read. cbn [read_loop]. unfold gets, mbind, M_bind. cbn [id]. destruct (Z.ltb_spec (bytes_to_read buffer_len mb) size); [reflexivity | lia].
Qed.
End Buffer.


(** Buffers of four bytes; ten have arrived and three have been read. *)
Definition toy_buffer : option message_buffer :=
  match (advance_write_ptr 4 [0; 0; 0; 0] 10 ;; advance_read_ptr 4 3)
          (read_some [1; 2; 3; 4; 5; 6; 7; 8; 9; 10] (Nat.iter 2 (push_buffer [0; 0; 0; 0]) (new_message_buffer [0; 0; 0; 0]))) with
  | Ret mb _ => Some mb
  | _ => None
  end.

