(* ===== verification/PeerReading.v ===== *)
(** Reading messages from a peer: the callback of start_read_message in
    chainnet_plugin_impl and connection_xmax::process_next_message
    (plugins/chainnet_plugin/chainnet_plugin.cpp).

    A [reader] is the message buffer of a connection and the rest of the
    node's state, of a type [S].  [unpack] is fc::raw::unpack of a net_message
    on a stream of bytes, [handle_message] the visitor msgHandler and [close]
    chainnet_plugin_impl::close.  The callback returns whether it asked the
    socket for more.

    process_next_message looks for the tag of the variant with peek, which
    takes its index by value: a first byte with the high bit set is looked at
    again and again, until the shift of a 32-bit number is undefined. *)

From Stdlib Require Import ZArith Lia Bool String List.
From stdpp Require Import base decidable list.
From S2P Require Import Prelude Effects MessageBuffer.
Import ListNotations.
Local Open Scope Z_scope.

Record reader (S : Type) := Reader { mb : message_buffer; others : S }.
Arguments Reader {S}.
Arguments mb {S}.
Arguments others {S}.

Definition message_header_size : Z := 4.
Definition def_send_buffer_size : Z := 1024 * 1024 * 4.

(** Little endian. *)
Fixpoint le_value (l : list Z) : Z := match l with [] => 0 | b :: l => b + 256 * le_value l end.

Section Reading.
Variables (buffer_len : Z) (raw : list Z).
Context {S message : Type}.
Variables (unpack : M (list Z) message) (handle_message : message -> M (reader S) unit) (close : M (reader S) unit).

Definition on_mb {A} (m : M message_buffer A) : M (reader S) A := fun r =>
  match m (mb r) with
  | Ret b a => Ret (Reader b (others r)) a
  | Exc b e => Exc (Reader b (others r)) e
  | Undef => Undef
  end.

(** unpack on the datastream of the buffer: what it has read leaves the
    queue. *)
Definition from_datastream : M message_buffer message := fun b =>
  match unpack (queued buffer_len b) with
  | Undef => Undef
  | Ret rest m => (advance_read_ptr buffer_len (Z.of_nat (length (queued buffer_len b)) - Z.of_nat (length rest)) ;; mret m) b
  | Exc rest e => (advance_read_ptr buffer_len (Z.of_nat (length (queued buffer_len b)) - Z.of_nat (length rest)) ;; throw e) b
  end.

(** The loop that reads the tag; [by] is a uint8_t, [which] a uint64_t.  A
    peek that fails leaves b as it was. *)
Fixpoint tag_loop (fuel : nat) (index : index_t) (which b shift : Z) : M message_buffer Z :=
  match fuel with
  | O => undefined
  | Datatypes.S fuel =>
      p ← peek buffer_len 1 index;
      let b := match p with Some (x :: _) => x | _ => b end in
      if 32 <=? shift then undefined
      else
        let which := Z.lor which (u32 (Z.shiftl (Z.land (u8 b) 0x7f) shift)) in
        if Z.land (u8 b) 0x80 =? 0 then mret which
        else tag_loop fuel index which b (u8 (shift + 7))
  end.

(** The copy of a raw block for the cache is left out: nothing reads it. *)
Definition process_next_message (message_length : Z) : M (reader S) bool := fun r =>
  match (index ← on_mb read_index;
         on_mb (tag_loop 6 index 0 0 0) ;;
         msg ← on_mb from_datastream;
         handle_message msg) r with
  | Ret r _ => Ret r true
  | Exc r e => if fc_exception e then (close ;; mret false) r else Exc r e
  | Undef => Undef
  end.

(** The loop of the callback. *)
Fixpoint read_messages (fuel : nat) : M (reader S) bool :=
  match fuel with
  | O => undefined
  | Datatypes.S fuel =>
      bytes_in_buffer ← gets (fun r => bytes_to_read buffer_len (mb r));
      if bytes_in_buffer <=? 0 then mret true
      else if bytes_in_buffer <? message_header_size then mret true
      else
        index ← on_mb read_index;
        header ← on_mb (peek buffer_len 4 index);
        match header with
        | None => undefined
        | Some header =>
            let message_length := le_value header in
            if def_send_buffer_size * 2 <? message_length then close ;; mret false
            else if u32 (message_length + message_header_size) <=? bytes_in_buffer then
              on_mb (advance_read_ptr buffer_len message_header_size) ;;
              go_on ← process_next_message message_length;
              if go_on : bool then read_messages fuel else mret false
            else
              on_mb (add_space buffer_len raw (u32 (message_length + message_header_size - bytes_in_buffer))) ;;
              mret true
        end
  end.

(** get_buffer_sequence_for_boost_async_read asserts that there is a buffer to
    write to; the outer handler closes on any exception. *)
Definition start_read_message : M (reader S) bool := fun r =>
  if fst (write_ind (mb r)) <? chain_size (mb r) then Ret r true else (close ;; mret false) r.

(** The callback of async_read_some when [data] has arrived. *)
Definition on_read (data : list Z) : M (reader S) bool := fun r =>
  let bytes_transferred := Z.of_nat (length data) in
  match (on_mb (update (read_some data)) ;;
         to_write ← gets (fun r => bytes_to_write buffer_len (mb r));
         require (bytes_transferred <=? to_write) "assert_exception" ;;
         on_mb (advance_write_ptr buffer_len raw bytes_transferred) ;;
         available ← gets (fun r => bytes_to_read buffer_len (mb r));
         read_messages (Datatypes.S (Z.to_nat available))) r with
  | Ret r true => start_read_message r
  | Ret r false => Ret r false
  | Exc r _ => (close ;; mret false) r
  | Undef => Undef
  end.

(** Pieces that arrive one after the other. *)
Fixpoint receive (pieces : list (list Z)) : M (reader S) unit :=
  match pieces with
  | [] => mret tt
  | p :: pieces =>
      go_on ← on_read p;
      if go_on : bool then receive pieces else mret tt
  end.

(** The socket puts no more than it is asked for. *)
Fixpoint fitting (pieces : list (list Z)) (r : reader S) : Prop :=
  match pieces with
  | [] => True
  | p :: pieces => Z.of_nat (length p) <= sequence_size buffer_len (mb r) /\
      match on_read p r with Ret r _ => fitting pieces r | _ => True end
  end.
End Reading.
