(* ===== verification/PeerReadingThm.v ===== *)
(** Messages arrive whole: however the bytes of a connection are cut into
    pieces, the messages handled are the messages sent, in their order, as
    long as the chain of buffers stays below the range of its 32-bit numbers;
    a first byte with the high bit set makes the loop for the tag undefined,
    and a message that comes slowly makes the chain grow with every piece. *)

From Stdlib Require Import ZArith Lia Bool String List.
From stdpp Require Import base decidable list.
From S2P Require Import Prelude Effects MessageBuffer MessageBufferThm PeerReading.
Import ListNotations.
Local Open Scope Z_scope.

(** ** Frames *)

Definition le32 (v : Z) : list Z := map (fun i => u8 (Z.shiftr v (8 * Z.of_nat i))) (seq 0 4).

Lemma le_value_le32 v : 0 <= v < 2 ^ 32 -> le_value (le32 v) = v.
Proof.
  intros B. assert (E : forall w, u8 w = w - 256 * (w / 256)) by (intros w; unfold u8; change (2 ^ 8) with 256; pose proof (Z.div_mod w 256); lia).
  change (le_value (le32 v)) with (u8 (Z.shiftr v 0) + 256 * (u8 (Z.shiftr v 8) + 256 * (u8 (Z.shiftr v 16) + 256 * (u8 (Z.shiftr v 24) + 256 * 0)))).
  rewrite !E, !Z.shiftr_div_pow2 by lia. change (2 ^ 0) with 1. change (2 ^ 8) with 256. change (2 ^ 16) with (256 * 256).
  change (2 ^ 24) with (256 * 256 * 256). rewrite Z.div_1_r, !Z.div_div by lia. rewrite (Z.div_small v (256 * 256 * 256 * 256)) by lia. lia.
Qed.

Lemma le32_length v : length (le32 v) = 4%nat.
Proof. reflexivity. Qed.

Definition max_message : Z := def_send_buffer_size * 2.

(** The begin of a frame whose rest has not arrived. *)
Definition partial (tail : list Z) : Prop :=
  (length tail < 4)%nat \/ (0 <= le_value (take 4 tail) <= max_message /\ Z.of_nat (length tail) < le_value (take 4 tail) + 4).

Section Frames.
Variables (buffer_len : Z) (raw : list Z).
Hypothesis Len_pos : 0 < buffer_len.
Hypothesis Raw_len : length raw = Z.to_nat buffer_len.

Context {S message : Type} (unpack : M (list Z) message) (handle_message : message -> M (reader S) unit) (close : M (reader S) unit).
Variables (pack : message -> list Z) (step : message -> S -> S) (sendable : message -> Prop).
Hypothesis Unpacks : forall m rest, sendable m -> unpack (pack m ++ rest) = Ret rest m.
Hypothesis Sizes : forall m, sendable m -> Z.of_nat (length (pack m)) <= max_message.
Hypothesis Tags : forall m, sendable m -> exists tag rest, pack m = tag :: rest /\ 0 <= tag < 128.
Hypothesis Handles : forall m r, sendable m -> handle_message m r = Ret (Reader (mb r) (step m (others r))) tt.

Abbreviation inv := (buffer_inv buffer_len).
Abbreviation queue r := (queued buffer_len (mb r)).
Implicit Types (r : reader S).

(** What is sent for a message. *)
Definition frame (m : message) : list Z := le32 (Z.of_nat (length (pack m))) ++ pack m.
Definition stream (ms : list message) : list Z := concat (map frame ms).

Lemma on_mb_ret {A} (m : M message_buffer A) r b a : m (mb r) = Ret b a -> on_mb m r = Ret (Reader b (others r)) a.
Proof using. unfold on_mb. intros ->. reflexivity. Qed.

Lemma tag_runs n b q tag : inv b -> queued buffer_len b = tag :: q -> 0 <= tag < 128 ->
  exists which, tag_loop buffer_len (Datatypes.S n) (read_ind b) 0 0 0 b = Ret b which.
Proof using Len_pos Raw_len.
  intros I Q T. pose proof (queued_length buffer_len raw Len_pos Raw_len b I) as L. rewrite Q in L. cbn in L.
  cbn [tag_loop]. rewrite (mbind_ret _ _ b b _ (peek_front buffer_len raw Len_pos Raw_len 1 b I ltac:(lia))). rewrite Q.
  change (Z.to_nat 1) with 1%nat. cbn [take]. replace (Z.land (u8 tag) 128 =? 0) with true; [cbn; eexists; reflexivity |].
  symmetry. apply Z.eqb_eq, Z.bits_inj'. intros k K. rewrite Z.land_spec, Z.bits_0. unfold u8. rewrite Z.mod_small by lia.
  change 128 with (2 ^ 7). rewrite Z.pow2_bits_eqb by lia. destruct (Z.eqb_spec 7 k) as [<- |]; [| apply andb_false_r].
  rewrite andb_true_r. apply Z.bits_above_log2; [lia |]. destruct (decide (tag = 0)) as [-> |]; [reflexivity | apply Z.log2_lt_pow2; lia].
Qed.

(** A first byte with the high bit set is looked at until the shift is out of
    range. *)
Lemma tag_again n b q tag which c shift : inv b -> queued buffer_len b = tag :: q -> 128 <= tag < 256 -> shift < 32 ->
  exists which', tag_loop buffer_len (Datatypes.S n) (read_ind b) which c shift b = tag_loop buffer_len n (read_ind b) which' tag (u8 (shift + 7)) b.
Proof using Len_pos Raw_len.
  intros I Q T Sh. pose proof (queued_length buffer_len raw Len_pos Raw_len b I) as L. rewrite Q in L. cbn in L.
  cbn [tag_loop]. rewrite (mbind_ret _ _ b b _ (peek_front buffer_len raw Len_pos Raw_len 1 b I ltac:(lia))). rewrite Q.
  change (Z.to_nat 1) with 1%nat. cbn [take]. destruct (Z.leb_spec 32 shift); [lia |].
  replace (Z.land (u8 tag) 128 =? 0) with false; [eexists; reflexivity |].
  symmetry. apply Z.eqb_neq. intros E. apply (f_equal (fun z => Z.testbit z 7)) in E. rewrite Z.land_spec, Z.bits_0 in E.
  unfold u8 in E. rewrite Z.mod_small in E by lia. rewrite Z.testbit_odd, Z.shiftr_div_pow2 in E by lia.
  replace (tag / 2 ^ 7) with 1 in E by (apply Z.div_unique with (tag - 128); lia). discriminate E.
Qed.

Lemma tag_hangs b q tag : inv b -> queued buffer_len b = tag :: q -> 128 <= tag < 256 -> tag_loop buffer_len 6 (read_ind b) 0 0 0 b = Undef.
Proof using Len_pos Raw_len.
  intros I Q T. do 5 (match goal with |- tag_loop _ (Datatypes.S ?n) _ ?w ?c ?s b = _ =>
    destruct (tag_again n b q tag w c s I Q T ltac:(reflexivity)) as [? ->]; let s' := eval vm_compute in (u8 (s + 7)) in change (u8 (s + 7)) with s' end).
  pose proof (queued_length buffer_len raw Len_pos Raw_len b I) as L. rewrite Q in L. cbn in L.
  cbn [tag_loop]. rewrite (mbind_ret _ _ b b _ (peek_front buffer_len raw Len_pos Raw_len 1 b I ltac:(lia))). reflexivity.
Qed.

(** A message that is there is handled, and its bytes leave the queue. *)
Lemma process_runs r m q n : inv (mb r) -> queue r = pack m ++ q -> sendable m ->
  exists b, process_next_message buffer_len unpack handle_message close n r = Ret (Reader b (step m (others r))) true /\
    inv b /\ queued buffer_len b = q /\ chain_size b <= chain_size (mb r).
Proof using All.
  intros I Q W. pose proof (queued_length buffer_len raw Len_pos Raw_len _ I) as L. rewrite Q, length_app in L.
  destruct (Tags m W) as (tag & body & P & T).
  destruct (tag_runs 5 (mb r) (body ++ q) tag I ltac:(rewrite Q, P; reflexivity) T) as [which Tg].
  destruct (advance_read buffer_len raw Len_pos Raw_len (Z.of_nat (length (pack m))) (mb r) I ltac:(lia)) as (b & Run & I' & Q' & C).
  exists b. split; [| split; [exact I' | split; [| exact C]]].
  - unfold process_next_message. rewrite (mbind_ret _ _ r r (read_ind (mb r))) by (unfold on_mb, read_index, gets; destruct r; reflexivity).
    rewrite (mbind_ret _ _ r r which) by (rewrite (on_mb_ret _ _ _ _ Tg); destruct r; reflexivity).
    rewrite (mbind_ret _ _ r (Reader b (others r)) m); [rewrite Handles by exact W; reflexivity |].
    apply on_mb_ret. unfold from_datastream. rewrite Q, Unpacks by exact W. rewrite <- Q.
    replace (Z.of_nat (length (queue r)) - Z.of_nat (length q)) with (Z.of_nat (length (pack m))) by (rewrite Q, length_app; lia).
    rewrite (mbind_ret _ _ _ b tt Run). reflexivity.
  - rewrite Q', Q. rewrite Nat2Z.id. apply drop_app_length.
Qed.

(** How many buffers a message that has not arrived whole adds. *)
Definition spare : Z := (max_message + 4) / buffer_len + 1.

Lemma spare_pos : 1 <= spare.
Proof using Len_pos Raw_len. unfold spare. pose proof (Z.div_pos (max_message + 4) buffer_len). unfold max_message, def_send_buffer_size in *. lia. Qed.

(** Every message in the queue is handled, and space is made for the next. *)
Lemma read_messages_runs ms : forall r tail fuel, Forall sendable ms -> partial tail -> inv (mb r) -> queue r = stream ms ++ tail ->
  chain_size (mb r) + spare <= 1000000 -> buffer_len * (chain_size (mb r) + spare) < 2 ^ 32 -> (length ms < fuel)%nat ->
  exists b, read_messages buffer_len raw unpack handle_message close fuel r = Ret (Reader b (fold_left (fun s m => step m s) ms (others r))) true /\
    inv b /\ queued buffer_len b = tail /\ chain_size b <= chain_size (mb r) + spare.
Proof using All.
  pose proof spare_pos as Sp. assert (Mm : max_message = 8388608) by reflexivity.
  induction ms as [| m ms IH]; intros r tail fuel W P I Q C S0 F; (destruct fuel as [| fuel]; [lia |]); cbn [read_messages];
    pose proof (queued_length buffer_len raw Len_pos Raw_len _ I) as L; unfold gets at 1, mbind at 1, M_bind at 1; rewrite <- L.
  - cbn in Q. rewrite Q. cbn [fold_left].
    assert (Rest : exists b, Ret r true = Ret (Reader b (others r)) true /\ inv b /\ queued buffer_len b = tail /\ chain_size b <= chain_size (mb r) + spare)
      by (exists (mb r); split; [destruct r; reflexivity | split; [exact I | split; [exact Q | lia]]]).
    destruct (Z.leb_spec (Z.of_nat (length tail)) 0); [exact Rest |].
    destruct (Z.ltb_spec (Z.of_nat (length tail)) message_header_size) as [| Hs]; [exact Rest |]. unfold message_header_size in *.
    destruct P as [P | [P1 P2]]; [lia |].
    rewrite (mbind_ret _ _ r r (read_ind (mb r))) by (unfold on_mb, read_index, gets; destruct r; reflexivity).
    rewrite (mbind_ret _ _ r r (Some (take 4 tail))) by (unfold on_mb; rewrite (peek_front buffer_len raw Len_pos Raw_len 4 _ I ltac:(rewrite <- L, Q; lia)), Q; destruct r; reflexivity).
    set (v := le_value (take 4 tail)) in *. destruct (Z.ltb_spec (def_send_buffer_size * 2) v); [unfold max_message in *; lia |].
    rewrite u32_small by lia. destruct (Z.leb_spec (v + 4) (Z.of_nat (length tail))); [lia |]. rewrite (u32_small (v + 4 - _)) by lia.
    set (k := v + 4 - Z.of_nat (length tail)). assert (K : k / buffer_len <= (max_message + 4) / buffer_len) by (apply Z.div_le_mono; lia).
    assert (K0 : 0 <= k / buffer_len) by (apply Z.div_pos; lia).
    assert (K1 : k / buffer_len <= k) by (apply Z.div_le_upper_bound; [lia |]; rewrite <- (Z.mul_1_l k) at 1; apply Z.mul_le_mono_nonneg_r; lia).
    destruct (push_inv buffer_len raw Len_pos Raw_len (Z.to_nat (k / buffer_len + 1)) (mb r) I) as (I' & Q' & C').
    { unfold spare in C. lia. }
    { eapply Z.le_lt_trans; [| exact S0]. apply Z.mul_le_mono_nonneg_l; [lia |]. unfold spare. lia. }
    eexists. split; [| split; [exact I' | split; [rewrite Q'; exact Q | rewrite C'; unfold spare; lia]]].
    unfold add_space. rewrite (u32_small (k / buffer_len + 1)) by lia.
    assert (E : s32 (k / buffer_len + 1) = k / buffer_len + 1) by (unfold s32, swrap; cbv zeta; change (2 ^ 32) with 4294967296; change (2 ^ (32 - 1)) with 2147483648; rewrite Z.mod_small by lia; destruct (Z.ltb_spec (k / buffer_len + 1) 2147483648); lia). rewrite E. reflexivity.
  - inversion W as [| ? ? Wm W']; subst. unfold stream in Q. cbn [map concat] in Q. unfold frame at 1 in Q. rewrite <- !app_assoc in Q.
    fold (stream ms) in Q. pose proof (Sizes m Wm) as Sz. set (v := Z.of_nat (length (pack m))) in *.
    assert (Lq : Z.of_nat (length (queue r)) = 4 + v + Z.of_nat (length (stream ms ++ tail))).
    { rewrite Q, !length_app, le32_length. unfold v. lia. }
    rewrite Lq. destruct (Z.leb_spec (4 + v + Z.of_nat (length (stream ms ++ tail))) 0); [lia |]. unfold message_header_size.
    destruct (Z.ltb_spec (4 + v + Z.of_nat (length (stream ms ++ tail))) 4); [lia |].
    rewrite (mbind_ret _ _ r r (read_ind (mb r))) by (unfold on_mb, read_index, gets; destruct r; reflexivity).
    rewrite (mbind_ret _ _ r r (Some (le32 v))).
    2: { unfold on_mb. rewrite (peek_front buffer_len raw Len_pos Raw_len 4 _ I ltac:(lia)), Q. change (Z.to_nat 4) with (length (le32 v)).
         rewrite take_app_length. destruct r; reflexivity. }
    rewrite le_value_le32 by lia. destruct (Z.ltb_spec (def_send_buffer_size * 2) v); [unfold max_message in *; lia |].
    rewrite u32_small by lia. destruct (Z.leb_spec (v + 4) (4 + v + Z.of_nat (length (stream ms ++ tail)))); [| lia].
    destruct (advance_read buffer_len raw Len_pos Raw_len 4 _ I ltac:(lia)) as (b1 & Run1 & I1 & Q1 & C1).
    rewrite (mbind_ret _ _ r (Reader b1 (others r)) tt) by (apply on_mb_ret, Run1).
    rewrite Q in Q1. change (Z.to_nat 4) with (length (le32 v)) in Q1. rewrite drop_app_length in Q1.
    destruct (process_runs (Reader b1 (others r)) m (stream ms ++ tail) v I1 Q1 Wm) as (b2 & Run2 & I2 & Q2 & C2).
    rewrite (mbind_ret _ _ _ _ _ Run2). cbn [mb others] in *.
    destruct (IH (Reader b2 (step m (others r))) tail fuel W' P I2 Q2) as (b & Run & I' & Q' & C').
    + cbn [mb]. lia.
    + cbn [mb]. eapply Z.le_lt_trans; [| exact S0]. apply Z.mul_le_mono_nonneg_l; lia.
    + cbn in F. lia.
    + exists b. cbn [mb others] in *. split; [exact Run |]. split; [exact I' |]. split; [exact Q' | lia].
Qed.

(** ** Pieces *)

Lemma frame_length m : Z.of_nat (length (frame m)) = 4 + Z.of_nat (length (pack m)).
Proof using All. unfold frame. rewrite length_app, le32_length. lia. Qed.

Lemma frame_header m rest : sendable m -> le_value (take 4 (frame m ++ rest)) = Z.of_nat (length (pack m)).
Proof using All.
  intros W. pose proof (Sizes m W) as Sz. unfold frame. rewrite <- app_assoc. change 4%nat with (length (le32 (Z.of_nat (length (pack m))))) at 1.
  rewrite take_app_length. apply le_value_le32. change max_message with 8388608 in Sz. lia.
Qed.

(** A begin of a stream is some whole frames and the begin of another. *)
Lemma stream_cut ms : forall x y, Forall sendable ms -> x ++ y = stream ms ->
  exists ms1 ms2 tail, ms = ms1 ++ ms2 /\ x = stream ms1 ++ tail /\ tail ++ y = stream ms2 /\ partial tail.
Proof using All.
  induction ms as [| m ms IH]; intros x y W E.
  - apply app_eq_nil in E as [-> ->]. exists [], [], []. repeat split. left. cbn. lia.
  - inversion W as [| ? ? Wm W']; subst. change (stream (m :: ms)) with (frame m ++ stream ms) in E. pose proof (frame_length m) as Lf.
    destruct (le_lt_dec (length (frame m)) (length x)) as [L | L].
    + assert (X : x = frame m ++ drop (length (frame m)) x).
      { rewrite <- (take_drop (length (frame m)) x) at 1. f_equal. apply (f_equal (take (length (frame m)))) in E.
        rewrite take_app_length, take_app_le in E by lia. exact E. }
      set (x' := drop (length (frame m)) x) in X. rewrite X, <- app_assoc in E. apply app_inv_head in E.
      destruct (IH x' y W' E) as (ms1 & ms2 & tail & -> & E1 & E2 & P). exists (m :: ms1), ms2, tail. split; [reflexivity |].
      split; [| split; assumption]. rewrite X, E1. change (stream (m :: ms1)) with (frame m ++ stream ms1). apply app_assoc.
    + exists [], (m :: ms), x. split; [reflexivity |]. split; [reflexivity |]. split; [exact E |].
      destruct (le_lt_dec 4 (length x)) as [L4 | L4]; [right | left; exact L4].
      replace (take 4 x) with (take 4 (frame m ++ stream ms)) by (rewrite <- E; apply take_app_le; lia).
      rewrite frame_header by exact Wm. pose proof (Sizes m Wm). lia.
Qed.

Lemma whole_frames ms : Forall sendable ms -> partial (stream ms) -> ms = [].
Proof using All.
  destruct ms as [| m ms]; [reflexivity |]. intros W P. inversion W as [| ? ? Wm W']; subst. exfalso.
  change (stream (m :: ms)) with (frame m ++ stream ms) in P. pose proof (frame_length m) as Lf. unfold partial in P. rewrite length_app in P.
  rewrite frame_header in P by exact Wm. destruct P as [P | [_ P]]; lia.
Qed.

Lemma write_room r : inv (mb r) -> bytes_to_write buffer_len (mb r) = sequence_size buffer_len (mb r).
Proof using Len_pos Raw_len.
  intros I. pose proof (write_pos_bound buffer_len raw Len_pos Raw_len _ I) as W. unfold write_pos in W. destruct I as [_ _ _ _ _ Sz].
  unfold bytes_to_write, total_bytes, sequence_size. rewrite (u32_small (_ * chain_size _)) by lia. rewrite u32_small by lia. lia.
Qed.

(** What happens before the loop of the callback. *)
Lemma on_read_begins r p : inv (mb r) -> Z.of_nat (length p) <= sequence_size buffer_len (mb r) ->
  chain_size (mb r) < 1000000 -> buffer_len * (chain_size (mb r) + 1) < 2 ^ 32 ->
  exists b, inv b /\ queued buffer_len b = queue r ++ p /\ chain_size (mb r) <= chain_size b <= chain_size (mb r) + 1 /\
    on_read buffer_len raw unpack handle_message close p r =
      match read_messages buffer_len raw unpack handle_message close (Datatypes.S (length (queue r ++ p))) (Reader b (others r)) with
      | Ret r true => start_read_message close r
      | Ret r false => Ret r false
      | Exc r _ => (close ;; mret false) r
      | Undef => Undef
      end.
Proof using Len_pos Raw_len.
  intros I F C S0. destruct (received buffer_len raw Len_pos Raw_len p (mb r) I F C S0) as (b & Run & I' & Q & Cb). exists b.
  split; [exact I' |]. split; [exact Q |]. split; [exact Cb |]. unfold on_read.
  set (r1 := Reader (read_some p (mb r)) (others r)). rewrite (mbind_ret (on_mb (update (read_some p))) _ r r1 tt) by reflexivity.
  rewrite (mbind_ret (gets (fun r0 : reader S => bytes_to_write buffer_len (mb r0))) _ r1 r1 (sequence_size buffer_len (mb r))).
  2: { unfold gets. f_equal. rewrite <- (write_room r I). unfold bytes_to_write, total_bytes, chain_size, r1, read_some. cbn [mb buffers write_ind].
       rewrite length_app, fill_length, <- length_app, take_drop. reflexivity. }
  rewrite (mbind_ret (require _ _) _ r1 r1 tt) by (unfold require; destruct (Z.leb_spec (Z.of_nat (length p)) (sequence_size buffer_len (mb r))); [reflexivity | lia]).
  rewrite (mbind_ret (on_mb (advance_write_ptr buffer_len raw (Z.of_nat (length p)))) _ r1 (Reader b (others r)) tt) by exact (on_mb_ret _ r1 b tt Run).
  rewrite (mbind_ret (gets (fun r0 : reader S => bytes_to_read buffer_len (mb r0))) _ (Reader b (others r)) (Reader b (others r)) (bytes_to_read buffer_len b)) by reflexivity.
  pose proof (queued_length buffer_len raw Len_pos Raw_len b I') as L. rewrite Q in L. rewrite <- L, Nat2Z.id. reflexivity.
Qed.

Lemma starts_again b (s : S) : inv b -> start_read_message close (Reader b s) = Ret (Reader b s) true.
Proof using Len_pos Raw_len. intros [_ _ W _ _ _]. unfold start_read_message. cbn [mb]. destruct (Z.ltb_spec (fst (write_ind b)) (chain_size b)); [reflexivity | lia]. Qed.

Lemma stream_count ms : (length ms <= length (stream ms))%nat.
Proof using All.
  induction ms as [| m ms IH]; [reflexivity |]. change (stream (m :: ms)) with (frame m ++ stream ms). rewrite length_app.
  pose proof (frame_length m). cbn [length]. lia.
Qed.

Lemma on_read_runs r p ms tail : inv (mb r) -> queue r ++ p = stream ms ++ tail -> Forall sendable ms -> partial tail ->
  Z.of_nat (length p) <= sequence_size buffer_len (mb r) ->
  chain_size (mb r) + (1 + spare) <= 1000000 -> buffer_len * (chain_size (mb r) + (1 + spare)) < 2 ^ 32 ->
  exists b, on_read buffer_len raw unpack handle_message close p r = Ret (Reader b (fold_left (fun s m => step m s) ms (others r))) true /\
    inv b /\ queued buffer_len b = tail /\ chain_size b <= chain_size (mb r) + (1 + spare).
Proof using All.
  intros I Q W P F C S0. pose proof spare_pos as Sp.
  destruct (on_read_begins r p I F) as (b & I1 & Q1 & C1 & ->); [lia | eapply Z.le_lt_trans; [| exact S0]; apply Z.mul_le_mono_nonneg_l; lia |].
  destruct (read_messages_runs ms (Reader b (others r)) tail (Datatypes.S (length (queue r ++ p))) W P I1) as (b' & Run & I' & Q' & C').
  - cbn [mb]. rewrite Q1. exact Q.
  - cbn [mb]. lia.
  - cbn [mb]. eapply Z.le_lt_trans; [| exact S0]. apply Z.mul_le_mono_nonneg_l; lia.
  - rewrite Q, length_app. pose proof (stream_count ms). lia.
  - exists b'. cbn [mb others] in *. rewrite Run, (starts_again b' _ I'). split; [reflexivity |]. split; [exact I' |]. split; [exact Q' | lia].
Qed.

Lemma receive_runs ps : forall r ms, inv (mb r) -> partial (queue r) -> queue r ++ concat ps = stream ms -> Forall sendable ms ->
  fitting buffer_len raw unpack handle_message close ps r ->
  chain_size (mb r) + Z.of_nat (length ps) * (1 + spare) <= 1000000 ->
  buffer_len * (chain_size (mb r) + Z.of_nat (length ps) * (1 + spare)) < 2 ^ 32 ->
  exists b, receive buffer_len raw unpack handle_message close ps r = Ret (Reader b (fold_left (fun s m => step m s) ms (others r))) tt /\
    inv b /\ queued buffer_len b = [].
Proof using All.
  pose proof spare_pos as Sp. induction ps as [| p ps IH]; intros r ms I Pq Q W Fit C S0; cbn [receive concat fitting] in *.
  - rewrite app_nil_r in Q. rewrite Q in Pq. apply whole_frames in Pq; [| exact W]. subst ms. exists (mb r).
    split; [destruct r; reflexivity |]. split; [exact I | exact Q].
  - rewrite app_assoc in Q. destruct (stream_cut ms _ _ W Q) as (ms1 & ms2 & tail & -> & E1 & E2 & P). apply Forall_app in W as [W1 W2].
    destruct Fit as [F Fit]. cbn [length] in C, S0.
    assert (A : chain_size (mb r) + (1 + spare) <= chain_size (mb r) + Z.of_nat (Datatypes.S (length ps)) * (1 + spare)) by nia.
    destruct (on_read_runs r p ms1 tail I E1 W1 P F) as (b & Run & I' & Q' & C'); [lia | eapply Z.le_lt_trans; [| exact S0]; apply Z.mul_le_mono_nonneg_l; lia |].
    rewrite Run in Fit. rewrite (mbind_ret _ _ _ _ _ Run).
    assert (A' : chain_size b + Z.of_nat (length ps) * (1 + spare) <= chain_size (mb r) + Z.of_nat (Datatypes.S (length ps)) * (1 + spare)) by nia.
    destruct (IH (Reader b (fold_left (fun s m => step m s) ms1 (others r))) ms2) as (b' & Run' & I2 & Q2); cbn [mb] in *.
    + exact I'.
    + rewrite Q'. exact P.
    + rewrite Q'. exact E2.
    + exact W2.
    + exact Fit.
    + lia.
    + eapply Z.le_lt_trans; [| exact S0]. apply Z.mul_le_mono_nonneg_l; lia.
    + exists b'. cbn [others] in Run'. rewrite fold_left_app. auto.
Qed.
End Frames.
