(* ===== verification/PeerReadingProps.v ===== *)
(** What arrives from a peer: messages arrive whole and in order however the
    socket cuts their bytes; one byte is enough to hang the node. *)

From Stdlib Require Import ZArith Lia Bool String List.
From stdpp Require Import base decidable list.
From S2P Require Import Prelude Effects MessageBuffer MessageBufferThm PeerReading PeerReadingThm.
Import ListNotations.
Local Open Scope Z_scope.

(** The packing of messages: unpack takes what pack wrote and leaves the rest,
    and the first byte is the tag of a variant of fewer than 128 types. *)
Class Wire (message : Type) := {
  wire_pack : message -> list Z;
  wire_unpack : M (list Z) message;
  sendable : message -> Prop;
  wire_unpacks m rest : sendable m -> wire_unpack (wire_pack m ++ rest) = Ret rest m;
  wire_sizes m : sendable m -> Z.of_nat (length (wire_pack m)) <= max_message;
  wire_tags m : sendable m -> exists tag rest, wire_pack m = tag :: rest /\ 0 <= tag < 128 }.

(** The bytes of messages sent one after the other, cut into any pieces
    that fit into what the socket is given, are handled as these messages, each
    once and in their order, and nothing is left in the buffer; this holds as
    long as there are so few pieces that the chain of buffers, to which each
    may add, stays below 2^32 bytes. *)
Theorem messages_arrive_whole {S message} `{Wire message} buffer_len raw handle_message close (step : message -> S -> S) ps ms r :
  0 < buffer_len -> length raw = Z.to_nat buffer_len ->
  (forall m r, sendable m -> handle_message m r = Ret (Reader (mb r) (step m (others r))) tt) ->
  buffer_inv buffer_len (mb r) -> queued buffer_len (mb r) = [] ->
  concat ps = stream wire_pack ms -> Forall sendable ms -> fitting buffer_len raw wire_unpack handle_message close ps r ->
  let most := chain_size (mb r) + Z.of_nat (length ps) * (1 + spare buffer_len) in
  most <= 1000000 -> buffer_len * most < 2 ^ 32 ->
  exists b, receive buffer_len raw wire_unpack handle_message close ps r = Ret (Reader b (fold_left (fun s m => step m s) ms (others r))) tt /\
    buffer_inv buffer_len b /\ queued buffer_len b = [].
Proof.
  intros Lp Rl Hs I Q E W F most C S0.
  apply (receive_runs buffer_len raw Lp Rl wire_unpack handle_message close wire_pack step sendable wire_unpacks wire_sizes wire_tags Hs); try assumption.
  - rewrite Q. left. cbn. lia.
  - rewrite Q. exact E.
Qed.

(** C29: whatever the handlers are, a frame whose first byte has the high bit
    set leaves the callback undefined: process_next_message looks at the same
    byte for the rest of the tag. *)
Theorem high_tag_hangs {S message} buffer_len raw (unpack : M (list Z) message) handle_message close tag body (r : reader S) :
  0 < buffer_len -> length raw = Z.to_nat buffer_len -> buffer_inv buffer_len (mb r) -> queued buffer_len (mb r) = [] ->
  128 <= tag < 256 -> Z.of_nat (length (tag :: body)) <= max_message ->
  let piece := le32 (Z.of_nat (length (tag :: body))) ++ tag :: body in
  Z.of_nat (length piece) <= sequence_size buffer_len (mb r) -> chain_size (mb r) < 1000000 -> buffer_len * (chain_size (mb r) + 1) < 2 ^ 32 ->
  on_read buffer_len raw unpack handle_message close piece r = Undef.
Proof.
  intros Lp Rl I Q T Sz piece F C S0. set (v := Z.of_nat (length (tag :: body))) in *. assert (V : 0 <= v < 2 ^ 32) by (change max_message with 8388608 in Sz; lia).
  destruct (on_read_begins buffer_len raw Lp Rl unpack handle_message close r piece I F C S0) as (b & I1 & Q1 & C1 & ->).
  rewrite Q in Q1 |- *. cbn [app] in Q1 |- *.
  assert (L : bytes_to_read buffer_len b = 4 + v).
  { rewrite <- (queued_length buffer_len raw Lp Rl b I1), Q1. unfold piece. rewrite length_app, le32_length. unfold v. lia. }
  cbn [read_messages]. unfold gets at 1, mbind at 1, M_bind at 1. cbn [mb]. rewrite L. unfold message_header_size.
  destruct (Z.leb_spec (4 + v) 0); [lia |]. destruct (Z.ltb_spec (4 + v) 4); [lia |].
  rewrite (mbind_ret _ _ (Reader b (others r)) (Reader b (others r)) (read_ind b)) by reflexivity.
  rewrite (mbind_ret _ _ (Reader b (others r)) (Reader b (others r)) (Some (le32 v))).
  2: { refine (on_mb_ret _ (Reader b (others r)) b _ _). cbn [mb]. rewrite (peek_front buffer_len raw Lp Rl 4 b I1 ltac:(lia)), Q1. reflexivity. }
  rewrite le_value_le32 by exact V. destruct (Z.ltb_spec (def_send_buffer_size * 2) v); [unfold max_message in Sz; lia |].
  rewrite (u32_small (v + 4)) by (change max_message with 8388608 in Sz; lia). destruct (Z.leb_spec (v + 4) (4 + v)); [| lia].
  destruct (advance_read buffer_len raw Lp Rl 4 b I1 ltac:(lia)) as (b2 & Run2 & I2 & Q2 & C2). rewrite Q1 in Q2.
  rewrite (mbind_ret _ _ (Reader b (others r)) (Reader b2 (others r)) tt) by exact (on_mb_ret _ (Reader b (others r)) b2 tt Run2).
  assert (P : process_next_message buffer_len unpack handle_message close v (Reader b2 (others r)) = Undef).
  { unfold process_next_message. rewrite (mbind_ret _ _ (Reader b2 (others r)) (Reader b2 (others r)) (read_ind b2)) by reflexivity.
    unfold mbind at 1, M_bind at 1. unfold on_mb at 1. cbn [mb]. rewrite (tag_hangs buffer_len raw Lp Rl b2 body tag I2 Q2 T). reflexivity. }
  unfold mbind at 1, M_bind at 1. rewrite P. reflexivity.
Qed.

(** ** Witnesses *)

(** Messages are bytes, after a tag and their number. *)
#[local, refine] Instance toy_wire : Wire (list Z) := {
  wire_pack m := 1 :: Z.of_nat (length m) :: m;
  wire_unpack l := match l with _ :: n :: l => Ret (drop (Z.to_nat n) l) (take (Z.to_nat n) l) | _ => Exc [] "read datastream" end;
  sendable m := (length m <= 100)%nat }.
Proof.
  - intros m rest _. cbn. rewrite Nat2Z.id, drop_app_length, take_app_length. reflexivity.
  - intros m L. cbn [length]. change max_message with 8388608. lia.
  - intros m _. eexists 1, _. split; [reflexivity | lia].
Defined.

Definition toy_raw : list Z := replicate 1024 0.
Definition toy_reader : reader (list (list Z)) := Reader (new_message_buffer toy_raw) [].
Definition toy_handle (m : list Z) : M (reader (list (list Z))) unit := update (fun r => Reader (mb r) (others r ++ [m])).
Definition toy_close : M (reader (list (list Z))) unit := on_mb reset.
Definition toy_pieces : list (list Z) := [[4; 0]; [0; 0; 1; 2; 5]; [6; 3; 0; 0; 0; 1; 1; 7]].

Lemma toy_new : buffer_inv 1024 (new_message_buffer toy_raw) /\ queued 1024 (new_message_buffer toy_raw) = [].
Proof. apply new_buffer_inv; [lia | vm_compute; reflexivity | lia]. Qed.

Lemma messages_arrive_whole_witness : exists b,
  receive 1024 toy_raw wire_unpack toy_handle toy_close toy_pieces toy_reader = Ret (Reader b [[5; 6]; [7]]) tt /\ queued 1024 b = [].
Proof.
  destruct toy_new as [I Q].
  assert (F : fitting 1024 toy_raw wire_unpack toy_handle toy_close toy_pieces toy_reader) by (vm_compute; repeat split; discriminate).
  assert (W : Forall sendable [[5; 6]; [7]]) by (repeat (apply Forall_cons; split; [cbn; lia |]); apply Forall_nil; exact Logic.I).
  destruct (messages_arrive_whole 1024 toy_raw toy_handle toy_close (fun m s => s ++ [m]) toy_pieces [[5; 6]; [7]] toy_reader
              ltac:(lia) ltac:(vm_compute; reflexivity) ltac:(intros; reflexivity) I Q ltac:(vm_compute; reflexivity) W F
              ltac:(vm_compute; discriminate) ltac:(vm_compute; reflexivity)) as (b & Run & _ & Qb).
  exists b. split; [exact Run | exact Qb].
Defined.

Lemma high_tag_hangs_witness :
  on_read 1024 toy_raw wire_unpack toy_handle toy_close [1; 0; 0; 0; 200] toy_reader = Undef.
Proof.
  destruct toy_new as [I Q].
  exact (high_tag_hangs 1024 toy_raw wire_unpack toy_handle toy_close 200 [] toy_reader ltac:(lia) ltac:(vm_compute; reflexivity) I Q
           ltac:(lia) ltac:(vm_compute; discriminate) ltac:(vm_compute; discriminate) ltac:(vm_compute; reflexivity) ltac:(vm_compute; reflexivity)).
Defined.

(** Of a message of 5000 bytes five arrive, one at a time: each adds the
    space for all that are missing once more. *)
Example slow_message_grows :
  match receive 1024 toy_raw wire_unpack toy_handle toy_close [[136; 19; 0; 0; 1]; [1]; [1]; [1]; [1]] toy_reader with
  | Ret r _ => chain_size (mb r)
  | _ => 0
  end = 26.
Proof. vm_compute. reflexivity. Qed.
