(* ===== verification/UndoIndex.v ===== *)
(** The undo history of the object database (foundation/basechain/include/
    basechain.hpp: undo_state, generic_index, its session, database and its
    session; basechain.cpp).

    The container of an index is a finite map from ids to objects; its other
    unique keys are the class [UniqueKeys], a template parameter in C++, with
    what the copy constructor of the objects makes of one.  The
    two ways boost::multi_index changes an element under a unique key are
    written out: emplace refuses a clash, modify erases the element it could
    not place.  The memory mapped segment, its files and the locks are not
    modelled. *)

From Stdlib Require Import ZArith Lia Bool String List.
From stdpp Require Import base decidable gmap fin_maps fin_sets list sorting.
From S2P Require Import Prelude Effects.
Import ListNotations.
Local Open Scope Z_scope.

(** Whether two objects agree on one of the unique keys other than the id, and
    the copy of an object, which need not be the same. *)
Class UniqueKeys (V : Type) := {
  clash : V -> V -> bool;
  clash_sym v w : clash v w = clash w v;
  copied : V -> V;
  copied_clash v w : clash (copied v) w = clash v w }.

(** The objects whose copy is the same. *)
Definition copies {V} `{UniqueKeys V} (v : V) : Prop := copied v = v.

Record undo_state (V : Type) := UndoState {
  old_values : gmap Z V; removed_values : gmap Z V; new_ids : gset Z;
  old_next_id : Z; state_revision : Z }.
Arguments UndoState {V}.
Arguments old_values {V}.
Arguments removed_values {V}.
Arguments new_ids {V}.
Arguments old_next_id {V}.
Arguments state_revision {V}.

(** [stack] has the back of the deque first. *)
Record generic_index (V : Type) := Index {
  stack : list (undo_state V); revision : Z; next_id : Z; indices : gmap Z V }.
Arguments Index {V}.
Arguments stack {V}.
Arguments revision {V}.
Arguments next_id {V}.
Arguments indices {V}.

(** The keys of a std::map, in its order. *)
Definition keys {A} (m : gmap Z A) : list Z := merge_sort Z.le (elements (dom m)).
Definition members (s : gset Z) : list Z := merge_sort Z.le (elements s).

(** std::map::emplace does nothing when the key is there. *)
Definition map_emplace {A} (k : Z) (a : A) (m : gmap Z A) : gmap Z A :=
  match m !! k with Some _ => m | None => <[k := a]> m end.

Section Index.
Context {V : Type} `{UniqueKeys V}.
Implicit Types (ix : generic_index V) (v w : V).

Definition with_indices (m : gmap Z V) ix := Index (stack ix) (revision ix) (next_id ix) m.
Definition with_stack (st : list (undo_state V)) ix := Index st (revision ix) (next_id ix) (indices ix).
Definition with_next_id (n : Z) ix := Index (stack ix) (revision ix) n (indices ix).
Definition with_revision (r : Z) ix := Index (stack ix) r (next_id ix) (indices ix).

(** Change the state at the back of the stack. *)
Definition on_head (f : undo_state V -> undo_state V) ix : generic_index V :=
  match stack ix with
  | [] => ix
  | head :: st => with_stack (f head :: st) ix
  end.

(** No other element has a unique key of [v]. *)
Definition placeable (m : gmap Z V) (id : Z) v : bool :=
  bool_decide (map_Forall (fun j w => j = id \/ clash v w = false) m).

(** ** boost::multi_index *)

Definition container_emplace (id : Z) v (m : gmap Z V) : gmap Z V * bool :=
  match m !! id with
  | None => if placeable m id v then (<[id := v]> m, true) else (m, false)
  | Some _ => (m, false)
  end.

(** None: the iterator is end(). *)
Definition container_modify (id : Z) (f : V -> V) (m : gmap Z V) : option (gmap Z V * bool) :=
  match m !! id with
  | None => None
  | Some v => if placeable m id (f v) then Some (<[id := f v]> m, true) else Some (delete id m, false)
  end.

(** ** generic_index *)

Definition enabled ix : bool := match stack ix with [] => false | _ => true end.

Definition on_create (id : Z) : generic_index V -> generic_index V :=
  on_head (fun head => UndoState (old_values head) (removed_values head) ({[id]} ∪ new_ids head) (old_next_id head) (state_revision head)).

(** The undo state gets a copy of the object; what is moved from one of its
    maps to another later is such a copy already. *)
Definition on_modify (id : Z) v : generic_index V -> generic_index V :=
  on_head (fun head =>
    if bool_decide (id ∈ new_ids head) then head
    else match old_values head !! id with
         | Some _ => head
         | None => UndoState (map_emplace id (copied v) (old_values head)) (removed_values head) (new_ids head) (old_next_id head) (state_revision head)
         end).

Definition on_remove (id : Z) v : generic_index V -> generic_index V :=
  on_head (fun head =>
    if bool_decide (id ∈ new_ids head)
    then UndoState (old_values head) (removed_values head) (new_ids head ∖ {[id]}) (old_next_id head) (state_revision head)
    else match old_values head !! id with
         | Some old => UndoState (delete id (old_values head)) (map_emplace id old (removed_values head)) (new_ids head) (old_next_id head) (state_revision head)
         | None =>
             match removed_values head !! id with
             | Some _ => head
             | None => UndoState (old_values head) (map_emplace id (copied v) (removed_values head)) (new_ids head) (old_next_id head) (state_revision head)
             end
         end).

(** The constructor receives the object with its id set. *)
Definition emplace (c : Z -> V) : M (generic_index V) Z :=
  new_id ← gets next_id;
  r ← gets (fun ix => container_emplace new_id (c new_id) (indices ix));
  if negb (snd r) then throw "could not insert object, most likely a uniqueness constraint was violated"
  else
    update (with_indices (fst r)) ;;
    update (fun ix => with_next_id (next_id ix + 1) ix) ;;
    update (on_create new_id) ;;
    mret new_id.

(** The object is passed by reference; a reference to no element is misuse. *)
Definition modify (id : Z) (m : V -> V) : M (generic_index V) unit :=
  obj ← gets (fun ix => indices ix !! id);
  match obj with
  | None => undefined
  | Some v =>
      update (on_modify id v) ;;
      r ← gets (fun ix => container_modify id m (indices ix));
      match r with
      | None => undefined
      | Some (m', ok) =>
          update (with_indices m') ;;
          require ok "Could not modify object, most likely a uniqueness constraint was violated"
      end
  end.

(** The same with a modifier that may throw: it runs on the element in place
    before the keys are looked at, so what it wrote stays. *)
Definition modify_with (id : Z) (m : M V unit) : M (generic_index V) unit :=
  obj ← gets (fun ix => indices ix !! id);
  match obj with
  | None => undefined
  | Some v =>
      match m v with
      | Ret w _ => modify id (fun _ => w)
      | Exc w e =>
          update (on_modify id v) ;;
          update (fun ix => with_indices (<[id := w]> (indices ix)) ix) ;;
          throw e
      | Undef => undefined
      end
  end.

Definition remove (id : Z) : M (generic_index V) unit :=
  obj ← gets (fun ix => indices ix !! id);
  match obj with
  | None => undefined
  | Some v =>
      update (on_remove id v) ;;
      update (fun ix => with_indices (delete id (indices ix)) ix)
  end.

Definition find (id : Z) ix : option V := indices ix !! id.

Definition get (id : Z) : M (generic_index V) V :=
  obj ← gets (find id);
  match obj with None => throw "key not found" | Some v => mret v end.

Definition remove_object (id : Z) : M (generic_index V) unit :=
  obj ← gets (find id);
  match obj with None => throw "out_of_range" | Some _ => remove id end.

(** undo: restore the old values, drop the new objects, bring back the removed. *)
Definition restore_old (head : undo_state V) (id : Z) : M (generic_index V) unit :=
  match old_values head !! id with
  | None => mret tt
  | Some old =>
      r ← gets (fun ix => container_modify id (fun _ => old) (indices ix));
      match r with
      | None => undefined
      | Some (m', ok) =>
          update (with_indices m') ;;
          require ok "Could not modify object, most likely a uniqueness constraint was violated"
      end
  end.

Definition drop_new (id : Z) : M (generic_index V) unit :=
  obj ← gets (fun ix => indices ix !! id);
  match obj with
  | None => undefined
  | Some _ => update (fun ix => with_indices (delete id (indices ix)) ix)
  end.

Definition restore_removed (head : undo_state V) (id : Z) : M (generic_index V) unit :=
  match removed_values head !! id with
  | None => mret tt
  | Some old =>
      r ← gets (fun ix => container_emplace id old (indices ix));
      update (with_indices (fst r)) ;;
      require (snd r) "Could not restore object, most likely a uniqueness constraint was violated"
  end.

Definition undo : M (generic_index V) unit := fun ix =>
  match stack ix with
  | [] => Ret ix tt
  | head :: st =>
      (for_each (keys (old_values head)) (restore_old head) ;;
       for_each (members (new_ids head)) drop_new ;;
       update (with_next_id (old_next_id head)) ;;
       for_each (keys (removed_values head)) (restore_removed head) ;;
       update (with_stack st) ;;
       update (fun ix => with_revision (revision ix - 1) ix)) ix
  end.

(** The three loops of squash: [prev] is prev_state, [state] the later one. *)
Definition merge_old (state : undo_state V) (prev : undo_state V) (id : Z) : undo_state V :=
  match old_values state !! id with
  | None => prev
  | Some old =>
      if bool_decide (id ∈ new_ids prev) then prev
      else match old_values prev !! id with
           | Some _ => prev
           | None => UndoState (map_emplace id old (old_values prev)) (removed_values prev) (new_ids prev) (old_next_id prev) (state_revision prev)
           end
  end.

Definition merge_new (prev : undo_state V) (id : Z) : undo_state V :=
  UndoState (old_values prev) (removed_values prev) ({[id]} ∪ new_ids prev) (old_next_id prev) (state_revision prev).

Definition merge_removed (state : undo_state V) (prev : undo_state V) (id : Z) : undo_state V :=
  match removed_values state !! id with
  | None => prev
  | Some obj =>
      if bool_decide (id ∈ new_ids prev)
      then UndoState (old_values prev) (removed_values prev) (new_ids prev ∖ {[id]}) (old_next_id prev) (state_revision prev)
      else match old_values prev !! id with
           | Some old => UndoState (delete id (old_values prev)) (map_emplace id old (removed_values prev)) (new_ids prev) (old_next_id prev) (state_revision prev)
           | None => UndoState (old_values prev) (map_emplace id obj (removed_values prev)) (new_ids prev) (old_next_id prev) (state_revision prev)
           end
  end.

Definition merge (state prev : undo_state V) : undo_state V :=
  let prev := fold_left (merge_old state) (keys (old_values state)) prev in
  let prev := fold_left merge_new (members (new_ids state)) prev in
  fold_left (merge_removed state) (keys (removed_values state)) prev.

Definition squash ix : generic_index V :=
  match stack ix with
  | [] => ix
  | [_] => with_stack [] ix
  | state :: prev_state :: st => with_revision (revision ix - 1) (with_stack (merge state prev_state :: st) ix)
  end.

(** while (_stack.size() && _stack[0].revision <= revision) _stack.pop_front(); *)
Fixpoint drop_front (revision : Z) (front_first : list (undo_state V)) : list (undo_state V) :=
  match front_first with
  | [] => []
  | s :: st => if state_revision s <=? revision then drop_front revision st else front_first
  end.
Definition commit (revision : Z) ix : generic_index V := with_stack (rev (drop_front revision (rev (stack ix)))) ix.

(** while (enabled()) undo(); [None]: out of fuel. *)
Fixpoint undo_all (fuel : nat) : generic_index V -> option (outcome (generic_index V) unit) := fun ix =>
  if enabled ix then
    match fuel with
    | O => None
    | S fuel =>
        match undo ix with
        | Ret ix _ => undo_all fuel ix
        | Exc ix e => Some (Exc ix e)
        | Undef => Some Undef
        end
    end
  else Some (Ret ix tt).

Definition set_revision (r : Z) : M (generic_index V) unit :=
  e ← gets enabled;
  if (e : bool) then throw "cannot set revision while there is an existing undo stack"
  else update (with_revision (s64 r)).

(** ** Sessions *)

Record session := Session { apply : bool; session_revision : Z }.

(** session( generic_index& idx, int64_t revision ) *)
Definition new_session (r : Z) : session := Session (negb (r =? -1)) r.

Definition start_undo_session (on : bool) ix : generic_index V * session :=
  if on then
    let r := revision ix + 1 in
    (Index (UndoState ∅ ∅ ∅ (next_id ix) r :: stack ix) r (next_id ix) (indices ix), new_session r)
  else (ix, new_session (-1)).

(** The moved-to session and what is left of the source.  The revision is not
    among the members the constructor initializes. *)
Definition session_move (s : session) : session * session := (Session (apply s) 0, Session false (session_revision s)).

(** operator=( session&& mv ), of another object of the same index: the index
    and the revision stay those of the target. *)
Definition session_assign (s mv : session) : M (generic_index V) (session * session) :=
  (if apply s then undo else mret tt) ;;
  mret (Session (apply mv) (session_revision s), Session false (session_revision mv)).

Definition session_push (s : session) : session := Session false (session_revision s).
Definition session_squash (s : session) ix : generic_index V * session :=
  (if apply s then squash ix else ix, Session false (session_revision s)).
Definition session_undo (s : session) : M (generic_index V) session :=
  (if apply s then undo else mret tt) ;; mret (Session false (session_revision s)).
(** ~session *)
Definition session_end (s : session) : M (generic_index V) unit := if apply s then undo else mret tt.

(** ** database

    The indices of [_index_list]; their objects differ in type in C++ and are
    cases of one type [V] here.  The sessions of a database session belong to
    the indices at the same positions. *)

Local Abbreviation database := (list (generic_index V)).

Definition on_index {A} (i : nat) (m : M (generic_index V) A) : M database A := fun db =>
  match db !! i with
  | None => Undef
  | Some ix =>
      match m ix with
      | Ret ix a => Ret (<[i := ix]> db) a
      | Exc ix e => Exc (<[i := ix]> db) e
      | Undef => Undef
      end
  end.

Record db_session := DbSession { index_sessions : list session; db_session_revision : Z }.

(** session( vector<...>&& s ); the members' initializer is -1. *)
Definition new_db_session (s : list session) : db_session :=
  DbSession s (match s with [] => -1 | x :: _ => session_revision x end).

(** Each index's session is moved into the session_impl that wraps it. *)
Definition db_start_undo_session (on : bool) (db : database) : database * db_session :=
  if on then
    let started := map (start_undo_session true) db in
    (map fst started, new_db_session (map (fun r => fst (session_move (snd r))) started))
  else (db, new_db_session []).

Definition db_session_push (s : db_session) : db_session := DbSession [] (db_session_revision s).

Definition db_session_squash (s : db_session) (db : database) : database * db_session :=
  (imap (fun i ix => match index_sessions s !! i with Some x => fst (session_squash x ix) | None => ix end) db,
   DbSession [] (db_session_revision s)).

Definition db_session_undo (s : db_session) : M database db_session :=
  for_each (seq 0 (length (index_sessions s)))
    (fun i => match index_sessions s !! i with
              | Some x => on_index i (session_undo x ;; mret tt)
              | None => mret tt
              end) ;;
  mret (DbSession [] (db_session_revision s)).

(** The scope of a session variable: [leave] is what the code does with it at
    the end of its body; its destructor undoes what is still to apply, also
    when the body throws (a destructor that throws ends the program). *)
Definition in_session {A} (body : M database A) (leave : db_session -> M database db_session) : M database A := fun db =>
  let '(db, s) := db_start_undo_session true db in
  match body db with
  | Ret db a => (s ← leave s; db_session_undo s ;; mret a) db
  | Exc db e => match db_session_undo s db with Ret db _ => Exc db e | _ => Undef end
  | Undef => Undef
  end.

Definition leave_push (s : db_session) : M database db_session := mret (db_session_push s).
Definition leave_squash (s : db_session) : M database db_session :=
  fun db => let '(db, s) := db_session_squash s db in Ret db s.
Definition leave_undo (s : db_session) : M database db_session := db_session_undo s.

Definition db_revision (db : database) : Z := match db with [] => -1 | ix :: _ => revision ix end.
Definition db_undo : M database unit := fun db => for_each (seq 0 (length db)) (fun i => on_index i undo) db.
Definition db_squash (db : database) : database := map squash db.
Definition db_commit (revision : Z) (db : database) : database := map (commit revision) db.
Definition db_undo_all : M database unit := fun db =>
  for_each (seq 0 (length db))
    (fun i => on_index i (fun ix => match undo_all (length (stack ix)) ix with Some o => o | None => Undef end)) db.
Definition db_set_revision (r : Z) : M database unit :=
  fun db => for_each (seq 0 (length db)) (fun i => on_index i (set_revision r)) db.
End Index.
