(* ===== verification/UndoIndexThm.v ===== *)
(** The undo history against its specification: an index is a map with a
    stack of snapshots.  A recorded state and the present map determine the
    snapshot; the operations keep it so, and undo returns to it. *)

From Stdlib Require Import ZArith Lia Bool String List.
From stdpp Require Import base decidable gmap fin_maps fin_sets list sorting.
From S2P Require Import Prelude Effects UndoIndex.
Import ListNotations.
Local Open Scope Z_scope.

Section Thm.
Context {V : Type} `{UniqueKeys V}.
Implicit Types (ix : generic_index V) (v w : V) (m : gmap Z V) (s : undo_state V).

(** ** Keys *)

Lemma elem_of_keys {A} (m : gmap Z A) id : id ∈ keys m <-> is_Some (m !! id).
Proof. unfold keys. rewrite merge_sort_Permutation, elem_of_elements, elem_of_dom. reflexivity. Qed.

(** A loop over the keys of a map changes nothing elsewhere. *)
Lemma keys_case {A B} (m : gmap Z A) id (x y : B) : (m !! id = None -> x = y) -> (if bool_decide (id ∈ keys m) then x else y) = x.
Proof.
  intros E. case_bool_decide as K; [reflexivity |]. rewrite elem_of_keys in K. symmetry. apply E.
  destruct (m !! id); [destruct K; eauto | reflexivity].
Qed.

Lemma NoDup_keys {A} (m : gmap Z A) : NoDup (keys m).
Proof. unfold keys. rewrite merge_sort_Permutation. apply NoDup_elements. Qed.

Lemma elem_of_members (x : gset Z) id : id ∈ members x <-> id ∈ x.
Proof. unfold members. rewrite merge_sort_Permutation, elem_of_elements. reflexivity. Qed.

Lemma NoDup_members (x : gset Z) : NoDup (members x).
Proof. unfold members. rewrite merge_sort_Permutation. apply NoDup_elements. Qed.

Lemma map_emplace_lookup {A} k a (m : gmap Z A) j :
  map_emplace k a m !! j = if bool_decide (j = k) then Some (default a (m !! k)) else m !! j.
Proof.
  unfold map_emplace. case_bool_decide as E.
  - subst j. destruct (m !! k) eqn:L; cbn; [exact L | apply lookup_insert_eq].
  - destruct (m !! k) eqn:L; [reflexivity | apply lookup_insert_ne; congruence].
Qed.

(** ** Unique keys *)

(** Objects with the same unique keys clash with the same objects. *)
Definition same_keys v w : Prop := forall x, clash v x = clash w x.

#[global] Instance same_keys_equiv : Equivalence same_keys.
Proof. split; [intros v x | intros v w E x | intros u v w E F x]; congruence. Qed.

Lemma same_keys_trans u v w : same_keys u v -> same_keys v w -> same_keys u w.
Proof. apply transitivity. Qed.

Definition unique m : Prop := forall i j v w, m !! i = Some v -> m !! j = Some w -> i <> j -> clash v w = false.

Lemma placeable_spec m id v : placeable m id v = true <-> forall j w, m !! j = Some w -> j <> id -> clash v w = false.
Proof.
  unfold placeable. rewrite bool_decide_eq_true. split.
  - intros P j w L N. destruct (P j w L); [contradiction | assumption].
  - intros P j w L. destruct (decide (j = id)); [left; assumption | right; eauto].
Qed.

Lemma unique_insert m id v : unique m -> placeable m id v = true -> unique (<[id := v]> m).
Proof.
  intros U P i j x y Hi Hj N. rewrite placeable_spec in P.
  rewrite lookup_insert_Some in Hi, Hj. destruct Hi as [[<- <-] | [Ni Hi]], Hj as [[<- <-] | [Nj Hj]]; [contradiction | | |].
  - apply (P j); auto.
  - rewrite clash_sym. apply (P i); auto.
  - eapply U; eauto.
Qed.

Lemma unique_delete m id : unique m -> unique (delete id m).
Proof. intros U i j v w. rewrite !lookup_delete_Some. intros [_ Hi] [_ Hj]. eapply U; eauto. Qed.

Lemma same_keys_placeable m id v w : unique m -> m !! id = Some v -> same_keys w v -> placeable m id w = true.
Proof. intros U L E. apply placeable_spec. intros j x Lj N. rewrite E. eapply U; eauto. Qed.

(** ** What an undo state records *)

(** [s] turns the map [m0], next id [n0], into [m], next id [n]: each id is
    new, updated, deleted or untouched, as in the comment of squash. *)
Definition recorded s m0 (n0 : Z) m (id : Z) : Prop :=
  match bool_decide (id ∈ new_ids s), old_values s !! id, removed_values s !! id with
  | true, None, None => m0 !! id = None /\ is_Some (m !! id) /\ n0 <= id
  | false, Some v, None => m0 !! id = Some v /\ exists w, m !! id = Some w /\ same_keys v w
  | false, None, Some v => m0 !! id = Some v /\ m !! id = None
  | false, None, None => m !! id = m0 !! id
  | _, _, _ => False
  end.

(** Distinct unique keys, and every id handed out before the next one. *)
Record good m (n : Z) : Prop := {
  good_unique : unique m;
  good_range : forall id v, m !! id = Some v -> id < n }.

Record records s m0 n0 m n : Prop := {
  rec_next : old_next_id s = n0;
  rec_base : good m0 n0;
  rec_mono : n0 <= n;
  rec_ids : forall id, recorded s m0 n0 m id }.

(** The changes a client may make: an object is created on free keys, modified
    without touching its unique keys, or removed. *)
Inductive change m n : gmap Z V -> Z -> Prop :=
| change_create v : placeable m n v = true -> change m n (<[n := v]> m) (n + 1)
| change_modify id v w : m !! id = Some v -> same_keys v w -> change m n (<[id := w]> m) n
| change_remove id v : m !! id = Some v -> change m n (delete id m) n.

Lemma change_good m n m' n' : good m n -> change m n m' n' -> good m' n'.
Proof.
  intros [U R] [v P | id v w L K | id v L]; split.
  - apply unique_insert; assumption.
  - intros id x. rewrite lookup_insert_Some. intros [[<- _] | [_ Hx]]; [| apply R in Hx]; lia.
  - apply unique_insert; [exact U |]. eapply same_keys_placeable; eauto. symmetry. exact K.
  - intros j x. rewrite lookup_insert_Some. intros [[<- _] | [_ Hx]]; eauto.
  - apply unique_delete, U.
  - intros j x. rewrite lookup_delete_Some. intros [_ Hx]. eauto.
Qed.

Lemma records_empty m n r : good m n -> records (UndoState ∅ ∅ ∅ n r) m n m n.
Proof. intros G. split; [reflexivity | exact G | lia |]. intros id. reflexivity. Qed.

(** The three updates of the head state, seen at one id. *)
Definition created (id : Z) (head : undo_state V) : undo_state V :=
  UndoState (old_values head) (removed_values head) ({[id]} ∪ new_ids head) (old_next_id head) (state_revision head).

Definition modified (id : Z) (v : V) (head : undo_state V) : undo_state V :=
  if bool_decide (id ∈ new_ids head) then head
  else match old_values head !! id with
       | Some _ => head
       | None => UndoState (map_emplace id v (old_values head)) (removed_values head) (new_ids head) (old_next_id head) (state_revision head)
       end.

Definition removed (id : Z) (v : V) (head : undo_state V) : undo_state V :=
  if bool_decide (id ∈ new_ids head)
  then UndoState (old_values head) (removed_values head) (new_ids head ∖ {[id]}) (old_next_id head) (state_revision head)
  else match old_values head !! id with
       | Some old => UndoState (delete id (old_values head)) (map_emplace id old (removed_values head)) (new_ids head) (old_next_id head) (state_revision head)
       | None =>
           match removed_values head !! id with
           | Some _ => head
           | None => UndoState (old_values head) (map_emplace id v (removed_values head)) (new_ids head) (old_next_id head) (state_revision head)
           end
       end.

(** Only the entry of the changed id moves. *)
Lemma recorded_frame s s' m0 n0 m m' j :
  recorded s m0 n0 m j -> (j ∈ new_ids s' <-> j ∈ new_ids s) -> old_values s' !! j = old_values s !! j ->
  removed_values s' !! j = removed_values s !! j -> m' !! j = m !! j -> recorded s' m0 n0 m' j.
Proof.
  unfold recorded. intros R E -> -> ->. rewrite (bool_decide_ext _ _ E). exact R.
Qed.

Lemma records_create s m0 n0 m n v : good m n -> records s m0 n0 m n -> records (created n s) m0 n0 (<[n := v]> m) (n + 1).
Proof.
  intros [_ R] [N G0 L I]. pose proof (good_range _ _ G0) as R0. split; [exact N | exact G0 | lia |]. intros id. destruct (decide (id = n)) as [-> | D].
  - specialize (I n). unfold recorded in *. cbn. rewrite bool_decide_true by set_solver. rewrite lookup_insert_eq.
    assert (m !! n = None) as Hn by (destruct (m !! n) eqn:Q; [apply R in Q; lia | reflexivity]). rewrite Hn in I.
    destruct (bool_decide _), (old_values s !! n), (removed_values s !! n); try contradiction.
    + destruct I as (_ & [? ?] & _). discriminate.
    + destruct I as (_ & ? & ? & _). discriminate.
    + destruct I as [Q _]. apply R0 in Q. lia.
    + split; [congruence | eauto].
  - eapply recorded_frame; [apply I | cbn; set_solver | reflexivity | reflexivity | apply lookup_insert_ne; congruence].
Qed.

Lemma records_modify s m0 n0 m n id v w : m !! id = Some v -> same_keys v w ->
  records s m0 n0 m n -> records (modified id v s) m0 n0 (<[id := w]> m) n.
Proof.
  intros E K [N G0 L I].
  assert (P : recorded (modified id v s) m0 n0 (<[id := w]> m) id /\ old_next_id (modified id v s) = n0
    /\ forall j, j <> id -> (j ∈ new_ids (modified id v s) <-> j ∈ new_ids s) /\ old_values (modified id v s) !! j = old_values s !! j
                          /\ removed_values (modified id v s) !! j = removed_values s !! j).
  { specialize (I id). unfold recorded, modified in *. destruct (bool_decide (id ∈ new_ids s)) eqn:B.
    - rewrite B, lookup_insert_eq. destruct (old_values s !! id), (removed_values s !! id); try contradiction.
      rewrite E in I. intuition eauto.
    - rewrite E in I. destruct (old_values s !! id) as [x |] eqn:O; cbn.
      + rewrite B, O, lookup_insert_eq. destruct (removed_values s !! id); [contradiction |].
        destruct I as (I & y & Q & Ky). injection Q as ->. split; [| auto]. split; [exact I |]. exists w. split; [reflexivity |].
        etransitivity; eassumption.
      + rewrite B, map_emplace_lookup, bool_decide_true, O, lookup_insert_eq by reflexivity. cbn.
        destruct (removed_values s !! id); [destruct I; discriminate |]. split; [split; [congruence | eauto] |]. split; [exact N |].
        intros j D. rewrite map_emplace_lookup, bool_decide_false by exact D. auto. }
  destruct P as (P & Q & F). split; [exact Q | exact G0 | exact L |]. intros j. destruct (decide (j = id)) as [-> | D]; [exact P |].
  destruct (F j D) as (F1 & F2 & F3). eapply recorded_frame; [apply I | | | | apply lookup_insert_ne]; eauto.
Qed.

Lemma records_remove s m0 n0 m n id v : m !! id = Some v ->
  records s m0 n0 m n -> records (removed id v s) m0 n0 (delete id m) n.
Proof.
  intros E [N G0 L I].
  assert (P : recorded (removed id v s) m0 n0 (delete id m) id /\ old_next_id (removed id v s) = n0
    /\ forall j, j <> id -> (j ∈ new_ids (removed id v s) <-> j ∈ new_ids s) /\ old_values (removed id v s) !! j = old_values s !! j
                          /\ removed_values (removed id v s) !! j = removed_values s !! j).
  { specialize (I id). unfold recorded, removed in *. destruct (bool_decide (id ∈ new_ids s)) eqn:B; cbn.
    - rewrite bool_decide_false by set_solver. rewrite lookup_delete_eq.
      destruct (old_values s !! id), (removed_values s !! id); try contradiction. destruct I as (I & _).
      split; [auto |]. split; [exact N |]. intros j D. split; [set_solver | auto].
    - rewrite E in I. destruct (old_values s !! id) as [x |] eqn:O; cbn.
      + rewrite B, lookup_delete_eq, map_emplace_lookup, bool_decide_true, lookup_delete_eq by reflexivity. cbn.
        destruct (removed_values s !! id); [contradiction |]. destruct I as (I & _). cbn. split; [auto |]. split; [exact N |].
        intros j D. rewrite lookup_delete_ne, map_emplace_lookup, bool_decide_false by congruence. auto.
      + destruct (removed_values s !! id) eqn:Q; [destruct I; discriminate |]. cbn.
        rewrite B, O, map_emplace_lookup, bool_decide_true, Q, lookup_delete_eq by reflexivity. cbn.
        split; [auto |]. split; [exact N |]. intros j D. rewrite map_emplace_lookup, bool_decide_false by exact D. auto. }
  destruct P as (P & Q & F). split; [exact Q | exact G0 | exact L |]. intros j. destruct (decide (j = id)) as [-> | D]; [exact P |].
  destruct (F j D) as (F1 & F2 & F3). eapply recorded_frame; [apply I | | | | apply lookup_delete_ne]; eauto.
Qed.
(** ** Undo *)

Lemma container_modify_keys m id v w : unique m -> m !! id = Some w -> same_keys v w ->
  container_modify id (fun _ => v) m = Some (<[id := v]> m, true).
Proof.
  intros U L K. unfold container_modify. rewrite L. rewrite (same_keys_placeable m id w v U L K). reflexivity.
Qed.

Lemma same_keys_unique m id v w : unique m -> m !! id = Some w -> same_keys v w -> unique (<[id := v]> m).
Proof. intros U L K. apply unique_insert; [exact U |]. eapply same_keys_placeable; eauto. Qed.

(** Writing the values of [src] at the ids of [l]. *)
Definition overwrite (l : list Z) (src m : gmap Z V) : gmap Z V :=
  fold_left (fun m id => match src !! id with Some v => <[id := v]> m | None => m end) l m.

Lemma overwrite_lookup src l : forall m id,
  overwrite l src m !! id = if bool_decide (id ∈ l) then match src !! id with Some v => Some v | None => m !! id end else m !! id.
Proof.
  induction l as [| j l IH]; intros m id; [reflexivity |].
  change (overwrite (j :: l) src m) with (overwrite l src (match src !! j with Some v => <[j := v]> m | None => m end)).
  rewrite IH. assert (E : bool_decide (id ∈ j :: l) = bool_decide (id = j) || bool_decide (id ∈ l)).
  { repeat case_bool_decide; rewrite elem_of_cons in *; cbn; tauto. }
  rewrite E. clear E. destruct (decide (id = j)) as [-> | D].
  - rewrite (bool_decide_true (j = j)) by reflexivity. cbn.
    destruct (src !! j) eqn:S; rewrite ?lookup_insert_eq; destruct (bool_decide _); reflexivity.
  - rewrite (bool_decide_false (id = j)) by exact D. cbn. destruct (src !! j); rewrite ?lookup_insert_ne by congruence; reflexivity.
Qed.

(** The ids of [l] deleted. *)
Definition drop_ids (l : list Z) (m : gmap Z V) : gmap Z V := fold_left (fun m id => delete id m) l m.

Lemma drop_ids_lookup l : forall m id, drop_ids l m !! id = if bool_decide (id ∈ l) then None else m !! id.
Proof.
  induction l as [| j l IH]; intros m id; [reflexivity |]. change (drop_ids (j :: l) m) with (drop_ids l (delete j m)). rewrite IH.
  assert (E : bool_decide (id ∈ j :: l) = bool_decide (id = j) || bool_decide (id ∈ l)).
  { repeat case_bool_decide; rewrite elem_of_cons in *; cbn; tauto. }
  rewrite E. clear E. destruct (decide (id = j)) as [-> | D].
  - rewrite (bool_decide_true (j = j)), lookup_delete_eq by reflexivity. destruct (bool_decide _); reflexivity.
  - rewrite (bool_decide_false (id = j)), lookup_delete_ne by congruence. reflexivity.
Qed.

Lemma run_restore_old s l : forall ix,
  unique (indices ix) -> NoDup l ->
  (forall id, id ∈ l -> exists v w, old_values s !! id = Some v /\ indices ix !! id = Some w /\ same_keys v w) ->
  for_each l (restore_old s) ix = Ret (with_indices (overwrite l (old_values s) (indices ix)) ix) tt
  /\ unique (overwrite l (old_values s) (indices ix)).
Proof.
  induction l as [| id l IH]; intros ix U ND I; [destruct ix; auto |].
  apply NoDup_cons in ND as [NI ND]. destruct (I id) as (v & w & O & L & K); [left |].
  set (ix1 := with_indices (<[id := v]> (indices ix)) ix).
  assert (E : restore_old s id ix = Ret ix1 tt).
  { unfold restore_old. rewrite O. unfold mbind, M_bind, gets. rewrite (container_modify_keys _ _ _ _ U L K). reflexivity. }
  cbn [for_each]. rewrite (mbind_ret _ _ _ _ _ E).
  destruct (IH ix1) as [-> U']; [eapply same_keys_unique; eauto | exact ND | |].
  - intros j Hj. destruct (I j) as (x & y & Q); [right; exact Hj |]. exists x, y. cbn.
    rewrite lookup_insert_ne by (intros ->; contradiction). exact Q.
  - unfold overwrite in *. cbn [fold_left]. rewrite O. split; [reflexivity | exact U'].
Qed.

Lemma run_drop_new l : forall ix, NoDup l -> (forall id, id ∈ l -> is_Some (indices ix !! id)) ->
  for_each l drop_new ix = Ret (with_indices (drop_ids l (indices ix)) ix) tt.
Proof.
  induction l as [| id l IH]; intros ix ND I; [destruct ix; reflexivity |].
  apply NoDup_cons in ND as [NI ND]. destruct (I id) as [v L]; [left |].
  cbn [for_each]. erewrite mbind_ret by (unfold drop_new, mbind, M_bind, gets; rewrite L; reflexivity).
  rewrite IH; [reflexivity | exact ND |]. intros j Hj. cbn. rewrite lookup_delete_ne by (intros ->; contradiction).
  apply I. right. exact Hj.
Qed.

(** Bringing back objects of a map without clashes. *)
Lemma run_restore_removed s m0 l : forall ix, NoDup l -> unique m0 ->
  (forall id v, indices ix !! id = Some v -> m0 !! id = Some v) ->
  (forall id, id ∈ l -> indices ix !! id = None /\ exists v, removed_values s !! id = Some v /\ m0 !! id = Some v) ->
  for_each l (restore_removed s) ix = Ret (with_indices (overwrite l (removed_values s) (indices ix)) ix) tt.
Proof.
  induction l as [| id l IH]; intros ix ND U S I; [destruct ix; reflexivity |].
  apply NoDup_cons in ND as [NI ND]. destruct (I id) as (N & v & R & E); [left |].
  assert (P : placeable (indices ix) id v = true) by (apply placeable_spec; intros j w Lj D; eapply (U id j); eauto).
  cbn [for_each]. erewrite mbind_ret by
    (unfold restore_removed; rewrite R; unfold mbind, M_bind, gets, container_emplace; rewrite N, P; reflexivity).
  rewrite IH; [| exact ND | exact U | |].
  - unfold overwrite. cbn [fold_left]. rewrite R. reflexivity.
  - intros j w. cbn. rewrite lookup_insert_Some. intros [[<- <-] | [_ Hj]]; auto.
  - intros j Hj. destruct (I j) as (N' & Q); [right; exact Hj |]. split; [| exact Q]. cbn.
    rewrite lookup_insert_ne by (intros ->; contradiction). exact N'.
Qed.

Lemma undo_spec s st m0 n0 r m n :
  good m n -> records s m0 n0 m n -> undo (Index (s :: st) r n m) = Ret (Index st (r - 1) n0 m0) tt.
Proof.
  intros [U R] [N [U0 R0] L I]. unfold undo. cbn [stack].
  assert (I' := I). unfold recorded in I'.
  destruct (run_restore_old s (keys (old_values s)) (Index (s :: st) r n m)) as [E1 U1]; [exact U | apply NoDup_keys | |].
  { intros id Hid. apply elem_of_keys in Hid as [v O]. specialize (I' id). rewrite O in I'. cbn.
    destruct (bool_decide _), (removed_values s !! id); try contradiction. destruct I' as (_ & w & Lw & K). eauto. }
  rewrite (mbind_ret _ _ _ _ _ E1). cbn [indices] in *. set (m1 := overwrite _ _ m) in *.
  assert (L1 : forall id, m1 !! id = match old_values s !! id with Some v => Some v | None => m !! id end).
  { intros id. subst m1. rewrite overwrite_lookup. case_bool_decide as B; [reflexivity |]. rewrite elem_of_keys in B.
    destruct (old_values s !! id); [destruct B; eauto | reflexivity]. }
  clearbody m1. unfold with_indices at 1; cbn [stack revision next_id].
  erewrite mbind_ret by (apply run_drop_new; [apply NoDup_members |]; intros id Hid; cbn; rewrite elem_of_members in Hid;
    specialize (I' id); rewrite bool_decide_true in I' by exact Hid; rewrite L1;
    destruct (old_values s !! id); [eauto |]; destruct (removed_values s !! id); [contradiction | apply I']).
  cbn [indices]. set (m2 := drop_ids _ m1).
  assert (L2 : forall id, m2 !! id = if bool_decide (id ∈ new_ids s) then None else m1 !! id).
  { intros id. subst m2. rewrite drop_ids_lookup. rewrite (bool_decide_ext _ _ (elem_of_members _ _)). reflexivity. }
  clearbody m2. unfold with_indices at 1; cbn [stack revision next_id].
  erewrite mbind_ret by reflexivity. unfold with_next_id; cbn [stack revision indices].
  assert (S : forall id v, m2 !! id = Some v -> m0 !! id = Some v /\ removed_values s !! id = None).
  { intros id v. rewrite L2, L1. specialize (I' id). destruct (bool_decide _); [discriminate |].
    destruct (old_values s !! id), (removed_values s !! id); try contradiction; intros E.
    - destruct I' as [I' _]. split; congruence.
    - destruct I'. congruence.
    - split; congruence. }
  erewrite mbind_ret.
  2: { apply (run_restore_removed s m0); [apply NoDup_keys | exact U0 | intros; apply S; assumption |].
       intros id Hid. apply elem_of_keys in Hid as [v Q]. cbn. split.
       - destruct (m2 !! id) eqn:E; [apply S in E as [_ E]; congruence | reflexivity].
       - specialize (I' id). rewrite Q in I'. destruct (bool_decide _), (old_values s !! id); try contradiction.
         exists v. split; [exact Q | apply I']. }
  unfold mbind, M_bind, update, with_indices, with_stack, with_revision; cbn [stack revision next_id indices].
  f_equal. f_equal; [exact N |]. apply map_eq. intros id. rewrite overwrite_lookup.
  rewrite (bool_decide_ext _ _ (elem_of_keys _ _)). rewrite L2, L1. specialize (I' id).
  destruct (removed_values s !! id) as [v |] eqn:Q.
  - rewrite bool_decide_true by eauto. destruct (bool_decide (id ∈ new_ids s)), (old_values s !! id); try contradiction.
    symmetry; apply I'.
  - rewrite bool_decide_false by (intros [? ?]; discriminate).
    destruct (bool_decide (id ∈ new_ids s)), (old_values s !! id); try contradiction; [symmetry; apply I' .. | exact I'].
Qed.
(** ** Squash *)

(** What a state says of one id. *)
Definition entry s (id : Z) : bool * option V * option V := (bool_decide (id ∈ new_ids s), old_values s !! id, removed_values s !! id).

(** A loop whose body changes the entry of its own id only. *)
Lemma fold_entry (f : undo_state V -> Z -> undo_state V) (g : Z -> bool * option V * option V -> bool * option V * option V) l :
  (forall s j, old_next_id (f s j) = old_next_id s /\ state_revision (f s j) = state_revision s) ->
  (forall s j id, id <> j -> entry (f s j) id = entry s id) ->
  (forall s id, entry (f s id) id = g id (entry s id)) -> NoDup l ->
  forall s, (old_next_id (fold_left f l s) = old_next_id s /\ state_revision (fold_left f l s) = state_revision s) /\
    forall id, entry (fold_left f l s) id = if bool_decide (id ∈ l) then g id (entry s id) else entry s id.
Proof using.
  intros Hn Hf Hg. induction 1 as [| j l NI ND IH]; intros s; [auto |]. cbn [fold_left].
  destruct (IH (f s j)) as [[N R] E]. destruct (Hn s j) as [N' R']. split; [split; congruence |].
  intros id. rewrite E. destruct (decide (id = j)) as [-> | D].
  - rewrite (bool_decide_false (j ∈ l)), (bool_decide_true (j ∈ j :: l)) by (assumption || left). apply Hg.
  - rewrite Hf by exact D. rewrite (bool_decide_ext (id ∈ j :: l) (id ∈ l)) by (rewrite elem_of_cons; tauto). reflexivity.
Qed.

Definition g_old (state : undo_state V) (id : Z) (e : bool * option V * option V) :=
  let '(nw, old, rem) := e in
  match old_values state !! id with
  | Some o => if nw then e else match old with Some _ => e | None => (nw, Some o, rem) end
  | None => e
  end.

Definition g_new (id : Z) (e : bool * option V * option V) := let '(nw, old, rem) := e in (true, old, rem).

Definition g_removed (state : undo_state V) (id : Z) (e : bool * option V * option V) :=
  let '(nw, old, rem) := e in
  match removed_values state !! id with
  | Some o => if nw then (false, old, rem) else (false, None, Some (default (default o old) rem))
  | None => e
  end.

Lemma g_old_none state id e : old_values state !! id = None -> g_old state id e = e.
Proof. destruct e as [[nw old] rem]. unfold g_old. intros ->. reflexivity. Qed.

Lemma g_removed_none state id e : removed_values state !! id = None -> g_removed state id e = e.
Proof. destruct e as [[nw old] rem]. unfold g_removed. intros ->. reflexivity. Qed.

Ltac entry_cases :=
  repeat first
    [ reflexivity
    | progress (rewrite ?map_emplace_lookup, ?lookup_delete_eq, ?lookup_delete_ne by congruence)
    | match goal with
      | |- context [bool_decide (?a = ?a)] => rewrite (bool_decide_true (a = a)) by reflexivity
      | D : ?a <> ?b |- context [bool_decide (?a = ?b)] => rewrite (bool_decide_false (a = b)) by exact D
      | |- context [match ?m !! ?j with _ => _ end] => let E := fresh "E" in destruct (m !! j) eqn:E; cbn
      | |- context [if bool_decide (?j ∈ new_ids ?s) then _ else _] => let E := fresh "E" in destruct (bool_decide (j ∈ new_ids s)) eqn:E; cbn
      end
    | progress (repeat match goal with E : ?m !! ?j = _ |- context [?m !! ?j] => rewrite E | E : bool_decide ?P = _ |- context [bool_decide ?P] => rewrite E end) ].

Lemma entry_eq s s' j : (j ∈ new_ids s <-> j ∈ new_ids s') -> old_values s !! j = old_values s' !! j ->
  removed_values s !! j = removed_values s' !! j -> entry s j = entry s' j.
Proof. unfold entry. intros E -> ->. rewrite (bool_decide_ext _ _ E). reflexivity. Qed.

Lemma merge_entry state prev :
  (old_next_id (merge state prev) = old_next_id prev /\ state_revision (merge state prev) = state_revision prev) /\
  forall id, entry (merge state prev) id = 
    let e1 := g_old state id (entry prev id) in
    let e2 := if bool_decide (id ∈ new_ids state) then g_new id e1 else e1 in
    g_removed state id e2.
Proof.
  unfold merge.
  destruct (fold_entry (merge_old state) (g_old state) (keys (old_values state))) with (s := prev) as [[N1 R1] E1].
  { intros s j. unfold merge_old. entry_cases; auto. }
  { intros s j id D. unfold merge_old, entry. entry_cases. }
  { intros s id. unfold merge_old, g_old, entry. entry_cases. }
  { apply NoDup_keys. }
  destruct (fold_entry merge_new g_new (members (new_ids state))) with (s := fold_left (merge_old state) (keys (old_values state)) prev) as [[N2 R2] E2].
  { intros s j. auto. }
  { intros s j id D. apply entry_eq; [cbn; set_solver | reflexivity ..]. }
  { intros s id. unfold merge_new, g_new, entry. cbn. rewrite bool_decide_true by set_solver. reflexivity. }
  { apply NoDup_members. }
  destruct (fold_entry (merge_removed state) (g_removed state) (keys (removed_values state)))
    with (s := fold_left merge_new (members (new_ids state)) (fold_left (merge_old state) (keys (old_values state)) prev)) as [[N3 R3] E3].
  { intros s j. unfold merge_removed. entry_cases; auto. }
  { intros s j id D. unfold merge_removed. entry_cases; apply entry_eq; cbn; try set_solver; entry_cases. }
  { intros s id. unfold merge_removed, g_removed, entry. entry_cases. all: try rewrite bool_decide_false by set_solver. all: entry_cases. }
  { apply NoDup_keys. }
  split; [split; congruence |]. intros id. rewrite E3, E2, E1. cbv zeta.
  rewrite (bool_decide_ext _ _ (elem_of_members (new_ids state) id)).
  rewrite (keys_case (old_values state)), (keys_case (removed_values state)); auto using g_old_none, g_removed_none.
Qed.

(** Two consecutive records merged are a record of both. *)
Lemma merge_spec s1 s2 m0 n0 m1 n1 m2 n2 :
  records s1 m0 n0 m1 n1 -> records s2 m1 n1 m2 n2 -> records (merge s2 s1) m0 n0 m2 n2.
Proof.
  intros [N1 G0 L1 I1] [N2 G1 L2 I2]. destruct (merge_entry s2 s1) as [[N _] E].
  split; [congruence | exact G0 | lia |]. intros id. specialize (I1 id). specialize (I2 id). specialize (E id).
  pose proof (good_range _ _ G0 id) as R0. pose proof (good_range _ _ G1 id) as R1.
  unfold recorded, entry, g_old, g_new, g_removed in *. cbv zeta in E.
  destruct (bool_decide (id ∈ new_ids s1)), (old_values s1 !! id) as [o1 |], (removed_values s1 !! id) as [x1 |]; try contradiction;
  destruct (bool_decide (id ∈ new_ids s2)), (old_values s2 !! id) as [o2 |], (removed_values s2 !! id) as [x2 |]; try contradiction;
  cbn in E; injection E as E1 E2 E3; rewrite ?E1, ?E2, ?E3; clear E1 E2 E3;
  try solve [intuition (eauto; congruence)];
  repeat match goal with H : _ /\ _ |- _ => destruct H | H : is_Some _ |- _ => destruct H | H : exists _, _ |- _ => destruct H end;
  simplify_eq; try (exfalso; match goal with L : m0 !! id = Some _ |- _ => apply R0 in L; lia end);
  try rewrite I2; try rewrite <- I1; eauto 8 using same_keys_trans with lia.
Qed.
(** ** The specification: a map with a stack of snapshots *)

(** A snapshot: the revision that its session started, the map and the next
    id at that moment. *)
Record spec := Spec { now : gmap Z V; nxt : Z; rv : Z; saved : list (Z * gmap Z V * Z) }.

Inductive cmd :=
| CCreate (c : Z -> V)
| CModify (id : Z) (f : V -> V)
| CRemove (id : Z)
| CStart
| CUndo
| CSquash
| CCommit (r : Z)
| CUndoAll.

Definition create_failed : string := "could not insert object, most likely a uniqueness constraint was violated".

(** How many of the revisions, the oldest first, a commit discards. *)
Fixpoint old_count (r : Z) (revisions : list Z) : nat :=
  match revisions with
  | [] => O
  | x :: l => if x <=? r then S (old_count r l) else O
  end.

Definition revision_of (p : Z * gmap Z V * Z) : Z := fst (fst p).

(** The last case is the exception a command ends with. *)
Inductive spec_step (sp : spec) : cmd -> spec -> option string -> Prop :=
| sp_create c : placeable (now sp) (nxt sp) (c (nxt sp)) = true ->
    spec_step sp (CCreate c) (Spec (<[nxt sp := c (nxt sp)]> (now sp)) (nxt sp + 1) (rv sp) (saved sp)) None
| sp_create_clash c : placeable (now sp) (nxt sp) (c (nxt sp)) = false ->
    spec_step sp (CCreate c) sp (Some create_failed)
| sp_modify id f v : now sp !! id = Some v -> copies v -> same_keys v (f v) ->
    spec_step sp (CModify id f) (Spec (<[id := f v]> (now sp)) (nxt sp) (rv sp) (saved sp)) None
| sp_remove id v : now sp !! id = Some v -> copies v ->
    spec_step sp (CRemove id) (Spec (delete id (now sp)) (nxt sp) (rv sp) (saved sp)) None
| sp_start : spec_step sp CStart (Spec (now sp) (nxt sp) (rv sp + 1) ((rv sp + 1, now sp, nxt sp) :: saved sp)) None
| sp_undo_nothing : saved sp = [] -> spec_step sp CUndo sp None
| sp_undo r m n l : saved sp = (r, m, n) :: l -> spec_step sp CUndo (Spec m n (rv sp - 1) l) None
| sp_squash_nothing : saved sp = [] -> spec_step sp CSquash sp None
| sp_squash_last p : saved sp = [p] -> spec_step sp CSquash (Spec (now sp) (nxt sp) (rv sp) []) None
| sp_squash p q l : saved sp = p :: q :: l -> spec_step sp CSquash (Spec (now sp) (nxt sp) (rv sp - 1) (q :: l)) None
| sp_commit r : spec_step sp (CCommit r) (Spec (now sp) (nxt sp) (rv sp)
    (firstn (length (saved sp) - old_count r (rev (map revision_of (saved sp)))) (saved sp))) None
| sp_undo_all r m n : last (saved sp) = Some (r, m, n) ->
    spec_step sp CUndoAll (Spec m n (rv sp - Z.of_nat (length (saved sp))) []) None
| sp_undo_all_nothing : saved sp = [] -> spec_step sp CUndoAll sp None.

Definition run_cmd (c : cmd) : M (generic_index V) unit :=
  match c with
  | CCreate c => emplace c ;; mret tt
  | CModify id f => modify id f
  | CRemove id => remove id
  | CStart => update (fun ix => fst (start_undo_session true ix))
  | CUndo => undo
  | CSquash => update squash
  | CCommit r => update (commit r)
  | CUndoAll => fun ix => match undo_all (length (stack ix)) ix with Some o => o | None => Undef end
  end.

(** Every state of the stack leads back to its snapshot. *)
Fixpoint chain (st : list (undo_state V)) (sv : list (Z * gmap Z V * Z)) m n : Prop :=
  match st, sv with
  | [], [] => True
  | s :: st, (r, m0, n0) :: sv => state_revision s = r /\ records s m0 n0 m n /\ chain st sv m0 n0
  | _, _ => False
  end.

Record refines ix (sp : spec) : Prop := {
  ref_now : indices ix = now sp;
  ref_next : next_id ix = nxt sp;
  ref_rev : revision ix = rv sp;
  ref_good : good (now sp) (nxt sp);
  ref_chain : chain (stack ix) (saved sp) (now sp) (nxt sp) }.

(** A change of the map, recorded in the head. *)
Lemma chain_head f st sv m n m' n' :
  (forall s m0 n0, records s m0 n0 m n -> records (f s) m0 n0 m' n' /\ state_revision (f s) = state_revision s) ->
  chain st sv m n -> chain (match st with [] => [] | s :: st => f s :: st end) sv m' n'.
Proof using.
  intros F C. destruct st as [| s st], sv as [| [[r m0] n0] sv]; try contradiction; [exact I |].
  destruct C as (E & R & C). destruct (F _ _ _ R) as [R' E']. cbn. split; [congruence | auto].
Qed.

Lemma modified_revision id v s : state_revision (modified id v s) = state_revision s.
Proof. unfold modified. repeat case_match; reflexivity. Qed.

Lemma removed_revision id v s : state_revision (removed id v s) = state_revision s.
Proof. unfold removed. repeat case_match; reflexivity. Qed.

Lemma stack_on_head f ix : stack (on_head f ix) = match stack ix with [] => [] | s :: st => f s :: st end.
Proof. unfold on_head. destruct (stack ix) eqn:E; [exact E | reflexivity]. Qed.

Lemma on_head_rest f ix : indices (on_head f ix) = indices ix /\ next_id (on_head f ix) = next_id ix /\ revision (on_head f ix) = revision ix.
Proof. unfold on_head. destruct (stack ix); auto. Qed.
(** ** The refinement, command by command *)

Lemma good_fresh m n : good m n -> m !! n = None.
Proof. intros [_ R]. destruct (m !! n) eqn:E; [apply R in E; lia | reflexivity]. Qed.

Lemma emplace_runs c ix : indices ix !! next_id ix = None ->
  emplace c ix =
    if placeable (indices ix) (next_id ix) (c (next_id ix))
    then Ret (on_create (next_id ix) (with_next_id (next_id ix + 1) (with_indices (<[next_id ix := c (next_id ix)]> (indices ix)) ix))) (next_id ix)
    else Exc ix create_failed.
Proof.
  intros F. unfold emplace, mbind, M_bind, gets, container_emplace. rewrite F.
  destruct (placeable _ _ _); reflexivity.
Qed.

Lemma modify_runs id f v ix : indices ix !! id = Some v -> unique (indices ix) -> same_keys v (f v) ->
  modify id f ix = Ret (with_indices (<[id := f v]> (indices ix)) (on_modify id v ix)) tt.
Proof.
  intros L U K. unfold modify, mbind, M_bind, gets. rewrite L. unfold update. cbn.
  destruct (on_head_rest (modified id (copied v)) ix) as (E & _). change (on_modify id v ix) with (on_head (modified id (copied v)) ix).
  unfold container_modify. rewrite E, L. rewrite (same_keys_placeable _ _ v) by (auto; symmetry; exact K). reflexivity.
Qed.

Lemma copied_modify id v ix : copies v -> on_modify id v ix = on_head (modified id v) ix.
Proof. unfold copies, on_modify. intros ->. reflexivity. Qed.

Lemma copied_remove id v ix : copies v -> on_remove id v ix = on_head (removed id v) ix.
Proof. unfold copies, on_remove. intros ->. reflexivity. Qed.

Lemma remove_runs id v ix : indices ix !! id = Some v ->
  remove id ix = Ret (with_indices (delete id (indices ix)) (on_remove id v ix)) tt.
Proof.
  intros L. unfold remove, mbind, M_bind, gets. rewrite L. unfold update. cbn.
  destruct (on_head_rest (removed id (copied v)) ix) as (E & _). change (on_remove id v ix) with (on_head (removed id (copied v)) ix).
  rewrite E. reflexivity.
Qed.

Lemma start_refines ix sp : refines ix sp ->
  refines (fst (start_undo_session true ix)) (Spec (now sp) (nxt sp) (rv sp + 1) ((rv sp + 1, now sp, nxt sp) :: saved sp)).
Proof.
  intros [E N R G C]. split; cbn; [exact E | exact N | congruence | exact G |]. rewrite R, N. split; [reflexivity |].
  split; [apply records_empty, G | exact C].
Qed.

Lemma undo_refines r m n l ix sp : refines ix sp -> saved sp = (r, m, n) :: l ->
  exists ix', undo ix = Ret ix' tt /\ stack ix' = tl (stack ix) /\ refines ix' (Spec m n (rv sp - 1) l).
Proof.
  intros [E N R G C] S. rewrite S in C. destruct ix as [st rr nn mm]; cbn in *. subst.
  destruct st as [| s st]; [contradiction |]. destruct C as (Er & Rc & C).
  eexists. split; [eapply undo_spec; eauto | split; [reflexivity |]].
  split; cbn; [reflexivity .. | eapply rec_base, Rc | exact C].
Qed.

Lemma undo_nothing ix : stack ix = [] -> undo ix = Ret ix tt.
Proof. intros E. unfold undo. rewrite E. reflexivity. Qed.

Lemma chain_nil st m n : chain st [] m n -> st = [].
Proof. destruct st; [reflexivity | contradiction]. Qed.

Lemma squash_refines sp sp' ix : refines ix sp -> spec_step sp CSquash sp' None -> refines (squash ix) sp'.
Proof.
  intros [E N R G C] S. unfold squash. inversion S as [| | | | | | | Z | p Z | p q l Z | | |]; subst; rewrite Z in C.
  - rewrite (chain_nil _ _ _ C). split; auto. rewrite Z. exact C.
  - destruct (stack ix) as [| s [| s2 st]]; try contradiction.
    + split; cbn; auto.
    + destruct p as [[? ?] ?], C as (_ & _ & []).
  - destruct (stack ix) as [| s [| s2 st]], p as [[r m] n], q as [[r' m'] n']; try contradiction.
    { destruct C as (_ & _ & []). }
    destruct C as (E1 & R1 & E2 & R2 & C). split; cbn; [exact E | exact N | congruence | exact G |].
    split; [| split; [eapply merge_spec; eauto | exact C]]. destruct (merge_entry s s2) as [[_ M] _]. congruence.
Qed.

Lemma drop_front_count r (l : list (undo_state V)) : drop_front r l = skipn (old_count r (map state_revision l)) l.
Proof. induction l as [| s l IH]; [reflexivity |]. cbn. destruct (state_revision s <=? r); [exact IH | reflexivity]. Qed.

Lemma chain_revisions st : forall sv m n, chain st sv m n -> map state_revision st = map revision_of sv.
Proof.
  induction st as [| s st IH]; intros [| [[r m0] n0] sv] m n C; try contradiction; [reflexivity |].
  destruct C as (E & _ & C). cbn. f_equal; [exact E | eapply IH, C].
Qed.

Lemma chain_firstn k st : forall sv m n, chain st sv m n -> chain (firstn k st) (firstn k sv) m n.
Proof.
  revert st. induction k as [| k IH]; intros [| s st] [| [[r m0] n0] sv] m n C; try contradiction; cbn; auto.
  destruct C as (E & R & C). auto.
Qed.

Lemma commit_refines r ix sp : refines ix sp ->
  refines (commit r ix) (Spec (now sp) (nxt sp) (rv sp)
    (firstn (length (saved sp) - old_count r (List.rev (map revision_of (saved sp)))) (saved sp))).
Proof.
  intros [E N R G C]. split; cbn; auto. rewrite drop_front_count, skipn_rev, List.rev_involutive, map_rev.
  pose proof (chain_revisions _ _ _ _ C) as Q. rewrite Q.
  assert (L : length (stack ix) = length (saved sp)) by (rewrite <- (length_map state_revision), Q, length_map; reflexivity).
  rewrite L. apply chain_firstn, C.
Qed.

Lemma undo_all_refines l : forall ix sp p, refines ix sp -> saved sp = l -> last l = Some p ->
  exists ix', undo_all (length (stack ix)) ix = Some (Ret ix' tt) /\
    refines ix' (Spec (snd (fst p)) (snd p) (rv sp - Z.of_nat (length l)) []).
Proof.
  induction l as [| [[r m] n] l IH]; intros ix sp p Rf S L; [discriminate |].
  destruct (undo_refines _ _ _ _ _ _ Rf S) as (ix1 & U & T & Rf1).
  pose proof (ref_chain _ _ Rf) as C. rewrite S in C. destruct (stack ix) as [| s st] eqn:Es; [contradiction |].
  cbn [length undo_all]. unfold enabled. rewrite Es, U. cbn in T.
  destruct l as [| q l].
  - injection L as <-. exists ix1. pose proof (ref_chain _ _ Rf1) as C1. cbn [saved now nxt] in C1. apply chain_nil in C1.
    replace st with (@nil (undo_state V)) by congruence. cbn. unfold enabled. rewrite C1. split; [reflexivity | exact Rf1].
  - destruct (IH ix1 _ p Rf1 eq_refl) as (ix' & U' & R'); [exact L |]. rewrite T in U'. exists ix'. split; [exact U' |].
    cbn [rv] in R'. replace (rv sp - Z.of_nat (Datatypes.S (length (q :: l)))) with (rv sp - 1 - Z.of_nat (length (q :: l)))
      by lia. exact R'.
Qed.
(** A change of the map in an index whose head records it. *)
Lemma head_refines f m' n' ix ix' sp :
  refines ix sp -> good m' n' -> indices ix' = m' -> next_id ix' = n' -> revision ix' = revision ix ->
  stack ix' = match stack ix with [] => [] | s :: st => f s :: st end ->
  (forall s m0 n0, records s m0 n0 (now sp) (nxt sp) -> records (f s) m0 n0 m' n' /\ state_revision (f s) = state_revision s) ->
  refines ix' (Spec m' n' (rv sp) (saved sp)).
Proof.
  intros [E N R G C] G' I' N' R' T F. split; cbn; [exact I' | exact N' | congruence | exact G' |]. rewrite T.
  eapply chain_head; [| exact C]. intros s m0 n0 Hr. apply F, Hr.
Qed.

Lemma create_refines c ix sp : refines ix sp -> placeable (now sp) (nxt sp) (c (nxt sp)) = true ->
  exists ix', emplace c ix = Ret ix' (nxt sp) /\ refines ix' (Spec (<[nxt sp := c (nxt sp)]> (now sp)) (nxt sp + 1) (rv sp) (saved sp)).
Proof.
  intros Rf P. pose proof Rf as [E N R G C]. rewrite emplace_runs by (rewrite E, N; apply good_fresh, G). rewrite E, N, P.
  eexists. split; [reflexivity |]. apply (head_refines (created (nxt sp)) _ _ ix); auto.
  - eapply change_good; [exact G | apply change_create, P].
  - unfold on_create, on_head; cbn. destruct (stack ix); reflexivity.
  - unfold on_create, on_head; cbn. destruct (stack ix); reflexivity.
  - unfold on_create, on_head; cbn. destruct (stack ix); reflexivity.
  - unfold on_create, on_head; cbn. destruct (stack ix) eqn:T; cbn; [exact T | reflexivity].
  - intros s m0 n0 Hr. split; [apply records_create; assumption | reflexivity].
Qed.

Lemma modify_refines id f v ix sp : refines ix sp -> now sp !! id = Some v -> copies v -> same_keys v (f v) ->
  exists ix', modify id f ix = Ret ix' tt /\ refines ix' (Spec (<[id := f v]> (now sp)) (nxt sp) (rv sp) (saved sp)).
Proof.
  intros Rf L Cp K. pose proof Rf as [E N R G C].
  rewrite (modify_runs id f v) by (rewrite ?E; auto; apply G). rewrite E. rewrite (copied_modify id v ix Cp). eexists. split; [reflexivity |].
  destruct (on_head_rest (modified id v) ix) as (_ & E2 & E3).
  apply (head_refines (modified id v) _ _ ix); auto.
  - eapply change_good; [exact G | eapply change_modify; eassumption].
  - rewrite <- N. exact E2.
  - apply stack_on_head.
  - intros s m0 n0 Hr. split; [apply records_modify; assumption | apply modified_revision].
Qed.

Lemma remove_refines id v ix sp : refines ix sp -> now sp !! id = Some v -> copies v ->
  exists ix', remove id ix = Ret ix' tt /\ refines ix' (Spec (delete id (now sp)) (nxt sp) (rv sp) (saved sp)).
Proof.
  intros Rf L Cp. pose proof Rf as [E N R G C]. rewrite (remove_runs id v) by (rewrite E; exact L). rewrite E, (copied_remove id v ix Cp).
  eexists. split; [reflexivity |]. destruct (on_head_rest (removed id v) ix) as (_ & E2 & E3).
  apply (head_refines (removed id v) _ _ ix); auto.
  - eapply change_good; [exact G | eapply change_remove; eassumption].
  - rewrite <- N. exact E2.
  - apply stack_on_head.
  - intros s m0 n0 Hr. split; [apply records_remove; assumption | apply removed_revision].
Qed.

Lemma cmd_refines c ix sp sp' e : refines ix sp -> spec_step sp c sp' e ->
  exists ix', run_cmd c ix = match e with None => Ret ix' tt | Some e => Exc ix' e end /\ refines ix' sp'.
Proof.
  intros Rf S. pose proof Rf as [E N R G C]. pose proof S as S'. inversion S as
    [c' P | c' P | id f v L Cp K | id v L Cp | | Z | r m n l Z | Z | p Z | p q l Z | r | r m n Z | Z]; subst; cbn [run_cmd].
  - destruct (create_refines c' ix sp Rf P) as (ix' & Er & Rr). exists ix'. rewrite (mbind_ret _ _ _ _ _ Er). auto.
  - exists ix. unfold mbind, M_bind. rewrite emplace_runs by (rewrite E, N; apply good_fresh, G). rewrite E, N, P. auto.
  - apply modify_refines; assumption.
  - eapply remove_refines; eassumption.
  - eexists. split; [reflexivity | apply start_refines, Rf].
  - exists ix. split; [| exact Rf]. apply undo_nothing. rewrite Z in C. eapply chain_nil, C.
  - destruct (undo_refines _ _ _ _ _ _ Rf Z) as (ix' & U & _ & Rr). eauto.
  - eexists. split; [reflexivity | eapply squash_refines; eauto].
  - eexists. split; [reflexivity | eapply squash_refines; eauto].
  - eexists. split; [reflexivity | eapply squash_refines; eauto].
  - eexists. split; [reflexivity | apply commit_refines, Rf].
  - destruct (undo_all_refines _ _ _ _ Rf eq_refl Z) as (ix' & -> & Rr). eauto.
  - exists ix. split; [| exact Rf]. rewrite Z in C. apply chain_nil in C. rewrite C. cbn. unfold enabled. rewrite C. reflexivity.
Qed.

(** Runs of commands; the client goes on after an exception. *)
Fixpoint run_cmds (cs : list cmd) ix : option (generic_index V * list (option string)) :=
  match cs with
  | [] => Some (ix, [])
  | c :: cs =>
      match run_cmd c ix with
      | Ret ix _ => option_map (fun r => (fst r, None :: snd r)) (run_cmds cs ix)
      | Exc ix e => option_map (fun r => (fst r, Some e :: snd r)) (run_cmds cs ix)
      | Undef => None
      end
  end.

Inductive spec_run : spec -> list cmd -> spec -> list (option string) -> Prop :=
| spec_run_nil sp : spec_run sp [] sp []
| spec_run_cons sp c sp1 e cs sp' es : spec_step sp c sp1 e -> spec_run sp1 cs sp' es -> spec_run sp (c :: cs) sp' (e :: es).

(** C15: the undo history refines a stack of snapshots: whatever a client does
    within the contract of the index, creating objects, changing objects whose
    copies are the same without touching their unique keys, removing such, and opening, undoing, merging
    and committing revisions in any order, the code ends each command the way
    the specification does, a refused creation included, and its containers
    and recorded changes stand for the map and the snapshots the
    specification keeps. *)
Theorem undo_history_refines_snapshots cs : forall ix sp sp' es,
  refines ix sp -> spec_run sp cs sp' es ->
  exists ix', run_cmds cs ix = Some (ix', es) /\ refines ix' sp'.
Proof.
  induction cs as [| c cs IH]; intros ix sp sp' es Rf S; inversion S as [| ? ? sp1 e ? ? es' S1 S2]; subst; [eauto |].
  destruct (cmd_refines _ _ _ _ _ Rf S1) as (ix1 & E & R1). destruct (IH _ _ _ _ R1 S2) as (ix' & E' & R').
  exists ix'. cbn [run_cmds]. rewrite E. destruct e; rewrite E'; auto.
Qed.

(** A fresh index. *)
Definition empty_index : generic_index V := Index [] 0 0 ∅.

Lemma empty_refines : refines empty_index (Spec ∅ 0 0 []).
Proof.
  split; try reflexivity. cbn [now nxt]. split; [intros i j v w E | intros id v E]; rewrite lookup_empty in E; discriminate.
Qed.

(** ** Termination of undo_all *)

Lemma undo_pops ix ix' : undo ix = Ret ix' tt -> stack ix' = tl (stack ix).
Proof.
  unfold undo. destruct (stack ix) as [| head st] eqn:E; [intros Q; injection Q as <-; rewrite E; reflexivity |].
  unfold mbind, M_bind, update. destruct (for_each _ _ ix) as [ix1 [] | |]; try discriminate.
  destruct (for_each _ _ ix1) as [ix2 [] | |]; try discriminate. destruct (for_each _ _ _) as [ix3 [] | |]; try discriminate.
  intros Q. injection Q as <-. reflexivity.
Qed.

(** Undo_all ends: each undo takes a state off the stack or throws, so the
    states of the stack bound its turns; it leaves no state behind, and within
    the contract of the index it returns, to the map of the oldest snapshot. *)
Theorem undo_all_terminates ix :
  (exists o, undo_all (length (stack ix)) ix = Some o /\ match o with Ret ix' _ => stack ix' = [] | _ => True end) /\
  (forall sp r m n, refines ix sp -> last (saved sp) = Some (r, m, n) ->
     exists ix', undo_all (length (stack ix)) ix = Some (Ret ix' tt) /\
       indices ix' = m /\ next_id ix' = n /\ revision ix' = revision ix - Z.of_nat (length (stack ix))).
Proof.
  split.
  - remember (stack ix) as st eqn:E. revert ix E. induction st as [| s st IH]; intros ix E.
    + cbn. unfold enabled. rewrite <- E. eexists. split; [reflexivity | symmetry; exact E].
    + cbn [length undo_all]. unfold enabled. rewrite <- E. destruct (undo ix) as [ix' [] | |] eqn:U;
        try (eexists; split; [reflexivity | exact I]).
      apply IH. rewrite (undo_pops _ _ U), <- E. reflexivity.
  - intros sp r m n Rf L. destruct (undo_all_refines _ _ _ _ Rf eq_refl L) as (ix' & U & [E N R _ _]).
    exists ix'. split; [exact U |]. split; [exact E |]. split; [exact N |]. rewrite R, (ref_rev _ _ Rf). cbn. do 2 f_equal.
    pose proof (chain_revisions _ _ _ _ (ref_chain _ _ Rf)) as Q.
    rewrite <- (length_map state_revision), Q, length_map. reflexivity.
Qed.

(** ** Uniqueness errors *)

Lemma for_each_app {B} (f : B -> M (generic_index V) unit) l l' ix :
  for_each (l ++ l') f ix = (for_each l f ;; for_each l' f) ix.
Proof using.
  revert ix. induction l as [| x l IH]; intros ix; [reflexivity |]. cbn [app for_each].
  unfold mbind, M_bind in *. destruct (f x ix) as [ix' u | |]; [apply IH | reflexivity ..].
Qed.

Definition modify_failed : string := "Could not modify object, most likely a uniqueness constraint was violated".

(** The loop over the old values reaches an object that is gone. *)
Lemma restore_old_missing s id v l ix :
  unique (indices ix) -> NoDup l -> id ∈ l -> old_values s !! id = Some v -> indices ix !! id = None ->
  (forall j, j ∈ l -> j <> id -> exists v w, old_values s !! j = Some v /\ indices ix !! j = Some w /\ same_keys v w) ->
  for_each l (restore_old s) ix = Undef.
Proof.
  intros U ND I O N F. apply list_elem_of_split in I as (l1 & l2 & ->). rewrite for_each_app.
  apply NoDup_app in ND as (ND1 & D & ND2).
  destruct (run_restore_old s l1 ix U ND1) as [E _].
  { intros j Hj. apply F; [apply elem_of_app; auto |]. intros ->. apply (D id); [exact Hj | left]. }
  rewrite (mbind_ret _ _ _ _ _ E). cbn [for_each]. unfold mbind at 1, M_bind at 1.
  unfold restore_old. rewrite O. unfold mbind, M_bind, gets, container_modify. cbn.
  rewrite overwrite_lookup, bool_decide_false, N by (intros Hj; apply (D id); [exact Hj | left]). reflexivity.
Qed.

Lemma drop_new_missing id l ix : NoDup l -> id ∈ l -> indices ix !! id = None ->
  (forall j, j ∈ l -> j <> id -> is_Some (indices ix !! j)) -> for_each l drop_new ix = Undef.
Proof.
  intros ND I N F. apply list_elem_of_split in I as (l1 & l2 & ->). rewrite for_each_app.
  apply NoDup_app in ND as (ND1 & D & ND2).
  assert (E : for_each l1 drop_new ix = Ret (with_indices (drop_ids l1 (indices ix)) ix) tt).
  { apply run_drop_new; [exact ND1 |]. intros j Hj. apply F; [apply elem_of_app; auto |]. intros ->. apply (D id); [exact Hj | left]. }
  rewrite (mbind_ret _ _ _ _ _ E). cbn [for_each]. unfold drop_new, gets, mbind, M_bind. cbn [with_indices indices].
  rewrite drop_ids_lookup, bool_decide_false, N by (intros Hj; apply (D id); [exact Hj | left]). reflexivity.
Qed.
(** A modification that fails in a session leaves a state that cannot be undone. *)
Lemma failed_modify_undo s st r n m sp id v :
  refines (Index (s :: st) r n m) sp -> is_Some (m !! id) ->
  undo (Index (modified id v s :: st) r n (delete id m)) = Undef.
Proof.
  intros [E _ _ [U R] C] L. cbn in E. rewrite <- E in *. cbn in C. destruct (saved sp) as [| [[r' m0] n0] sv]; [contradiction |].
  destruct C as (_ & Rc & _). pose proof (rec_ids _ _ _ _ _ Rc) as I. unfold undo. cbn [stack].
  assert (OK : forall l : list Z, (forall j, j ∈ l -> is_Some (old_values s !! j)) -> forall j, j ∈ l -> j <> id ->
    exists x y, old_values (modified id v s) !! j = Some x /\ delete id m !! j = Some y /\ same_keys x y).
  { intros l Hl j Hj D. destruct (Hl j Hj) as [x O]. specialize (I j). unfold recorded in I. rewrite O in I.
    destruct (bool_decide _), (removed_values s !! j); try contradiction. destruct I as (_ & y & Q & K).
    exists x, y. rewrite lookup_delete_ne by congruence. split; [| auto]. unfold modified.
    repeat case_match; auto. cbn. rewrite map_emplace_lookup, bool_decide_false by exact D. exact O. }
  specialize (I id). unfold recorded in I. unfold modified in *. destruct (bool_decide (id ∈ new_ids s)) eqn:B.
  - destruct (old_values s !! id) eqn:O, (removed_values s !! id); try contradiction.
    apply bool_decide_eq_true in B.
    assert (NK : id ∉ keys (old_values s)) by (rewrite elem_of_keys, O; intros [? ?]; discriminate).
    destruct (run_restore_old s (keys (old_values s)) (Index (s :: st) r n (delete id m))) as [E1 _];
      [apply unique_delete, U | apply NoDup_keys | |].
    { intros j Hj. apply (OK (keys (old_values s))); [intros k; apply elem_of_keys | exact Hj | intros ->; contradiction]. }
    rewrite (mbind_ret _ _ _ _ _ E1). unfold mbind, M_bind. rewrite (drop_new_missing id); [reflexivity | apply NoDup_members | | |].
    + apply elem_of_members, B.
    + cbn [with_indices indices]. rewrite overwrite_lookup, bool_decide_false by exact NK. apply lookup_delete_eq.
    + intros j Hj D. cbn [with_indices indices]. rewrite overwrite_lookup, lookup_delete_ne by congruence.
      pose proof (rec_ids _ _ _ _ _ Rc j) as Ij. unfold recorded in Ij. rewrite bool_decide_true in Ij by (apply elem_of_members, Hj).
      destruct (old_values s !! j), (removed_values s !! j); try contradiction. destruct (bool_decide _); apply Ij.
  - unfold mbind, M_bind. set (s' := match old_values s !! id with Some _ => s | None => _ end) in *.
    assert (O : exists x, old_values s' !! id = Some x).
    { subst s'. destruct (old_values s !! id) eqn:O; [eauto |]. cbn. rewrite map_emplace_lookup, bool_decide_true by reflexivity. eauto. }
    destruct O as [x O]. rewrite (restore_old_missing s' id x); [reflexivity | apply unique_delete, U | apply NoDup_keys | | exact O | apply lookup_delete_eq |].
    + apply elem_of_keys. eauto.
    + intros j Hj D. apply (OK [j]); [| left | exact D]. intros k ->%list_elem_of_singleton. apply elem_of_keys in Hj. destruct Hj as [y Hy].
      subst s'. destruct (old_values s !! id); [eauto |]. cbn in Hy. rewrite map_emplace_lookup, bool_decide_false in Hy by exact D. eauto.
Qed.

(** What a violated uniqueness constraint does.  A refused creation throws
    and changes nothing.  A modification that would clash throws too, but the
    object is gone from the index by then; and when a session is open its undo,
    which the destructor of the session runs while the exception passes, uses
    an iterator past the end. *)
Theorem uniqueness_violations ix sp :
  refines ix sp ->
  (forall c, placeable (indices ix) (next_id ix) (c (next_id ix)) = false -> emplace c ix = Exc ix create_failed) /\
  (forall id v f, indices ix !! id = Some v -> placeable (indices ix) id (f v) = false ->
     exists ix', modify id f ix = Exc ix' modify_failed /\ indices ix' = delete id (indices ix) /\
       (stack ix = [] -> undo ix' = Ret ix' tt) /\ (stack ix <> [] -> undo ix' = Undef)).
Proof.
  intros Rf. pose proof Rf as [E N _ G _]. split.
  - intros c P. rewrite emplace_runs, P by (rewrite E, N; apply good_fresh, G). reflexivity.
  - intros id v f L P. exists (with_indices (delete id (indices ix)) (on_modify id v ix)).
    destruct (on_head_rest (modified id (copied v)) ix) as (E1 & E2 & E3). split; [| split; [reflexivity | split]].
    + unfold modify, mbind, M_bind, gets. rewrite L. unfold update. cbn.
      change (on_modify id v ix) with (on_head (modified id (copied v)) ix). unfold container_modify. rewrite E1, L, P. reflexivity.
    + intros T. apply undo_nothing. unfold on_modify, on_head. rewrite T. exact T.
    + intros T. destruct ix as [[| s st] r n m]; [contradiction |]. eapply failed_modify_undo; eauto.
Qed.
End Thm.

(** ** Witnesses: objects of a key and a payload, the key unique *)

#[local] Instance toy_keys : UniqueKeys (Z * Z) := {
  clash v w := fst v =? fst w;
  clash_sym v w := Z.eqb_sym (fst v) (fst w);
  copied v := v;
  copied_clash v w := eq_refl }.

Definition toy_map (l : list (Z * (Z * Z))) : gmap Z (Z * Z) := list_to_map l.

Definition toy_cmds : list (@cmd (Z * Z)) :=
  [CCreate (fun _ => (1, 10)); CStart; CModify 0 (fun v => (fst v, 11)); CCreate (fun _ => (1, 5)); CUndo].

Lemma toy_run : spec_run (Spec ∅ 0 0 []) toy_cmds (Spec (<[0 := (1, 10)]> ∅) 1 0 []) [None; None; None; Some create_failed; None].
Proof.
  apply (spec_run_cons _ _ (Spec (<[0 := (1, 10)]> ∅) 1 0 [])); [apply (sp_create (Spec ∅ 0 0 []) (fun _ => (1, 10))); vm_compute; reflexivity |].
  eapply spec_run_cons; [apply sp_start |]. cbn.
  eapply spec_run_cons; [apply (sp_modify _ 0 _ (1, 10)); [reflexivity | reflexivity | intros x; reflexivity] |]. cbn.
  eapply spec_run_cons; [apply sp_create_clash; vm_compute; reflexivity |].
  eapply spec_run_cons; [eapply sp_undo; reflexivity |]. apply spec_run_nil.
Qed.

Lemma undo_history_refines_snapshots_witness :
  exists ix, run_cmds toy_cmds empty_index = Some (ix, [None; None; None; Some create_failed; None]) /\
    refines ix (Spec (<[0 := (1, 10)]> ∅) 1 0 []).
Proof. exact (undo_history_refines_snapshots toy_cmds empty_index _ _ _ empty_refines toy_run). Defined.

Lemma toy_refines : refines (Index [] 0 1 (<[0 := (1, 10)]> ∅)) (Spec (<[0 := (1, 10)]> ∅) 1 0 []).
Proof.
  split; try reflexivity. cbn. split.
  - apply unique_insert; [intros i j v w E; rewrite lookup_empty in E; discriminate | reflexivity].
  - intros id v. rewrite lookup_insert_Some, lookup_empty. intros [[<- _] | [_ E]]; [lia | discriminate].
Qed.

(** Two objects, a session open. *)
Definition toy_open : generic_index (Z * Z) :=
  fst (start_undo_session true (Index [] 0 2 (<[1 := (2, 20)]> (<[0 := (1, 10)]> ∅)))).

Lemma toy_open_refines : exists sp, refines toy_open sp /\ last (saved sp) = Some (1, <[1 := (2, 20)]> (<[0 := (1, 10)]> ∅), 2).
Proof.
  destruct (create_refines (fun _ => (2, 20)) _ _ toy_refines eq_refl) as (ix & E & R). injection E as <-.
  eexists. split; [apply start_refines, R | reflexivity].
Qed.

Lemma undo_all_terminates_witness :
  exists ix', undo_all (length (stack toy_open)) toy_open = Some (Ret ix' tt) /\ next_id ix' = 2.
Proof.
  destruct toy_open_refines as (sp & R & L).
  destruct (undo_all_terminates toy_open) as [_ H]. destruct (H sp _ _ _ R L) as (ix' & U & _ & N & _). eauto.
Defined.

(** Giving the first object the key of the second. *)
Lemma uniqueness_violations_witness :
  exists ix', modify 0 (fun _ => (2, 11)) toy_open = Exc ix' modify_failed /\ indices ix' !! 0 = None /\ undo ix' = Undef.
Proof.
  destruct toy_open_refines as (sp & R & _). destruct (uniqueness_violations toy_open sp R) as [_ H].
  destruct (H 0 (1, 10) (fun _ => (2, 11)) eq_refl ltac:(vm_compute; reflexivity)) as (ix' & E & I & _ & U).
  exists ix'. split; [exact E |]. split; [rewrite I; apply lookup_delete_eq | apply U; discriminate].
Defined.

(** undo restores the old values one at a time, so a session in which two
    objects exchanged their keys, which succeeds, cannot be undone: the first
    restored value clashes with the second object, which still has its key. *)
Definition swap_keys : M (generic_index (Z * Z)) unit :=
  modify 0 (fun v => (3, snd v)) ;; modify 1 (fun v => (1, snd v)) ;; modify 0 (fun v => (2, snd v)).

Example swapped_keys_not_undone :
  exists ix ix', swap_keys toy_open = Ret ix tt /\ undo ix = Exc ix' modify_failed /\ indices ix' !! 0 = None.
Proof. eexists _, _. split; [vm_compute; reflexivity |]. split; [vm_compute; reflexivity | reflexivity]. Qed.
