(* ===== verification/DbSession.v ===== *)
(** Sessions over the whole database: while a body runs that uses the indices
    as their contract asks, every index keeps a record of the way back, also
    through nested sessions, and leaving the session without keeping it
    restores the database. *)

From Stdlib Require Import ZArith Lia Bool String List.
From stdpp Require Import base decidable gmap fin_maps fin_sets list sorting.
From S2P Require Import Prelude Effects UndoIndex UndoIndexThm.
Import ListNotations.
Local Open Scope Z_scope.

Section Sessions.
Context {V : Type} `{UniqueKeys V}.
Implicit Types (ix base : generic_index V) (db bases : list (generic_index V)).

(** [ix] has one session more than [base], with the changes since. *)
Definition within base ix : Prop := exists s m n,
  ix = Index (s :: stack base) (revision base + 1) n m /\ good m n /\
  records s (indices base) (next_id base) m n /\ state_revision s = revision base + 1.

(** An index in which a session can be opened: the revision -1 is the mark of
    a disabled session. *)
Definition ready base : Prop := good (indices base) (next_id base) /\ -1 <= revision base.

Lemma within_ready base ix : ready base -> within base ix -> ready ix.
Proof. intros [_ R] (s & m & n & -> & G & _). split; [exact G | cbn; lia]. Qed.

Lemma within_start base : ready base -> within base (fst (start_undo_session true base)).
Proof.
  intros [G _]. eexists _, _, _. split; [reflexivity |]. split; [exact G |]. split; [apply records_empty, G | reflexivity].
Qed.

Lemma within_undo base ix : within base ix -> undo ix = Ret base tt.
Proof.
  intros (s & m & n & -> & G & R & _). rewrite (undo_spec _ _ _ _ _ _ _ G R). destruct base; cbn. do 2 f_equal. lia.
Qed.

(** Keeping a nested session adds its changes to those of the outer one. *)
Lemma within_squash base ix ix' : within base ix -> within ix ix' -> within base (squash ix').
Proof.
  intros (s & m & n & -> & G & R & E) (s' & m' & n' & -> & G' & R' & E'). cbn in *.
  exists (merge s' s), m', n'. split; [unfold with_revision, with_stack; cbn; f_equal; lia |].
  split; [exact G' |]. split; [eapply merge_spec; eauto |]. destruct (merge_entry s' s) as [[_ M] _]. congruence.
Qed.

(** The three operations on an open session. *)
Lemma within_emplace base ix c : within base ix -> ends (emplace c) ix (fun ix _ => within base ix) (fun ix _ => within base ix).
Proof.
  intros (s & m & n & -> & G & R & E). unfold ends. rewrite emplace_runs by (apply good_fresh, G). cbn [indices next_id].
  destruct (placeable m n (c n)) eqn:P; [| exists s, m, n; auto].
  exists (created n s), (<[n := c n]> m), (n + 1). split; [reflexivity |].
  split; [eapply change_good; [exact G | apply change_create, P] |]. split; [apply records_create; assumption | exact E].
Qed.

Lemma within_modify base ix id v f : within base ix -> indices ix !! id = Some v -> copies v -> same_keys v (f v) ->
  ends (modify id f) ix (fun ix _ => within base ix) (fun ix _ => within base ix).
Proof.
  intros (s & m & n & -> & G & R & E) L Cp K. unfold ends. rewrite (modify_runs id f v) by (assumption || apply G).
  rewrite (copied_modify _ _ _ Cp).
  exists (modified id v s), (<[id := f v]> m), n. split; [reflexivity |].
  split; [eapply change_good; [exact G | eapply change_modify; eassumption] |].
  split; [apply records_modify; assumption | rewrite modified_revision; exact E].
Qed.

(** A modifier that throws leaves its object changed, and the way back known. *)
Lemma within_modify_with base ix id v f : within base ix -> indices ix !! id = Some v -> copies v ->
  match f v with Ret w _ | Exc w _ => same_keys v w | Undef => False end ->
  ends (modify_with id f) ix (fun ix _ => within base ix) (fun ix _ => within base ix).
Proof.
  intros W L Cp K. unfold modify_with. apply ends_bind. unfold ends at 1, gets. rewrite L.
  destruct (f v) as [w u | w e |]; [eapply within_modify; eauto | | contradiction].
  pose proof (within_modify base ix id v (fun _ => w) W L Cp K) as E. unfold ends in *.
  destruct W as (s & m & n & -> & G & R & _). rewrite (modify_runs id (fun _ => w) v) in E by (assumption || apply G).
  unfold mbind, M_bind, update, throw. replace (indices (on_modify id v _)) with (indices (Index (s :: stack base) (revision base + 1) n m)); [exact E |].
  unfold on_modify, on_head. reflexivity.
Qed.

(** A session whose object is not copied whole goes back to the copy. *)
Lemma within_copied base id v w : ready base -> indices base !! id = Some v -> same_keys v w ->
  within (with_indices (<[id := copied v]> (indices base)) base)
    (with_indices (<[id := w]> (indices base)) (on_modify id v (fst (start_undo_session true base)))).
Proof.
  intros [G _] L K. assert (Kc : same_keys v (copied v)) by (intros x; symmetry; apply copied_clash).
  assert (Gc : good (<[id := copied v]> (indices base)) (next_id base)) by (eapply change_good; [exact G | eapply change_modify; eassumption]).
  exists (modified id (copied v) (UndoState ∅ ∅ ∅ (next_id base) (revision base + 1))), (<[id := w]> (indices base)), (next_id base).
  split; [reflexivity |]. split; [eapply change_good; [exact G | eapply change_modify; eassumption] |].
  split; [| rewrite modified_revision; reflexivity]. cbn [indices next_id with_indices].
  pose proof (records_modify _ _ _ (<[id := copied v]> (indices base)) (next_id base) id (copied v) w (lookup_insert_eq _ _ _)
    ltac:(rewrite <- Kc; exact K) (records_empty _ _ (revision base + 1) Gc)) as Rc.
  rewrite insert_insert_eq in Rc. exact Rc.
Qed.

Lemma within_remove base ix id v : within base ix -> indices ix !! id = Some v -> copies v ->
  ends (remove id) ix (fun ix _ => within base ix) (fun ix _ => within base ix).
Proof.
  intros (s & m & n & -> & G & R & E) L Cp. unfold ends. rewrite (remove_runs id v) by exact L. rewrite (copied_remove _ _ _ Cp).
  exists (removed id v s), (delete id m), n. split; [reflexivity |].
  split; [eapply change_good; [exact G | eapply change_remove; eassumption] |].
  split; [apply records_remove; assumption | rewrite removed_revision; exact E].
Qed.

(** ** The database *)

Definition all_within bases db : Prop := Forall2 within bases db.

(** A program that uses the database as its interface asks: whatever sessions
    are open, it leaves every index with a record of the way back. *)
Definition respectful {A} (k : nat) (m : M (list (generic_index V)) A) : Prop :=
  forall bases db, length bases = k -> Forall ready bases -> all_within bases db ->
    ends m db (fun db _ => all_within bases db) (fun db _ => all_within bases db).

Lemma respectful_ret {A} k (a : A) : respectful k (mret a).
Proof. intros bases db _ _ W. exact W. Qed.

Lemma respectful_throw {A} k e : respectful k (throw e : M _ A).
Proof. intros bases db _ _ W. exact W. Qed.

Lemma respectful_gets {A} k (f : list (generic_index V) -> A) : respectful k (gets f).
Proof. intros bases db _ _ W. exact W. Qed.

Lemma respectful_require k b e : respectful k (require b e).
Proof. destruct b; [apply respectful_ret | apply respectful_throw]. Qed.

Lemma respectful_bind {A B} k (m : M _ A) (f : A -> M _ B) : respectful k m -> (forall a, respectful k (f a)) -> respectful k (m ≫= f).
Proof.
  intros Hm Hf bases db L R W. apply ends_bind. eapply ends_weaken; [apply (Hm bases db L R W) | | auto].
  intros db' a W'. apply (Hf a bases db' L R W').
Qed.

Lemma respectful_for_each {B} k (f : B -> M _ unit) l : (forall x, respectful k (f x)) -> respectful k (for_each l f).
Proof. intros Hf. induction l as [| x l IH]; [apply respectful_ret | apply respectful_bind; auto]. Qed.

(** An operation on one index. *)
Lemma on_index_within {A} bases db i base ix (m : M (generic_index V) A) :
  all_within bases db -> bases !! i = Some base -> db !! i = Some ix ->
  ends m ix (fun ix _ => within base ix) (fun ix _ => within base ix) ->
  ends (on_index i m) db (fun db _ => all_within bases db) (fun db _ => all_within bases db).
Proof.
  intros W B D E. unfold ends, on_index in *. rewrite D.
  assert (G : forall ix', within base ix' -> all_within bases (<[i := ix']> db)).
  { intros ix' W'. rewrite <- (list_insert_id bases i base B). apply Forall2_insert; assumption. }
  destruct (m ix); auto.
Qed.

Lemma respectful_emplace k i c : (i < k)%nat -> respectful k (on_index i (emplace c)).
Proof.
  intros Hi bases db L _ W. subst k.
  destruct (lookup_lt_is_Some_2 bases i Hi) as [base B]. destruct (Forall2_lookup_l _ _ _ _ _ W B) as (ix & D & Wi).
  eapply on_index_within; eauto. apply within_emplace, Wi.
Qed.

(** get followed by modify or remove. *)
Lemma respectful_find_modify k i id f : (i < k)%nat -> (forall v : V, copies v) -> (forall v, same_keys v (f v)) ->
  respectful k (on_index i (get id ≫= fun _ => modify id f)).
Proof.
  intros Hi Cp K bases db L _ W. subst k.
  destruct (lookup_lt_is_Some_2 bases i Hi) as [base B]. destruct (Forall2_lookup_l _ _ _ _ _ W B) as (ix & D & Wi).
  eapply on_index_within; eauto. unfold get, find. apply ends_bind. apply ends_bind. unfold ends at 1, gets.
  destruct (indices ix !! id) as [v |] eqn:E; [| exact Wi]. eapply within_modify; eauto.
Qed.

Lemma respectful_remove_object k i id : (i < k)%nat -> (forall v : V, copies v) -> respectful k (on_index i (remove_object id)).
Proof.
  intros Hi Cp bases db L _ W. subst k.
  destruct (lookup_lt_is_Some_2 bases i Hi) as [base B]. destruct (Forall2_lookup_l _ _ _ _ _ W B) as (ix & D & Wi).
  eapply on_index_within; eauto. unfold remove_object, find. apply ends_bind. unfold ends at 1, gets.
  destruct (indices ix !! id) as [v |] eqn:E; [| exact Wi]. eapply within_remove; eauto.
Qed.

(** ** Leaving a session *)

(** A loop over the indices that runs an operation on each. *)
Lemma each_index (ms : nat -> M (generic_index V) unit) db db' :
  length db' = length db ->
  (forall i ix ix', db !! i = Some ix -> db' !! i = Some ix' -> ms i ix = Ret ix' tt) ->
  for_each (seq 0 (length db)) (fun i => on_index i (ms i)) db = Ret db' tt.
Proof using.
  intros L F.
  assert (G : forall k j pre post post', length pre = j -> length post = k -> length post' = k ->
    (forall i ix ix', post !! i = Some ix -> post' !! i = Some ix' -> ms (j + i)%nat ix = Ret ix' tt) ->
    for_each (seq j k) (fun i => on_index i (ms i)) (pre ++ post) = Ret (pre ++ post') tt).
  { induction k as [| k IH]; intros j pre [| ix post] [| ix' post'] Lp Lk Lk' Q; try discriminate; [reflexivity |].
    cbn [seq for_each]. injection Lk as Lk. injection Lk' as Lk'.
    assert (E : on_index j (ms j) (pre ++ ix :: post) = Ret (pre ++ ix' :: post) tt).
    { unfold on_index. rewrite list_lookup_middle by (symmetry; exact Lp).
      pose proof (Q 0%nat ix ix' eq_refl eq_refl) as Q0. rewrite Nat.add_0_r in Q0. rewrite Q0.
      replace j with (length pre + 0)%nat by lia. rewrite insert_app_r. reflexivity. }
    rewrite (mbind_ret _ _ _ _ _ E).
    replace (pre ++ ix' :: post) with ((pre ++ [ix']) ++ post) by (rewrite <- app_assoc; reflexivity).
    rewrite (IH (S j) (pre ++ [ix']) post post') by
      (rewrite ?length_app; cbn; try lia; intros i y y' Hy Hy'; replace (S (j + i)) with (j + S i)%nat by lia; apply Q; assumption).
    rewrite <- app_assoc. reflexivity. }
  apply (G (length db) 0%nat [] db db'); auto.
Qed.
(** The sessions of all indices, still to apply, one per index. *)
Definition open_sessions (k : nat) (s : db_session) : Prop :=
  length (index_sessions s) = k /\ forall i x, index_sessions s !! i = Some x -> apply x = true.

Lemma start_sessions bases : Forall ready bases ->
  all_within bases (fst (db_start_undo_session true bases)) /\
  open_sessions (length bases) (snd (db_start_undo_session true bases)).
Proof.
  intros R. cbn. split.
  - unfold all_within. rewrite map_map. apply Forall2_fmap_r. induction R as [| b l Hb Hl IH]; constructor; [apply within_start, Hb | exact IH].
  - split; [cbn; rewrite !length_map; reflexivity |]. intros i x Hi. cbn in Hi. rewrite map_map in Hi.
    apply list_lookup_fmap_Some in Hi as (b & -> & Hb). cbn. rewrite Forall_lookup in R. destruct (R i b Hb) as [_ Hr].
    destruct (Z.eqb_spec (revision b + 1) (-1)); [lia | reflexivity].
Qed.

Lemma undo_sessions bases db s : all_within bases db -> open_sessions (length bases) s ->
  db_session_undo s db = Ret bases (DbSession [] (db_session_revision s)).
Proof.
  intros W [L A]. pose proof (Forall2_length _ _ _ W) as E. unfold db_session_undo.
  replace (length (index_sessions s)) with (length db) by congruence.
  erewrite mbind_ret; [reflexivity |].
  rewrite (for_each_ext _ (fun i => on_index i (match index_sessions s !! i with Some x => session_undo x ;; mret tt | None => mret tt end))).
  - apply each_index; [congruence |]. intros i ix b Hi Hb.
    destruct (lookup_lt_is_Some_2 (index_sessions s) i) as [x Hx]; [rewrite L; eapply lookup_lt_Some, Hb |].
    rewrite Hx. unfold session_undo. rewrite (A i x Hx). unfold mbind, M_bind.
    rewrite (within_undo b ix) by (eapply Forall2_lookup_lr; eauto). reflexivity.
  - intros i db' Hi. apply elem_of_seq in Hi.
    destruct (lookup_lt_is_Some_2 (index_sessions s) i) as [x ->]; [rewrite L; lia | reflexivity].
Qed.

Lemma squash_sessions outer bases db s : all_within outer bases -> all_within bases db -> open_sessions (length bases) s ->
  all_within outer (fst (db_session_squash s db)).
Proof.
  intros W W' [L A]. cbn. apply Forall2_same_length_lookup. pose proof (Forall2_length _ _ _ W). pose proof (Forall2_length _ _ _ W').
  split; [rewrite length_imap; congruence |]. intros i o ix Ho Hix. rewrite list_lookup_imap in Hix.
  destruct (db !! i) as [ix' |] eqn:D; [| discriminate]. cbn in Hix. injection Hix as <-.
  destruct (Forall2_lookup_l _ _ _ _ _ W Ho) as (b & Hb & Wb).
  destruct (lookup_lt_is_Some_2 (index_sessions s) i) as [x Hx]; [rewrite L; eapply lookup_lt_Some, Hb |].
  rewrite Hx. unfold session_squash. rewrite (A i x Hx). cbn. eapply within_squash; [exact Wb |]. eapply Forall2_lookup_lr; eauto.
Qed.

Lemma all_within_ready bases db : Forall ready bases -> all_within bases db -> Forall ready db.
Proof.
  intros R W. induction W as [| b ix bs l Hb Hl IH]; inversion_clear R; constructor; [eapply within_ready; eauto | auto].
Qed.

(** A session within a session: kept or given up, the outer one still knows
    the way back. *)
Lemma respectful_in_session {A} k (body : M _ A) (keep : bool) :
  respectful k body -> respectful k (in_session body (if keep then leave_squash else leave_undo)).
Proof.
  intros Hb outer bases L R W. unfold ends, in_session.
  pose proof (all_within_ready _ _ R W) as RB. destruct (start_sessions bases RB) as [W1 O]. pose proof (Forall2_length _ _ _ W) as E.
  destruct (db_start_undo_session true bases) as [db1 s] eqn:St. cbn [fst snd] in *.
  specialize (Hb bases db1 ltac:(congruence) RB W1). unfold ends in Hb. destruct (body db1) as [db a | db e |]; [| | contradiction].
  - destruct keep; unfold mbind, M_bind.
    + pose proof (squash_sessions _ _ _ _ W Hb O) as Sq. unfold leave_squash. destruct (db_session_squash s db) as [db2 s2] eqn:Q.
      cbn in Sq. injection Q as Q1 Q2. subst s2. unfold db_session_undo; cbn. exact Sq.
    + unfold leave_undo. rewrite (undo_sessions _ _ _ Hb O). unfold db_session_undo; cbn. exact W.
  - rewrite (undo_sessions _ _ _ Hb O). exact W.
Qed.

(** C16: a session is a transaction.  Whatever a program does to the database
    within its interface while a session is open, nested sessions included,
    when it throws, or gives the session up, every index is again exactly what
    it was: objects, next ids, revisions and the older undo states.  When the
    session is pushed instead, undo on the database goes back as far later. *)
Theorem session_is_transaction {A} k (body : M _ A) db :
  length db = k -> Forall ready db -> respectful k body ->
  match in_session body leave_undo db with Ret db' _ => db' = db | Exc db' _ => db' = db | Undef => False end /\
  match in_session body leave_push db with
  | Ret db' _ => db_undo db' = Ret db tt
  | Exc db' _ => db' = db
  | Undef => False
  end.
Proof.
  intros L R Hb. unfold in_session. destruct (start_sessions db R) as [W1 O].
  destruct (db_start_undo_session true db) as [db1 s]. cbn [fst snd] in *.
  specialize (Hb db db1 L R W1). unfold ends in Hb. destruct (body db1) as [db2 a | db2 e |]; [| | contradiction].
  - unfold mbind, M_bind, leave_undo. rewrite (undo_sessions _ _ _ Hb O). unfold db_session_undo; cbn. split; [reflexivity |].
    unfold db_undo. apply each_index; [eapply Forall2_length, Hb |]. intros i ix b Hi Hdb. apply within_undo.
    exact (Forall2_lookup_lr _ _ _ _ _ _ Hb Hdb Hi).
  - rewrite (undo_sessions _ _ _ Hb O). auto.
Qed.
End Sessions.

(** ** A witness: two indices, a nested session kept, then a failure *)

#[local] Existing Instance toy_keys.

Definition toy_db : list (generic_index (Z * Z)) := [Index [] 0 1 (<[0 := (1, 10)]> ∅); empty_index].

Definition toy_body : M (list (generic_index (Z * Z))) unit :=
  on_index 1 (emplace (fun id => (7, id))) ;;
  in_session (on_index 0 (get 0 ≫= fun _ => modify 0 (fun v => (fst v, 11)))) leave_squash ;;
  on_index 0 (remove_object 0) ;;
  on_index 1 (emplace (fun _ => (7, 8))) ;;
  mret tt.

Lemma toy_body_respectful : respectful 2 toy_body.
Proof.
  apply respectful_bind; [apply respectful_emplace; lia | intros _].
  apply respectful_bind.
  { apply (respectful_in_session 2 _ true), respectful_find_modify; [lia | reflexivity | intros v x; reflexivity]. }
  intros _. apply respectful_bind; [apply respectful_remove_object; [lia | reflexivity] | intros _].
  apply respectful_bind; [apply respectful_emplace; lia | intros _]. apply respectful_ret.
Qed.

Lemma session_is_transaction_witness : exists e, in_session toy_body leave_undo toy_db = Exc toy_db e.
Proof.
  assert (R : Forall ready toy_db).
  { repeat constructor; cbn; try lia; [apply (ref_good _ _ toy_refines) .. | |];
      [intros i j v w E; rewrite lookup_empty in E; discriminate | intros id v E; rewrite lookup_empty in E; discriminate]. }
  destruct (session_is_transaction 2 toy_body toy_db eq_refl R toy_body_respectful) as [H _].
  assert (E : exists e, match in_session toy_body leave_undo toy_db with Exc _ x => x = e | _ => False end)
    by (eexists; vm_compute; reflexivity).
  destruct E as [e E]. exists e. destruct (in_session toy_body leave_undo toy_db); try contradiction. congruence.
Defined.
