(* ===== verification/Accumulator.v ===== *)
(** The three-word accumulator of the scalar multiplication
    (libraries/secp256k1-zkp/src): the macros [muladd], [muladd_fast],
    [muladd2], [sumadd], [sumadd_fast], [extract] and [extract_fast] that
    scalar_8x32_impl.h and scalar_4x64_impl.h both define, with the same text
    and a different word size.  The word size [w] and the size [wt] of the third
    word, which scalar_4x64_impl.h declares narrower in its products, are
    parameters here; each scalar representation instantiates them.

    [acc_ok c v] relates the three words to the number they stand for, and
    one lemma per macro says how the macro changes that number, under the
    no-overflow contract the macro's comment states. *)

From Stdlib Require Import ZArith Lia Bool.
From S2P Require Import Prelude.
Local Open Scope Z_scope.

Record acc := Acc { c0 : Z; c1 : Z; c2 : Z }.

Section Macros.
Context (w wt : Z).

(** Conversions to the type of the first two words and to that of the third. *)
Definition uw (z : Z) : Z := z mod 2 ^ w.
Definition uwt (z : Z) : Z := z mod 2 ^ wt.

(** Add a*b to the number defined by (c0,c1,c2). *)
Definition muladd (a b : Z) (c : acc) : acc :=
  let t := (a * b) mod 2 ^ (2 * w) in
  let th := uw (Z.shiftr t w) in
  let tl := uw t in
  let c0' := uw (c0 c + tl) in
  let th := uw (th + c_bool (c0' <? tl)) in
  let c1' := uw (c1 c + th) in
  let c2' := uwt (c2 c + c_bool (c1' <? th)) in
  Acc c0' c1' c2'.

(** Add a*b to the number defined by (c0,c1). *)
Definition muladd_fast (a b : Z) (c : acc) : acc :=
  let t := (a * b) mod 2 ^ (2 * w) in
  let th := uw (Z.shiftr t w) in
  let tl := uw t in
  let c0' := uw (c0 c + tl) in
  let th := uw (th + c_bool (c0' <? tl)) in
  let c1' := uw (c1 c + th) in
  Acc c0' c1' (c2 c).

(** Add 2*a*b to the number defined by (c0,c1,c2). *)
Definition muladd2 (a b : Z) (c : acc) : acc :=
  let t := (a * b) mod 2 ^ (2 * w) in
  let th := uw (Z.shiftr t w) in
  let tl := uw t in
  let th2 := uw (th + th) in
  let c2' := uwt (c2 c + c_bool (th2 <? th)) in
  let tl2 := uw (tl + tl) in
  let th2 := uw (th2 + c_bool (tl2 <? tl)) in
  let c0' := uw (c0 c + tl2) in
  let th2 := uw (th2 + c_bool (c0' <? tl2)) in
  let c2' := uwt (c2' + Z.land (c_bool (c0' <? tl2)) (c_bool (th2 =? 0))) in
  let c1' := uw (c1 c + th2) in
  let c2' := uwt (c2' + c_bool (c1' <? th2)) in
  Acc c0' c1' c2'.

(** Add a to the number defined by (c0,c1,c2). *)
Definition sumadd (a : Z) (c : acc) : acc :=
  let c0' := uw (c0 c + a) in
  let over := c_bool (c0' <? a) in
  let c1' := uw (c1 c + over) in
  let c2' := uwt (c2 c + c_bool (c1' <? over)) in
  Acc c0' c1' c2'.

(** Add a to the number defined by (c0,c1). *)
Definition sumadd_fast (a : Z) (c : acc) : acc :=
  let c0' := uw (c0 c + a) in
  let c1' := uw (c1 c + c_bool (c0' <? a)) in
  Acc c0' c1' (c2 c).

(** The lowest word, and the accumulator shifted by one word. *)
Definition extract (c : acc) : Z * acc := (c0 c, Acc (c1 c) (c2 c) 0).

(** The same when the third word is known to be zero. *)
Definition extract_fast (c : acc) : Z * acc := (c0 c, Acc (c1 c) 0 (c2 c)).

(** ** What the macros compute *)

Context (Hw : 0 < w) (Hwt : 0 < wt <= w).
Abbreviation B := (2 ^ w).
Abbreviation T := (2 ^ wt).

Definition aval (c : acc) : Z := c0 c + B * c1 c + B * B * c2 c.

Definition acc_ok (c : acc) (v : Z) : Prop :=
  0 <= c0 c < B /\ 0 <= c1 c < B /\ 0 <= c2 c < T /\ aval c = v.

Lemma B_pos : 1 < B.
Proof. apply Z.pow_gt_1; lia. Qed.

Lemma T_pos : 1 < T <= B.
Proof. split; [apply Z.pow_gt_1; lia | apply Z.pow_le_mono_r; lia]. Qed.

Lemma uwt_small z : 0 <= z < T -> uwt z = z.
Proof. intros; apply Z.mod_small; lia. Qed.

Lemma uw_range z : 0 <= uw z < B.
Proof. pose proof B_pos. apply Z.mod_pos_bound; lia. Qed.

Lemma uw_small z : 0 <= z < B -> uw z = z.
Proof. intros; apply Z.mod_small; lia. Qed.

(** One word addition: the comparison with an operand is the carry. *)
Lemma add_carry x y :
  0 <= x < B -> 0 <= y < B ->
  x + y = uw (x + y) + B * c_bool (uw (x + y) <? y).
Proof.
  intros Hx Hy. pose proof B_pos. unfold uw.
  destruct (Z.ltb_spec ((x + y) mod B) y) as [L | L]; cbn [c_bool];
    (destruct (Z.lt_ge_cases (x + y) B);
     [rewrite Z.mod_small in * by lia
     | rewrite <- (Z.mod_unique (x + y) B 1 (x + y - B)) in * by lia]); lia.
Qed.

Lemma c_bool_range b : 0 <= c_bool b <= 1.
Proof. destruct b; cbn; lia. Qed.

(** A double-width product split into its two words. *)
Lemma mul_split a b :
  0 <= a < B -> 0 <= b < B ->
  exists th tl, uw (Z.shiftr ((a * b) mod 2 ^ (2 * w)) w) = th /\
    uw ((a * b) mod 2 ^ (2 * w)) = tl /\
    a * b = tl + B * th /\ 0 <= tl < B /\ 0 <= th <= B - 2.
Proof.
  intros Ha Hb. pose proof B_pos as HB.
  assert (E2 : 2 ^ (2 * w) = B * B) by (rewrite <- Z.pow_add_r by lia; f_equal; lia).
  assert (Hab : 0 <= a * b <= (B - 1) * (B - 1)) by nia.
  rewrite E2, (Z.mod_small (a * b)) by nia.
  rewrite Z.shiftr_div_pow2 by lia.
  exists (a * b / B), ((a * b) mod B).
  pose proof (Z.div_mod (a * b) B ltac:(lia)) as D.
  pose proof (Z.mod_pos_bound (a * b) B ltac:(lia)) as M.
  assert (a * b / B < B - 1) by (apply Z.div_lt_upper_bound; nia).
  assert (0 <= a * b / B) by (apply Z.div_pos; lia).
  repeat split; try lia. apply uw_small; lia.
Qed.

Lemma c2_zero c v : acc_ok c v -> v < B * B -> c2 c = 0.
Proof. unfold acc_ok, aval; intros; nia. Qed.

(** The top word of a number below [B^3] (or [B^2]) fits. *)
Lemma top_fits3 x0 x1 x2 s :
  0 <= x0 -> 0 <= x1 -> x0 + B * x1 + B * B * x2 = s -> s < B * B * T -> x2 < T.
Proof.
  intros. pose proof B_pos. assert (0 <= B * x1) by (apply Z.mul_nonneg_nonneg; lia).
  apply (Z.mul_lt_mono_pos_l (B * B)); [apply Z.mul_pos_pos; lia | lia].
Qed.

Lemma top_fits2 x0 x1 x2 s :
  0 <= x0 -> 0 <= x2 -> x0 + B * x1 + B * B * x2 = s -> s < B * B -> x1 < B.
Proof.
  intros. pose proof B_pos.
  assert (0 <= B * B * x2) by (apply Z.mul_nonneg_nonneg; lia).
  apply (Z.mul_lt_mono_pos_l B); lia.
Qed.

(** Introduce the range of a carry bit and forget its definition. *)
Ltac carry x y Hx Hy k E :=
  pose proof (add_carry x y Hx Hy) as E;
  pose proof (c_bool_range (uw (x + y) <? y));
  pose proof (uw_range (x + y));
  set (k := c_bool (uw (x + y) <? y)) in *; clearbody k.

Lemma muladd_ok c v a b :
  acc_ok c v -> 0 <= a < B -> 0 <= b < B -> v + a * b < B * B * T ->
  acc_ok (muladd a b c) (v + a * b).
Proof.
  intros (H0 & H1 & H2 & <-) Ha Hb Hv. pose proof B_pos as HB.
  destruct (mul_split a b Ha Hb) as (th & tl & Eh & El & Eab & Hl & Hh).
  unfold acc_ok, aval, muladd in *. cbv zeta. rewrite Eh, El. cbn [c0 c1 c2].
  carry (c0 c) tl H0 Hl k0 E0. rewrite (uw_small (th + k0)) by lia.
  assert (Ht : 0 <= th + k0 < B) by lia.
  carry (c1 c) (th + k0) H1 Ht k1 E1.
  assert (Etot : uw (c0 c + tl) + B * uw (c1 c + (th + k0)) + B * B * (c2 c + k1)
                 = c0 c + B * c1 c + B * B * c2 c + a * b).
  { rewrite Eab. replace (uw (c0 c + tl)) with (c0 c + tl - B * k0) by lia.
    replace (uw (c1 c + (th + k0))) with (c1 c + (th + k0) - B * k1) by lia. ring. }
  assert (c2 c + k1 < T) by (eapply top_fits3; [| | exact Etot |]; lia).
  rewrite (uwt_small (c2 c + k1)) by lia. repeat split; lia.
Qed.

Lemma muladd_fast_ok c v a b :
  acc_ok c v -> 0 <= a < B -> 0 <= b < B -> v + a * b < B * B ->
  acc_ok (muladd_fast a b c) (v + a * b).
Proof.
  intros (H0 & H1 & H2 & <-) Ha Hb Hv. pose proof B_pos as HB.
  destruct (mul_split a b Ha Hb) as (th & tl & Eh & El & Eab & Hl & Hh).
  unfold acc_ok, aval, muladd_fast in *. cbv zeta. rewrite Eh, El. cbn [c0 c1 c2].
  carry (c0 c) tl H0 Hl k0 E0. rewrite (uw_small (th + k0)) by lia.
  assert (Etot : uw (c0 c + tl) + B * (c1 c + (th + k0)) + B * B * c2 c
                 = c0 c + B * c1 c + B * B * c2 c + a * b).
  { rewrite Eab. replace (uw (c0 c + tl)) with (c0 c + tl - B * k0) by lia. ring. }
  assert (c1 c + (th + k0) < B) by (eapply top_fits2; [| | exact Etot |]; lia).
  rewrite (uw_small (c1 c + (th + k0))) by lia. repeat split; lia.
Qed.

Lemma sumadd_ok c v a :
  acc_ok c v -> 0 <= a < B -> v + a < B * B * T -> acc_ok (sumadd a c) (v + a).
Proof.
  intros (H0 & H1 & H2 & <-) Ha Hv. pose proof B_pos as HB.
  unfold acc_ok, aval, sumadd in *. cbv zeta. cbn [c0 c1 c2].
  carry (c0 c) a H0 Ha k0 E0.
  assert (Hk : 0 <= k0 < B) by lia.
  carry (c1 c) k0 H1 Hk k1 E1.
  assert (Etot : uw (c0 c + a) + B * uw (c1 c + k0) + B * B * (c2 c + k1)
                 = c0 c + B * c1 c + B * B * c2 c + a).
  { replace (uw (c0 c + a)) with (c0 c + a - B * k0) by lia.
    replace (uw (c1 c + k0)) with (c1 c + k0 - B * k1) by lia. ring. }
  assert (c2 c + k1 < T) by (eapply top_fits3; [| | exact Etot |]; lia).
  rewrite (uwt_small (c2 c + k1)) by lia. repeat split; lia.
Qed.

Lemma sumadd_fast_ok c v a :
  acc_ok c v -> 0 <= a < B -> v + a < B * B -> acc_ok (sumadd_fast a c) (v + a).
Proof.
  intros (H0 & H1 & H2 & <-) Ha Hv. pose proof B_pos as HB.
  unfold acc_ok, aval, sumadd_fast in *. cbv zeta. cbn [c0 c1 c2].
  carry (c0 c) a H0 Ha k0 E0.
  assert (Etot : uw (c0 c + a) + B * (c1 c + k0) + B * B * c2 c
                 = c0 c + B * c1 c + B * B * c2 c + a).
  { replace (uw (c0 c + a)) with (c0 c + a - B * k0) by lia. ring. }
  assert (c1 c + k0 < B) by (eapply top_fits2; [| | exact Etot |]; lia).
  rewrite (uw_small (c1 c + k0)) by lia. repeat split; lia.
Qed.

Lemma B_even : exists h, B = 2 * h.
Proof. exists (2 ^ (w - 1)). rewrite <- Z.pow_succ_r by lia. f_equal; lia. Qed.

(** The second carry of [muladd2] is noticed by the word becoming zero. *)
Lemma second_carry y k :
  0 <= y < B -> k = 0 \/ k = 1 ->
  exists x, Z.land k (c_bool (uw (y + k) =? 0)) = x /\ 0 <= x <= 1 /\ y + k = uw (y + k) + B * x.
Proof.
  intros Hy [-> | ->]; pose proof B_pos.
  - exists 0. rewrite Z.land_0_l, uw_small by lia. lia.
  - destruct (Z.eq_dec (y + 1) B) as [E | E].
    + exists 1. unfold uw. rewrite E, Z.mod_same by lia. cbn. lia.
    + exists 0. rewrite uw_small by lia. destruct (Z.eqb_spec (y + 1) 0); cbn; lia.
Qed.

Lemma muladd2_ok c v a b :
  acc_ok c v -> 0 <= a < B -> 0 <= b < B -> v + 2 * (a * b) < B * B * T ->
  acc_ok (muladd2 a b c) (v + 2 * (a * b)).
Proof.
  intros (H0 & H1 & H2 & <-) Ha Hb Hv. pose proof B_pos as HB.
  destruct (mul_split a b Ha Hb) as (th & tl & Eh & El & Eab & Hl & Hh).
  unfold acc_ok, aval, muladd2 in *. cbv zeta. rewrite Eh, El. cbn [c0 c1 c2].
  assert (Hh' : 0 <= th < B) by lia.
  carry th th Hh' Hh' kh Eh2. carry tl tl Hl Hl kl El2.
  set (th2 := uw (th + th)) in *. set (tl2 := uw (tl + tl)) in *.
  assert (Hth2 : th2 <= B - 2).
  { destruct B_even as [h Bh]. assert (kh = 0 \/ kh = 1) as [-> | ->] by lia; lia. }
  rewrite (uw_small (th2 + kl)) by lia.
  assert (Htl2 : 0 <= tl2 < B) by lia.
  carry (c0 c) tl2 H0 Htl2 k0 E0.
  assert (Hk0 : k0 = 0 \/ k0 = 1) by lia.
  destruct (second_carry (th2 + kl) k0 ltac:(lia) Hk0) as (x & Ex & Hx & E3).
  rewrite Ex.
  pose proof (uw_range (th2 + kl + k0)) as Ht3.
  set (th3 := uw (th2 + kl + k0)) in *.
  carry (c1 c) th3 H1 Ht3 k1 E1.
  assert (Etot : uw (c0 c + tl2) + B * uw (c1 c + th3) + B * B * (c2 c + kh + x + k1)
                 = c0 c + B * c1 c + B * B * c2 c + 2 * (a * b)).
  { rewrite Eab. replace (uw (c0 c + tl2)) with (c0 c + tl2 - B * k0) by lia.
    replace (uw (c1 c + th3)) with (c1 c + th3 - B * k1) by lia.
    replace th3 with (th2 + kl + k0 - B * x) by lia.
    replace th2 with (th + th - B * kh) by lia.
    replace tl2 with (tl + tl - B * kl) by lia. ring. }
  assert (Hsum : c2 c + kh + x + k1 < T) by (eapply top_fits3; [| | exact Etot |]; lia).
  rewrite (uwt_small (c2 c + kh)) by lia.
  rewrite (uwt_small (c2 c + kh + x)) by lia.
  rewrite (uwt_small (c2 c + kh + x + k1)) by lia.
  repeat split; lia.
Qed.

Lemma extract_ok c v :
  acc_ok c v ->
  exists l c' v', extract c = (l, c') /\ acc_ok c' v' /\ 0 <= l < B /\ v = l + B * v'.
Proof.
  intros (H0 & H1 & H2 & <-). pose proof B_pos; pose proof T_pos.
  exists (c0 c), (Acc (c1 c) (c2 c) 0), (c1 c + B * c2 c).
  split; [reflexivity |]. unfold acc_ok, aval; cbn; repeat split; try lia; ring.
Qed.

Lemma extract_fast_ok c v :
  acc_ok c v -> v < B * B ->
  exists l c' v', extract_fast c = (l, c') /\ acc_ok c' v' /\ 0 <= l < B /\ v = l + B * v'.
Proof.
  intros H Hv. pose proof (c2_zero _ _ H Hv) as Hz.
  destruct H as (H0 & H1 & H2 & <-). pose proof B_pos; pose proof T_pos.
  exists (c0 c), (Acc (c1 c) 0 (c2 c)), (c1 c).
  split; [reflexivity |]. unfold acc_ok, aval; cbn; rewrite Hz; repeat split; try lia; ring.
Qed.

(** The same lemmas with ranges found by instance resolution. *)

Lemma muladd_step c v a b m ma mb :
  acc_ok c v -> Bnd v m -> Bnd a ma -> Bnd b mb ->
  (ma <? B) && (mb <? B) && (m + ma * mb <? B * B * T) = true ->
  acc_ok (muladd a b c) (v + a * b).
Proof.
  unfold Bnd; intros H Hv Ha Hb Hc. rewrite !andb_true_iff, !Z.ltb_lt in Hc.
  apply muladd_ok; auto; [lia | lia | nia].
Qed.

Lemma muladd2_step c v a b m ma mb :
  acc_ok c v -> Bnd v m -> Bnd a ma -> Bnd b mb ->
  (ma <? B) && (mb <? B) && (m + 2 * (ma * mb) <? B * B * T) = true ->
  acc_ok (muladd2 a b c) (v + 2 * (a * b)).
Proof.
  unfold Bnd; intros H Hv Ha Hb Hc. rewrite !andb_true_iff, !Z.ltb_lt in Hc.
  apply muladd2_ok; auto; [lia | lia | nia].
Qed.

Lemma muladd_fast_step c v a b m ma mb :
  acc_ok c v -> Bnd v m -> Bnd a ma -> Bnd b mb ->
  (ma <? B) && (mb <? B) && (m + ma * mb <? B * B) = true ->
  acc_ok (muladd_fast a b c) (v + a * b).
Proof.
  unfold Bnd; intros H Hv Ha Hb Hc. rewrite !andb_true_iff, !Z.ltb_lt in Hc.
  apply muladd_fast_ok; auto; [lia | lia | nia].
Qed.

Lemma sumadd_step c v a m ma :
  acc_ok c v -> Bnd v m -> Bnd a ma ->
  (ma <? B) && (m + ma <? B * B * T) = true -> acc_ok (sumadd a c) (v + a).
Proof.
  unfold Bnd; intros H Hv Ha Hc. rewrite !andb_true_iff, !Z.ltb_lt in Hc.
  apply sumadd_ok; auto; lia.
Qed.

Lemma sumadd_fast_step c v a m ma :
  acc_ok c v -> Bnd v m -> Bnd a ma ->
  (ma <? B) && (m + ma <? B * B) = true -> acc_ok (sumadd_fast a c) (v + a).
Proof.
  unfold Bnd; intros H Hv Ha Hc. rewrite !andb_true_iff, !Z.ltb_lt in Hc.
  apply sumadd_fast_ok; auto; lia.
Qed.

Lemma shifted_bnd l v v' m : 0 <= l < B -> v = l + B * v' -> Bnd v m -> Bnd v' (m / B).
Proof.
  unfold Bnd; intros Hl E Hv. pose proof B_pos.
  replace v' with (v / B) by (symmetry; apply (Z.div_unique v B v' l); lia).
  split; [apply Z.div_pos; lia | apply Z.div_le_mono; lia].
Qed.

Lemma extract_step c v m l c' :
  extract c = (l, c') -> acc_ok c v -> Bnd v m ->
  exists v', acc_ok c' v' /\ Bnd v' (m / B) /\ Bnd l (B - 1) /\ v = l + B * v'.
Proof.
  intros E H Hv. destruct (extract_ok c v H) as (l1 & c1' & v' & E1 & H1 & Hl & Ev).
  assert (l1 = l /\ c1' = c') as [<- <-] by (split; congruence).
  exists v'; repeat split; try apply H1; try lia; eapply shifted_bnd; eauto.
Qed.

Lemma extract_fast_step c v m l c' :
  extract_fast c = (l, c') -> acc_ok c v -> Bnd v m -> (m <? B * B) = true ->
  exists v', acc_ok c' v' /\ Bnd v' (m / B) /\ Bnd l (B - 1) /\ v = l + B * v'.
Proof.
  intros E H Hv Hm%Z.ltb_lt.
  destruct (extract_fast_ok c v H) as (l1 & c1' & v' & E1 & H1 & Hl & Ev);
    [unfold Bnd in Hv; lia |].
  assert (l1 = l /\ c1' = c') as [<- <-] by (split; congruence).
  exists v'; repeat split; try apply H1; try lia; eapply shifted_bnd; eauto.
Qed.

Lemma c0_small c v m : acc_ok c v -> Bnd v m -> (m <? B) = true -> c0 c = v.
Proof.
  unfold Bnd; intros H Hv Hm%Z.ltb_lt. pose proof B_pos.
  pose proof (c2_zero c v H ltac:(nia)) as Z2.
  destruct H as (R0 & R1 & _ & E). unfold aval in E. rewrite Z2 in E.
  assert (c1 c = 0) by nia. nia.
Qed.
End Macros.

(** Symbolic execution of accumulator code: the context holds one
    [acc_ok w c v] for the current accumulator together with the range of
    [v]; each macro replaces it. *)
Ltac acc_step Hw Hwt :=
  sym_let;
  lazymatch goal with
  | E : ?c = muladd ?w ?wt ?a ?b ?c1, H : acc_ok ?w ?wt ?c1 ?v |- _ =>
      let H' := fresh "Hacc" in
      pose proof (muladd_step w wt Hw Hwt c1 v a b _ _ _ H ltac:(typeclasses eauto)
        ltac:(typeclasses eauto) ltac:(typeclasses eauto) ltac:(bnd_const)) as H';
      rewrite <- E in H'; clear H E
  | E : ?c = muladd2 ?w ?wt ?a ?b ?c1, H : acc_ok ?w ?wt ?c1 ?v |- _ =>
      let H' := fresh "Hacc" in
      pose proof (muladd2_step w wt Hw Hwt c1 v a b _ _ _ H ltac:(typeclasses eauto)
        ltac:(typeclasses eauto) ltac:(typeclasses eauto) ltac:(bnd_const)) as H';
      rewrite <- E in H'; clear H E
  | E : ?c = muladd_fast ?w ?a ?b ?c1, H : acc_ok ?w ?wt ?c1 ?v |- _ =>
      let H' := fresh "Hacc" in
      pose proof (muladd_fast_step w wt Hw Hwt c1 v a b _ _ _ H ltac:(typeclasses eauto)
        ltac:(typeclasses eauto) ltac:(typeclasses eauto) ltac:(bnd_const)) as H';
      rewrite <- E in H'; clear H E
  | E : ?c = sumadd ?w ?wt ?a ?c1, H : acc_ok ?w ?wt ?c1 ?v |- _ =>
      let H' := fresh "Hacc" in
      pose proof (sumadd_step w wt Hw Hwt c1 v a _ _ H ltac:(typeclasses eauto)
        ltac:(typeclasses eauto) ltac:(bnd_const)) as H';
      rewrite <- E in H'; clear H E
  | E : ?c = sumadd_fast ?w ?a ?c1, H : acc_ok ?w ?wt ?c1 ?v |- _ =>
      let H' := fresh "Hacc" in
      pose proof (sumadd_fast_step w wt Hw Hwt c1 v a _ _ H ltac:(typeclasses eauto)
        ltac:(typeclasses eauto) ltac:(bnd_const)) as H';
      rewrite <- E in H'; clear H E
  | E : extract ?c1 = (?l, ?c), H : acc_ok ?w ?wt ?c1 ?v |- _ =>
      let v' := fresh "v" in
      let H' := fresh "Hacc" in
      let Bv := fresh "Bv" in
      let Bl := fresh "Bl" in
      let Ev := fresh "Ev" in
      destruct (extract_step w wt Hw Hwt c1 v _ l c E H ltac:(typeclasses eauto)) as (v' & H' & Bv & Bl & Ev);
      clear H E; acc_const Bv; acc_const Bl
  | E : extract_fast ?c1 = (?l, ?c), H : acc_ok ?w ?wt ?c1 ?v |- _ =>
      let v' := fresh "v" in
      let H' := fresh "Hacc" in
      let Bv := fresh "Bv" in
      let Bl := fresh "Bl" in
      let Ev := fresh "Ev" in
      destruct (extract_fast_step w wt Hw Hwt c1 v _ l c E H ltac:(typeclasses eauto) ltac:(bnd_const))
        as (v' & H' & Bv & Bl & Ev);
      clear H E; acc_const Bv; acc_const Bl
  end
with acc_const Bv :=
  match type of Bv with
  | Bnd ?v ?m => let m' := eval vm_compute in m in change (Bnd v m') in Bv
  end.

(** Every digit is determined by its column: substitute and compare the two
    polynomials. *)
Lemma digit_eq e l p : e = l + p -> l = e - p.
Proof. lia. Qed.

Ltac solve_digits :=
  repeat match goal with
  | E : ?e = ?l + ?p |- _ => is_var l; apply digit_eq in E; subst l
  end;
  ring.

(** The last word is what remains in the accumulator. *)
Ltac acc_last Hw Hwt :=
  sym_let;
  match goal with
  | E : ?l = c0 ?c, H : acc_ok ?w ?wt ?c ?v |- _ =>
      rewrite (c0_small w wt Hw Hwt c v _ H ltac:(typeclasses eauto) ltac:(bnd_const)) in E; subst l
  end.
