(* ===== verification/Limbs.v ===== *)
(** Numbers in limbs, for the loops of the field code that read a limb array
    from bytes and write it to bytes in groups of bits
    (secp256k1_fe_set_b32, secp256k1_fe_get_b32). *)

From Stdlib Require Import ZArith Lia List Bool.
From S2P Require Import Prelude.
Import ListNotations.
Local Open Scope Z_scope.

(** 0, 1, ..., n-1 *)
Definition zseq (n : nat) : list Z := map Z.of_nat (seq 0 n).

(** [l[i] = f l[i]]; an index out of range does nothing. *)
Fixpoint upd (i : nat) (f : Z -> Z) (l : list Z) : list Z :=
  match l, i with
  | [], _ => []
  | x :: l, O => f x :: l
  | x :: l, S i => x :: upd i f l
  end.

Lemma length_upd i f l : length (upd i f l) = length l.
Proof. revert i. induction l as [| x l IH]; intros [| i]; cbn; auto. Qed.

Lemma nth_upd i j f l : (i < length l)%nat -> nth j (upd i f l) 0 = if Nat.eqb j i then f (nth i l 0) else nth j l 0.
Proof.
  revert i j. induction l as [| x l IH]; intros [| i] [| j] L; cbn in *; try lia; try reflexivity.
  apply IH. lia.
Qed.

(** A for loop keeps what its body keeps. *)
Lemma fold_zseq {A} (P : Z -> A -> Prop) (f : A -> Z -> A) n a :
  P 0 a -> (forall k a, 0 <= k < Z.of_nat n -> P k a -> P (k + 1) (f a k)) ->
  P (Z.of_nat n) (fold_left f (zseq n) a).
Proof.
  intros H0 HS. induction n as [| n IH]; [exact H0 |].
  unfold zseq in *. rewrite seq_S, map_app, fold_left_app. cbn [map fold_left].
  replace (Z.of_nat (S n)) with (Z.of_nat n + 1) by lia. apply HS; [lia |].
  apply IH. intros k b Hk. apply HS. lia.
Qed.

(** Byte [i] from the end of a byte string. *)
Lemma be_val_leval l : be_val l = leval 8 (rev l).
Proof.
  assert (A : forall l acc, beval acc l = fold_left (fun a d => 2 ^ 8 * a + d) l acc) by (induction l0; intros; cbn; auto).
  unfold be_val. rewrite A, fold_leval by lia. lia.
Qed.

Lemma be_byte b i : bytes b -> (i < length b)%nat -> nth (length b - 1 - i) b 0 = slice (be_val b) (8 * Z.of_nat i) 8.
Proof.
  intros Hb L. rewrite be_val_leval, <- nth_slice; [| lia |].
  - rewrite rev_nth by lia. f_equal. lia.
  - apply Forall_rev. eapply Forall_impl; [| exact Hb]. intros x Hx. unfold Bnd in Hx. lia.
Qed.

Lemma slices_map w n x : slices w n x 0 = map (fun i => slice x (w * i) w) (zseq n).
Proof.
  assert (G : forall n off, slices w n x off = map (fun i => slice x (off + w * Z.of_nat i) w) (seq 0 n)).
  { induction n0 as [| m IH]; intros off; [reflexivity |]. cbn [slices seq map]. rewrite Z.mul_0_r, Z.add_0_r. f_equal.
    rewrite IH, <- seq_shift, map_map. apply map_ext. intros i. f_equal. lia. }
  rewrite G. unfold zseq. rewrite map_map. reflexivity.
Qed.

Section Groups.
(** Limbs of [w] bits in words of [W] bits, groups of [g] bits, [q] groups in a
    limb and [e] in a byte. *)
Context (w g q W : Z) (N : nat) (Hg : 0 < g) (Hq : 0 < q) (Ew : w = g * q) (HW : w <= W).

(** [l] holds the low [b] bits of [X] in its limbs. *)
Definition holds (X b : Z) (l : list Z) : Prop :=
  length l = N /\ forall i, 0 <= i < Z.of_nat N -> nth (Z.to_nat i) l 0 = slice (X mod 2 ^ b) (w * i) w.

Lemma group_split k : 0 <= k -> g * k / w = k / q /\ (g * k) mod w = g * (k mod q).
Proof using Hg Hq Ew.
  intros Hk. rewrite Ew. split; [apply Z.div_mul_cancel_l; lia | apply Z.mul_mod_distr_l; lia].
Qed.

(** Adding group [k], the bits from [g k] to [g (k + 1)]. *)
Lemma holds_step X k l :
  0 <= k -> k / q < Z.of_nat N -> holds X (g * k) l ->
  holds X (g * (k + 1))
    (upd (Z.to_nat (g * k / w)) (fun r => Z.lor r (Z.shiftl (slice X (g * k) g) ((g * k) mod w) mod 2 ^ W)) l).
Proof using Hg Hq Ew HW.
  intros Hk HN [L H]. destruct (group_split k Hk) as [-> ->].
  pose proof (Z.div_mod k q ltac:(lia)) as D. pose proof (Z.mod_pos_bound k q ltac:(lia)) as R.
  assert (Q : 0 <= k / q) by (apply Z.div_pos; lia).
  split; [rewrite length_upd; exact L |]. intros i Hi.
  assert (B : forall n, 0 <= n -> Z.testbit (slice X (g * k) g) n = (n <? g) && Z.testbit X (n + g * k))
    by (intros; apply slice_spec; lia).
  assert (S : forall b n, 0 <= b -> 0 <= n ->
    Z.testbit (slice (X mod 2 ^ b) (w * i) w) n = (n <? w) && ((n + w * i <? b) && Z.testbit X (n + w * i))).
  { intros b n Hb Hn. rewrite slice_spec by nia. f_equal.
    destruct (Z.ltb_spec (n + w * i) b); [rewrite Z.mod_pow2_bits_low | rewrite Z.mod_pow2_bits_high]; try reflexivity; lia. }
  rewrite nth_upd by lia. destruct (Nat.eqb_spec (Z.to_nat i) (Z.to_nat (k / q))) as [E | E].
  - assert (i = k / q) as -> by lia. rewrite H by lia. by_bits. rewrite Z.lor_spec, !S by nia.
    assert (P : n + w * (k / q) < g * k <-> n < g * (k mod q)) by nia.
    assert (P' : n + w * (k / q) < g * (k + 1) <-> n < g * (k mod q) + g) by nia.
    assert (Hw : g * (k mod q) + g <= w) by nia.
    destruct (Z.lt_ge_cases n W) as [LW | LW].
    + rewrite Z.mod_pow2_bits_low by lia. destruct (Z.lt_ge_cases n (g * (k mod q))) as [Ln | Ln].
      * rewrite Z.shiftl_spec_low by lia. rewrite orb_false_r.
        destruct (Z.ltb_spec (n + w * (k / q)) (g * k)), (Z.ltb_spec (n + w * (k / q)) (g * (k + 1))); try tauto; lia.
      * rewrite Z.shiftl_spec, B by lia.
        replace (n - g * (k mod q) + g * k) with (n + w * (k / q)) by nia.
        destruct (Z.ltb_spec (n + w * (k / q)) (g * k)), (Z.ltb_spec (n + w * (k / q)) (g * (k + 1))), (Z.ltb_spec (n - g * (k mod q)) g),
          (Z.ltb_spec n w); cbn; try reflexivity; lia.
    + rewrite Z.mod_pow2_bits_high by lia. destruct (Z.ltb_spec n w); [lia | reflexivity].
  - rewrite H by lia. assert (NE : i <> k / q) by lia. by_bits. rewrite !S by nia.
    destruct (Z.ltb_spec n w) as [Ln | Ln]; [cbn | reflexivity].
    destruct (Z.ltb_spec (n + w * i) (g * k)) as [C | C], (Z.ltb_spec (n + w * i) (g * (k + 1))) as [C' | C']; try reflexivity; try lia.
    exfalso. assert (w * (k / q) + g * (k mod q) = g * k) by nia.
    destruct (Z.lt_ge_cases i (k / q)); [assert (w * i + w <= w * (k / q)) by nia; lia |].
    assert (w * (k / q) + w <= w * i) by nia. assert (g * (k mod q) + g <= w) by nia. lia.
Qed.

Lemma land_group x o k : 0 <= o -> 0 <= k -> k + g <= 8 ->
  Z.land (Z.shiftr (slice x o 8) k) (Z.ones g) = slice x (o + k) g.
Proof using Hg.
  intros Ho Hk L. by_bits. rewrite Z.land_spec, Z.shiftr_spec, !slice_spec, Z.testbit_ones by lia.
  replace (n + k + o) with (n + (o + k)) by lia.
  destruct (Z.ltb_spec n g), (Z.leb_spec 0 n), (Z.ltb_spec (n + k) 8); try lia; cbn; rewrite ?andb_false_r, ?andb_true_r; reflexivity.
Qed.

(** [e] groups in a byte, 32 bytes, and limbs enough for them. *)
Context (e : nat) (Ee : 8 = g * Z.of_nat e) (HN : 256 <= w * Z.of_nat N).

Lemma set_loop a :
  length a = 32%nat -> bytes a ->
  holds (be_val a) 256
    (fold_left (fun n i => fold_left (fun n j =>
       upd (Z.to_nat ((8 * i + g * j) / w))
         (fun r => Z.lor r (Z.shiftl (Z.land (Z.shiftr (nth (31 - Z.to_nat i) a 0) (g * j)) (Z.ones g)) ((8 * i + g * j) mod w) mod 2 ^ W)) n)
       (zseq e) n) (zseq 32) (repeat 0 N)).
Proof using Hg Hq Ew HW Ee HN.
  intros L B. change 256 with (8 * Z.of_nat 32).
  apply (fold_zseq (fun i l => holds (be_val a) (8 * i) l)).
  - split; [apply repeat_length |]. intros i Hi. rewrite Z.mul_0_r, Z.pow_0_r, Z.mod_1_r, nth_repeat.
    unfold slice. rewrite Zdiv_0_l, Zmod_0_l. reflexivity.
  - intros i l Hi Hl. replace (8 * (i + 1)) with (8 * i + g * Z.of_nat e) by lia.
    apply (fold_zseq (fun j l => holds (be_val a) (8 * i + g * j) l)); [rewrite Z.mul_0_r, Z.add_0_r; exact Hl |].
    intros j n Hj Hn. replace (8 * i + g * j) with (g * (Z.of_nat e * i + j)) in * by nia.
    replace (8 * i + g * (j + 1)) with (g * ((Z.of_nat e * i + j) + 1)) by nia.
    replace (31 - Z.to_nat i)%nat with (length a - 1 - Z.to_nat i)%nat by lia.
    rewrite be_byte by (auto; lia). rewrite land_group by nia.
    rewrite Z2Nat.id by lia. replace (8 * i + g * j) with (g * (Z.of_nat e * i + j)) by nia.
    apply holds_step; [lia | | exact Hn].
    apply Z.div_lt_upper_bound; nia.
Qed.

(** The group read from the limbs of a number below 2^256. *)
Lemma limb_group V l k :
  (forall i, 0 <= i < Z.of_nat N -> nth (Z.to_nat i) l 0 = slice V (w * i) w) -> 0 <= k < 32 * Z.of_nat e ->
  Z.land (Z.shiftr (nth (Z.to_nat (g * k / w)) l 0) ((g * k) mod w)) (Z.ones g) = slice V (g * k) g.
Proof using Hg Hq Ew Ee HN.
  intros H Hk. destruct (group_split k ltac:(lia)) as [-> ->].
  pose proof (Z.div_mod k q ltac:(lia)) as D. pose proof (Z.mod_pos_bound k q ltac:(lia)) as R.
  assert (Q : 0 <= k / q) by (apply Z.div_pos; lia).
  rewrite H by (split; [lia | apply Z.div_lt_upper_bound; nia]).
  by_bits. rewrite Z.land_spec, Z.shiftr_spec, !slice_spec, Z.testbit_ones by nia.
  replace (n + g * (k mod q) + w * (k / q)) with (n + g * k) by nia.
  assert (g * (k mod q) + g <= w) by nia.
  destruct (Z.ltb_spec n g), (Z.leb_spec 0 n), (Z.ltb_spec (n + g * (k mod q)) w); try lia; cbn; rewrite ?andb_false_r, ?andb_true_r; reflexivity.
Qed.

Lemma get_byte V l i :
  (forall i, 0 <= i < Z.of_nat N -> nth (Z.to_nat i) l 0 = slice V (w * i) w) -> 0 <= i < 32 ->
  fold_left (fun c j =>
    Z.lor c (Z.shiftl (Z.land (Z.shiftr (nth (Z.to_nat ((8 * i + g * j) / w)) l 0) ((8 * i + g * j) mod w)) (Z.ones g)) (g * j)))
    (zseq e) 0 = slice V (8 * i) 8.
Proof using Hg Hq Ew Ee HN.
  intros H Hi. replace (slice V (8 * i) 8) with (slice V (8 * i) (g * Z.of_nat e)) by (f_equal; lia).
  apply (fold_zseq (fun j c => c = slice V (8 * i) (g * j))).
  - rewrite Z.mul_0_r. unfold slice. rewrite Z.pow_0_r, Z.mod_1_r. reflexivity.
  - intros j c Hj ->. replace (8 * i + g * j) with (g * (Z.of_nat e * i + j)) by nia.
    rewrite (limb_group V) by (auto; nia). replace (g * (Z.of_nat e * i + j)) with (8 * i + g * j) by nia.
    by_bits. rewrite Z.lor_spec, !slice_spec by nia.
    destruct (Z.lt_ge_cases n (g * j)) as [C | C].
    + rewrite Z.shiftl_spec_low by lia. rewrite orb_false_r. destruct (Z.ltb_spec n (g * j)), (Z.ltb_spec n (g * (j + 1))); try nia. reflexivity.
    + rewrite Z.shiftl_spec, slice_spec by nia. replace (n - g * j + (8 * i + g * j)) with (n + 8 * i) by lia.
      destruct (Z.ltb_spec n (g * j)), (Z.ltb_spec (n - g * j) g), (Z.ltb_spec n (g * (j + 1))); try nia; reflexivity.
Qed.
End Groups.

Lemma holds_slices w N X b l : holds w N X b l -> l = slices w N (X mod 2 ^ b) 0.
Proof.
  intros [L H]. rewrite slices_map. apply (nth_ext _ _ 0 0).
  - rewrite length_map. unfold zseq. rewrite length_map, length_seq. exact L.
  - intros i Hi. rewrite L in Hi. rewrite <- (Nat2Z.id i) at 1. rewrite H by lia. unfold zseq. rewrite map_map.
    rewrite nth_indep with (d' := slice (X mod 2 ^ b) (w * Z.of_nat 0) w) by (rewrite length_map, length_seq; exact Hi).
    rewrite (map_nth (fun k => slice (X mod 2 ^ b) (w * Z.of_nat k) w)), seq_nth by exact Hi. reflexivity.
Qed.

(** The 32 bytes of a number. *)
Lemma bytes_of V : 
  let l := rev (map (fun i => u8 (slice V (8 * i) 8)) (zseq 32)) in
  length l = 32%nat /\ bytes l /\ be_val l = V mod 2 ^ 256.
Proof.
  cbv zeta. split; [| split].
  - rewrite length_rev, length_map. unfold zseq. rewrite length_map, length_seq. reflexivity.
  - apply Forall_rev, Forall_map, Forall_forall. intros i _. apply Bnd_u8.
  - rewrite be_val_leval, rev_involutive.
    transitivity (leval 8 (slices 8 32 V 0)); [| rewrite leval_slices, Z.pow_0_r, Z.div_1_r by lia; reflexivity].
    f_equal. rewrite (slices_map 8 32 V). unfold zseq. rewrite !map_map. apply map_ext. intros i.
    unfold u8. apply Z.mod_small, slice_range. lia.
Qed.

(** ** Masks and comparisons of limbs *)

(** Split every masked word of the context at [k] bits, keeping the carry. *)
Ltac mask_eqs k :=
  repeat match goal with
  | E1 : ?r = Z.land ?t ?M |- _ =>
      let H := fresh "Ec" in
      pose proof (mask_shift_split t k ltac:(lia)) as H;
      replace (Z.ones k) with M in H by (vm_compute; reflexivity);
      rewrite <- E1 in H; clear E1
  end.

(** A conjunction of limbs is full when every limb is. *)
Lemma land_full k m n a b :
  0 <= k -> Z.ones k = m -> Bnd a m -> Bnd b n -> n <= m -> (Z.land a b =? m) = (a =? m) && (b =? m).
Proof.
  intros Hk <- Ha Hb L.
  assert (Ma : Bnd (Z.land a b) a) by (rewrite Z.land_comm; apply land_bnd_r; [apply Hb | unfold Bnd in *; lia]).
  assert (Mb : Bnd (Z.land a b) b) by (apply land_bnd_r; [apply Ha | unfold Bnd in *; lia]).
  unfold Bnd in *. destruct (Z.eqb_spec a (Z.ones k)) as [-> |], (Z.eqb_spec b (Z.ones k)) as [-> |]; cbn [andb];
    [rewrite Z.land_diag; apply Z.eqb_refl | apply Z.eqb_neq; lia ..].
Qed.

Lemma lxor_bnd k a c : 0 < k -> Bnd a (2 ^ k - 1) -> Bnd c (2 ^ k - 1) -> Bnd (Z.lxor a c) (2 ^ k - 1).
Proof.
  unfold Bnd. intros Hk Ha Hc. assert (N : 0 <= Z.lxor a c) by (apply Z.lxor_nonneg; lia). split; [exact N |].
  assert (0 < 2 ^ k) by (apply Z.pow_pos_nonneg; lia).
  destruct (Z.eq_dec (Z.lxor a c) 0); [lia |].
  assert (L : forall z, 0 <= z <= 2 ^ k - 1 -> Z.log2 z < k)
    by (intros z Hz; destruct (Z.eq_dec z 0) as [-> |]; [cbn; lia | apply Z.log2_lt_pow2; lia]).
  pose proof (Z.log2_lxor a c ltac:(lia) ltac:(lia)). pose proof (L a Ha). pose proof (L c Hc).
  pose proof (proj2 (Z.log2_lt_pow2 (Z.lxor a c) k ltac:(lia)) ltac:(lia)). lia.
Qed.

Lemma lor_empty a b : (Z.lor a b =? 0) = (a =? 0) && (b =? 0).
Proof.
  pose proof (Z.lor_eq_0_iff a b) as H.
  destruct (Z.eqb_spec (Z.lor a b) 0), (Z.eqb_spec a 0), (Z.eqb_spec b 0); cbn; tauto.
Qed.

Lemma lxor_eqb a c d : (Z.lxor a c =? d) = (a =? Z.lxor c d).
Proof.
  assert (X : forall x y, Z.lxor (Z.lxor x y) y = x)
    by (intros; rewrite Z.lxor_assoc, Z.lxor_nilpotent, Z.lxor_0_r; reflexivity).
  destruct (Z.eqb_spec (Z.lxor a c) d) as [E | N], (Z.eqb_spec a (Z.lxor c d)) as [E' | N']; try reflexivity.
  - destruct N'. rewrite <- E, (Z.lxor_comm c). symmetry. apply X.
  - destruct N. rewrite E', (Z.lxor_comm c). apply X.
Qed.

(** The limbs from the highest to the lowest, compared. *)
Fixpoint cmp_limbs (a b : list Z) : Z :=
  match a, b with
  | x :: a, y :: b => if x >? y then 1 else if x <? y then -1 else cmp_limbs a b
  | _, _ => 0
  end.

(** The sign of a comparison. *)
Definition sign (c : comparison) : Z := match c with Gt => 1 | Lt => -1 | Eq => 0 end.

Lemma cmp_limbs_app a b x y : length a = length b ->
  cmp_limbs (a ++ [x]) (b ++ [y]) = if cmp_limbs a b =? 0 then cmp_limbs [x] [y] else cmp_limbs a b.
Proof.
  revert b. induction a as [| c a IH]; intros [| d b] L; try discriminate; [reflexivity |]. injection L as L.
  cbn [app cmp_limbs]. destruct (c >? d), (c <? d); try reflexivity. apply IH, L.
Qed.

Lemma cmp_limbs_spec w a : forall b, 0 <= w -> length a = length b ->
  Forall (fun d => 0 <= d < 2 ^ w) a -> Forall (fun d => 0 <= d < 2 ^ w) b ->
  cmp_limbs (rev a) (rev b) = sign (leval w a ?= leval w b).
Proof.
  induction a as [| x a IH]; intros [| y b] Hw L A B; try discriminate; [reflexivity |]. injection L as L.
  inversion_clear A as [| ? ? X A']. inversion_clear B as [| ? ? Y B'].
  cbn [rev]. rewrite cmp_limbs_app by (rewrite !length_rev; exact L). rewrite IH by assumption. cbn [leval cmp_limbs].
  assert (0 < 2 ^ w) by (apply Z.pow_pos_nonneg; lia).
  rewrite Z.gtb_ltb. destruct (Z.compare_spec (leval w a) (leval w b)) as [E | E | E]; cbn [sign Z.eqb].
  - rewrite E. destruct (Z.ltb_spec y x), (Z.ltb_spec x y), (Z.compare_spec (x + 2 ^ w * leval w b) (y + 2 ^ w * leval w b));
      cbn [sign]; try reflexivity; lia.
  - assert (x + 2 ^ w * leval w a < y + 2 ^ w * leval w b) as -> by nia. reflexivity.
  - assert (G : y + 2 ^ w * leval w b < x + 2 ^ w * leval w a) by nia. apply Z.lt_gt in G. rewrite G. reflexivity.
Qed.

(** The bits of two neighbouring words that straddle their border. *)
Lemma join_bits V o w1 s w2 w :
  0 <= o -> 0 <= s <= w1 -> 0 <= w -> 0 <= w2 -> w <= w1 - s + w2 ->
  Z.lor (Z.shiftr (slice V o w1) s) (Z.shiftl (slice V (o + w1) w2) (w1 - s) mod 2 ^ w) mod 2 ^ w = slice V (o + s) w.
Proof.
  intros Ho Hs Hw H2 L. by_bits. rewrite slice_spec by lia. destruct (Z.ltb_spec n w) as [Lw | Lw].
  - rewrite Z.mod_pow2_bits_low, Z.lor_spec, Z.mod_pow2_bits_low, Z.shiftr_spec, slice_spec by lia. cbn [andb].
    destruct (Z.ltb_spec (n + s) w1).
    + rewrite Z.shiftl_spec_low by lia. rewrite orb_false_r. cbn [andb]. f_equal; lia.
    + rewrite Z.shiftl_spec, slice_spec by lia. destruct (Z.ltb_spec (n - (w1 - s)) w2); [cbn [andb orb]; f_equal; lia | lia].
  - rewrite Z.mod_pow2_bits_high by lia. reflexivity.
Qed.

Lemma join_words V o w1 s w2 w :
  0 <= o -> 0 <= s <= w1 -> 0 <= w -> 0 <= w2 -> w <= w1 - s + w2 -> w1 - s <= w ->
  Z.lor (Z.shiftr (slice V o w1) s) (Z.shiftl (slice V (o + w1) w2) (w1 - s) mod 2 ^ w) = slice V (o + s) w.
Proof.
  intros Ho Hs Hw H2 L Hb. rewrite <- (join_bits V o w1 s w2 w) by assumption.
  by_bits. destruct (Z.lt_ge_cases n w) as [Lw | Lw].
  - rewrite Z.mod_pow2_bits_low by lia. reflexivity.
  - rewrite Z.mod_pow2_bits_high, Z.lor_spec, Z.mod_pow2_bits_high, Z.shiftr_spec, slice_spec by lia.
    destruct (Z.ltb_spec (n + s) w1); [lia | reflexivity].
Qed.

Lemma shiftr_slice V o w s : 0 <= o -> 0 <= s <= w -> Z.shiftr (slice V o w) s = slice V (o + s) (w - s).
Proof.
  intros Ho Hs. by_bits. rewrite Z.shiftr_spec, !slice_spec by lia. replace (n + s + o) with (n + (o + s)) by lia.
  destruct (Z.ltb_spec (n + s) w), (Z.ltb_spec n (w - s)); try lia; reflexivity.
Qed.

Lemma mod_slice V o w k : 0 <= o -> 0 <= k <= w -> slice V o w mod 2 ^ k = slice V o k.
Proof.
  intros Ho Hk. by_bits. rewrite slice_spec by lia. destruct (Z.ltb_spec n k).
  - rewrite Z.mod_pow2_bits_low, slice_spec by lia. destruct (Z.ltb_spec n w); [reflexivity | lia].
  - apply Z.mod_pow2_bits_high. lia.
Qed.

Lemma mod_mod_le x a b : 0 <= a <= b -> (x mod 2 ^ b) mod 2 ^ a = x mod 2 ^ a.
Proof.
  intros H. by_bits. destruct (Z.lt_ge_cases n a).
  - rewrite !Z.mod_pow2_bits_low by lia. reflexivity.
  - rewrite !Z.mod_pow2_bits_high by lia. reflexivity.
Qed.

(** Numbers below a power of two are the digits of their low bits. *)
Lemma leval_range w l : 0 <= w -> Forall (fun d => 0 <= d < 2 ^ w) l -> 0 <= leval w l < 2 ^ (w * Z.of_nat (length l)).
Proof.
  intros Hw. induction 1 as [| d l Hd Hl IH]; cbn [leval length].
  - rewrite Z.mul_0_r. cbn. lia.
  - replace (w * Z.of_nat (S (length l))) with (w + w * Z.of_nat (length l)) by lia.
    rewrite Z.pow_add_r by lia. nia.
Qed.

Lemma slice_wide V o w w' : 0 <= o -> 0 <= w <= w' -> 0 <= V < 2 ^ (o + w) -> slice V o w = slice V o w'.
Proof.
  intros Ho Hw HV. unfold slice.
  assert (D : 0 <= V / 2 ^ o < 2 ^ w).
  { assert (0 < 2 ^ o) by (apply Z.pow_pos_nonneg; lia). split; [apply Z.div_pos; lia |].
    apply Z.div_lt_upper_bound; [lia |]. rewrite <- Z.pow_add_r by lia. lia. }
  assert (2 ^ w <= 2 ^ w') by (apply Z.pow_le_mono_r; lia). rewrite !Z.mod_small by lia. reflexivity.
Qed.

Lemma leval_inj w l m : 0 <= w -> length l = length m ->
  Forall (fun d => 0 <= d < 2 ^ w) l -> Forall (fun d => 0 <= d < 2 ^ w) m -> leval w l = leval w m -> l = m.
Proof.
  intros Hw L A B E. pose proof (slices_leval w l 0 0 Hw ltac:(lia) A ltac:(cbn; lia)) as P.
  pose proof (slices_leval w m 0 0 Hw ltac:(lia) B ltac:(cbn; lia)) as Q. rewrite <- P, <- Q, L, E. reflexivity.
Qed.

(** One word of a conditional move: [flag] is 0 or 1. *)
Lemma select_word w (b : bool) r a :
  0 < w -> 0 <= r < 2 ^ w -> 0 <= a < 2 ^ w ->
  let mask0 := (c_bool b + Z.lnot 0 mod 2 ^ w) mod 2 ^ w in
  Z.lor (Z.land r mask0) (Z.land a (Z.lnot mask0 mod 2 ^ w)) = if b then a else r.
Proof.
  intros Hw Hr Ha. assert (1 < 2 ^ w) by (apply Z.pow_gt_1; lia).
  change (Z.lnot 0) with (-1). rewrite <- (Z.mod_unique (-1) (2 ^ w) (-1) (2 ^ w - 1)) by lia. destruct b; cbn [c_bool].
  - replace (1 + (2 ^ w - 1)) with (1 * 2 ^ w) by lia. rewrite Z_mod_mult. change (Z.lnot 0) with (-1).
    rewrite <- (Z.mod_unique (-1) (2 ^ w) (-1) (2 ^ w - 1)) by lia.
    rewrite Z.land_0_r, Z.lor_0_l. replace (2 ^ w - 1) with (Z.ones w) by (rewrite Z.ones_equiv; lia).
    rewrite Z.land_ones by lia. apply Z.mod_small. lia.
  - rewrite Z.add_0_l, Z.mod_small by lia. replace (Z.lnot (2 ^ w - 1)) with (-1 * 2 ^ w) by (unfold Z.lnot; lia).
    rewrite Z_mod_mult, Z.land_0_r, Z.lor_0_r. replace (2 ^ w - 1) with (Z.ones w) by (rewrite Z.ones_equiv; lia).
    rewrite Z.land_ones by lia. apply Z.mod_small. lia.
Qed.
