(* ===== verification/FieldSpec.v ===== *)
(** What the curve code relies on from a representation of the field modulo p
    (libraries/secp256k1-zkp/src/field.h): a value, a magnitude that bounds how
    far the limbs have grown, and the laws of the operations.  field.h selects
    one of two representations at build time; Field10x26 discharges this
    interface.

    The magnitude and the flag [normalized] are fields of the C structure in
    builds with VERIFY only; here they are the predicates the checks of
    secp256k1_fe_verify state. *)

From Stdlib Require Import ZArith Lia List.
From S2P Require Import Prelude.
Import ListNotations.
Local Open Scope Z_scope.

(** The field characteristic. *)
Definition p : Z := 0xFFFFFFFFFFFFFFFFFFFFFFFFFFFFFFFFFFFFFFFFFFFFFFFFFFFFFFFEFFFFFC2F.

Class FieldOps (F : Type) := {
  fval : F -> Z;
  fe_normalize_var : F -> F;
  fe_normalizes_to_zero_var : F -> Z;
  fe_negate : F -> Z -> F;
  fe_add : F -> F -> F;
  fe_mul_int : F -> Z -> F;
  fe_mul : F -> F -> F;
  fe_sqr : F -> F;
  fe_set_b32 : list Z -> F * Z;
  fe_get_b32 : F -> list Z }.

(** [fmag m a]: the limbs of [a] are at most [2 m] times their full size;
    [fnorm a]: the limbs are in range and the value is below [p]. *)
Class FieldLaws (F : Type) `{FieldOps F} := {
  fmag : Z -> F -> Prop;
  fnorm : F -> Prop;
  fmag_le : forall m n a, fmag m a -> m <= n -> fmag n a;
  fnorm_mag : forall a, fnorm a -> fmag 1 a;
  fnorm_range : forall a, fnorm a -> 0 <= fval a < p;
  fe_normalize_var_spec : forall a, fmag 31 a -> fnorm (fe_normalize_var a) /\ fval (fe_normalize_var a) = fval a mod p;
  fe_normalizes_to_zero_var_spec : forall a, fmag 31 a ->
    fe_normalizes_to_zero_var a = (if fval a mod p =? 0 then 1 else 0);
  fe_negate_spec : forall m a, 0 <= m <= 30 -> fmag m a ->
    fmag (m + 1) (fe_negate a m) /\ fval (fe_negate a m) mod p = (- fval a) mod p;
  fe_add_spec : forall m n a b, 0 <= m -> 0 <= n -> m + n <= 31 -> fmag m a -> fmag n b ->
    fmag (m + n) (fe_add a b) /\ fval (fe_add a b) = fval a + fval b;
  fe_mul_int_spec : forall m k a, 0 <= m -> 0 <= k -> m * k <= 31 -> fmag m a ->
    fmag (m * k) (fe_mul_int a k) /\ fval (fe_mul_int a k) = k * fval a;
  fe_mul_spec : forall a b, fmag 8 a -> fmag 8 b ->
    fmag 1 (fe_mul a b) /\ fval (fe_mul a b) mod p = (fval a * fval b) mod p;
  fe_sqr_spec : forall a, fmag 8 a ->
    fmag 1 (fe_sqr a) /\ fval (fe_sqr a) mod p = (fval a * fval a) mod p;
  fe_set_b32_spec : forall b, length b = 32%nat -> bytes b ->
    let '(r, ok) := fe_set_b32 b in
    fmag 1 r /\ fval r = be_val b /\ ok = (if be_val b <? p then 1 else 0) /\ (be_val b < p -> fnorm r);
  fe_get_b32_spec : forall a, fnorm a ->
    length (fe_get_b32 a) = 32%nat /\ bytes (fe_get_b32 a) /\ be_val (fe_get_b32 a) = fval a }.
