(* ===== verification/Field10x26.v ===== *)
(** Field elements in ten limbs of 26 bits
    (libraries/secp256k1-zkp/src/field_10x26.h, field_10x26_impl.h).

    The result of the multiplications may overwrite the first operand: every
    limb is read before the first one is written, so the model returns a new
    element. *)

From Stdlib Require Import ZArith Lia List Bool Btauto.
From S2P Require Import Prelude Limbs FieldSpec.
Import ListNotations.
Local Open Scope Z_scope.

Module F26.

(** secp256k1_fe_t: uint32_t n[10]. *)
Record fe := Fe { n0 : Z; n1 : Z; n2 : Z; n3 : Z; n4 : Z; n5 : Z; n6 : Z; n7 : Z; n8 : Z; n9 : Z }.

Definition limbs (a : fe) : list Z := [n0 a; n1 a; n2 a; n3 a; n4 a; n5 a; n6 a; n7 a; n8 a; n9 a].

(** The constants of the two products. *)
Definition M : Z := 0x3FFFFFF.
Definition R0 : Z := 0x3D10.
Definition R1 : Z := 0x400.

Definition of_limbs (l : list Z) : fe :=
  match l with
  | [r0; r1; r2; r3; r4; r5; r6; r7; r8; r9] => Fe r0 r1 r2 r3 r4 r5 r6 r7 r8 r9
  | _ => Fe 0 0 0 0 0 0 0 0 0 0
  end.

(** The carries of limbs 0 to 8, a text the normalizations share. *)
Definition carry (t : fe) : fe :=
  let t1 := u32 (n1 t + Z.shiftr (n0 t) 26) in let t0 := Z.land (n0 t) 0x3FFFFFF in
  let t2 := u32 (n2 t + Z.shiftr t1 26) in let t1 := Z.land t1 0x3FFFFFF in
  let t3 := u32 (n3 t + Z.shiftr t2 26) in let t2 := Z.land t2 0x3FFFFFF in
  let t4 := u32 (n4 t + Z.shiftr t3 26) in let t3 := Z.land t3 0x3FFFFFF in
  let t5 := u32 (n5 t + Z.shiftr t4 26) in let t4 := Z.land t4 0x3FFFFFF in
  let t6 := u32 (n6 t + Z.shiftr t5 26) in let t5 := Z.land t5 0x3FFFFFF in
  let t7 := u32 (n7 t + Z.shiftr t6 26) in let t6 := Z.land t6 0x3FFFFFF in
  let t8 := u32 (n8 t + Z.shiftr t7 26) in let t7 := Z.land t7 0x3FFFFFF in
  let t9 := u32 (n9 t + Z.shiftr t8 26) in let t8 := Z.land t8 0x3FFFFFF in
  Fe t0 t1 t2 t3 t4 t5 t6 t7 t8 t9.

(** Adding [x] times 2^256 - p to the two lowest limbs. *)
Definition add_x (t : fe) (x : Z) : fe :=
  Fe (u32 (n0 t + x * 0x3D1)) (u32 (n1 t + u32 (Z.shiftl x 6))) (n2 t) (n3 t) (n4 t) (n5 t) (n6 t) (n7 t) (n8 t) (n9 t).

Definition mask9 (t : fe) : fe :=
  Fe (n0 t) (n1 t) (n2 t) (n3 t) (n4 t) (n5 t) (n6 t) (n7 t) (n8 t) (Z.land (n9 t) 0x03FFFFF).

(** Reduce t9 at the start; the first pass ensures the magnitude is 1. *)
Definition first_pass (r : fe) : fe := carry (add_x (mask9 r) (Z.shiftr (n9 r) 22)).

(** Whether a final reduction is needed: the value is not below p.  The sums
    are of type unsigned long, 32 or 64 bits wide, and below 2^27. *)
Definition final_x (t : fe) : Z :=
  let m := Z.land (Z.land (Z.land (Z.land (Z.land (Z.land (n2 t) (n3 t)) (n4 t)) (n5 t)) (n6 t)) (n7 t)) (n8 t) in
  Z.lor (Z.shiftr (n9 t) 22)
    (Z.land (Z.land (c_bool (n9 t =? 0x03FFFFF)) (c_bool (m =? 0x3FFFFFF)))
       (c_bool (u32 (n1 t + 0x40 + Z.shiftr (u32 (n0 t + 0x3D1)) 26) >? 0x3FFFFFF))).

Definition normalize (r : fe) : fe :=
  let t := first_pass r in
  mask9 (carry (add_x t (final_x t))).

Definition normalize_weak (r : fe) : fe := first_pass r.

Definition normalize_var (r : fe) : fe :=
  let t := first_pass r in
  let x := final_x t in
  if negb (x =? 0) then
    mask9 (carry (Fe (u32 (n0 t + 0x3D1)) (u32 (n1 t + u32 (Z.shiftl x 6))) (n2 t) (n3 t) (n4 t) (n5 t) (n6 t) (n7 t) (n8 t) (n9 t)))
  else t.

(** z0 tracks a possible raw value of 0, z1 a possible raw value of p. *)
Definition zero_or_p (t : fe) : Z :=
  let z0 := Z.lor (Z.lor (Z.lor (Z.lor (Z.lor (Z.lor (Z.lor (Z.lor (Z.lor (n0 t) (n1 t)) (n2 t)) (n3 t)) (n4 t)) (n5 t)) (n6 t)) (n7 t)) (n8 t)) (n9 t) in
  let z1 := Z.land (Z.land (Z.land (Z.land (Z.land (Z.land (Z.land (Z.land (Z.land (Z.lxor (n0 t) 0x3D0) (Z.lxor (n1 t) 0x40)) (n2 t)) (n3 t)) (n4 t)) (n5 t)) (n6 t)) (n7 t)) (n8 t)) (Z.lxor (n9 t) 0x3C00000) in
  Z.lor (c_bool (z0 =? 0)) (c_bool (z1 =? 0x3FFFFFF)).

Definition normalizes_to_zero (r : fe) : Z := zero_or_p (first_pass r).

Definition normalizes_to_zero_var (r : fe) : Z :=
  let x := Z.shiftr (n9 r) 22 in
  let t0 := u32 (n0 r + x * 0x3D1) in
  let z0 := Z.land t0 0x3FFFFFF in
  let z1 := Z.lxor z0 0x3D0 in
  if negb (z0 =? 0) && negb (z1 =? 0x3FFFFFF) then 0 else zero_or_p (first_pass r).

Definition set_int (a : Z) : fe := Fe (u32 a) 0 0 0 0 0 0 0 0 0.

Definition is_zero (a : fe) : Z :=
  c_bool (Z.lor (Z.lor (Z.lor (Z.lor (Z.lor (Z.lor (Z.lor (Z.lor (Z.lor (n0 a) (n1 a)) (n2 a)) (n3 a)) (n4 a)) (n5 a)) (n6 a)) (n7 a)) (n8 a)) (n9 a) =? 0).

Definition is_odd (a : fe) : Z := Z.land (n0 a) 1.

Definition clear : fe := of_limbs (repeat 0 10).

Definition cmp_var (a b : fe) : Z := cmp_limbs (rev (limbs a)) (rev (limbs b)).

(** The 32 bytes, four groups of two bits each. *)
Definition set_b32_limbs (a : list Z) : list Z :=
  fold_left (fun n i =>
    fold_left (fun n j =>
      let limb := (8 * i + 2 * j) / 26 in
      let shift := (8 * i + 2 * j) mod 26 in
      upd (Z.to_nat limb) (fun r => Z.lor r (u32 (Z.shiftl (Z.land (Z.shiftr (nth (31 - Z.to_nat i) a 0) (2 * j)) 0x3) shift))) n)
      (zseq 4) n)
    (zseq 32) (repeat 0 10).

Definition set_b32 (a : list Z) : fe * Z :=
  let r := of_limbs (set_b32_limbs a) in
  let m := Z.land (Z.land (Z.land (Z.land (Z.land (Z.land (n8 r) (n7 r)) (n6 r)) (n5 r)) (n4 r)) (n3 r)) (n2 r) in
  if (n9 r =? 0x3FFFFF) && (m =? 0x3FFFFFF) && (u32 (n1 r + 0x40 + Z.shiftr (u32 (n0 r + 0x3D1)) 26) >? 0x3FFFFFF)
  then (r, 0) else (r, 1).

(** r[31-i] = c for i from 0 to 31. *)
Definition get_b32 (a : fe) : list Z :=
  rev (map (fun i =>
    u8 (fold_left (fun c j =>
      let limb := (8 * i + 2 * j) / 26 in
      let shift := (8 * i + 2 * j) mod 26 in
      Z.lor c (Z.shiftl (Z.land (Z.shiftr (nth (Z.to_nat limb) (limbs a) 0) shift) 0x3) (2 * j)))
      (zseq 4) 0)) (zseq 32)).

Definition negate (a : fe) (m : Z) : fe :=
  Fe (u32 (0x3FFFC2F * 2 * (m + 1) - n0 a)) (u32 (0x3FFFFBF * 2 * (m + 1) - n1 a))
     (u32 (0x3FFFFFF * 2 * (m + 1) - n2 a)) (u32 (0x3FFFFFF * 2 * (m + 1) - n3 a))
     (u32 (0x3FFFFFF * 2 * (m + 1) - n4 a)) (u32 (0x3FFFFFF * 2 * (m + 1) - n5 a))
     (u32 (0x3FFFFFF * 2 * (m + 1) - n6 a)) (u32 (0x3FFFFFF * 2 * (m + 1) - n7 a))
     (u32 (0x3FFFFFF * 2 * (m + 1) - n8 a)) (u32 (0x03FFFFF * 2 * (m + 1) - n9 a)).

Definition mul_int (r : fe) (a : Z) : fe :=
  Fe (u32 (n0 r * a)) (u32 (n1 r * a)) (u32 (n2 r * a)) (u32 (n3 r * a)) (u32 (n4 r * a))
     (u32 (n5 r * a)) (u32 (n6 r * a)) (u32 (n7 r * a)) (u32 (n8 r * a)) (u32 (n9 r * a)).

Definition add (r a : fe) : fe :=
  Fe (u32 (n0 r + n0 a)) (u32 (n1 r + n1 a)) (u32 (n2 r + n2 a)) (u32 (n3 r + n3 a)) (u32 (n4 r + n4 a))
     (u32 (n5 r + n5 a)) (u32 (n6 r + n6 a)) (u32 (n7 r + n7 a)) (u32 (n8 r + n8 a)) (u32 (n9 r + n9 a)).

Definition mul_inner (a b : fe) : fe :=
  let d := u64 (n0 a * n9 b + n1 a * n8 b + n2 a * n7 b + n3 a * n6 b + n4 a * n5 b + n5 a * n4 b + n6 a * n3 b +
    n7 a * n2 b + n8 a * n1 b + n9 a * n0 b) in
  let t9 := Z.land d M in
  let d := Z.shiftr d 26 in
  let c := u64 (n0 a * n0 b) in
  let d := u64 (d + (n1 a * n9 b + n2 a * n8 b + n3 a * n7 b + n4 a * n6 b + n5 a * n5 b + n6 a * n4 b + n7 a * n3
    b + n8 a * n2 b + n9 a * n1 b)) in
  let u0 := Z.land d M in
  let d := Z.shiftr d 26 in
  let c := u64 (c + (u0 * R0)) in
  let t0 := Z.land c M in
  let c := Z.shiftr c 26 in
  let c := u64 (c + (u0 * R1)) in
  let c := u64 (c + (n0 a * n1 b + n1 a * n0 b)) in
  let d := u64 (d + (n2 a * n9 b + n3 a * n8 b + n4 a * n7 b + n5 a * n6 b + n6 a * n5 b + n7 a * n4 b + n8 a * n3
    b + n9 a * n2 b)) in
  let u1 := Z.land d M in
  let d := Z.shiftr d 26 in
  let c := u64 (c + (u1 * R0)) in
  let t1 := Z.land c M in
  let c := Z.shiftr c 26 in
  let c := u64 (c + (u1 * R1)) in
  let c := u64 (c + (n0 a * n2 b + n1 a * n1 b + n2 a * n0 b)) in
  let d := u64 (d + (n3 a * n9 b + n4 a * n8 b + n5 a * n7 b + n6 a * n6 b + n7 a * n5 b + n8 a * n4 b + n9 a * n3
    b)) in
  let u2 := Z.land d M in
  let d := Z.shiftr d 26 in
  let c := u64 (c + (u2 * R0)) in
  let t2 := Z.land c M in
  let c := Z.shiftr c 26 in
  let c := u64 (c + (u2 * R1)) in
  let c := u64 (c + (n0 a * n3 b + n1 a * n2 b + n2 a * n1 b + n3 a * n0 b)) in
  let d := u64 (d + (n4 a * n9 b + n5 a * n8 b + n6 a * n7 b + n7 a * n6 b + n8 a * n5 b + n9 a * n4 b)) in
  let u3 := Z.land d M in
  let d := Z.shiftr d 26 in
  let c := u64 (c + (u3 * R0)) in
  let t3 := Z.land c M in
  let c := Z.shiftr c 26 in
  let c := u64 (c + (u3 * R1)) in
  let c := u64 (c + (n0 a * n4 b + n1 a * n3 b + n2 a * n2 b + n3 a * n1 b + n4 a * n0 b)) in
  let d := u64 (d + (n5 a * n9 b + n6 a * n8 b + n7 a * n7 b + n8 a * n6 b + n9 a * n5 b)) in
  let u4 := Z.land d M in
  let d := Z.shiftr d 26 in
  let c := u64 (c + (u4 * R0)) in
  let t4 := Z.land c M in
  let c := Z.shiftr c 26 in
  let c := u64 (c + (u4 * R1)) in
  let c := u64 (c + (n0 a * n5 b + n1 a * n4 b + n2 a * n3 b + n3 a * n2 b + n4 a * n1 b + n5 a * n0 b)) in
  let d := u64 (d + (n6 a * n9 b + n7 a * n8 b + n8 a * n7 b + n9 a * n6 b)) in
  let u5 := Z.land d M in
  let d := Z.shiftr d 26 in
  let c := u64 (c + (u5 * R0)) in
  let t5 := Z.land c M in
  let c := Z.shiftr c 26 in
  let c := u64 (c + (u5 * R1)) in
  let c := u64 (c + (n0 a * n6 b + n1 a * n5 b + n2 a * n4 b + n3 a * n3 b + n4 a * n2 b + n5 a * n1 b + n6 a * n0
    b)) in
  let d := u64 (d + (n7 a * n9 b + n8 a * n8 b + n9 a * n7 b)) in
  let u6 := Z.land d M in
  let d := Z.shiftr d 26 in
  let c := u64 (c + (u6 * R0)) in
  let t6 := Z.land c M in
  let c := Z.shiftr c 26 in
  let c := u64 (c + (u6 * R1)) in
  let c := u64 (c + (n0 a * n7 b + n1 a * n6 b + n2 a * n5 b + n3 a * n4 b + n4 a * n3 b + n5 a * n2 b + n6 a * n1
    b + n7 a * n0 b)) in
  let d := u64 (d + (n8 a * n9 b + n9 a * n8 b)) in
  let u7 := Z.land d M in
  let d := Z.shiftr d 26 in
  let c := u64 (c + (u7 * R0)) in
  let t7 := Z.land c M in
  let c := Z.shiftr c 26 in
  let c := u64 (c + (u7 * R1)) in
  let c := u64 (c + (n0 a * n8 b + n1 a * n7 b + n2 a * n6 b + n3 a * n5 b + n4 a * n4 b + n5 a * n3 b + n6 a * n2
    b + n7 a * n1 b + n8 a * n0 b)) in
  let d := u64 (d + (n9 a * n9 b)) in
  let u8 := Z.land d M in
  let d := Z.shiftr d 26 in
  let c := u64 (c + (u8 * R0)) in
  let r3 := t3 in
  let r4 := t4 in
  let r5 := t5 in
  let r6 := t6 in
  let r7 := t7 in
  let r8 := Z.land c M in
  let c := Z.shiftr c 26 in
  let c := u64 (c + (u8 * R1)) in
  let c := u64 (c + (d * R0 + t9)) in
  let r9 := Z.land c (Z.shiftr M 4) in
  let c := Z.shiftr c 22 in
  let c := u64 (c + (d * u32 (Z.shiftl R1 4))) in
  let d := u64 (c * Z.shiftr R0 4 + t0) in
  let r0 := Z.land d M in
  let d := Z.shiftr d 26 in
  let d := u64 (d + (c * Z.shiftr R1 4 + t1)) in
  let r1 := Z.land d M in
  let d := Z.shiftr d 26 in
  let d := u64 (d + t2) in
  let r2 := u32 d in
  Fe r0 r1 r2 r3 r4 r5 r6 r7 r8 r9.

Definition sqr_inner (a : fe) : fe :=
  let d := u64 (u32 (2 * n0 a) * n9 a + u32 (2 * n1 a) * n8 a + u32 (2 * n2 a) * n7 a + u32 (2 * n3 a) * n6 a +
    u32 (2 * n4 a) * n5 a) in
  let t9 := Z.land d M in
  let d := Z.shiftr d 26 in
  let c := u64 (n0 a * n0 a) in
  let d := u64 (d + (u32 (2 * n1 a) * n9 a + u32 (2 * n2 a) * n8 a + u32 (2 * n3 a) * n7 a + u32 (2 * n4 a) * n6 a
    + n5 a * n5 a)) in
  let u0 := Z.land d M in
  let d := Z.shiftr d 26 in
  let c := u64 (c + (u0 * R0)) in
  let t0 := Z.land c M in
  let c := Z.shiftr c 26 in
  let c := u64 (c + (u0 * R1)) in
  let c := u64 (c + (u32 (2 * n0 a) * n1 a)) in
  let d := u64 (d + (u32 (2 * n2 a) * n9 a + u32 (2 * n3 a) * n8 a + u32 (2 * n4 a) * n7 a + u32 (2 * n5 a) * n6
    a)) in
  let u1 := Z.land d M in
  let d := Z.shiftr d 26 in
  let c := u64 (c + (u1 * R0)) in
  let t1 := Z.land c M in
  let c := Z.shiftr c 26 in
  let c := u64 (c + (u1 * R1)) in
  let c := u64 (c + (u32 (2 * n0 a) * n2 a + n1 a * n1 a)) in
  let d := u64 (d + (u32 (2 * n3 a) * n9 a + u32 (2 * n4 a) * n8 a + u32 (2 * n5 a) * n7 a + n6 a * n6 a)) in
  let u2 := Z.land d M in
  let d := Z.shiftr d 26 in
  let c := u64 (c + (u2 * R0)) in
  let t2 := Z.land c M in
  let c := Z.shiftr c 26 in
  let c := u64 (c + (u2 * R1)) in
  let c := u64 (c + (u32 (2 * n0 a) * n3 a + u32 (2 * n1 a) * n2 a)) in
  let d := u64 (d + (u32 (2 * n4 a) * n9 a + u32 (2 * n5 a) * n8 a + u32 (2 * n6 a) * n7 a)) in
  let u3 := Z.land d M in
  let d := Z.shiftr d 26 in
  let c := u64 (c + (u3 * R0)) in
  let t3 := Z.land c M in
  let c := Z.shiftr c 26 in
  let c := u64 (c + (u3 * R1)) in
  let c := u64 (c + (u32 (2 * n0 a) * n4 a + u32 (2 * n1 a) * n3 a + n2 a * n2 a)) in
  let d := u64 (d + (u32 (2 * n5 a) * n9 a + u32 (2 * n6 a) * n8 a + n7 a * n7 a)) in
  let u4 := Z.land d M in
  let d := Z.shiftr d 26 in
  let c := u64 (c + (u4 * R0)) in
  let t4 := Z.land c M in
  let c := Z.shiftr c 26 in
  let c := u64 (c + (u4 * R1)) in
  let c := u64 (c + (u32 (2 * n0 a) * n5 a + u32 (2 * n1 a) * n4 a + u32 (2 * n2 a) * n3 a)) in
  let d := u64 (d + (u32 (2 * n6 a) * n9 a + u32 (2 * n7 a) * n8 a)) in
  let u5 := Z.land d M in
  let d := Z.shiftr d 26 in
  let c := u64 (c + (u5 * R0)) in
  let t5 := Z.land c M in
  let c := Z.shiftr c 26 in
  let c := u64 (c + (u5 * R1)) in
  let c := u64 (c + (u32 (2 * n0 a) * n6 a + u32 (2 * n1 a) * n5 a + u32 (2 * n2 a) * n4 a + n3 a * n3 a)) in
  let d := u64 (d + (u32 (2 * n7 a) * n9 a + n8 a * n8 a)) in
  let u6 := Z.land d M in
  let d := Z.shiftr d 26 in
  let c := u64 (c + (u6 * R0)) in
  let t6 := Z.land c M in
  let c := Z.shiftr c 26 in
  let c := u64 (c + (u6 * R1)) in
  let c := u64 (c + (u32 (2 * n0 a) * n7 a + u32 (2 * n1 a) * n6 a + u32 (2 * n2 a) * n5 a + u32 (2 * n3 a) * n4
    a)) in
  let d := u64 (d + (u32 (2 * n8 a) * n9 a)) in
  let u7 := Z.land d M in
  let d := Z.shiftr d 26 in
  let c := u64 (c + (u7 * R0)) in
  let t7 := Z.land c M in
  let c := Z.shiftr c 26 in
  let c := u64 (c + (u7 * R1)) in
  let c := u64 (c + (u32 (2 * n0 a) * n8 a + u32 (2 * n1 a) * n7 a + u32 (2 * n2 a) * n6 a + u32 (2 * n3 a) * n5 a
    + n4 a * n4 a)) in
  let d := u64 (d + (n9 a * n9 a)) in
  let u8 := Z.land d M in
  let d := Z.shiftr d 26 in
  let c := u64 (c + (u8 * R0)) in
  let r3 := t3 in
  let r4 := t4 in
  let r5 := t5 in
  let r6 := t6 in
  let r7 := t7 in
  let r8 := Z.land c M in
  let c := Z.shiftr c 26 in
  let c := u64 (c + (u8 * R1)) in
  let c := u64 (c + (d * R0 + t9)) in
  let r9 := Z.land c (Z.shiftr M 4) in
  let c := Z.shiftr c 22 in
  let c := u64 (c + (d * u32 (Z.shiftl R1 4))) in
  let d := u64 (c * Z.shiftr R0 4 + t0) in
  let r0 := Z.land d M in
  let d := Z.shiftr d 26 in
  let d := u64 (d + (c * Z.shiftr R1 4 + t1)) in
  let r1 := Z.land d M in
  let d := Z.shiftr d 26 in
  let d := u64 (d + t2) in
  let r2 := u32 d in
  Fe r0 r1 r2 r3 r4 r5 r6 r7 r8 r9.

Definition mul (a b : fe) : fe := mul_inner a b.
Definition sqr (a : fe) : fe := sqr_inner a.

(** One word of a conditional move. *)
Definition cmov_word (flag r a : Z) : Z :=
  let mask0 := u32 (flag + u32 (Z.lnot 0)) in
  let mask1 := u32 (Z.lnot mask0) in
  Z.lor (Z.land r mask0) (Z.land a mask1).

Definition cmov (r a : fe) (flag : Z) : fe :=
  Fe (cmov_word flag (n0 r) (n0 a)) (cmov_word flag (n1 r) (n1 a)) (cmov_word flag (n2 r) (n2 a))
     (cmov_word flag (n3 r) (n3 a)) (cmov_word flag (n4 r) (n4 a)) (cmov_word flag (n5 r) (n5 a))
     (cmov_word flag (n6 r) (n6 a)) (cmov_word flag (n7 r) (n7 a)) (cmov_word flag (n8 r) (n8 a))
     (cmov_word flag (n9 r) (n9 a)).

(** secp256k1_fe_storage_t: uint32_t n[8]. *)
Record storage := Storage { s0 : Z; s1 : Z; s2 : Z; s3 : Z; s4 : Z; s5 : Z; s6 : Z; s7 : Z }.

Definition storage_cmov (r a : storage) (flag : Z) : storage :=
  Storage (cmov_word flag (s0 r) (s0 a)) (cmov_word flag (s1 r) (s1 a)) (cmov_word flag (s2 r) (s2 a))
    (cmov_word flag (s3 r) (s3 a)) (cmov_word flag (s4 r) (s4 a)) (cmov_word flag (s5 r) (s5 a))
    (cmov_word flag (s6 r) (s6 a)) (cmov_word flag (s7 r) (s7 a)).

Definition to_storage (a : fe) : storage :=
  Storage (Z.lor (n0 a) (u32 (Z.shiftl (n1 a) 26)))
    (Z.lor (Z.shiftr (n1 a) 6) (u32 (Z.shiftl (n2 a) 20)))
    (Z.lor (Z.shiftr (n2 a) 12) (u32 (Z.shiftl (n3 a) 14)))
    (Z.lor (Z.shiftr (n3 a) 18) (u32 (Z.shiftl (n4 a) 8)))
    (Z.lor (Z.lor (Z.shiftr (n4 a) 24) (u32 (Z.shiftl (n5 a) 2))) (u32 (Z.shiftl (n6 a) 28)))
    (Z.lor (Z.shiftr (n6 a) 4) (u32 (Z.shiftl (n7 a) 22)))
    (Z.lor (Z.shiftr (n7 a) 10) (u32 (Z.shiftl (n8 a) 16)))
    (Z.lor (Z.shiftr (n8 a) 16) (u32 (Z.shiftl (n9 a) 10))).

Definition from_storage (a : storage) : fe :=
  Fe (Z.land (s0 a) 0x3FFFFFF)
    (Z.lor (Z.shiftr (s0 a) 26) (Z.land (u32 (Z.shiftl (s1 a) 6)) 0x3FFFFFF))
    (Z.lor (Z.shiftr (s1 a) 20) (Z.land (u32 (Z.shiftl (s2 a) 12)) 0x3FFFFFF))
    (Z.lor (Z.shiftr (s2 a) 14) (Z.land (u32 (Z.shiftl (s3 a) 18)) 0x3FFFFFF))
    (Z.lor (Z.shiftr (s3 a) 8) (Z.land (u32 (Z.shiftl (s4 a) 24)) 0x3FFFFFF))
    (Z.land (Z.shiftr (s4 a) 2) 0x3FFFFFF)
    (Z.lor (Z.shiftr (s4 a) 28) (Z.land (u32 (Z.shiftl (s5 a) 4)) 0x3FFFFFF))
    (Z.lor (Z.shiftr (s5 a) 22) (Z.land (u32 (Z.shiftl (s6 a) 10)) 0x3FFFFFF))
    (Z.lor (Z.shiftr (s6 a) 16) (Z.land (u32 (Z.shiftl (s7 a) 16)) 0x3FFFFFF))
    (Z.shiftr (s7 a) 10).

(** ** Values and magnitudes *)

Definition val (a : fe) : Z :=
  n0 a + 2 ^ 26 * n1 a + 2 ^ 52 * n2 a + 2 ^ 78 * n3 a + 2 ^ 104 * n4 a + 2 ^ 130 * n5 a
  + 2 ^ 156 * n6 a + 2 ^ 182 * n7 a + 2 ^ 208 * n8 a + 2 ^ 234 * n9 a.

Record mag (m : Z) (a : fe) : Prop := {
  mag0 : Bnd (n0 a) (2 * m * 0x3FFFFFF); mag1 : Bnd (n1 a) (2 * m * 0x3FFFFFF);
  mag2 : Bnd (n2 a) (2 * m * 0x3FFFFFF); mag3 : Bnd (n3 a) (2 * m * 0x3FFFFFF);
  mag4 : Bnd (n4 a) (2 * m * 0x3FFFFFF); mag5 : Bnd (n5 a) (2 * m * 0x3FFFFFF);
  mag6 : Bnd (n6 a) (2 * m * 0x3FFFFFF); mag7 : Bnd (n7 a) (2 * m * 0x3FFFFFF);
  mag8 : Bnd (n8 a) (2 * m * 0x3FFFFFF); mag9 : Bnd (n9 a) (2 * m * 0x03FFFFF) }.

Ltac consts E :=
  try change (Z.shiftr M 4) with 0x3FFFFF in E; try change (u32 (Z.shiftl R1 4)) with 0x4000 in E;
  try change (Z.shiftr R0 4) with 0x3D1 in E; try change (Z.shiftr R1 4) with 0x40 in E;
  try change M with 0x3FFFFFF in E; try change R0 with 0x3D10 in E; try change R1 with 0x400 in E.

(** One assignment, with the constants of the products replaced by their values. *)
Ltac fe_word := sym_let; match goal with E : ?x = _ |- _ => consts E; wrap_simpl E; bnd_record E end.

(** ** Products *)

(** Forget the ranges. *)
Ltac clear_bounds := repeat match goal with B : Bnd _ _ |- _ => clear B end.

(** Congruence modulo p from an exhibited multiple of p. *)
Lemma mod_p_eq x y k : x + p * k = y -> x mod p = y mod p.
Proof. intros <-. rewrite Z.mul_comm, Z_mod_plus_full. reflexivity. Qed.

Lemma mul_inner_spec a b : mag 8 a -> mag 8 b ->
  mag 1 (mul_inner a b) /\ val (mul_inner a b) mod p = (val a * val b) mod p.
Proof.
  intros [A0 A1 A2 A3 A4 A5 A6 A7 A8 A9] [B0 B1 B2 B3 B4 B5 B6 B7 B8 B9].
  sym_open (mul_inner a b) mul_inner. repeat fe_word. sym_close.
  split; [constructor; cbn; eapply bnd_weaken; eauto; lia |].
  apply mod_p_eq with
    (16 * (u0 + 2 ^ 26 * u1 + 2 ^ 52 * u2 + 2 ^ 78 * u3 + 2 ^ 104 * u4 + 2 ^ 130 * u5 + 2 ^ 156 * u6 + 2 ^ 182 * u7
           + 2 ^ 208 * u8 + 2 ^ 234 * d18) + c37).
  carry_eqs. unfold val, p; cbn [n0 n1 n2 n3 n4 n5 n6 n7 n8 n9].
  subst r2 r3 r4 r5 r6 r7. clear_bounds. lia.
Qed.

Lemma sqr_inner_spec a : mag 8 a ->
  mag 1 (sqr_inner a) /\ val (sqr_inner a) mod p = (val a * val a) mod p.
Proof.
  intros [A0 A1 A2 A3 A4 A5 A6 A7 A8 A9].
  sym_open (sqr_inner a) sqr_inner. repeat fe_word. sym_close.
  split; [constructor; cbn; eapply bnd_weaken; eauto; lia |].
  apply mod_p_eq with
    (16 * (u0 + 2 ^ 26 * u1 + 2 ^ 52 * u2 + 2 ^ 78 * u3 + 2 ^ 104 * u4 + 2 ^ 130 * u5 + 2 ^ 156 * u6 + 2 ^ 182 * u7
           + 2 ^ 208 * u8 + 2 ^ 234 * d18) + c37).
  carry_eqs. unfold val, p; cbn [n0 n1 n2 n3 n4 n5 n6 n7 n8 n9].
  subst r2 r3 r4 r5 r6 r7. clear_bounds. lia.
Qed.

(** ** Normalization *)

(** Limbs 0 to 8 in range and limb 9 at most [m]. *)
Record reduced (m : Z) (t : fe) : Prop := {
  rd0 : Bnd (n0 t) 0x3FFFFFF; rd1 : Bnd (n1 t) 0x3FFFFFF; rd2 : Bnd (n2 t) 0x3FFFFFF;
  rd3 : Bnd (n3 t) 0x3FFFFFF; rd4 : Bnd (n4 t) 0x3FFFFFF; rd5 : Bnd (n5 t) 0x3FFFFFF;
  rd6 : Bnd (n6 t) 0x3FFFFFF; rd7 : Bnd (n7 t) 0x3FFFFFF; rd8 : Bnd (n8 t) 0x3FFFFFF; rd9 : Bnd (n9 t) m }.

(** What secp256k1_fe_verify checks of a normalized element. *)
Definition normalized (a : fe) : Prop := reduced 0x3FFFFF a /\ val a < p.

Lemma carry_spec t :
  Bnd (n0 t) (2 ^ 32 - 1) -> Bnd (n1 t) (2 ^ 32 - 64) -> Bnd (n2 t) (2 ^ 32 - 64) -> Bnd (n3 t) (2 ^ 32 - 64) ->
  Bnd (n4 t) (2 ^ 32 - 64) -> Bnd (n5 t) (2 ^ 32 - 64) -> Bnd (n6 t) (2 ^ 32 - 64) -> Bnd (n7 t) (2 ^ 32 - 64) ->
  Bnd (n8 t) (2 ^ 32 - 64) -> Bnd (n9 t) (0x3FFFFF + 63) ->
  reduced (n9 t + 63) (carry t) /\ val (carry t) = val t.
Proof.
  intros B0 B1 B2 B3 B4 B5 B6 B7 B8 B9.
  sym_open (carry t) carry. repeat sym_word. sym_close.
  assert (S : Bnd (Z.shiftr t14 26) 63) by (eapply bnd_weaken; [typeclasses eauto | vm_compute; discriminate]).
  split; [constructor; cbn; try assumption; bnds; unfold Bnd; lia |].
  mask_eqs 26. unfold val; cbn [n0 n1 n2 n3 n4 n5 n6 n7 n8 n9]. clear_bounds. lia.
Qed.
Lemma val_nonneg m t : reduced m t -> 0 <= val t.
Proof. intros []. unfold val. bnds. lia. Qed.

(** A reduced element is the digits of its value below limb 9. *)
Lemma reduced_top m t : reduced m t -> n9 t * 2 ^ 234 <= val t < (n9 t + 1) * 2 ^ 234.
Proof. intros []. unfold val. bnds. lia. Qed.

Lemma mask9_spec m t : reduced m t -> reduced 0x3FFFFF (mask9 t) /\ val (mask9 t) = val t mod 2 ^ 256.
Proof.
  intros R. pose proof (val_nonneg m t R) as P. pose proof R as [].
  assert (B : Bnd (Z.land (n9 t) 0x3FFFFF) 0x3FFFFF) by (apply land_bnd_r; [unfold Bnd in *; lia | split; lia]).
  split; [constructor; assumption |].
  pose proof (mask_shift_split (n9 t) 22 ltac:(lia)) as E. change (Z.ones 22) with 0x3FFFFF in E.
  apply (Z.mod_unique_pos _ _ (Z.shiftr (n9 t) 22)); unfold val, mask9; cbn [n0 n1 n2 n3 n4 n5 n6 n7 n8 n9]; bnds; lia.
Qed.

Lemma reduced_weaken m n t : m <= n -> reduced m t -> reduced n t.
Proof. intros L []. constructor; try assumption. eapply bnd_weaken; eassumption. Qed.

Lemma add_x_spec t x : Bnd (n0 t) (62 * 0x3FFFFFF) -> Bnd (n1 t) (62 * 0x3FFFFFF) -> Bnd x 61 ->
  add_x t x = Fe (n0 t + x * 0x3D1) (n1 t + 64 * x) (n2 t) (n3 t) (n4 t) (n5 t) (n6 t) (n7 t) (n8 t) (n9 t).
Proof.
  intros B0 B1 X. unfold add_x, u32. bnds. rewrite Z.shiftl_mul_pow2 by lia.
  rewrite (Z.mod_small (x * 2 ^ 6)), (Z.mod_small (n0 t + _)), (Z.mod_small (n1 t + _)) by lia. f_equal. lia.
Qed.

(** The first pass brings every limb in range, up to one carry out of limb 9. *)
Lemma first_pass_spec r : mag 31 r ->
  reduced (0x3FFFFF + 63) (first_pass r) /\ val (first_pass r) + p * Z.shiftr (n9 r) 22 = val r.
Proof.
  intros []. unfold first_pass. set (x := Z.shiftr (n9 r) 22).
  assert (X : Bnd x 61) by (eapply bnd_weaken; [subst x; typeclasses eauto | vm_compute; discriminate]).
  assert (B9 : Bnd (Z.land (n9 r) 0x3FFFFF) 0x3FFFFF) by typeclasses eauto.
  pose proof (mask_shift_split (n9 r) 22 ltac:(lia)) as E9. change (Z.ones 22) with 0x3FFFFF in E9. fold x in E9.
  rewrite add_x_spec by assumption. unfold mask9; cbn [n0 n1 n2 n3 n4 n5 n6 n7 n8 n9].
  match goal with |- reduced _ (carry ?t) /\ _ => destruct (carry_spec t) as [C V] end;
    cbn [n0 n1 n2 n3 n4 n5 n6 n7 n8 n9] in *; try (bnds; unfold Bnd; lia).
  split; [eapply reduced_weaken; [| exact C]; bnds; lia |].
  rewrite V. unfold val, p; cbn [n0 n1 n2 n3 n4 n5 n6 n7 n8 n9]. lia.
Qed.

(** The test of the limbs decides whether the value is below p. *)
Lemma top_full t m : reduced m t ->
  (Z.land (Z.land (Z.land (Z.land (Z.land (Z.land (n2 t) (n3 t)) (n4 t)) (n5 t)) (n6 t)) (n7 t)) (n8 t) =? 0x3FFFFFF)
  = (2 ^ 182 - 1 <=? n2 t + 2 ^ 26 * n3 t + 2 ^ 52 * n4 t + 2 ^ 78 * n5 t + 2 ^ 104 * n6 t + 2 ^ 130 * n7 t + 2 ^ 156 * n8 t).
Proof.
  intros []. repeat (rewrite (land_full 26 0x3FFFFFF 0x3FFFFFF) by (lia || reflexivity || typeclasses eauto)).
  bnds. destruct (Z.eqb_spec (n2 t) 0x3FFFFFF), (Z.eqb_spec (n3 t) 0x3FFFFFF), (Z.eqb_spec (n4 t) 0x3FFFFFF),
    (Z.eqb_spec (n5 t) 0x3FFFFFF), (Z.eqb_spec (n6 t) 0x3FFFFFF), (Z.eqb_spec (n7 t) 0x3FFFFFF), (Z.eqb_spec (n8 t) 0x3FFFFFF);
    cbn [andb]; symmetry; first [apply Z.leb_le; lia | apply Z.leb_gt; lia].
Qed.

Lemma low_carry t m : reduced m t ->
  (u32 (n1 t + 0x40 + Z.shiftr (u32 (n0 t + 0x3D1)) 26) >? 0x3FFFFFF) = (2 ^ 52 <=? n0 t + 2 ^ 26 * n1 t + 2 ^ 32 + 977).
Proof.
  intros []. unfold u32. rewrite (Z.mod_small (n0 t + 0x3D1)) by (bnds; lia). rewrite Z.shiftr_div_pow2 by lia.
  pose proof (Z.div_mod (n0 t + 0x3D1) (2 ^ 26) ltac:(lia)). pose proof (Z.mod_pos_bound (n0 t + 0x3D1) (2 ^ 26) ltac:(lia)).
  bnds. rewrite Z.mod_small by lia. rewrite Z.gtb_ltb.
  destruct (Z.ltb_spec 0x3FFFFFF (n1 t + 0x40 + (n0 t + 0x3D1) / 2 ^ 26)); symmetry; [apply Z.leb_le | apply Z.leb_gt]; lia.
Qed.

Lemma final_x_spec t : reduced (0x3FFFFF + 63) t -> final_x t = c_bool (p <=? val t).
Proof.
  intros R. unfold final_x. rewrite (top_full _ _ R), (low_carry _ _ R). pose proof (reduced_top _ _ R) as T.
  destruct R. bnds. assert (Hs : Z.shiftr (n9 t) 22 = c_bool (2 ^ 22 <=? n9 t)).
  { rewrite Z.shiftr_div_pow2 by lia. destruct (Z.leb_spec (2 ^ 22) (n9 t)); cbn [c_bool];
      [symmetry; apply Z.div_unique_pos with (n9 t - 2 ^ 22) | apply Z.div_small]; lia. }
  rewrite Hs. clear Hs. unfold val, p in *.
  set (V := n0 t + 2 ^ 26 * n1 t + 2 ^ 52 * n2 t + 2 ^ 78 * n3 t + 2 ^ 104 * n4 t + 2 ^ 130 * n5 t
            + 2 ^ 156 * n6 t + 2 ^ 182 * n7 t + 2 ^ 208 * n8 t + 2 ^ 234 * n9 t) in *.
  set (H := n2 t + 2 ^ 26 * n3 t + 2 ^ 52 * n4 t + 2 ^ 78 * n5 t + 2 ^ 104 * n6 t + 2 ^ 130 * n7 t + 2 ^ 156 * n8 t).
  assert (EV : V = n0 t + 2 ^ 26 * n1 t + 2 ^ 52 * H + 2 ^ 234 * n9 t) by (subst V H; lia).
  assert (BH : 0 <= H < 2 ^ 182) by (subst H; lia). clearbody V H.
  destruct (Z.leb_spec (2 ^ 22) (n9 t)), (Z.eqb_spec (n9 t) 0x3FFFFF), (Z.leb_spec (2 ^ 182 - 1) H),
    (Z.leb_spec (2 ^ 52) (n0 t + 2 ^ 26 * n1 t + 2 ^ 32 + 977)), (Z.leb_spec 0xFFFFFFFFFFFFFFFFFFFFFFFFFFFFFFFFFFFFFFFFFFFFFFFFFFFFFFFEFFFFFC2F V);
    solve [reflexivity | exfalso; lia].
Qed.

(** Limbs in range are a magnitude of one. *)
Lemma reduced_mag t : reduced (0x3FFFFF + 63) t -> mag 1 t.
Proof. intros []. constructor; bnds; unfold Bnd; lia. Qed.

(** The second pass subtracts p when the value is not below it. *)
Lemma final_pass_spec t : reduced (0x3FFFFF + 63) t ->
  normalized (mask9 (carry (add_x t (c_bool (p <=? val t))))) /\
  val (mask9 (carry (add_x t (c_bool (p <=? val t))))) = val t mod p.
Proof.
  intros R. pose proof (reduced_top _ _ R) as T. pose proof (val_nonneg _ _ R) as P0.
  set (x := c_bool (p <=? val t)). assert (X : x = 1 /\ p <= val t \/ x = 0 /\ val t < p)
    by (subst x; destruct (Z.leb_spec p (val t)); cbn; auto).
  rewrite add_x_spec by (destruct R; bnds; unfold Bnd; lia).
  match goal with |- normalized (mask9 (carry ?t)) /\ _ => destruct (carry_spec t) as [C V] end;
    [destruct R; cbn [n0 n1 n2 n3 n4 n5 n6 n7 n8 n9]; bnds; unfold Bnd; lia .. |].
  set (u := carry _) in *. apply mask9_spec in C as [M E]. rewrite V in E.
  replace (val (Fe _ _ _ _ _ _ _ _ _ _)) with (val t + x * (2 ^ 256 - p)) in E
    by (unfold val, p; cbn [n0 n1 n2 n3 n4 n5 n6 n7 n8 n9]; lia).
  assert (L : val t < 2 ^ 256 + 2 ^ 241) by (destruct R; bnds; lia).
  assert (F : val (mask9 u) = val t mod p).
  { rewrite E. assert (Hp : p = 2 ^ 256 - 2 ^ 32 - 977) by reflexivity. destruct X as [[-> X] | [-> X]].
    - rewrite <- (Z.mod_unique_pos (val t + 1 * (2 ^ 256 - p)) (2 ^ 256) 1 (val t - p)) by lia.
      apply (Z.mod_unique_pos _ _ 1); lia.
    - rewrite Z.mul_0_l, Z.add_0_r, !Z.mod_small by lia. reflexivity. }
  split; [| exact F]. split; [exact M |]. rewrite F. apply Z.mod_pos_bound. reflexivity.
Qed.
Lemma p_value : p = 2 ^ 256 - 2 ^ 32 - 977.
Proof. reflexivity. Qed.

Lemma first_pass_mod r : mag 31 r -> val (first_pass r) mod p = val r mod p.
Proof. intros R. apply first_pass_spec in R as [_ E]. eapply mod_p_eq, E. Qed.

Lemma normalize_spec r : mag 31 r -> normalized (normalize r) /\ val (normalize r) = val r mod p.
Proof.
  intros R. rewrite <- first_pass_mod by assumption. apply first_pass_spec in R as [R _].
  unfold normalize. cbv zeta. rewrite final_x_spec by exact R. apply final_pass_spec, R.
Qed.

Lemma normalize_weak_spec r : mag 31 r -> mag 1 (normalize_weak r) /\ val (normalize_weak r) mod p = val r mod p.
Proof. intros R. split; [apply reduced_mag, first_pass_spec, R | apply first_pass_mod, R]. Qed.

(** The variable-time normalization skips a second pass that would change nothing. *)
Lemma normalize_var_spec r : mag 31 r -> normalized (normalize_var r) /\ val (normalize_var r) = val r mod p.
Proof.
  intros R. rewrite <- first_pass_mod by assumption. apply first_pass_spec in R as [R _].
  unfold normalize_var. cbv zeta. rewrite final_x_spec by exact R. pose proof (final_pass_spec _ R) as F.
  pose proof (val_nonneg _ _ R) as P0. pose proof (reduced_top _ _ R) as T.
  destruct (Z.leb_spec p (val (first_pass r))) as [L | L]; cbn [c_bool Z.eqb negb]; [exact F |].
  split; [split; [| exact L] | symmetry; apply Z.mod_small; lia].
  destruct R. constructor; try assumption. rewrite p_value in L. unfold Bnd in *. lia.
Qed.

(** A reduced element whose limbs are those of [l] has the value of [l], and
    only it has. *)
Lemma zero_or_p_spec t : reduced (0x3FFFFF + 63) t -> zero_or_p t = c_bool (val t mod p =? 0).
Proof.
  intros R. pose proof (val_nonneg _ _ R) as P0. pose proof (reduced_top _ _ R) as T. destruct R.
  assert (V : val t < 2 * p) by (rewrite p_value; unfold Bnd in *; lia).
  assert (E : (val t mod p =? 0) = (val t =? 0) || (val t =? p)).
  { destruct (Z.lt_ge_cases (val t) p).
    - rewrite Z.mod_small by lia. destruct (Z.eqb_spec (val t) p); [lia |]. rewrite orb_false_r. reflexivity.
    - rewrite <- (Z.mod_unique_pos (val t) p 1 (val t - p)) by lia. rewrite p_value in *.
      destruct (Z.eqb_spec (val t - (2 ^ 256 - 2 ^ 32 - 977)) 0), (Z.eqb_spec (val t) 0), (Z.eqb_spec (val t) (2 ^ 256 - 2 ^ 32 - 977));
        try reflexivity; lia. }
  rewrite E. clear E V T P0. unfold zero_or_p. cbv zeta. rewrite !lor_empty.
  assert (B9 : Bnd (n9 t) 0x3FFFFFF) by (eapply bnd_weaken; [eassumption | lia]).
  assert (X0 : Bnd (Z.lxor (n0 t) 0x3D0) 0x3FFFFFF) by (apply (lxor_bnd 26); [lia | assumption | split; cbn; lia]).
  assert (X1 : Bnd (Z.lxor (n1 t) 0x40) 0x3FFFFFF) by (apply (lxor_bnd 26); [lia | assumption | split; cbn; lia]).
  assert (X9 : Bnd (Z.lxor (n9 t) 0x3C00000) 0x3FFFFFF) by (apply (lxor_bnd 26); [lia | assumption | split; cbn; lia]).
  repeat (rewrite (land_full 26 0x3FFFFFF 0x3FFFFFF) by (lia || reflexivity || typeclasses eauto)).
  rewrite !lxor_eqb. cbn [Z.lxor Pos.lxor Pos.Nsucc_double Pos.Ndouble Z.of_N]. cbn.
  match goal with |- Z.lor (c_bool ?a) (c_bool ?b) = _ =>
    replace a with (val t =? 0); [replace b with (val t =? p); [destruct (val t =? 0), (val t =? p); reflexivity |] |] end;
    apply Bool.eq_iff_eq_true; rewrite !andb_true_iff, !Z.eqb_eq; unfold val, p; clear X0 X1 X9 B9; bnds; lia.
Qed.
Lemma normalizes_to_zero_spec r : mag 31 r -> normalizes_to_zero r = c_bool (val r mod p =? 0).
Proof.
  intros R. unfold normalizes_to_zero. rewrite zero_or_p_spec by apply first_pass_spec, R.
  rewrite first_pass_mod by exact R. reflexivity.
Qed.

(** The fast path answers as the full test would. *)
Lemma normalizes_to_zero_var_spec r : mag 31 r -> normalizes_to_zero_var r = c_bool (val r mod p =? 0).
Proof.
  intros R. rewrite <- normalizes_to_zero_spec by exact R. unfold normalizes_to_zero_var, normalizes_to_zero.
  destruct (_ && _) eqn:F; [| reflexivity]. apply first_pass_spec in R as [R _].
  change (Z.land (u32 (n0 r + Z.shiftr (n9 r) 22 * 0x3D1)) 0x3FFFFFF) with (n0 (first_pass r)) in F.
  rewrite zero_or_p_spec by exact R. apply andb_true_iff in F as [F0 F1]. rewrite lxor_eqb in F1.
  apply negb_true_iff, Z.eqb_neq in F0, F1. change (Z.lxor 0x3D0 0x3FFFFFF) with 0x3FFFC2F in F1.
  destruct (Z.eqb_spec (val (first_pass r) mod p) 0) as [E | E]; [exfalso | reflexivity].
  set (t := first_pass r) in *. clearbody t.
  pose proof (Z.div_mod (val t) p ltac:(discriminate)) as D. rewrite E in D. destruct R. revert D.
  generalize (val t / p). intros q. unfold val, p, Bnd in *. intros D.
  assert (q = 0 \/ q = 1) as [-> | ->] by lia; lia.
Qed.

Lemma normalized_range a : normalized a -> 0 <= val a < p.
Proof. intros [R L]. split; [eapply val_nonneg, R | exact L]. Qed.

Lemma normalized_mag a : normalized a -> mag 1 a.
Proof. intros [R _]. apply reduced_mag. eapply reduced_weaken; [| exact R]. lia. Qed.

Lemma mag_weaken m n a : mag m a -> m <= n -> mag n a.
Proof. intros [] L. constructor; eapply bnd_weaken; eauto; lia. Qed.

(** ** Small values *)

Lemma set_int_spec a : 0 <= a < 2 ^ 26 -> normalized (set_int a) /\ val (set_int a) = a.
Proof.
  intros A. unfold set_int, u32. rewrite Z.mod_small by lia.
  split; [split |]; [constructor; unfold Bnd; cbn; lia | unfold val, p; cbn [n0 n1 n2 n3 n4 n5 n6 n7 n8 n9]; lia ..].
Qed.

Lemma is_zero_spec26 a : normalized a -> is_zero a = c_bool (val a =? 0).
Proof.
  intros [[] _]. unfold is_zero. f_equal. rewrite !lor_empty. apply Bool.eq_iff_eq_true.
  rewrite !andb_true_iff, !Z.eqb_eq. unfold val. bnds. lia.
Qed.

Lemma is_odd_spec a : normalized a -> is_odd a = val a mod 2.
Proof.
  intros _. unfold is_odd. change 1 with (Z.ones 1). rewrite Z.land_ones by lia. change (2 ^ 1) with 2.
  replace (val a) with (n0 a + (2 ^ 25 * n1 a + 2 ^ 51 * n2 a + 2 ^ 77 * n3 a + 2 ^ 103 * n4 a + 2 ^ 129 * n5 a
    + 2 ^ 155 * n6 a + 2 ^ 181 * n7 a + 2 ^ 207 * n8 a + 2 ^ 233 * n9 a) * 2) by (unfold val; lia).
  rewrite Z_mod_plus_full. reflexivity.
Qed.

Lemma clear_spec : normalized clear /\ val clear = 0.
Proof. split; [split; [constructor; split; discriminate | reflexivity] | reflexivity]. Qed.

(** ** Digits *)

Lemma val_leval a : val a = leval 26 (limbs a).
Proof. unfold val, limbs; cbn [leval]. lia. Qed.

Lemma reduced_digits m a : reduced m a -> m < 2 ^ 26 -> Forall (fun d => 0 <= d < 2 ^ 26) (limbs a).
Proof. intros [] L. unfold limbs. bnds. repeat (apply Forall_cons; [lia |]). apply Forall_nil. Qed.

Lemma cmp_var_spec a b : normalized a -> normalized b -> cmp_var a b = sign (val a ?= val b).
Proof.
  intros [A _] [B _]. rewrite !val_leval. apply cmp_limbs_spec; try lia; [reflexivity | eapply reduced_digits; eauto; lia ..].
Qed.

(** Limb [i] of an element in range. *)
Lemma limb_slice26 m a i : reduced m a -> m < 2 ^ 26 -> 0 <= i < 10 -> nth (Z.to_nat i) (limbs a) 0 = slice (val a) (26 * i) 26.
Proof.
  intros R L Hi. rewrite val_leval, (nth_slice 26) by (lia || eapply reduced_digits; eauto). f_equal. lia.
Qed.

Lemma get_b32_spec26 a : normalized a -> length (get_b32 a) = 32%nat /\ bytes (get_b32 a) /\ be_val (get_b32 a) = val a.
Proof.
  intros N. pose proof (normalized_range a N) as V. destruct N as [R _].
  assert (E : get_b32 a = rev (map (fun i => u8 (slice (val a) (8 * i) 8)) (zseq 32))).
  { unfold get_b32. f_equal. apply map_ext_in. intros i Hi. f_equal.
    assert (0 <= i < 32) by (unfold zseq in Hi; apply in_map_iff in Hi as (k & <- & Hk); apply in_seq in Hk; lia).
    apply (get_byte 26 2 13 10); try lia. intros k Hk. eapply limb_slice26; eauto; lia. }
  rewrite E. pose proof (bytes_of (val a)) as B. cbv zeta in B. destruct B as (L & B & Q). split; [exact L | split; [exact B |]].
  rewrite Q. apply Z.mod_small. unfold p in V. lia.
Qed.

(** The limbs that hold the digits of a number below 2^256. *)
Lemma digits_reduced a X : limbs a = slices 26 10 X 0 -> 0 <= X < 2 ^ 256 -> reduced 0x3FFFFF a /\ val a = X.
Proof.
  intros L V. split.
  - assert (B : forall o, Bnd (slice X o 26) 0x3FFFFFF) by (intros o; pose proof (slice_range X o 26); unfold Bnd; lia).
    assert (B9 : Bnd (slice X 234 26) 0x3FFFFF).
    { rewrite <- (slice_wide X 234 22 26) by lia. pose proof (slice_range X 234 22). unfold Bnd. lia. }
    unfold limbs in L. cbn [slices] in L. injection L as L0 L1 L2 L3 L4 L5 L6 L7 L8 L9.
    constructor; [rewrite L0 | rewrite L1 | rewrite L2 | rewrite L3 | rewrite L4 | rewrite L5 | rewrite L6 | rewrite L7 | rewrite L8 | rewrite L9];
      first [exact B9 | apply B].
  - rewrite val_leval, L, leval_slices, Z.pow_0_r, Z.div_1_r by lia. apply Z.mod_small. cbn. lia.
Qed.

Lemma of_limbs_digits X l : holds 26 10 X 256 l -> 0 <= X < 2 ^ 256 -> reduced 0x3FFFFF (of_limbs l) /\ val (of_limbs l) = X.
Proof.
  intros H HX. apply holds_slices in H. rewrite Z.mod_small in H by exact HX. subst l. apply digits_reduced; [reflexivity | exact HX].
Qed.

(** The test of secp256k1_fe_set_b32: whether the value is p or more. *)
Lemma overflow_test r : reduced 0x3FFFFF r ->
  (n9 r =? 0x3FFFFF)
  && (Z.land (Z.land (Z.land (Z.land (Z.land (Z.land (n8 r) (n7 r)) (n6 r)) (n5 r)) (n4 r)) (n3 r)) (n2 r) =? 0x3FFFFFF)
  && (u32 (n1 r + 0x40 + Z.shiftr (u32 (n0 r + 0x3D1)) 26) >? 0x3FFFFFF) = (p <=? val r).
Proof.
  intros R. pose proof (final_x_spec r ltac:(eapply reduced_weaken; [| exact R]; lia)) as F. unfold final_x in F. cbv zeta in F.
  replace (Z.shiftr (n9 r) 22) with 0 in F
    by (destruct R; rewrite Z.shiftr_div_pow2 by lia; symmetry; apply Z.div_small; bnds; lia).
  replace (Z.land (Z.land (Z.land (Z.land (Z.land (Z.land (n8 r) (n7 r)) (n6 r)) (n5 r)) (n4 r)) (n3 r)) (n2 r))
    with (Z.land (Z.land (Z.land (Z.land (Z.land (Z.land (n2 r) (n3 r)) (n4 r)) (n5 r)) (n6 r)) (n7 r)) (n8 r))
    by (by_bits; rewrite !Z.land_spec; btauto).
  destruct (_ =? _), (_ =? _), (_ >? _), (p <=? val r); cbn in F |- *; congruence.
Qed.

Lemma set_b32_spec26 b : length b = 32%nat -> bytes b ->
  let '(r, ok) := set_b32 b in
  mag 1 r /\ val r = be_val b /\ ok = c_bool (be_val b <? p) /\ (be_val b < p -> normalized r).
Proof.
  intros L B. pose proof (be_val_range b B) as V. rewrite L in V. change (256 ^ Z.of_nat 32) with (2 ^ 256) in V.
  pose proof (set_loop 26 2 13 32 10 ltac:(lia) ltac:(lia) eq_refl ltac:(lia) 4 eq_refl ltac:(lia) b L B) as H.
  change (fold_left _ _ _) with (set_b32_limbs b) in H.
  apply of_limbs_digits in H as [R E]; [| exact V].
  unfold set_b32. cbv zeta. generalize dependent (of_limbs (set_b32_limbs b)). intros r R E.
  rewrite overflow_test, E by exact R. assert (R' : mag 1 r) by (apply reduced_mag; eapply reduced_weaken; [| exact R]; lia).
  rewrite Z.ltb_antisym. destruct (Z.leb_spec p (be_val b)) as [G | G];
    (split; [exact R' | split; [exact E | split; [reflexivity |]]]); intros S; [lia | split; [exact R | lia]].
Qed.

(** ** Sums and small multiples *)

Lemma negate_spec26 m a : 0 <= m <= 30 -> mag m a -> mag (m + 1) (negate a m) /\ val (negate a m) mod p = (- val a) mod p.
Proof.
  intros M []. unfold negate, u32. bnds. rewrite !Z.mod_small by lia.
  split; [constructor; cbn [n0 n1 n2 n3 n4 n5 n6 n7 n8 n9]; unfold Bnd; lia |].
  apply mod_p_eq with (- (2 * (m + 1))). unfold val, p; cbn [n0 n1 n2 n3 n4 n5 n6 n7 n8 n9]. lia.
Qed.

Lemma add_spec26 m n a b : 0 <= m -> 0 <= n -> m + n <= 31 -> mag m a -> mag n b ->
  mag (m + n) (add a b) /\ val (add a b) = val a + val b.
Proof.
  intros M N L [] []. unfold add, u32. bnds. rewrite !Z.mod_small by lia.
  split; [constructor; cbn [n0 n1 n2 n3 n4 n5 n6 n7 n8 n9]; unfold Bnd; lia |].
  unfold val; cbn [n0 n1 n2 n3 n4 n5 n6 n7 n8 n9]. lia.
Qed.

Lemma mul_int_spec m k a : 0 <= m -> 0 <= k -> m * k <= 31 -> mag m a ->
  mag (m * k) (mul_int a k) /\ val (mul_int a k) = k * val a.
Proof.
  intros M K L [].
  assert (S : forall x s, 0 <= s <= 0x3FFFFFF -> Bnd x (2 * m * s) -> Bnd (x * k) (2 * (m * k) * s) /\ u32 (x * k) = x * k).
  { intros x s Hs B. unfold Bnd in *. assert (0 <= x * k <= 2 * (m * k) * s) by nia. split; [lia |].
    apply Z.mod_small. assert (2 * (m * k) * s <= 62 * 0x3FFFFFF) by nia. lia. }
  unfold mul_int. repeat match goal with B : Bnd ?x (2 * m * ?s) |- _ => apply S in B as [? ->]; [| lia] end.
  split; [constructor; assumption |]. unfold val; cbn [n0 n1 n2 n3 n4 n5 n6 n7 n8 n9]. lia.
Qed.

(** ** Conditional moves and storage *)

Definition words (a : fe) : Prop := Forall (fun d => Bnd d 0xFFFFFFFF) (limbs a).

Lemma mag_words m a : m <= 31 -> mag m a -> words a.
Proof. intros M []. unfold words, limbs. bnds. repeat (apply Forall_cons; [unfold Bnd; lia |]). apply Forall_nil. Qed.

Lemma cmov_word_spec (b : bool) r a : Bnd r 0xFFFFFFFF -> Bnd a 0xFFFFFFFF -> cmov_word (c_bool b) r a = if b then a else r.
Proof. unfold Bnd. intros. apply (select_word 32); lia. Qed.

Lemma cmov_spec r a (b : bool) : words r -> words a -> cmov r a (c_bool b) = if b then a else r.
Proof.
  intros R A. unfold words, limbs in *. destruct_Forall R. destruct_Forall A. unfold cmov.
  rewrite !cmov_word_spec by assumption. destruct b, r, a; reflexivity.
Qed.

Definition storage_words (s : storage) : list Z := [s0 s; s1 s; s2 s; s3 s; s4 s; s5 s; s6 s; s7 s].

Definition stored (s : storage) : Prop := Forall (fun d => Bnd d 0xFFFFFFFF) (storage_words s).

Lemma storage_cmov_spec r a (b : bool) : stored r -> stored a -> storage_cmov r a (c_bool b) = if b then a else r.
Proof.
  intros R A. unfold stored, storage_words in *. destruct_Forall R. destruct_Forall A. unfold storage_cmov.
  rewrite !cmov_word_spec by assumption. destruct b, r, a; reflexivity.
Qed.

(** The value of the eight words. *)
Definition storage_val (s : storage) : Z := leval 32 (storage_words s).

Lemma reduced_val a : reduced 0x3FFFFF a -> 0 <= val a < 2 ^ 256.
Proof. intros R. split; [eapply val_nonneg, R |]. pose proof (reduced_top _ _ R). destruct R. bnds. lia. Qed.

(** The word of storage that three limbs share. *)
Lemma join_middle V : Z.lor (Z.shiftr (slice V 104 26) 24) (u32 (Z.shiftl (slice V 130 26) 2)) = slice V 128 28.
Proof.
  change (slice V 128 28) with (slice V (104 + 24) 28). rewrite <- (join_words V 104 26 24 26 28) by lia. unfold u32. f_equal. change (104 + 26) with 130. change (26 - 24) with 2.
  pose proof (slice_range V 130 26). rewrite Z.shiftl_mul_pow2, !Z.mod_small by lia. reflexivity.
Qed.

Lemma to_storage_spec a : reduced 0x3FFFFF a -> stored (to_storage a) /\ storage_val (to_storage a) = val a.
Proof.
  intros R. pose proof (reduced_val a R) as V.
  assert (D : forall i, 0 <= i < 10 -> nth (Z.to_nat i) (limbs a) 0 = slice (val a) (26 * i) 26)
    by (intros; eapply limb_slice26; eauto; lia).
  pose proof (D 0 ltac:(lia)) as D0. pose proof (D 1 ltac:(lia)) as D1. pose proof (D 2 ltac:(lia)) as D2.
  pose proof (D 3 ltac:(lia)) as D3. pose proof (D 4 ltac:(lia)) as D4. pose proof (D 5 ltac:(lia)) as D5.
  pose proof (D 6 ltac:(lia)) as D6. pose proof (D 7 ltac:(lia)) as D7. pose proof (D 8 ltac:(lia)) as D8.
  pose proof (D 9 ltac:(lia)) as D9. clear D. unfold limbs in *.
  change (n0 a = slice (val a) 0 26) in D0. change (n1 a = slice (val a) 26 26) in D1. change (n2 a = slice (val a) 52 26) in D2.
  change (n3 a = slice (val a) 78 26) in D3. change (n4 a = slice (val a) 104 26) in D4. change (n5 a = slice (val a) 130 26) in D5.
  change (n6 a = slice (val a) 156 26) in D6. change (n7 a = slice (val a) 182 26) in D7. change (n8 a = slice (val a) 208 26) in D8.
  change (n9 a = slice (val a) 234 26) in D9.
  assert (E : storage_words (to_storage a) = slices 32 8 (val a) 0).
  { unfold storage_words, to_storage, u32. cbn [s0 s1 s2 s3 s4 s5 s6 s7 slices]. rewrite D0, D1, D2, D3, D4, D5, D6, D7, D8, D9.
    repeat apply (f_equal2 cons); [.. | reflexivity].
    - apply (join_words (val a) 0 26 0 26 32); lia.
    - apply (join_words (val a) 26 26 6 26 32); lia.
    - apply (join_words (val a) 52 26 12 26 32); lia.
    - apply (join_words (val a) 78 26 18 26 32); lia.
    - rewrite join_middle. apply (join_words (val a) 128 28 0 26 32); lia.
    - apply (join_words (val a) 156 26 4 26 32); lia.
    - apply (join_words (val a) 182 26 10 26 32); lia.
    - apply (join_words (val a) 208 26 16 26 32); lia. }
  split.
  - unfold stored. rewrite E, slices_map. apply Forall_map, Forall_forall. intros i _.
    pose proof (slice_range (val a) (32 * i) 32). unfold Bnd. lia.
  - unfold storage_val. rewrite E, leval_slices, Z.pow_0_r, Z.div_1_r by lia. apply Z.mod_small, V.
Qed.

Lemma stored_slices s : stored s -> storage_words s = slices 32 8 (storage_val s) 0 /\ 0 <= storage_val s < 2 ^ 256.
Proof.
  intros S. unfold stored in S. assert (F : Forall (fun d => 0 <= d < 2 ^ 32) (storage_words s))
    by (eapply Forall_impl; [| exact S]; unfold Bnd; intros; lia).
  pose proof (slices_leval 32 (storage_words s) 0 0 ltac:(lia) ltac:(lia) F ltac:(cbn; lia)) as E.
  rewrite Z.add_0_l, Z.pow_0_r, Z.mul_1_l in E. change (leval 32 (storage_words s)) with (storage_val s) in E.
  split; [symmetry; exact E |]. apply (leval_range 32 (storage_words s)); [lia | exact F].
Qed.

Lemma from_storage_spec s : stored s -> reduced 0x3FFFFF (from_storage s) /\ val (from_storage s) = storage_val s.
Proof.
  intros S. apply stored_slices in S as [E V]. set (W := storage_val s) in *. clearbody W.
  unfold storage_words in E. cbn [slices] in E. injection E as D0 D1 D2 D3 D4 D5 D6 D7.
  assert (L : limbs (from_storage s) = slices 26 10 W 0).
  { unfold limbs, from_storage, u32. cbn [n0 n1 n2 n3 n4 n5 n6 n7 n8 n9 slices]. rewrite D0, D1, D2, D3, D4, D5, D6, D7.
    change 0x3FFFFFF with (Z.ones 26). rewrite !Z.land_ones by lia. rewrite !mod_mod_le by lia.
    repeat apply (f_equal2 cons); [.. | reflexivity].
    - apply mod_slice; lia.
    - apply (join_words W 0 32 26 32 26); lia.
    - apply (join_words W 32 32 20 32 26); lia.
    - apply (join_words W 64 32 14 32 26); lia.
    - apply (join_words W 96 32 8 32 26); lia.
    - rewrite shiftr_slice by lia. apply mod_slice; lia.
    - apply (join_words W 128 32 28 32 26); lia.
    - apply (join_words W 160 32 22 32 26); lia.
    - apply (join_words W 192 32 16 32 26); lia.
    - rewrite shiftr_slice by lia. apply slice_wide; lia. }
  apply digits_reduced; [exact L | exact V].
Qed.

Lemma reduced_inj a b : reduced 0x3FFFFF a -> reduced 0x3FFFFF b -> val a = val b -> a = b.
Proof.
  intros A B E. rewrite !val_leval in E. apply leval_inj in E; [| lia | reflexivity | eapply reduced_digits; eauto; lia ..].
  destruct a, b; unfold limbs in E; cbn in E. congruence.
Qed.

Lemma storage_roundtrip a : normalized a -> from_storage (to_storage a) = a.
Proof.
  intros [R _]. destruct (to_storage_spec a R) as [S E]. destruct (from_storage_spec _ S) as [R' E'].
  apply reduced_inj; congruence.
Qed.
Lemma bytes_roundtrip a : normalized a -> set_b32 (get_b32 a) = (a, 1).
Proof.
  intros N. destruct (get_b32_spec26 a N) as (L & B & E). pose proof (set_b32_spec26 _ L B) as S.
  destruct (set_b32 (get_b32 a)) as [r o]. destruct S as (_ & V & -> & R). rewrite E in *.
  pose proof (normalized_range a N) as P. f_equal.
  - apply reduced_inj; [apply R; lia | apply N | exact V].
  - destruct (Z.ltb_spec (val a) p); [reflexivity | lia].
Qed.

(** ** The interface of the curve code *)

#[export] Instance ops : FieldOps fe := {
  fval := val; fe_normalize_var := normalize_var; fe_normalizes_to_zero_var := normalizes_to_zero_var;
  fe_negate := negate; fe_add := add; fe_mul_int := mul_int; fe_mul := mul; fe_sqr := sqr;
  fe_set_b32 := set_b32; fe_get_b32 := get_b32 }.

#[export] Instance laws : FieldLaws fe := {
  fmag := mag; fnorm := normalized;
  fmag_le := mag_weaken; fnorm_mag := normalized_mag; fnorm_range := normalized_range;
  fe_normalize_var_spec := normalize_var_spec; fe_normalizes_to_zero_var_spec := normalizes_to_zero_var_spec;
  fe_negate_spec := negate_spec26; fe_add_spec := add_spec26; fe_mul_int_spec := mul_int_spec;
  fe_mul_spec := mul_inner_spec; fe_sqr_spec := sqr_inner_spec;
  fe_set_b32_spec := set_b32_spec26; fe_get_b32_spec := get_b32_spec26 }.

(** ** Properties *)

(** C34: arithmetic on limbs is arithmetic modulo p, and the magnitudes the
    callers count are a type system that keeps it so: of operands within the
    magnitudes each operation asks for, no sum or product of the C code wraps
    around, the result has the magnitude declared for it, and it stands for the
    sum, opposite, multiple, product or square of what the operands stand for. *)
Theorem magnitudes_suffice m n k a b :
  mag m a -> mag n b -> 0 <= m -> 0 <= n -> 0 <= k ->
  (m + n <= 31 -> mag (m + n) (add a b) /\ val (add a b) = val a + val b) /\
  (m <= 30 -> mag (m + 1) (negate a m) /\ val (negate a m) mod p = (- val a) mod p) /\
  (m * k <= 31 -> mag (m * k) (mul_int a k) /\ val (mul_int a k) = k * val a) /\
  (m <= 31 -> mag 1 (normalize_weak a) /\ val (normalize_weak a) mod p = val a mod p) /\
  (m <= 8 -> mag 1 (sqr a) /\ val (sqr a) mod p = (val a * val a) mod p) /\
  (m <= 8 -> n <= 8 -> mag 1 (mul a b) /\ val (mul a b) mod p = (val a * val b) mod p).
Proof.
  intros A B M N K.
  split; [intros; apply add_spec26; auto |]. split; [intros; apply negate_spec26; auto |].
  split; [intros; apply mul_int_spec; auto |].
  split; [intros; apply normalize_weak_spec; eapply mag_weaken; eauto |].
  split; intros; [apply sqr_inner_spec | apply mul_inner_spec]; eapply mag_weaken; eauto.
Qed.

(** An element of magnitude 8 with every limb at its bound. *)
Definition extreme (m : Z) : fe :=
  let l := 2 * m * 0x3FFFFFF in Fe l l l l l l l l l (2 * m * 0x3FFFFF).

Lemma extreme_mag m : 0 <= m -> mag m (extreme m).
Proof. intros H. unfold extreme. constructor; cbn [n0 n1 n2 n3 n4 n5 n6 n7 n8 n9]; unfold Bnd; lia. Qed.

Lemma magnitudes_suffice_witness :
  mag 1 (mul (extreme 8) (extreme 8)) /\ val (mul (extreme 8) (extreme 8)) mod p = (val (extreme 8) * val (extreme 8)) mod p.
Proof.
  pose proof (magnitudes_suffice 8 8 1 (extreme 8) (extreme 8) (extreme_mag 8 ltac:(lia)) (extreme_mag 8 ltac:(lia))
    ltac:(lia) ltac:(lia) ltac:(lia)) as (_ & _ & _ & _ & _ & H).
  apply H; lia.
Defined.

(** An element of magnitude up to 31 has one normal form, the remainder of
    its value modulo p, which the constant-time and the variable-time
    normalization both reach; the zero tests that skip the normalization answer
    as if they had done it; and on normal forms zero, parity and order are read
    off the limbs. *)
Theorem normal_forms a b :
  mag 31 a -> normalized b ->
  (normalized (normalize a) /\ val (normalize a) = val a mod p) /\ normalize_var a = normalize a /\
  (normalize b = b) /\
  normalizes_to_zero a = c_bool (val a mod p =? 0) /\ normalizes_to_zero_var a = normalizes_to_zero a /\
  is_zero b = c_bool (val b =? 0) /\ is_odd b = val b mod 2 /\ cmp_var (normalize a) b = sign (val a mod p ?= val b).
Proof.
  intros A B. destruct (normalize_spec a A) as [N V]. destruct (normalize_var_spec a A) as [N' V'].
  destruct (normalize_spec b) as [NB VB]; [eapply mag_weaken; [apply normalized_mag, B | lia] |].
  rewrite cmp_var_spec, V by assumption.
  split; [auto |]. split; [apply reduced_inj; [apply N' | apply N | congruence] |].
  split; [apply reduced_inj; [apply NB | apply B | rewrite VB; apply Z.mod_small, normalized_range, B] |].
  rewrite normalizes_to_zero_var_spec, normalizes_to_zero_spec by exact A.
  rewrite is_zero_spec26, is_odd_spec by exact B. auto.
Qed.

(** p itself, as limbs, is a second representation of zero. *)
Definition raw_p : fe :=
  Fe 0x3FFFC2F 0x3FFFFBF 0x3FFFFFF 0x3FFFFFF 0x3FFFFFF 0x3FFFFFF 0x3FFFFFF 0x3FFFFFF 0x3FFFFFF 0x3FFFFF.

Lemma normal_forms_witness : normalize raw_p = clear /\ normalizes_to_zero_var raw_p = 1 /\ raw_p <> clear.
Proof.
  assert (A : mag 31 raw_p) by (constructor; split; discriminate).
  pose proof (normal_forms raw_p clear A (proj1 clear_spec)) as X.
  destruct X as (_ & _ & _ & H & H' & _).
  split; [vm_compute; reflexivity | split; [| discriminate]].
  rewrite H', H. vm_compute. reflexivity.
Defined.

(** The two outside forms of an element lose nothing: writing 32 bytes and
    reading them gives the element back, as does packing the 260 bits of limbs
    into eight words of storage; reading accepts exactly the byte strings below
    p, and conditional moves take one of their arguments. *)
Theorem outside_forms_roundtrip a b s f :
  normalized a -> normalized b -> length s = 32%nat -> bytes s ->
  set_b32 (get_b32 a) = (a, 1) /\ from_storage (to_storage a) = a /\ storage_val (to_storage a) = val a /\
  snd (set_b32 s) = c_bool (be_val s <? p) /\ (be_val s < p -> get_b32 (fst (set_b32 s)) = s) /\
  cmov a b (c_bool f) = (if f then b else a) /\
  storage_cmov (to_storage a) (to_storage b) (c_bool f) = to_storage (if f then b else a).
Proof.
  intros A B L S. pose proof (set_b32_spec26 s L S) as T. destruct (set_b32 s) as [r o]. destruct T as (_ & V & -> & R). cbn [fst snd].
  split; [apply bytes_roundtrip, A |]. split; [apply storage_roundtrip, A |].
  split; [apply to_storage_spec, A |]. split; [reflexivity |].
  split. { intros Ls. destruct (get_b32_spec26 r (R Ls)) as (L' & S' & E). apply be_val_inj; congruence. }
  split. { apply cmov_spec; eapply (mag_words 1); try lia; apply normalized_mag; assumption. }
  rewrite storage_cmov_spec by (apply to_storage_spec; first [apply A | apply B]). destruct f; reflexivity.
Qed.

Lemma outside_forms_roundtrip_witness :
  let s := repeat 0x5A 32 in get_b32 (fst (set_b32 s)) = s /\ from_storage (to_storage (fst (set_b32 s))) = fst (set_b32 s).
Proof.
  intros s.
  assert (N : normalized (fst (set_b32 s))) by (split; [constructor; split; vm_compute; discriminate | reflexivity]).
  assert (B : bytes s) by (unfold s, bytes; cbn [repeat]; repeat constructor; discriminate).
  pose proof (outside_forms_roundtrip _ _ s true N N eq_refl B) as X.
  generalize dependent (fst (set_b32 s)). intros r N X. destruct X as (_ & H & _ & _ & H' & _).
  assert (Ls : be_val s < p) by (vm_compute; reflexivity). split; [exact (H' Ls) | exact H].
Defined.

(** At magnitude 32, which secp256k1_fe_verify still accepts, the first pass
    wraps around and the normal form is wrong. *)
Example magnitude_32_wraps : mag 32 (extreme 32) /\ val (normalize (extreme 32)) <> val (extreme 32) mod p.
Proof. split; [apply extreme_mag; lia | vm_compute; discriminate]. Qed.

End F26.
