(* ===== verification/ScalarSpec.v ===== *)
(** What the signature code relies on from a representation of the scalars
    modulo the group order (libraries/secp256k1-zkp/src/scalar.h): the
    operations, the value of a scalar, and the laws.  scalar.h selects one of
    two representations at build time; Scalar8x32 and Scalar4x64 discharge
    this interface, and ScalarInverse is proved against it. *)

From Stdlib Require Import ZArith Lia.
Local Open Scope Z_scope.

(** The order of the group (secp256k1_scalar_order_get_num). *)
Definition order : Z := 0xFFFFFFFFFFFFFFFFFFFFFFFFFFFFFFFEBAAEDCE6AF48A03BBFD25E8CD0364141.

Class ScalarOps (S : Type) := {
  sval : S -> Z;
  scalar_add : S -> S -> S * Z;
  scalar_mul : S -> S -> S;
  scalar_sqr : S -> S;
  scalar_negate : S -> S;
  scalar_is_zero : S -> Z }.

(** [sok] is the representation invariant: limbs in range, value reduced. *)
Class ScalarLaws (S : Type) `{ScalarOps S} := {
  sok : S -> Prop;
  sok_range : forall a, sok a -> 0 <= sval a < order;
  scalar_add_spec : forall a b, sok a -> sok b ->
    let '(r, overflow) := scalar_add a b in
    sok r /\ sval r = (sval a + sval b) mod order /\
    overflow = (if sval a + sval b <? order then 0 else 1);
  scalar_mul_spec : forall a b, sok a -> sok b ->
    sok (scalar_mul a b) /\ sval (scalar_mul a b) = (sval a * sval b) mod order;
  scalar_sqr_spec : forall a, sok a ->
    sok (scalar_sqr a) /\ sval (scalar_sqr a) = (sval a * sval a) mod order;
  scalar_negate_spec : forall a, sok a ->
    sok (scalar_negate a) /\ sval (scalar_negate a) = (- sval a) mod order;
  scalar_is_zero_spec : forall a, sok a ->
    scalar_is_zero a = (if sval a =? 0 then 1 else 0) }.
