(* ===== verification/ScalarInverse.v ===== *)
(** Inversion of a scalar by an addition chain (secp256k1_scalar_inverse of
    libraries/secp256k1-zkp/src/scalar_impl.h), for any representation that
    satisfies the interface of ScalarSpec. *)

From Stdlib Require Import ZArith Lia.
From S2P Require Import Prelude ScalarSpec.
Local Open Scope Z_scope.

Section Inverse.
Context {S : Type} `{ScalarLaws S}.

(** for (i = 0; i < n; i++) secp256k1_scalar_sqr(t, t); *)
Fixpoint sqr_times (n : nat) (t : S) : S :=
  match n with O => t | Datatypes.S n => sqr_times n (scalar_sqr t) end.

(** The accumulation of the result from x^(2^127 - 1). *)
Definition inverse_tail (x x2 x3 x4 x6 x8 t : S) : S :=
  let t := sqr_times 2 t in
  let t := scalar_mul t x in
  let t := sqr_times 4 t in
  let t := scalar_mul t x3 in
  let t := sqr_times 2 t in
  let t := scalar_mul t x in
  let t := sqr_times 2 t in
  let t := scalar_mul t x in
  let t := sqr_times 2 t in
  let t := scalar_mul t x in
  let t := sqr_times 4 t in
  let t := scalar_mul t x3 in
  let t := sqr_times 3 t in
  let t := scalar_mul t x2 in
  let t := sqr_times 4 t in
  let t := scalar_mul t x3 in
  let t := sqr_times 5 t in
  let t := scalar_mul t x3 in
  let t := sqr_times 4 t in
  let t := scalar_mul t x2 in
  let t := sqr_times 2 t in
  let t := scalar_mul t x in
  let t := sqr_times 2 t in
  let t := scalar_mul t x in
  let t := sqr_times 5 t in
  let t := scalar_mul t x4 in
  let t := sqr_times 2 t in
  let t := scalar_mul t x in
  let t := sqr_times 3 t in
  let t := scalar_mul t x in
  let t := sqr_times 4 t in
  let t := scalar_mul t x in
  let t := sqr_times 2 t in
  let t := scalar_mul t x in
  let t := sqr_times 10 t in
  let t := scalar_mul t x3 in
  let t := sqr_times 4 t in
  let t := scalar_mul t x3 in
  let t := sqr_times 9 t in
  let t := scalar_mul t x8 in
  let t := sqr_times 2 t in
  let t := scalar_mul t x in
  let t := sqr_times 3 t in
  let t := scalar_mul t x in
  let t := sqr_times 3 t in
  let t := scalar_mul t x in
  let t := sqr_times 5 t in
  let t := scalar_mul t x4 in
  let t := sqr_times 2 t in
  let t := scalar_mul t x in
  let t := sqr_times 5 t in
  let t := scalar_mul t x2 in
  let t := sqr_times 4 t in
  let t := scalar_mul t x2 in
  let t := sqr_times 2 t in
  let t := scalar_mul t x in
  let t := sqr_times 8 t in
  let t := scalar_mul t x2 in
  let t := sqr_times 3 t in
  let t := scalar_mul t x2 in
  let t := sqr_times 3 t in
  let t := scalar_mul t x in
  let t := sqr_times 6 t in
  let t := scalar_mul t x in
  let t := sqr_times 8 t in
  let r := scalar_mul t x6 in
  r.

(** First the powers x^(2^N - 1) for some N, then the accumulation. *)
Definition scalar_inverse (x : S) : S :=
  let x2 := scalar_sqr x in
  let x2 := scalar_mul x2 x in
  let x3 := scalar_sqr x2 in
  let x3 := scalar_mul x3 x in
  let x4 := scalar_sqr x3 in
  let x4 := scalar_mul x4 x in
  let x6 := scalar_sqr x4 in
  let x6 := scalar_sqr x6 in
  let x6 := scalar_mul x6 x2 in
  let x7 := scalar_sqr x6 in
  let x7 := scalar_mul x7 x in
  let x8 := scalar_sqr x7 in
  let x8 := scalar_mul x8 x in
  let x15 := scalar_sqr x8 in
  let x15 := sqr_times 6 x15 in
  let x15 := scalar_mul x15 x7 in
  let x30 := scalar_sqr x15 in
  let x30 := sqr_times 14 x30 in
  let x30 := scalar_mul x30 x15 in
  let x60 := scalar_sqr x30 in
  let x60 := sqr_times 29 x60 in
  let x60 := scalar_mul x60 x30 in
  let x120 := scalar_sqr x60 in
  let x120 := sqr_times 59 x120 in
  let x120 := scalar_mul x120 x60 in
  let x127 := scalar_sqr x120 in
  let x127 := sqr_times 6 x127 in
  let x127 := scalar_mul x127 x7 in
  inverse_tail x x2 x3 x4 x6 x8 x127.

(** [pw x k t]: t is the k-th power of x. *)
Definition pw (x : S) (k : Z) (t : S) : Prop :=
  sok t /\ 0 <= k /\ sval t = sval x ^ k mod order.

Lemma pw_1 x : sok x -> pw x 1 x.
Proof.
  intros Hx. pose proof (sok_range x Hx). repeat split; [assumption | lia |].
  rewrite Z.pow_1_r, Z.mod_small; lia.
Qed.

Lemma pw_mul x k l s t : pw x k s -> pw x l t -> pw x (k + l) (scalar_mul s t).
Proof.
  intros (Hs & Hk & Es) (Ht & Hl & Et). destruct (scalar_mul_spec s t Hs Ht) as [Hm Em].
  repeat split; [assumption | lia |].
  rewrite Em, Es, Et, <- Z.mul_mod, <- Z.pow_add_r by (assumption || unfold order; lia). reflexivity.
Qed.

Lemma pw_sqr x k s : pw x k s -> pw x (2 * k) (scalar_sqr s).
Proof.
  intros (Hs & Hk & Es). destruct (scalar_sqr_spec s Hs) as [Hm Em].
  repeat split; [assumption | lia |].
  rewrite Em, Es, <- Z.mul_mod, <- Z.pow_add_r by (assumption || unfold order; lia).
  do 2 f_equal; lia.
Qed.

Lemma pw_sqr_times x n : forall k s, pw x k s -> pw x (2 ^ Z.of_nat n * k) (sqr_times n s).
Proof.
  induction n as [| n IH]; intros k s Hs; cbn [sqr_times].
  - now rewrite Z.pow_0_r, Z.mul_1_l.
  - replace (2 ^ Z.of_nat (Datatypes.S n) * k) with (2 ^ Z.of_nat n * (2 * k))
      by (rewrite Nat2Z.inj_succ, Z.pow_succ_r by lia; ring).
    apply IH, pw_sqr, Hs.
Qed.

Ltac pw_step x :=
  sym_let;
  match goal with
  | E : ?y = scalar_mul ?s ?t, Hs : pw x ?k ?s, Ht : pw x ?l ?t |- _ =>
      let Hy := fresh "P" y in
      let e := eval vm_compute in (k + l) in
      assert (Hy : pw x e y) by (rewrite E; exact (pw_mul x k l s t Hs Ht)); clear E
  | E : ?y = scalar_sqr ?s, Hs : pw x ?k ?s |- _ =>
      let Hy := fresh "P" y in
      let e := eval vm_compute in (2 * k) in
      assert (Hy : pw x e y) by (rewrite E; exact (pw_sqr x k s Hs)); clear E
  | E : ?y = sqr_times ?n ?s, Hs : pw x ?k ?s |- _ =>
      let Hy := fresh "P" y in
      let e := eval vm_compute in (2 ^ Z.of_nat n * k) in
      assert (Hy : pw x e y) by (rewrite E; exact (pw_sqr_times x n k s Hs)); clear E
  | E : ?y = ?s, Hs : pw x ?k ?s |- _ => subst y
  end.

Lemma inverse_tail_power x x2 x3 x4 x6 x8 t :
  pw x 1 x -> pw x (2 ^ 2 - 1) x2 -> pw x (2 ^ 3 - 1) x3 -> pw x (2 ^ 4 - 1) x4 ->
  pw x (2 ^ 6 - 1) x6 -> pw x (2 ^ 8 - 1) x8 -> pw x (2 ^ 127 - 1) t ->
  pw x (order - 2) (inverse_tail x x2 x3 x4 x6 x8 t).
Proof.
  intros Px P2 P3 P4 P6 P8 Pt.
  sym_open (inverse_tail x x2 x3 x4 x6 x8 t) inverse_tail.
  repeat pw_step x. sym_close.
  match goal with Hy : pw _ ?k ?y |- pw _ _ ?y => exact Hy end.
Qed.

(** The addition chain computes the power [order - 2]. *)
Lemma inverse_power x : sok x -> pw x (order - 2) (scalar_inverse x).
Proof.
  intros Hx. pose proof (pw_1 x Hx) as Px.
  sym_open (scalar_inverse x) scalar_inverse.
  repeat pw_step x. sym_close.
  apply inverse_tail_power; assumption.
Qed.
End Inverse.
