(* ===== verification/Scalar8x32.v ===== *)
(** Scalars modulo the group order, eight 32-bit limbs
    (libraries/secp256k1-zkp/src/scalar_8x32.h, scalar_8x32_impl.h). *)

From Stdlib Require Import ZArith Lia List Bool.
From S2P Require Import Prelude Accumulator ScalarSpec.
Import ListNotations.
Local Open Scope Z_scope.

Module S8.

(** Limbs of the group order. *)
Definition N_0 : Z := 0xD0364141.
Definition N_1 : Z := 0xBFD25E8C.
Definition N_2 : Z := 0xAF48A03B.
Definition N_3 : Z := 0xBAAEDCE6.
Definition N_4 : Z := 0xFFFFFFFE.
Definition N_5 : Z := 0xFFFFFFFF.
Definition N_6 : Z := 0xFFFFFFFF.
Definition N_7 : Z := 0xFFFFFFFF.

(** Limbs of 2^256 minus the order ([~x] is the 32-bit complement). *)
Definition not32 (x : Z) : Z := u32 (Z.lnot x).
Definition N_C_0 : Z := u32 (not32 N_0 + 1).
Definition N_C_1 : Z := not32 N_1.
Definition N_C_2 : Z := not32 N_2.
Definition N_C_3 : Z := not32 N_3.
Definition N_C_4 : Z := 1.

(** Limbs of half the order. *)
Definition N_H_0 : Z := 0x681B20A0.
Definition N_H_1 : Z := 0xDFE92F46.
Definition N_H_2 : Z := 0x57A4501D.
Definition N_H_3 : Z := 0x5D576E73.
Definition N_H_4 : Z := 0xFFFFFFFF.
Definition N_H_5 : Z := 0xFFFFFFFF.
Definition N_H_6 : Z := 0xFFFFFFFF.
Definition N_H_7 : Z := 0x7FFFFFFF.

(** secp256k1_scalar_t: uint32_t d[8]. *)
Record scalar := Scalar { d0 : Z; d1 : Z; d2 : Z; d3 : Z; d4 : Z; d5 : Z; d6 : Z; d7 : Z }.

(** [a->d[i]]; an index out of range is undefined behaviour in C and is never
    reached under the VERIFY_CHECKs. *)
Definition limb (a : scalar) (i : Z) : Z :=
  nth (Z.to_nat i) [d0 a; d1 a; d2 a; d3 a; d4 a; d5 a; d6 a; d7 a] 0.

(** A byte of an [unsigned char] array. *)
Definition at8 (b : list Z) (i : nat) : Z := nth i b 0.

Definition clear : scalar := Scalar 0 0 0 0 0 0 0 0.

Definition set_int (v : Z) : scalar := Scalar (u32 v) 0 0 0 0 0 0 0.

Definition get_bits (a : scalar) (offset count : Z) : Z :=
  Z.land (Z.shiftr (limb a (Z.shiftr offset 5)) (Z.land offset 0x1F)) (u32 (Z.shiftl 1 count - 1)).

Definition get_bits_var (a : scalar) (offset count : Z) : Z :=
  if Z.shiftr (offset + count - 1) 5 =? Z.shiftr offset 5 then get_bits a offset count
  else
    Z.land (Z.lor (Z.shiftr (limb a (Z.shiftr offset 5)) (Z.land offset 0x1F))
                  (u32 (Z.shiftl (limb a (Z.shiftr offset 5 + 1)) (32 - Z.land offset 0x1F))))
           (u32 (u32 (Z.shiftl 1 count) - 1)).

Definition check_overflow (a : scalar) : Z :=
  let yes := 0 in
  let no := 0 in
  let no := Z.lor no (c_bool (d7 a <? N_7)) in
  let no := Z.lor no (c_bool (d6 a <? N_6)) in
  let no := Z.lor no (c_bool (d5 a <? N_5)) in
  let no := Z.lor no (c_bool (d4 a <? N_4)) in
  let yes := Z.lor yes (Z.land (c_bool (d4 a >? N_4)) (Z.lnot no)) in
  let no := Z.lor no (Z.land (c_bool (d3 a <? N_3)) (Z.lnot yes)) in
  let yes := Z.lor yes (Z.land (c_bool (d3 a >? N_3)) (Z.lnot no)) in
  let no := Z.lor no (Z.land (c_bool (d2 a <? N_2)) (Z.lnot yes)) in
  let yes := Z.lor yes (Z.land (c_bool (d2 a >? N_2)) (Z.lnot no)) in
  let no := Z.lor no (Z.land (c_bool (d1 a <? N_1)) (Z.lnot yes)) in
  let yes := Z.lor yes (Z.land (c_bool (d1 a >? N_1)) (Z.lnot no)) in
  let yes := Z.lor yes (Z.land (c_bool (d0 a >=? N_0)) (Z.lnot no)) in
  yes.

Definition reduce (r : scalar) (overflow : Z) : scalar * Z :=
  let t := u64 (d0 r + u32 (overflow * N_C_0)) in
  let r0 := Z.land t 0xFFFFFFFF in let t := Z.shiftr t 32 in
  let t := u64 (t + (d1 r + u32 (overflow * N_C_1))) in
  let r1 := Z.land t 0xFFFFFFFF in let t := Z.shiftr t 32 in
  let t := u64 (t + (d2 r + u32 (overflow * N_C_2))) in
  let r2 := Z.land t 0xFFFFFFFF in let t := Z.shiftr t 32 in
  let t := u64 (t + (d3 r + u32 (overflow * N_C_3))) in
  let r3 := Z.land t 0xFFFFFFFF in let t := Z.shiftr t 32 in
  let t := u64 (t + (d4 r + u32 (overflow * N_C_4))) in
  let r4 := Z.land t 0xFFFFFFFF in let t := Z.shiftr t 32 in
  let t := u64 (t + d5 r) in
  let r5 := Z.land t 0xFFFFFFFF in let t := Z.shiftr t 32 in
  let t := u64 (t + d6 r) in
  let r6 := Z.land t 0xFFFFFFFF in let t := Z.shiftr t 32 in
  let t := u64 (t + d7 r) in
  let r7 := Z.land t 0xFFFFFFFF in
  (Scalar r0 r1 r2 r3 r4 r5 r6 r7, overflow).

Definition add (a b : scalar) : scalar * Z :=
  let t := u64 (d0 a + d0 b) in
  let r0 := Z.land t 0xFFFFFFFF in let t := Z.shiftr t 32 in
  let t := u64 (t + (d1 a + d1 b)) in
  let r1 := Z.land t 0xFFFFFFFF in let t := Z.shiftr t 32 in
  let t := u64 (t + (d2 a + d2 b)) in
  let r2 := Z.land t 0xFFFFFFFF in let t := Z.shiftr t 32 in
  let t := u64 (t + (d3 a + d3 b)) in
  let r3 := Z.land t 0xFFFFFFFF in let t := Z.shiftr t 32 in
  let t := u64 (t + (d4 a + d4 b)) in
  let r4 := Z.land t 0xFFFFFFFF in let t := Z.shiftr t 32 in
  let t := u64 (t + (d5 a + d5 b)) in
  let r5 := Z.land t 0xFFFFFFFF in let t := Z.shiftr t 32 in
  let t := u64 (t + (d6 a + d6 b)) in
  let r6 := Z.land t 0xFFFFFFFF in let t := Z.shiftr t 32 in
  let t := u64 (t + (d7 a + d7 b)) in
  let r7 := Z.land t 0xFFFFFFFF in let t := Z.shiftr t 32 in
  let r := Scalar r0 r1 r2 r3 r4 r5 r6 r7 in
  let overflow := t + check_overflow r in
  let '(r, _) := reduce r overflow in
  (r, overflow).

Definition add_bit (r : scalar) (bit : Z) : scalar :=
  let t := u64 (d0 r + u32 (Z.shiftl (c_bool (Z.shiftr bit 5 =? 0)) (Z.land bit 0x1F))) in
  let r0 := Z.land t 0xFFFFFFFF in let t := Z.shiftr t 32 in
  let t := u64 (t + (d1 r + u32 (Z.shiftl (c_bool (Z.shiftr bit 5 =? 1)) (Z.land bit 0x1F)))) in
  let r1 := Z.land t 0xFFFFFFFF in let t := Z.shiftr t 32 in
  let t := u64 (t + (d2 r + u32 (Z.shiftl (c_bool (Z.shiftr bit 5 =? 2)) (Z.land bit 0x1F)))) in
  let r2 := Z.land t 0xFFFFFFFF in let t := Z.shiftr t 32 in
  let t := u64 (t + (d3 r + u32 (Z.shiftl (c_bool (Z.shiftr bit 5 =? 3)) (Z.land bit 0x1F)))) in
  let r3 := Z.land t 0xFFFFFFFF in let t := Z.shiftr t 32 in
  let t := u64 (t + (d4 r + u32 (Z.shiftl (c_bool (Z.shiftr bit 5 =? 4)) (Z.land bit 0x1F)))) in
  let r4 := Z.land t 0xFFFFFFFF in let t := Z.shiftr t 32 in
  let t := u64 (t + (d5 r + u32 (Z.shiftl (c_bool (Z.shiftr bit 5 =? 5)) (Z.land bit 0x1F)))) in
  let r5 := Z.land t 0xFFFFFFFF in let t := Z.shiftr t 32 in
  let t := u64 (t + (d6 r + u32 (Z.shiftl (c_bool (Z.shiftr bit 5 =? 6)) (Z.land bit 0x1F)))) in
  let r6 := Z.land t 0xFFFFFFFF in let t := Z.shiftr t 32 in
  let t := u64 (t + (d7 r + u32 (Z.shiftl (c_bool (Z.shiftr bit 5 =? 7)) (Z.land bit 0x1F)))) in
  let r7 := Z.land t 0xFFFFFFFF in
  Scalar r0 r1 r2 r3 r4 r5 r6 r7.

Definition set_b32 (b32 : list Z) : scalar * Z :=
  let r0 := Z.lor (Z.lor (Z.lor (at8 b32 31) (u32 (Z.shiftl (at8 b32 30) 8)))
                      (u32 (Z.shiftl (at8 b32 29) 16))) (u32 (Z.shiftl (at8 b32 28) 24)) in
  let r1 := Z.lor (Z.lor (Z.lor (at8 b32 27) (u32 (Z.shiftl (at8 b32 26) 8)))
                      (u32 (Z.shiftl (at8 b32 25) 16))) (u32 (Z.shiftl (at8 b32 24) 24)) in
  let r2 := Z.lor (Z.lor (Z.lor (at8 b32 23) (u32 (Z.shiftl (at8 b32 22) 8)))
                      (u32 (Z.shiftl (at8 b32 21) 16))) (u32 (Z.shiftl (at8 b32 20) 24)) in
  let r3 := Z.lor (Z.lor (Z.lor (at8 b32 19) (u32 (Z.shiftl (at8 b32 18) 8)))
                      (u32 (Z.shiftl (at8 b32 17) 16))) (u32 (Z.shiftl (at8 b32 16) 24)) in
  let r4 := Z.lor (Z.lor (Z.lor (at8 b32 15) (u32 (Z.shiftl (at8 b32 14) 8)))
                      (u32 (Z.shiftl (at8 b32 13) 16))) (u32 (Z.shiftl (at8 b32 12) 24)) in
  let r5 := Z.lor (Z.lor (Z.lor (at8 b32 11) (u32 (Z.shiftl (at8 b32 10) 8)))
                      (u32 (Z.shiftl (at8 b32 9) 16))) (u32 (Z.shiftl (at8 b32 8) 24)) in
  let r6 := Z.lor (Z.lor (Z.lor (at8 b32 7) (u32 (Z.shiftl (at8 b32 6) 8)))
                      (u32 (Z.shiftl (at8 b32 5) 16))) (u32 (Z.shiftl (at8 b32 4) 24)) in
  let r7 := Z.lor (Z.lor (Z.lor (at8 b32 3) (u32 (Z.shiftl (at8 b32 2) 8)))
                      (u32 (Z.shiftl (at8 b32 1) 16))) (u32 (Z.shiftl (at8 b32 0) 24)) in
  let r := Scalar r0 r1 r2 r3 r4 r5 r6 r7 in
  reduce r (check_overflow r).

Definition get_b32 (a : scalar) : list Z :=
  [u8 (Z.shiftr (d7 a) 24); u8 (Z.shiftr (d7 a) 16); u8 (Z.shiftr (d7 a) 8); u8 (d7 a);
   u8 (Z.shiftr (d6 a) 24); u8 (Z.shiftr (d6 a) 16); u8 (Z.shiftr (d6 a) 8); u8 (d6 a);
   u8 (Z.shiftr (d5 a) 24); u8 (Z.shiftr (d5 a) 16); u8 (Z.shiftr (d5 a) 8); u8 (d5 a);
   u8 (Z.shiftr (d4 a) 24); u8 (Z.shiftr (d4 a) 16); u8 (Z.shiftr (d4 a) 8); u8 (d4 a);
   u8 (Z.shiftr (d3 a) 24); u8 (Z.shiftr (d3 a) 16); u8 (Z.shiftr (d3 a) 8); u8 (d3 a);
   u8 (Z.shiftr (d2 a) 24); u8 (Z.shiftr (d2 a) 16); u8 (Z.shiftr (d2 a) 8); u8 (d2 a);
   u8 (Z.shiftr (d1 a) 24); u8 (Z.shiftr (d1 a) 16); u8 (Z.shiftr (d1 a) 8); u8 (d1 a);
   u8 (Z.shiftr (d0 a) 24); u8 (Z.shiftr (d0 a) 16); u8 (Z.shiftr (d0 a) 8); u8 (d0 a)].

Definition is_zero (a : scalar) : Z :=
  c_bool (Z.lor (Z.lor (Z.lor (Z.lor (Z.lor (Z.lor (Z.lor (d0 a) (d1 a)) (d2 a)) (d3 a)) (d4 a)) (d5 a)) (d6 a)) (d7 a) =? 0).

Definition negate (a : scalar) : scalar :=
  let nonzero := u32 (0xFFFFFFFF * c_bool (is_zero a =? 0)) in
  let t := u64 (not32 (d0 a) + N_0 + 1) in
  let r0 := Z.land t nonzero in let t := Z.shiftr t 32 in
  let t := u64 (t + (not32 (d1 a) + N_1)) in
  let r1 := Z.land t nonzero in let t := Z.shiftr t 32 in
  let t := u64 (t + (not32 (d2 a) + N_2)) in
  let r2 := Z.land t nonzero in let t := Z.shiftr t 32 in
  let t := u64 (t + (not32 (d3 a) + N_3)) in
  let r3 := Z.land t nonzero in let t := Z.shiftr t 32 in
  let t := u64 (t + (not32 (d4 a) + N_4)) in
  let r4 := Z.land t nonzero in let t := Z.shiftr t 32 in
  let t := u64 (t + (not32 (d5 a) + N_5)) in
  let r5 := Z.land t nonzero in let t := Z.shiftr t 32 in
  let t := u64 (t + (not32 (d6 a) + N_6)) in
  let r6 := Z.land t nonzero in let t := Z.shiftr t 32 in
  let t := u64 (t + (not32 (d7 a) + N_7)) in
  let r7 := Z.land t nonzero in
  Scalar r0 r1 r2 r3 r4 r5 r6 r7.

Definition is_one (a : scalar) : Z :=
  c_bool (Z.lor (Z.lor (Z.lor (Z.lor (Z.lor (Z.lor (Z.lor (Z.lxor (d0 a) 1) (d1 a)) (d2 a)) (d3 a)) (d4 a)) (d5 a)) (d6 a)) (d7 a) =? 0).

Definition is_high (a : scalar) : Z :=
  let yes := 0 in
  let no := 0 in
  let no := Z.lor no (c_bool (d7 a <? N_H_7)) in
  let yes := Z.lor yes (Z.land (c_bool (d7 a >? N_H_7)) (Z.lnot no)) in
  let no := Z.lor no (Z.land (c_bool (d6 a <? N_H_6)) (Z.lnot yes)) in
  let no := Z.lor no (Z.land (c_bool (d5 a <? N_H_5)) (Z.lnot yes)) in
  let no := Z.lor no (Z.land (c_bool (d4 a <? N_H_4)) (Z.lnot yes)) in
  let no := Z.lor no (Z.land (c_bool (d3 a <? N_H_3)) (Z.lnot yes)) in
  let yes := Z.lor yes (Z.land (c_bool (d3 a >? N_H_3)) (Z.lnot no)) in
  let no := Z.lor no (Z.land (c_bool (d2 a <? N_H_2)) (Z.lnot yes)) in
  let yes := Z.lor yes (Z.land (c_bool (d2 a >? N_H_2)) (Z.lnot no)) in
  let no := Z.lor no (Z.land (c_bool (d1 a <? N_H_1)) (Z.lnot yes)) in
  let yes := Z.lor yes (Z.land (c_bool (d1 a >? N_H_1)) (Z.lnot no)) in
  let yes := Z.lor yes (Z.land (c_bool (d0 a >? N_H_0)) (Z.lnot no)) in
  yes.

(** [mask] is computed in 32 bits: 0 for an odd scalar, 2^32-1 for an even one. *)
Definition wnaf_force_odd (r : scalar) : scalar * Z :=
  let mask := u32 (Z.land (d0 r) 1 - 1) in
  let nonzero := u32 (0xFFFFFFFF * c_bool (is_zero r =? 0)) in
  let t := u64 (Z.lxor (d0 r) mask + Z.land (u32 (N_0 + 1)) mask) in
  let r0 := Z.land t nonzero in let t := Z.shiftr t 32 in
  let t := u64 (t + (Z.lxor (d1 r) mask + Z.land N_1 mask)) in
  let r1 := Z.land t nonzero in let t := Z.shiftr t 32 in
  let t := u64 (t + (Z.lxor (d2 r) mask + Z.land N_2 mask)) in
  let r2 := Z.land t nonzero in let t := Z.shiftr t 32 in
  let t := u64 (t + (Z.lxor (d3 r) mask + Z.land N_3 mask)) in
  let r3 := Z.land t nonzero in let t := Z.shiftr t 32 in
  let t := u64 (t + (Z.lxor (d4 r) mask + Z.land N_4 mask)) in
  let r4 := Z.land t nonzero in let t := Z.shiftr t 32 in
  let t := u64 (t + (Z.lxor (d5 r) mask + Z.land N_5 mask)) in
  let r5 := Z.land t nonzero in let t := Z.shiftr t 32 in
  let t := u64 (t + (Z.lxor (d6 r) mask + Z.land N_6 mask)) in
  let r6 := Z.land t nonzero in let t := Z.shiftr t 32 in
  let t := u64 (t + (Z.lxor (d7 r) mask + Z.land N_7 mask)) in
  let r7 := Z.land t nonzero in
  (Scalar r0 r1 r2 r3 r4 r5 r6 r7, 2 * c_bool (mask =? 0) - 1).

(** The accumulator macros at word size 32. *)
Definition muladd := Accumulator.muladd 32 32.
Definition muladd_fast := Accumulator.muladd_fast 32.
Definition muladd2 := Accumulator.muladd2 32 32.
Definition sumadd := Accumulator.sumadd 32 32.
Definition sumadd_fast := Accumulator.sumadd_fast 32.

(** uint32_t l[16]. *)
Record wide := Wide {
  w0 : Z; w1 : Z; w2 : Z; w3 : Z; w4 : Z; w5 : Z; w6 : Z; w7 : Z;
  w8 : Z; w9 : Z; w10 : Z; w11 : Z; w12 : Z; w13 : Z; w14 : Z; w15 : Z }.

Definition wlimb (l : wide) (i : Z) : Z :=
  nth (Z.to_nat i) [w0 l; w1 l; w2 l; w3 l; w4 l; w5 l; w6 l; w7 l;
                    w8 l; w9 l; w10 l; w11 l; w12 l; w13 l; w14 l; w15 l] 0.

(** m[0..12] = l[0..7] + n[0..7] * SECP256K1_N_C: 512 bits into 385. *)
Definition reduce_512_m (l : wide) : list Z :=
  let n0 := w8 l in let n1 := w9 l in let n2 := w10 l in let n3 := w11 l in
  let n4 := w12 l in let n5 := w13 l in let n6 := w14 l in let n7 := w15 l in
  let c := Acc (w0 l) 0 0 in
  let c := muladd_fast n0 N_C_0 c in
  let '(m0, c) := extract_fast c in
  let c := sumadd_fast (w1 l) c in
  let c := muladd n1 N_C_0 c in
  let c := muladd n0 N_C_1 c in
  let '(m1, c) := extract c in
  let c := sumadd (w2 l) c in
  let c := muladd n2 N_C_0 c in
  let c := muladd n1 N_C_1 c in
  let c := muladd n0 N_C_2 c in
  let '(m2, c) := extract c in
  let c := sumadd (w3 l) c in
  let c := muladd n3 N_C_0 c in
  let c := muladd n2 N_C_1 c in
  let c := muladd n1 N_C_2 c in
  let c := muladd n0 N_C_3 c in
  let '(m3, c) := extract c in
  let c := sumadd (w4 l) c in
  let c := muladd n4 N_C_0 c in
  let c := muladd n3 N_C_1 c in
  let c := muladd n2 N_C_2 c in
  let c := muladd n1 N_C_3 c in
  let c := sumadd n0 c in
  let '(m4, c) := extract c in
  let c := sumadd (w5 l) c in
  let c := muladd n5 N_C_0 c in
  let c := muladd n4 N_C_1 c in
  let c := muladd n3 N_C_2 c in
  let c := muladd n2 N_C_3 c in
  let c := sumadd n1 c in
  let '(m5, c) := extract c in
  let c := sumadd (w6 l) c in
  let c := muladd n6 N_C_0 c in
  let c := muladd n5 N_C_1 c in
  let c := muladd n4 N_C_2 c in
  let c := muladd n3 N_C_3 c in
  let c := sumadd n2 c in
  let '(m6, c) := extract c in
  let c := sumadd (w7 l) c in
  let c := muladd n7 N_C_0 c in
  let c := muladd n6 N_C_1 c in
  let c := muladd n5 N_C_2 c in
  let c := muladd n4 N_C_3 c in
  let c := sumadd n3 c in
  let '(m7, c) := extract c in
  let c := muladd n7 N_C_1 c in
  let c := muladd n6 N_C_2 c in
  let c := muladd n5 N_C_3 c in
  let c := sumadd n4 c in
  let '(m8, c) := extract c in
  let c := muladd n7 N_C_2 c in
  let c := muladd n6 N_C_3 c in
  let c := sumadd n5 c in
  let '(m9, c) := extract c in
  let c := muladd n7 N_C_3 c in
  let c := sumadd n6 c in
  let '(m10, c) := extract c in
  let c := sumadd_fast n7 c in
  let '(m11, c) := extract_fast c in
  let m12 := c0 c in
  [m0; m1; m2; m3; m4; m5; m6; m7; m8; m9; m10; m11; m12].

(** p[0..8] = m[0..7] + m[8..12] * SECP256K1_N_C: 385 bits into 258. *)
Definition reduce_512_p (m0 m1 m2 m3 m4 m5 m6 m7 m8 m9 m10 m11 m12 : Z) : list Z :=
  let c := Acc m0 0 0 in
  let c := muladd_fast m8 N_C_0 c in
  let '(p0, c) := extract_fast c in
  let c := sumadd_fast m1 c in
  let c := muladd m9 N_C_0 c in
  let c := muladd m8 N_C_1 c in
  let '(p1, c) := extract c in
  let c := sumadd m2 c in
  let c := muladd m10 N_C_0 c in
  let c := muladd m9 N_C_1 c in
  let c := muladd m8 N_C_2 c in
  let '(p2, c) := extract c in
  let c := sumadd m3 c in
  let c := muladd m11 N_C_0 c in
  let c := muladd m10 N_C_1 c in
  let c := muladd m9 N_C_2 c in
  let c := muladd m8 N_C_3 c in
  let '(p3, c) := extract c in
  let c := sumadd m4 c in
  let c := muladd m12 N_C_0 c in
  let c := muladd m11 N_C_1 c in
  let c := muladd m10 N_C_2 c in
  let c := muladd m9 N_C_3 c in
  let c := sumadd m8 c in
  let '(p4, c) := extract c in
  let c := sumadd m5 c in
  let c := muladd m12 N_C_1 c in
  let c := muladd m11 N_C_2 c in
  let c := muladd m10 N_C_3 c in
  let c := sumadd m9 c in
  let '(p5, c) := extract c in
  let c := sumadd m6 c in
  let c := muladd m12 N_C_2 c in
  let c := muladd m11 N_C_3 c in
  let c := sumadd m10 c in
  let '(p6, c) := extract c in
  let c := sumadd_fast m7 c in
  let c := muladd_fast m12 N_C_3 c in
  let c := sumadd_fast m11 c in
  let '(p7, c) := extract_fast c in
  let p8 := u32 (c0 c + m12) in
  [p0; p1; p2; p3; p4; p5; p6; p7; p8].

(** r[0..7] = p[0..7] + p[8] * SECP256K1_N_C, and the final reduction. *)
Definition reduce_512_r (p0 p1 p2 p3 p4 p5 p6 p7 p8 : Z) : scalar :=
  let c := u64 (p0 + N_C_0 * p8) in
  let r0 := Z.land c 0xFFFFFFFF in let c := Z.shiftr c 32 in
  let c := u64 (c + (p1 + N_C_1 * p8)) in
  let r1 := Z.land c 0xFFFFFFFF in let c := Z.shiftr c 32 in
  let c := u64 (c + (p2 + N_C_2 * p8)) in
  let r2 := Z.land c 0xFFFFFFFF in let c := Z.shiftr c 32 in
  let c := u64 (c + (p3 + N_C_3 * p8)) in
  let r3 := Z.land c 0xFFFFFFFF in let c := Z.shiftr c 32 in
  let c := u64 (c + (p4 + p8)) in
  let r4 := Z.land c 0xFFFFFFFF in let c := Z.shiftr c 32 in
  let c := u64 (c + p5) in
  let r5 := Z.land c 0xFFFFFFFF in let c := Z.shiftr c 32 in
  let c := u64 (c + p6) in
  let r6 := Z.land c 0xFFFFFFFF in let c := Z.shiftr c 32 in
  let c := u64 (c + p7) in
  let r7 := Z.land c 0xFFFFFFFF in let c := Z.shiftr c 32 in
  let r := Scalar r0 r1 r2 r3 r4 r5 r6 r7 in
  fst (reduce r (u32 (c + check_overflow r))).

Definition reduce_512 (l : wide) : scalar :=
  match reduce_512_m l with
  | [m0; m1; m2; m3; m4; m5; m6; m7; m8; m9; m10; m11; m12] =>
      match reduce_512_p m0 m1 m2 m3 m4 m5 m6 m7 m8 m9 m10 m11 m12 with
      | [p0; p1; p2; p3; p4; p5; p6; p7; p8] => reduce_512_r p0 p1 p2 p3 p4 p5 p6 p7 p8
      | _ => clear
      end
  | _ => clear
  end.

Definition mul_512 (a b : scalar) : wide :=
  let c := Acc 0 0 0 in
  let c := muladd_fast (d0 a) (d0 b) c in
  let '(l0, c) := extract_fast c in
  let c := muladd (d0 a) (d1 b) c in
  let c := muladd (d1 a) (d0 b) c in
  let '(l1, c) := extract c in
  let c := muladd (d0 a) (d2 b) c in
  let c := muladd (d1 a) (d1 b) c in
  let c := muladd (d2 a) (d0 b) c in
  let '(l2, c) := extract c in
  let c := muladd (d0 a) (d3 b) c in
  let c := muladd (d1 a) (d2 b) c in
  let c := muladd (d2 a) (d1 b) c in
  let c := muladd (d3 a) (d0 b) c in
  let '(l3, c) := extract c in
  let c := muladd (d0 a) (d4 b) c in
  let c := muladd (d1 a) (d3 b) c in
  let c := muladd (d2 a) (d2 b) c in
  let c := muladd (d3 a) (d1 b) c in
  let c := muladd (d4 a) (d0 b) c in
  let '(l4, c) := extract c in
  let c := muladd (d0 a) (d5 b) c in
  let c := muladd (d1 a) (d4 b) c in
  let c := muladd (d2 a) (d3 b) c in
  let c := muladd (d3 a) (d2 b) c in
  let c := muladd (d4 a) (d1 b) c in
  let c := muladd (d5 a) (d0 b) c in
  let '(l5, c) := extract c in
  let c := muladd (d0 a) (d6 b) c in
  let c := muladd (d1 a) (d5 b) c in
  let c := muladd (d2 a) (d4 b) c in
  let c := muladd (d3 a) (d3 b) c in
  let c := muladd (d4 a) (d2 b) c in
  let c := muladd (d5 a) (d1 b) c in
  let c := muladd (d6 a) (d0 b) c in
  let '(l6, c) := extract c in
  let c := muladd (d0 a) (d7 b) c in
  let c := muladd (d1 a) (d6 b) c in
  let c := muladd (d2 a) (d5 b) c in
  let c := muladd (d3 a) (d4 b) c in
  let c := muladd (d4 a) (d3 b) c in
  let c := muladd (d5 a) (d2 b) c in
  let c := muladd (d6 a) (d1 b) c in
  let c := muladd (d7 a) (d0 b) c in
  let '(l7, c) := extract c in
  let c := muladd (d1 a) (d7 b) c in
  let c := muladd (d2 a) (d6 b) c in
  let c := muladd (d3 a) (d5 b) c in
  let c := muladd (d4 a) (d4 b) c in
  let c := muladd (d5 a) (d3 b) c in
  let c := muladd (d6 a) (d2 b) c in
  let c := muladd (d7 a) (d1 b) c in
  let '(l8, c) := extract c in
  let c := muladd (d2 a) (d7 b) c in
  let c := muladd (d3 a) (d6 b) c in
  let c := muladd (d4 a) (d5 b) c in
  let c := muladd (d5 a) (d4 b) c in
  let c := muladd (d6 a) (d3 b) c in
  let c := muladd (d7 a) (d2 b) c in
  let '(l9, c) := extract c in
  let c := muladd (d3 a) (d7 b) c in
  let c := muladd (d4 a) (d6 b) c in
  let c := muladd (d5 a) (d5 b) c in
  let c := muladd (d6 a) (d4 b) c in
  let c := muladd (d7 a) (d3 b) c in
  let '(l10, c) := extract c in
  let c := muladd (d4 a) (d7 b) c in
  let c := muladd (d5 a) (d6 b) c in
  let c := muladd (d6 a) (d5 b) c in
  let c := muladd (d7 a) (d4 b) c in
  let '(l11, c) := extract c in
  let c := muladd (d5 a) (d7 b) c in
  let c := muladd (d6 a) (d6 b) c in
  let c := muladd (d7 a) (d5 b) c in
  let '(l12, c) := extract c in
  let c := muladd (d6 a) (d7 b) c in
  let c := muladd (d7 a) (d6 b) c in
  let '(l13, c) := extract c in
  let c := muladd_fast (d7 a) (d7 b) c in
  let '(l14, c) := extract_fast c in
  let l15 := c0 c in
  Wide l0 l1 l2 l3 l4 l5 l6 l7 l8 l9 l10 l11 l12 l13 l14 l15.

Definition sqr_512 (a : scalar) : wide :=
  let c := Acc 0 0 0 in
  let c := muladd_fast (d0 a) (d0 a) c in
  let '(l0, c) := extract_fast c in
  let c := muladd2 (d0 a) (d1 a) c in
  let '(l1, c) := extract c in
  let c := muladd2 (d0 a) (d2 a) c in
  let c := muladd (d1 a) (d1 a) c in
  let '(l2, c) := extract c in
  let c := muladd2 (d0 a) (d3 a) c in
  let c := muladd2 (d1 a) (d2 a) c in
  let '(l3, c) := extract c in
  let c := muladd2 (d0 a) (d4 a) c in
  let c := muladd2 (d1 a) (d3 a) c in
  let c := muladd (d2 a) (d2 a) c in
  let '(l4, c) := extract c in
  let c := muladd2 (d0 a) (d5 a) c in
  let c := muladd2 (d1 a) (d4 a) c in
  let c := muladd2 (d2 a) (d3 a) c in
  let '(l5, c) := extract c in
  let c := muladd2 (d0 a) (d6 a) c in
  let c := muladd2 (d1 a) (d5 a) c in
  let c := muladd2 (d2 a) (d4 a) c in
  let c := muladd (d3 a) (d3 a) c in
  let '(l6, c) := extract c in
  let c := muladd2 (d0 a) (d7 a) c in
  let c := muladd2 (d1 a) (d6 a) c in
  let c := muladd2 (d2 a) (d5 a) c in
  let c := muladd2 (d3 a) (d4 a) c in
  let '(l7, c) := extract c in
  let c := muladd2 (d1 a) (d7 a) c in
  let c := muladd2 (d2 a) (d6 a) c in
  let c := muladd2 (d3 a) (d5 a) c in
  let c := muladd (d4 a) (d4 a) c in
  let '(l8, c) := extract c in
  let c := muladd2 (d2 a) (d7 a) c in
  let c := muladd2 (d3 a) (d6 a) c in
  let c := muladd2 (d4 a) (d5 a) c in
  let '(l9, c) := extract c in
  let c := muladd2 (d3 a) (d7 a) c in
  let c := muladd2 (d4 a) (d6 a) c in
  let c := muladd (d5 a) (d5 a) c in
  let '(l10, c) := extract c in
  let c := muladd2 (d4 a) (d7 a) c in
  let c := muladd2 (d5 a) (d6 a) c in
  let '(l11, c) := extract c in
  let c := muladd2 (d5 a) (d7 a) c in
  let c := muladd (d6 a) (d6 a) c in
  let '(l12, c) := extract c in
  let c := muladd2 (d6 a) (d7 a) c in
  let '(l13, c) := extract c in
  let c := muladd_fast (d7 a) (d7 a) c in
  let '(l14, c) := extract_fast c in
  let l15 := c0 c in
  Wide l0 l1 l2 l3 l4 l5 l6 l7 l8 l9 l10 l11 l12 l13 l14 l15.

Definition mul (a b : scalar) : scalar := reduce_512 (mul_512 a b).

Definition shr_int (r : scalar) (n : Z) : scalar * Z :=
  let ret := Z.land (d0 r) (Z.shiftl 1 n - 1) in
  let r0 := u32 (Z.shiftr (d0 r) n + u32 (Z.shiftl (d1 r) (32 - n))) in
  let r1 := u32 (Z.shiftr (d1 r) n + u32 (Z.shiftl (d2 r) (32 - n))) in
  let r2 := u32 (Z.shiftr (d2 r) n + u32 (Z.shiftl (d3 r) (32 - n))) in
  let r3 := u32 (Z.shiftr (d3 r) n + u32 (Z.shiftl (d4 r) (32 - n))) in
  let r4 := u32 (Z.shiftr (d4 r) n + u32 (Z.shiftl (d5 r) (32 - n))) in
  let r5 := u32 (Z.shiftr (d5 r) n + u32 (Z.shiftl (d6 r) (32 - n))) in
  let r6 := u32 (Z.shiftr (d6 r) n + u32 (Z.shiftl (d7 r) (32 - n))) in
  let r7 := Z.shiftr (d7 r) n in
  (Scalar r0 r1 r2 r3 r4 r5 r6 r7, ret).

Definition sqr (a : scalar) : scalar := reduce_512 (sqr_512 a).

Definition split_128 (a : scalar) : scalar * scalar :=
  (Scalar (d0 a) (d1 a) (d2 a) (d3 a) 0 0 0 0, Scalar (d4 a) (d5 a) (d6 a) (d7 a) 0 0 0 0).

Definition eq (a b : scalar) : Z :=
  c_bool (Z.lor (Z.lor (Z.lor (Z.lor (Z.lor (Z.lor (Z.lor (Z.lxor (d0 a) (d0 b)) (Z.lxor (d1 a) (d1 b))) (Z.lxor (d2 a) (d2 b))) (Z.lxor (d3 a) (d3 b))) (Z.lxor (d4 a) (d4 b))) (Z.lxor (d5 a) (d5 b))) (Z.lxor (d6 a) (d6 b))) (Z.lxor (d7 a) (d7 b)) =? 0).

Definition mul_shift_var (a b : scalar) (shift : Z) : scalar :=
  let l := mul_512 a b in
  let shiftlimbs := Z.shiftr shift 5 in
  let shiftlow := Z.land shift 0x1F in
  let shifthigh := 32 - shiftlow in
  let r0 := if shift <? 512 then Z.lor (Z.shiftr (wlimb l (0 + shiftlimbs)) shiftlow)
    (if (shift <? 480) && negb (shiftlow =? 0) then u32 (Z.shiftl (wlimb l (1 + shiftlimbs)) shifthigh) else 0) else 0 in
  let r1 := if shift <? 480 then Z.lor (Z.shiftr (wlimb l (1 + shiftlimbs)) shiftlow)
    (if (shift <? 448) && negb (shiftlow =? 0) then u32 (Z.shiftl (wlimb l (2 + shiftlimbs)) shifthigh) else 0) else 0 in
  let r2 := if shift <? 448 then Z.lor (Z.shiftr (wlimb l (2 + shiftlimbs)) shiftlow)
    (if (shift <? 416) && negb (shiftlow =? 0) then u32 (Z.shiftl (wlimb l (3 + shiftlimbs)) shifthigh) else 0) else 0 in
  let r3 := if shift <? 416 then Z.lor (Z.shiftr (wlimb l (3 + shiftlimbs)) shiftlow)
    (if (shift <? 384) && negb (shiftlow =? 0) then u32 (Z.shiftl (wlimb l (4 + shiftlimbs)) shifthigh) else 0) else 0 in
  let r4 := if shift <? 384 then Z.lor (Z.shiftr (wlimb l (4 + shiftlimbs)) shiftlow)
    (if (shift <? 352) && negb (shiftlow =? 0) then u32 (Z.shiftl (wlimb l (5 + shiftlimbs)) shifthigh) else 0) else 0 in
  let r5 := if shift <? 352 then Z.lor (Z.shiftr (wlimb l (5 + shiftlimbs)) shiftlow)
    (if (shift <? 320) && negb (shiftlow =? 0) then u32 (Z.shiftl (wlimb l (6 + shiftlimbs)) shifthigh) else 0) else 0 in
  let r6 := if shift <? 320 then Z.lor (Z.shiftr (wlimb l (6 + shiftlimbs)) shiftlow)
    (if (shift <? 288) && negb (shiftlow =? 0) then u32 (Z.shiftl (wlimb l (7 + shiftlimbs)) shifthigh) else 0) else 0 in
  let r7 := if shift <? 288 then Z.shiftr (wlimb l (7 + shiftlimbs)) shiftlow else 0 in
  let r := Scalar r0 r1 r2 r3 r4 r5 r6 r7 in
  if negb (Z.land (Z.shiftr (wlimb l (Z.shiftr (shift - 1) 5)) (Z.land (shift - 1) 0x1F)) 1 =? 0)
  then add_bit r 0 else r.

(** ** Values *)

Definition val (a : scalar) : Z :=
  d0 a + 2 ^ 32 * d1 a + 2 ^ 64 * d2 a + 2 ^ 96 * d3 a
  + 2 ^ 128 * d4 a + 2 ^ 160 * d5 a + 2 ^ 192 * d6 a + 2 ^ 224 * d7 a.

Record wf (a : scalar) : Prop := {
  wf0 : Bnd (d0 a) 0xFFFFFFFF; wf1 : Bnd (d1 a) 0xFFFFFFFF;
  wf2 : Bnd (d2 a) 0xFFFFFFFF; wf3 : Bnd (d3 a) 0xFFFFFFFF;
  wf4 : Bnd (d4 a) 0xFFFFFFFF; wf5 : Bnd (d5 a) 0xFFFFFFFF;
  wf6 : Bnd (d6 a) 0xFFFFFFFF; wf7 : Bnd (d7 a) 0xFFFFFFFF }.

Lemma val_range a : wf a -> 0 <= val a < 2 ^ 256.
Proof. intros []; bnds; unfold val; lia. Qed.

Ltac n_c_consts :=
  change N_C_0 with 0x2FC9BEBF in *; change N_C_1 with 0x402DA173 in *;
  change N_C_2 with 0x50B75FC4 in *; change N_C_3 with 0x45512319 in *;
  change N_C_4 with 1 in *.

Ltac n_consts :=
  unfold N_0, N_1, N_2, N_3, N_4, N_5, N_6, N_7,
    N_H_0, N_H_1, N_H_2, N_H_3, N_H_4, N_H_5, N_H_6, N_H_7 in *;
  n_c_consts.

Lemma check_overflow_spec a :
  wf a -> check_overflow a = (if val a <? order then 0 else 1).
Proof.
  intros [W0 W1 W2 W3 W4 W5 W6 W7]; bnds.
  sym_open (check_overflow a) check_overflow.
  repeat flag_step; sym_close; unfold val, order; n_consts;
    match goal with |- context [?x <? ?y] => destruct (Z.ltb_spec x y) end; lia.
Qed.

Lemma reduce_spec r o :
  wf r -> Bnd o 1 ->
  let '(r', o') := reduce r o in
  wf r' /\ o' = o /\ val r' = (val r + o * (2 ^ 256 - order)) mod 2 ^ 256.
Proof.
  intros [W0 W1 W2 W3 W4 W5 W6 W7] Ho.
  sym_open (reduce r o) reduce. repeat sym_word. sym_close.
  carry_eqs. n_consts. bnds.
  split; [constructor; unfold Bnd; cbn; lia |]. split; [reflexivity |].
  unfold val; cbn [d0 d1 d2 d3 d4 d5 d6 d7].
  apply Z.mod_unique with q; unfold order; lia.
Qed.

Definition ok (a : scalar) : Prop := wf a /\ val a < order.

(** The final subtraction shared by the operations: [c] is the carry out of
    the top limb. *)
Lemma final_reduce r c :
  wf r -> 0 <= c <= 1 -> val r + 2 ^ 256 * c < 2 * order ->
  let o := c + check_overflow r in
  Bnd o 1 /\ o = (if val r + 2 ^ 256 * c <? order then 0 else 1) /\
  ok (fst (reduce r o)) /\ val (fst (reduce r o)) = (val r + 2 ^ 256 * c) mod order.
Proof.
  intros W Hc Hv. pose proof (val_range r W) as Hr. cbv zeta.
  rewrite (check_overflow_spec r W).
  assert (Hm : forall k, k = 0 \/ k = 1 -> k * order <= val r + 2 ^ 256 * c < (k + 1) * order ->
            let '(r', _) := reduce r k in
            ok r' /\ val r' = (val r + 2 ^ 256 * c) mod order).
  { intros k Hk Hb. pose proof (reduce_spec r k W ltac:(unfold Bnd; lia)) as R.
    destruct (reduce r k) as [r' o']. destruct R as (W' & _ & V').
    assert (E : val r' = val r + 2 ^ 256 * c - k * order).
    { rewrite V'. symmetry. apply Z.mod_unique with (k - c); unfold order in *; lia. }
    split; [split; [exact W' | lia] |]. rewrite E.
    apply Z.mod_unique with k; lia. }
  destruct (Z.ltb_spec (val r) order) as [L | L];
    destruct (Z.ltb_spec (val r + 2 ^ 256 * c) order) as [L' | L'];
    [ | | unfold order in *; lia | ].
  - assert (c = 0) as -> by (unfold order in *; lia).
    specialize (Hm 0 ltac:(lia) ltac:(lia)). cbn [Z.add].
    destruct (reduce r 0); cbn [fst]. unfold Bnd; intuition lia.
  - assert (c = 1) as -> by (unfold order in *; lia).
    specialize (Hm 1 ltac:(lia) ltac:(lia)). change (1 + 0) with 1.
    destruct (reduce r 1); cbn [fst]. unfold Bnd; intuition lia.
  - assert (c = 0) as -> by (unfold order in *; lia).
    specialize (Hm 1 ltac:(lia) ltac:(lia)). change (0 + 1) with 1.
    destruct (reduce r 1); cbn [fst]. unfold Bnd; intuition lia.
Qed.

Lemma add_spec a b :
  ok a -> ok b ->
  let '(r, overflow) := add a b in
  ok r /\ val r = (val a + val b) mod order /\
  overflow = (if val a + val b <? order then 0 else 1).
Proof.
  intros [[] Va] [[] Vb].
  sym_open (add a b) add. do 24 sym_word.
  sym_let. subst r.
  carry_eqs.
  match goal with |- context [check_overflow ?r] => set (r0' := r) in * end.
  assert (W : wf r0') by (constructor; unfold r0'; cbn; eapply bnd_weaken; eauto; lia).
  assert (E : val r0' + 2 ^ 256 * t14 = val a + val b)
    by (unfold r0', val; cbn [d0 d1 d2 d3 d4 d5 d6 d7]; bnds; lia).
  assert (Ht : 0 <= t14 <= 1) by (bnds; lia).
  pose proof (final_reduce r0' t14 W Ht ltac:(lia)) as F. cbv zeta in F.
  repeat sym_let. sym_close. subst overflow.
  rewrite Er in F. cbn [fst] in F. rewrite E in F. intuition.
Qed.

Lemma is_zero_spec a : wf a -> is_zero a = (if val a =? 0 then 1 else 0).
Proof.
  intros []; unfold is_zero. bnds.
  destruct (Z.eqb_spec (val a) 0) as [E | E]; unfold val in E.
  - assert (d0 a = 0 /\ d1 a = 0 /\ d2 a = 0 /\ d3 a = 0 /\ d4 a = 0 /\ d5 a = 0 /\ d6 a = 0 /\ d7 a = 0)
      as (-> & -> & -> & -> & -> & -> & -> & ->) by lia. reflexivity.
  - match goal with |- c_bool (?x =? 0) = _ => destruct (Z.eqb_spec x 0) as [Z | Z] end; [| reflexivity].
    rewrite !Z.lor_eq_0_iff in Z. lia.
Qed.

Lemma not32_eq x : Bnd x 0xFFFFFFFF -> not32 x = 0xFFFFFFFF - x.
Proof.
  unfold Bnd, not32, u32, Z.lnot; intros. symmetry. apply Z.mod_unique with (-1); lia.
Qed.

Lemma negate_spec a : ok a -> ok (negate a) /\ val (negate a) = (- val a) mod order.
Proof.
  intros [W V]. pose proof (is_zero_spec a W) as Z. pose proof (val_range a W) as R.
  destruct W as [W0 W1 W2 W3 W4 W5 W6 W7].
  sym_open (negate a) negate. sym_let. rewrite Z in Enonzero.
  destruct (Z.eqb_spec (val a) 0) as [E | E]; cbn [c_bool] in Enonzero;
    change (c_bool (0 =? 0)) with 1 in Enonzero; change (c_bool (1 =? 0)) with 0 in Enonzero;
    vm_compute in Enonzero; subst nonzero.
  - repeat sym_let. sym_close. rewrite Z.land_0_r in *. subst. rewrite E.
    split; [split; [constructor; unfold Bnd; cbn; lia | reflexivity] | reflexivity].
  - repeat sym_word. sym_close. carry_eqs.
    rewrite !not32_eq in * by assumption. n_consts.
    assert (Ev : val (Scalar r0 r1 r2 r3 r4 r5 r6 r7) = order - val a)
      by (unfold val in *; cbn [d0 d1 d2 d3 d4 d5 d6 d7]; unfold order in *; bnds; lia).
    rewrite Ev. split; [split; [constructor; cbn; assumption | rewrite Ev; lia] |].
    apply Z.mod_unique with (-1); lia.
Qed.

Definition wval (l : wide) : Z :=
  w0 l + 2 ^ 32 * w1 l + 2 ^ 64 * w2 l + 2 ^ 96 * w3 l
  + 2 ^ 128 * w4 l + 2 ^ 160 * w5 l + 2 ^ 192 * w6 l + 2 ^ 224 * w7 l
  + 2 ^ 256 * w8 l + 2 ^ 288 * w9 l + 2 ^ 320 * w10 l + 2 ^ 352 * w11 l
  + 2 ^ 384 * w12 l + 2 ^ 416 * w13 l + 2 ^ 448 * w14 l + 2 ^ 480 * w15 l.

Record wwf (l : wide) : Prop := {
  ww0 : Bnd (w0 l) 0xFFFFFFFF; ww1 : Bnd (w1 l) 0xFFFFFFFF;
  ww2 : Bnd (w2 l) 0xFFFFFFFF; ww3 : Bnd (w3 l) 0xFFFFFFFF;
  ww4 : Bnd (w4 l) 0xFFFFFFFF; ww5 : Bnd (w5 l) 0xFFFFFFFF;
  ww6 : Bnd (w6 l) 0xFFFFFFFF; ww7 : Bnd (w7 l) 0xFFFFFFFF;
  ww8 : Bnd (w8 l) 0xFFFFFFFF; ww9 : Bnd (w9 l) 0xFFFFFFFF;
  ww10 : Bnd (w10 l) 0xFFFFFFFF; ww11 : Bnd (w11 l) 0xFFFFFFFF;
  ww12 : Bnd (w12 l) 0xFFFFFFFF; ww13 : Bnd (w13 l) 0xFFFFFFFF;
  ww14 : Bnd (w14 l) 0xFFFFFFFF; ww15 : Bnd (w15 l) 0xFFFFFFFF }.

Lemma acc_init x : Bnd x 0xFFFFFFFF -> acc_ok 32 32 (Acc x 0 0) x.
Proof. unfold Bnd, acc_ok, aval; cbn; lia. Qed.

Ltac macros := cbv beta delta [muladd muladd_fast muladd2 sumadd sumadd_fast].

Lemma w32_pos : 0 < 32. Proof. lia. Qed.
Lemma w32_le : 0 < 32 <= 32. Proof. lia. Qed.

Lemma mul_512_spec a b :
  wf a -> wf b -> wwf (mul_512 a b) /\ wval (mul_512 a b) = val a * val b.
Proof.
  intros Wa Wb. pose proof (val_range a Wa). pose proof (val_range b Wb).
  destruct Wa as [A0 A1 A2 A3 A4 A5 A6 A7], Wb as [B0 B1 B2 B3 B4 B5 B6 B7].
  sym_open (mul_512 a b) mul_512. macros. 
  pose proof (acc_init 0 ltac:(unfold Bnd; lia)) as Hacc.
  sym_let. rewrite <- Ec in Hacc.
  repeat acc_step w32_pos w32_le.
  acc_last w32_pos w32_le.
  sym_close. split; [constructor; cbn; try assumption; eapply bnd_weaken; eauto; lia |].
  unfold wval, val; cbn [w0 w1 w2 w3 w4 w5 w6 w7 w8 w9 w10 w11 w12 w13 w14 w15].
  solve_digits.
Qed.

Lemma sqr_512_spec a :
  wf a -> wwf (sqr_512 a) /\ wval (sqr_512 a) = val a * val a.
Proof.
  intros [A0 A1 A2 A3 A4 A5 A6 A7].
  sym_open (sqr_512 a) sqr_512. macros.
  pose proof (acc_init 0 ltac:(unfold Bnd; lia)) as Hacc.
  sym_let. rewrite <- Ec in Hacc.
  repeat acc_step w32_pos w32_le. acc_last w32_pos w32_le.
  sym_close. split; [constructor; cbn; try assumption; eapply bnd_weaken; eauto; lia |].
  unfold wval, val; cbn [w0 w1 w2 w3 w4 w5 w6 w7 w8 w9 w10 w11 w12 w13 w14 w15].
  solve_digits.
Qed.

Lemma reduce_512_m_spec l :
  wwf l ->
  exists m0 m1 m2 m3 m4 m5 m6 m7 m8 m9 m10 m11 m12,
    reduce_512_m l = [m0; m1; m2; m3; m4; m5; m6; m7; m8; m9; m10; m11; m12] /\
    Forall (fun m => Bnd m 0xFFFFFFFF) [m0; m1; m2; m3; m4; m5; m6; m7; m8; m9; m10; m11] /\
    Bnd m12 1 /\
    exists k, wval l = order * k +
      (m0 + 2 ^ 32 * m1 + 2 ^ 64 * m2 + 2 ^ 96 * m3 + 2 ^ 128 * m4 + 2 ^ 160 * m5
       + 2 ^ 192 * m6 + 2 ^ 224 * m7 + 2 ^ 256 * m8 + 2 ^ 288 * m9 + 2 ^ 320 * m10
       + 2 ^ 352 * m11 + 2 ^ 384 * m12).
Proof.
  intros [].
  sym_open (reduce_512_m l) reduce_512_m. macros. n_c_consts.
  do 8 sym_let.
  pose proof (acc_init (w0 l) ltac:(assumption)) as Hacc.
  sym_let. rewrite <- Ec in Hacc. rewrite <- En0, <- En1, <- En2, <- En3, <- En4, <- En5, <- En6, <- En7 in *.
  repeat acc_step w32_pos w32_le. acc_last w32_pos w32_le. sym_close.
  do 13 eexists; split; [reflexivity |].
  split; [solve_Forall |].
  split; [eapply bnd_weaken; eauto; lia |].
  exists (n0 + 2 ^ 32 * n1 + 2 ^ 64 * n2 + 2 ^ 96 * n3 + 2 ^ 128 * n4 + 2 ^ 160 * n5
       + 2 ^ 192 * n6 + 2 ^ 224 * n7).
  unfold wval, order. rewrite <- En0, <- En1, <- En2, <- En3, <- En4, <- En5, <- En6, <- En7 in *.
  clear En0 En1 En2 En3 En4 En5 En6 En7.
  solve_digits.
Qed.

Lemma reduce_512_p_spec m0 m1 m2 m3 m4 m5 m6 m7 m8 m9 m10 m11 m12 :
  Forall (fun m => Bnd m 0xFFFFFFFF) [m0; m1; m2; m3; m4; m5; m6; m7; m8; m9; m10; m11] ->
  Bnd m12 1 ->
  exists p0 p1 p2 p3 p4 p5 p6 p7 p8,
    reduce_512_p m0 m1 m2 m3 m4 m5 m6 m7 m8 m9 m10 m11 m12 = [p0; p1; p2; p3; p4; p5; p6; p7; p8] /\
    Forall (fun p => Bnd p 0xFFFFFFFF) [p0; p1; p2; p3; p4; p5; p6; p7] /\
    Bnd p8 3 /\
    exists k,
      m0 + 2 ^ 32 * m1 + 2 ^ 64 * m2 + 2 ^ 96 * m3 + 2 ^ 128 * m4 + 2 ^ 160 * m5
       + 2 ^ 192 * m6 + 2 ^ 224 * m7 + 2 ^ 256 * m8 + 2 ^ 288 * m9 + 2 ^ 320 * m10
       + 2 ^ 352 * m11 + 2 ^ 384 * m12
      = order * k +
        (p0 + 2 ^ 32 * p1 + 2 ^ 64 * p2 + 2 ^ 96 * p3 + 2 ^ 128 * p4 + 2 ^ 160 * p5
         + 2 ^ 192 * p6 + 2 ^ 224 * p7 + 2 ^ 256 * p8).
Proof.
  intros F B12. destruct_Forall F.
  sym_open (reduce_512_p m0 m1 m2 m3 m4 m5 m6 m7 m8 m9 m10 m11 m12) reduce_512_p.
  macros. n_c_consts.
  pose proof (acc_init m0 ltac:(assumption)) as Hacc.
  sym_let. rewrite <- Ec in Hacc.
  repeat acc_step w32_pos w32_le. sym_let.
  match goal with E : p8 = u32 (Accumulator.c0 ?c + _), H : acc_ok _ _ ?c ?v |- _ =>
    rewrite (c0_small 32 32 w32_pos w32_le c v _ H ltac:(typeclasses eauto) ltac:(bnd_const)) in E end.
  wrap_simpl Ep8. bnd_record Ep8. subst p8.
  sym_close. do 9 eexists; split; [reflexivity |].
  split; [solve_Forall |]. split; [eapply bnd_weaken; [eassumption | lia] |].
  exists (m8 + 2 ^ 32 * m9 + 2 ^ 64 * m10 + 2 ^ 96 * m11 + 2 ^ 128 * m12).
  unfold order. solve_digits.
Qed.

Lemma reduce_512_r_spec p0 p1 p2 p3 p4 p5 p6 p7 p8 :
  Forall (fun p => Bnd p 0xFFFFFFFF) [p0; p1; p2; p3; p4; p5; p6; p7] -> Bnd p8 3 ->
  let r := reduce_512_r p0 p1 p2 p3 p4 p5 p6 p7 p8 in
  ok r /\
  val r = (p0 + 2 ^ 32 * p1 + 2 ^ 64 * p2 + 2 ^ 96 * p3 + 2 ^ 128 * p4 + 2 ^ 160 * p5
           + 2 ^ 192 * p6 + 2 ^ 224 * p7 + 2 ^ 256 * p8) mod order.
Proof.
  intros F B8. destruct_Forall F. cbv zeta.
  sym_open (reduce_512_r p0 p1 p2 p3 p4 p5 p6 p7 p8) reduce_512_r.
  n_c_consts. do 24 sym_word. sym_let. carry_eqs. sym_close.
  assert (W : wf r) by (subst r; constructor; cbn; assumption).
  assert (E : val r + 2 ^ 256 * c14
     = p0 + 2 ^ 32 * p1 + 2 ^ 64 * p2 + 2 ^ 96 * p3 + 2 ^ 128 * p4 + 2 ^ 160 * p5
       + 2 ^ 192 * p6 + 2 ^ 224 * p7 + p8 * (2 ^ 256 - order))
    by (subst r; unfold val, order; cbn [d0 d1 d2 d3 d4 d5 d6 d7]; bnds; lia).
  pose proof (val_range r W).
  assert (Hc : 0 <= c14 <= 1) by (unfold order in *; bnds; lia).
  assert (Hlt : val r + 2 ^ 256 * c14 < 2 * order) by (unfold order in *; bnds; lia).
  destruct (final_reduce r c14 W Hc Hlt) as (Bo & _ & Hok & Hv).
  rewrite (u32_id _ _ Bo eq_refl).
  split; [exact Hok |]. rewrite Hv, E.
  rewrite <- (Z_mod_plus_full _ p8 order). f_equal. lia.
Qed.

Lemma reduce_512_spec l : wwf l -> ok (reduce_512 l) /\ val (reduce_512 l) = wval l mod order.
Proof.
  intros W. unfold reduce_512.
  destruct (reduce_512_m_spec l W)
    as (m0 & m1 & m2 & m3 & m4 & m5 & m6 & m7 & m8 & m9 & m10 & m11 & m12 & -> & F & B12 & k & ->).
  destruct (reduce_512_p_spec _ _ _ _ _ _ _ _ _ _ _ _ _ F B12)
    as (p0 & p1 & p2 & p3 & p4 & p5 & p6 & p7 & p8 & -> & F' & B8 & k' & ->).
  destruct (reduce_512_r_spec _ _ _ _ _ _ _ _ _ F' B8) as [Hok ->].
  split; [exact Hok |].
  match goal with |- ?x mod _ = _ =>
    replace (order * k + (order * k' + x)) with (x + (k + k') * order) by ring end.
  symmetry; apply Z_mod_plus_full.
Qed.

Lemma mul_spec a b : ok a -> ok b -> ok (mul a b) /\ val (mul a b) = (val a * val b) mod order.
Proof.
  intros [Wa _] [Wb _]. destruct (mul_512_spec a b Wa Wb) as [W <-]. apply reduce_512_spec, W.
Qed.

Lemma sqr_spec a : ok a -> ok (sqr a) /\ val (sqr a) = (val a * val a) mod order.
Proof.
  intros [Wa _]. destruct (sqr_512_spec a Wa) as [W <-]. apply reduce_512_spec, W.
Qed.

(** ** Limbs as slices of the value *)

Definition limbs (a : scalar) : list Z := [d0 a; d1 a; d2 a; d3 a; d4 a; d5 a; d6 a; d7 a].

Lemma limbs_range a : wf a -> Forall (fun d => 0 <= d < 2 ^ 32) (limbs a).
Proof. intros []; bnds. repeat (apply Forall_cons; [lia |]). apply Forall_nil. Qed.

Lemma limbs_val a : leval 32 (limbs a) = val a.
Proof. unfold val; cbn [leval limbs]; lia. Qed.

Lemma limb_slice a i : wf a -> 0 <= i -> limb a i = slice (val a) (32 * i) 32.
Proof.
  intros W Hi. unfold limb. fold (limbs a).
  rewrite (nth_slice 32) by (lia || apply limbs_range, W).
  rewrite limbs_val, Z2Nat.id by lia. reflexivity.
Qed.

Definition wlimbs (l : wide) : list Z :=
  [w0 l; w1 l; w2 l; w3 l; w4 l; w5 l; w6 l; w7 l; w8 l; w9 l; w10 l; w11 l; w12 l; w13 l; w14 l; w15 l].

Lemma wlimb_slice l i : wwf l -> 0 <= i -> wlimb l i = slice (wval l) (32 * i) 32.
Proof.
  intros W Hi. unfold wlimb. fold (wlimbs l).
  rewrite (nth_slice 32); [| lia |].
  - replace (leval 32 (wlimbs l)) with (wval l) by (unfold wval; cbn [leval wlimbs]; lia).
    rewrite Z2Nat.id by lia. reflexivity.
  - destruct W; bnds. repeat (apply Forall_cons; [lia |]). apply Forall_nil.
Qed.

Lemma split_offset o : 0 <= o ->
  Z.shiftr o 5 = o / 32 /\ Z.land o 0x1F = o mod 32 /\ o = 32 * (o / 32) + o mod 32 /\ 0 <= o mod 32 < 32
  /\ 0 <= o / 32.
Proof.
  intros. change 0x1F with (Z.ones 5). rewrite Z.shiftr_div_pow2, Z.land_ones by lia.
  change (2 ^ 5) with 32. pose proof (Z.div_mod o 32). pose proof (Z.mod_pos_bound o 32).
  pose proof (Z.div_pos o 32). repeat split; lia.
Qed.

Lemma get_bits_spec a offset count :
  wf a -> 0 <= offset -> 0 < count < 32 ->
  Z.shiftr (offset + count - 1) 5 = Z.shiftr offset 5 ->
  get_bits a offset count = slice (val a) offset count.
Proof.
  intros W Ho Hc Hs. unfold get_bits.
  destruct (split_offset offset Ho) as (E1 & E2 & E3 & E4 & E5).
  destruct (split_offset (offset + count - 1) ltac:(lia)) as (F1 & _ & F3 & F4 & _).
  rewrite F1, E1 in Hs. rewrite E1, E2, ones_sub, limb_slice by (assumption || lia).
  replace (u32 (Z.ones count)) with (Z.ones count)
    by (symmetry; apply Z.mod_small; rewrite Z.ones_equiv;
        pose proof (Z.pow_lt_mono_r 2 count 32); pose proof (Z.pow_pos_nonneg 2 count); lia).
  by_bits. rewrite Z.land_spec, Z.shiftr_spec, !slice_spec by lia.
  rewrite Z.testbit_ones by lia.
  replace (n + offset mod 32 + 32 * (offset / 32)) with (n + offset) by lia.
  destruct (Z.ltb_spec n count), (Z.ltb_spec (n + offset mod 32) 32), (Z.leb_spec 0 n);
    try lia; cbn; try rewrite andb_false_r; try rewrite andb_true_r; reflexivity.
Qed.

Lemma get_bits_var_spec a offset count :
  wf a -> 0 <= offset -> 0 < count < 32 ->
  get_bits_var a offset count = slice (val a) offset count.
Proof.
  intros W Ho Hc. unfold get_bits_var.
  destruct (Z.eqb_spec (Z.shiftr (offset + count - 1) 5) (Z.shiftr offset 5)) as [E | E];
    [apply get_bits_spec; assumption |].
  destruct (split_offset offset Ho) as (E1 & E2 & E3 & E4 & E5).
  destruct (split_offset (offset + count - 1) ltac:(lia)) as (F1 & _ & F3 & F4 & _).
  assert (P : 0 < 2 ^ count < 2 ^ 32)
    by (pose proof (Z.pow_lt_mono_r 2 count 32); pose proof (Z.pow_pos_nonneg 2 count); lia).
  rewrite F1, E1 in E. rewrite E1, E2, !limb_slice by (assumption || lia).
  replace (u32 (u32 (Z.shiftl 1 count) - 1)) with (Z.ones count).
  2: { rewrite Z.shiftl_mul_pow2, Z.ones_equiv by lia. unfold u32.
       rewrite Z.mul_1_l, (Z.mod_small (2 ^ count)), Z.mod_small by lia. lia. }
  by_bits. rewrite Z.land_spec, Z.lor_spec, Z.shiftr_spec, Z.testbit_ones by lia.
  unfold u32. rewrite !slice_spec by lia.
  replace (n + offset mod 32 + 32 * (offset / 32)) with (n + offset) by lia.
  destruct (Z.ltb_spec n count), (Z.leb_spec 0 n); try lia;
    rewrite ?andb_false_r, ?andb_true_r; cbn [andb].
  destruct (Z.ltb_spec (n + offset mod 32) 32); cbn [andb].
  - rewrite Z.mod_pow2_bits_low, Z.shiftl_spec_low by lia. apply orb_false_r.
  - rewrite Z.mod_pow2_bits_low, Z.shiftl_spec, slice_spec by lia. cbn [orb].
    destruct (Z.ltb_spec (n - (32 - offset mod 32)) 32); [cbn [andb]; f_equal; lia | lia].
Qed.

(** Eight consecutive 32-bit slices make a scalar. *)
Lemma val_slices x off :
  0 <= off -> 0 <= x / 2 ^ off < 2 ^ 256 ->
  let a := Scalar (slice x off 32) (slice x (off + 32) 32) (slice x (off + 64) 32) (slice x (off + 96) 32)
             (slice x (off + 128) 32) (slice x (off + 160) 32) (slice x (off + 192) 32) (slice x (off + 224) 32) in
  wf a /\ val a = x / 2 ^ off.
Proof.
  intros Ho Hx. cbv zeta. split.
  - constructor; cbn; match goal with |- Bnd (slice x ?o 32) _ =>
      pose proof (slice_range x o 32 ltac:(lia)); unfold Bnd; lia end.
  - pose proof (leval_slices 32 8 x off ltac:(lia) Ho) as E.
    rewrite Z.mod_small in E by (change (32 * Z.of_nat 8) with 256; lia).
    rewrite <- E, <- limbs_val. cbn [limbs slices d0 d1 d2 d3 d4 d5 d6 d7].
    rewrite <- !Z.add_assoc. reflexivity.
Qed.

Lemma limbs_eq a : wf a ->
  d0 a = slice (val a) 0 32 /\ d1 a = slice (val a) 32 32 /\
  d2 a = slice (val a) 64 32 /\ d3 a = slice (val a) 96 32 /\
  d4 a = slice (val a) 128 32 /\ d5 a = slice (val a) 160 32 /\
  d6 a = slice (val a) 192 32 /\
  d7 a = slice (val a) 224 32.
Proof.
  intros W.
  repeat split; [apply (limb_slice a 0) | apply (limb_slice a 1) | apply (limb_slice a 2) | apply (limb_slice a 3)
  | apply (limb_slice a 4) | apply (limb_slice a 5) | apply (limb_slice a 6) | apply (limb_slice a 7)]; auto; lia.
Qed.

Lemma join_u32 V o o' n :
  0 <= o -> 0 <= n < 32 -> o' = o + 32 ->
  u32 (Z.shiftr (slice V o 32) n + u32 (Z.shiftl (slice V o' 32) (32 - n))) = slice V (n + o) 32.
Proof.
  intros Ho Hn ->. unfold u32 at 2. rewrite join_add, (Z.add_comm o n) by lia. apply u32_slice.
Qed.

Lemma shr_int_spec r n :
  wf r -> 0 < n < 16 ->
  let '(r', low) := shr_int r n in
  wf r' /\ val r' = val r / 2 ^ n /\ low = val r mod 2 ^ n.
Proof.
  intros W Hn. pose proof (val_range r W) as R.
  assert (P : 2 ^ 1 <= 2 ^ n) by (apply Z.pow_le_mono_r; lia).
  assert (Q : 0 <= val r / 2 ^ n < 2 ^ 256)
    by (split; [apply Z.div_pos; lia | apply Z.div_lt_upper_bound; nia]).
  pose proof (val_slices (val r) n ltac:(lia) Q) as S. cbv zeta in S.
  destruct (limbs_eq r W) as (D0 & D1 & D2 & D3 & D4 & D5 & D6 & D7).
  unfold shr_int. cbv zeta. rewrite D0, D1, D2, D3, D4, D5, D6, D7.
  rewrite !join_u32 by lia. rewrite slice_top by lia.
  rewrite ones_sub, Z.land_ones, slice_low by lia.
  rewrite (Z.add_comm 224 n), Z.add_0_r. intuition.
Qed.

(** ** Adding a power of two *)

(** A power of two is one limb holding a power of two. *)
Lemma bit_limbs k x (f := fun i => if k =? i then x else 0) :
  0 <= k < 8 ->
  f 0 + 2 ^ 32 * f 1 + 2 ^ 64 * f 2 + 2 ^ 96 * f 3 + 2 ^ 128 * f 4 + 2 ^ 160 * f 5
  + 2 ^ 192 * f 6 + 2 ^ 224 * f 7 = 2 ^ (32 * k) * x.
Proof.
  intros Hk. unfold f.
  assert (k = 0 \/ k = 1 \/ k = 2 \/ k = 3 \/ k = 4 \/ k = 5 \/ k = 6 \/ k = 7)
    as [-> | [-> | [-> | [-> | [-> | [-> | [-> | ->]]]]]]] by lia;
    cbn -[Z.pow Z.mul Z.add]; lia.
Qed.

Lemma bit_limb k i x s :
  0 <= s < 32 -> x = 2 ^ s -> 
  Bnd (u32 (Z.shiftl (c_bool (k =? i)) s)) (2 ^ 31) /\
  u32 (Z.shiftl (c_bool (k =? i)) s) = (if k =? i then x else 0).
Proof.
  intros Hs ->. assert (0 < 2 ^ s <= 2 ^ 31)
    by (split; [apply Z.pow_pos_nonneg | apply Z.pow_le_mono_r]; lia).
  unfold u32. destruct (k =? i); cbn [c_bool]; rewrite Z.shiftl_mul_pow2 by lia;
    rewrite Z.mod_small by lia; unfold Bnd; lia.
Qed.

(** The word added to limb [i]. *)
Definition bit_word (bit i : Z) : Z :=
  u32 (Z.shiftl (c_bool (Z.shiftr bit 5 =? i)) (Z.land bit 0x1F)).

Lemma bit_word_sum bit :
  0 <= bit < 256 ->
  bit_word bit 0 + 2 ^ 32 * bit_word bit 1 + 2 ^ 64 * bit_word bit 2 + 2 ^ 96 * bit_word bit 3
  + 2 ^ 128 * bit_word bit 4 + 2 ^ 160 * bit_word bit 5 + 2 ^ 192 * bit_word bit 6
  + 2 ^ 224 * bit_word bit 7 = 2 ^ bit.
Proof.
  intros Hb. destruct (split_offset bit ltac:(lia)) as (E1 & E2 & E3 & E4 & E5).
  unfold bit_word. rewrite E1, E2.
  rewrite !(fun i => proj2 (bit_limb (bit / 32) i _ _ E4 eq_refl)).
  rewrite bit_limbs, <- Z.pow_add_r by lia. f_equal; lia.
Qed.

Lemma add_bit_spec r bit :
  wf r -> 0 <= bit < 256 -> val r + 2 ^ bit < 2 ^ 256 ->
  wf (add_bit r bit) /\ val (add_bit r bit) = val r + 2 ^ bit.
Proof.
  intros [W0 W1 W2 W3 W4 W5 W6 W7] Hb Hv. rewrite <- (bit_word_sum bit Hb) in *.
  assert (Bw : forall i, Bnd (bit_word bit i) 0xFFFFFFFF) by (intros; apply Bnd_u32).
  sym_open (add_bit r bit) add_bit.
  repeat match goal with |- context [u32 (Z.shiftl (c_bool (Z.shiftr bit 5 =? ?i)) (Z.land bit 0x1F))] =>
    change (u32 (Z.shiftl (c_bool (Z.shiftr bit 5 =? i)) (Z.land bit 0x1F))) with (bit_word bit i) end.
  repeat sym_word. sym_close. carry_eqs.
  assert (W : wf (Scalar r0 r1 r2 r3 r4 r5 r6 r7)) by (constructor; cbn; assumption).
  split; [exact W |]. clear W. unfold val in *. bnds. cbn [d0 d1 d2 d3 d4 d5 d6 d7]. lia.
Qed.

(** ** Multiplication with rounding shift *)

(** A result limb of [mul_shift_var]: below the guard it is a slice of the
    512-bit product, above it is zero, as the slice is. *)
Lemma shift_limb l V shift i j top top2 :
  wwf l -> V = wval l -> 0 <= V < 2 ^ 512 -> 256 <= shift -> 0 <= i -> j = i + 1 ->
  top = 512 - 32 * i -> top2 = 480 - 32 * i ->
  (if shift <? top then
     Z.lor (Z.shiftr (wlimb l (i + Z.shiftr shift 5)) (Z.land shift 0x1F))
       (if (shift <? top2) && negb (Z.land shift 0x1F =? 0)
        then u32 (Z.shiftl (wlimb l (j + Z.shiftr shift 5)) (32 - Z.land shift 0x1F)) else 0)
   else 0) = slice V (shift + 32 * i) 32.
Proof.
  intros W -> HV Hs Hi -> -> ->. destruct (split_offset shift ltac:(lia)) as (E1 & E2 & E3 & E4 & E5).
  rewrite E1, E2.
  destruct (Z.ltb_spec shift (512 - 32 * i)) as [L | L].
  2: { symmetry. apply slice_zero; [lia |]. split; [lia |].
       apply Z.lt_le_trans with (2 ^ 512); [lia | apply Z.pow_le_mono_r; lia]. }
  rewrite !wlimb_slice by (assumption || lia).
  replace (32 * (i + 1 + shift / 32)) with (32 * (i + shift / 32) + 32) by lia.
  replace (shift + 32 * i) with (32 * (i + shift / 32) + shift mod 32) by lia.
  rewrite <- (join_lor (wval l) (32 * (i + shift / 32)) (shift mod 32) 32) by lia.
  f_equal. destruct (Z.ltb_spec shift (480 - 32 * i)) as [L2 | L2]; cbn [andb].
  - destruct (Z.eqb_spec (shift mod 32) 0) as [E | E]; cbn [negb]; [| reflexivity].
    rewrite E, Z.sub_0_r, Z.shiftl_mul_pow2, Z_mod_mult by lia. reflexivity.
  - rewrite (slice_zero (wval l) _ 32), Z.shiftl_0_l, Zmod_0_l; try lia.
    split; [lia |]. apply Z.lt_le_trans with (2 ^ 512); [lia | apply Z.pow_le_mono_r; lia].
Qed.

Lemma shift_limb_top l V shift :
  wwf l -> V = wval l -> 0 <= V < 2 ^ 512 -> 256 <= shift ->
  (if shift <? 288 then Z.shiftr (wlimb l (7 + Z.shiftr shift 5)) (Z.land shift 0x1F) else 0)
  = slice V (shift + 224) 32.
Proof.
  intros W E HV Hs. change 224 with (32 * 7). rewrite <- (shift_limb l V shift 7 8 288 256) by (auto; lia).
  destruct (Z.ltb_spec shift 256); [lia |]. cbn [andb]. now rewrite Z.lor_0_r.
Qed.

Lemma round_bit l shift :
  wwf l -> 256 <= shift <= 512 ->
  Z.land (Z.shiftr (wlimb l (Z.shiftr (shift - 1) 5)) (Z.land (shift - 1) 0x1F)) 1
  = slice (wval l) (shift - 1) 1.
Proof.
  intros W Hs. destruct (split_offset (shift - 1) ltac:(lia)) as (E1 & E2 & E3 & E4 & E5).
  rewrite E1, E2, wlimb_slice by (assumption || lia).
  match goal with |- Z.land ?x 1 = ?y => change (Z.land x (Z.ones 1) = y) end.
  by_bits. rewrite Z.land_spec, Z.shiftr_spec, !slice_spec, Z.testbit_ones by lia.
  destruct (Z.ltb_spec n 1), (Z.leb_spec 0 n), (Z.ltb_spec (n + (shift - 1) mod 32) 32);
    try lia; cbn [andb]; rewrite ?andb_false_r, ?andb_true_r; try reflexivity. f_equal; lia.
Qed.

Lemma shifted_small x shift :
  0 <= x < order * order -> 256 <= shift -> 0 <= x / 2 ^ shift < 2 ^ 256 - 1.
Proof.
  intros Hx Hs. assert (2 ^ 256 <= 2 ^ shift) by (apply Z.pow_le_mono_r; lia).
  split; [apply Z.div_pos; lia |]. apply Z.div_lt_upper_bound; [lia |].
  apply Z.lt_le_trans with (2 ^ 256 * (2 ^ 256 - 1)); [unfold order in Hx; lia |].
  apply Z.mul_le_mono_nonneg_r; lia.
Qed.

Lemma mul_shift_var_spec a b shift :
  ok a -> ok b -> 256 <= shift <= 512 ->
  let r := mul_shift_var a b shift in
  wf r /\ val r = (val a * val b) / 2 ^ shift + slice (val a * val b) (shift - 1) 1.
Proof.
  intros [Wa Va] [Wb Vb] Hs. cbv zeta. unfold mul_shift_var. cbv zeta.
  destruct (mul_512_spec a b Wa Wb) as [W E]. set (l := mul_512 a b) in *. clearbody l.
  pose proof (val_range a Wa) as Ra. pose proof (val_range b Wb) as Rb.
  assert (HV : 0 <= wval l < 2 ^ 512) by (rewrite E; nia).
  assert (Hlt : 0 <= wval l < order * order) by (rewrite E; nia).
  rewrite <- E in *. clear E.
  rewrite (shift_limb l _ shift 0 1 512 480), (shift_limb l _ shift 1 2 480 448),
    (shift_limb l _ shift 2 3 448 416), (shift_limb l _ shift 3 4 416 384),
    (shift_limb l _ shift 4 5 384 352), (shift_limb l _ shift 5 6 352 320),
    (shift_limb l _ shift 6 7 320 288), (shift_limb_top l _ shift) by (auto; lia).
  assert (Q : 0 <= wval l / 2 ^ shift < 2 ^ 256 - 1) by (apply shifted_small; lia).
  destruct (val_slices (wval l) shift ltac:(lia) ltac:(lia)) as [Wr Er].
  rewrite Z.mul_0_r, Z.add_0_r.
  match type of Er with val ?x = _ => change (Scalar _ _ _ _ _ _ _ _) with x end.
  set (r := Scalar _ _ _ _ _ _ _ _) in *. clearbody r.
  rewrite round_bit by (assumption || lia).
  pose proof (slice_range (wval l) (shift - 1) 1 ltac:(lia)) as Rb1. change (2 ^ 1) with 2 in Rb1.
  destruct (Z.eqb_spec (slice (wval l) (shift - 1) 1) 0) as [E0 | E0]; cbn [negb].
  - rewrite E0, Z.add_0_r. auto.
  - destruct (add_bit_spec r 0 Wr ltac:(lia) ltac:(lia)) as [Wr' Er']. split; [exact Wr' |]. lia.
Qed.

(** ** Byte strings *)

Definition bytes32 (b : list Z) : Prop := length b = 32%nat /\ bytes b.

Lemma at8_bnd b i : Forall (fun x => Bnd x 255) b -> Bnd (at8 b i) 255.
Proof.
  intros H. unfold at8. destruct (Nat.lt_ge_cases i (length b)).
  - apply (proj1 (Forall_forall _ _) H), nth_In; assumption.
  - rewrite nth_overflow by assumption. unfold Bnd; lia.
Qed.

Lemma set_b32_spec b :
  bytes32 b ->
  let '(r, overflow) := set_b32 b in
  ok r /\ val r = be_val b mod order /\ overflow = (if be_val b <? order then 0 else 1).
Proof.
  intros [Hl Hb]. pose proof (fun i => at8_bnd b i Hb) as B.
  sym_open (set_b32 b) set_b32.
  rewrite !lor_bytes by apply B.
  do 9 sym_let.
  assert (W : wf r).
  { subst. constructor; cbn [d0 d1 d2 d3 d4 d5 d6 d7]; match goal with |- Bnd ?e _ => eapply bnd_weaken; [typeclasses eauto | vm_compute; discriminate] end. }
  assert (E : val r = be_val b).
  { subst. clear - Hl. unfold val; cbn [d0 d1 d2 d3 d4 d5 d6 d7].
    do 33 (destruct b as [| ? b]; [discriminate Hl || idtac | try discriminate Hl]).
    unfold at8, be_val; cbn [nth beval]. ring. }
  destruct (final_reduce r 0 W ltac:(lia)) as (_ & Ho & Hok & Hv).
  { pose proof (val_range r W). unfold order; lia. }
  rewrite Z.add_0_l, Z.mul_0_r, Z.add_0_r, E in *.
  pose proof (reduce_spec r (check_overflow r) W ltac:(rewrite Ho; unfold Bnd; destruct (_ <? _); lia)) as R.
  sym_close. destruct (reduce r (check_overflow r)) as [r' o]. cbn [fst] in *.
  destruct R as (_ & -> & _). auto.
Qed.

Lemma get_b32_spec a : wf a -> bytes32 (get_b32 a) /\ be_val (get_b32 a) = val a.
Proof.
  intros []. split.
  - split; [reflexivity |]. unfold get_b32.
    repeat (apply Forall_cons; [apply Bnd_u8 |]). apply Forall_nil.
  - unfold val. rewrite <- (bytes_of_word (d0 a)), <- (bytes_of_word (d1 a)), <- (bytes_of_word (d2 a)),
      <- (bytes_of_word (d3 a)), <- (bytes_of_word (d4 a)), <- (bytes_of_word (d5 a)),
      <- (bytes_of_word (d6 a)), <- (bytes_of_word (d7 a)) by assumption.
    unfold get_b32, be_val; cbn [beval]. ring.
Qed.

Lemma val_inj a b : wf a -> wf b -> val a = val b -> a = b.
Proof.
  intros Wa Wb E.
  destruct (limbs_eq a Wa) as (A0 & A1 & A2 & A3 & A4 & A5 & A6 & A7).
  destruct (limbs_eq b Wb) as (B0 & B1 & B2 & B3 & B4 & B5 & B6 & B7).
  rewrite E, <- B0, <- B1, <- B2, <- B3, <- B4, <- B5, <- B6, <- B7 in *.
  destruct a, b; cbn in *; congruence.
Qed.

Lemma set_get_b32 a : ok a -> set_b32 (get_b32 a) = (a, 0).
Proof.
  intros [W V]. destruct (get_b32_spec a W) as [Hb E].
  pose proof (set_b32_spec _ Hb) as S. destruct (set_b32 (get_b32 a)) as [r o].
  destruct S as ([Wr _] & Vr & Vo). rewrite E in *. pose proof (val_range a W).
  rewrite Z.mod_small in Vr by lia. destruct (Z.ltb_spec (val a) order); [| lia].
  f_equal; [apply val_inj; assumption | assumption].
Qed.

(** ** Comparisons *)

Lemma is_high_spec a :
  wf a -> is_high a = (if val a <=? order / 2 then 0 else 1).
Proof.
  intros [W0 W1 W2 W3 W4 W5 W6 W7]; bnds.
  change (order / 2) with 0x7FFFFFFFFFFFFFFFFFFFFFFFFFFFFFFF5D576E7357A4501DDFE92F46681B20A0.
  sym_open (is_high a) is_high.
  repeat flag_step; sym_close; unfold val; n_consts;
    match goal with |- context [?x <=? ?y] => destruct (Z.leb_spec x y) end; lia.
Qed.

Lemma lxor_0_eq x y : Z.lxor x y = 0 <-> x = y.
Proof. apply Z.lxor_eq_0_iff. Qed.

Lemma eq_spec a b : eq a b = 1 /\ a = b \/ eq a b = 0 /\ a <> b.
Proof.
  unfold eq.
  match goal with |- context [c_bool (?x =? 0)] => destruct (Z.eqb_spec x 0) as [Z | Z] end.
  - left; split; [reflexivity |]. rewrite !Z.lor_eq_0_iff, !Z.lxor_eq_0_iff in Z.
    destruct a, b; cbn in *; intuition congruence.
  - right; split; [reflexivity |]. intros ->. apply Z. rewrite !Z.lxor_nilpotent. reflexivity.
Qed.

Lemma is_one_spec a : wf a -> is_one a = (if val a =? 1 then 1 else 0).
Proof.
  intros []; unfold is_one. bnds.
  match goal with |- c_bool (?x =? 0) = _ => destruct (Z.eqb_spec x 0) as [Z | Z] end.
  - rewrite !Z.lor_eq_0_iff, Z.lxor_eq_0_iff in Z. destruct Z as [[[[[[[Z0 Z1] Z2] Z3] Z4] Z5] Z6] Z7].
    unfold val. rewrite Z0, Z1, Z2, Z3, Z4, Z5, Z6, Z7. reflexivity.
  - destruct (Z.eqb_spec (val a) 1) as [E | E]; [| reflexivity]. exfalso; apply Z. unfold val in E.
    assert (d0 a = 1 /\ d1 a = 0 /\ d2 a = 0 /\ d3 a = 0 /\ d4 a = 0 /\ d5 a = 0 /\ d6 a = 0 /\ d7 a = 0)
      as (-> & -> & -> & -> & -> & -> & -> & ->) by lia. reflexivity.
Qed.

(** ** Forcing a scalar odd *)

Lemma not_xor x : Bnd x 0xFFFFFFFF -> Z.lxor x 0xFFFFFFFF = not32 x.
Proof.
  intros H. rewrite not32_eq by assumption.
  assert (L : Z.land x (Z.lxor x 0xFFFFFFFF) = 0).
  { by_bits. rewrite Z.land_spec, Z.lxor_spec, Z.bits_0.
    change 0xFFFFFFFF with (Z.ones 32). rewrite Z.testbit_ones by lia.
    destruct (Z.ltb_spec n 32), (Z.leb_spec 0 n); try lia; cbn [andb].
    - destruct (Z.testbit x n); reflexivity.
    - rewrite (testbit_high x 32 n); [reflexivity | unfold Bnd in H; lia | lia]. }
  pose proof (Z.add_nocarry_lxor x _ L) as E.
  rewrite <- Z.lxor_assoc, Z.lxor_nilpotent, Z.lxor_0_l in E. lia.
Qed.

Lemma odd_limb r : Z.odd (val r) = Z.odd (d0 r).
Proof.
  unfold val. rewrite <- !Z.add_assoc.
  replace (d0 r + _) with (d0 r + 2 * (2 ^ 31 * d1 r + 2 ^ 63 * d2 r + 2 ^ 95 * d3 r + 2 ^ 127 * d4 r
    + 2 ^ 159 * d5 r + 2 ^ 191 * d6 r + 2 ^ 223 * d7 r)) by ring.
  apply Z.odd_add_mul_2.
Qed.

Lemma word_idle x :
  Bnd x 0xFFFFFFFF -> Z.land (u64 x) 0xFFFFFFFF = x /\ Z.shiftr (u64 x) 32 = 0.
Proof.
  unfold Bnd, u64; intros H. rewrite (Z.mod_small x) by lia.
  change 0xFFFFFFFF with (Z.ones 32). rewrite Z.land_ones, Z.shiftr_div_pow2 by lia.
  rewrite Z.mod_small, Z.div_small by lia. auto.
Qed.

(** As the comment says: a no-op on an odd scalar, a negation on an even one. *)
Lemma wnaf_force_odd_cases r :
  wf r -> wnaf_force_odd r = if Z.odd (val r) then (r, 1) else (negate r, -1).
Proof.
  intros W. pose proof (is_zero_spec r W) as Hz. pose proof (odd_limb r) as Ho.
  destruct W as [W0 W1 W2 W3 W4 W5 W6 W7].
  assert (E1 : Z.land (d0 r) 1 = c_bool (Z.odd (d0 r)))
    by (change 1 with (Z.ones 1) at 1; rewrite Z.land_ones, Z.pow_1_r, Zmod_odd by lia; reflexivity).
  unfold wnaf_force_odd; cbv zeta. rewrite E1, Ho. destruct (Z.odd (d0 r)).
  - change (u32 (c_bool true - 1)) with 0. rewrite !Z.land_0_r, !Z.lxor_0_r, !Z.add_0_r.
    assert (is_zero r = 0) as ->.
    { rewrite Hz. destruct (Z.eqb_spec (val r) 0) as [E | E]; [rewrite E in Ho; discriminate | reflexivity]. }
    change (u32 (0xFFFFFFFF * c_bool (0 =? 0))) with 0xFFFFFFFF.
    repeat match goal with B : Bnd ?x _ |- context [Z.land (u64 ?x) _] =>
      rewrite (proj1 (word_idle x B)), (proj2 (word_idle x B)), Z.add_0_l end.
    rewrite (proj1 (word_idle _ W7)). destruct r; reflexivity.
  - change (u32 (c_bool false - 1)) with 0xFFFFFFFF. rewrite !not_xor by assumption.
    change (Z.land (u32 (N_0 + 1)) 0xFFFFFFFF) with (N_0 + 1).
    change (Z.land N_1 0xFFFFFFFF) with N_1. change (Z.land N_2 0xFFFFFFFF) with N_2.
    change (Z.land N_3 0xFFFFFFFF) with N_3. change (Z.land N_4 0xFFFFFFFF) with N_4.
    change (Z.land N_5 0xFFFFFFFF) with N_5. change (Z.land N_6 0xFFFFFFFF) with N_6.
    change (Z.land N_7 0xFFFFFFFF) with N_7. rewrite (Z.add_assoc (not32 (d0 r))). reflexivity.
Qed.

Lemma wnaf_force_odd_spec r :
  ok r -> val r <> 0 ->
  let '(r', sign) := wnaf_force_odd r in
  ok r' /\ Z.odd (val r') = true /\ (sign = 1 \/ sign = -1) /\ (sign * val r') mod order = val r.
Proof.
  intros Hr H0. pose proof Hr as [W V]. pose proof (val_range r W) as R.
  rewrite wnaf_force_odd_cases by assumption.
  destruct (Z.odd (val r)) eqn:Eo.
  - rewrite Z.mul_1_l, Z.mod_small by lia. auto.
  - destruct (negate_spec r Hr) as [Hn Ev].
    assert (Ev' : val (negate r) = order - val r)
      by (rewrite Ev; symmetry; apply Z.mod_unique with (-1); lia).
    rewrite Ev', Z.odd_sub, Eo. split; [exact Hn |]. split; [reflexivity |]. split; [auto |].
    symmetry; apply Z.mod_unique with (-1); lia.
Qed.

Lemma split_128_spec a :
  wf a -> let '(r1, r2) := split_128 a in
  wf r1 /\ wf r2 /\ val r1 + 2 ^ 128 * val r2 = val a /\ val r1 < 2 ^ 128 /\ val r2 < 2 ^ 128.
Proof.
  intros []. unfold split_128. bnds.
  split; [constructor; unfold Bnd; cbn; lia |]. split; [constructor; unfold Bnd; cbn; lia |].
  unfold val; cbn [d0 d1 d2 d3 d4 d5 d6 d7]. lia.
Qed.

(** ** The interface of ScalarSpec *)

#[export] Instance ops : ScalarOps scalar := {|
  sval := val; scalar_add := add; scalar_mul := mul; scalar_sqr := sqr;
  scalar_negate := negate; scalar_is_zero := is_zero |}.

#[export] Instance laws : ScalarLaws scalar.
Proof.
  refine {| sok := ok |}.
  - intros a [W V]. pose proof (val_range a W). cbn. lia.
  - intros a b Ha Hb. exact (add_spec a b Ha Hb).
  - exact mul_spec.
  - exact sqr_spec.
  - exact negate_spec.
  - intros a [W _]. exact (is_zero_spec a W).
Defined.

Ltac ok_now := split; [constructor; split; vm_compute; discriminate | reflexivity].

(** Two reduced scalars used by the witnesses: the order minus one and its half. *)
Definition top : scalar := fst (set_b32 (get_b32 (negate (set_int 1)))).
Definition half : scalar := Scalar N_H_0 N_H_1 N_H_2 N_H_3 N_H_4 N_H_5 N_H_6 N_H_7.

Lemma top_ok : ok top. Proof. ok_now. Qed.
Lemma half_ok : ok half. Proof. ok_now. Qed.

(** ** Correctness *)

(** C32: on reduced operands, addition, multiplication, squaring and negation
    of scalars return reduced scalars whose values are the sum, the product,
    the square and the opposite modulo the group order; addition reports
    whether the integer sum reached the order. *)
Theorem ring_correct a b :
  ok a -> ok b ->
  (let '(r, overflow) := add a b in
   ok r /\ val r = (val a + val b) mod order /\
   overflow = (if val a + val b <? order then 0 else 1)) /\
  (ok (mul a b) /\ val (mul a b) = (val a * val b) mod order) /\
  (ok (sqr a) /\ val (sqr a) = (val a * val a) mod order) /\
  (ok (negate a) /\ val (negate a) = (- val a) mod order).
Proof.
  intros Ha Hb. split; [exact (add_spec a b Ha Hb) |].
  auto using mul_spec, sqr_spec, negate_spec.
Qed.

Lemma ring_correct_witness :
  val (fst (add top half)) = (val top + val half) mod order /\
  val (mul top half) = (val top * val half) mod order.
Proof.
  pose proof (ring_correct top half top_ok half_ok) as (A & (_ & M) & _).
  destruct (add top half) as [r o]. split; [apply A | exact M].
Defined.

(** Reading 32 big-endian bytes gives the reduced scalar congruent to
    the number they spell and reports an overflow exactly when that number is
    not below the order; when it is below, writing the scalar back gives the
    same bytes, and writing any reduced scalar and reading it again gives it
    back without overflow. *)
Theorem b32_roundtrip b :
  bytes32 b ->
  let '(r, overflow) := set_b32 b in
  ok r /\ val r = be_val b mod order /\
  overflow = (if be_val b <? order then 0 else 1) /\
  (overflow = 0 -> get_b32 r = b) /\
  set_b32 (get_b32 r) = (r, 0).
Proof.
  intros Hb. pose proof (set_b32_spec b Hb) as S. destruct (set_b32 b) as [r o].
  destruct S as (Hr & Vr & Vo). repeat split; try apply Hr; try assumption.
  - intros E. destruct (get_b32_spec r (proj1 Hr)) as [[Lg Bg] Vg]. destruct Hb as [Lb Bb].
    apply be_val_inj; try assumption; [congruence |].
    pose proof (be_val_range b Bb). rewrite Vg, Vr. apply Z.mod_small.
    destruct (Z.ltb_spec (be_val b) order); [lia | congruence].
  - apply set_get_b32, Hr.
Qed.

Lemma b32_roundtrip_witness :
  bytes32 (repeat 255 32) /\ snd (set_b32 (repeat 255 32)) = 1 /\
  bytes32 (repeat 7 32) /\ get_b32 (fst (set_b32 (repeat 7 32))) = repeat 7 32.
Proof.
  assert (H : forall x, Bnd x 255 -> bytes32 (repeat x 32)) by (intros x Hx; split; [reflexivity | repeat constructor; apply Hx]).
  assert (B : bytes32 (repeat 255 32)) by (apply H; unfold Bnd; lia).
  assert (C : bytes32 (repeat 7 32)) by (apply H; unfold Bnd; lia).
  pose proof (b32_roundtrip _ B) as P. pose proof (b32_roundtrip _ C) as Q.
  split; [exact B |]. split.
  - destruct (set_b32 (repeat 255 32)) as [r o]. destruct P as (_ & _ & -> & _). reflexivity.
  - split; [exact C |]. destruct (set_b32 (repeat 7 32)) as [r o]. destruct Q as (_ & _ & Eo & G & _).
    apply G. rewrite Eo. reflexivity.
Defined.

(** Multiplying two reduced scalars and shifting right by [shift] bits,
    256 to 512 of them, gives the quotient of the full product rounded to the
    nearest integer, and the result has all its limbs in range. *)
Theorem mul_shift_rounds a b shift :
  ok a -> ok b -> 256 <= shift <= 512 ->
  wf (mul_shift_var a b shift) /\
  val (mul_shift_var a b shift) = (val a * val b + 2 ^ (shift - 1)) / 2 ^ shift.
Proof.
  intros Ha Hb Hs. destruct (mul_shift_var_spec a b shift Ha Hb Hs) as [W E].
  split; [exact W |]. rewrite E. symmetry. apply round_half. lia.
Qed.

Lemma mul_shift_rounds_witness :
  val (mul_shift_var top half 272) = (val top * val half + 2 ^ 271) / 2 ^ 272.
Proof. apply (mul_shift_rounds top half 272 top_ok half_ok). lia. Defined.

(** Forcing a non-zero scalar odd returns an odd reduced scalar and a
    sign of one or minus one whose product is the scalar given; the split at
    bit 128 returns two halves below 2^128 that recombine to it. *)
Theorem force_odd_and_split r :
  ok r -> val r <> 0 ->
  (let '(r', sign) := wnaf_force_odd r in
   ok r' /\ Z.odd (val r') = true /\ (sign = 1 \/ sign = -1) /\ (sign * val r') mod order = val r) /\
  (let '(r1, r2) := split_128 r in
   val r1 + 2 ^ 128 * val r2 = val r /\ 0 <= val r1 < 2 ^ 128 /\ 0 <= val r2 < 2 ^ 128).
Proof.
  intros Hr H0. split; [exact (wnaf_force_odd_spec r Hr H0) |].
  pose proof (split_128_spec r (proj1 Hr)) as S. destruct (split_128 r) as [r1 r2].
  destruct S as (W1 & W2 & E & L1 & L2).
  pose proof (val_range r1 W1). pose proof (val_range r2 W2). lia.
Qed.

Lemma force_odd_and_split_witness : Z.odd (val (fst (wnaf_force_odd top))) = true.
Proof.
  pose proof (force_odd_and_split top top_ok ltac:(vm_compute; discriminate)) as [P _].
  destruct (wnaf_force_odd top) as [r s]. apply P.
Defined.

End S8.
