(* ===== verification/Scalar4x64.v ===== *)
(** Scalars modulo the group order, four 64-bit limbs
    (libraries/secp256k1-zkp/src/scalar_4x64.h and the portable code of
    scalar_4x64_impl.h; the inline assembly the file has for x86_64 is not
    modelled). *)

From Stdlib Require Import ZArith Lia List Bool.
From S2P Require Import Prelude Accumulator ScalarSpec Scalar8x32.
Import ListNotations.
Local Open Scope Z_scope.

Module S4.

(** Limbs of the group order. *)
Definition N_0 : Z := 0xBFD25E8CD0364141.
Definition N_1 : Z := 0xBAAEDCE6AF48A03B.
Definition N_2 : Z := 0xFFFFFFFFFFFFFFFE.
Definition N_3 : Z := 0xFFFFFFFFFFFFFFFF.

(** Limbs of 2^256 minus the order ([~x] is the 64-bit complement). *)
Definition not64 (x : Z) : Z := u64 (Z.lnot x).
Definition N_C_0 : Z := u64 (not64 N_0 + 1).
Definition N_C_1 : Z := not64 N_1.
Definition N_C_2 : Z := 1.

(** Limbs of half the order. *)
Definition N_H_0 : Z := 0xDFE92F46681B20A0.
Definition N_H_1 : Z := 0x5D576E7357A4501D.
Definition N_H_2 : Z := 0xFFFFFFFFFFFFFFFF.
Definition N_H_3 : Z := 0x7FFFFFFFFFFFFFFF.

(** secp256k1_scalar_t: uint64_t d[4]. *)
Record scalar := Scalar { d0 : Z; d1 : Z; d2 : Z; d3 : Z }.

Definition limb (a : scalar) (i : Z) : Z := nth (Z.to_nat i) [d0 a; d1 a; d2 a; d3 a] 0.

Definition at8 (b : list Z) (i : nat) : Z := nth i b 0.

Definition clear : scalar := Scalar 0 0 0 0.

Definition set_int (v : Z) : scalar := Scalar (u32 v) 0 0 0.

Definition get_bits (a : scalar) (offset count : Z) : Z :=
  u32 (Z.land (Z.shiftr (limb a (Z.shiftr offset 6)) (Z.land offset 0x3F)) (u64 (u64 (Z.shiftl 1 count) - 1))).

Definition get_bits_var (a : scalar) (offset count : Z) : Z :=
  if Z.shiftr (offset + count - 1) 6 =? Z.shiftr offset 6 then get_bits a offset count
  else
    u32 (Z.land (Z.lor (Z.shiftr (limb a (Z.shiftr offset 6)) (Z.land offset 0x3F))
                       (u64 (Z.shiftl (limb a (Z.shiftr offset 6 + 1)) (64 - Z.land offset 0x3F))))
                (u64 (u64 (Z.shiftl 1 count) - 1))).

Definition check_overflow (a : scalar) : Z :=
  let yes := 0 in
  let no := 0 in
  let no := Z.lor no (c_bool (d3 a <? N_3)) in
  let no := Z.lor no (c_bool (d2 a <? N_2)) in
  let yes := Z.lor yes (Z.land (c_bool (d2 a >? N_2)) (Z.lnot no)) in
  let no := Z.lor no (c_bool (d1 a <? N_1)) in
  let yes := Z.lor yes (Z.land (c_bool (d1 a >? N_1)) (Z.lnot no)) in
  let yes := Z.lor yes (Z.land (c_bool (d0 a >=? N_0)) (Z.lnot no)) in
  yes.

Definition reduce (r : scalar) (overflow : Z) : scalar * Z :=
  let t := u128 (d0 r + u64 (overflow * N_C_0)) in
  let r0 := Z.land t 0xFFFFFFFFFFFFFFFF in let t := Z.shiftr t 64 in
  let t := u128 (t + (d1 r + u64 (overflow * N_C_1))) in
  let r1 := Z.land t 0xFFFFFFFFFFFFFFFF in let t := Z.shiftr t 64 in
  let t := u128 (t + (d2 r + u32 (overflow * N_C_2))) in
  let r2 := Z.land t 0xFFFFFFFFFFFFFFFF in let t := Z.shiftr t 64 in
  let t := u128 (t + d3 r) in
  let r3 := Z.land t 0xFFFFFFFFFFFFFFFF in
  (Scalar r0 r1 r2 r3, overflow).

Definition add (a b : scalar) : scalar * Z :=
  let t := u128 (d0 a + d0 b) in
  let r0 := Z.land t 0xFFFFFFFFFFFFFFFF in let t := Z.shiftr t 64 in
  let t := u128 (t + (d1 a + d1 b)) in
  let r1 := Z.land t 0xFFFFFFFFFFFFFFFF in let t := Z.shiftr t 64 in
  let t := u128 (t + (d2 a + d2 b)) in
  let r2 := Z.land t 0xFFFFFFFFFFFFFFFF in let t := Z.shiftr t 64 in
  let t := u128 (t + (d3 a + d3 b)) in
  let r3 := Z.land t 0xFFFFFFFFFFFFFFFF in let t := Z.shiftr t 64 in
  let r := Scalar r0 r1 r2 r3 in
  let overflow := t + check_overflow r in
  let '(r, _) := reduce r overflow in
  (r, overflow).

Definition add_bit (r : scalar) (bit : Z) : scalar :=
  let t := u128 (d0 r + u64 (Z.shiftl (c_bool (Z.shiftr bit 6 =? 0)) (Z.land bit 0x3F))) in
  let r0 := Z.land t 0xFFFFFFFFFFFFFFFF in let t := Z.shiftr t 64 in
  let t := u128 (t + (d1 r + u64 (Z.shiftl (c_bool (Z.shiftr bit 6 =? 1)) (Z.land bit 0x3F)))) in
  let r1 := Z.land t 0xFFFFFFFFFFFFFFFF in let t := Z.shiftr t 64 in
  let t := u128 (t + (d2 r + u64 (Z.shiftl (c_bool (Z.shiftr bit 6 =? 2)) (Z.land bit 0x3F)))) in
  let r2 := Z.land t 0xFFFFFFFFFFFFFFFF in let t := Z.shiftr t 64 in
  let t := u128 (t + (d3 r + u64 (Z.shiftl (c_bool (Z.shiftr bit 6 =? 3)) (Z.land bit 0x3F)))) in
  let r3 := Z.land t 0xFFFFFFFFFFFFFFFF in
  Scalar r0 r1 r2 r3.

(** Eight bytes of the array, the first at [i], in big-endian order. *)
Definition word_at (b : list Z) (i : nat) : Z :=
  Z.lor (Z.lor (Z.lor (Z.lor (Z.lor (Z.lor (Z.lor (at8 b (i + 7)) (u64 (Z.shiftl (at8 b (i + 6)) 8)))
    (u64 (Z.shiftl (at8 b (i + 5)) 16))) (u64 (Z.shiftl (at8 b (i + 4)) 24)))
    (u64 (Z.shiftl (at8 b (i + 3)) 32))) (u64 (Z.shiftl (at8 b (i + 2)) 40)))
    (u64 (Z.shiftl (at8 b (i + 1)) 48))) (u64 (Z.shiftl (at8 b i) 56)).

Definition set_b32 (b32 : list Z) : scalar * Z :=
  let r := Scalar (word_at b32 24) (word_at b32 16) (word_at b32 8) (word_at b32 0) in
  reduce r (check_overflow r).

Definition get_b32 (a : scalar) : list Z :=
  [u8 (Z.shiftr (d3 a) 56); u8 (Z.shiftr (d3 a) 48); u8 (Z.shiftr (d3 a) 40); u8 (Z.shiftr (d3 a) 32);
   u8 (Z.shiftr (d3 a) 24); u8 (Z.shiftr (d3 a) 16); u8 (Z.shiftr (d3 a) 8); u8 (d3 a);
   u8 (Z.shiftr (d2 a) 56); u8 (Z.shiftr (d2 a) 48); u8 (Z.shiftr (d2 a) 40); u8 (Z.shiftr (d2 a) 32);
   u8 (Z.shiftr (d2 a) 24); u8 (Z.shiftr (d2 a) 16); u8 (Z.shiftr (d2 a) 8); u8 (d2 a);
   u8 (Z.shiftr (d1 a) 56); u8 (Z.shiftr (d1 a) 48); u8 (Z.shiftr (d1 a) 40); u8 (Z.shiftr (d1 a) 32);
   u8 (Z.shiftr (d1 a) 24); u8 (Z.shiftr (d1 a) 16); u8 (Z.shiftr (d1 a) 8); u8 (d1 a);
   u8 (Z.shiftr (d0 a) 56); u8 (Z.shiftr (d0 a) 48); u8 (Z.shiftr (d0 a) 40); u8 (Z.shiftr (d0 a) 32);
   u8 (Z.shiftr (d0 a) 24); u8 (Z.shiftr (d0 a) 16); u8 (Z.shiftr (d0 a) 8); u8 (d0 a)].

Definition is_zero (a : scalar) : Z := c_bool (Z.lor (Z.lor (Z.lor (d0 a) (d1 a)) (d2 a)) (d3 a) =? 0).

Definition negate (a : scalar) : scalar :=
  let nonzero := u64 (0xFFFFFFFFFFFFFFFF * c_bool (is_zero a =? 0)) in
  let t := u128 (not64 (d0 a) + N_0 + 1) in
  let r0 := Z.land t nonzero in let t := Z.shiftr t 64 in
  let t := u128 (t + (not64 (d1 a) + N_1)) in
  let r1 := Z.land t nonzero in let t := Z.shiftr t 64 in
  let t := u128 (t + (not64 (d2 a) + N_2)) in
  let r2 := Z.land t nonzero in let t := Z.shiftr t 64 in
  let t := u128 (t + (not64 (d3 a) + N_3)) in
  let r3 := Z.land t nonzero in
  Scalar r0 r1 r2 r3.

Definition is_one (a : scalar) : Z :=
  c_bool (Z.lor (Z.lor (Z.lor (Z.lxor (d0 a) 1) (d1 a)) (d2 a)) (d3 a) =? 0).

Definition is_high (a : scalar) : Z :=
  let yes := 0 in
  let no := 0 in
  let no := Z.lor no (c_bool (d3 a <? N_H_3)) in
  let yes := Z.lor yes (Z.land (c_bool (d3 a >? N_H_3)) (Z.lnot no)) in
  let no := Z.lor no (Z.land (c_bool (d2 a <? N_H_2)) (Z.lnot yes)) in
  let no := Z.lor no (Z.land (c_bool (d1 a <? N_H_1)) (Z.lnot yes)) in
  let yes := Z.lor yes (Z.land (c_bool (d1 a >? N_H_1)) (Z.lnot no)) in
  let yes := Z.lor yes (Z.land (c_bool (d0 a >? N_H_0)) (Z.lnot no)) in
  yes.

Definition wnaf_force_odd (r : scalar) : scalar * Z :=
  let mask := u64 (Z.land (d0 r) 1 - 1) in
  let nonzero := u64 (c_bool (negb (is_zero r =? 0)) - 1) in
  let t := u128 (Z.lxor (d0 r) mask + Z.land (u64 (N_0 + 1)) mask) in
  let r0 := Z.land t nonzero in let t := Z.shiftr t 64 in
  let t := u128 (t + (Z.lxor (d1 r) mask + Z.land N_1 mask)) in
  let r1 := Z.land t nonzero in let t := Z.shiftr t 64 in
  let t := u128 (t + (Z.lxor (d2 r) mask + Z.land N_2 mask)) in
  let r2 := Z.land t nonzero in let t := Z.shiftr t 64 in
  let t := u128 (t + (Z.lxor (d3 r) mask + Z.land N_3 mask)) in
  let r3 := Z.land t nonzero in
  (Scalar r0 r1 r2 r3, 2 * c_bool (mask =? 0) - 1).

(** The accumulator macros at word size 64, with a third word of 64 bits in
    the reduction and of 32 bits in the products. *)
Definition muladd := Accumulator.muladd 64 64.
Definition muladd_fast := Accumulator.muladd_fast 64.
Definition sumadd := Accumulator.sumadd 64 64.
Definition sumadd_fast := Accumulator.sumadd_fast 64.
Definition muladd160 := Accumulator.muladd 64 32.
Definition muladd2_160 := Accumulator.muladd2 64 32.

(** uint64_t l[8]. *)
Record wide := Wide { w0 : Z; w1 : Z; w2 : Z; w3 : Z; w4 : Z; w5 : Z; w6 : Z; w7 : Z }.

Definition wlimb (l : wide) (i : Z) : Z :=
  nth (Z.to_nat i) [w0 l; w1 l; w2 l; w3 l; w4 l; w5 l; w6 l; w7 l] 0.

(** m[0..6] = l[0..3] + n[0..3] * SECP256K1_N_C: 512 bits into 385. *)
Definition reduce_512_m (l : wide) : list Z :=
  let n0 := w4 l in let n1 := w5 l in let n2 := w6 l in let n3 := w7 l in
  let c := Acc (w0 l) 0 0 in
  let c := muladd_fast n0 N_C_0 c in
  let '(m0, c) := extract_fast c in
  let c := sumadd_fast (w1 l) c in
  let c := muladd n1 N_C_0 c in
  let c := muladd n0 N_C_1 c in
  let '(m1, c) := extract c in
  let c := sumadd (w2 l) c in
  let c := muladd n2 N_C_0 c in
  let c := muladd n1 N_C_1 c in
  let c := sumadd n0 c in
  let '(m2, c) := extract c in
  let c := sumadd (w3 l) c in
  let c := muladd n3 N_C_0 c in
  let c := muladd n2 N_C_1 c in
  let c := sumadd n1 c in
  let '(m3, c) := extract c in
  let c := muladd n3 N_C_1 c in
  let c := sumadd n2 c in
  let '(m4, c) := extract c in
  let c := sumadd_fast n3 c in
  let '(m5, c) := extract_fast c in
  let m6 := u32 (c0 c) in
  [m0; m1; m2; m3; m4; m5; m6].

(** p[0..4] = m[0..3] + m[4..6] * SECP256K1_N_C: 385 bits into 258. *)
Definition reduce_512_p (m0 m1 m2 m3 m4 m5 m6 : Z) : list Z :=
  let c := Acc m0 0 0 in
  let c := muladd_fast m4 N_C_0 c in
  let '(p0, c) := extract_fast c in
  let c := sumadd_fast m1 c in
  let c := muladd m5 N_C_0 c in
  let c := muladd m4 N_C_1 c in
  let '(p1, c) := extract c in
  let c := sumadd m2 c in
  let c := muladd m6 N_C_0 c in
  let c := muladd m5 N_C_1 c in
  let c := sumadd m4 c in
  let '(p2, c) := extract c in
  let c := sumadd_fast m3 c in
  let c := muladd_fast m6 N_C_1 c in
  let c := sumadd_fast m5 c in
  let '(p3, c) := extract_fast c in
  let p4 := u32 (u64 (c0 c + m6)) in
  [p0; p1; p2; p3; p4].

(** r[0..3] = p[0..3] + p[4] * SECP256K1_N_C, and the final reduction. *)
Definition reduce_512_r (p0 p1 p2 p3 p4 : Z) : scalar :=
  let c := u128 (p0 + N_C_0 * p4) in
  let r0 := Z.land c 0xFFFFFFFFFFFFFFFF in let c := Z.shiftr c 64 in
  let c := u128 (c + (p1 + N_C_1 * p4)) in
  let r1 := Z.land c 0xFFFFFFFFFFFFFFFF in let c := Z.shiftr c 64 in
  let c := u128 (c + (p2 + p4)) in
  let r2 := Z.land c 0xFFFFFFFFFFFFFFFF in let c := Z.shiftr c 64 in
  let c := u128 (c + p3) in
  let r3 := Z.land c 0xFFFFFFFFFFFFFFFF in let c := Z.shiftr c 64 in
  let r := Scalar r0 r1 r2 r3 in
  fst (reduce r (u32 (c + check_overflow r))).

Definition reduce_512 (l : wide) : scalar :=
  match reduce_512_m l with
  | [m0; m1; m2; m3; m4; m5; m6] =>
      match reduce_512_p m0 m1 m2 m3 m4 m5 m6 with
      | [p0; p1; p2; p3; p4] => reduce_512_r p0 p1 p2 p3 p4
      | _ => clear
      end
  | _ => clear
  end.

Definition mul_512 (a b : scalar) : wide :=
  let c := Acc 0 0 0 in
  let c := muladd_fast (d0 a) (d0 b) c in
  let '(l0, c) := extract_fast c in
  let c := muladd160 (d0 a) (d1 b) c in
  let c := muladd160 (d1 a) (d0 b) c in
  let '(l1, c) := extract c in
  let c := muladd160 (d0 a) (d2 b) c in
  let c := muladd160 (d1 a) (d1 b) c in
  let c := muladd160 (d2 a) (d0 b) c in
  let '(l2, c) := extract c in
  let c := muladd160 (d0 a) (d3 b) c in
  let c := muladd160 (d1 a) (d2 b) c in
  let c := muladd160 (d2 a) (d1 b) c in
  let c := muladd160 (d3 a) (d0 b) c in
  let '(l3, c) := extract c in
  let c := muladd160 (d1 a) (d3 b) c in
  let c := muladd160 (d2 a) (d2 b) c in
  let c := muladd160 (d3 a) (d1 b) c in
  let '(l4, c) := extract c in
  let c := muladd160 (d2 a) (d3 b) c in
  let c := muladd160 (d3 a) (d2 b) c in
  let '(l5, c) := extract c in
  let c := muladd_fast (d3 a) (d3 b) c in
  let '(l6, c) := extract_fast c in
  let l7 := c0 c in
  Wide l0 l1 l2 l3 l4 l5 l6 l7.

Definition sqr_512 (a : scalar) : wide :=
  let c := Acc 0 0 0 in
  let c := muladd_fast (d0 a) (d0 a) c in
  let '(l0, c) := extract_fast c in
  let c := muladd2_160 (d0 a) (d1 a) c in
  let '(l1, c) := extract c in
  let c := muladd2_160 (d0 a) (d2 a) c in
  let c := muladd160 (d1 a) (d1 a) c in
  let '(l2, c) := extract c in
  let c := muladd2_160 (d0 a) (d3 a) c in
  let c := muladd2_160 (d1 a) (d2 a) c in
  let '(l3, c) := extract c in
  let c := muladd2_160 (d1 a) (d3 a) c in
  let c := muladd160 (d2 a) (d2 a) c in
  let '(l4, c) := extract c in
  let c := muladd2_160 (d2 a) (d3 a) c in
  let '(l5, c) := extract c in
  let c := muladd_fast (d3 a) (d3 a) c in
  let '(l6, c) := extract_fast c in
  let l7 := c0 c in
  Wide l0 l1 l2 l3 l4 l5 l6 l7.

Definition mul (a b : scalar) : scalar := reduce_512 (mul_512 a b).

Definition shr_int (r : scalar) (n : Z) : scalar * Z :=
  let ret := Z.land (d0 r) (Z.shiftl 1 n - 1) in
  let r0 := u64 (Z.shiftr (d0 r) n + u64 (Z.shiftl (d1 r) (64 - n))) in
  let r1 := u64 (Z.shiftr (d1 r) n + u64 (Z.shiftl (d2 r) (64 - n))) in
  let r2 := u64 (Z.shiftr (d2 r) n + u64 (Z.shiftl (d3 r) (64 - n))) in
  let r3 := Z.shiftr (d3 r) n in
  (Scalar r0 r1 r2 r3, ret).

Definition sqr (a : scalar) : scalar := reduce_512 (sqr_512 a).

Definition split_128 (a : scalar) : scalar * scalar := (Scalar (d0 a) (d1 a) 0 0, Scalar (d2 a) (d3 a) 0 0).

Definition eq (a b : scalar) : Z :=
  c_bool (Z.lor (Z.lor (Z.lor (Z.lxor (d0 a) (d0 b)) (Z.lxor (d1 a) (d1 b))) (Z.lxor (d2 a) (d2 b))) (Z.lxor (d3 a) (d3 b)) =? 0).

Definition mul_shift_var (a b : scalar) (shift : Z) : scalar :=
  let l := mul_512 a b in
  let shiftlimbs := Z.shiftr shift 6 in
  let shiftlow := Z.land shift 0x3F in
  let shifthigh := 64 - shiftlow in
  let r0 := if shift <? 512 then Z.lor (Z.shiftr (wlimb l (0 + shiftlimbs)) shiftlow)
    (if (shift <? 448) && negb (shiftlow =? 0) then u64 (Z.shiftl (wlimb l (1 + shiftlimbs)) shifthigh) else 0) else 0 in
  let r1 := if shift <? 448 then Z.lor (Z.shiftr (wlimb l (1 + shiftlimbs)) shiftlow)
    (if (shift <? 384) && negb (shiftlow =? 0) then u64 (Z.shiftl (wlimb l (2 + shiftlimbs)) shifthigh) else 0) else 0 in
  let r2 := if shift <? 384 then Z.lor (Z.shiftr (wlimb l (2 + shiftlimbs)) shiftlow)
    (if (shift <? 320) && negb (shiftlow =? 0) then u64 (Z.shiftl (wlimb l (3 + shiftlimbs)) shifthigh) else 0) else 0 in
  let r3 := if shift <? 320 then Z.shiftr (wlimb l (3 + shiftlimbs)) shiftlow else 0 in
  let r := Scalar r0 r1 r2 r3 in
  if negb (Z.land (Z.shiftr (wlimb l (Z.shiftr (shift - 1) 6)) (Z.land (shift - 1) 0x3F)) 1 =? 0)
  then add_bit r 0 else r.

(** ** Values *)

Definition val (a : scalar) : Z := d0 a + 2 ^ 64 * d1 a + 2 ^ 128 * d2 a + 2 ^ 192 * d3 a.

Abbreviation M64 := 0xFFFFFFFFFFFFFFFF.

Record wf (a : scalar) : Prop := {
  wf0 : Bnd (d0 a) M64; wf1 : Bnd (d1 a) M64; wf2 : Bnd (d2 a) M64; wf3 : Bnd (d3 a) M64 }.

Lemma val_range4 a : wf a -> 0 <= val a < 2 ^ 256.
Proof. intros []; bnds; unfold val; lia. Qed.

Ltac n_c_consts4 :=
  change N_C_0 with 0x402DA1732FC9BEBF in *; change N_C_1 with 0x4551231950B75FC4 in *; change N_C_2 with 1 in *.

Ltac n_consts4 := unfold N_0, N_1, N_2, N_3, N_H_0, N_H_1, N_H_2, N_H_3 in *; n_c_consts4.

Lemma check_overflow_spec4 a : wf a -> check_overflow a = (if val a <? order then 0 else 1).
Proof.
  intros [W0 W1 W2 W3]; bnds.
  sym_open (check_overflow a) check_overflow.
  repeat flag_step; sym_close; unfold val, order; n_consts4;
    match goal with |- context [?x <? ?y] => destruct (Z.ltb_spec x y) end; lia.
Qed.

Lemma reduce_spec4 r o :
  wf r -> Bnd o 1 ->
  let '(r', o') := reduce r o in
  wf r' /\ o' = o /\ val r' = (val r + o * (2 ^ 256 - order)) mod 2 ^ 256.
Proof.
  intros [W0 W1 W2 W3] Ho.
  sym_open (reduce r o) reduce. repeat sym_word. sym_close.
  carry_eqs. n_consts4. bnds.
  split; [constructor; unfold Bnd; cbn; lia |]. split; [reflexivity |].
  unfold val; cbn [d0 d1 d2 d3].
  apply Z.mod_unique with q; unfold order; lia.
Qed.

Definition ok (a : scalar) : Prop := wf a /\ val a < order.

Lemma final_reduce4 r c :
  wf r -> 0 <= c <= 1 -> val r + 2 ^ 256 * c < 2 * order ->
  let o := c + check_overflow r in
  Bnd o 1 /\ o = (if val r + 2 ^ 256 * c <? order then 0 else 1) /\
  ok (fst (reduce r o)) /\ val (fst (reduce r o)) = (val r + 2 ^ 256 * c) mod order.
Proof.
  intros W Hc Hv. pose proof (val_range4 r W) as Hr. cbv zeta.
  rewrite (check_overflow_spec4 r W).
  assert (Hm : forall k, k = 0 \/ k = 1 -> k * order <= val r + 2 ^ 256 * c < (k + 1) * order ->
            let '(r', _) := reduce r k in
            ok r' /\ val r' = (val r + 2 ^ 256 * c) mod order).
  { intros k Hk Hb. pose proof (reduce_spec4 r k W ltac:(unfold Bnd; lia)) as R.
    destruct (reduce r k) as [r' o']. destruct R as (W' & _ & V').
    assert (E : val r' = val r + 2 ^ 256 * c - k * order).
    { rewrite V'. symmetry. apply Z.mod_unique with (k - c); unfold order in *; lia. }
    split; [split; [exact W' | lia] |]. rewrite E.
    apply Z.mod_unique with k; lia. }
  destruct (Z.ltb_spec (val r) order) as [L | L];
    destruct (Z.ltb_spec (val r + 2 ^ 256 * c) order) as [L' | L'];
    [ | | unfold order in *; lia | ].
  - assert (c = 0) as -> by (unfold order in *; lia).
    specialize (Hm 0 ltac:(lia) ltac:(lia)). cbn [Z.add].
    destruct (reduce r 0); cbn [fst]. unfold Bnd; intuition lia.
  - assert (c = 1) as -> by (unfold order in *; lia).
    specialize (Hm 1 ltac:(lia) ltac:(lia)). change (1 + 0) with 1.
    destruct (reduce r 1); cbn [fst]. unfold Bnd; intuition lia.
  - assert (c = 0) as -> by (unfold order in *; lia).
    specialize (Hm 1 ltac:(lia) ltac:(lia)). change (0 + 1) with 1.
    destruct (reduce r 1); cbn [fst]. unfold Bnd; intuition lia.
Qed.

Lemma add_spec4 a b :
  ok a -> ok b ->
  let '(r, overflow) := add a b in
  ok r /\ val r = (val a + val b) mod order /\
  overflow = (if val a + val b <? order then 0 else 1).
Proof.
  intros [[] Va] [[] Vb].
  sym_open (add a b) add. do 12 sym_word.
  sym_let. subst r.
  carry_eqs.
  match goal with |- context [check_overflow ?r] => set (r0' := r) in * end.
  assert (W : wf r0') by (constructor; unfold r0'; cbn; eapply bnd_weaken; eauto; lia).
  assert (E : val r0' + 2 ^ 256 * t6 = val a + val b)
    by (unfold r0', val; cbn [d0 d1 d2 d3]; bnds; lia).
  assert (Ht : 0 <= t6 <= 1) by (bnds; lia).
  pose proof (final_reduce4 r0' t6 W Ht ltac:(lia)) as F. cbv zeta in F.
  repeat sym_let. sym_close. subst overflow.
  rewrite Er in F. cbn [fst] in F. rewrite E in F. intuition.
Qed.

Lemma is_zero_spec4 a : wf a -> is_zero a = (if val a =? 0 then 1 else 0).
Proof.
  intros []; unfold is_zero. bnds.
  destruct (Z.eqb_spec (val a) 0) as [E | E]; unfold val in E.
  - assert (d0 a = 0 /\ d1 a = 0 /\ d2 a = 0 /\ d3 a = 0) as (-> & -> & -> & ->) by lia. reflexivity.
  - match goal with |- c_bool (?x =? 0) = _ => destruct (Z.eqb_spec x 0) as [Z | Z] end; [| reflexivity].
    rewrite !Z.lor_eq_0_iff in Z. lia.
Qed.

Lemma not64_eq x : Bnd x M64 -> not64 x = M64 - x.
Proof.
  unfold Bnd, not64, u64, Z.lnot; intros. symmetry. apply Z.mod_unique with (-1); lia.
Qed.

Lemma negate_spec4 a : ok a -> ok (negate a) /\ val (negate a) = (- val a) mod order.
Proof.
  intros [W V]. pose proof (is_zero_spec4 a W) as Z. pose proof (val_range4 a W) as R.
  destruct W as [W0 W1 W2 W3].
  sym_open (negate a) negate. sym_let. rewrite Z in Enonzero.
  destruct (Z.eqb_spec (val a) 0) as [E | E]; cbn [c_bool] in Enonzero;
    change (c_bool (0 =? 0)) with 1 in Enonzero; change (c_bool (1 =? 0)) with 0 in Enonzero;
    vm_compute in Enonzero; subst nonzero.
  - repeat sym_let. sym_close. rewrite Z.land_0_r in *. subst. rewrite E.
    split; [split; [constructor; unfold Bnd; cbn; lia | reflexivity] | reflexivity].
  - repeat sym_word. sym_close. carry_eqs.
    rewrite !not64_eq in * by assumption. n_consts4.
    assert (Ev : val (Scalar r0 r1 r2 r3) = order - val a)
      by (unfold val in *; cbn [d0 d1 d2 d3]; unfold order in *; bnds; lia).
    rewrite Ev. split; [split; [constructor; cbn; assumption | rewrite Ev; lia] |].
    apply Z.mod_unique with (-1); lia.
Qed.

Definition wval (l : wide) : Z :=
  w0 l + 2 ^ 64 * w1 l + 2 ^ 128 * w2 l + 2 ^ 192 * w3 l
  + 2 ^ 256 * w4 l + 2 ^ 320 * w5 l + 2 ^ 384 * w6 l + 2 ^ 448 * w7 l.

Record wwf (l : wide) : Prop := {
  ww0 : Bnd (w0 l) M64; ww1 : Bnd (w1 l) M64; ww2 : Bnd (w2 l) M64; ww3 : Bnd (w3 l) M64;
  ww4 : Bnd (w4 l) M64; ww5 : Bnd (w5 l) M64; ww6 : Bnd (w6 l) M64; ww7 : Bnd (w7 l) M64 }.

Lemma acc_init4 wt x : 0 < wt -> Bnd x M64 -> acc_ok 64 wt (Acc x 0 0) x.
Proof. unfold Bnd, acc_ok, aval; cbn; intros. pose proof (Z.pow_pos_nonneg 2 wt). lia. Qed.

Ltac macros4 := cbv beta delta [muladd muladd_fast sumadd sumadd_fast muladd160 muladd2_160].

Lemma w64_pos : 0 < 64. Proof. lia. Qed.
Lemma w64_le : 0 < 64 <= 64. Proof. lia. Qed.
Lemma w160_le : 0 < 32 <= 64. Proof. lia. Qed.

Lemma mul_512_spec4 a b :
  wf a -> wf b -> wwf (mul_512 a b) /\ wval (mul_512 a b) = val a * val b.
Proof.
  intros [A0 A1 A2 A3] [B0 B1 B2 B3].
  sym_open (mul_512 a b) mul_512. macros4.
  pose proof (acc_init4 32 0 ltac:(lia) ltac:(unfold Bnd; lia)) as Hacc.
  sym_let. rewrite <- Ec in Hacc.
  repeat acc_step w64_pos w160_le. acc_last w64_pos w160_le.
  sym_close. split; [constructor; cbn; try assumption; eapply bnd_weaken; eauto; lia |].
  unfold wval, val; cbn [w0 w1 w2 w3 w4 w5 w6 w7]. solve_digits.
Qed.

Lemma sqr_512_spec4 a :
  wf a -> wwf (sqr_512 a) /\ wval (sqr_512 a) = val a * val a.
Proof.
  intros [A0 A1 A2 A3].
  sym_open (sqr_512 a) sqr_512. macros4.
  pose proof (acc_init4 32 0 ltac:(lia) ltac:(unfold Bnd; lia)) as Hacc.
  sym_let. rewrite <- Ec in Hacc.
  repeat acc_step w64_pos w160_le. acc_last w64_pos w160_le.
  sym_close. split; [constructor; cbn; try assumption; eapply bnd_weaken; eauto; lia |].
  unfold wval, val; cbn [w0 w1 w2 w3 w4 w5 w6 w7]. solve_digits.
Qed.

(** The last word of a reduction step, below the contract's bound. *)
Ltac acc_word :=
  sym_let;
  match goal with E : ?x = u32 _, H : acc_ok _ _ ?c ?v |- _ =>
    rewrite (c0_small 64 64 w64_pos w64_le c v _ H ltac:(typeclasses eauto) ltac:(bnd_const)) in E;
    wrap_simpl E; bnd_record E; subst x end.

Lemma reduce_512_m_spec4 l :
  wwf l ->
  exists m0 m1 m2 m3 m4 m5 m6,
    reduce_512_m l = [m0; m1; m2; m3; m4; m5; m6] /\
    Forall (fun m => Bnd m M64) [m0; m1; m2; m3; m4; m5] /\ Bnd m6 1 /\
    exists k, wval l = order * k +
      (m0 + 2 ^ 64 * m1 + 2 ^ 128 * m2 + 2 ^ 192 * m3 + 2 ^ 256 * m4 + 2 ^ 320 * m5 + 2 ^ 384 * m6).
Proof.
  intros [].
  sym_open (reduce_512_m l) reduce_512_m. macros4. n_c_consts4.
  do 4 sym_let.
  pose proof (acc_init4 64 (w0 l) ltac:(lia) ltac:(assumption)) as Hacc.
  sym_let. rewrite <- Ec in Hacc. rewrite <- En0, <- En1, <- En2, <- En3 in *.
  repeat acc_step w64_pos w64_le. acc_word. sym_close.
  do 7 eexists; split; [reflexivity |].
  split; [solve_Forall |].
  split; [eapply bnd_weaken; eauto; lia |].
  exists (n0 + 2 ^ 64 * n1 + 2 ^ 128 * n2 + 2 ^ 192 * n3).
  unfold wval, order. rewrite <- En0, <- En1, <- En2, <- En3 in *.
  clear En0 En1 En2 En3. solve_digits.
Qed.

Lemma reduce_512_p_spec4 m0 m1 m2 m3 m4 m5 m6 :
  Forall (fun m => Bnd m M64) [m0; m1; m2; m3; m4; m5] -> Bnd m6 1 ->
  exists p0 p1 p2 p3 p4,
    reduce_512_p m0 m1 m2 m3 m4 m5 m6 = [p0; p1; p2; p3; p4] /\
    Forall (fun p => Bnd p M64) [p0; p1; p2; p3] /\ Bnd p4 3 /\
    exists k,
      m0 + 2 ^ 64 * m1 + 2 ^ 128 * m2 + 2 ^ 192 * m3 + 2 ^ 256 * m4 + 2 ^ 320 * m5 + 2 ^ 384 * m6
      = order * k + (p0 + 2 ^ 64 * p1 + 2 ^ 128 * p2 + 2 ^ 192 * p3 + 2 ^ 256 * p4).
Proof.
  intros F B6. destruct_Forall F.
  sym_open (reduce_512_p m0 m1 m2 m3 m4 m5 m6) reduce_512_p.
  macros4. n_c_consts4.
  pose proof (acc_init4 64 m0 ltac:(lia) ltac:(assumption)) as Hacc.
  sym_let. rewrite <- Ec in Hacc.
  repeat acc_step w64_pos w64_le. acc_word. sym_close. do 5 eexists; split; [reflexivity |].
  split; [solve_Forall |]. split; [eapply bnd_weaken; [eassumption | lia] |].
  exists (m4 + 2 ^ 64 * m5 + 2 ^ 128 * m6).
  unfold order. solve_digits.
Qed.

Lemma reduce_512_r_spec4 p0 p1 p2 p3 p4 :
  Forall (fun p => Bnd p M64) [p0; p1; p2; p3] -> Bnd p4 3 ->
  let r := reduce_512_r p0 p1 p2 p3 p4 in
  ok r /\ val r = (p0 + 2 ^ 64 * p1 + 2 ^ 128 * p2 + 2 ^ 192 * p3 + 2 ^ 256 * p4) mod order.
Proof.
  intros F B4. destruct_Forall F. cbv zeta.
  sym_open (reduce_512_r p0 p1 p2 p3 p4) reduce_512_r.
  n_c_consts4. do 12 sym_word. sym_let. carry_eqs. sym_close.
  assert (W : wf r) by (subst r; constructor; cbn; assumption).
  assert (E : val r + 2 ^ 256 * c6
     = p0 + 2 ^ 64 * p1 + 2 ^ 128 * p2 + 2 ^ 192 * p3 + p4 * (2 ^ 256 - order))
    by (subst r; unfold val, order; cbn [d0 d1 d2 d3]; bnds; lia).
  pose proof (val_range4 r W).
  assert (Hc : 0 <= c6 <= 1) by (unfold order in *; bnds; lia).
  assert (Hlt : val r + 2 ^ 256 * c6 < 2 * order) by (unfold order in *; bnds; lia).
  destruct (final_reduce4 r c6 W Hc Hlt) as (Bo & _ & Hok & Hv).
  rewrite (u32_id _ _ Bo eq_refl).
  split; [exact Hok |]. rewrite Hv, E.
  rewrite <- (Z_mod_plus_full _ p4 order). f_equal. lia.
Qed.

Lemma reduce_512_spec4 l : wwf l -> ok (reduce_512 l) /\ val (reduce_512 l) = wval l mod order.
Proof.
  intros W. unfold reduce_512.
  destruct (reduce_512_m_spec4 l W) as (m0 & m1 & m2 & m3 & m4 & m5 & m6 & -> & F & B6 & k & ->).
  destruct (reduce_512_p_spec4 _ _ _ _ _ _ _ F B6) as (p0 & p1 & p2 & p3 & p4 & -> & F' & B4 & k' & ->).
  destruct (reduce_512_r_spec4 _ _ _ _ _ F' B4) as [Hok ->].
  split; [exact Hok |].
  match goal with |- ?x mod _ = _ =>
    replace (order * k + (order * k' + x)) with (x + (k + k') * order) by ring end.
  symmetry; apply Z_mod_plus_full.
Qed.

Lemma mul_spec4 a b : ok a -> ok b -> ok (mul a b) /\ val (mul a b) = (val a * val b) mod order.
Proof.
  intros [Wa _] [Wb _]. destruct (mul_512_spec4 a b Wa Wb) as [W <-]. apply reduce_512_spec4, W.
Qed.

Lemma sqr_spec4 a : ok a -> ok (sqr a) /\ val (sqr a) = (val a * val a) mod order.
Proof.
  intros [Wa _]. destruct (sqr_512_spec4 a Wa) as [W <-]. apply reduce_512_spec4, W.
Qed.

(** ** Bits *)

Definition limbs (a : scalar) : list Z := [d0 a; d1 a; d2 a; d3 a].

Lemma limb_slice4 a i : wf a -> 0 <= i -> limb a i = slice (val a) (64 * i) 64.
Proof.
  intros W Hi. unfold limb. fold (limbs a).
  rewrite (nth_slice 64); [| lia |].
  - replace (leval 64 (limbs a)) with (val a) by (unfold val; cbn [leval limbs]; lia).
    rewrite Z2Nat.id by lia. reflexivity.
  - destruct W; bnds. repeat (apply Forall_cons; [lia |]). apply Forall_nil.
Qed.

Definition wlimbs (l : wide) : list Z := [w0 l; w1 l; w2 l; w3 l; w4 l; w5 l; w6 l; w7 l].

Lemma wlimb_slice4 l i : wwf l -> 0 <= i -> wlimb l i = slice (wval l) (64 * i) 64.
Proof.
  intros W Hi. unfold wlimb. fold (wlimbs l).
  rewrite (nth_slice 64); [| lia |].
  - replace (leval 64 (wlimbs l)) with (wval l) by (unfold wval; cbn [leval wlimbs]; lia).
    rewrite Z2Nat.id by lia. reflexivity.
  - destruct W; bnds. repeat (apply Forall_cons; [lia |]). apply Forall_nil.
Qed.

Lemma split_offset4 o : 0 <= o ->
  Z.shiftr o 6 = o / 64 /\ Z.land o 0x3F = o mod 64 /\ o = 64 * (o / 64) + o mod 64 /\ 0 <= o mod 64 < 64
  /\ 0 <= o / 64.
Proof.
  intros. change 0x3F with (Z.ones 6). rewrite Z.shiftr_div_pow2, Z.land_ones by lia.
  change (2 ^ 6) with 64. pose proof (Z.div_mod o 64). pose proof (Z.mod_pos_bound o 64).
  pose proof (Z.div_pos o 64). repeat split; lia.
Qed.

(** The masks of the two functions that read bits. *)
Lemma count_mask count : 0 < count < 32 -> u64 (u64 (Z.shiftl 1 count) - 1) = Z.ones count.
Proof.
  intros Hc. assert (0 < 2 ^ count < 2 ^ 32)
    by (pose proof (Z.pow_lt_mono_r 2 count 32); pose proof (Z.pow_pos_nonneg 2 count); lia).
  rewrite Z.shiftl_mul_pow2, Z.ones_equiv by lia. unfold u64.
  rewrite Z.mul_1_l, (Z.mod_small (2 ^ count)), Z.mod_small by lia. lia.
Qed.

Lemma u32_low x count : 0 < count < 32 -> u32 (slice x 0 count) = slice x 0 count.
Proof.
  intros Hc. apply Z.mod_small. pose proof (slice_range x 0 count). pose proof (Z.pow_lt_mono_r 2 count 32). lia.
Qed.

Lemma land_ones_slice x count : 0 <= count -> Z.land x (Z.ones count) = slice x 0 count.
Proof. intros. unfold slice. rewrite Z.land_ones, Z.pow_0_r, Z.div_1_r by lia. reflexivity. Qed.

Lemma get_bits_spec4 a offset count :
  wf a -> 0 <= offset -> 0 < count < 32 -> Z.shiftr (offset + count - 1) 6 = Z.shiftr offset 6 ->
  get_bits a offset count = slice (val a) offset count.
Proof.
  intros W Ho Hc Hs. unfold get_bits.
  destruct (split_offset4 offset Ho) as (E1 & E2 & E3 & E4 & E5).
  destruct (split_offset4 (offset + count - 1) ltac:(lia)) as (F1 & _ & F3 & F4 & _).
  rewrite F1, E1 in Hs. rewrite E1, E2, count_mask, limb_slice4 by (assumption || lia).
  rewrite land_ones_slice, u32_low by lia.
  by_bits. rewrite !slice_spec, Z.shiftr_spec, slice_spec by lia.
  replace (n + 0 + offset mod 64 + 64 * (offset / 64)) with (n + offset) by lia.
  destruct (Z.ltb_spec n count), (Z.ltb_spec (n + 0 + offset mod 64) 64); try lia; reflexivity.
Qed.

Lemma get_bits_var_spec4 a offset count :
  wf a -> 0 <= offset -> 0 < count < 32 -> get_bits_var a offset count = slice (val a) offset count.
Proof.
  intros W Ho Hc. unfold get_bits_var.
  destruct (Z.eqb_spec (Z.shiftr (offset + count - 1) 6) (Z.shiftr offset 6)) as [E | E];
    [apply get_bits_spec4; assumption |].
  destruct (split_offset4 offset Ho) as (E1 & E2 & E3 & E4 & E5).
  destruct (split_offset4 (offset + count - 1) ltac:(lia)) as (F1 & _ & F3 & F4 & _).
  rewrite F1, E1 in E. rewrite E1, E2, count_mask, !limb_slice4 by (assumption || lia).
  replace (64 * (offset / 64 + 1)) with (64 * (offset / 64) + 64) by lia.
  unfold u64. rewrite (join_lor (val a) (64 * (offset / 64)) (offset mod 64) 64) by lia.
  rewrite <- E3, land_ones_slice, u32_low by lia.
  by_bits. rewrite !slice_spec by lia. rewrite Z.add_0_r.
  destruct (Z.ltb_spec n count), (Z.ltb_spec n 64); try lia; reflexivity.
Qed.

(** Four consecutive 64-bit slices make a scalar. *)
Lemma val_slices4 x off :
  0 <= off -> 0 <= x / 2 ^ off < 2 ^ 256 ->
  let a := Scalar (slice x off 64) (slice x (off + 64) 64) (slice x (off + 128) 64) (slice x (off + 192) 64) in
  wf a /\ val a = x / 2 ^ off.
Proof.
  intros Ho Hx. cbv zeta. split.
  - constructor; cbn; match goal with |- Bnd (slice x ?o 64) _ =>
      pose proof (slice_range x o 64 ltac:(lia)); unfold Bnd; lia end.
  - pose proof (leval_slices 64 4 x off ltac:(lia) Ho) as E.
    rewrite Z.mod_small in E by (change (64 * Z.of_nat 4) with 256; lia).
    rewrite <- E. cbn [leval slices]. unfold val; cbn [d0 d1 d2 d3].
    rewrite <- !Z.add_assoc. change (64 + 64) with 128; change (64 + 128) with 192. lia.
Qed.

Lemma limbs_eq4 a : wf a ->
  d0 a = slice (val a) 0 64 /\ d1 a = slice (val a) 64 64 /\
  d2 a = slice (val a) 128 64 /\ d3 a = slice (val a) 192 64.
Proof.
  intros W. repeat split; [apply (limb_slice4 a 0) | apply (limb_slice4 a 1) | apply (limb_slice4 a 2) | apply (limb_slice4 a 3)];
    auto; lia.
Qed.

Lemma val_inj4 a b : wf a -> wf b -> val a = val b -> a = b.
Proof.
  intros Wa Wb E.
  destruct (limbs_eq4 a Wa) as (A0 & A1 & A2 & A3), (limbs_eq4 b Wb) as (B0 & B1 & B2 & B3).
  rewrite E, <- B0, <- B1, <- B2, <- B3 in *. destruct a, b; cbn in *; congruence.
Qed.

Lemma join_u64 V o o' n :
  0 <= o -> 0 <= n < 64 -> o' = o + 64 ->
  u64 (Z.shiftr (slice V o 64) n + u64 (Z.shiftl (slice V o' 64) (64 - n))) = slice V (n + o) 64.
Proof.
  intros Ho Hn ->. unfold u64 at 2. rewrite join_add, (Z.add_comm o n) by lia. apply u64_slice.
Qed.

Lemma shr_int_spec4 r n :
  wf r -> 0 < n < 16 ->
  let '(r', low) := shr_int r n in
  wf r' /\ val r' = val r / 2 ^ n /\ low = val r mod 2 ^ n.
Proof.
  intros W Hn. pose proof (val_range4 r W) as R.
  assert (P : 2 ^ 1 <= 2 ^ n) by (apply Z.pow_le_mono_r; lia).
  assert (Q : 0 <= val r / 2 ^ n < 2 ^ 256)
    by (split; [apply Z.div_pos; lia | apply Z.div_lt_upper_bound; nia]).
  pose proof (val_slices4 (val r) n ltac:(lia) Q) as S. cbv zeta in S.
  destruct (limbs_eq4 r W) as (D0 & D1 & D2 & D3).
  unfold shr_int. cbv zeta. rewrite D0, D1, D2, D3.
  rewrite !join_u64 by lia. rewrite slice_top by lia.
  rewrite ones_sub, Z.land_ones, slice_low by lia.
  rewrite (Z.add_comm 192 n), Z.add_0_r. intuition.
Qed.

(** ** Adding a power of two *)

Definition bit_word (bit i : Z) : Z := u64 (Z.shiftl (c_bool (Z.shiftr bit 6 =? i)) (Z.land bit 0x3F)).

Lemma bit_word_eq bit i :
  0 <= bit < 256 -> bit_word bit i = if bit / 64 =? i then 2 ^ (bit mod 64) else 0.
Proof.
  intros Hb. destruct (split_offset4 bit ltac:(lia)) as (E1 & E2 & E3 & E4 & E5).
  unfold bit_word, u64. rewrite E1, E2.
  assert (0 < 2 ^ (bit mod 64) <= 2 ^ 63)
    by (split; [apply Z.pow_pos_nonneg | apply Z.pow_le_mono_r]; lia).
  destruct (bit / 64 =? i); cbn [c_bool]; rewrite Z.shiftl_mul_pow2 by lia; rewrite Z.mod_small; lia.
Qed.

Lemma bit_word_sum4 bit :
  0 <= bit < 256 ->
  bit_word bit 0 + 2 ^ 64 * bit_word bit 1 + 2 ^ 128 * bit_word bit 2 + 2 ^ 192 * bit_word bit 3 = 2 ^ bit.
Proof.
  intros Hb. rewrite !bit_word_eq by assumption. destruct (split_offset4 bit ltac:(lia)) as (_ & _ & E3 & E4 & E5).
  rewrite E3 at 9. rewrite Z.pow_add_r by lia.
  assert (bit / 64 = 0 \/ bit / 64 = 1 \/ bit / 64 = 2 \/ bit / 64 = 3) as [E | [E | [E | E]]] by lia;
    rewrite E; cbn -[Z.pow Z.mul Z.add]; lia.
Qed.

Lemma add_bit_spec4 r bit :
  wf r -> 0 <= bit < 256 -> val r + 2 ^ bit < 2 ^ 256 ->
  wf (add_bit r bit) /\ val (add_bit r bit) = val r + 2 ^ bit.
Proof.
  intros [W0 W1 W2 W3] Hb Hv. rewrite <- (bit_word_sum4 bit Hb) in *.
  assert (Bw : forall i, Bnd (bit_word bit i) M64) by (intros; apply Bnd_u64).
  sym_open (add_bit r bit) add_bit.
  repeat match goal with |- context [u64 (Z.shiftl (c_bool (Z.shiftr bit 6 =? ?i)) (Z.land bit 0x3F))] =>
    change (u64 (Z.shiftl (c_bool (Z.shiftr bit 6 =? i)) (Z.land bit 0x3F))) with (bit_word bit i) end.
  repeat sym_word. sym_close. carry_eqs.
  assert (W : wf (Scalar r0 r1 r2 r3)) by (constructor; cbn; assumption).
  split; [exact W |]. clear W. unfold val in *. bnds. cbn [d0 d1 d2 d3]. lia.
Qed.

(** ** Multiplication with rounding shift *)

Lemma shift_limb4 l V shift i j top top2 :
  wwf l -> V = wval l -> 0 <= V < 2 ^ 512 -> 256 <= shift -> 0 <= i -> j = i + 1 ->
  top = 512 - 64 * i -> top2 = 448 - 64 * i ->
  (if shift <? top then
     Z.lor (Z.shiftr (wlimb l (i + Z.shiftr shift 6)) (Z.land shift 0x3F))
       (if (shift <? top2) && negb (Z.land shift 0x3F =? 0)
        then u64 (Z.shiftl (wlimb l (j + Z.shiftr shift 6)) (64 - Z.land shift 0x3F)) else 0)
   else 0) = slice V (shift + 64 * i) 64.
Proof.
  intros W -> HV Hs Hi -> -> ->. destruct (split_offset4 shift ltac:(lia)) as (E1 & E2 & E3 & E4 & E5).
  rewrite E1, E2.
  destruct (Z.ltb_spec shift (512 - 64 * i)) as [L | L].
  2: { symmetry. apply slice_zero; [lia |]. split; [lia |].
       apply Z.lt_le_trans with (2 ^ 512); [lia | apply Z.pow_le_mono_r; lia]. }
  rewrite !wlimb_slice4 by (assumption || lia).
  replace (64 * (i + 1 + shift / 64)) with (64 * (i + shift / 64) + 64) by lia.
  replace (shift + 64 * i) with (64 * (i + shift / 64) + shift mod 64) by lia.
  rewrite <- (join_lor (wval l) (64 * (i + shift / 64)) (shift mod 64) 64) by lia.
  f_equal. destruct (Z.ltb_spec shift (448 - 64 * i)) as [L2 | L2]; cbn [andb].
  - destruct (Z.eqb_spec (shift mod 64) 0) as [E | E]; cbn [negb]; [| reflexivity].
    rewrite E, Z.sub_0_r, Z.shiftl_mul_pow2, Z_mod_mult by lia. reflexivity.
  - rewrite (slice_zero (wval l) _ 64), Z.shiftl_0_l, Zmod_0_l; try lia.
    split; [lia |]. apply Z.lt_le_trans with (2 ^ 512); [lia | apply Z.pow_le_mono_r; lia].
Qed.

Lemma shift_limb_top4 l V shift :
  wwf l -> V = wval l -> 0 <= V < 2 ^ 512 -> 256 <= shift ->
  (if shift <? 320 then Z.shiftr (wlimb l (3 + Z.shiftr shift 6)) (Z.land shift 0x3F) else 0)
  = slice V (shift + 192) 64.
Proof.
  intros W E HV Hs. change 192 with (64 * 3). rewrite <- (shift_limb4 l V shift 3 4 320 256) by (auto; lia).
  destruct (Z.ltb_spec shift 256); [lia |]. cbn [andb]. now rewrite Z.lor_0_r.
Qed.

Lemma round_bit4 l shift :
  wwf l -> 256 <= shift <= 512 ->
  Z.land (Z.shiftr (wlimb l (Z.shiftr (shift - 1) 6)) (Z.land (shift - 1) 0x3F)) 1
  = slice (wval l) (shift - 1) 1.
Proof.
  intros W Hs. destruct (split_offset4 (shift - 1) ltac:(lia)) as (E1 & E2 & E3 & E4 & E5).
  rewrite E1, E2, wlimb_slice4 by (assumption || lia).
  match goal with |- Z.land ?x 1 = ?y => change (Z.land x (Z.ones 1) = y) end.
  by_bits. rewrite Z.land_spec, Z.shiftr_spec, !slice_spec, Z.testbit_ones by lia.
  destruct (Z.ltb_spec n 1), (Z.leb_spec 0 n), (Z.ltb_spec (n + (shift - 1) mod 64) 64);
    try lia; cbn [andb]; rewrite ?andb_false_r, ?andb_true_r; try reflexivity. f_equal; lia.
Qed.

Lemma mul_shift_var_spec4 a b shift :
  ok a -> ok b -> 256 <= shift <= 512 ->
  let r := mul_shift_var a b shift in
  wf r /\ val r = (val a * val b) / 2 ^ shift + slice (val a * val b) (shift - 1) 1.
Proof.
  intros [Wa Va] [Wb Vb] Hs. cbv zeta. unfold mul_shift_var. cbv zeta.
  destruct (mul_512_spec4 a b Wa Wb) as [W E]. set (l := mul_512 a b) in *. clearbody l.
  pose proof (val_range4 a Wa) as Ra. pose proof (val_range4 b Wb) as Rb.
  assert (HV : 0 <= wval l < 2 ^ 512) by (rewrite E; nia).
  assert (Hlt : 0 <= wval l < order * order) by (rewrite E; nia).
  rewrite <- E in *. clear E.
  rewrite (shift_limb4 l _ shift 0 1 512 448), (shift_limb4 l _ shift 1 2 448 384),
    (shift_limb4 l _ shift 2 3 384 320), (shift_limb_top4 l _ shift) by (auto; lia).
  assert (Q : 0 <= wval l / 2 ^ shift < 2 ^ 256 - 1) by (apply S8.shifted_small; lia).
  destruct (val_slices4 (wval l) shift ltac:(lia) ltac:(lia)) as [Wr Er].
  rewrite Z.mul_0_r, Z.add_0_r.
  match type of Er with val ?x = _ => change (Scalar _ _ _ _) with x end.
  set (r := Scalar _ _ _ _) in *. clearbody r.
  rewrite round_bit4 by (assumption || lia).
  pose proof (slice_range (wval l) (shift - 1) 1 ltac:(lia)) as Rb1. change (2 ^ 1) with 2 in Rb1.
  destruct (Z.eqb_spec (slice (wval l) (shift - 1) 1) 0) as [E0 | E0]; cbn [negb].
  - rewrite E0, Z.add_0_r. auto.
  - destruct (add_bit_spec4 r 0 Wr ltac:(lia) ltac:(lia)) as [Wr' Er']. split; [exact Wr' |]. lia.
Qed.

(** ** Byte strings *)

Lemma word_at_spec b i :
  bytes b -> (i + 8 <= length b)%nat -> word_at b i = be_val (firstn 8 (skipn i b)) /\ Bnd (word_at b i) M64.
Proof.
  intros Hb Hi. unfold word_at, at8. rewrite <- (firstn_skipn i b) in Hb at 1. apply Forall_app in Hb as [_ Hb].
  assert (N : forall k, nth (i + k) b 0 = nth k (skipn i b) 0) by (intros; rewrite nth_skipn; reflexivity).
  pose proof (N 0%nat) as N0. rewrite Nat.add_0_r in N0. rewrite N0, !N. clear N0. assert (L : (8 <= length (skipn i b))%nat) by (rewrite length_skipn; lia).
  clear N. destruct (skipn i b) as [| b0 [| b1 [| b2 [| b3 [| b4 [| b5 [| b6 [| b7 rest]]]]]]]]; cbn [length] in L; try lia.
  cbn [nth firstn]. clear L Hi. unfold bytes in Hb. do 8 (apply Forall_cons_iff in Hb as [? Hb]). unfold Bnd in *.
  unfold u64.
  rewrite !(Z.mod_small (Z.shiftl _ _)) by (rewrite Z.shiftl_mul_pow2; lia).
  rewrite (lor_shiftl_add b7 b6 8), (lor_shiftl_add _ b5 16), (lor_shiftl_add _ b4 24), (lor_shiftl_add _ b3 32),
    (lor_shiftl_add _ b2 40), (lor_shiftl_add _ b1 48), (lor_shiftl_add _ b0 56) by lia.
  unfold be_val; cbn [beval]. lia.
Qed.

(** A byte string is the sum of its words. *)
Lemma be_val_split n b : (n <= length b)%nat ->
  be_val b = 256 ^ Z.of_nat (length b - n) * be_val (firstn n b) + be_val (skipn n b).
Proof.
  intros L. unfold be_val at 1 2. rewrite <- (firstn_skipn n b) at 1.
  assert (A : forall l m acc, beval acc (l ++ m) = beval (beval acc l) m) by (induction l; intros; cbn; auto).
  rewrite A, beval_linear, length_skipn. reflexivity.
Qed.

Lemma set_b32_spec4 b :
  S8.bytes32 b ->
  let '(r, overflow) := set_b32 b in
  ok r /\ val r = be_val b mod order /\ overflow = (if be_val b <? order then 0 else 1).
Proof.
  intros [Hl Hb]. unfold set_b32. cbv zeta.
  destruct (word_at_spec b 24 Hb ltac:(lia)) as [E3 B3], (word_at_spec b 16 Hb ltac:(lia)) as [E2 B2],
    (word_at_spec b 8 Hb ltac:(lia)) as [E1 B1], (word_at_spec b 0 Hb ltac:(lia)) as [E0 B0].
  set (r := Scalar _ _ _ _).
  assert (W : wf r) by (constructor; assumption).
  assert (E : val r = be_val b).
  { unfold r, val; cbn [d0 d1 d2 d3]. rewrite E0, E1, E2, E3.
    rewrite (be_val_split 8 b) by lia. rewrite (be_val_split 8 (skipn 8 b)) by (rewrite length_skipn; lia).
    rewrite (be_val_split 8 (skipn 8 (skipn 8 b))) by (rewrite !length_skipn; lia).
    rewrite !length_skipn, !skipn_skipn, Hl. change (skipn 0 b) with b. cbn [Nat.sub Nat.add].
    rewrite (firstn_all2 (n := 8) (skipn 24 b)) by (rewrite length_skipn; lia).
    change (256 ^ Z.of_nat 24) with (2 ^ 192). change (256 ^ Z.of_nat 16) with (2 ^ 128). change (256 ^ Z.of_nat 8) with (2 ^ 64). lia. }
  destruct (final_reduce4 r 0 W ltac:(lia)) as (_ & Ho & Hok & Hv).
  { pose proof (val_range4 r W). unfold order; lia. }
  rewrite Z.add_0_l, Z.mul_0_r, Z.add_0_r, E in *.
  pose proof (reduce_spec4 r (check_overflow r) W ltac:(rewrite Ho; unfold Bnd; destruct (_ <? _); lia)) as R.
  destruct (reduce r (check_overflow r)) as [r' o]. cbn [fst] in *.
  destruct R as (_ & -> & _). auto.
Qed.

Lemma bytes_of_word64 d :
  Bnd d M64 ->
  be_val [u8 (Z.shiftr d 56); u8 (Z.shiftr d 48); u8 (Z.shiftr d 40); u8 (Z.shiftr d 32);
          u8 (Z.shiftr d 24); u8 (Z.shiftr d 16); u8 (Z.shiftr d 8); u8 d] = d.
Proof.
  unfold Bnd; intros H.
  pose proof (bytes_of_word (d mod 2 ^ 32) ltac:(unfold Bnd; pose proof (Z.mod_pos_bound d (2 ^ 32)); lia)) as L.
  pose proof (bytes_of_word (d / 2 ^ 32) ltac:(unfold Bnd; split; [apply Z.div_pos; lia | apply Z.lt_succ_r, Z.div_lt_upper_bound; lia])) as U.
  assert (S : forall k, 0 <= k -> Z.shiftr (d / 2 ^ 32) k = Z.shiftr d (32 + k))
    by (intros; rewrite <- Z.shiftr_div_pow2, Z.shiftr_shiftr by lia; reflexivity).
  rewrite !S in U by lia. cbn [Z.add Pos.add Pos.succ] in U.
  rewrite <- Z.shiftr_div_pow2 in U by lia.
  assert (M : forall k, 0 <= k <= 24 -> u8 (Z.shiftr (d mod 2 ^ 32) k) = u8 (Z.shiftr d k)).
  { intros k Hk. unfold u8. by_bits. destruct (Z.lt_ge_cases n 8) as [L8 | L8].
    - rewrite !Z.mod_pow2_bits_low, !Z.shiftr_spec, Z.mod_pow2_bits_low by lia. reflexivity.
    - rewrite !Z.mod_pow2_bits_high by lia. reflexivity. }
  rewrite !M in L by lia. specialize (M 0 ltac:(lia)). rewrite !Z.shiftr_0_r in M. rewrite M in L.
  pose proof (Z.div_mod d (2 ^ 32) ltac:(lia)) as D. rewrite <- (Z.shiftr_div_pow2 d 32) in D by lia.
  unfold be_val; cbn [beval]. lia.
Qed.

Lemma get_b32_spec4 a : wf a -> S8.bytes32 (get_b32 a) /\ be_val (get_b32 a) = val a.
Proof.
  intros []. split.
  - split; [reflexivity |]. unfold get_b32.
    repeat (apply Forall_cons; [apply Bnd_u8 |]). apply Forall_nil.
  - unfold val. rewrite <- (bytes_of_word64 (d0 a)), <- (bytes_of_word64 (d1 a)), <- (bytes_of_word64 (d2 a)),
      <- (bytes_of_word64 (d3 a)) by assumption.
    unfold get_b32, be_val; cbn [beval]. ring.
Qed.

(** ** Comparisons *)

Lemma is_high_spec4 a : wf a -> is_high a = (if val a <=? order / 2 then 0 else 1).
Proof.
  intros [W0 W1 W2 W3]; bnds.
  change (order / 2) with 0x7FFFFFFFFFFFFFFFFFFFFFFFFFFFFFFF5D576E7357A4501DDFE92F46681B20A0.
  sym_open (is_high a) is_high.
  repeat flag_step; sym_close; unfold val; n_consts4;
    match goal with |- context [?x <=? ?y] => destruct (Z.leb_spec x y) end; lia.
Qed.

Lemma eq_spec4 a b : eq a b = 1 /\ a = b \/ eq a b = 0 /\ a <> b.
Proof.
  unfold eq.
  match goal with |- context [c_bool (?x =? 0)] => destruct (Z.eqb_spec x 0) as [Z | Z] end.
  - left; split; [reflexivity |]. rewrite !Z.lor_eq_0_iff, !Z.lxor_eq_0_iff in Z.
    destruct a, b; cbn in *; intuition congruence.
  - right; split; [reflexivity |]. intros ->. apply Z. rewrite !Z.lxor_nilpotent. reflexivity.
Qed.

Lemma is_one_spec4 a : wf a -> is_one a = (if val a =? 1 then 1 else 0).
Proof.
  intros []; unfold is_one. bnds.
  match goal with |- c_bool (?x =? 0) = _ => destruct (Z.eqb_spec x 0) as [Z | Z] end.
  - rewrite !Z.lor_eq_0_iff, Z.lxor_eq_0_iff in Z. destruct Z as [[[Z0 Z1] Z2] Z3].
    unfold val. rewrite Z0, Z1, Z2, Z3. reflexivity.
  - destruct (Z.eqb_spec (val a) 1) as [E | E]; [| reflexivity]. exfalso; apply Z. unfold val in E.
    assert (d0 a = 1 /\ d1 a = 0 /\ d2 a = 0 /\ d3 a = 0) as (-> & -> & -> & ->) by lia. reflexivity.
Qed.

(** ** Forcing a scalar odd *)

Lemma not_xor64 x : Bnd x M64 -> Z.lxor x M64 = not64 x.
Proof.
  intros H. rewrite not64_eq by assumption.
  assert (L : Z.land x (Z.lxor x M64) = 0).
  { by_bits. rewrite Z.land_spec, Z.lxor_spec, Z.bits_0.
    change M64 with (Z.ones 64). rewrite Z.testbit_ones by lia.
    destruct (Z.ltb_spec n 64), (Z.leb_spec 0 n); try lia; cbn [andb].
    - destruct (Z.testbit x n); reflexivity.
    - rewrite (testbit_high x 64 n); [reflexivity | unfold Bnd in H; lia | lia]. }
  pose proof (Z.add_nocarry_lxor x _ L) as E.
  rewrite <- Z.lxor_assoc, Z.lxor_nilpotent, Z.lxor_0_l in E. lia.
Qed.

Lemma odd_limb4 r : Z.odd (val r) = Z.odd (d0 r).
Proof.
  unfold val. rewrite <- !Z.add_assoc.
  replace (d0 r + _) with (d0 r + 2 * (2 ^ 63 * d1 r + 2 ^ 127 * d2 r + 2 ^ 191 * d3 r)) by ring.
  apply Z.odd_add_mul_2.
Qed.

Lemma word_idle64 x : Bnd x M64 -> Z.land (u128 x) M64 = x /\ Z.shiftr (u128 x) 64 = 0.
Proof.
  unfold Bnd, u128; intros H. rewrite (Z.mod_small x) by lia.
  change M64 with (Z.ones 64). rewrite Z.land_ones, Z.shiftr_div_pow2 by lia.
  rewrite Z.mod_small, Z.div_small by lia. auto.
Qed.

Lemma wnaf_force_odd_cases4 r :
  wf r -> wnaf_force_odd r = if Z.odd (val r) then (r, 1) else (negate r, -1).
Proof.
  intros W. pose proof (is_zero_spec4 r W) as Hz. pose proof (odd_limb4 r) as Ho.
  destruct W as [W0 W1 W2 W3].
  assert (E1 : Z.land (d0 r) 1 = c_bool (Z.odd (d0 r)))
    by (change 1 with (Z.ones 1) at 1; rewrite Z.land_ones, Z.pow_1_r, Zmod_odd by lia; reflexivity).
  assert (En : u64 (c_bool (negb (is_zero r =? 0)) - 1) = u64 (M64 * c_bool (is_zero r =? 0)))
    by (destruct (is_zero r =? 0); reflexivity).
  unfold wnaf_force_odd; cbv zeta. rewrite E1, Ho, En. destruct (Z.odd (d0 r)).
  - change (u64 (c_bool true - 1)) with 0. rewrite !Z.land_0_r, !Z.lxor_0_r, !Z.add_0_r.
    assert (is_zero r = 0) as ->.
    { rewrite Hz. destruct (Z.eqb_spec (val r) 0) as [E | E]; [rewrite E in Ho; discriminate | reflexivity]. }
    change (u64 (M64 * c_bool (0 =? 0))) with M64.
    repeat match goal with B : Bnd ?x _ |- context [Z.land (u128 ?x) _] =>
      rewrite (proj1 (word_idle64 x B)), (proj2 (word_idle64 x B)), Z.add_0_l end.
    rewrite (proj1 (word_idle64 _ W3)). destruct r; reflexivity.
  - change (u64 (c_bool false - 1)) with M64. rewrite !not_xor64 by assumption.
    change (Z.land (u64 (N_0 + 1)) M64) with (N_0 + 1).
    change (Z.land N_1 M64) with N_1. change (Z.land N_2 M64) with N_2. change (Z.land N_3 M64) with N_3.
    rewrite (Z.add_assoc (not64 (d0 r))). reflexivity.
Qed.

Lemma split_128_spec4 a :
  wf a -> let '(r1, r2) := split_128 a in
  wf r1 /\ wf r2 /\ val r1 + 2 ^ 128 * val r2 = val a /\ val r1 < 2 ^ 128 /\ val r2 < 2 ^ 128.
Proof.
  intros []. unfold split_128. bnds.
  split; [constructor; unfold Bnd; cbn; lia |]. split; [constructor; unfold Bnd; cbn; lia |].
  unfold val; cbn [d0 d1 d2 d3]. lia.
Qed.

(** ** The interface of ScalarSpec *)

#[export] Instance ops : ScalarOps scalar := {|
  sval := val; scalar_add := add; scalar_mul := mul; scalar_sqr := sqr;
  scalar_negate := negate; scalar_is_zero := is_zero |}.

#[export] Instance laws : ScalarLaws scalar.
Proof.
  refine {| sok := ok |}.
  - intros a [W V]. pose proof (val_range4 a W). cbn. lia.
  - intros a b Ha Hb. exact (add_spec4 a b Ha Hb).
  - exact mul_spec4.
  - exact sqr_spec4.
  - exact negate_spec4.
  - intros a [W _]. exact (is_zero_spec4 a W).
Defined.
End S4.

(** ** The two representations *)

(** The same number, in range in both representations. *)
Record agree (a : S8.scalar) (a' : S4.scalar) : Prop := {
  ag_8 : S8.wf a; ag_4 : S4.wf a'; ag_val : S8.val a = S4.val a' }.

Lemma agree_ok a a' : agree a a' -> S8.ok a -> S4.ok a'.
Proof. intros [_ W E] [_ H]. split; [exact W | lia]. Qed.

Lemma agree_ok_intro a a' : S8.ok a -> S4.ok a' -> S8.val a = S4.val a' -> agree a a'.
Proof. intros [W _] [W' _] E. split; assumption. Qed.

Lemma agree_eq a a' b b' : agree a a' -> agree b b' -> S8.eq a b = S4.eq a' b'.
Proof.
  intros [A8 A4 EA] [B8 B4 EB].
  destruct (S8.eq_spec a b) as [[-> E] | [-> E]], (S4.eq_spec4 a' b') as [[-> E'] | [-> E']]; try reflexivity; exfalso.
  - apply E', S4.val_inj4; congruence.
  - apply E, S8.val_inj; congruence.
Qed.

Lemma agree_b32 b : S8.bytes32 b -> agree (fst (S8.set_b32 b)) (fst (S4.set_b32 b)) /\
  snd (S8.set_b32 b) = snd (S4.set_b32 b).
Proof.
  intros Hb. pose proof (S8.set_b32_spec b Hb) as P. pose proof (S4.set_b32_spec4 b Hb) as Q.
  destruct (S8.set_b32 b) as [r o], (S4.set_b32 b) as [r' o'], P as (P1 & P2 & ->), Q as (Q1 & Q2 & ->).
  split; [apply agree_ok_intro; cbn; congruence | reflexivity].
Qed.

Lemma agree_get_b32 a a' : agree a a' -> S8.get_b32 a = S4.get_b32 a'.
Proof.
  intros [A8 A4 E]. destruct (S8.get_b32_spec a A8) as [[L B] V], (S4.get_b32_spec4 a' A4) as [[L' B'] V'].
  apply be_val_inj; congruence.
Qed.

Lemma agree_force_odd a a' : agree a a' -> S8.ok a ->
  agree (fst (S8.wnaf_force_odd a)) (fst (S4.wnaf_force_odd a')) /\ snd (S8.wnaf_force_odd a) = snd (S4.wnaf_force_odd a').
Proof.
  intros A Ha. pose proof A as [W8 W4 E]. rewrite S8.wnaf_force_odd_cases, S4.wnaf_force_odd_cases4 by assumption.
  rewrite E. destruct (Z.odd (S4.val a')); cbn [fst snd]; [auto |]. split; [| reflexivity].
  destruct (S8.negate_spec a Ha) as [N V], (S4.negate_spec4 a' (agree_ok _ _ A Ha)) as [N' V'].
  apply agree_ok_intro; congruence.
Qed.

(** C33: the two representations the build chooses from compute the same: on
    arguments that stand for the same numbers below the order, every operation
    returns the same number, with the same flags, bits and bytes. *)
Theorem representations_agree a a' b b' :
  agree a a' -> agree b b' -> S8.ok a -> S8.ok b ->
  (agree (fst (S8.add a b)) (fst (S4.add a' b')) /\ snd (S8.add a b) = snd (S4.add a' b')) /\
  agree (S8.mul a b) (S4.mul a' b') /\ agree (S8.sqr a) (S4.sqr a') /\ agree (S8.negate a) (S4.negate a') /\
  (S8.is_zero a = S4.is_zero a' /\ S8.is_one a = S4.is_one a' /\ S8.is_high a = S4.is_high a' /\ S8.eq a b = S4.eq a' b') /\
  (forall offset count, 0 <= offset -> 0 < count < 32 -> S8.get_bits_var a offset count = S4.get_bits_var a' offset count) /\
  (forall n, 0 < n < 16 -> agree (fst (S8.shr_int a n)) (fst (S4.shr_int a' n)) /\ snd (S8.shr_int a n) = snd (S4.shr_int a' n)) /\
  (forall shift, 256 <= shift <= 512 -> agree (S8.mul_shift_var a b shift) (S4.mul_shift_var a' b' shift)) /\
  (agree (fst (S8.wnaf_force_odd a)) (fst (S4.wnaf_force_odd a')) /\ snd (S8.wnaf_force_odd a) = snd (S4.wnaf_force_odd a')) /\
  S8.get_b32 a = S4.get_b32 a' /\
  (forall s, S8.bytes32 s -> agree (fst (S8.set_b32 s)) (fst (S4.set_b32 s)) /\ snd (S8.set_b32 s) = snd (S4.set_b32 s)).
Proof.
  intros A B Ha Hb. pose proof (agree_ok _ _ A Ha) as Ha'. pose proof (agree_ok _ _ B Hb) as Hb'.
  pose proof A as [WA WA' EA]. pose proof B as [WB WB' EB].
  split.
  { pose proof (S8.add_spec a b Ha Hb) as P. pose proof (S4.add_spec4 a' b' Ha' Hb') as Q.
    destruct (S8.add a b) as [r o], (S4.add a' b') as [r' o'], P as (P1 & P2 & ->), Q as (Q1 & Q2 & ->).
    rewrite EA, EB in *. split; [apply agree_ok_intro; cbn; congruence | reflexivity]. }
  split. { destruct (S8.mul_spec a b Ha Hb), (S4.mul_spec4 a' b' Ha' Hb'). apply agree_ok_intro; congruence. }
  split. { destruct (S8.sqr_spec a Ha), (S4.sqr_spec4 a' Ha'). apply agree_ok_intro; congruence. }
  split. { destruct (S8.negate_spec a Ha), (S4.negate_spec4 a' Ha'). apply agree_ok_intro; congruence. }
  split. { rewrite S8.is_zero_spec, S8.is_one_spec, S8.is_high_spec, S4.is_zero_spec4, S4.is_one_spec4, S4.is_high_spec4, EA
             by assumption. auto using agree_eq. }
  split. { intros. rewrite S8.get_bits_var_spec, S4.get_bits_var_spec4, EA by assumption. reflexivity. }
  split. { intros n Hn. pose proof (S8.shr_int_spec a n WA Hn) as P. pose proof (S4.shr_int_spec4 a' n WA' Hn) as Q.
    destruct (S8.shr_int a n) as [r o], (S4.shr_int a' n) as [r' o'], P as (P1 & P2 & ->), Q as (Q1 & Q2 & ->).
    rewrite EA in *. split; [split; cbn; congruence | reflexivity]. }
  split. { intros s Hs. destruct (S8.mul_shift_var_spec a b s Ha Hb Hs), (S4.mul_shift_var_spec4 a' b' s Ha' Hb' Hs).
    split; congruence. }
  auto using agree_force_odd, agree_get_b32, agree_b32.
Qed.

Lemma representations_agree_witness :
  let a := S8.top in let a' := fst (S4.set_b32 (S8.get_b32 a)) in
  S4.val (S4.mul a' a') = 1 /\ agree (S8.mul a a) (S4.mul a' a').
Proof.
  intros a a'. split; [vm_compute; reflexivity |].
  assert (A : agree a a') by (split; [apply S8.top_ok | constructor; split; vm_compute; discriminate | vm_compute; reflexivity]).
  pose proof (representations_agree a a' a a' A A S8.top_ok S8.top_ok) as R. clearbody a'.
  destruct R as (_ & M & _). exact M.
Defined.
