(* ===== verification/ShortName.v ===== *)
(** Short names: the 64-bit codes of up to twelve characters that name
    accounts, contracts, tables and message types
    (foundation/basetypes/include/shortcode.hpp, include/shortname.hpp,
    shortname.cpp).

    A character of region 0 takes five bits, one of region 1 eight, the first
    character in the highest bits.  [encode] and [fit] describe what
    [to_name_code] and [to_string] compute on every string. *)

From Stdlib Require Import ZArith Lia Bool Ascii String List.
From S2P Require Import Prelude.
Import ListNotations.
Local Open Scope Z_scope.

Record scode_rs := { region : Z; symbol : Z }.

Definition SCODE_REGION_0 : list ascii := chars "#abcdefghijklmnopqrstuvwxyz.1234".
Definition SCODE_REGION_1 : list ascii := chars "#@567890".

Definition SR0_SYMBOL_A : Z := 1.
Definition SR0_SYMBOL_POINT : Z := 27.
Definition SR0_SYMBOL_1 : Z := 28.
Definition SR1_SYMBOL_AT : Z := 1.
Definition SR1_SYMBOL_5 : Z := 2.
Definition SR1_SYMBOL_0 : Z := 7.

Definition SR0_NUM : Z := 0.
Definition SR1_NUM : Z := 1.
(** [(sregion)-1] *)
Definition SRERROR_NUM : Z := u32 (-1).

Definition SCODE_REGION_0_SIZE : Z := Z.of_nat (List.length SCODE_REGION_0).
Definition SCODE_REGION_1_SIZE : Z := Z.of_nat (List.length SCODE_REGION_1).

Definition get_sglyph (region sym : Z) : ascii :=
  if region =? 0 then
    if (0 <? sym) && (sym <? SCODE_REGION_0_SIZE) then nth (Z.to_nat sym) SCODE_REGION_0 nul else nul
  else if region =? 1 then
    if (0 <? sym) && (sym <? SCODE_REGION_1_SIZE) then nth (Z.to_nat sym) SCODE_REGION_1 nul else nul
  else nul.

Definition get_scode_rs (ch : ascii) : scode_rs :=
  if (ord "a" <=? ord ch) && (ord ch <=? ord "z") then {| region := SR0_NUM; symbol := u32 (ord ch - ord "a" + SR0_SYMBOL_A) |}
  else if ord "." =? ord ch then {| region := SR0_NUM; symbol := SR0_SYMBOL_POINT |}
  else if (ord "1" <=? ord ch) && (ord ch <=? ord "4") then {| region := SR0_NUM; symbol := u32 (ord ch - ord "1" + SR0_SYMBOL_1) |}
  else if ord "@" =? ord ch then {| region := SR1_NUM; symbol := SR1_SYMBOL_AT |}
  else if (ord "5" <=? ord ch) && (ord ch <=? ord "9") then {| region := SR1_NUM; symbol := u32 (ord ch - ord "5" + SR1_SYMBOL_5) |}
  else if ord "0" =? ord ch then {| region := SR1_NUM; symbol := SR1_SYMBOL_0 |}
  else {| region := SRERROR_NUM; symbol := 0 |}.

Definition NAME_CODE_BITS : Z := 64.
Definition SCODE_R_0_BITS : Z := 5.
Definition SCODE_R_1_BITS : Z := 8.
Definition HEAD_MARK_R_0 : Z := u64 (Z.shiftl 0x1f (NAME_CODE_BITS - SCODE_R_0_BITS)).
Definition HEAD_MARK_R_1 : Z := u64 (Z.shiftl 0x07 (NAME_CODE_BITS - SCODE_R_1_BITS)).

(** The loop of [to_name_code] over the characters before the null. *)
Fixpoint to_name_code_loop (str : list ascii) (namecode remains : Z) : Z :=
  match str with
  | [] => namecode
  | ch :: ptr =>
      let rs := get_scode_rs ch in
      if SR0_NUM =? region rs then
        if remains <? SCODE_R_0_BITS then namecode
        else
          let remains := remains - SCODE_R_0_BITS in
          let mark := u64 (Z.shiftl (symbol rs) remains) in
          to_name_code_loop ptr (Z.lor namecode mark) remains
      else if SR1_NUM =? region rs then
        if remains <? SCODE_R_1_BITS then namecode
        else
          let remains := remains - SCODE_R_1_BITS in
          let mark := u64 (Z.shiftl (symbol rs) remains) in
          to_name_code_loop ptr (Z.lor namecode mark) remains
      else to_name_code_loop ptr namecode remains
  end.

Definition to_name_code (str : list ascii) : Z := to_name_code_loop (c_str str) 0 NAME_CODE_BITS.

(** The loop of [to_string]; each turn takes at least five of the [remains]
    bits, so thirteen turns of fuel end it ([to_string_total]). *)
Fixpoint to_string_loop (fuel : nat) (remains namecode : Z) (name : list ascii) : option (list ascii) :=
  match fuel with
  | O => None
  | S fuel =>
      if remains >=? SCODE_R_0_BITS then
        let tmpcode := Z.land namecode HEAD_MARK_R_0 in
        if negb (tmpcode =? 0) then
          let ch := get_sglyph SR0_NUM (u32 (Z.shiftr tmpcode (NAME_CODE_BITS - SCODE_R_0_BITS))) in
          to_string_loop fuel (remains - SCODE_R_0_BITS) (u64 (Z.shiftl namecode SCODE_R_0_BITS)) (name ++ [ch])
        else if remains <? SCODE_R_1_BITS then Some name
        else
          let tmpcode := Z.land namecode HEAD_MARK_R_1 in
          if negb (tmpcode =? 0) then
            let ch := get_sglyph SR1_NUM (u32 (Z.shiftr tmpcode (NAME_CODE_BITS - SCODE_R_1_BITS))) in
            to_string_loop fuel (remains - SCODE_R_1_BITS) (u64 (Z.shiftl namecode SCODE_R_1_BITS)) (name ++ [ch])
          else Some name
      else Some name
  end.

Definition to_string (code : Z) : option (list ascii) := to_string_loop 13 NAME_CODE_BITS code [].

Definition glyph_bit_length (gl : ascii) : Z :=
  let desc := get_scode_rs gl in
  if region desc =? SR0_NUM then SCODE_R_0_BITS
  else if region desc =? SR1_NUM then SCODE_R_1_BITS
  else 0.

(** [uint32_t len] wraps around. *)
Definition name_length_with_bit (str : list ascii) : Z :=
  fold_left (fun len ch => u32 (len + glyph_bit_length ch)) (c_str str) 0.

Fixpoint legal_name_loop (str : list ascii) (totallen : Z) : bool :=
  match str with
  | [] => negb (totallen >? NAME_CODE_BITS)
  | ch :: str =>
      let len := glyph_bit_length ch in
      if 0 =? len then false else legal_name_loop str (u32 (totallen + len))
  end.

Definition legal_name (str : list ascii) : bool := legal_name_loop (c_str str) 0.

(** struct short_name, with the operators the containers use. *)
Record short_name := { namecode_ : Z }.
Definition name_of_string (str : list ascii) : short_name := {| namecode_ := to_name_code str |}.
Definition empty (n : short_name) : bool := 0 =? namecode_ n.
Definition valid (n : short_name) : bool := true.
Definition good (n : short_name) : bool := negb (empty n) && valid n.
Definition name_lt (a b : short_name) : bool := namecode_ a <? namecode_ b.
Definition name_eq (a b : short_name) : bool := namecode_ a =? namecode_ b.

(** ** What the codec computes *)

(** The characters of [str] that [to_name_code] keeps: illegal ones are
    skipped, and the first one that no longer fits ends the name. *)
Fixpoint fit (rem : Z) (str : list ascii) : list ascii :=
  match str with
  | [] => []
  | ch :: str =>
      let b := glyph_bit_length ch in
      if b =? 0 then fit rem str
      else if rem <? b then [] else ch :: fit (rem - b) str
  end.

(** The code of a string that fits [rem] bits, as a number below [2^rem]. *)
Fixpoint encode (rem : Z) (str : list ascii) : Z :=
  match str with
  | [] => 0
  | ch :: str =>
      let b := glyph_bit_length ch in
      symbol (get_scode_rs ch) * 2 ^ (rem - b) + encode (rem - b) str
  end.

Fixpoint fits (rem : Z) (str : list ascii) : Prop :=
  match str with
  | [] => 0 <= rem
  | ch :: str => glyph_bit_length ch <> 0 /\ fits (rem - glyph_bit_length ch) str
  end.

(** The three kinds of characters; both glyph tables are inverted by [get_sglyph]. *)
Variant glyph (ch : ascii) : Prop :=
| Glyph0 (Hb : glyph_bit_length ch = 5) (Hr : region (get_scode_rs ch) = 0)
    (Hs : 1 <= symbol (get_scode_rs ch) <= 31) (Hg : get_sglyph 0 (symbol (get_scode_rs ch)) = ch)
| Glyph1 (Hb : glyph_bit_length ch = 8) (Hr : region (get_scode_rs ch) = 1)
    (Hs : 1 <= symbol (get_scode_rs ch) <= 7) (Hg : get_sglyph 1 (symbol (get_scode_rs ch)) = ch)
| NoGlyph (Hb : glyph_bit_length ch = 0) (Hr : region (get_scode_rs ch) = SRERROR_NUM).

Definition glyph_test (ch : ascii) : bool :=
  let rs := get_scode_rs ch in
  let b := glyph_bit_length ch in
  ((b =? 5) && (region rs =? 0) && (1 <=? symbol rs) && (symbol rs <=? 31) && Ascii.eqb (get_sglyph 0 (symbol rs)) ch)
  || ((b =? 8) && (region rs =? 1) && (1 <=? symbol rs) && (symbol rs <=? 7) && Ascii.eqb (get_sglyph 1 (symbol rs)) ch)
  || ((b =? 0) && (region rs =? SRERROR_NUM)).

Lemma glyph_cases ch : glyph ch.
Proof.
  assert (H : glyph_test ch = true) by (apply ascii_all; vm_compute; reflexivity).
  unfold glyph_test in H. rewrite !orb_true_iff, !andb_true_iff, !Z.eqb_eq, !Z.leb_le, !Ascii.eqb_eq in H.
  destruct H as [[H | H] | H]; [apply Glyph0 | apply Glyph1 | apply NoGlyph]; apply H || (split; apply H).
Qed.

Lemma bits_range ch : 0 <= glyph_bit_length ch <= 8.
Proof. destruct (glyph_cases ch); lia. Qed.

Lemma fit_fits str : forall rem, 0 <= rem -> fits rem (fit rem str).
Proof.
  induction str as [| ch str IH]; intros rem Hr; cbn [fit]; [exact Hr |]. cbv zeta.
  destruct (Z.eqb_spec (glyph_bit_length ch) 0); [auto |].
  destruct (Z.ltb_spec rem (glyph_bit_length ch)); [exact Hr |].
  split; [assumption | apply IH; lia].
Qed.

Lemma fits_nonneg str : forall rem, fits rem str -> 0 <= rem.
Proof.
  induction str as [| ch str IH]; intros rem; cbn [fits]; [auto |].
  intros [_ H%IH]. destruct (glyph_cases ch); lia.
Qed.

Lemma encode_range str : forall rem, fits rem str -> 0 <= encode rem str < 2 ^ rem.
Proof.
  induction str as [| ch str IH]; intros rem; cbn [fits encode]; [intros; lia |].
  intros [Hb H]. cbv zeta. pose proof (fits_nonneg _ _ H) as R. apply IH in H.
  assert (E : 2 ^ rem = 2 ^ glyph_bit_length ch * 2 ^ (rem - glyph_bit_length ch)).
  { rewrite <- Z.pow_add_r by (destruct (glyph_cases ch); lia). f_equal; lia. }
  rewrite E. set (p := 2 ^ (rem - glyph_bit_length ch)) in *.
  set (e := encode (rem - glyph_bit_length ch) str) in *. clearbody p e.
  destruct (glyph_cases ch) as [B _ S _ | B _ S _ | B _]; [..| congruence]; rewrite B; [change (2 ^ 5) with 32 | change (2 ^ 8) with 256]; nia.
Qed.

Lemma to_name_code_loop_spec str : forall N rem,
  0 <= rem <= 64 -> to_name_code_loop str (2 ^ rem * N) rem = 2 ^ rem * N + encode rem (fit rem str).
Proof.
  induction str as [| ch str IH]; intros N rem Hr; cbn [to_name_code_loop fit encode]; [lia |].
  cbv zeta. unfold SR0_NUM, SR1_NUM, SCODE_R_0_BITS, SCODE_R_1_BITS.
  destruct (glyph_cases ch) as [B R S _ | B R S _ | B R]; rewrite B, R; cbn [Z.eqb Pos.eqb].
  - destruct (Z.ltb_spec rem 5); [cbn [encode]; lia |].
    unfold u64. rewrite (lor_field 64), IH by lia. cbn [encode]. cbv zeta. rewrite B.
    replace (2 ^ rem) with (2 ^ 5 * 2 ^ (rem - 5)) by (rewrite <- Z.pow_add_r by lia; f_equal; lia). ring.
  - destruct (Z.ltb_spec rem 8); [cbn [encode]; lia |].
    unfold u64. rewrite (lor_field 64), IH by lia. cbn [encode]. cbv zeta. rewrite B.
    replace (2 ^ rem) with (2 ^ 8 * 2 ^ (rem - 8)) by (rewrite <- Z.pow_add_r by lia; f_equal; lia). ring.
  - change (0 =? SRERROR_NUM) with false. change (1 =? SRERROR_NUM) with false. apply IH, Hr.
Qed.

(** The [b] highest bits of a left-aligned code, and what the shift leaves. *)
Lemma top_bits rem b s E' :
  0 <= b <= rem -> rem <= 64 -> 0 <= s < 2 ^ b -> 0 <= E' < 2 ^ (rem - b) ->
  let x := 2 ^ (64 - rem) * (s * 2 ^ (rem - b) + E') in
  Z.shiftr x (64 - b) = s /\ u64 (Z.shiftl x b) = 2 ^ (64 - (rem - b)) * E'.
Proof.
  intros Hb Hr Hs HE x.
  assert (P1 : 2 ^ (64 - b) = 2 ^ (64 - rem) * 2 ^ (rem - b)) by (rewrite <- Z.pow_add_r by lia; f_equal; lia).
  assert (P2 : 2 ^ (64 - (rem - b)) = 2 ^ (64 - rem) * 2 ^ b) by (rewrite <- Z.pow_add_r by lia; f_equal; lia).
  assert (P3 : 2 ^ 64 = 2 ^ b * 2 ^ (64 - b)) by (rewrite <- Z.pow_add_r by lia; f_equal; lia).
  assert (0 < 2 ^ (64 - rem)) by (apply Z.pow_pos_nonneg; lia).
  assert (0 < 2 ^ (rem - b)) by (apply Z.pow_pos_nonneg; lia).
  assert (0 < 2 ^ b) by (apply Z.pow_pos_nonneg; lia).
  subst x. split.
  - rewrite Z.shiftr_div_pow2 by lia. symmetry. apply Z.div_unique with (2 ^ (64 - rem) * E'); [left; nia | rewrite P1; ring].
  - rewrite Z.shiftl_mul_pow2 by lia. unfold u64. symmetry.
    apply Z.mod_unique with s; [left; nia | rewrite P3, P2, P1; ring].
Qed.

Lemma mask_small s k : 0 <= s < 2 ^ k -> 0 <= k -> Z.land s (Z.ones k) = s.
Proof. intros. rewrite Z.land_ones by lia. apply Z.mod_small; lia. Qed.

Lemma head_0 x : Z.land x HEAD_MARK_R_0 = Z.shiftl (Z.land (Z.shiftr x 59) 0x1f) 59.
Proof. apply (land_shifted_mask x 0x1f 59). lia. Qed.
Lemma head_1 x : Z.land x HEAD_MARK_R_1 = Z.shiftl (Z.land (Z.shiftr x 56) 0x07) 56.
Proof. apply (land_shifted_mask x 0x07 56). lia. Qed.

Lemma shiftl_eqb_0 x k : 0 <= k -> (Z.shiftl x k =? 0) = (x =? 0).
Proof.
  intros. rewrite Z.shiftl_mul_pow2 by lia. assert (0 < 2 ^ k) by (apply Z.pow_pos_nonneg; lia).
  destruct (Z.eqb_spec x 0), (Z.eqb_spec (x * 2 ^ k) 0); nia.
Qed.

(** Decoding the left-aligned code of a string that fits gives the string. *)
Lemma to_string_loop_spec str : forall fuel rem name,
  fits rem str -> rem <= 64 -> rem < 5 * Z.of_nat fuel ->
  to_string_loop fuel rem (2 ^ (64 - rem) * encode rem str) name = Some (name ++ str).
Proof.
  induction str as [| ch str IH]; intros fuel rem name Hf Hr Hfuel.
  - pose proof (fits_nonneg _ _ Hf). destruct fuel as [| fuel]; [lia |].
    cbn [to_string_loop encode]. rewrite Z.mul_0_r, !Z.land_0_l, app_nil_r. cbn [Z.eqb negb]. cbv zeta.
    destruct (rem >=? SCODE_R_0_BITS), (rem <? SCODE_R_1_BITS); reflexivity.
  - pose proof (encode_range (ch :: str) rem Hf) as R. cbn [fits encode] in *. cbv zeta in *.
    destruct Hf as [Hb Hf]. pose proof (fits_nonneg _ _ Hf) as Hn. pose proof (encode_range str _ Hf) as R'.
    pose proof (bits_range ch).
    destruct fuel as [| fuel]; [lia |]. cbn [to_string_loop]. cbv zeta.
    unfold SCODE_R_0_BITS, SCODE_R_1_BITS, NAME_CODE_BITS, SR0_NUM, SR1_NUM.
    change (64 - 5) with 59. change (64 - 8) with 56. rewrite !head_0, !head_1, !shiftl_eqb_0 by lia.
    rewrite !Z.shiftr_shiftl_l, !Z.sub_diag, !Z.shiftl_0_r by lia.
    replace (name ++ ch :: str) with ((name ++ [ch]) ++ str) by (rewrite <- app_assoc; reflexivity).
    rewrite Z.geb_leb.
    destruct (glyph_cases ch) as [B _ S G | B _ S G | B _]; [..| congruence]; rewrite B in *;
      set (s := symbol (get_scode_rs ch)) in *; set (E' := encode (rem - _) str) in *.
    + destruct (top_bits rem 5 s E' ltac:(lia) ltac:(lia) ltac:(lia) R') as [T U].
      change (64 - 5) with 59 in T. rewrite T, U. change 0x1f with (Z.ones 5). rewrite mask_small by lia.
      destruct (Z.leb_spec 5 rem); [| lia]. destruct (Z.eqb_spec s 0); [lia |]. cbn [negb].
      unfold u32. rewrite (Z.mod_small s) by lia. rewrite G. apply IH; auto; lia.
    + destruct (top_bits rem 8 s E' ltac:(lia) ltac:(lia) ltac:(lia) R') as [T U].
      change (64 - 8) with 56 in T. set (x := 2 ^ (64 - rem) * _) in *.
      replace (Z.shiftr x 59) with 0
        by (change 59 with (56 + 3); rewrite <- Z.shiftr_shiftr, T by lia;
            rewrite Z.shiftr_div_pow2, Z.div_small by lia; reflexivity).
      rewrite T, U. change 0x07 with (Z.ones 3). rewrite mask_small by lia. rewrite Z.land_0_l.
      destruct (Z.leb_spec 5 rem); [| lia]. destruct (Z.ltb_spec rem 8); [lia |].
      destruct (Z.eqb_spec s 0); [lia |]. cbn [negb Z.eqb].
      unfold u32. rewrite (Z.mod_small s) by lia. rewrite G. apply IH; auto; lia.
Qed.

Lemma to_name_code_eq str : to_name_code str = encode 64 (fit 64 (c_str str)).
Proof.
  unfold to_name_code. pose proof (to_name_code_loop_spec (c_str str) 0 64 ltac:(lia)) as H.
  rewrite Z.mul_0_r in H. apply H.
Qed.

Lemma to_string_to_name_code str : to_string (to_name_code str) = Some (fit 64 (c_str str)).
Proof.
  rewrite to_name_code_eq. pose proof (fit_fits (c_str str) 64 ltac:(lia)) as Hf.
  pose proof (to_string_loop_spec (fit 64 (c_str str)) 13 64 [] Hf ltac:(lia) ltac:(lia)) as H.
  rewrite Z.sub_diag, Z.mul_1_l in H. exact H.
Qed.

(** Thirteen turns are enough for every code. *)
Lemma to_string_loop_total fuel : forall rem namecode name,
  rem < 5 * Z.of_nat fuel -> (0 < fuel)%nat -> exists s, to_string_loop fuel rem namecode name = Some s.
Proof.
  induction fuel as [| fuel IH]; intros rem namecode name Hr H0; [lia |].
  cbn [to_string_loop]. cbv zeta. unfold SCODE_R_0_BITS, SCODE_R_1_BITS.
  rewrite Z.geb_leb. destruct (Z.leb_spec 5 rem); [| eauto].
  destruct (negb _); [apply IH; lia |].
  destruct (Z.ltb_spec rem 8); [eauto |].
  destruct (negb _); [apply IH; lia | eauto].
Qed.

Lemma legal_name_loop_spec str : forall total,
  0 <= total -> total + 8 * Z.of_nat (List.length str) < 2 ^ 32 ->
  legal_name_loop str total = true <-> fits (64 - total) str.
Proof.
  induction str as [| ch str IH]; intros total Ht Hl; cbn [legal_name_loop fits].
  - rewrite Z.gtb_ltb, negb_true_iff, Z.ltb_ge. unfold NAME_CODE_BITS. lia.
  - cbv zeta. pose proof (bits_range ch). cbn [List.length] in Hl.
    destruct (Z.eqb_spec 0 (glyph_bit_length ch)) as [E | E].
    + split; [discriminate | intros [N _]; lia].
    + unfold u32. rewrite Z.mod_small, IH by lia.
      replace (64 - (total + glyph_bit_length ch)) with (64 - total - glyph_bit_length ch) by lia.
      intuition lia.
Qed.

Lemma fits_fit str : forall rem, fits rem str -> fit rem str = str.
Proof.
  induction str as [| ch str IH]; intros rem; cbn [fits fit]; [reflexivity |].
  intros [Hb Hf]. cbv zeta. pose proof (fits_nonneg _ _ Hf).
  destruct (Z.eqb_spec (glyph_bit_length ch) 0); [congruence |].
  destruct (Z.ltb_spec rem (glyph_bit_length ch)); [lia |]. f_equal. apply IH, Hf.
Qed.

Lemma fits_c_str str : forall rem, fits rem str -> c_str str = str.
Proof.
  induction str as [| ch str IH]; intros rem; cbn [fits c_str]; [reflexivity |].
  intros [Hb Hf]. destruct (Ascii.eqb_spec ch nul) as [-> | _]; [exfalso; apply Hb; reflexivity |].
  f_equal. eapply IH, Hf.
Qed.

(** ** Correctness *)

(** Printing the code of a string gives the characters of the string that
    fit 64 bits, illegal characters skipped; that printed name has the same
    code as the string; and a legal name (every character legal, 64 bits at
    most) is printed back unchanged. *)
Theorem name_roundtrip str :
  8 * Z.of_nat (List.length (c_str str)) < 2 ^ 32 ->
  to_string (to_name_code str) = Some (fit 64 (c_str str)) /\
  to_name_code (fit 64 (c_str str)) = to_name_code str /\
  (legal_name str = true -> to_string (to_name_code str) = Some (c_str str)).
Proof.
  intros Hl. split; [apply to_string_to_name_code | split].
  - pose proof (fit_fits (c_str str) 64 ltac:(lia)) as Hf.
    rewrite !to_name_code_eq, (fits_c_str _ _ Hf), (fits_fit _ _ Hf). reflexivity.
  - intros L. apply legal_name_loop_spec in L; [| lia..]. rewrite Z.sub_0_r in L.
    rewrite to_string_to_name_code, (fits_fit _ _ L). reflexivity.
Qed.

Lemma name_roundtrip_witness :
  legal_name (chars "max.token1") = true /\
  to_string (to_name_code (chars "max.token1")) = Some (chars "max.token1") /\
  to_string (to_name_code (chars "Ab-toolongforaname")) = Some (chars "btoolongfora").
Proof.
  split; [reflexivity |]. split.
  - apply (name_roundtrip (chars "max.token1")); reflexivity.
  - pose proof (name_roundtrip (chars "Ab-toolongforaname") ltac:(reflexivity)) as [-> _]. reflexivity.
Defined.

(** Two legal names with the same code are the same name, a legal name
    has the zero code only when it is empty, and every 64-bit code prints
    (the loop of to_string always ends). *)
Theorem name_code_injective a b :
  8 * Z.of_nat (List.length (c_str a)) < 2 ^ 32 -> 8 * Z.of_nat (List.length (c_str b)) < 2 ^ 32 ->
  legal_name a = true -> legal_name b = true ->
  (name_eq (name_of_string a) (name_of_string b) = true -> c_str a = c_str b) /\
  (empty (name_of_string a) = true -> c_str a = []) /\
  (forall code, exists s, to_string code = Some s).
Proof.
  intros Na Nb La Lb. apply legal_name_loop_spec in La, Lb; [| lia..]. rewrite Z.sub_0_r in La, Lb.
  assert (P : forall s, fits 64 (c_str s) -> to_string (to_name_code s) = Some (c_str s))
    by (intros s H; rewrite to_string_to_name_code, (fits_fit _ _ H); reflexivity).
  split; [| split].
  - intros E. unfold name_eq in E. apply Z.eqb_eq in E. cbn in E. apply P in La, Lb. congruence.
  - intros E. unfold empty in E. apply Z.eqb_eq in E. cbn in E. apply P in La. rewrite <- E in La.
    injection La as <-. reflexivity.
  - intros code. apply to_string_loop_total; unfold NAME_CODE_BITS; lia.
Qed.

Lemma name_code_injective_witness :
  name_eq (name_of_string (chars "max")) (name_of_string (chars "ma@x5")) = false /\ exists s, to_string (2 ^ 64 - 1) = Some s.
Proof.
  pose proof (name_code_injective (chars "max") (chars "ma@x5") ltac:(reflexivity) ltac:(reflexivity)
    ltac:(reflexivity) ltac:(reflexivity)) as (I & _ & T).
  split; [| apply T]. destruct (name_eq _ _); [discriminate (I eq_refl) | reflexivity].
Defined.
