(* ===== verification/LongName.v ===== *)
(** Long names: the 128-bit codes of up to twenty-one characters of six bits
    each (foundation/basetypes/include/longname.hpp, the class template
    long_name at uint128).

    [char_to_code] throws std::out_of_range on a character that is not in the
    table, and [code_to_char] asserts that its argument is below the size of
    the table; [ndebug] says whether assertions are compiled out. *)

From Stdlib Require Import ZArith Lia Bool Ascii String List.
From S2P Require Import Prelude.
Import ListNotations.
Local Open Scope Z_scope.

Definition type_bits : Z := 16 * 8.
Definition char_bits : Z := 6.
Definition max_char_count : Z := type_bits / char_bits.
Definition char_code_mask : Z := s8 (Z.shiftl 1 char_bits - 1).
Definition last_code_mask : Z := s8 (Z.shiftl 1 (type_bits - max_char_count * char_bits) - 1).
Definition invalid_code : Z := 0.

Definition CODE_MAP_U128 : list ascii := chars "abcdefghijklmnopqrstuvwxyz0123456789.#@$%_-".
Definition sizeof_CODE_MAP_U128 : Z := Z.of_nat (List.length CODE_MAP_U128).

(** The unordered_map from a character to its code, filled in a loop over the table. *)
Definition reverse_code_map_type_u128 : Type := ascii -> option Z.
Definition consturct_reverse_code_map_u128 : reverse_code_map_type_u128 :=
  fold_left (fun (reverse_code_map : reverse_code_map_type_u128) i chr =>
               if Ascii.eqb chr (nth i CODE_MAP_U128 nul) then Some (s8 (Z.of_nat i + 1)) else reverse_code_map chr)
    (seq 0 (List.length CODE_MAP_U128)) (fun _ => None).

Local Open Scope result_scope.

Definition char_to_code (chr : ascii) : result Z :=
  match consturct_reverse_code_map_u128 chr with
  | Some code => Ok code
  | None => Throw "std::out_of_range"
  end.

(** Past the end of the table the array read is undefined behaviour. *)
Definition code_to_char (ndebug : bool) (code : Z) : result ascii :=
  let* _ := check (ndebug || ((code >=? 0) && (code <? sizeof_CODE_MAP_U128)))
              "code >= 0 && code < sizeof(CODE_MAP_U128)" in
  match nth_error CODE_MAP_U128 (Z.to_nat (code - 1)) with
  | Some chr => Ok chr
  | None => Throw "undefined"
  end.

(** The loop of [to_string] with [n] turns left. *)
Fixpoint to_string_loop (ndebug : bool) (n : nat) (i tmp : Z) (res : list ascii) : result (list ascii) :=
  match n with
  | O => Ok res
  | S n =>
      let code := s8 (Z.land (Z.shiftr tmp (type_bits - char_bits * (i + 1))) char_code_mask) in
      if code =? invalid_code then Ok res
      else
        let* chr := code_to_char ndebug code in
        to_string_loop ndebug n (i + 1) tmp (res ++ [chr])
  end.

Definition to_string (ndebug : bool) (name_code : Z) : result (list ascii) :=
  if name_code =? invalid_code then Ok []
  else to_string_loop ndebug (Z.to_nat max_char_count) 0 name_code [].

(** The loop of [to_name_code] with [n] turns left. *)
Fixpoint to_name_code_loop (n : nat) (i : Z) (str : list ascii) (len value : Z) : result Z :=
  match n with
  | O => Ok value
  | S n =>
      let* c :=
        if (i <? len) && (i <=? max_char_count) then
          let* code := char_to_code (nth (Z.to_nat i) str nul) in Ok (u128 code)
        else Ok 0 in
      let c :=
        if i <? max_char_count then u128 (Z.shiftl (Z.land c char_code_mask) (type_bits - char_bits * (i + 1)))
        else Z.land c last_code_mask in
      to_name_code_loop n (i + 1) str len (Z.lor value c)
  end.

Definition to_name_code (str : list ascii) : result Z :=
  let str := c_str str in
  to_name_code_loop (Z.to_nat (max_char_count + 1)) 0 str (Z.of_nat (List.length str)) invalid_code.

(** ** Codes and characters *)

(** The code of a character, 0 when it has none. *)
Definition code_of (chr : ascii) : Z := match char_to_code chr with Ok code => code | Throw _ => 0 end.
Definition known (chr : ascii) : bool := negb (code_of chr =? 0).

Definition code_test (chr : ascii) : bool :=
  match char_to_code chr with
  | Ok code => (1 <=? code) && (code <=? 43) &&
               match code_to_char true code with Ok c => Ascii.eqb c chr | Throw _ => false end &&
               match code_to_char false code with
               | Ok c => Ascii.eqb c chr && negb (Ascii.eqb chr "-")
               | Throw _ => Ascii.eqb chr "-" end
  | Throw e => String.eqb e "std::out_of_range"
  end.

Lemma code_cases chr :
  (known chr = true /\ char_to_code chr = Ok (code_of chr) /\ 1 <= code_of chr <= 43 /\
   code_to_char true (code_of chr) = Ok chr /\
   (chr <> "-"%char -> code_to_char false (code_of chr) = Ok chr)) \/
  (known chr = false /\ char_to_code chr = Throw "std::out_of_range" /\ code_of chr = 0).
Proof.
  assert (H : code_test chr = true) by (apply ascii_all; vm_compute; reflexivity).
  unfold known, code_of, code_test in *. destruct (char_to_code chr) as [code | e].
  - left. rewrite !andb_true_iff, !Z.leb_le in H. destruct H as (((H1 & H2) & H3) & H4).
    split; [destruct (Z.eqb_spec code 0); [lia | reflexivity] |]. repeat split; try lia.
    + destruct (code_to_char true code); [apply Ascii.eqb_eq in H3; congruence | discriminate].
    + intros N. destruct (code_to_char false code).
      * apply andb_true_iff in H4 as [H4%Ascii.eqb_eq _]. congruence.
      * apply Ascii.eqb_eq in H4. congruence.
  - right. apply String.eqb_eq in H. subst e. auto.
Qed.

Lemma code_of_range chr : 0 <= code_of chr < 64.
Proof. destruct (code_cases chr) as [(_ & _ & H & _) | (_ & _ & ->)]; lia. Qed.

(** ** The loops *)

(** The code of the i-th character, 0 past the end. *)
Definition dig (s : list ascii) (i : nat) : Z := nth i (map code_of s) 0.

Lemma dig_range s i : 0 <= dig s i < 64.
Proof.
  unfold dig. destruct (Nat.lt_ge_cases i (List.length s)).
  - rewrite nth_indep with (d' := code_of nul), map_nth by (rewrite length_map; assumption). apply code_of_range.
  - rewrite nth_overflow by (rewrite length_map; assumption). lia.
Qed.

Lemma dig_in s i : (i < List.length s)%nat -> dig s i = code_of (nth i s nul).
Proof.
  intros. unfold dig. rewrite nth_indep with (d' := code_of nul), map_nth by (rewrite length_map; assumption). reflexivity.
Qed.

Lemma dig_out s i : (List.length s <= i)%nat -> dig s i = 0.
Proof. intros. unfold dig. apply nth_overflow. rewrite length_map. assumption. Qed.

Definition all_known (s : list ascii) : bool := forallb known s.

Lemma firstn_skipn_step {A} (s : list A) i n d :
  (i < List.length s)%nat -> firstn (S n) (skipn i s) = nth i s d :: firstn n (skipn (S i) s).
Proof.
  revert i; induction s as [| x s IH]; intros [| i] H; cbn in *; try lia; [reflexivity |].
  rewrite <- IH by lia. reflexivity.
Qed.

Lemma skipn_end {A} (s : list A) i : (List.length s <= i)%nat -> skipn i s = [].
Proof. apply skipn_all2. Qed.

(** The character looked up in turn [i] of [to_name_code]. *)
Definition lookup_at (s : list ascii) (i : Z) : result Z :=
  if (i <? Z.of_nat (List.length s)) && (i <=? max_char_count) then
    let* code := char_to_code (nth (Z.to_nat i) s nul) in Ok (u128 code)
  else Ok 0.

Lemma lookup_known s i n :
  all_known (firstn (S n) (skipn i s)) = true -> (i <= 21)%nat -> lookup_at s (Z.of_nat i) = Ok (dig s i).
Proof.
  intros H Hi. unfold lookup_at. destruct (Nat.lt_ge_cases i (List.length s)) as [L | L].
  - rewrite firstn_skipn_step with (d := nul) in H by assumption. apply andb_true_iff in H as [H _].
    destruct (Z.ltb_spec (Z.of_nat i) (Z.of_nat (List.length s))); [| lia].
    destruct (Z.leb_spec (Z.of_nat i) max_char_count) as [_ | X]; [| change max_char_count with 21 in X; lia].
    rewrite Nat2Z.id, dig_in by assumption. cbn [andb].
    destruct (code_cases (nth i s nul)) as [(_ & -> & R & _) | (K & _)]; [| congruence].
    cbn [bind]. unfold u128. rewrite Z.mod_small by lia. reflexivity.
  - destruct (Z.ltb_spec (Z.of_nat i) (Z.of_nat (List.length s))); [lia |].
    rewrite dig_out by assumption. reflexivity.
Qed.

Lemma all_known_tail s i n :
  all_known (firstn (S n) (skipn i s)) = true -> all_known (firstn n (skipn (S i) s)) = true.
Proof.
  intros H. destruct (Nat.lt_ge_cases i (List.length s)) as [L | L].
  - rewrite firstn_skipn_step with (d := nul) in H by assumption. apply andb_true_iff in H as [_ H]. exact H.
  - rewrite skipn_end by lia. destruct n; reflexivity.
Qed.

Definition horner (ds : list Z) (N : Z) : Z := fold_left (fun a d => 2 ^ 6 * a + d) ds N.

Lemma long_code_loop_spec s n : forall i N,
  (i + n = 21)%nat -> all_known (firstn (S n) (skipn i s)) = true ->
  to_name_code_loop (S n) (Z.of_nat i) s (Z.of_nat (List.length s)) (2 ^ (128 - 6 * Z.of_nat i) * N)
  = Ok (horner (map (dig s) (seq i n)) N * 4 + Z.land (dig s 21) 3).
Proof.
  induction n as [| n IH]; intros i N Hi Hk.
  - assert (i = 21%nat) as -> by lia. cbn [to_name_code_loop].
    fold (lookup_at s (Z.of_nat 21)). rewrite (lookup_known s 21 0) by (auto; lia). cbn [bind seq map horner fold_left].
    change (Z.of_nat 21 <? max_char_count) with false. cbv zeta. change last_code_mask with (Z.ones 2). change 3 with (Z.ones 2).
    f_equal. rewrite Z.land_ones by lia.
    change (2 ^ (128 - 6 * Z.of_nat 21)) with 4. rewrite Z.lor_comm.
    replace (4 * N) with (Z.shiftl N 2) by (rewrite Z.shiftl_mul_pow2 by lia; lia).
    rewrite lor_shiftl_add by (try lia; apply Z.mod_pos_bound; lia). unfold horner; cbn [fold_left]. lia.
  - cbn [seq map]. remember (S n) as m. cbn [to_name_code_loop]. subst m.
    fold (lookup_at s (Z.of_nat i)). rewrite (lookup_known s i (S n)) by (auto; lia). cbn [bind]. cbv zeta.
    assert ((Z.of_nat i <? max_char_count) = true) as -> by (apply Z.ltb_lt; change max_char_count with 21; lia).
    pose proof (dig_range s i). change char_code_mask with (Z.ones 6).
    rewrite (Z.land_ones (dig s i)), (Z.mod_small (dig s i)) by lia. unfold u128.
    change type_bits with 128. change char_bits with 6.
    replace (128 - 6 * (Z.of_nat i + 1)) with (128 - 6 * Z.of_nat i - 6) by lia.
    rewrite (lor_field 128) by lia.
    replace (128 - 6 * Z.of_nat i - 6) with (128 - 6 * Z.of_nat (S i)) by lia.
    replace (Z.of_nat i + 1) with (Z.of_nat (S i)) by lia.
    rewrite IH by (try lia; apply (all_known_tail s i (S n) Hk)). reflexivity.
Qed.

Lemma to_name_code_loop_throws s n : forall i value,
  (i + n = 22)%nat -> all_known (firstn n (skipn i s)) = false ->
  to_name_code_loop n (Z.of_nat i) s (Z.of_nat (List.length s)) value = Throw "std::out_of_range".
Proof.
  induction n as [| n IH]; intros i value Hi Hk; [discriminate |].
  destruct (Nat.lt_ge_cases i (List.length s)) as [L | L]; [| rewrite skipn_end in Hk by assumption; discriminate].
  rewrite firstn_skipn_step with (d := nul) in Hk by assumption.
  cbn [to_name_code_loop]. fold (lookup_at s (Z.of_nat i)).
  destruct (known (nth i s nul)) eqn:K.
  - rewrite (lookup_known s i 0) by (try lia; rewrite firstn_skipn_step with (d := nul) by assumption; cbn [firstn all_known forallb]; rewrite K; reflexivity).
    cbn [bind]. cbv zeta. replace (Z.of_nat i + 1) with (Z.of_nat (S i)) by lia.
    apply IH; [lia |]. cbn [all_known forallb] in Hk. rewrite K in Hk. exact Hk.
  - unfold lookup_at. destruct (Z.ltb_spec (Z.of_nat i) (Z.of_nat (List.length s))); [| lia].
    destruct (Z.leb_spec (Z.of_nat i) max_char_count) as [_ | X]; [| change max_char_count with 21 in X; lia].
    rewrite Nat2Z.id. cbn [andb]. destruct (code_cases (nth i s nul)) as [(K' & _) | (_ & -> & _)]; [congruence | reflexivity].
Qed.

Definition is_dash (chr : ascii) : bool := Ascii.eqb chr "-".

(** What printing returns: the characters, or the failed assertion of
    [code_to_char] when one of them is the last of the table. *)
Definition printed (ndebug : bool) (s : list ascii) (res : list ascii) : result (list ascii) :=
  if ndebug || negb (existsb is_dash s) then Ok (res ++ s)
  else Throw "code >= 0 && code < sizeof(CODE_MAP_U128)".

Lemma printed_nil ndebug res : printed ndebug [] res = Ok res.
Proof. unfold printed. cbn. rewrite orb_true_r, app_nil_r. reflexivity. Qed.

Lemma printed_cons ndebug chr s res :
  known chr = true ->
  (let* c := code_to_char ndebug (code_of chr) in printed ndebug s (res ++ [c])) = printed ndebug (chr :: s) res.
Proof.
  intros K. destruct (code_cases chr) as [(_ & _ & _ & T & F) | (K' & _)]; [| congruence].
  unfold printed. cbn [existsb]. destruct ndebug; cbn [orb].
  - rewrite T. cbn [bind]. rewrite <- app_assoc. reflexivity.
  - unfold is_dash at 2. destruct (Ascii.eqb_spec chr "-"%char) as [-> | N]; [reflexivity |].
    rewrite (F N). cbn [bind orb]. rewrite <- app_assoc. reflexivity.
Qed.

(** The code read in turn [i] of [to_string]. *)
Lemma read_code s i l :
  (i < 21)%nat -> 0 <= l < 4 ->
  s8 (Z.land (Z.shiftr (horner (map (dig s) (seq 0 21)) 0 * 4 + l) (type_bits - char_bits * (Z.of_nat i + 1))) char_code_mask)
  = dig s i.
Proof.
  intros Hi Hl. unfold horner. rewrite fold_leval, Z.mul_0_r, Z.add_0_l by lia.
  set (ds := map (dig s) (seq 0 21)).
  assert (F : Forall (fun d => 0 <= d < 2 ^ 6) (rev ds)).
  { apply Forall_rev, Forall_map, Forall_forall. intros x _. apply dig_range. }
  assert (E : dig s i = nth (20 - i) (rev ds) 0).
  { rewrite rev_nth by (unfold ds; rewrite length_map, length_seq; lia).
    unfold ds. rewrite length_map, length_seq. replace (21 - S (20 - i))%nat with i by lia.
    rewrite nth_indep with (d' := dig s 0), map_nth, seq_nth by (rewrite ?length_map, ?length_seq; lia). reflexivity. }
  rewrite E, (nth_slice 6) by (lia || exact F).
  change char_code_mask with (Z.ones 6). rewrite Z.land_ones, Z.shiftr_div_pow2 by (change type_bits with 128; change char_bits with 6; lia).
  fold (slice (leval 6 (rev ds) * 4 + l) (type_bits - char_bits * (Z.of_nat i + 1)) 6).
  replace (leval 6 (rev ds) * 4 + l) with (l + 2 ^ 2 * leval 6 (rev ds)) by lia.
  replace (type_bits - char_bits * (Z.of_nat i + 1)) with (2 + 6 * Z.of_nat (20 - i))
    by (change type_bits with 128; change char_bits with 6; lia).
  rewrite slice_shift by lia. pose proof (slice_range (leval 6 (rev ds)) (6 * Z.of_nat (20 - i)) 6 ltac:(lia)).
  unfold s8, swrap. rewrite Z.mod_small by lia. destruct (Z.ltb_spec (slice (leval 6 (rev ds)) (6 * Z.of_nat (20 - i)) 6) (2 ^ (8 - 1))); lia.
Qed.

Lemma long_print_loop_spec ndebug s l n : forall i res,
  (i + n = 21)%nat -> 0 <= l < 4 -> all_known (firstn n (skipn i s)) = true ->
  to_string_loop ndebug n (Z.of_nat i) (horner (map (dig s) (seq 0 21)) 0 * 4 + l) res
  = printed ndebug (firstn n (skipn i s)) res.
Proof.
  induction n as [| n IH]; intros i res Hi Hl Hk.
  - symmetry. apply printed_nil.
  - cbn [to_string_loop]. rewrite read_code by lia. unfold invalid_code.
    destruct (Nat.lt_ge_cases i (List.length s)) as [L | L].
    + pose proof (all_known_tail s i n Hk) as Hk'.
      rewrite firstn_skipn_step with (d := nul) in * by assumption.
      apply andb_true_iff in Hk as [K _]. rewrite dig_in by assumption.
      rewrite <- printed_cons by assumption.
      destruct (code_cases (nth i s nul)) as [(_ & _ & R & _) | (K' & _)]; [| congruence].
      destruct (Z.eqb_spec (code_of (nth i s nul)) 0); [lia |]. cbv zeta.
      destruct (code_to_char ndebug _) as [c | e]; cbn [bind]; [| reflexivity].
      replace (Z.of_nat i + 1) with (Z.of_nat (S i)) by lia. apply IH; auto; lia.
    + rewrite dig_out, skipn_end by assumption. symmetry. apply printed_nil.
Qed.

Lemma horner_zero s : horner (map (dig s) (seq 0 21)) 0 * 4 + Z.land (dig s 21) 3 = 0 -> dig s 0 = 0.
Proof.
  intros E. rewrite <- (read_code s 0 (Z.land (dig s 21) 3)); [rewrite E; reflexivity | lia |].
  change 3 with (Z.ones 2). rewrite Z.land_ones by lia. apply (Z.mod_pos_bound _ 4); lia.
Qed.

(** ** Correctness *)

(** When the first twenty-two characters of a string are in the table,
    its code prints as the first twenty-one of them, except that with
    assertions enabled a hyphen (the last character of the table) stops the
    program; when one of them is not in the table, encoding throws. *)
Theorem long_name_roundtrip ndebug str :
  if all_known (firstn 22 (c_str str)) then
    exists code, to_name_code str = Ok code /\
      to_string ndebug code = printed ndebug (firstn 21 (c_str str)) []
  else to_name_code str = Throw "std::out_of_range".
Proof.
  unfold to_name_code. set (s := c_str str). destruct (all_known (firstn 22 s)) eqn:K.
  - eexists. split; [exact (long_code_loop_spec s 21 0 0 eq_refl K) |].
    assert (K' : all_known (firstn 21 s) = true).
    { clearbody s. clear - K. unfold all_known in *. rewrite forallb_forall in *. intros x Hx. apply K.
      rewrite <- (firstn_skipn 21 (firstn 22 s)), firstn_firstn. apply in_or_app. left. exact Hx. }
    unfold to_string. set (V := _ * 4 + _). destruct (Z.eqb_spec V invalid_code) as [E | _].
    + apply horner_zero in E. destruct s as [| chr s']; [symmetry; apply printed_nil |].
      cbn in K. apply andb_true_iff in K as [K _]. unfold known in K. change (dig (chr :: s') 0) with (code_of chr) in E.
      rewrite E in K. discriminate.
    + apply (long_print_loop_spec ndebug s _ 21 0); [reflexivity | | exact K'].
      change 3 with (Z.ones 2). rewrite Z.land_ones by lia. apply (Z.mod_pos_bound _ 4); lia.
  - apply (to_name_code_loop_throws s 22 0); [reflexivity | exact K].
Qed.

(** The hyphen is encoded but, in a build with assertions, never printed. *)
Example hyphen_stops_printing :
  (let* code := to_name_code (chars "a-b") in to_string false code)
    = Throw "code >= 0 && code < sizeof(CODE_MAP_U128)" /\
  (let* code := to_name_code (chars "a-b") in to_string true code) = Ok (chars "a-b").
Proof. split; vm_compute; reflexivity. Qed.

(** A twenty-second character leaves its two low bits in the code, where no
    printed name shows them. *)
Example last_bits_collide :
  (let* a := to_name_code (chars "abcdefghijklmnopqrstua") in to_string true a)
  = (let* b := to_name_code (chars "abcdefghijklmnopqrstub") in to_string true b) /\
  to_name_code (chars "abcdefghijklmnopqrstua") <> to_name_code (chars "abcdefghijklmnopqrstub").
Proof. split; [| intros E]; vm_compute in *; [reflexivity | discriminate]. Qed.
