(* ===== verification/Asset.v ===== *)
(** Token amounts and symbols (foundation/basetypes/include/asset.hpp,
    asset.cpp) and the checked arithmetic of include/safemath.hpp.

    A symbol is a 64-bit word read as eight bytes, least significant first:
    byte 0 is the number of decimals, bytes 1 to 6 the name, byte 7 zero.
    boost's conversions between integers and decimal text and its trim are
    parameters of the model, with what the code relies on as the hypotheses of
    Section [Text]. *)

From Stdlib Require Import ZArith Lia Bool Ascii String List.
From S2P Require Import Prelude.
Import ListNotations.
Local Open Scope Z_scope.
Local Open Scope result_scope.

(** ** safemath.hpp, for an unsigned type of [w] bits *)

Module SafeMath.
Section SafeMath.
Context (w : Z).

Definition wrap (z : Z) : Z := z mod 2 ^ w.
Definition overflow : string := "invalid_operator_exception".

Definition mul (a b : Z) : result Z :=
  if a =? 0 then Ok 0
  else
    let c := wrap (a * b) in
    let* _ := check (c / a =? b) overflow in Ok c.

(** Division by zero is undefined behaviour. *)
Definition div (a b : Z) : result Z := if b =? 0 then Throw "undefined" else Ok (a / b).

Definition sub (a b : Z) : result Z :=
  let* _ := check (b <=? a) overflow in Ok (wrap (a - b)).

Definition add (a b : Z) : result Z :=
  let c := wrap (a + b) in
  let* _ := check (c >=? a) overflow in Ok c.

Context (Hw : 0 < w).

Lemma wrap_split z : exists q, z = wrap z + 2 ^ w * q /\ q = z / 2 ^ w /\ 0 <= wrap z < 2 ^ w.
Proof using Hw.
  assert (0 < 2 ^ w) by (apply Z.pow_pos_nonneg; lia).
  exists (z / 2 ^ w). unfold wrap. pose proof (Z.div_mod z (2 ^ w) ltac:(lia)).
  pose proof (Z.mod_pos_bound z (2 ^ w) ltac:(lia)). lia.
Qed.

Lemma add_cases a b :
  0 <= a < 2 ^ w -> 0 <= b < 2 ^ w ->
  add a b = if a + b <? 2 ^ w then Ok (a + b) else Throw overflow.
Proof using Hw.
  intros Ha Hb. unfold add. destruct (Z.ltb_spec (a + b) (2 ^ w)).
  - unfold wrap. rewrite Z.mod_small, Z.geb_leb by lia. destruct (Z.leb_spec a (a + b)); [reflexivity | lia].
  - assert (E : wrap (a + b) = a + b - 2 ^ w) by (symmetry; apply Z.mod_unique with 1; lia).
    rewrite E, Z.geb_leb. destruct (Z.leb_spec a (a + b - 2 ^ w)); [lia | reflexivity].
Qed.

Lemma sub_cases a b :
  0 <= a < 2 ^ w -> 0 <= b < 2 ^ w ->
  sub a b = if b <=? a then Ok (a - b) else Throw overflow.
Proof using Hw.
  intros Ha Hb. unfold sub, check, wrap. destruct (Z.leb_spec b a); [| reflexivity].
  cbn [bind]. rewrite Z.mod_small by lia. reflexivity.
Qed.

Lemma mul_cases a b :
  0 <= a < 2 ^ w -> 0 <= b < 2 ^ w ->
  mul a b = if a * b <? 2 ^ w then Ok (a * b) else Throw overflow.
Proof using Hw.
  intros Ha Hb. unfold mul. destruct (Z.eqb_spec a 0) as [-> | Ha0].
  - rewrite Z.mul_0_l. destruct (Z.ltb_spec 0 (2 ^ w)); [reflexivity | lia].
  - destruct (Z.ltb_spec (a * b) (2 ^ w)).
    + unfold wrap. rewrite (Z.mod_small (a * b)), Z.mul_comm, Z.div_mul, Z.eqb_refl by nia. reflexivity.
    + destruct (wrap_split (a * b)) as (q & E & _ & R).
      assert (0 < q) by nia. destruct (Z.eqb_spec (wrap (a * b) / a) b) as [F | F]; [| reflexivity].
      exfalso. pose proof (Z.mul_div_le (wrap (a * b)) a ltac:(lia)). nia.
Qed.

End SafeMath.
End SafeMath.

(** ** Symbols *)

Definition symbol_bytes (data : Z) : list Z := slices 8 8 data 0.
Definition of_bytes (b : list Z) : Z := leval 8 b.

Definition PACK_TOKEN_NAME (cs : list ascii) : Z := of_bytes (0 :: map ord cs).
Definition MAKE_TOKEN_SYMBOL (decimals : Z) (cs : list ascii) : Z := Z.lor decimals (PACK_TOKEN_NAME cs).
Definition MAIN_SYMBOL : Z := MAKE_TOKEN_SYMBOL 8 (chars "SUP").
Definition MAIN_TOKEN_MAX_SHARE_SUPPLY : Z := 1000000000000000.

(** [token_str[i] << 8 * i] is a shift of an [int]: undefined when the
    character is negative, the count is 32 or more, or the value does not fit. *)
Definition int_shl (a k : Z) : result Z :=
  if (0 <=? a) && (k <? 32) && (Z.shiftl a k <? 2 ^ 31) then Ok (Z.shiftl a k) else Throw "undefined".

Fixpoint token_name_loop (str : list ascii) (i res : Z) : result Z :=
  match str with
  | [] => Ok res
  | ch :: str =>
      let* v := int_shl (s8 (ord ch)) (8 * i) in
      token_name_loop str (i + 1) (Z.lor res (u64 v))
  end.

Definition token_name_from_string (token_str : list ascii) : result Z :=
  let char_count := Z.of_nat (List.length token_str) in
  let* _ := check ((char_count <=? 7) && (char_count >=? 3)) "invalid_field_name_exception" in
  token_name_loop token_str 0 0.

Definition chr (b : Z) : ascii := ascii_of_N (Z.to_N b).

(** Always eight characters. *)
Fixpoint token_name_to_string_loop (n : nat) (tokename : Z) (ret : list ascii) : list ascii :=
  match n with
  | O => ret
  | S n => token_name_to_string_loop n (Z.shiftr tokename 8) (ret ++ [chr (Z.land tokename 255)])
  end.
Definition token_name_to_string (tokename : Z) : list ascii := token_name_to_string_loop 8 tokename [].

(** ** Assets *)

Record asset := Asset { amount : Z; symbol : Z }.
Definition default_asset : asset := Asset 0 MAIN_SYMBOL.

(** Signed overflow is undefined behaviour. *)
Definition int64 (z : Z) : result Z :=
  if (- 2 ^ 63 <=? z) && (z <? 2 ^ 63) then Ok z else Throw "undefined".

Definition decimals (a : asset) : Z := nth 0 (symbol_bytes (symbol a)) 0.
Definition set_decimals (a : asset) (d : Z) : asset :=
  Asset (amount a) (of_bytes (u8 d :: tl (symbol_bytes (symbol a)))).

(** The C string at [&a[1]]; without the zero byte it would run past the object. *)
Definition symbol_name (a : asset) : result (list ascii) :=
  let* _ := check (nth 7 (symbol_bytes (symbol a)) 0 =? 0) "a[7] == 0" in
  Ok (c_str (map chr (tl (symbol_bytes (symbol a))))).

Definition precision_table : list Z :=
  [1; 10; 100; 1000; 10000; 100000; 1000000; 10000000; 100000000; 1000000000; 10000000000;
   100000000000; 1000000000000; 10000000000000; 100000000000000].

(** A read past the table is undefined behaviour. *)
Definition precision (a : asset) : result Z :=
  match nth_error precision_table (Z.to_nat (decimals a)) with
  | Some p => Ok p
  | None => Throw "undefined"
  end.

Definition asset_add (a b : asset) : result asset :=
  let* _ := check (symbol a =? symbol b) "symbol == o.symbol" in
  let* s := int64 (amount a + amount b) in Ok (Asset s (symbol a)).
Definition asset_sub (a b : asset) : result asset :=
  let* _ := check (symbol a =? symbol b) "symbol == o.symbol" in
  let* s := int64 (amount a - amount b) in Ok (Asset s (symbol a)).
Definition asset_neg (a : asset) : result asset :=
  let* s := int64 (- amount a) in Ok (Asset s (symbol a)).
Definition asset_eq (a b : asset) : bool := (symbol a =? symbol b) && (amount a =? amount b).
Definition asset_lt (a b : asset) : result bool :=
  let* _ := check (symbol a =? symbol b) "a.symbol == b.symbol" in
  Ok ((amount a <? amount b) || ((amount a =? amount b) && (symbol a <? symbol b))).

(** ** Prices *)

Record price := Price { base : asset; quote : asset }.

Definition cross (a b : price) : Z * Z :=
  (u128 (u128 (amount (quote b)) * u128 (amount (base a))),
   u128 (u128 (amount (quote a)) * u128 (amount (base b)))).

Definition price_eq (a b : price) : bool :=
  if negb ((symbol (base a) =? symbol (base b)) && (symbol (quote a) =? symbol (quote b))) then false
  else let '(amult, bmult) := cross a b in amult =? bmult.

Definition price_lt (a b : price) : bool :=
  if symbol (base a) <? symbol (base b) then true
  else if symbol (base a) >? symbol (base b) then false
  else if symbol (quote a) <? symbol (quote b) then true
  else if symbol (quote a) >? symbol (quote b) then false
  else let '(amult, bmult) := cross a b in amult <? bmult.

Definition price_le (a b : price) : bool := price_eq a b || price_lt a b.
Definition price_ne (a b : price) : bool := negb (price_eq a b).
Definition price_gt (a b : price) : bool := negb (price_le a b).
Definition price_ge (a b : price) : bool := negb (price_lt a b).

Definition list_ascii_eqb (a b : list ascii) : bool := String.eqb (string_of_list_ascii a) (string_of_list_ascii b).

(** [quote_of base quote]: operator / on assets. *)
Definition make_price (b q : asset) : result price :=
  let* bn := symbol_name b in
  let* qn := symbol_name q in
  let* _ := check (negb (list_ascii_eqb bn qn)) "base.symbol_name() != quote.symbol_name()" in
  Ok (Price b q).

Definition price_max (b q : Z) : result price := make_price (Asset MAIN_TOKEN_MAX_SHARE_SUPPLY b) (Asset 1 q).
Definition price_min (b q : Z) : result price := make_price (Asset 1 b) (Asset MAIN_TOKEN_MAX_SHARE_SUPPLY q).
Definition price_inv (p : price) : price := Price (quote p) (base p).
Definition is_null (p : price) : bool := price_eq p (Price default_asset default_asset).

Definition validate (p : price) : result unit :=
  let* _ := check (amount (base p) >? 0) "base.amount > share_type(0)" in
  let* _ := check (amount (quote p) >? 0) "quote.amount > share_type(0)" in
  let* bn := symbol_name (base p) in
  let* qn := symbol_name (quote p) in
  check (negb (list_ascii_eqb bn qn)) "base.symbol_name() != quote.symbol_name()".

(** [to_int] is boost's conversion of a 128-bit number to int64. *)
Definition asset_mul (to_int : Z -> Z) (a : asset) (b : price) : result asset :=
  let* an := symbol_name a in
  let* bn := symbol_name (base b) in
  if list_ascii_eqb an bn then
    let* _ := check (amount (base b) >? 0) "b.base.amount > 0" in
    let r := u128 (u128 (amount a) * u128 (amount (quote b))) / u128 (amount (base b)) in
    Ok (Asset (to_int r) (symbol (quote b)))
  else
    let* qn := symbol_name (quote b) in
    if list_ascii_eqb an qn then
      let* _ := check (amount (quote b) >? 0) "b.quote.amount > 0" in
      let r := u128 (u128 (amount a) * u128 (amount (base b))) / u128 (amount (quote b)) in
      Ok (Asset (to_int r) (symbol (base b)))
    else Throw "fc::assert_exception".

(** ** Text *)

Definition npos : Z := 2 ^ 64 - 1.

Fixpoint find_from (c : ascii) (s : list ascii) (i : Z) : Z :=
  match s with
  | [] => npos
  | x :: s => if Ascii.eqb x c then i else find_from c s (i + 1)
  end.
Definition find (c : ascii) (s : list ascii) : Z := find_from c s 0.

(** std::string::substr; positions and counts are of type size_t. *)
Definition substr (s : list ascii) (pos count : Z) : result (list ascii) :=
  let size := Z.of_nat (List.length s) in
  if pos >? size then Throw "std::out_of_range"
  else Ok (firstn (Z.to_nat (Z.min count (size - pos))) (skipn (Z.to_nat pos) s)).

Section Text.
Context (fc_to_string : Z -> list ascii) (fc_to_int64 : list ascii -> result Z) (fc_trim : list ascii -> list ascii).

Definition to_string (a : asset) : result (list ascii) :=
  let* p := precision a in
  let res := fc_to_string (Z.quot (amount a) p) in
  let* res :=
    if negb (decimals a =? 0) then
      let fract := Z.rem (amount a) p in
      let* f := int64 (p + fract) in
      Ok (res ++ "."%char :: skipn 1 (fc_to_string f))
    else Ok res in
  let* n := symbol_name a in
  Ok (res ++ " "%char :: n).

Definition from_string (from : list ascii) : result asset :=
  let s := fc_trim from in
  let space_pos := find " " s in
  let dot_pos := find "." s in
  let res := Asset 0 (of_bytes (u8 dot_pos :: repeat 0 7)) in
  let* intpart := substr s 0 dot_pos in
  let* v := fc_to_int64 intpart in
  let res := Asset v (symbol res) in
  let* res :=
    if negb (dot_pos =? npos) then
      let* t := substr s (u64 (dot_pos + 1)) (u64 (space_pos - dot_pos - 1)) in
      let fractpart := "1"%char :: t in
      let res := set_decimals res (Z.of_nat (List.length fractpart) - 1) in
      let* p := precision res in
      let* v := int64 (amount res * p) in
      let* f := fc_to_int64 fractpart in
      let* v := int64 (v + f) in
      let* v := int64 (v - p) in
      Ok (Asset v (symbol res))
    else Ok res in
  let* sym := substr s (u64 (space_pos + 1)) npos in
  (* memcpy of at most six bytes after the first *)
  let b := symbol_bytes (symbol res) in
  let n := Nat.min (List.length sym) 6 in
  Ok (Asset (amount res) (of_bytes (firstn 1 b ++ map ord (firstn n sym) ++ skipn (1 + n) b))).
End Text.

(** A decimal reading and printing that behaves as boost's does, to run the
    model on examples. *)
Definition is_digit (c : ascii) : bool := (ord "0" <=? ord c) && (ord c <=? ord "9").
Definition dec_val (s : list ascii) : Z := fold_left (fun acc c => 10 * acc + (ord c - ord "0")) s 0.

Fixpoint print_nat (fuel : nat) (z : Z) (acc : list ascii) : list ascii :=
  match fuel with
  | O => acc
  | S fuel =>
      let acc := chr (ord "0" + z mod 10) :: acc in
      if z <? 10 then acc else print_nat fuel (z / 10) acc
  end.
Definition print_dec (z : Z) : list ascii :=
  if z <? 0 then "-"%char :: print_nat 20 (- z) [] else print_nat 20 z [].

Definition read_dec (s : list ascii) : result Z :=
  let go s := if negb (Nat.eqb (List.length s) 0) && forallb is_digit s then Ok (dec_val s) else Throw "parse_error_exception" in
  let* z := match s with
            | c :: t => if Ascii.eqb c "-" then let* v := go t in Ok (- v) else go s
            | [] => go s
            end in
  if (- 2 ^ 63 <=? z) && (z <? 2 ^ 63) then Ok z else Throw "parse_error_exception".

Fixpoint drop_spaces (s : list ascii) : list ascii :=
  match s with
  | c :: t => if Ascii.eqb c " " then drop_spaces t else s
  | [] => []
  end.
Definition trim_spaces (s : list ascii) : list ascii := rev (drop_spaces (rev (drop_spaces s))).

(** ** Symbols as bytes *)

(** The symbol with [d] decimals and the name [n]. *)
Definition make_symbol (d : Z) (n : list ascii) : Z := of_bytes (d :: map ord n ++ repeat 0 (7 - List.length n)).

Lemma symbol_bytes_of b :
  List.length b = 8%nat -> Forall (fun d => 0 <= d < 2 ^ 8) b -> symbol_bytes (of_bytes b) = b.
Proof.
  intros L F. unfold symbol_bytes, of_bytes. pose proof (slices_leval 8 b 0 0 ltac:(lia) ltac:(lia) F ltac:(lia)) as E.
  rewrite L, Z.pow_0_r, Z.mul_1_l, Z.add_0_l in E. exact E.
Qed.

Lemma ords_range n : Forall (fun d => 0 <= d < 2 ^ 8) (map ord n).
Proof. apply Forall_map, Forall_forall. intros c _. pose proof (ord_range c). lia. Qed.

Lemma zeros_range k : Forall (fun d => 0 <= d < 2 ^ 8) (repeat 0 k).
Proof. apply Forall_forall. intros x H%repeat_spec. lia. Qed.

Lemma make_symbol_bytes d n :
  0 <= d < 2 ^ 8 -> (List.length n <= 7)%nat ->
  symbol_bytes (make_symbol d n) = d :: map ord n ++ repeat 0 (7 - List.length n).
Proof.
  intros Hd Hn. apply symbol_bytes_of.
  - cbn [List.length]. rewrite length_app, length_map, repeat_length. lia.
  - constructor; [exact Hd |]. apply Forall_app. auto using ords_range, zeros_range.
Qed.

Lemma chr_ord c : chr (ord c) = c.
Proof. unfold chr, ord. rewrite N2Z.id. apply ascii_N_embedding. Qed.

Lemma map_chr_ord n : map chr (map ord n) = n.
Proof. rewrite map_map. rewrite <- (map_id n) at 2. apply map_ext, chr_ord. Qed.

Lemma c_str_nul n m : ~ In nul n -> c_str (n ++ nul :: m) = n.
Proof.
  induction n as [| c n IH]; intros H; [reflexivity |]. cbn [app c_str].
  destruct (Ascii.eqb_spec c nul) as [-> | _]; [exfalso; apply H; left; reflexivity |].
  rewrite IH; [reflexivity | intros X; apply H; right; exact X].
Qed.

(** A name of at most six characters, none of them null, is read back. *)
Lemma symbol_name_make d n v :
  0 <= d < 2 ^ 8 -> (List.length n <= 6)%nat -> ~ In nul n ->
  symbol_name (Asset v (make_symbol d n)) = Ok n /\ decimals (Asset v (make_symbol d n)) = d.
Proof.
  intros Hd Hn H0. unfold symbol_name, decimals. cbn [symbol].
  rewrite (make_symbol_bytes d n) by lia. cbn [tl nth]. split; [| reflexivity].
  assert (E : (7 - List.length n = S (6 - List.length n))%nat) by lia.
  rewrite app_nth2, length_map, nth_repeat by (rewrite length_map; lia).
  cbn [Z.eqb check bind]. rewrite map_app, map_chr_ord, E. cbn [repeat map].
  change (chr 0) with nul. rewrite c_str_nul by assumption. reflexivity.
Qed.

(** ** Decimal text *)

Definition all_digits (s : list ascii) : bool := forallb is_digit s.

Lemma digit_range c : is_digit c = true -> 0 <= ord c - ord "0" <= 9.
Proof. unfold is_digit. rewrite andb_true_iff, !Z.leb_le. change (ord "0") with 48. change (ord "9") with 57. lia. Qed.

Lemma dec_val_from s : forall acc,
  fold_left (fun acc c => 10 * acc + (ord c - ord "0")) s acc = 10 ^ Z.of_nat (List.length s) * acc + dec_val s.
Proof.
  unfold dec_val. induction s as [| c s IH]; intros acc; cbn [fold_left List.length]; [lia |].
  rewrite IH, (IH (10 * 0 + _)), Nat2Z.inj_succ, Z.pow_succ_r by lia. ring.
Qed.

Lemma dec_val_cons c s : dec_val (c :: s) = (ord c - ord "0") * 10 ^ Z.of_nat (List.length s) + dec_val s.
Proof. unfold dec_val at 1. cbn [fold_left]. rewrite dec_val_from. ring. Qed.

Lemma dec_val_range s : all_digits s = true -> 0 <= dec_val s < 10 ^ Z.of_nat (List.length s).
Proof.
  induction s as [| c s IH]; intros H; [cbv; split; congruence |].
  apply andb_true_iff in H as [Hc Hs]. specialize (IH Hs). pose proof (digit_range c Hc).
  rewrite dec_val_cons. cbn [List.length]. rewrite Nat2Z.inj_succ, Z.pow_succ_r by lia. nia.
Qed.

(** Decimal digits without a leading zero. *)
Definition canonical (s : list ascii) : Prop :=
  all_digits s = true /\ match s with [] => False | c :: t => c = "0"%char -> t = [] end.

Lemma canonical_length s d :
  canonical s -> 10 ^ d <= dec_val s < 10 ^ (d + 1) -> 0 <= d -> Z.of_nat (List.length s) = d + 1.
Proof.
  intros [H0 Hc] Hv Hd. destruct s as [| c t]; [contradiction |].
  pose proof H0 as HA. apply andb_true_iff in H0 as [H1 H2]. pose proof (digit_range c H1) as Hr.
  pose proof (dec_val_range t H2) as Ht. rewrite dec_val_cons in Hv. cbn [List.length].
  set (k := Z.of_nat (List.length t)) in *. assert (Hk : 0 <= k) by lia.
  assert (P10 : forall n, 0 <= n -> 0 < 10 ^ n) by (intros; apply Z.pow_pos_nonneg; lia).
  pose proof (P10 k Hk). pose proof (P10 d Hd).
  assert (c0 : ord c - ord "0" = 0 \/ 1 <= ord c - ord "0") by lia.
  destruct c0 as [c0 | c0].
  - assert (c = "0"%char) as Ec by (apply ord_inj; lia). apply Hc in Ec. subst t. cbn in *. lia.
  - assert (k <= d).
    { apply Z.lt_succ_r. apply (Z.pow_lt_mono_r_iff 10); try lia.
      apply Z.le_lt_trans with (dec_val t + (ord c - ord "0") * 10 ^ k); [nia |]. unfold Z.succ; lia. }
    assert (d <= k).
    { apply Z.lt_succ_r. apply (Z.pow_lt_mono_r_iff 10); try lia. rewrite Z.pow_succ_r by lia. nia. }
    lia.
Qed.

Lemma leading_one s d :
  canonical s -> 10 ^ d <= dec_val s < 2 * 10 ^ d -> 0 <= d ->
  exists t, s = "1"%char :: t /\ Z.of_nat (List.length t) = d /\ all_digits t = true /\ dec_val t = dec_val s - 10 ^ d.
Proof.
  intros Hc Hv Hd. assert (P : 10 ^ (d + 1) = 10 * 10 ^ d) by (rewrite <- Z.pow_succ_r by lia; reflexivity).
  pose proof (canonical_length s d Hc ltac:(lia) Hd) as L. destruct Hc as [H0 _].
  destruct s as [| c t]; [cbn in L; lia |]. cbn [List.length] in L.
  apply andb_true_iff in H0 as [H1 H2]. pose proof (digit_range c H1). pose proof (dec_val_range t H2) as Ht.
  rewrite dec_val_cons in *. replace (Z.of_nat (List.length t)) with d in * by lia.
  assert (E : ord c - ord "0" = 1) by nia.
  exists t. rewrite E. repeat split; try assumption; try lia.
  f_equal. apply ord_inj. change (ord "0") with 48 in E. change (ord "1") with 49. lia.
Qed.

(** ** Finding and cutting *)

Lemma find_from_at c s t : forall i, ~ In c s -> find_from c (s ++ c :: t) i = i + Z.of_nat (List.length s).
Proof.
  induction s as [| x s IH]; intros i H; cbn [app find_from List.length].
  - rewrite Ascii.eqb_refl. lia.
  - destruct (Ascii.eqb_spec x c) as [-> | _]; [exfalso; apply H; left; reflexivity |].
    rewrite IH; [lia |]. intros X; apply H; right; exact X.
Qed.

Lemma substr_mid a b c count :
  (c = [] /\ Z.of_nat (List.length b) <= count \/ count = Z.of_nat (List.length b)) ->
  substr (a ++ b ++ c) (Z.of_nat (List.length a)) count = Ok b.
Proof.
  intros H. unfold substr. rewrite !length_app.
  destruct (Z.gtb_spec (Z.of_nat (List.length a)) (Z.of_nat (List.length a + (List.length b + List.length c)))); [lia |].
  f_equal. rewrite Nat2Z.id, skipn_app, skipn_all, Nat.sub_diag. cbn [app skipn].
  assert (E : Z.to_nat (Z.min count (Z.of_nat (List.length a + (List.length b + List.length c)) - Z.of_nat (List.length a)))
              = (List.length b + 0)%nat).
  { destruct H as [[-> H] | ->]; cbn [List.length]; lia. }
  rewrite E, firstn_app_2. cbn. apply app_nil_r.
Qed.

Lemma digits_free s c : all_digits s = true -> is_digit c = false -> ~ In c s.
Proof. unfold all_digits. rewrite forallb_forall. intros H N X. rewrite (H c X) in N. discriminate. Qed.

Lemma nth_error_precision d : 0 <= d <= 14 -> nth_error precision_table (Z.to_nat d) = Some (10 ^ d).
Proof.
  intros H. assert (E : d = Z.of_nat (Z.to_nat d)) by lia. rewrite E at 2.
  assert (L : (Z.to_nat d <= 14)%nat) by lia. generalize dependent (Z.to_nat d). intros n _ L.
  do 15 (destruct n as [| n]; [reflexivity |]). lia.
Qed.

Lemma int64_ok z : - 2 ^ 63 <= z < 2 ^ 63 -> int64 z = Ok z.
Proof.
  intros H. unfold int64. destruct (Z.leb_spec (- 2 ^ 63) z), (Z.ltb_spec z (2 ^ 63)); try lia. reflexivity.
Qed.

Definition is_space (c : ascii) : bool := (ord c =? 32) || ((9 <=? ord c) && (ord c <=? 13)).

Lemma digit_not_space c : is_digit c = true -> is_space c = false.
Proof.
  intros H%digit_range. unfold is_space. change (ord "0") with 48 in H.
  destruct (Z.eqb_spec (ord c) 32), (Z.leb_spec 9 (ord c)), (Z.leb_spec (ord c) 13); try lia; reflexivity.
Qed.

Lemma u8_byte z : 0 <= u8 z < 2 ^ 8.
Proof. apply Z.mod_pos_bound. lia. Qed.

(** A symbol that holds only its decimals. *)
Lemma bare_symbol_bytes d : symbol_bytes (of_bytes (u8 d :: repeat 0 7)) = u8 d :: repeat 0 7.
Proof. apply symbol_bytes_of; [reflexivity | constructor; [apply u8_byte | apply zeros_range]]. Qed.

Lemma copy_name d n :
  (List.length n <= 6)%nat ->
  of_bytes (firstn 1 (u8 d :: repeat 0 7) ++ map ord (firstn (Nat.min (List.length n) 6) n)
            ++ skipn (1 + Nat.min (List.length n) 6) (u8 d :: repeat 0 7))
  = make_symbol (u8 d) n.
Proof.
  intros Hn. rewrite Nat.min_l, firstn_all by lia. unfold make_symbol. cbn [firstn app Nat.add skipn].
  do 3 f_equal. do 7 (destruct n as [| ? n]; [reflexivity |]). cbn in Hn; lia.
Qed.

Section RoundTrip.
Context (fc_to_string : Z -> list ascii) (fc_to_int64 : list ascii -> result Z) (fc_trim : list ascii -> list ascii).
Context (fc_to_string_spec : forall z, 0 <= z < 2 ^ 63 -> canonical (fc_to_string z) /\ dec_val (fc_to_string z) = z).
Context (fc_to_int64_spec : forall s, s <> [] -> all_digits s = true -> dec_val s < 2 ^ 63 -> fc_to_int64 s = Ok (dec_val s)).
Context (fc_trim_spec : forall x m y, is_space x = false -> is_space y = false -> fc_trim (x :: m ++ [y]) = x :: m ++ [y]).

(** What printing gives: the integer part, the [d] digits of the fraction, the name. *)
Lemma to_string_shape amt d n :
  0 <= amt < 2 ^ 63 -> 1 <= d <= 14 -> (List.length n <= 6)%nat -> ~ In nul n ->
  exists f, to_string fc_to_string (Asset amt (make_symbol d n))
            = Ok (fc_to_string (amt / 10 ^ d) ++ "."%char :: f ++ " "%char :: n) /\
    Z.of_nat (List.length f) = d /\ all_digits f = true /\ dec_val f = amt mod 10 ^ d.
Proof using fc_to_string_spec.
  intros Ha Hd Hn H0. destruct (symbol_name_make d n amt ltac:(lia) Hn H0) as [EN ED].
  assert (P : 0 < 10 ^ d <= 10 ^ 14) by (split; [apply Z.pow_pos_nonneg | apply Z.pow_le_mono_r]; lia).
  pose proof (Z.mod_pos_bound amt (10 ^ d) ltac:(lia)) as Hm.
  destruct (fc_to_string_spec (10 ^ d + amt mod 10 ^ d) ltac:(lia)) as [C V].
  destruct (leading_one _ d C ltac:(lia) ltac:(lia)) as (f & Ef & Lf & Df & Vf).
  exists f. split; [| rewrite Vf, V; repeat split; try assumption; lia].
  unfold to_string, precision. rewrite ED, nth_error_precision by lia. cbn [bind amount].
  rewrite Z.quot_div_nonneg, Z.rem_mod_nonneg by lia.
  destruct (Z.eqb_spec d 0); [lia |]. cbn [negb bind].
  rewrite int64_ok by lia. cbn [bind]. rewrite Ef, EN. cbn [bind skipn].
  rewrite <- app_assoc. reflexivity.
Qed.

Lemma canonical_short s : canonical s -> dec_val s < 2 ^ 63 -> Z.of_nat (List.length s) <= 19.
Proof using.
  intros C V. destruct (Z.le_gt_cases (Z.of_nat (List.length s)) 19) as [L | L]; [exact L | exfalso].
  destruct C as [A H]. destruct s as [| c t]; [contradiction |]. cbn [List.length] in L.
  apply andb_true_iff in A as [A1 A2]. pose proof (digit_range c A1). pose proof (dec_val_range t A2).
  rewrite dec_val_cons in V. assert (10 ^ 19 <= 10 ^ Z.of_nat (List.length t)) by (apply Z.pow_le_mono_r; lia).
  assert (ord c - ord "0" <> 0); [| nia].
  intros E. assert (c = "0"%char) as -> by (apply ord_inj; lia). rewrite (H eq_refl) in L. cbn in L. lia.
Qed.

Lemma from_string_shape i f n d :
  canonical i -> all_digits f = true -> Z.of_nat (List.length f) = d -> 1 <= d <= 14 ->
  dec_val i * 10 ^ d + 10 ^ d + dec_val f < 2 ^ 63 ->
  (List.length n <= 6)%nat -> n <> [] -> is_space (last n nul) = false ->
  from_string fc_to_int64 fc_trim (i ++ "."%char :: f ++ " "%char :: n)
  = Ok (Asset (dec_val i * 10 ^ d + dec_val f) (make_symbol d n)).
Proof using fc_to_int64_spec fc_trim_spec.
  intros Ci Df Lf Hd Hv Hn Hn0 Hl.
  assert (P : 1 <= 10 ^ d <= 10 ^ 14) by (split; [apply (Z.pow_le_mono_r 10 0) | apply Z.pow_le_mono_r]; lia).
  pose proof Ci as [Di Hi]. pose proof (dec_val_range i Di) as Ri. pose proof (dec_val_range f Df) as Rf.
  pose proof (canonical_short i Ci ltac:(nia)) as Li.
  destruct i as [| i0 i']; [contradiction |]. set (i := i0 :: i') in *.
  assert (T : fc_trim (i ++ "."%char :: f ++ " "%char :: n) = i ++ "."%char :: f ++ " "%char :: n).
  { destruct (exists_last Hn0) as (n' & y & ->). rewrite last_last in Hl.
    pose proof (fc_trim_spec i0 (i' ++ "."%char :: f ++ " "%char :: n') y) as S.
    repeat (rewrite <- app_assoc in S || rewrite <- app_comm_cons in S). apply S; [| exact Hl].
    apply digit_not_space. apply andb_true_iff in Di. apply Di. }
  unfold from_string. cbv zeta. rewrite T.
  assert (FD : find "." (i ++ "."%char :: f ++ " "%char :: n) = Z.of_nat (List.length i)).
  { unfold find. rewrite find_from_at by (apply digits_free; [assumption | reflexivity]). lia. }
  assert (FS : find " " (i ++ "."%char :: f ++ " "%char :: n) = Z.of_nat (List.length i) + 1 + d).
  { unfold find. replace (i ++ "."%char :: f ++ " "%char :: n) with ((i ++ "."%char :: f) ++ " "%char :: n)
      by (rewrite <- app_assoc; reflexivity).
    rewrite find_from_at, length_app; [cbn [List.length]; lia |].
    intros X%in_app_or. destruct X as [X | [X | X]]; [| discriminate X |].
    - revert X. apply digits_free; [assumption | reflexivity].
    - revert X. apply digits_free; [assumption | reflexivity]. }
  rewrite FD, FS.
  rewrite (substr_mid [] i ("."%char :: f ++ " "%char :: n)) by (right; reflexivity). cbn [bind].
  rewrite fc_to_int64_spec by (try discriminate; try assumption; nia). cbn [bind].
  destruct (Z.eqb_spec (Z.of_nat (List.length i)) npos) as [E | _]; [unfold npos in E; lia |]. cbn [negb].
  replace (u64 (Z.of_nat (List.length i) + 1)) with (Z.of_nat (List.length (i ++ ["."%char])))
    by (unfold u64; rewrite Z.mod_small, length_app by lia; cbn [List.length]; lia).
  replace (u64 (Z.of_nat (List.length i) + 1 + d - Z.of_nat (List.length i) - 1)) with (Z.of_nat (List.length f))
    by (unfold u64; rewrite Z.mod_small by lia; lia).
  replace (u64 (Z.of_nat (List.length i) + 1 + d + 1)) with (Z.of_nat (List.length (i ++ "."%char :: f ++ [" "%char])))
    by (unfold u64; rewrite Z.mod_small by lia; rewrite !length_app; cbn [List.length]; rewrite length_app; cbn [List.length]; lia).
  pose proof (substr_mid (i ++ ["."%char]) f (" "%char :: n) (Z.of_nat (List.length f)) (or_intror eq_refl)) as S1.
  pose proof (substr_mid (i ++ "."%char :: f ++ [" "%char]) n [] npos) as S2.
  rewrite app_nil_r in S2.
  repeat (rewrite <- app_assoc in S1 || rewrite <- app_comm_cons in S1). cbn [app] in S1.
  repeat (rewrite <- app_assoc in S2 || rewrite <- app_comm_cons in S2). cbn [app] in S2.
  change ((i0 :: i') ++ ?x) with (i ++ x) in *.
  rewrite S1. cbn [bind].
  replace (Z.of_nat (List.length ("1"%char :: f)) - 1) with d by (cbn [List.length]; lia).
  unfold precision, decimals, set_decimals. cbn [symbol amount].
  rewrite bare_symbol_bytes. cbn [tl]. rewrite bare_symbol_bytes. cbn [nth].
  assert (E8 : u8 d = d) by (apply Z.mod_small; lia). rewrite E8, nth_error_precision by lia. cbn [bind].
  rewrite int64_ok by nia. cbn [bind].
  rewrite fc_to_int64_spec; [| discriminate | exact Df | rewrite dec_val_cons, Lf; change (ord "1" - ord "0") with 1; lia].
  cbn [bind]. rewrite dec_val_cons, Lf. change (ord "1" - ord "0") with 1.
  rewrite (int64_ok (dec_val i * 10 ^ d + _)) by nia. cbn [bind]. rewrite int64_ok by nia. cbn [bind symbol amount].
  rewrite S2 by (left; split; [reflexivity | unfold npos; lia]). cbn [bind].
  pose proof (bare_symbol_bytes d) as BB. pose proof (copy_name d n Hn) as CN. rewrite E8 in BB, CN.
  rewrite BB, CN. do 2 f_equal. lia.
Qed.

(** An asset with one to fourteen decimals, a non-negative amount whose
    printing does not overflow and a name of one to six characters without a
    null or a trailing blank prints to a text that reads back to the asset. *)
Theorem asset_text_roundtrip amt d n :
  0 <= amt -> amt + 2 * 10 ^ d < 2 ^ 63 -> 1 <= d <= 14 ->
  (List.length n <= 6)%nat -> n <> [] -> ~ In nul n -> is_space (last n nul) = false ->
  (let* s := to_string fc_to_string (Asset amt (make_symbol d n)) in from_string fc_to_int64 fc_trim s)
  = Ok (Asset amt (make_symbol d n)).
Proof using fc_to_string_spec fc_to_int64_spec fc_trim_spec.
  intros Ha Hm Hd Hn Hn0 H0 Hl.
  assert (P : 0 < 10 ^ d) by (apply Z.pow_pos_nonneg; lia).
  destruct (to_string_shape amt d n ltac:(lia) Hd Hn H0) as (f & -> & Lf & Df & Vf). cbn [bind].
  pose proof (Z.div_mod amt (10 ^ d) ltac:(lia)) as DM. pose proof (Z.mod_pos_bound amt (10 ^ d) P).
  assert (0 <= amt / 10 ^ d) by (apply Z.div_pos; lia). assert (amt / 10 ^ d <= amt) by nia.
  destruct (fc_to_string_spec (amt / 10 ^ d) ltac:(lia)) as [C V].
  rewrite (from_string_shape _ f n d C Df Lf Hd) by (try assumption; rewrite V, Vf; lia).
  rewrite V, Vf. do 2 f_equal. lia.
Qed.
End RoundTrip.

(** The example conversions satisfy the hypotheses. *)
Lemma dec_val_snoc s c : dec_val (s ++ [c]) = 10 * dec_val s + (ord c - ord "0").
Proof. unfold dec_val. rewrite fold_left_app. reflexivity. Qed.

Lemma digit_chr z : is_digit (chr (ord "0" + z mod 10)) = true /\ ord (chr (ord "0" + z mod 10)) - ord "0" = z mod 10.
Proof.
  pose proof (Z.mod_pos_bound z 10 ltac:(lia)). change (ord "0") with 48.
  assert (E : ord (chr (48 + z mod 10)) = 48 + z mod 10).
  { unfold ord, chr. rewrite N_ascii_embedding by lia. lia. }
  unfold is_digit. rewrite E. split; [| lia]. apply andb_true_iff. rewrite !Z.leb_le.
  change (ord "0") with 48. change (ord "9") with 57. lia.
Qed.

Lemma print_nat_spec fuel : forall z acc,
  0 <= z < 10 ^ Z.of_nat fuel -> (0 < fuel)%nat ->
  exists ds, print_nat fuel z acc = ds ++ acc /\ canonical ds /\ dec_val ds = z /\ (1 <= z -> hd nul ds <> "0"%char).
Proof.
  induction fuel as [| fuel IH]; intros z acc Hz Hf; [lia |]. cbn [print_nat]. cbv zeta.
  destruct (digit_chr z) as [D V]. set (c := chr (ord "0" + z mod 10)) in *. clearbody c.
  rewrite Nat2Z.inj_succ, Z.pow_succ_r in Hz by lia.
  pose proof (Z.div_mod z 10 ltac:(lia)) as E. pose proof (Z.mod_pos_bound z 10 ltac:(lia)) as M.
  destruct (Z.ltb_spec z 10) as [L | L].
  - exists [c]. rewrite Z.mod_small in V by lia. split; [reflexivity |].
    split; [split; [cbn [all_digits forallb]; rewrite D |]; reflexivity |].
    split; [change (dec_val [c]) with (10 * 0 + (ord c - ord "0")); lia |].
    cbn [hd]. intros H1 ->. lia.
  - destruct fuel as [| fuel]; [cbn in Hz; lia |].
    destruct (IH (z / 10) (c :: acc) ltac:(lia) ltac:(lia)) as (ds & -> & [A C] & Vd & Hh).
    specialize (Hh ltac:(lia)). exists (ds ++ [c]). rewrite <- app_assoc, dec_val_snoc, V, Vd.
    split; [reflexivity |]. destruct ds as [| x t]; [contradiction |].
    split; [split |]; [| intros X; exfalso; apply Hh; exact X | split; [lia |]].
    + unfold all_digits in *. rewrite forallb_app, A. cbn. rewrite D. reflexivity.
    + intros _. exact Hh.
Qed.

Lemma print_dec_spec z : 0 <= z < 2 ^ 63 -> canonical (print_dec z) /\ dec_val (print_dec z) = z.
Proof.
  intros Hz. unfold print_dec. destruct (Z.ltb_spec z 0); [lia |].
  destruct (print_nat_spec 20 z [] ltac:(lia) ltac:(lia)) as (ds & -> & C & V & _).
  rewrite app_nil_r. auto.
Qed.

Lemma read_dec_spec s : s <> [] -> all_digits s = true -> dec_val s < 2 ^ 63 -> read_dec s = Ok (dec_val s).
Proof.
  intros H0 Hd Hv. pose proof (dec_val_range s Hd). unfold read_dec. destruct s as [| c t]; [congruence |].
  destruct (Ascii.eqb_spec c "-"%char) as [-> | _]; [discriminate Hd |].
  unfold all_digits in Hd. rewrite Hd. cbn [List.length Nat.eqb negb andb bind].
  destruct (Z.leb_spec (- 2 ^ 63) (dec_val (c :: t))), (Z.ltb_spec (dec_val (c :: t)) (2 ^ 63)); try lia. reflexivity.
Qed.

Lemma trim_spaces_spec x m y :
  is_space x = false -> is_space y = false -> trim_spaces (x :: m ++ [y]) = x :: m ++ [y].
Proof.
  assert (N : forall c, is_space c = false -> Ascii.eqb c " " = false).
  { intros c H. destruct (Ascii.eqb_spec c " "%char) as [-> | _]; [discriminate | reflexivity]. }
  intros Hx Hy. unfold trim_spaces. cbn [drop_spaces]. rewrite (N x Hx).
  rewrite app_comm_cons, rev_app_distr. cbn [rev app drop_spaces]. rewrite (N y Hy).
  cbn [rev]. rewrite rev_app_distr, rev_involutive. reflexivity.
Qed.

Lemma asset_text_roundtrip_witness :
  (let* s := to_string print_dec (Asset 123456789012345678 MAIN_SYMBOL) in from_string read_dec trim_spaces s)
  = Ok (Asset 123456789012345678 MAIN_SYMBOL).
Proof.
  change MAIN_SYMBOL with (make_symbol 8 (chars "SUP")).
  apply (asset_text_roundtrip print_dec read_dec trim_spaces print_dec_spec read_dec_spec trim_spaces_spec);
    try reflexivity; try discriminate; try (cbn; lia).
  intros [H | [H | [H | []]]]; discriminate H.
Defined.

(** The checked operations on an unsigned type of [w] bits return the
    exact integer result when it is in range and throw otherwise, and never
    return a wrapped value. *)
Theorem safe_math_exact w a b :
  0 < w -> 0 <= a < 2 ^ w -> 0 <= b < 2 ^ w ->
  SafeMath.add w a b = (if a + b <? 2 ^ w then Ok (a + b) else Throw SafeMath.overflow) /\
  SafeMath.sub w a b = (if b <=? a then Ok (a - b) else Throw SafeMath.overflow) /\
  SafeMath.mul w a b = (if a * b <? 2 ^ w then Ok (a * b) else Throw SafeMath.overflow).
Proof. intros. auto using SafeMath.add_cases, SafeMath.sub_cases, SafeMath.mul_cases. Qed.

Lemma safe_math_exact_witness :
  SafeMath.mul 64 (2 ^ 33) (2 ^ 31) = Throw SafeMath.overflow /\ SafeMath.sub 64 3 5 = Throw SafeMath.overflow.
Proof.
  destruct (safe_math_exact 64 (2 ^ 33) (2 ^ 31)) as (_ & _ & ->); [lia.. |].
  destruct (safe_math_exact 64 3 5) as (_ & -> & _); [lia.. |]. split; reflexivity.
Defined.
