(* ===== verification/ChainUtils.v ===== *)
(** Times, block numbers, builder lists and the merkle root
    (blockchain/chain/include/chain_time.hpp, chain_time.cpp,
    include/builder_rule.hpp, include/chain_utils.hpp, chain_utils.cpp, and
    the byte swap of libraries/fc/include/fc/bitutil.hpp).

    The hash function and the recovery of a public key from a signature are
    parameters. *)

From Stdlib Require Import ZArith Lia Bool String List.
From stdpp Require Import base decidable countable list.
From S2P Require Import Prelude.
Import ListNotations.
Local Open Scope Z_scope.
Local Open Scope result_scope.

(** ** Configuration (include/blockchain_config.hpp) *)

Definition blocks_per_builder : Z := 1.
Definition builders_per_round : Z := 21.
Definition dpos_irreversible_need : Z := builders_per_round * 2 / 3.
Definition blocks_per_round : Z := blocks_per_builder * builders_per_round.
Definition chain_timestamp_unit_ms : Z := 1000.
Definition chain_timestamp_unit_us : Z := u32 (chain_timestamp_unit_ms * 1000).
Definition chain_timestamp_epoch_s : Z := 946684800.
Definition chain_timestamp_epoch_us : Z := u64 (chain_timestamp_epoch_s * 1000 * 1000).
Definition skip_confirmation : Z := Z.shiftl 1 18.

(** ** class chain_timestamp *)

Record chain_timestamp := Stamp { _stamp : Z }.
#[export] Instance chain_timestamp_eq_dec : EqDecision chain_timestamp.
Proof. solve_decision. Defined.

Definition zero_timestamp : chain_timestamp := Stamp 0.
Definition create (stamp_val : Z) : chain_timestamp := Stamp stamp_val.

(** [us] is the count of microseconds since 1970, a signed 64-bit number. *)
Definition from (us : Z) : chain_timestamp :=
  let us := u64 us in
  let stamp_us := u64 (us - chain_timestamp_epoch_us) in
  let stamp := stamp_us / chain_timestamp_unit_us in
  Stamp (u32 stamp).

Definition to_time_point (t : chain_timestamp) : Z :=
  let us := _stamp t * chain_timestamp_unit_us in
  s64 (us + chain_timestamp_epoch_us).

Definition stamp_add (a b : chain_timestamp) : chain_timestamp := Stamp (u32 (_stamp a + _stamp b)).
Definition stamp_sub (a b : chain_timestamp) : chain_timestamp := Stamp (u32 (_stamp a - _stamp b)).
Definition stamp_lt (a b : chain_timestamp) : bool := _stamp a <? _stamp b.
Definition stamp_le (a b : chain_timestamp) : bool := _stamp a <=? _stamp b.

(** ** fc::sha256 as four 64-bit words *)

Record sha256 := Sha { hash0 : Z; hash1 : Z; hash2 : Z; hash3 : Z }.
#[export] Instance sha256_eq_dec : EqDecision sha256.
Proof. solve_decision. Defined.
#[export] Instance sha256_countable : Countable sha256.
Proof.
  refine (inj_countable' (fun h => (hash0 h, hash1 h, hash2 h, hash3 h))
            (fun '(a, b, c, d) => Sha a b c d) _).
  intros []; reflexivity.
Defined.

Definition empty_chain_id : sha256 := Sha 0 0 0 0.

Definition endian_reverse_u32 (x : Z) : Z :=
  Z.lor (Z.lor (Z.lor (Z.land (Z.shiftr x 0x18) 0xFF)
                      (u32 (Z.shiftl (Z.land (Z.shiftr x 0x10) 0xFF) 0x08)))
               (u32 (Z.shiftl (Z.land (Z.shiftr x 0x08) 0xFF) 0x10)))
        (u32 (Z.shiftl (Z.land x 0xFF) 0x18)).

(** ** utils *)

(** The argument is converted to uint32_t. *)
Definition num_from_id (id : sha256) : Z := endian_reverse_u32 (u32 (hash0 id)).

Definition block_id (summary : sha256) (num : Z) : sha256 :=
  let h := Z.land (hash0 summary) 0xffffffff00000000 in
  Sha (u64 (h + endian_reverse_u32 num)) (hash1 summary) (hash2 summary) (hash3 summary).

Definition get_delta_slot_time (begin_time : chain_timestamp) (delta_slot : Z) : chain_timestamp :=
  stamp_add begin_time (create delta_slot).

Definition get_delta_slot_at_time (begin_time when : chain_timestamp) : Z :=
  let first_slot_time := get_delta_slot_time begin_time 1 in
  if stamp_lt when first_slot_time then 0
  else
    let sub := stamp_sub when first_slot_time in
    u32 (_stamp sub + 1).

(** ** Builders

    An account name is its 128-bit code, a public key its 33 bytes. *)

Record builder_info := Builder { builder_name : Z; block_signing_key : list Z }.
#[export] Instance builder_info_eq_dec : EqDecision builder_info.
Proof. solve_decision. Defined.

Definition empty_public_key : list Z := repeat 0 33.

Record builder_rule := Rule { version : Z; builders : list builder_info }.
#[export] Instance builder_rule_eq_dec : EqDecision builder_rule.
Proof. solve_decision. Defined.

Definition empty_rule : builder_rule := Rule 0 [].
Definition set_builders (l : list builder_info) (vers : Z) : builder_rule := Rule vers l.
Definition reset (r : builder_rule) : builder_rule := Rule 0 [].
Definition number (r : builder_rule) : Z := s32 (Z.of_nat (length (builders r))).
Definition is_empty (r : builder_rule) : bool := Z.of_nat (length (builders r)) <=? 0.

Fixpoint sign_key_loop (l : list builder_info) (name : Z) : list Z :=
  match l with
  | [] => empty_public_key
  | it :: l => if builder_name it =? name then block_signing_key it else sign_key_loop l name
  end.
Definition get_sign_key (r : builder_rule) (name : Z) : list Z := sign_key_loop (builders r) name.

Definition builder_eq (a b : builder_info) : bool :=
  (builder_name a =? builder_name b) && bool_decide (block_signing_key a = block_signing_key b).
Definition rule_eq (a b : builder_rule) : bool :=
  if negb (version a =? version b) then false
  else if negb (length (builders a) =? length (builders b))%nat then false
  else forallb (fun '(x, y) => builder_eq x y) (combine (builders a) (builders b)).

(** mapped_builder_rule holds the same data in shared memory. *)
Definition mapped_of_rule (a : builder_rule) : builder_rule := Rule (version a) (builders a).

Definition select_builder_rule (current_builders next_builders : builder_rule) (order_slot : Z) : builder_rule :=
  if (order_slot <? blocks_per_round) || is_empty next_builders then current_builders else next_builders.

(** Division by zero and an index out of range are undefined behaviour. *)
Definition nth_builder (r : builder_rule) (index : Z) : result builder_info :=
  if number r =? 0 then Throw "undefined"
  else
    let bias := (index / blocks_per_builder) mod u32 (number r) in
    match nth_error (builders r) (Z.to_nat bias) with
    | Some b => Ok b
    | None => Throw "undefined"
    end.

Definition select_builder (current_builders next_builders : builder_rule) (index : Z) : result builder_info :=
  if (index <? blocks_per_round) || is_empty next_builders then nth_builder current_builders index
  else nth_builder next_builders index.

(** ** Merkle root and signatures *)

Section Crypto.
Context (hash_pair : sha256 -> sha256 -> sha256).

(** The inner loop, [n] turns left, updating the array in place. *)
Fixpoint merkle_pass (n i : nat) (digests : list sha256) : list sha256 :=
  match n with
  | O => digests
  | S n =>
      let h := hash_pair (nth i digests empty_chain_id) (nth (i + 1) digests empty_chain_id) in
      merkle_pass n (i + 1) (<[(i / 2)%nat := h]> digests)
  end.

(** The outer loop; the array halves in each turn, so its length is enough fuel. *)
Fixpoint merkle_loop (fuel : nat) (digests : list sha256) : option sha256 :=
  match fuel with
  | O => None
  | S fuel =>
      if (1 <? length digests)%nat then
        let digests := if Nat.odd (length digests) then digests ++ [List.last digests empty_chain_id] else digests in
        let digests := merkle_pass (length digests / 2) 0 digests in
        merkle_loop fuel (firstn (length digests / 2) digests)
      else Some (nth 0 digests empty_chain_id)
  end.

Definition cal_merkle (digests : list sha256) : option sha256 :=
  if (length digests =? 0)%nat then Some empty_chain_id
  else merkle_loop (length digests) digests.

(** [recover] is fc::ecc::public_key(sig, digest, true), [hash_key] the hash of a key. *)
Context (signature : Type) (recover : signature -> sha256 -> result (list Z)) (hash_key : list Z -> sha256).

Definition is_sign_valid (sig : signature) (digest : sha256) (signer_key : list Z) : result bool :=
  let* pk := recover sig digest in Ok (bool_decide (pk = signer_key)).

Definition sha_bytes (h : sha256) : list Z :=
  slices 8 8 (hash0 h) 0 ++ slices 8 8 (hash1 h) 0 ++ slices 8 8 (hash2 h) 0 ++ slices 8 8 (hash3 h) 0.

(** An address is the first twenty bytes of the hash of the key. *)
Definition key_address (pkey : list Z) : list Z := firstn 20 (sha_bytes (hash_key pkey)).

Definition sign_address (sig : signature) (digest : sha256) : result (list Z) :=
  let* pk := recover sig digest in Ok (key_address pk).

Definition is_sign_of_addr (sig : signature) (digest : sha256) (addr : list Z) : result bool :=
  let* addr2 := sign_address sig digest in Ok (bool_decide (addr2 = addr)).
End Crypto.

(** ** Block ids *)

(** The four bytes of a word. *)
Definition bytes4 (x : Z) : list Z := slices 8 4 x 0.

Lemma reverse_bytes x :
  endian_reverse_u32 x = leval 8 [slice x 24 8; slice x 16 8; slice x 8 8; slice x 0 8].
Proof.
  assert (B : forall k, 0 <= k -> Z.land (Z.shiftr x k) 0xFF = slice x k 8).
  { intros k Hk. change 0xFF with (Z.ones 8). rewrite Z.land_ones, Z.shiftr_div_pow2 by lia. reflexivity. }
  unfold endian_reverse_u32. rewrite <- (Z.shiftr_0_r x) at 4. rewrite !B by lia.
  rewrite lor_bytes by (unfold Bnd; match goal with |- _ <= slice x ?k 8 <= _ => pose proof (slice_range x k 8 ltac:(lia)); lia end).
  cbn [leval]. ring.
Qed.

Lemma reverse_range x : 0 <= endian_reverse_u32 x < 2 ^ 32.
Proof.
  rewrite reverse_bytes. cbn [leval].
  pose proof (slice_range x 24 8 ltac:(lia)). pose proof (slice_range x 16 8 ltac:(lia)).
  pose proof (slice_range x 8 8 ltac:(lia)). pose proof (slice_range x 0 8 ltac:(lia)). lia.
Qed.

Lemma reverse_involutive x : 0 <= x < 2 ^ 32 -> endian_reverse_u32 (endian_reverse_u32 x) = x.
Proof.
  intros Hx. rewrite (reverse_bytes x). set (l := [slice x 24 8; slice x 16 8; slice x 8 8; slice x 0 8]).
  assert (F : Forall (fun d => 0 <= d < 2 ^ 8) l) by (repeat constructor; apply slice_range; lia).
  pose proof (slices_leval 8 l 0 0 ltac:(lia) ltac:(lia) F ltac:(lia)) as S.
  rewrite Z.pow_0_r, Z.mul_1_l, Z.add_0_l in S.
  change (slices 8 (length l) (leval 8 l) 0)
    with [slice (leval 8 l) 0 8; slice (leval 8 l) 8 8; slice (leval 8 l) 16 8; slice (leval 8 l) 24 8] in S.
  rewrite reverse_bytes. set (v := leval 8 l) in *. clearbody v. subst l. injection S as S0 S1 S2 S3. rewrite S0, S1, S2, S3.
  change [slice x 0 8; slice x 8 8; slice x 16 8; slice x 24 8] with (slices 8 4 x 0).
  rewrite leval_slices by lia. rewrite Z.pow_0_r, Z.div_1_r. apply Z.mod_small. change (8 * Z.of_nat 4) with 32. lia.
Qed.

Definition word (x : Z) : Prop := 0 <= x < 2 ^ 64.

Lemma high_half x : word x -> Z.land x 0xffffffff00000000 = 2 ^ 32 * (x / 2 ^ 32).
Proof.
  unfold word. intros Hx. change 0xffffffff00000000 with (Z.shiftl (Z.ones 32) 32).
  rewrite land_shifted_mask, Z.land_ones, Z.shiftr_div_pow2, Z.shiftl_mul_pow2 by lia.
  rewrite (Z.mod_small (x / 2 ^ 32)); [lia |]. split; [apply Z.div_pos; lia | apply Z.div_lt_upper_bound; lia].
Qed.

Lemma block_id_word s n :
  word (hash0 s) -> hash0 (block_id s n) = 2 ^ 32 * (hash0 s / 2 ^ 32) + endian_reverse_u32 n.
Proof.
  intros W. unfold block_id. cbn [hash0]. rewrite high_half by assumption. unfold u64, word in *.
  pose proof (reverse_range n). pose proof (Z.div_mod (hash0 s) (2 ^ 32) ltac:(lia)).
  pose proof (Z.mod_pos_bound (hash0 s) (2 ^ 32) ltac:(lia)).
  assert (hash0 s / 2 ^ 32 < 2 ^ 32) by (apply Z.div_lt_upper_bound; lia).
  assert (0 <= hash0 s / 2 ^ 32) by (apply Z.div_pos; lia).
  apply Z.mod_small. lia.
Qed.

Lemma num_block_id s n : word (hash0 s) -> 0 <= n < 2 ^ 32 -> num_from_id (block_id s n) = n.
Proof.
  intros W Hn. unfold num_from_id. rewrite block_id_word by assumption. unfold u32.
  rewrite Z.add_comm, Z.mul_comm, Z.mod_add, Z.mod_small by (try lia; apply reverse_range).
  apply reverse_involutive, Hn.
Qed.

(** ** Times *)

Lemma from_to_time_point t : 0 <= _stamp t < 2 ^ 32 -> from (to_time_point t) = t.
Proof.
  destruct t as [t]. cbn [_stamp]. intros Ht. unfold from, to_time_point. cbn [_stamp].
  change chain_timestamp_unit_us with 1000000. change chain_timestamp_epoch_us with 946684800000000.
  cbv zeta. unfold s64, swrap. change (2 ^ (64 - 1)) with 9223372036854775808.
  rewrite Z.mod_small by lia.
  destruct (Z.ltb_spec (t * 1000000 + 946684800000000) 9223372036854775808); [| lia].
  unfold u64. rewrite (Z.mod_small (_ + _)) by lia.
  replace (t * 1000000 + 946684800000000 - 946684800000000) with (t * 1000000) by lia.
  rewrite Z.mod_small, Z.div_mul by lia. unfold u32. rewrite Z.mod_small by lia. reflexivity.
Qed.

Lemma to_from_time_point us :
  chain_timestamp_epoch_us <= us < chain_timestamp_epoch_us + 2 ^ 32 * chain_timestamp_unit_us ->
  to_time_point (from us) <= us < to_time_point (from us) + chain_timestamp_unit_us.
Proof.
  unfold from, to_time_point. change chain_timestamp_unit_us with 1000000.
  change chain_timestamp_epoch_us with 946684800000000. intros H. cbv zeta. cbn [_stamp].
  unfold u64. rewrite (Z.mod_small us), (Z.mod_small (us - _)) by lia.
  pose proof (Z.div_mod (us - 946684800000000) 1000000 ltac:(lia)) as E.
  pose proof (Z.mod_pos_bound (us - 946684800000000) 1000000 ltac:(lia)).
  set (q := (us - 946684800000000) / 1000000) in *. unfold u32. rewrite (Z.mod_small q) by lia.
  unfold s64, swrap. rewrite Z.mod_small by lia. change (2 ^ (64 - 1)) with 9223372036854775808.
  destruct (Z.ltb_spec (q * 1000000 + 946684800000000) 9223372036854775808); lia.
Qed.

Lemma slot_at_time b w :
  0 <= _stamp b < 2 ^ 32 - 1 -> 0 <= _stamp w < 2 ^ 32 ->
  get_delta_slot_at_time b w = Z.max 0 (_stamp w - _stamp b).
Proof.
  intros Hb Hw. unfold get_delta_slot_at_time, get_delta_slot_time, stamp_lt, stamp_sub, stamp_add, create.
  cbn [_stamp]. cbv zeta. unfold u32. rewrite (Z.mod_small (_stamp b + 1)) by lia.
  destruct (Z.ltb_spec (_stamp w) (_stamp b + 1)); [lia |].
  rewrite (Z.mod_small (_stamp w - _)), Z.mod_small by lia. lia.
Qed.

(** ** Turns *)

Lemma number_small r : (Z.of_nat (length (builders r)) < 2 ^ 31) -> number r = Z.of_nat (length (builders r)).
Proof.
  intros H. unfold number, s32, swrap. rewrite Z.mod_small by lia.
  change (2 ^ (32 - 1)) with (2 ^ 31). destruct (Z.ltb_spec (Z.of_nat (length (builders r))) (2 ^ 31)); lia.
Qed.

(** A rule fit for use: it names someone, and its length is an [int]. *)
Definition usable (r : builder_rule) : Prop := 0 < Z.of_nat (length (builders r)) < 2 ^ 31.

Lemma nth_builder_mod r i d :
  usable r -> 0 <= i -> nth_builder r i = Ok (nth (Z.to_nat i mod length (builders r)) (builders r) d).
Proof.
  unfold usable. intros Hr Hi. unfold nth_builder. rewrite number_small by lia.
  destruct (Z.eqb_spec (Z.of_nat (length (builders r))) 0); [lia |].
  change blocks_per_builder with 1. rewrite Z.div_1_r. unfold u32.
  rewrite (Z.mod_small (Z.of_nat (length (builders r)))) by lia. cbv zeta.
  assert (E : Z.to_nat (i mod Z.of_nat (length (builders r))) = (Z.to_nat i mod length (builders r))%nat).
  { rewrite Z2Nat.inj_mod, Nat2Z.id by lia. reflexivity. }
  rewrite E. rewrite nth_error_nth' with (d := d); [reflexivity |]. apply Nat.mod_upper_bound. lia.
Qed.

(** Reading a list cyclically from any position is a rotation of it. *)
Lemma cyclic_rotation {A} (l : list A) k d :
  map (fun i => nth ((k + i) mod length l) l d) (seq 0 (length l))
  = skipn (k mod length l) l ++ firstn (k mod length l) l.
Proof.
  destruct l as [| x l']; [destruct k; reflexivity |]. set (l := x :: l') in *.
  assert (Hn : (0 < length l)%nat) by (cbn; lia). pose proof (Nat.mod_upper_bound k (length l) ltac:(lia)) as Hk.
  apply nth_ext with d d.
  - rewrite length_map, length_seq, length_app, length_skipn, length_firstn. lia.
  - rewrite length_map, length_seq. intros i Hi.
    rewrite nth_indep with (d' := (fun i => nth ((k + i) mod length l) l d) 0%nat) by (rewrite length_map, length_seq; assumption).
    rewrite (map_nth (fun i => nth ((k + i) mod length l) l d)), seq_nth by assumption. cbn [Nat.add].
    rewrite <- (Nat.Div0.add_mod_idemp_l k i). set (a := (k mod length l)%nat) in *.
    destruct (Nat.lt_ge_cases i (length l - a)) as [L | L].
    + rewrite Nat.mod_small, app_nth1, nth_skipn by (rewrite ?length_skipn; lia). reflexivity.
    + assert (E : ((a + i) mod length l = a + i - length l)%nat).
      { symmetry. apply Nat.mod_unique with 1%nat; lia. }
      rewrite E, app_nth2, length_skipn by (rewrite length_skipn; lia).
      rewrite nth_firstn. destruct (Nat.ltb_spec (i - (length l - a)) a); [| lia]. f_equal. lia.
Qed.

Lemma turns_permutation r k (d : builder_info) :
  usable r -> 0 <= k ->
  Permutation (map (fun i => nth_builder r (k + Z.of_nat i)) (seq 0 (length (builders r)))) (map Ok (builders r)).
Proof.
  intros Hr Hk.
  assert (E : map (fun i => nth_builder r (k + Z.of_nat i)) (seq 0 (length (builders r)))
              = map Ok (map (fun i => nth ((Z.to_nat k + i) mod length (builders r)) (builders r) d) (seq 0 (length (builders r))))).
  { rewrite map_map. apply map_ext. intros i. rewrite nth_builder_mod with (d := d) by (assumption || lia).
    do 3 f_equal. lia. }
  rewrite E, cyclic_rotation. apply Permutation_map. rewrite Permutation_app_comm, firstn_skipn. reflexivity.
Qed.

(** ** The merkle root *)

Section Merkle.
Context (hash_pair : sha256 -> sha256 -> sha256).

Lemma merkle_pass_length n : forall i l, length (merkle_pass hash_pair n i l) = length l.
Proof using. induction n as [| n IH]; intros i l; cbn [merkle_pass]; [reflexivity |]. rewrite IH. apply length_insert. Qed.

Lemma merkle_loop_total fuel : forall l, (0 < length l <= fuel)%nat -> exists h, merkle_loop hash_pair fuel l = Some h.
Proof using.
  induction fuel as [| fuel IH]; intros l Hl; [lia |]. cbn [merkle_loop].
  destruct (Nat.ltb_spec 1 (length l)) as [L | L]; [| eauto]. cbv zeta.
  set (m := if Nat.odd (length l) then _ else l).
  assert (Hm : (2 <= length m <= length l + 1)%nat /\ (length l = 2 -> length m = 2)%nat).
  { unfold m. destruct (Nat.odd (length l)) eqn:O; [rewrite length_app; cbn [length] |];
      (split; [lia | intros E; rewrite E in O; discriminate || exact E]). }
  apply IH. rewrite merkle_pass_length, length_firstn, merkle_pass_length.
  pose proof (Nat.Div0.div_mod (length m) 2). pose proof (Nat.mod_upper_bound (length m) 2 ltac:(lia)). lia.
Qed.

Lemma last_skip (a b : sha256) l d : List.last (a :: b :: l) d = List.last (b :: l) d.
Proof using. reflexivity. Qed.

(** The first pair of a pass over two pairs or more is overwritten by the second. *)
Lemma merkle_pass_first n a b c l :
  merkle_pass hash_pair (S (S n)) 0 (a :: b :: c :: l) = merkle_pass hash_pair n 2 (hash_pair b c :: b :: c :: l).
Proof using. reflexivity. Qed.

(** The padding of a longer array keeps its first three elements and makes
    two pairs or more. *)
Lemma padded_shape b c l :
  exists l' n, forall a, (if Nat.odd (length (a :: b :: c :: l))
                   then (a :: b :: c :: l) ++ [List.last (a :: b :: c :: l) empty_chain_id] else a :: b :: c :: l)
                  = a :: b :: c :: l' /\ (length (a :: b :: c :: l') / 2 = S (S n))%nat.
Proof using.
  assert (H : forall k, (4 <= k)%nat -> exists n, (k / 2 = S (S n))%nat).
  { intros k Hk. exists (k / 2 - 2)%nat. pose proof (Nat.Div0.div_mod k 2). pose proof (Nat.mod_upper_bound k 2 ltac:(lia)). lia. }
  destruct (Nat.odd (S (S (S (length l))))) eqn:O.
  - set (l' := l ++ [List.last (b :: c :: l) empty_chain_id]).
    destruct (H (S (S (S (length l'))))) as [n Hn]; [unfold l'; rewrite length_app; cbn [length]; lia |].
    exists l', n. intros a. cbn [length]. rewrite O. split; [reflexivity | exact Hn].
  - destruct (H (S (S (S (length l))))) as [n Hn]; [destruct l; [discriminate O | cbn [length]; lia] |].
    exists l, n. intros a. cbn [length]. rewrite O. split; [reflexivity | exact Hn].
Qed.

Lemma merkle_loop_ignores_first fuel a a' b c l :
  merkle_loop hash_pair fuel (a :: b :: c :: l) = merkle_loop hash_pair fuel (a' :: b :: c :: l).
Proof using.
  destruct fuel as [| fuel]; [reflexivity |]. cbn [merkle_loop].
  change (1 <? length (?x :: b :: c :: l))%nat with true. cbv iota zeta.
  destruct (padded_shape b c l) as (l' & n & H).
  destruct (H a) as [-> E]. destruct (H a') as [-> E'].
  rewrite E, E', !merkle_pass_first. reflexivity.
Qed.
End Merkle.

(** ** Correctness *)

(** The id of a block holds its number: [num_from_id] reads back the
    number [block_id] stored, and the rest of the hash is untouched. *)
Theorem block_id_holds_number s n :
  word (hash0 s) -> 0 <= n < 2 ^ 32 ->
  let id := block_id s n in
  num_from_id id = n /\ hash0 id / 2 ^ 32 = hash0 s / 2 ^ 32 /\
  hash1 id = hash1 s /\ hash2 id = hash2 s /\ hash3 id = hash3 s.
Proof.
  intros W Hn. cbv zeta. split; [apply num_block_id; assumption |].
  split; [| repeat split]. rewrite block_id_word by assumption. pose proof (reverse_range n).
  rewrite Z.add_comm, Z.mul_comm, Z.div_add, Z.div_small by lia. lia.
Qed.

Lemma block_id_holds_number_witness :
  num_from_id (block_id (Sha (2 ^ 64 - 1) 5 6 7) 0x01020304) = 0x01020304.
Proof. apply (block_id_holds_number (Sha (2 ^ 64 - 1) 5 6 7) 0x01020304); unfold word; cbn; lia. Defined.

(** A stamp converted to a time and back is the same stamp; a time from
    2000 on is at or after the time of its stamp and less than one slot later;
    and the number of slots between two stamps is their distance, zero when
    the second is not later. *)
Theorem slots_and_times b w us :
  0 <= _stamp b < 2 ^ 32 - 1 -> 0 <= _stamp w < 2 ^ 32 ->
  chain_timestamp_epoch_us <= us < chain_timestamp_epoch_us + 2 ^ 32 * chain_timestamp_unit_us ->
  from (to_time_point w) = w /\
  to_time_point (from us) <= us < to_time_point (from us) + chain_timestamp_unit_us /\
  get_delta_slot_at_time b w = Z.max 0 (_stamp w - _stamp b) /\
  (_stamp b < _stamp w -> get_delta_slot_time b (get_delta_slot_at_time b w) = w).
Proof.
  intros Hb Hw Hu. repeat split; try (apply to_from_time_point; assumption).
  - apply from_to_time_point, Hw.
  - apply slot_at_time; assumption.
  - intros L. rewrite slot_at_time by assumption. unfold get_delta_slot_time, stamp_add, create. cbn [_stamp].
    destruct w as [w]. cbn [_stamp] in *. f_equal. unfold u32. rewrite Z.max_r, Z.mod_small by lia. lia.
Qed.

Lemma slots_and_times_witness :
  get_delta_slot_time (Stamp 10) (get_delta_slot_at_time (Stamp 10) (Stamp 31)) = Stamp 31.
Proof.
  apply (slots_and_times (Stamp 10) (Stamp 31) 1500000000000000); try split; vm_compute; congruence.
Defined.

(** In any run of as many consecutive slots as there are builders, each
    builder of the list gets exactly one slot, and slots past the round are
    given to the next list when there is one. *)
Theorem builders_take_turns cur next k i (d : builder_info) :
  usable cur -> 0 <= k -> 0 <= i ->
  Permutation (map (fun j => nth_builder cur (k + Z.of_nat j)) (seq 0 (length (builders cur)))) (map Ok (builders cur)) /\
  select_builder cur next i =
    (if (i <? 21) || is_empty next then nth_builder cur i else nth_builder next i) /\
  (exists b, nth_builder cur i = Ok b /\ In b (builders cur)).
Proof.
  intros Hc Hk Hi. split; [apply turns_permutation; assumption |]. split; [reflexivity |].
  rewrite nth_builder_mod with (d := d) by assumption. eexists. split; [reflexivity |].
  apply nth_In, Nat.mod_upper_bound. unfold usable in Hc. lia.
Qed.

Lemma builders_take_turns_witness :
  let r := Rule 1 [Builder 7 []; Builder 8 []; Builder 9 []] in
  Permutation (map (fun j => nth_builder r (20 + Z.of_nat j)) (seq 0 3)) (map Ok (builders r)).
Proof.
  cbv zeta. apply (builders_take_turns (Rule 1 [Builder 7 []; Builder 8 []; Builder 9 []]) empty_rule 20 0 (Builder 0 []));
    unfold usable; cbn; lia.
Defined.

(** The merkle root always exists; it is the digest itself for one
    digest and the hash of the pair for two; but from three digests on it does
    not depend on the first one. *)
Theorem merkle_root_ignores_first hash_pair a a' b c l ds :
  (exists root, cal_merkle hash_pair ds = Some root) /\
  cal_merkle hash_pair [a] = Some a /\
  cal_merkle hash_pair [a; b] = Some (hash_pair a b) /\
  cal_merkle hash_pair (a :: b :: c :: l) = cal_merkle hash_pair (a' :: b :: c :: l).
Proof.
  repeat split.
  - destruct ds as [| d ds]; [exists empty_chain_id; reflexivity |]. apply merkle_loop_total. cbn [length]. lia.
  - apply merkle_loop_ignores_first.
Qed.
