(* ===== verification/Block.v ===== *)
(** Transactions, block headers, confirmations and signatures
    (blockchain/chain/include/transaction.hpp, transaction.cpp,
    include/block.hpp, block.cpp; the records of
    foundation/basetypes/include/gentypes.hpp).

    Serialisation followed by SHA-256 and the elliptic-curve operations come
    from fc; class [Crypto] names what the code uses of them. *)

From Stdlib Require Import ZArith Lia Bool String List.
From stdpp Require Import base decidable list.
From S2P Require Import Prelude ChainUtils.
Import ListNotations.
Local Open Scope Z_scope.
Local Open Scope result_scope.

(** ** gentypes.hpp *)

Record account_auth := AccountAuth { account : Z; authority : Z }.
#[export] Instance account_auth_eq_dec : EqDecision account_auth.
Proof. solve_decision. Defined.

Record message := Message {
  msg_code : Z; msg_type : Z; authorization : list account_auth; msg_data : list Z }.

Record transaction := Transaction {
  ref_block_num : Z;       (* uint16 *)
  ref_block_prefix : Z;    (* uint32 *)
  expiration : Z;
  scope : list Z;
  read_scope : list Z;
  messages : list message;
  gas_payer : Z;
  gas : Z;
  gaslimit : Z }.

Record signed_transaction := SignedTransaction { trx : transaction; signatures : list (list Z) }.

(** ** transaction.hpp *)

Definition transaction_clear (t : transaction) : transaction :=
  Transaction (ref_block_num t) (ref_block_prefix t) (expiration t) (scope t) (read_scope t) []
    (gas_payer t) (gas t) (gaslimit t).
Definition clear (t : signed_transaction) : signed_transaction := SignedTransaction (transaction_clear (trx t)) [].

(** ref_block_num and ref_block_prefix are multiprecision integers of 16 and
    32 bits, unchecked: an assignment keeps the low bits. *)
Definition transaction_set_reference_block (t : transaction) (reference_block : sha256) : transaction :=
  Transaction (u16 (endian_reverse_u32 (u32 (hash0 reference_block)))) (u32 (hash1 reference_block))
    (expiration t) (scope t) (read_scope t) (messages t) (gas_payer t) (gas t) (gaslimit t).

Definition transaction_verify_reference_block (t : transaction) (reference_block : sha256) : bool :=
  (ref_block_num t =? u16 (endian_reverse_u32 (u32 (hash0 reference_block))))
  && (ref_block_prefix t =? u32 (hash1 reference_block)).

Inductive package_code := empty | original | zlib.
Record transaction_package := Package { code : package_code; body : option signed_transaction }.
Definition set_trx (t : signed_transaction) : transaction_package := Package original (Some t).
Definition unpack_trx (p : transaction_package) : option signed_transaction := body p.

Record transaction_request := Request { signed_trx : signed_transaction; package : transaction_package }.
Definition request_of_trx (t : signed_transaction) : transaction_request := Request t (set_trx t).
Definition sort_by_gas (l r : transaction_request) : bool := gas (trx (signed_trx l)) <? gas (trx (signed_trx r)).

(** ** block.hpp *)

Record block_header := Header {
  previous : sha256;
  timestamp : chain_timestamp;
  trxs_mroot : sha256;
  builder : Z;
  next_builders : option builder_rule }.

Record signed_block_header := SignedHeader { header :> block_header; builder_signature : list Z }.

Inductive result_code := applied | failure.
Inductive receipt_trx := by_id (id : sha256) | by_package (p : transaction_package).
Record transaction_receipt := Receipt { receipt_idx : Z; rec_result : result_code; rec_trx : receipt_trx }.

Record signed_block := SignedBlock { block_head :> signed_block_header; receipts : list transaction_receipt }.

Record block_confirmation := Confirmation { conf_block_id : sha256; verifier : Z; conf_signature : list Z }.

Definition default_header : block_header := Header empty_chain_id zero_timestamp empty_chain_id 0 None.
Definition empty_signature : list Z := repeat 0 65.
Definition default_signed_header : signed_block_header := SignedHeader default_header empty_signature.

(** The number of a block is one more than the number in the id of its parent. *)
Definition block_num (h : block_header) : Z := u32 (num_from_id (previous h) + 1).

(** ** What fc provides *)

Class Crypto := {
  private_key : Type;
  hash_transaction : transaction -> sha256;
  hash_package : package_code -> sha256 -> sha256;
  hash_receipt : Z -> result_code -> sha256 -> sha256;
  hash_sig : sha256 -> transaction -> sha256;
  hash_header : block_header -> sha256;
  hash_confirmation : sha256 -> Z -> sha256;
  sign_compact : private_key -> sha256 -> list Z;
  recover : list Z -> sha256 -> result (list Z) }.

Section Block.
Context `{Crypto}.

Definition transaction_digest (t : transaction) : sha256 := hash_transaction t.
Definition trx_id (t : signed_transaction) : sha256 := transaction_digest (trx t).
Definition merkle_digest (t : signed_transaction) : sha256 := hash_transaction (trx t).
Definition sig_digest (t : signed_transaction) (chain_id : sha256) : sha256 := hash_sig chain_id (trx t).

Definition sign_transaction (t : signed_transaction) (key : private_key) (chain_id : sha256) : signed_transaction :=
  SignedTransaction (trx t) (signatures t ++ [sign_compact key (sig_digest t chain_id)]).

(** The set of keys, as the list of them in the order of the signatures. *)
Fixpoint keys_of (sigs : list (list Z)) (digest : sha256) : result (list (list Z)) :=
  match sigs with
  | [] => Ok []
  | s :: sigs =>
      let* k := recover s digest in
      let* ks := keys_of sigs digest in
      Ok (if bool_decide (k ∈ ks) then ks else k :: ks)
  end.
Definition get_signature_keys (t : signed_transaction) (chain_id : sha256) : result (list (list Z)) :=
  keys_of (signatures t) (sig_digest t chain_id).

(** An empty package has a default transaction as its body. *)
Definition default_transaction : transaction := Transaction 0 0 0 [] [] [] 0 0 0.
Definition package_digest (p : transaction_package) : sha256 :=
  hash_package (code p) (match body p with Some t => merkle_digest t | None => hash_transaction default_transaction end).

Definition receipt_digest (r : transaction_receipt) : sha256 :=
  hash_receipt (receipt_idx r) (rec_result r)
    (match rec_trx r with by_id id => id | by_package p => package_digest p end).

Definition digest (h : block_header) : sha256 := hash_header h.
Definition id (h : signed_block_header) : sha256 := block_id (digest h) (block_num h).

Definition get_signer_key (h : signed_block_header) : result (list Z) := recover (builder_signature h) (digest h).
Definition sign (h : signed_block_header) (signer : private_key) : signed_block_header :=
  SignedHeader h (sign_compact signer (digest h)).
Definition is_signer_valid (h : signed_block_header) (signer_key : list Z) : result bool :=
  let* k := get_signer_key h in Ok (bool_decide (k = signer_key)).

Definition conf_digest (c : block_confirmation) : sha256 := hash_confirmation (conf_block_id c) (verifier c).
Definition conf_signer_key (c : block_confirmation) : result (list Z) := recover (conf_signature c) (conf_digest c).
Definition conf_sign (c : block_confirmation) (signer : private_key) : block_confirmation :=
  Confirmation (conf_block_id c) (verifier c) (sign_compact signer (conf_digest c)).
Definition conf_is_signer_valid (c : block_confirmation) (signer_key : list Z) : result bool :=
  let* k := conf_signer_key c in Ok (bool_decide (k = signer_key)).
Definition make_conf (id : sha256) (account : Z) (key : private_key) : block_confirmation :=
  conf_sign (Confirmation id account empty_signature) key.

(** The ids fc produces are four 64-bit words. *)
Context (hash_header_word : forall h, word (hash0 (hash_header h))).

(** The id of a block carries its own number. *)
Lemma id_num h : num_from_id (id h) = block_num h.
Proof using hash_header_word.
  apply num_block_id; [apply hash_header_word | apply Z.mod_pos_bound; lia].
Qed.
End Block.
