(* ===== verification/Raw.v ===== *)
(** The binary form of blocks and transactions: the part of fc's raw packing
    (libraries/fc/include/fc/io/raw.hpp, enum_type.hpp, static_variant.hpp)
    that the types of a block use, and the members FC_REFLECT names for them
    (gentypes.hpp, transaction.hpp, block.hpp, builder_rule.hpp).

    A [codec] is the pair of overloads of pack and unpack for a type; class
    [Lawful] states that what is packed is unpacked again, whatever follows it
    in the stream, and its instances derive it for every codec built here. *)

From Stdlib Require Import ZArith Lia Bool String List.
From stdpp Require Import base decidable list.
From S2P Require Import Prelude ChainUtils Effects Block.
Import ListNotations.
Local Open Scope Z_scope.

(** ** Streams

    What is left of a stream to be read. A stream of a file that ends before
    a read is satisfied throws; its exception keeps its text when
    FC_RETHROW_EXCEPTIONS wraps it. *)

Definition stream : Type := list Z.

Definition stream_read (n : nat) : M stream (list Z) := fun s =>
  if (length s <? n)%nat then Exc [] "basic_ios::clear" else Ret (drop n s) (take n s).

Definition stream_get : M stream Z := fun s =>
  match s with
  | [] => Exc [] "basic_ios::clear"
  | b :: s => Ret s b
  end.

Record codec (A : Type) := Codec { pack : A -> list Z; unpack : M stream A; packable : A -> Prop }.
Arguments Codec {A}.
Arguments pack {A}.
Arguments unpack {A}.
Arguments packable {A}.

Class Lawful {A} (c : codec A) := {
  pack_bytes x : packable c x -> bytes (pack c x);
  unpack_pack x rest : packable c x -> unpack c (pack c x ++ rest) = Ret rest x }.

(** The larger containers are refused by the reader. *)
Definition MAX_ARRAY_ALLOC_SIZE : Z := 1024 * 1024 * 10.

(** ** Numbers *)

(** The memory of an unsigned integer of [n] bytes. *)
Definition uint (n : nat) : codec Z :=
  Codec (fun v => slices 8 n v 0) (b ← stream_read n; mret (leval 8 b)) (fun v => 0 <= v < 2 ^ (8 * Z.of_nat n)).

(** Seven bits a byte, the lowest first; a value of 32 bits takes five at most. *)
Fixpoint varint (groups : nat) (val : Z) : list Z :=
  match groups with
  | O => []
  | S groups =>
      let b := Z.land val 0x7f in
      let val := Z.shiftr val 7 in
      if 0 <? val then Z.lor b 0x80 :: varint groups val else [b]
  end.

(** [by] counts up by seven; a shift by 32 bits or more is undefined. *)
Fixpoint unvarint (groups : nat) (by_ v : Z) : M stream Z :=
  b ← stream_get;
  match groups with
  | O => undefined
  | S groups =>
      let v := Z.lor v (u32 (Z.shiftl (Z.land b 0x7f) by_)) in
      if Z.testbit b 7 then unvarint groups (by_ + 7) v else mret (u32 v)
  end.

Definition unsigned_int : codec Z := Codec (varint 5) (unvarint 5 0 0) (fun v => 0 <= v < 2 ^ 32).

Definition raw_bool : codec bool :=
  Codec (fun v => pack (uint 1) (c_bool v))
    (b ← unpack (uint 1); require (Z.land b (Z.lnot 1) =? 0) "(b & ~1) == 0" ;; mret (negb (b =? 0)))
    (fun _ => True).

(** time_point: microseconds in 64 bits. *)
Definition raw_time_point : codec Z :=
  Codec (fun t => pack (uint 8) (u64 t)) (usec ← unpack (uint 8); mret (s64 usec)) (fun t => - 2 ^ 63 <= t < 2 ^ 63).

(** ** Objects and containers *)

(** The members of a class one after another. *)
Definition raw_pair {A B} (c : codec A) (d : codec B) : codec (A * B) :=
  Codec (fun p => pack c p.1 ++ pack d p.2)
    (a ← unpack c; b ← unpack d; mret (a, b))
    (fun p => packable c p.1 /\ packable d p.2).

(** A class by its members; [make] fails where the members stand for no value
    of the model. *)
Definition raw_object {A B} (members : A -> B) (make : B -> option A) (c : codec B) : codec A :=
  Codec (fun x => pack c (members x))
    (m ← unpack c; match make m with Some x => mret x | None => undefined end)
    (fun x => packable c (members x) /\ make (members x) = Some x).

(** fc::array of [n] characters. *)
Definition raw_array (n : nat) : codec (list Z) :=
  Codec (fun v => v) (stream_read n) (fun v => length v = n /\ bytes v).

Definition raw_optional {A} (c : codec A) : codec (option A) :=
  Codec (fun v => match v with Some x => pack raw_bool true ++ pack c x | None => pack raw_bool false end)
    (b ← unpack raw_bool; if b : bool then x ← unpack c; mret (Some x) else mret None)
    (fun v => match v with Some x => packable c x | None => True end).

Definition raw_bytes : codec (list Z) :=
  Codec (fun value => pack unsigned_int (u32 (Z.of_nat (length value))) ++ value)
    (size ← unpack unsigned_int;
     require (size <? MAX_ARRAY_ALLOC_SIZE) "size.value < MAX_ARRAY_ALLOC_SIZE" ;;
     stream_read (Z.to_nat size))
    (fun value => Z.of_nat (length value) < MAX_ARRAY_ALLOC_SIZE /\ bytes value).

Fixpoint unpack_items {A} (c : codec A) (n : nat) : M stream (list A) :=
  match n with
  | O => mret []
  | S n => x ← unpack c; l ← unpack_items c n; mret (x :: l)
  end.

(** std::vector of a type of [sizeof] bytes. *)
Definition raw_vector {A} (sizeof : Z) (c : codec A) : codec (list A) :=
  Codec (fun value => pack unsigned_int (u32 (Z.of_nat (length value))) ++ concat (map (pack c) value))
    (size ← unpack unsigned_int;
     require (u64 (size * sizeof) <? MAX_ARRAY_ALLOC_SIZE) "size.value*sizeof(T) < MAX_ARRAY_ALLOC_SIZE" ;;
     unpack_items c (Z.to_nat size))
    (fun value => 0 <= Z.of_nat (length value) * sizeof < MAX_ARRAY_ALLOC_SIZE /\ Z.of_nat (length value) < 2 ^ 32
                  /\ Forall (packable c) value).

(** static_variant of two types. set_which takes the tag as an int: one of
    2^31 or more is negative and passes its test, no case constructs a value,
    and the exception that says so leaves a variant whose destructor throws
    it again, which ends the program. *)
Definition raw_variant {A B} (c : codec A) (d : codec B) : codec (A + B) :=
  Codec (fun sv => match sv with
                   | inl x => pack unsigned_int 0 ++ pack c x
                   | inr y => pack unsigned_int 1 ++ pack d y
                   end)
    (w ← unpack unsigned_int;
     let w := s32 w in
     require (w <? 2) "w < count()" ;;
     if w =? 0 then x ← unpack c; mret (inl x)
     else if w =? 1 then y ← unpack d; mret (inr y)
     else undefined)
    (fun sv => match sv with inl x => packable c x | inr y => packable d y end).

(** ** The types of a block *)

(** sizeof is the compiler's. *)
Class Sizes := {
  sizeof_name : Z;
  sizeof_account_auth : Z;
  sizeof_message : Z;
  sizeof_signature : Z;
  sizeof_builder_info : Z;
  sizeof_receipt : Z;
  sizes_positive : Forall (fun s => 0 < s)
    [sizeof_name; sizeof_account_auth; sizeof_message; sizeof_signature; sizeof_builder_info; sizeof_receipt] }.

Definition raw_sha256 : codec sha256 :=
  raw_object (fun h => (hash0 h, (hash1 h, (hash2 h, hash3 h)))) (fun '(a, (b, (c, d))) => Some (Sha a b c d))
    (raw_pair (uint 8) (raw_pair (uint 8) (raw_pair (uint 8) (uint 8)))).

(** name: a code of 128 bits. *)
Definition raw_name : codec Z := uint 16.
Definition raw_signature : codec (list Z) := raw_array 65.
Definition raw_public_key : codec (list Z) := raw_array 33.

Definition raw_account_auth : codec account_auth :=
  raw_object (fun a => (account a, authority a)) (fun '(a, p) => Some (AccountAuth a p)) (raw_pair raw_name raw_name).

Definition raw_timestamp : codec chain_timestamp := raw_object _stamp (fun s => Some (Stamp s)) (uint 4).

Definition raw_builder_info : codec builder_info :=
  raw_object (fun b => (builder_name b, block_signing_key b)) (fun '(n, k) => Some (Builder n k))
    (raw_pair raw_name raw_public_key).

#[export] Instance message_eq_dec : EqDecision message.
Proof. solve_decision. Defined.
#[export] Instance transaction_eq_dec : EqDecision transaction.
Proof. solve_decision. Defined.
#[export] Instance signed_transaction_eq_dec : EqDecision signed_transaction.
Proof. solve_decision. Defined.

Definition default_signed_transaction : signed_transaction := SignedTransaction default_transaction [].

(** A byte that is no enumerator leaves the type of the model. *)
Definition package_code_byte (c : package_code) : Z := match c with empty => 0 | original => 1 | zlib => 2 end.
Definition package_code_of (b : Z) : option package_code :=
  if b =? 0 then Some empty else if b =? 1 then Some original else if b =? 2 then Some zlib else None.
Definition result_code_byte (r : result_code) : Z := match r with applied => 0 | failure => 1 end.
Definition result_code_of (b : Z) : option result_code :=
  if b =? 0 then Some applied else if b =? 1 then Some failure else None.
Definition raw_package_code : codec package_code := raw_object package_code_byte package_code_of (uint 1).
Definition raw_result_code : codec result_code := raw_object result_code_byte result_code_of (uint 1).

Section Sized.
Context `{Sizes}.

Definition raw_message : codec message :=
  raw_object (fun m => (msg_code m, (msg_type m, (authorization m, msg_data m))))
    (fun '(c, (t, (a, d))) => Some (Message c t a d))
    (raw_pair raw_name (raw_pair raw_name (raw_pair (raw_vector sizeof_account_auth raw_account_auth) raw_bytes))).

Definition raw_transaction : codec transaction :=
  raw_object
    (fun t => (ref_block_num t, (ref_block_prefix t, (expiration t, (scope t, (read_scope t, (messages t,
              (gas_payer t, (gas t, gaslimit t)))))))))
    (fun '(n, (p, (e, (s, (r, (m, (y, (g, l)))))))) => Some (Transaction n p e s r m y g l))
    (raw_pair (uint 2) (raw_pair (uint 4) (raw_pair raw_time_point
      (raw_pair (raw_vector sizeof_name raw_name) (raw_pair (raw_vector sizeof_name raw_name)
      (raw_pair (raw_vector sizeof_message raw_message)
      (raw_pair raw_name (raw_pair (uint 8) (uint 8))))))))).

Definition raw_signed_transaction : codec signed_transaction :=
  raw_object (fun t => (trx t, signatures t)) (fun '(t, s) => Some (SignedTransaction t s))
    (raw_pair raw_transaction (raw_vector sizeof_signature raw_signature)).

(** The body of an empty package is a default transaction, which the model
    leaves out. *)
Definition raw_package : codec transaction_package :=
  raw_object (fun p => (code p, match body p with Some t => t | None => default_signed_transaction end))
    (fun '(c, t) =>
       Some (match c with
             | empty => if decide (t = default_signed_transaction) then Package empty None else Package empty (Some t)
             | _ => Package c (Some t)
             end))
    (raw_pair raw_package_code raw_signed_transaction).

Definition raw_receipt : codec transaction_receipt :=
  raw_object
    (fun r => (receipt_idx r, (rec_result r, match rec_trx r with by_id id => inl id | by_package p => inr p end)))
    (fun '(i, (r, t)) => Some (Receipt i r (match t with inl id => by_id id | inr p => by_package p end)))
    (raw_pair (uint 8) (raw_pair raw_result_code (raw_variant raw_sha256 raw_package))).

Definition raw_builder_rule : codec builder_rule :=
  raw_object (fun r => (version r, builders r)) (fun '(v, b) => Some (Rule v b))
    (raw_pair (uint 4) (raw_vector sizeof_builder_info raw_builder_info)).

Definition raw_block_header : codec block_header :=
  raw_object (fun h => (previous h, (timestamp h, (trxs_mroot h, (builder h, next_builders h)))))
    (fun '(p, (t, (m, (b, n)))) => Some (Header p t m b n))
    (raw_pair raw_sha256 (raw_pair raw_timestamp (raw_pair raw_sha256 (raw_pair raw_name (raw_optional raw_builder_rule))))).

Definition raw_signed_header : codec signed_block_header :=
  raw_object (fun h => (header h, builder_signature h)) (fun '(h, s) => Some (SignedHeader h s))
    (raw_pair raw_block_header raw_signature).

Definition raw_signed_block : codec signed_block :=
  raw_object (fun b => (block_head b, receipts b)) (fun '(h, r) => Some (SignedBlock h r))
    (raw_pair raw_signed_header (raw_vector sizeof_receipt raw_receipt)).
End Sized.

(** ** What is packed is unpacked *)

Lemma stream_read_app n (l rest : list Z) : length l = n -> stream_read n (l ++ rest) = Ret rest l.
Proof.
  intros <-. unfold stream_read. rewrite length_app.
  destruct (Nat.ltb_spec (length l + length rest) (length l)); [lia |].
  rewrite drop_app_length, take_app_length. reflexivity.
Qed.

#[export] Instance uint_lawful n : Lawful (uint n).
Proof.
  split; intros x; cbn [uint pack unpack packable].
  - intros _. apply slices_bytes.
  - intros rest Hx. rewrite (mbind_ret _ _ _ rest (slices 8 n x 0)) by (apply stream_read_app, length_slices).
    rewrite leval_slices by lia. rewrite Z.pow_0_r, Z.div_1_r, Z.mod_small by assumption. reflexivity.
Qed.

(** One group more. *)
Lemma varint_group v : 0 <= v ->
  Z.land (Z.land v 0x7f) 0x7f = v mod 128 mod 128 /\ Z.shiftr v 7 = v / 128 /\ Z.testbit (Z.land v 0x7f) 7 = false
  /\ Z.testbit (Z.lor (Z.land v 0x7f) 0x80) 7 = true /\ Z.land (Z.lor (Z.land v 0x7f) 0x80) 0x7f = v mod 128
  /\ Bnd (Z.land v 0x7f) 255 /\ Bnd (Z.lor (Z.land v 0x7f) 0x80) 255.
Proof.
  intros Hv. assert (G : forall x, Z.land x 0x7f = x mod 128)
    by (intros x; change 0x7f with (Z.ones 7); apply Z.land_ones; lia).
  rewrite !G, Z.shiftr_div_pow2 by lia. change (2 ^ 7) with 128. pose proof (Z.mod_pos_bound v 128 ltac:(lia)) as B.
  pose proof (lor_shiftl_add (v mod 128) 1 7 ltac:(lia) B) as L. change (Z.shiftl 1 7) with 0x80 in L.
  rewrite L, Z.testbit_false, Z.testbit_true by lia. change (2 ^ 7) with 128. unfold Bnd. rewrite Z.mul_1_r.
  rewrite (Z.div_small (v mod 128)) by lia. replace (v mod 128 + 128) with (v mod 128 + 1 * 128) by ring.
  rewrite Z.div_add, (Z.div_small (v mod 128)), Z.mod_add, Z.mod_mod by lia. repeat split; lia.
Qed.

Lemma varint_bytes n : forall v, 0 <= v -> bytes (varint n v).
Proof.
  induction n as [| n IH]; intros v Hv; cbn [varint]; [constructor |].
  destruct (varint_group v Hv) as (_ & _ & _ & _ & _ & B & B').
  destruct (0 <? Z.shiftr v 7); constructor; try assumption; [apply IH, Z.shiftr_nonneg, Hv | constructor].
Qed.

Lemma varint_S n v :
  varint (S n) v =
    if 0 <? Z.shiftr v 7 then Z.lor (Z.land v 0x7f) 0x80 :: varint n (Z.shiftr v 7) else [Z.land v 0x7f].
Proof. reflexivity. Qed.

Lemma unvarint_S n by_ acc b s :
  unvarint (S n) by_ acc (b :: s) =
    (let v := Z.lor acc (u32 (Z.shiftl (Z.land b 0x7f) by_)) in
     if Z.testbit b 7 then unvarint n (by_ + 7) v s else Ret s (u32 v)).
Proof.
  change (unvarint (S n) by_ acc (b :: s)) with
    ((let v := Z.lor acc (u32 (Z.shiftl (Z.land b 0x7f) by_)) in
      if Z.testbit b 7 then unvarint n (by_ + 7) v else mret (u32 v)) s).
  cbv zeta. destruct (Z.testbit b 7); reflexivity.
Qed.

Lemma unvarint_varint n : forall by_ v acc rest,
  0 <= v < 2 ^ (7 * Z.of_nat (S n)) -> 0 <= by_ -> 0 <= acc < 2 ^ by_ -> acc + 2 ^ by_ * v < 2 ^ 32 ->
  unvarint (S n) by_ acc (varint (S n) v ++ rest) = Ret rest (acc + 2 ^ by_ * v).
Proof.
  induction n as [| n IH]; intros by_ v acc rest Hv Hb Ha Hs;
    destruct (varint_group v (proj1 Hv)) as (E1 & E2 & E3 & E4 & E5 & _ & _);
    pose proof (Z.div_mod v 128 ltac:(lia)) as D; pose proof (Z.mod_pos_bound v 128 ltac:(lia)) as B;
    assert (P : 0 < 2 ^ by_) by (apply Z.pow_pos_nonneg; lia);
    assert (U : u32 (Z.shiftl (v mod 128) by_) = Z.shiftl (v mod 128) by_)
      by (unfold u32; apply Z.mod_small; rewrite Z.shiftl_mul_pow2 by lia; pose proof (Z.div_pos v 128 (proj1 Hv)); nia).
  all: rewrite varint_S; destruct (Z.ltb_spec 0 (Z.shiftr v 7)) as [G | G]; rewrite E2 in G.
  - change (2 ^ (7 * Z.of_nat 1)) with 128 in Hv. rewrite Z.div_small in G by lia. lia.
  - cbn [app]. rewrite unvarint_S, E3, E1, Z.mod_mod, U, lor_shiftl_add by lia.
    replace (v mod 128) with v by lia. unfold u32. rewrite Z.mod_small by lia. reflexivity.
  - cbn [app]. rewrite unvarint_S, E4, E5, U, lor_shiftl_add, E2 by lia.
    assert (Q : acc + 2 ^ by_ * (v mod 128) + 2 ^ (by_ + 7) * (v / 128) = acc + 2 ^ by_ * v)
      by (rewrite Z.pow_add_r by lia; change (2 ^ 7) with 128; nia).
    rewrite IH; [rewrite Q; reflexivity | | lia | rewrite Z.pow_add_r by lia; change (2 ^ 7) with 128; nia | lia].
    split; [apply Z.div_pos; lia |]. apply Z.div_lt_upper_bound; [lia |].
    replace (7 * Z.of_nat (S (S n))) with (7 + 7 * Z.of_nat (S n)) in Hv by lia.
    rewrite Z.pow_add_r in Hv by lia. change (2 ^ 7) with 128 in Hv. lia.
  - cbn [app]. assert (0 <= v / 128) by (apply Z.div_pos; lia).
    rewrite unvarint_S, E3, E1, Z.mod_mod, U, lor_shiftl_add by lia.
    replace (v mod 128) with v by lia. unfold u32. rewrite Z.mod_small by lia. reflexivity.
Qed.

#[export] Instance unsigned_int_lawful : Lawful unsigned_int.
Proof.
  split; intros x; cbn [unsigned_int pack unpack packable].
  - intros Hx. apply varint_bytes. lia.
  - intros rest Hx. rewrite unvarint_varint by (cbn in *; lia).
    f_equal. lia.
Qed.

(** Reading what was packed, then the rest. *)
Lemma unpack_then {A B} (c : codec A) `{!Lawful c} (k : A -> M stream B) x rest :
  packable c x -> (unpack c ≫= k) (pack c x ++ rest) = k x rest.
Proof. intros Hx. apply mbind_ret, unpack_pack, Hx. Qed.

Lemma read_then {B} n (l rest : list Z) (k : list Z -> M stream B) :
  length l = n -> (stream_read n ≫= k) (l ++ rest) = k l rest.
Proof. intros E. apply mbind_ret, stream_read_app, E. Qed.

Lemma require_then {S B} b e (k : unit -> M S B) (s : S) : b = true -> (require b e ≫= k) s = k tt s.
Proof. intros ->. reflexivity. Qed.

Lemma bytes_app l m : bytes l -> bytes m -> bytes (l ++ m).
Proof. intros Hl Hm. apply List.Forall_app. split; assumption. Qed.

Lemma u8_packable v : 0 <= v < 256 -> packable (uint 1) v.
Proof. intros H. exact H. Qed.

#[export] Instance bool_lawful : Lawful raw_bool.
Proof.
  split; intros x; cbn [raw_bool pack unpack packable]; intros.
  - apply (pack_bytes (c := uint 1)). destruct x; apply u8_packable; cbn; lia.
  - rewrite (unpack_then (uint 1)) by (destruct x; apply u8_packable; cbn; lia).
    rewrite require_then by (rewrite land_not1; reflexivity). destruct x; reflexivity.
Qed.

Lemma s64_u64 x : - 2 ^ 63 <= x < 2 ^ 63 -> s64 (u64 x) = x.
Proof.
  intros Hx. unfold s64, u64, swrap. rewrite Z.mod_mod by lia. change (2 ^ (64 - 1)) with (2 ^ 63).
  destruct (Z.ltb_spec x 0).
  - replace (x mod 2 ^ 64) with (x + 2 ^ 64) by (apply Z.mod_unique with (-1); lia).
    destruct (Z.ltb_spec (x + 2 ^ 64) (2 ^ 63)); lia.
  - rewrite Z.mod_small by lia. destruct (Z.ltb_spec x (2 ^ 63)); lia.
Qed.

#[export] Instance time_point_lawful : Lawful raw_time_point.
Proof.
  split; intros x; cbn [raw_time_point pack unpack packable]; intros.
  - apply (pack_bytes (c := uint 8)). cbn. apply Z.mod_pos_bound. lia.
  - rewrite (unpack_then (uint 8)) by (cbn; apply Z.mod_pos_bound; lia). unfold mret, M_ret. f_equal.
    apply s64_u64. assumption.
Qed.

#[export] Instance pair_lawful {A B} (c : codec A) (d : codec B) : Lawful c -> Lawful d -> Lawful (raw_pair c d).
Proof.
  intros Lc Ld. split; intros [x y]; cbn [raw_pair pack unpack packable fst snd]; intros.
  - destruct H. apply bytes_app; apply pack_bytes; assumption.
  - destruct H. rewrite <- app_assoc, (unpack_then c), (unpack_then d) by assumption. reflexivity.
Qed.

#[export] Instance object_lawful {A B} (members : A -> B) make (c : codec B) : Lawful c -> Lawful (raw_object members make c).
Proof.
  intros Lc. split; intros x; cbn [raw_object pack unpack packable].
  - intros [Hx _]. apply pack_bytes, Hx.
  - intros rest [Hx E]. rewrite (unpack_then c), E by assumption. reflexivity.
Qed.

#[export] Instance array_lawful n : Lawful (raw_array n).
Proof.
  split; intros x; cbn [raw_array pack unpack packable]; [tauto |]. intros rest [E _]. apply stream_read_app, E.
Qed.

#[export] Instance optional_lawful {A} (c : codec A) : Lawful c -> Lawful (raw_optional c).
Proof.
  intros Lc. split; intros [x |]; cbn [raw_optional pack unpack packable]; intros.
  - apply bytes_app; [exact (pack_bytes (c := raw_bool) true I) | apply pack_bytes; assumption].
  - exact (pack_bytes (c := raw_bool) false I).
  - rewrite <- app_assoc, (unpack_then raw_bool), (unpack_then c) by (exact I || assumption). reflexivity.
  - rewrite (unpack_then raw_bool) by exact I. reflexivity.
Qed.

(** A length below the limits is packed as it is. *)
Lemma length_packed (n : Z) : 0 <= n < 2 ^ 32 -> u32 n = n /\ packable unsigned_int n.
Proof. intros Hn. split; [apply Z.mod_small; lia | exact Hn]. Qed.

#[export] Instance bytes_lawful : Lawful raw_bytes.
Proof.
  split; intros x; cbn [raw_bytes pack unpack packable]; [intros [L B] | intros rest [L B]]; unfold MAX_ARRAY_ALLOC_SIZE in *;
    destruct (length_packed (Z.of_nat (length x)) ltac:(lia)) as [-> P].
  - apply bytes_app; [exact (pack_bytes (c := unsigned_int) _ P) | exact B].
  - rewrite <- app_assoc, (unpack_then unsigned_int) by exact P.
    rewrite require_then by (apply Z.ltb_lt; lia). apply stream_read_app. lia.
Qed.

Lemma unpack_items_pack {A} (c : codec A) `{!Lawful c} l rest :
  Forall (packable c) l -> unpack_items c (length l) (concat (map (pack c) l) ++ rest) = Ret rest l.
Proof.
  induction 1 as [| x l Hx Hl IH]; [reflexivity |]. cbn [map concat length unpack_items].
  rewrite <- app_assoc, (unpack_then c), (mbind_ret _ _ _ _ _ IH) by assumption. reflexivity.
Qed.

#[export] Instance vector_lawful {A} sizeof (c : codec A) : Lawful c -> Lawful (raw_vector sizeof c).
Proof.
  intros Lc. split; intros x; cbn [raw_vector pack unpack packable]; [intros (L & N & F) | intros rest (L & N & F)];
    destruct (length_packed (Z.of_nat (length x)) ltac:(lia)) as [-> P].
  - apply bytes_app; [exact (pack_bytes (c := unsigned_int) _ P) |].
    clear - Lc F. induction F as [| y l Hy Hl IH]; [constructor |]. apply bytes_app; [apply pack_bytes, Hy | exact IH].
  - rewrite <- app_assoc, (unpack_then unsigned_int) by exact P.
    rewrite require_then by (unfold u64, MAX_ARRAY_ALLOC_SIZE in *; rewrite Z.mod_small by lia; apply Z.ltb_lt; lia).
    rewrite Nat2Z.id. apply unpack_items_pack; assumption.
Qed.

#[export] Instance variant_lawful {A B} (c : codec A) (d : codec B) : Lawful c -> Lawful d -> Lawful (raw_variant c d).
Proof.
  assert (P : packable unsigned_int 0 /\ packable unsigned_int 1) by (cbn; lia). destruct P as [P0 P1].
  intros Lc Ld. split; intros [x | y]; cbn [raw_variant pack unpack packable]; intros.
  - apply bytes_app; [exact (pack_bytes (c := unsigned_int) _ P0) | apply pack_bytes; assumption].
  - apply bytes_app; [exact (pack_bytes (c := unsigned_int) _ P1) | apply pack_bytes; assumption].
  - rewrite <- app_assoc, (unpack_then unsigned_int) by exact P0. cbv zeta. rewrite require_then by reflexivity.
    change (s32 0 =? 0) with true. cbv iota. rewrite (unpack_then c) by assumption. reflexivity.
  - rewrite <- app_assoc, (unpack_then unsigned_int) by exact P1. cbv zeta. rewrite require_then by reflexivity.
    change (s32 1 =? 0) with false. change (s32 1 =? 1) with true. cbv iota.
    rewrite (unpack_then d) by assumption. reflexivity.
Qed.

Section Blocks.
Context `{Sizes}.

(** What pack writes of a block, unpack reads back, and it leaves the
    stream at the byte that follows: of a block whose numbers have their
    widths, whose keys and signatures their lengths, and whose lists are below
    the limit of the reader.  So no packed block begins with another one. *)
Theorem packed_block_is_unpacked (b : signed_block) rest :
  packable raw_signed_block b ->
  unpack raw_signed_block (pack raw_signed_block b ++ rest) = Ret rest b /\
  (forall (c : signed_block) rest', packable raw_signed_block c ->
     pack raw_signed_block b ++ rest = pack raw_signed_block c ++ rest' -> b = c /\ rest = rest').
Proof.
  intros Hb. pose proof (unpack_pack b rest Hb) as Eb. split; [exact Eb |]. intros c rest' Hc E.
  rewrite E, (unpack_pack c rest' Hc) in Eb. split; congruence.
Qed.

(** A receipt whose tag is 2^31 or more, five bytes of a peer, ends the
    program; a smaller tag that is none throws. *)
Lemma large_tag_undefined rest : unpack (raw_variant raw_sha256 raw_package) (varint 5 (2 ^ 31) ++ rest) = Undef.
Proof. reflexivity. Qed.

Lemma unknown_tag_throws rest : unpack (raw_variant raw_sha256 raw_package) (varint 5 2 ++ rest) = Exc rest "w < count()".
Proof. reflexivity. Qed.
End Blocks.
