(* ===== verification/BlockLog.v ===== *)
(** The files of the block log, byte by byte
    (blockchain/chain/chain_stream.cpp, include/chain_stream.hpp).

    A stream is the bytes of its file, the position it reads at and whether it
    has failed; both streams are opened for appending, so that a write goes to
    the end of the file. A stream throws when it fails and at every later use
    for reading; of a failed stream a seek for writing does nothing and the
    position is -1. Flushing is left out: the bytes are those of the file once
    it is flushed. The memory of an object is written with its padding, which
    is an argument here. *)

From Stdlib Require Import ZArith Lia Bool String List.
From stdpp Require Import base decidable list.
From S2P Require Import Prelude ChainUtils Effects Block Raw.
Import ListNotations.
Local Open Scope Z_scope.

(** ** std::fstream *)

Record fstream := File { contents : list Z; position : Z; failed : bool }.

Inductive seekdir := beg | cur | end_.

Definition file_size (f : fstream) : Z := Z.of_nat (length (contents f)).
Definition fail_stream (f : fstream) : fstream := File (contents f) (position f) true.
Definition at_position (p : Z) (f : fstream) : fstream := File (contents f) p (failed f).

Definition stream_fails {A} : M fstream A := update fail_stream ;; throw "basic_ios::clear".

Definition good : M fstream unit := f ← gets (fun f => f); if failed f then throw "basic_ios::clear" else mret tt.

Definition target (off : Z) (dir : seekdir) (f : fstream) : Z :=
  match dir with beg => off | cur => position f + off | end_ => file_size f + off end.

Definition seek (off : Z) (dir : seekdir) : M fstream unit :=
  f ← gets (fun f => f);
  if target off dir f <? 0 then stream_fails else update (at_position (target off dir f)).

Definition seekg (off : Z) (dir : seekdir) : M fstream unit := good ;; seek off dir.
Definition seekp (off : Z) (dir : seekdir) : M fstream unit :=
  f ← gets (fun f => f); if failed f then mret tt else seek off dir.
Definition tellg : M fstream Z := good ;; gets position.
Definition tellp : M fstream Z := gets (fun f => if failed f then -1 else position f).

Definition read (n : Z) : M fstream (list Z) :=
  good ;;
  f ← gets (fun f => f);
  if position f + n <=? file_size f then
    update (at_position (position f + n)) ;;
    mret (take (Z.to_nat n) (drop (Z.to_nat (position f)) (contents f)))
  else stream_fails.

Definition write (bs : list Z) : M fstream unit :=
  good ;; update (fun f => File (contents f ++ bs) (file_size f + Z.of_nat (length bs)) false).

(** fc::raw::unpack of a stream. *)
Definition unpack_here {A} (c : codec A) : M fstream A := fun f =>
  match unpack c (drop (Z.to_nat (position f)) (contents f)) with
  | Ret rest x => Ret (at_position (file_size f - Z.of_nat (length rest)) f) x
  | Exc rest e =>
      let f := at_position (file_size f - Z.of_nat (length rest)) f in
      Exc (if String.eqb e "basic_ios::clear" then fail_stream f else f) e
  | Undef => Undef
  end.
Definition unpack_from {A} (c : codec A) : M fstream A := good ;; unpack_here c.

(** ** block_detail *)

Record block_desc := Desc { desc_num : Z; desc_pos : Z; desc_size : Z }.
Record block_index := Index { idx_num : Z; idx_pos : Z; idx_size : Z; idx_id : sha256 }.

Definition block_end_eof : Z := 0xb10cedef.
Definition sizeof_eof : Z := 4.
Definition sizeof_block_desc : Z := 64.
Definition sizeof_block_index : Z := 64.

(** The members in memory; the rest of the 64 bytes is padding. *)
Definition mem_desc : codec block_desc :=
  raw_object (fun d => (desc_num d, (desc_pos d, desc_size d))) (fun '(n, (p, s)) => Some (Desc n p s))
    (raw_pair (uint 8) (raw_pair (uint 8) (uint 8))).
Definition mem_index : codec block_index :=
  raw_object (fun i => (idx_num i, (idx_pos i, (idx_size i, idx_id i)))) (fun '(n, (p, (s, i))) => Some (Index n p s i))
    (raw_pair (uint 8) (raw_pair (uint 8) (raw_pair (uint 8) raw_sha256))).

Definition desc_padding : nat := 40.
Definition index_padding : nat := 8.

Definition of_memory {S A} (c : codec A) (bs : list Z) : M S A :=
  match unpack c bs with Ret _ x => mret x | _ => undefined end.

Definition stream_end_p : M fstream unit := seekp 0 end_.
Definition to_last_block_desc : M fstream unit := seekg (s64 (u64 (u64 (- sizeof_eof) - sizeof_block_desc))) end_.
Definition to_last_block_index : M fstream unit := seekg (s64 (u64 (- sizeof_block_index))) end_.
Definition to_end_eof : M fstream unit := seekg (s64 (u64 (- sizeof_eof))) end_.

Definition read_eof : M fstream Z := bs ← read sizeof_eof; mret (leval 8 bs).
Definition write_eof : M fstream unit := write (slices 8 4 block_end_eof 0).
Definition read_block_desc : M fstream block_desc := bs ← read sizeof_block_desc; of_memory mem_desc bs.
Definition write_block_desc (val : block_desc) (padding : list Z) : M fstream unit := write (pack mem_desc val ++ padding).
Definition read_block_index : M fstream block_index := bs ← read sizeof_block_index; of_memory mem_index bs.
Definition write_block_index (val : block_index) (padding : list Z) : M fstream unit := write (pack mem_index val ++ padding).

Fixpoint indices_of {S} (count : nat) (bs : list Z) : M S (list block_index) :=
  match count with
  | O => mret []
  | S count =>
      i ← of_memory mem_index (take 64 bs);
      l ← indices_of count (drop 64 bs);
      mret (i :: l)
  end.

(** The address of the first element of an empty vector is not to be taken. *)
Definition read_block_indices (count : Z) : M fstream (list block_index) :=
  if count =? 0 then undefined else
  bs ← read (u64 (sizeof_block_index * count));
  indices_of (Z.to_nat count) bs.

(** ** chain_stream_impl *)

Record chain_stream_impl := Stream {
  block_stream : fstream;
  index_stream : fstream;
  stream_head : option signed_block }.

Definition on_blocks {A} (m : M fstream A) : M chain_stream_impl A := fun s =>
  match m (block_stream s) with
  | Ret f a => Ret (Stream f (index_stream s) (stream_head s)) a
  | Exc f e => Exc (Stream f (index_stream s) (stream_head s)) e
  | Undef => Undef
  end.
Definition on_index {A} (m : M fstream A) : M chain_stream_impl A := fun s =>
  match m (index_stream s) with
  | Ret f a => Ret (Stream (block_stream s) f (stream_head s)) a
  | Exc f e => Exc (Stream (block_stream s) f (stream_head s)) e
  | Undef => Undef
  end.
Definition set_stream_head (b : option signed_block) (s : chain_stream_impl) : chain_stream_impl :=
  Stream (block_stream s) (index_stream s) b.

Section Streams.
Context `{Crypto} `{Sizes}.

(** From the two positions on; the paddings are what is in the memory of desc
    and of index. *)
Definition write_record (pd pi : list Z) (b : signed_block) (pos idx_pos : Z) : M chain_stream_impl Z :=
  let data := pack raw_signed_block b in
  let desc := Desc (block_num b) pos (Z.of_nat (length data)) in
  let index := Index (block_num b) pos (Z.of_nat (length data)) (Block.id b) in
  require (idx_pos =? u64 (sizeof_block_index * u64 (desc_num desc - 1))) "Append to index file occuring at wrong position." ;;
  on_blocks (seekp (s64 (desc_pos desc)) beg) ;;
  on_blocks (write data) ;;
  on_blocks (write_block_desc desc pd) ;;
  on_blocks write_eof ;;
  on_index (write_block_index index pi) ;;
  mret pos.

Definition write_block (pd pi : list Z) (b : signed_block) : M chain_stream_impl Z :=
  on_blocks stream_end_p ;;
  on_index stream_end_p ;;
  pos ← on_blocks tellp;
  idx_pos ← on_index tellp;
  write_record pd pi b (u64 pos) (u64 idx_pos).

Definition read_block_impl (pos : Z) : M chain_stream_impl signed_block :=
  on_blocks (seekg (s64 pos) beg ;; unpack_from raw_signed_block).

Definition read_head : M chain_stream_impl signed_block :=
  on_blocks to_last_block_desc ;;
  desc ← on_blocks read_block_desc;
  read_block_impl (desc_pos desc).

Definition append_block (pd pi : list Z) (b : signed_block) : M chain_stream_impl Z :=
  pos ← write_block pd pi b;
  update (set_stream_head (Some b)) ;;
  mret pos.

Definition read_block (num : Z) : M chain_stream_impl (option signed_block) :=
  on_index to_last_block_index ;;
  last_idx ← on_index read_block_index;
  if num <? idx_num last_idx then
    on_index to_last_block_index ;;
    let bias := u64 (sizeof_block_index * u64 (idx_num last_idx - num)) in
    on_index (seekg (s64 (u64 (- bias))) cur) ;;
    idx ← on_index read_block_index;
    read_block_impl (idx_pos idx) ≫= fun b : signed_block => mret (Some b)
  else if idx_num last_idx =? num then
    read_block_impl (idx_pos last_idx) ≫= fun b : signed_block => mret (Some b)
  else mret None.

(** The vector is resized to a length that must be one. *)
Definition read_indices (begin_num block_count : Z) : M chain_stream_impl (list block_index) :=
  on_index to_last_block_index ;;
  g ← on_index tellg;
  if g <=? 0 then mret [] else
  last_idx ← on_index read_block_index;
  let cc := s64 (u64 (idx_num last_idx - u64 begin_num + 1)) in
  if cc <? 1 then mret [] else
  let count := if cc <? block_count then cc else block_count in
  on_index to_last_block_index ;;
  let bias := u64 (sizeof_block_index * u64 (idx_num last_idx - u64 begin_num)) in
  require (0 <=? count) "vector::_M_default_append" ;;
  on_index (seekg (s64 (u64 (- bias))) cur) ;;
  on_index (read_block_indices count).

Definition last_block_num : M chain_stream_impl Z :=
  on_index to_last_block_index ;;
  g ← on_index tellg;
  if g <=? 0 then mret 0 else
  last_idx ← on_index read_block_index;
  mret (s64 (idx_num last_idx)).

(** Opening the two files, of these bytes. *)
Definition opened (bytes : list Z) : fstream := File bytes 0 false.
Definition clear_file_stream : M fstream unit := update (fun _ => opened []).

Definition check_files : M chain_stream_impl unit :=
  s ← gets (fun s => s);
  let log_size := file_size (block_stream s) in
  let index_size := file_size (index_stream s) in
  if (0 =? log_size) && (0 <? index_size) then on_index clear_file_stream
  else if (0 =? index_size) && (0 <? log_size) then on_blocks clear_file_stream
  else if (0 <? index_size) && (0 <? log_size) then
    on_blocks to_end_eof ;;
    eof ← on_blocks read_eof;
    require (eof =? block_end_eof) "Block log is corrupted" ;;
    on_blocks to_last_block_desc ;;
    on_index to_last_block_index ;;
    desc ← on_blocks read_block_desc;
    index ← on_index read_block_index;
    require (desc_pos desc =? idx_pos index) "Block log is corrupted" ;;
    read_head ≫= fun b : signed_block => update (set_stream_head (Some b))
  else mret tt.

Definition open : M chain_stream_impl unit :=
  update (fun s => Stream (opened (contents (block_stream s))) (opened (contents (index_stream s))) (stream_head s)) ;;
  check_files.

(** chain_stream of a directory with these files. *)
Definition chain_stream (blocks index : list Z) : outcome chain_stream_impl unit :=
  open (Stream (opened blocks) (opened index) None).
End Streams.
