(* ===== verification/Abi.v ===== *)
(** The description of a contract's types and the conversions it directs
    (foundation/basetypes/abi_serializer.cpp, include/abi_serializer.hpp; the
    records abi, type_def, struct_t, field, action and table of gentypes.hpp
    and basetypes.hpp).

    A type name is the bytes of a fixed string of 32 bytes without the zeros they
    end with; the text of the name is these bytes up to the first zero, unless all
    32 are used.  std::map is a list ordered by its keys, in which the loops over
    it run.  A recursion that is
    out of fuel is one whose stack overflows, and undefined.  What the
    conversions of the built-in types do, to and from the values of
    fc::variant, are arguments of the definitions. *)

From Stdlib Require Import ZArith Lia Bool String Ascii List.
From stdpp Require Import base decidable list.
From S2P Require Import Prelude ChainUtils Effects Raw.
Import ListNotations.
Local Open Scope Z_scope.

(** ** std::map *)

Section StdMap.
Context {K V : Type} (ltb eqb : K -> K -> bool).

Fixpoint map_find (k : K) (m : list (K * V)) : option V :=
  match m with
  | [] => None
  | (k', v) :: m => if eqb k k' then Some v else map_find k m
  end.

(** m[k] = v *)
Fixpoint map_assign (k : K) (v : V) (m : list (K * V)) : list (K * V) :=
  match m with
  | [] => [(k, v)]
  | (k', v') :: m =>
      if eqb k k' then (k, v) :: m
      else if ltb k k' then (k, v) :: (k', v') :: m
      else (k', v') :: map_assign k v m
  end.
End StdMap.

Definition name_find {V} : string -> list (string * V) -> option V := map_find String.eqb.
Definition name_assign {V} : string -> V -> list (string * V) -> list (string * V) := map_assign String.ltb String.eqb.
Definition code_find {V} : Z -> list (Z * V) -> option V := map_find Z.eqb.
Definition code_assign {V} : Z -> V -> list (Z * V) -> list (Z * V) := map_assign Z.ltb Z.eqb.

(** ** The records *)

Definition type_name : Type := string.

(** What a C string ends at. *)
Fixpoint c_str (s : string) : string :=
  match s with
  | EmptyString => EmptyString
  | String c s => if Ascii.eqb c zero then EmptyString else String c (c_str s)
  end.

(** The conversion of a fixed string of [n] bytes to std::string. *)
Definition fixed_text (n : nat) (s : string) : string := if (n <=? String.length s)%nat then s else c_str s.

Definition type_text (type : type_name) : string := fixed_text 32 type.
Definition field_text (name : string) : string := fixed_text 16 name.

Record type_def := TypeDef { new_type_name : type_name; td_type : type_name }.
Record field := Field { field_name : string; field_type : type_name }.
Record struct_t := Struct { st_name : type_name; st_base : type_name; st_fields : list field }.
Record action := Action { action_name : Z; action_type : type_name }.
Record table := Table {
  table_name : Z; index_type : type_name; key_names : list string; key_types : list type_name; table_type : type_name }.
Record abi := Abi { types : list type_def; structs : list struct_t; actions : list action; tables : list table }.

Record abi_serializer := Serializer {
  typedefs : list (type_name * type_name);
  struct_map : list (type_name * struct_t);
  action_map : list (Z * type_name);
  table_map : list (Z * type_name) }.

Definition empty_serializer : abi_serializer := Serializer [] [] [] [].

Definition built_in_types : list type_name :=
  ["public_key"; "asset_symbol"; "asset"; "price"; "string"; "time"; "signature"; "checksum"; "field_name"; "fixed_string32";
   "fixed_string16"; "type_name"; "bytes"; "uint8"; "uint16"; "uint32"; "uint64"; "uint128"; "uint256"; "int8"; "int16"; "int32";
   "int64"; "name"; "field"; "struct_t"; "fields"; "address"; "account_name"; "authority_name"; "func_name"; "message_name";
   "account_permission"; "message"; "account_permission_weight"; "transaction"; "signed_transaction"; "key_permission_weight";
   "authority"; "blockchain_configuration"; "type_def"; "action"; "table"; "abi"]%string.

Definition is_builtin_type (type : type_name) : bool := existsb (String.eqb type) built_in_types.

(** ** Names of types *)

Definition is_integer (type : type_name) : bool :=
  String.prefix "uint" (type_text type) || String.prefix "int" (type_text type).

Definition ends_with (s test : string) : bool :=
  (String.length test <=? String.length s)%nat &&
  String.eqb (String.substring (String.length s - String.length test) (String.length test) s) test.

Definition is_array (type : type_name) : bool := ends_with (type_text type) "[]".

Definition array_type (type : type_name) : type_name :=
  if negb (is_array type) then type
  else String.substring 0 (String.length (type_text type) - 2) (type_text type).

(** The value of a recursion, undefined when it is out of fuel. *)
Definition ended {S A} (o : option A) : M S A := match o with Some a => mret a | None => undefined end.

Section Types.
Context (a : abi_serializer).

Fixpoint resolve_type (fuel : nat) (type : type_name) : option type_name :=
  match fuel with
  | O => None
  | S fuel =>
      match name_find type (typedefs a) with
      | Some t => resolve_type fuel t
      | None => Some type
      end
  end.

Fixpoint is_type (fuel : nat) (rtype : type_name) : option bool :=
  match fuel with
  | O => None
  | S fuel =>
      let type := array_type rtype in
      if is_builtin_type type then Some true
      else match name_find type (typedefs a) with
           | Some t => is_type fuel t
           | None => match name_find type (struct_map a) with Some _ => Some true | None => Some false end
           end
  end.

Definition is_struct (fuel : nat) (type : type_name) : option bool :=
  match resolve_type fuel type with
  | Some t => Some (match name_find t (struct_map a) with Some _ => true | None => false end)
  | None => None
  end.

Definition get_struct {S} (fuel : nat) (type : type_name) : M S struct_t :=
  t ← ended (resolve_type fuel type);
  match name_find t (struct_map a) with
  | Some st => mret st
  | None => throw "Unknown struct"
  end.

Definition get_action_type (act : Z) : type_name := default ""%string (code_find act (action_map a)).
Definition get_table_type (tab : Z) : type_name := default ""%string (code_find tab (table_map a)).
End Types.

(** ** Setting and validating *)

Definition set_structs (l : list (type_name * struct_t)) (a : abi_serializer) : abi_serializer :=
  Serializer (typedefs a) l (action_map a) (table_map a).
Definition set_typedefs (l : list (type_name * type_name)) (a : abi_serializer) : abi_serializer :=
  Serializer l (struct_map a) (action_map a) (table_map a).
Definition set_actions (l : list (Z * type_name)) (a : abi_serializer) : abi_serializer :=
  Serializer (typedefs a) (struct_map a) l (table_map a).
Definition set_tables (l : list (Z * type_name)) (a : abi_serializer) : abi_serializer :=
  Serializer (typedefs a) (struct_map a) (action_map a) l.

Definition type_required (fuel : nat) (type : type_name) (e : string) : M abi_serializer unit :=
  a ← gets (fun a => a);
  b ← ended (is_type a fuel type);
  require b e.

Definition set_abi (fuel : nat) (d : abi) : M abi_serializer unit :=
  update (fun _ => empty_serializer) ;;
  for_each (structs d) (fun st => update (fun a => set_structs (name_assign (st_name st) st (struct_map a)) a)) ;;
  for_each (types d) (fun td =>
    type_required fuel (td_type td) "invalid type" ;;
    update (fun a => set_typedefs (name_assign (new_type_name td) (td_type td) (typedefs a)) a)) ;;
  for_each (actions d) (fun x => update (fun a => set_actions (code_assign (action_name x) (action_type x) (action_map a)) a)) ;;
  for_each (tables d) (fun t => update (fun a => set_tables (code_assign (table_name t) (table_type t) (table_map a)) a)) ;;
  a ← gets (fun a => a);
  require (length (typedefs a) =? length (types d))%nat "typedefs.size() == abi.types.size()" ;;
  require (length (struct_map a) =? length (structs d))%nat "structs.size() == abi.structs.size()" ;;
  require (length (action_map a) =? length (actions d))%nat "actions.size() == abi.actions.size()" ;;
  require (length (table_map a) =? length (tables d))%nat "tables.size() == abi.tables.size()".

Definition seen (types_seen : list type_name) (t : type_name) : bool := existsb (String.eqb t) types_seen.

(** The loop over the definitions a name leads to. *)
Fixpoint typedef_chain (a : abi_serializer) (fuel : nat) (types_seen : list type_name) (itr : option type_name) : M abi_serializer unit :=
  match itr with
  | None => mret tt
  | Some second =>
      require (negb (seen types_seen second)) "Circular reference in type" ;;
      match fuel with
      | O => undefined
      | S fuel => typedef_chain a fuel (types_seen ++ [second]) (name_find second (typedefs a))
      end
  end.

(** The loop over the structs one is derived from. *)
Fixpoint base_chain (a : abi_serializer) (fuel : nat) (types_seen : list type_name) (current : struct_t) : M abi_serializer unit :=
  if String.eqb (st_base current) "" then mret tt
  else
    base ← get_struct a fuel (st_base current);
    require (negb (seen types_seen (st_name base))) "Circular reference in struct" ;;
    match fuel with
    | O => undefined
    | S fuel => base_chain a fuel (types_seen ++ [st_name base]) base
    end.

Definition validate_typedefs (fuel : nat) : M abi_serializer unit :=
  a ← gets (fun a => a);
  for_each (typedefs a) (fun t =>
    capture_and_rethrow (typedef_chain a fuel [t.1; t.2] (name_find t.2 (typedefs a)))).

Definition validate_struct (fuel : nat) (s : type_name * struct_t) : M abi_serializer unit :=
  a ← gets (fun a => a);
  capture_and_rethrow
    (base_chain a fuel [st_name s.2] s.2 ;;
     for_each (st_fields s.2) (fun f => capture_and_rethrow (type_required fuel (field_type f) "is_type(field.type)"))).

Definition validate (fuel : nat) : M abi_serializer unit :=
  a ← gets (fun a => a);
  validate_typedefs fuel ;;
  for_each (typedefs a) (fun t => capture_and_rethrow (type_required fuel t.2 "is_type(t.second)")) ;;
  for_each (struct_map a) (validate_struct fuel) ;;
  for_each (action_map a) (fun t => capture_and_rethrow (type_required fuel t.2 "is_type(a.second)")) ;;
  for_each (table_map a) (fun t => capture_and_rethrow (type_required fuel t.2 "is_type(t.second)")).

(** ** Values and their binary form *)

(** fc::variant; its scalars are those of the built-in types. *)
Inductive variant (L : Type) : Type :=
| V_leaf (x : L)
| V_array (l : list (variant L))
| V_object (fields : list (string * variant L)).
Arguments V_leaf {L}.
Arguments V_array {L}.
Arguments V_object {L}.

(** datastream<char*> with the bytes written so far. *)
Definition ds_write (capacity : Z) (bs : list Z) : M (list Z) unit := fun w =>
  if Z.of_nat (length w) + Z.of_nat (length bs) <=? capacity then Ret (w ++ bs) tt
  else Exc w "write datastream attempt over-run".

Definition of_result {S A} (r : result A) : M S A := match r with Ok x => mret x | Throw e => throw e end.

Section Conversions.
Context {L : Type} (unpack_builtin : type_name -> bool -> M stream (variant L)) (pack_builtin : type_name -> bool -> variant L -> result (list Z)).
Context (as_bytes : variant L -> result (list Z)) (capacity : Z) (a : abi_serializer) (depth : nat).

Local Abbreviation resolved t := (ended (resolve_type a depth t)).

(** The vector has its size before any element is read. *)
Fixpoint read_times (read : M stream (variant L)) (n : nat) : M stream (list (variant L)) :=
  match n with
  | O => mret []
  | S n => v ← read; l ← read_times read n; mret (v :: l)
  end.

Fixpoint read_fields (read : type_name -> M stream (variant L)) (fs : list field) (obj : list (string * variant L)) :
  M stream (list (string * variant L)) :=
  match fs with
  | [] => mret obj
  | f :: fs =>
      t ← resolved (field_type f);
      v ← read t;
      read_fields read fs (obj ++ [(field_text (field_name f), v)])
  end.

(** The two overloads, of a value and of an object that is being filled. *)
Fixpoint from_binary (fuel : nat) :
  (type_name -> M stream (variant L)) * (type_name -> list (string * variant L) -> M stream (list (string * variant L))) :=
  match fuel with
  | O => (fun _ => undefined, fun _ _ => undefined)
  | S fuel =>
      let '(read, read_object) := from_binary fuel in
      let object (type : type_name) (obj : list (string * variant L)) :=
        st ← get_struct a depth type;
        obj ← (if String.eqb (st_base st) "" then mret obj else b ← resolved (st_base st); read_object b obj);
        read_fields read (st_fields st) obj in
      let value (type : type_name) :=
        rtype ← resolved type;
        if is_builtin_type (array_type rtype) then unpack_builtin (array_type rtype) (is_array rtype)
        else if is_array rtype then
          size ← unpack unsigned_int;
          vars ← read_times (read (array_type rtype)) (Z.to_nat size);
          mret (V_array vars)
        else
          mvo ← object rtype [];
          mret (V_object mvo) in
      (value, object)
  end.

Definition binary_to_variant (fuel : nat) : type_name -> M stream (variant L) := fst (from_binary fuel).
Definition binary_to_object (fuel : nat) : type_name -> list (string * variant L) -> M stream (list (string * variant L)) :=
  snd (from_binary fuel).

(** Both contains and operator[] take the key up to its first zero. *)
Definition object_find (k : string) (vo : list (string * variant L)) : option (variant L) := map_find String.eqb (c_str k) vo.

Fixpoint variant_to_binary (fuel : nat) (type : type_name) (var : variant L) : M (list Z) unit :=
  match fuel with
  | O => undefined
  | S fuel =>
      capture_and_rethrow
        (rtype ← resolved type;
         if is_builtin_type (array_type rtype) then
           bs ← of_result (pack_builtin (array_type rtype) (is_array rtype) var);
           ds_write capacity bs
         else if is_array rtype then
           match var with
           | V_array vars =>
               ds_write capacity (pack unsigned_int (u32 (Z.of_nat (length vars)))) ;;
               for_each vars (fun v => variant_to_binary fuel (array_type rtype) v)
           | _ => throw "Invalid cast to Array"
           end
         else
           st ← get_struct a depth rtype;
           match var with
           | V_object vo =>
               (if String.eqb (st_base st) "" then mret tt
                else b ← resolved (st_base st); variant_to_binary fuel b var) ;;
               for_each (st_fields st) (fun f =>
                 match object_find (field_text (field_name f)) vo with
                 | Some v => variant_to_binary fuel (field_type f) v
                 | None => throw "Missing field in variant object"
                 end)
           | _ => throw "Invalid cast to Object"
           end)
  end.

(** The conversions of whole values; what is left of the binary is not looked at. *)
Definition value_of_binary (fuel : nat) (type : type_name) (binary : list Z) : outcome stream (variant L) :=
  binary_to_variant fuel type binary.

Definition binary_of_value (fuel : nat) (type : type_name) (var : variant L) : outcome (list Z) (list Z) :=
  (b ← ended (is_type a depth type);
   if b : bool then
     variant_to_binary fuel type var ;;
     gets (fun w => w)
   else of_result (as_bytes var)) [].
End Conversions.

(** ** The stored form of an abi *)

Definition text_bytes (s : string) : list Z := map (fun c => Z.of_N (N_of_ascii c)) (list_ascii_of_string s).
Definition bytes_text (bs : list Z) : string := string_of_list_ascii (map (fun b => ascii_of_N (Z.to_N b)) bs).

(** The bytes without the zeros they end with. *)
Fixpoint strip_zeros (bs : list Z) : list Z :=
  match bs with
  | [] => []
  | b :: bs => match strip_zeros bs with
               | [] => if b =? 0 then [] else [b]
               | bs => b :: bs
               end
  end.

(** fixed_string of [n] bytes; what is longer is read over. *)
Definition raw_fixed_string (n : nat) : codec string :=
  Codec (fun u =>
      pack unsigned_int (u32 (Z.of_nat (length (text_bytes (fixed_text n u))))) ++ text_bytes (fixed_text n u))
    (size ← unpack unsigned_int;
     if 0 <? size then
       if Z.of_nat n <? size then
         bs ← stream_read n;
         stream_read (Z.to_nat size - n) ;;
         mret (bytes_text (strip_zeros bs))
       else
         bs ← stream_read (Z.to_nat size);
         mret (bytes_text (strip_zeros bs))
     else mret EmptyString)
    (fun u => (length (text_bytes u) <= n)%nat /\ Z.of_nat n < 2 ^ 32 /\ ~ In 0 (text_bytes u)).

Definition raw_type_name : codec type_name := raw_fixed_string 32.
Definition raw_field_name : codec string := raw_fixed_string 16.

(** sizeof is the compiler's. *)
Class AbiSizes := {
  sizeof_type_name : Z;
  sizeof_field_name : Z;
  sizeof_field : Z;
  sizeof_type_def : Z;
  sizeof_struct_t : Z;
  sizeof_action : Z;
  sizeof_table : Z }.

Section Stored.
Context `{AbiSizes}.

Definition raw_type_def : codec type_def :=
  raw_object (fun d => (new_type_name d, td_type d)) (fun '(n, t) => Some (TypeDef n t)) (raw_pair raw_type_name raw_type_name).
Definition raw_field : codec field :=
  raw_object (fun f => (field_name f, field_type f)) (fun '(n, t) => Some (Field n t)) (raw_pair raw_field_name raw_type_name).
Definition raw_struct_t : codec struct_t :=
  raw_object (fun s => (st_name s, (st_base s, st_fields s))) (fun '(n, (b, f)) => Some (Struct n b f))
    (raw_pair raw_type_name (raw_pair raw_type_name (raw_vector sizeof_field raw_field))).
Definition raw_action : codec action :=
  raw_object (fun x => (action_name x, action_type x)) (fun '(n, t) => Some (Action n t)) (raw_pair raw_name raw_type_name).
Definition raw_table : codec table :=
  raw_object (fun t => (table_name t, (index_type t, (key_names t, (key_types t, table_type t)))))
    (fun '(n, (i, (k, (ks, t)))) => Some (Table n i k ks t))
    (raw_pair raw_name (raw_pair raw_type_name (raw_pair (raw_vector sizeof_field_name raw_field_name)
      (raw_pair (raw_vector sizeof_type_name raw_type_name) raw_type_name)))).
Definition raw_abi : codec abi :=
  raw_object (fun d => (types d, (structs d, (actions d, tables d)))) (fun '(t, (s, (x, b))) => Some (Abi t s x b))
    (raw_pair (raw_vector sizeof_type_def raw_type_def) (raw_pair (raw_vector sizeof_struct_t raw_struct_t)
      (raw_pair (raw_vector sizeof_action raw_action) (raw_vector sizeof_table raw_table)))).

(** Four bytes are the packed form of an abi of nothing. *)
Definition is_empty_abi (abi_vec : list Z) : bool := (length abi_vec <=? 4)%nat.

Definition to_abi (abi_vec : list Z) : outcome stream (option abi) :=
  if negb (is_empty_abi abi_vec) then (d ← unpack raw_abi; mret (Some d)) abi_vec else Ret abi_vec None.
End Stored.
