(* ===== verification/BlockPack.v ===== *)
(** Blocks on their way into the chain
    (blockchain/chain/include/block_pack.hpp, block_pack.cpp): a block with
    the builder lists, the slot in the round, the confirmations, and the
    numbers of the last confirmed and of the last irreversible block.

    A method that changes its object takes the object as [self] and returns
    the new one.  [chained] is the step relation of a pack built on another;
    [reachable] is the set of packs built from a first block. *)

From Stdlib Require Import ZArith Lia Bool String List Sorted.
From stdpp Require Import base decidable list.
From S2P Require Import Prelude ChainUtils Block.
Import ListNotations.
Local Open Scope Z_scope.
Local Open Scope result_scope.

Record block_brief := Brief { brief_builder : Z; brief_num : Z; brief_id : sha256 }.

Record block_pack := Pack {
  block_num : Z;
  block_id : sha256;
  new_header : signed_block_header;
  bld_info : builder_info;
  round_slot : Z;
  current_builders : builder_rule;
  new_builders : builder_rule;
  confirmations : list block_confirmation;
  main_chain : bool;
  last_block_num : Z;
  last_confirmed_num : Z;
  last_confirmed_id : sha256;
  irreversible_confirmed : bool;
  dpos_irreversible_num : Z;
  dpos_irreversible_id : sha256;
  last_block_of_builders : list block_brief;
  validated : bool;
  new_round : bool;
  block : option signed_block;
  transactions : list transaction_request }.

Definition default_builder : builder_info := Builder 0 empty_public_key.
Definition default_block : signed_block := SignedBlock default_signed_header [].

Definition new_pack : block_pack := {|
  block_num := 0; block_id := empty_chain_id; new_header := default_signed_header;
  bld_info := default_builder; round_slot := 0; current_builders := empty_rule; new_builders := empty_rule;
  confirmations := []; main_chain := false; last_block_num := 0; last_confirmed_num := 0;
  last_confirmed_id := empty_chain_id; irreversible_confirmed := false; dpos_irreversible_num := 0;
  dpos_irreversible_id := empty_chain_id; last_block_of_builders := []; validated := false;
  new_round := false; block := None; transactions := [] |}.

Definition prev_id (p : block_pack) : sha256 := previous (new_header p).

(** Assignments to one field. *)
Definition with_confirmations (p : block_pack) (c : list block_confirmation) : block_pack :=
  let '(Pack a1 a2 a3 a4 a5 a6 a7 _ a9 a10 a11 a12 a13 a14 a15 a16 a17 a18 a19 a20) := p in
  Pack a1 a2 a3 a4 a5 a6 a7 c a9 a10 a11 a12 a13 a14 a15 a16 a17 a18 a19 a20.
Definition with_main_chain (p : block_pack) (b : bool) : block_pack :=
  let '(Pack a1 a2 a3 a4 a5 a6 a7 a8 _ a10 a11 a12 a13 a14 a15 a16 a17 a18 a19 a20) := p in
  Pack a1 a2 a3 a4 a5 a6 a7 a8 b a10 a11 a12 a13 a14 a15 a16 a17 a18 a19 a20.
Definition with_last_confirmed (p : block_pack) (num : Z) (id : sha256) : block_pack :=
  let '(Pack a1 a2 a3 a4 a5 a6 a7 a8 a9 _ _ _ a13 a14 a15 a16 a17 a18 a19 a20) := p in
  Pack a1 a2 a3 a4 a5 a6 a7 a8 a9 num num id a13 a14 a15 a16 a17 a18 a19 a20.
Definition with_irreversible_confirmed (p : block_pack) (b : bool) : block_pack :=
  let '(Pack a1 a2 a3 a4 a5 a6 a7 a8 a9 a10 a11 a12 _ a14 a15 a16 a17 a18 a19 a20) := p in
  Pack a1 a2 a3 a4 a5 a6 a7 a8 a9 a10 a11 a12 b a14 a15 a16 a17 a18 a19 a20.
Definition with_dpos (p : block_pack) (num : Z) (id : sha256) (l : list block_brief) : block_pack :=
  let '(Pack a1 a2 a3 a4 a5 a6 a7 a8 a9 a10 a11 a12 a13 _ _ _ a17 a18 a19 a20) := p in
  Pack a1 a2 a3 a4 a5 a6 a7 a8 a9 a10 a11 a12 a13 num id l a17 a18 a19 a20.

Definition init_default (self : block_pack) (time : chain_timestamp) (builder : builder_info) (cur_blders : builder_rule) : block_pack :=
  let h := Header empty_chain_id time (trxs_mroot (new_header self)) (builder_name builder) (next_builders (new_header self)) in
  let b := SignedBlock (SignedHeader (Header empty_chain_id time empty_chain_id (builder_name builder) None) empty_signature) [] in
  {| block := Some b;
     new_header := SignedHeader h (builder_signature (new_header self));
     block_num := Block.block_num h;
     bld_info := builder;
     round_slot := 0;
     current_builders := cur_blders;
     main_chain := true;
     validated := false;
     new_round := true;
     block_id := block_id self; new_builders := new_builders self; confirmations := confirmations self;
     last_block_num := last_block_num self; last_confirmed_num := last_confirmed_num self;
     last_confirmed_id := last_confirmed_id self; irreversible_confirmed := irreversible_confirmed self;
     dpos_irreversible_num := dpos_irreversible_num self; dpos_irreversible_id := dpos_irreversible_id self;
     last_block_of_builders := last_block_of_builders self; transactions := transactions self |}.

(** Replace the last element, [back() = x]. *)
Definition set_back {A} (l : list A) (x : A) : list A := removelast l ++ [x].

Definition generate_dpos (self pre_pack : block_pack) : block_pack :=
  let last_brief := Brief (builder (new_header pre_pack)) (block_num pre_pack) (block_id pre_pack) in
  let pre := last_block_of_builders pre_pack in
  match pre with
  | [] =>
      with_dpos self (dpos_irreversible_num pre_pack) (dpos_irreversible_id pre_pack)
        (last_block_of_builders self ++ [last_brief])
  | front :: rest =>
      if brief_builder (List.last pre front) =? builder (new_header pre_pack) then
        with_dpos self (dpos_irreversible_num pre_pack) (dpos_irreversible_id pre_pack) (set_back pre last_brief)
      else if Z.of_nat (length pre) <? dpos_irreversible_need then
        with_dpos self (dpos_irreversible_num pre_pack) (dpos_irreversible_id pre_pack) (pre ++ [last_brief])
      else with_dpos self (brief_num front) (brief_id front) (rest ++ [last_brief])
  end.

Definition init_by_pre_pack (self pre_pack : block_pack) (when : chain_timestamp) (mainchain : bool) : result block_pack :=
  let delta_slot := get_delta_slot_at_time (timestamp (new_header pre_pack)) when in
  let new_slot := u32 (round_slot pre_pack + delta_slot) in
  let* current_builder := select_builder (current_builders pre_pack) (new_builders pre_pack) new_slot in
  let new_round := new_slot >=? blocks_per_round in
  let '(cur, new) :=
    if new_round then
      if negb (is_empty (new_builders pre_pack)) then (new_builders pre_pack, new_builders self)
      else (current_builders pre_pack, new_builders pre_pack)
    else (current_builders pre_pack, new_builders pre_pack) in
  let pack := {|
    block := Some default_block;
    last_block_num := last_block_num pre_pack;
    last_confirmed_num := last_confirmed_num pre_pack;
    last_confirmed_id := last_confirmed_id pre_pack;
    block_num := u32 (block_num pre_pack + 1);
    bld_info := current_builder;
    new_header := SignedHeader (Header (block_id pre_pack) when (trxs_mroot (new_header self))
                                  (builder_name current_builder) (next_builders (new_header self)))
                    (builder_signature (new_header self));
    main_chain := mainchain;
    new_round := new_round;
    round_slot := if new_round then new_slot mod blocks_per_round else new_slot;
    current_builders := cur;
    new_builders := new;
    block_id := block_id self; confirmations := confirmations self;
    irreversible_confirmed := irreversible_confirmed self;
    dpos_irreversible_num := dpos_irreversible_num self; dpos_irreversible_id := dpos_irreversible_id self;
    last_block_of_builders := last_block_of_builders self;
    validated := validated self; transactions := transactions self |} in
  Ok (generate_dpos pack pre_pack).

Definition set_next_builders (self : block_pack) (next : builder_rule) : result block_pack :=
  let* _ := check (u32 (version (current_builders self) + 1) =? version next) "wrong builder version." in
  let* _ := check (number (new_builders self) =? 0) "wrong builder number." in
  let h := new_header self in
  let h := SignedHeader (Header (previous h) (timestamp h) (trxs_mroot h) (builder h) (Some next)) (builder_signature h) in
  let '(Pack a1 a2 _ a4 a5 a6 _ a8 a9 a10 a11 a12 a13 a14 a15 a16 a17 a18 a19 a20) := self in
  Ok (Pack a1 a2 h a4 a5 a6 next a8 a9 a10 a11 a12 a13 a14 a15 a16 a17 a18 a19 a20).

Definition enough_confirmation (p : block_pack) : bool :=
  let minconf := Z.quot (number (current_builders p) * 2) 3 in
  Z.of_nat (length (confirmations p)) >=? minconf.

Section Pack.
Context `{Crypto}.

Definition generate_by_block (self : block_pack) (b : signed_block) (confirmed mainchain irr_confirmed : bool) : block_pack :=
  let '(Pack _ _ _ a4 a5 a6 a7 a8 a9 a10 a11 a12 a13 a14 a15 a16 a17 a18 _ a20) := self in
  let new := match next_builders b with Some next => next | None => a7 end in
  Pack (Block.block_num b) (id b) b a4 a5 a6 new a8 a9 a10 a11 a12 a13 a14 a15 a16 a17 a18 (Some b) a20.

(** [roundslot] is a uint16_t. *)
Definition refresh (self : block_pack) (b : signed_block) (cur_blders new_blders : builder_rule) (roundslot : Z)
    (confirmed mainchain irr_confirmed : bool) : result block_pack :=
  let* current_builder := select_builder cur_blders new_blders roundslot in
  let '(Pack a1 a2 a3 _ _ _ _ a8 a9 a10 a11 a12 a13 a14 a15 a16 a17 a18 a19 a20) := self in
  let p := Pack a1 a2 a3 current_builder roundslot cur_blders new_blders a8 a9 a10 a11 a12 a13 a14 a15 a16 a17 a18 a19 a20 in
  let p := generate_by_block p b confirmed mainchain irr_confirmed in
  let p := with_last_confirmed p (block_num p) (block_id p) in
  let '(Pack a1 a2 a3 a4 a5 a6 a7 a8 a9 a10 a11 a12 _ a14 a15 a16 a17 a18 a19 a20) := p in
  Ok (if confirmed
      then Pack a1 a2 a3 a4 a5 a6 a7 a8 a9 a10 a11 a12 irr_confirmed a14 a15 a16 a17 a18 a19 a20
      else Pack a1 a2 a3 a4 a5 a6 a7 a8 a9 a10 0 empty_chain_id irr_confirmed a14 a15 a16 a17 a18 a19 a20).

(** The loop over [confirmations] returns at the first one. *)
Definition add_confirmation (self : block_pack) (conf : block_confirmation) (skip : Z) : result block_pack :=
  if Z.land skip skip_confirmation =? 0 then
    match confirmations self with
    | _ :: _ => Ok self
    | [] =>
        let key := get_sign_key (current_builders self) (verifier conf) in
        let* valid := conf_is_signer_valid conf key in
        let* _ := check valid "confirmation_validate_exception" in
        Ok (with_confirmations self (confirmations self ++ [conf]))
    end
  else Ok (with_confirmations self (confirmations self ++ [conf])).

(** ** Chains of packs *)

(** A pack built on [pre]: by [init_by_pre_pack], and then from a block with
    that parent, as the fork database does. *)
Inductive chained : block_pack -> block_pack -> Prop :=
| Chained pre (b : signed_block) p mainchain :
    init_by_pre_pack new_pack pre (timestamp b) mainchain = Ok p ->
    previous b = block_id pre ->
    builder b = builder (new_header p) ->
    chained pre (generate_by_block p b false false false).

Inductive reachable : block_pack -> Prop :=
| First time bld rule (b : signed_block) :
    previous b = empty_chain_id -> builder b = builder_name bld ->
    reachable (generate_by_block (init_default new_pack time bld rule) b false true true)
| Next pre p : reachable pre -> block_num pre < 2 ^ 32 - 1 -> chained pre p -> reachable p.
End Pack.

(** ** What the fields keep *)

Record pack_inv (p : block_pack) : Prop := {
  inv_slot : 0 <= round_slot p < blocks_per_round;
  inv_num : 1 <= block_num p < 2 ^ 32;
  inv_id : num_from_id (block_id p) = block_num p;
  inv_dpos : 0 <= dpos_irreversible_num p < block_num p;
  inv_len : Z.of_nat (length (last_block_of_builders p)) <= dpos_irreversible_need;
  inv_sorted : StronglySorted (fun a b => brief_num a < brief_num b) (last_block_of_builders p);
  inv_range : Forall (fun a => dpos_irreversible_num p < brief_num a < block_num p) (last_block_of_builders p);
  inv_turns : Sorted (fun a b => brief_builder a <> brief_builder b) (last_block_of_builders p) }.

(** How the irreversible number and the list of last blocks move. *)
Record dpos_step (pre p : block_pack) : Prop := {
  step_brief : exists l, last_block_of_builders p
    = l ++ [Brief (builder (new_header pre)) (block_num pre) (block_id pre)];
  step_moved : dpos_irreversible_num p = dpos_irreversible_num pre /\ dpos_irreversible_id p = dpos_irreversible_id pre \/
    exists front rest, last_block_of_builders pre = front :: rest /\
      dpos_irreversible_num p = brief_num front /\ dpos_irreversible_id p = brief_id front /\
      Z.of_nat (length (last_block_of_builders p)) = dpos_irreversible_need }.

Lemma with_dpos_fields p n i l :
  let q := with_dpos p n i l in
  dpos_irreversible_num q = n /\ dpos_irreversible_id q = i /\ last_block_of_builders q = l /\
  round_slot q = round_slot p /\ new_header q = new_header p /\ block_num q = block_num p.
Proof. destruct p; repeat split. Qed.

Definition brief_of (p : block_pack) : block_brief := Brief (builder (new_header p)) (block_num p) (block_id p).

(** The invariant of the list alone: [n] is the number of the pack that holds it. *)
Record list_inv (n dpos : Z) (l : list block_brief) : Prop := {
  l_len : Z.of_nat (length l) <= dpos_irreversible_need;
  l_sorted : StronglySorted (fun a b => brief_num a < brief_num b) l;
  l_range : Forall (fun a => dpos < brief_num a < n) l;
  l_turns : Sorted (fun a b => brief_builder a <> brief_builder b) l }.

Lemma range_snoc n d l x :
  Forall (fun a => d < brief_num a < n) l -> brief_num x = n -> d < n ->
  Forall (fun a => d < brief_num a < n + 1) (l ++ [x]).
Proof.
  intros F E D. apply Forall_app. split; [| repeat constructor; lia].
  eapply Forall_impl; [exact F |]. cbn. lia.
Qed.

Lemma list_inv_snoc n d l z x :
  list_inv n d (l ++ [z]) -> brief_num x = n -> brief_builder z <> brief_builder x -> d < n ->
  Z.of_nat (length (l ++ [z])) < dpos_irreversible_need -> list_inv (n + 1) d ((l ++ [z]) ++ [x]).
Proof.
  intros [HL HS HR HT] E N D L. split.
  - rewrite length_app. cbn [length]. lia.
  - apply StronglySorted_snoc; [assumption |]. eapply Forall_impl; [exact HR |]. cbn. lia.
  - apply range_snoc; assumption.
  - apply Sorted_snoc; assumption.
Qed.

Lemma list_inv_replace n d l z x :
  list_inv n d (l ++ [z]) -> brief_num x = n -> brief_builder z = brief_builder x -> d < n ->
  list_inv (n + 1) d (l ++ [x]).
Proof.
  intros [HL HS HR HT] E N D. apply Forall_app in HR as [HR _]. split.
  - rewrite length_app in *. exact HL.
  - apply StronglySorted_snoc; [eapply StronglySorted_app_l; exact HS |]. eapply Forall_impl; [exact HR |]. cbn. lia.
  - apply range_snoc; assumption.
  - eapply Sorted_replace_last; [exact HT |]. cbn. intros a Ha. rewrite <- N. exact Ha.
Qed.

Lemma list_inv_shift n d front rest :
  list_inv n d (front :: rest) -> list_inv n (brief_num front) rest /\ d < brief_num front < n.
Proof.
  intros [HL HS HR HT]. inversion_clear HS as [| ? ? HS' Hf]. apply Sorted_inv in HT as [HT _].
  inversion_clear HR as [| ? ? Hd HR']. split; [| exact Hd]. split; try assumption.
  - cbn [length] in HL. lia.
  - apply Forall_forall. intros a Ha. rewrite Forall_forall in Hf, HR'. specialize (Hf a Ha). specialize (HR' a Ha). lia.
Qed.

Lemma generate_dpos_spec self pre :
  last_block_of_builders self = [] ->
  list_inv (block_num pre) (dpos_irreversible_num pre) (last_block_of_builders pre) ->
  0 <= dpos_irreversible_num pre < block_num pre ->
  let q := generate_dpos self pre in
  list_inv (block_num pre + 1) (dpos_irreversible_num q) (last_block_of_builders q) /\
  dpos_step pre q /\ dpos_irreversible_num pre <= dpos_irreversible_num q <= block_num pre.
Proof.
  intros Hs HI Hd. unfold generate_dpos. fold (brief_of pre). rewrite Hs.
  destruct (last_block_of_builders pre) as [| front rest] eqn:Ep.
  - cbv zeta. destruct (with_dpos_fields self (dpos_irreversible_num pre) (dpos_irreversible_id pre) ([] ++ [brief_of pre]))
      as (-> & Ei & El & _). rewrite El. split; [| split; [split |]]; try lia.
    + split; cbn [app length]; [vm_compute; congruence | repeat constructor..]; cbn; lia.
    + exists []. exact El.
    + left. split; [apply with_dpos_fields | exact Ei].
  - assert (exists i z, front :: rest = i ++ [z]) as (i & z & Ez).
    { destruct (exists_last (l := front :: rest)) as (i & z & E); [discriminate | eauto]. }
    cbv zeta. rewrite Ez in *. rewrite last_last.
    destruct (Z.eqb_spec (brief_builder z) (builder (new_header pre))) as [Eb | Eb].
    + destruct (with_dpos_fields self (dpos_irreversible_num pre) (dpos_irreversible_id pre) (set_back (i ++ [z]) (brief_of pre)))
        as (En & Ei & El & _). unfold set_back in *. rewrite removelast_last in *. rewrite En, El.
      split; [| split; [split |]]; try lia.
      * eapply list_inv_replace; [exact HI | reflexivity | exact Eb | lia].
      * exists i. exact El.
      * left. split; [exact En | exact Ei].
    + destruct (Z.ltb_spec (Z.of_nat (length (i ++ [z]))) dpos_irreversible_need) as [L | L].
      * destruct (with_dpos_fields self (dpos_irreversible_num pre) (dpos_irreversible_id pre) ((i ++ [z]) ++ [brief_of pre]))
          as (En & Ei & El & _). rewrite En, El. split; [| split; [split |]]; try lia.
        -- apply list_inv_snoc; try assumption; [reflexivity | lia].
        -- exists (i ++ [z]). exact El.
        -- left. split; [exact En | exact Ei].
      * destruct (with_dpos_fields self (brief_num front) (brief_id front) (rest ++ [brief_of pre])) as (En & Ei & El & _).
        rewrite En, El. rewrite <- Ez in *. destruct (list_inv_shift _ _ _ _ HI) as [HR Hf].
        pose proof (l_len _ _ _ HI) as HL.
        assert (Hlen : Z.of_nat (length rest) = dpos_irreversible_need - 1) by (cbn [length] in HL, L; lia).
        destruct rest as [| r rest']; [discriminate Hlen |].
        assert (exists j, r :: rest' = j ++ [z]) as [j Ej].
        { destruct i as [| i0 i']; [discriminate Ez |]. injection Ez as _ Ez. exists i'. exact Ez. }
        rewrite Ej in *. split; [| split; [split |]]; try lia.
        -- apply list_inv_snoc; try assumption; [reflexivity | lia | lia].
        -- exists (j ++ [z]). exact El.
        -- right. exists front, (j ++ [z]). split; [exact Ep |]. split; [exact En |]. split; [exact Ei |].
           rewrite El, length_app. cbn [length]. lia.
Qed.

Section Chains.
Context `{Crypto}.
Context (hash_header_word : forall h, word (hash0 (hash_header h))).

Lemma generate_by_block_fields p b c m i :
  let q := generate_by_block p b c m i in
  block_num q = Block.block_num b /\ block_id q = id b /\ round_slot q = round_slot p /\ new_header q = b /\
  dpos_irreversible_num q = dpos_irreversible_num p /\ dpos_irreversible_id q = dpos_irreversible_id p /\
  last_block_of_builders q = last_block_of_builders p.
Proof using. destruct p; repeat split. Qed.

(** What building on a pack computes, apart from the builder lists. *)
Lemma init_by_pre_pack_ok pre t m p :
  init_by_pre_pack new_pack pre t m = Ok p ->
  exists q, p = generate_dpos q pre /\ last_block_of_builders q = [] /\ 0 <= round_slot q < blocks_per_round.
Proof using.
  unfold init_by_pre_pack. intros E. cbv zeta in E. apply bind_ok in E as (b & _ & E).
  destruct (if _ >=? _ then _ else _) as [cur new]. injection E as <-.
  eexists. split; [reflexivity |]. split; [reflexivity |]. cbn [round_slot].
  set (slot := u32 _). assert (0 <= slot) by (apply Z.mod_pos_bound; lia).
  rewrite Z.geb_leb. destruct (Z.leb_spec blocks_per_round slot); [| lia].
  apply Z.mod_pos_bound. reflexivity.
Qed.

Lemma generate_dpos_fields q pre :
  round_slot (generate_dpos q pre) = round_slot q /\ new_header (generate_dpos q pre) = new_header q.
Proof using.
  unfold generate_dpos. destruct (last_block_of_builders pre); cbv zeta; [split; apply with_dpos_fields |].
  destruct (_ =? _); [split; apply with_dpos_fields |]. destruct (_ <? _); split; apply with_dpos_fields.
Qed.

Lemma inv_list p : pack_inv p -> list_inv (block_num p) (dpos_irreversible_num p) (last_block_of_builders p).
Proof using. intros []. split; assumption. Qed.

Lemma chained_spec pre p :
  pack_inv pre -> block_num pre < 2 ^ 32 - 1 -> chained pre p ->
  pack_inv p /\ block_num p = block_num pre + 1 /\ prev_id p = block_id pre /\ dpos_step pre p.
Proof using hash_header_word.
  intros HI Hn HC. destruct HC as [pre b p m E Eprev _].
  apply init_by_pre_pack_ok in E as (q & -> & Hl & Hr).
  destruct (generate_dpos_fields q pre) as [Er _].
  destruct (generate_dpos_spec q pre Hl (inv_list _ HI) (inv_dpos _ HI)) as (HL & HS & HD).
  destruct (generate_by_block_fields (generate_dpos q pre) b false false false) as (Fn & Fi & Fr & Fh & Fd & Fdi & Fl).
  pose proof (inv_num _ HI). pose proof (inv_id _ HI) as Hid.
  assert (En : Block.block_num b = block_num pre + 1).
  { unfold Block.block_num. rewrite Eprev, Hid. unfold u32. apply Z.mod_small. lia. }
  split; [| split; [rewrite Fn; exact En | split; [unfold prev_id; rewrite Fh; exact Eprev |]]].
  - destruct HL as [L1 L2 L3 L4]. pose proof (inv_dpos _ HI). split; rewrite ?Fn, ?Fd, ?Fl, ?Fr, ?Fi, ?En; try assumption; try lia.
    rewrite (id_num hash_header_word). exact En.
  - destruct HS as [S1 S2]. split; rewrite ?Fl, ?Fd, ?Fdi; assumption.
Qed.

Lemma reachable_inv p : reachable p -> pack_inv p.
Proof using hash_header_word.
  induction 1 as [time bld rule b Ep Eb | pre p Hr IH Hn HC]; [| eapply chained_spec; eassumption].
  assert (En : Block.block_num b = 1) by (unfold Block.block_num; rewrite Ep; reflexivity).
  split; cbn; rewrite ?(id_num hash_header_word), ?En;
    first [lia | vm_compute; congruence | vm_compute; split; congruence | apply SSorted_nil | apply Forall_nil | apply Sorted_nil].
  exact I.
Qed.
End Chains.

(** ** Confirmations *)

Section Confirmations.
Context `{Crypto}.

(** Receive confirmations one after the other, none of them exempt. *)
Fixpoint receive (p : block_pack) (confs : list block_confirmation) : result block_pack :=
  match confs with
  | [] => Ok p
  | c :: confs => let* p := add_confirmation p c 0 in receive p confs
  end.

Lemma add_confirmation_fields p c skip q :
  add_confirmation p c skip = Ok q ->
  current_builders q = current_builders p /\ block_num q = block_num p /\ block_id q = block_id p /\
  (confirmations q = confirmations p \/ confirmations q = confirmations p ++ [c]).
Proof using.
  unfold add_confirmation. destruct (_ =? _); [destruct (confirmations p) eqn:Ec |]; intros E; cbv zeta in E; invert_ok.
  - destruct p; cbn in *. subst. auto.
  - auto.
  - destruct p; cbn in *. auto.
Qed.

Lemma receive_bound confs : forall p q,
  receive p confs = Ok q -> (length (confirmations p) <= 1)%nat ->
  (length (confirmations q) <= 1)%nat /\ current_builders q = current_builders p.
Proof using.
  induction confs as [| c confs IH]; intros p q E L; cbn [receive] in E; [injection E as <-; auto |].
  apply bind_ok in E as (p' & E1 & E2).
  assert (L' : (length (confirmations p') <= 1)%nat).
  { unfold add_confirmation in E1. change (Z.land 0 skip_confirmation =? 0) with true in E1. cbv iota in E1.
    destruct (confirmations p) eqn:Ec.
    - cbv zeta in E1. invert_ok. destruct p; cbn. lia.
    - injection E1 as <-. rewrite Ec. exact L. }
  destruct (IH _ _ E2 L') as [L2 B2]. split; [exact L2 |].
  rewrite B2. eapply add_confirmation_fields, E1.
Qed.
End Confirmations.

(** ** Correctness *)


(** Concrete hashes and blocks for the witness. *)
#[local] Instance toy_crypto : Crypto := {|
  private_key := unit;
  hash_transaction _ := empty_chain_id; hash_package _ d := d; hash_receipt _ _ d := d; hash_sig d _ := d;
  hash_header h := Sha 0 0 0 (_stamp (timestamp h)); hash_confirmation d _ := d;
  sign_compact _ _ := empty_signature; recover _ _ := Ok empty_public_key |}.

Definition toy_builder : builder_info := Builder 5 empty_public_key.
Definition toy_rule : builder_rule := Rule 1 [toy_builder].
Definition toy_block (prev : sha256) (t : Z) : signed_block :=
  SignedBlock (SignedHeader (Header prev (Stamp t) empty_chain_id 5 None) empty_signature) [].
Definition toy_first : block_pack :=
  generate_by_block (init_default new_pack (Stamp 100) toy_builder toy_rule) (toy_block empty_chain_id 100) false true true.
Definition toy_second : result block_pack :=
  let b := toy_block (block_id toy_first) 103 in
  let* p := init_by_pre_pack new_pack toy_first (Stamp 103) false in
  Ok (generate_by_block p b false false false).


(** Without the skip flag a pack never holds more than one confirmation,
    so with three builders or more no series of confirmations is ever enough
    to confirm the block. *)
Theorem confirmations_never_enough `{Crypto} p confs q :
  confirmations p = [] -> 3 <= Z.of_nat (length (builders (current_builders p))) < 2 ^ 30 ->
  receive p confs = Ok q -> enough_confirmation q = false.
Proof.
  intros E0 Hn E. destruct (receive_bound confs p q E) as [L B]; [rewrite E0; cbn; lia |].
  unfold enough_confirmation. cbv zeta. rewrite B, number_small by lia.
  rewrite Z.quot_div_nonneg, Z.geb_leb by lia. apply Z.leb_gt.
  apply Z.lt_le_trans with 2; [lia |]. apply Z.div_le_lower_bound; lia.
Qed.

Lemma confirmations_never_enough_witness :
  let r := Rule 1 [Builder 1 empty_public_key; Builder 2 empty_public_key; Builder 3 empty_public_key] in
  let p := with_confirmations (init_default new_pack (Stamp 1) toy_builder r) [] in
  let confs := [Confirmation empty_chain_id 1 empty_signature; Confirmation empty_chain_id 2 empty_signature] in
  exists q, receive p confs = Ok q /\ enough_confirmation q = false.
Proof.
  intros r p confs. destruct (receive p confs) as [q | e] eqn:E; [| discriminate E].
  exists q. split; [reflexivity |].
  apply (confirmations_never_enough p confs q); [reflexivity | vm_compute; split; congruence | exact E].
Defined.
