(* ===== verification/ForkDb.v ===== *)
(** The fork database (blockchain/chain/include/forkchain.hpp, forkchain.cpp):
    the blocks that are not yet irreversible, in a boost multi_index container
    of shared pointers with four indices, and the head.

    A shared pointer is a [nat]; [heap] holds the objects, also those that
    have left the container.  The hashed index is a finite map, each ordered
    non-unique index the list of its pointers in order: an insertion goes to
    the upper bound of its key, and [modify] moves an element only when it is
    no longer in place.  The irreversible handler is a parameter that acts on
    a state [W] of its own and may throw.  Reading or writing the file of the
    destructor is left out, with the path it uses. *)

From Stdlib Require Import ZArith Lia Bool String List Sorted.
From stdpp Require Import base decidable gmap list.
From S2P Require Import Prelude ChainUtils Block BlockPack.
Import ListNotations.
Local Open Scope Z_scope.
Local Open Scope result_scope.

(** ** Orders *)

(** operator< of fc::sha256 is memcmp on the words in memory. *)
Fixpoint memcmp_lt (a b : list Z) : bool :=
  match a, b with
  | x :: a, y :: b => (x <? y) || ((x =? y) && memcmp_lt a b)
  | _, _ => false
  end.
Definition sha_lt (a b : sha256) : bool := memcmp_lt (sha_bytes a) (sha_bytes b).

Definition bool_gt (a b : bool) : bool := a && negb b.

(** The key orders of the three ordered indices. *)
Definition lt_pre_id (p q : block_pack) : bool := sha_lt (prev_id p) (prev_id q).

Definition lt_number_less (p q : block_pack) : bool :=
  (block_num p <? block_num q)
  || ((block_num p =? block_num q) && bool_gt (main_chain p) (main_chain q)).

Definition lt_longest_num (p q : block_pack) : bool :=
  (last_confirmed_num p >? last_confirmed_num q)
  || ((last_confirmed_num p =? last_confirmed_num q)
      && ((dpos_irreversible_num p >? dpos_irreversible_num q)
          || ((dpos_irreversible_num p =? dpos_irreversible_num q)
              && ((block_num p >? block_num q)
                  || ((block_num p =? block_num q) && bool_gt (main_chain p) (main_chain q)))))).

(** ** An ordered non-unique index *)

Definition ptr : Type := nat.

Section Index.
Context (lt : block_pack -> block_pack -> bool) (deref : ptr -> block_pack).

(** Before the first element greater than the new one. *)
Fixpoint idx_insert (p : ptr) (l : list ptr) : list ptr :=
  match l with
  | [] => [p]
  | q :: l => if lt (deref p) (deref q) then p :: q :: l else q :: idx_insert p l
  end.

Fixpoint idx_erase (p : ptr) (l : list ptr) : list ptr :=
  match l with
  | [] => []
  | q :: l => if Nat.eqb p q then l else q :: idx_erase p l
  end.

(** Whether the element is not below its predecessor nor above its successor. *)
Fixpoint in_place (prev : option ptr) (p : ptr) (l : list ptr) : bool :=
  match l with
  | [] => true
  | q :: l =>
      if Nat.eqb p q then
        match prev with Some x => negb (lt (deref p) (deref x)) | None => true end
        && match l with y :: _ => negb (lt (deref y) (deref p)) | [] => true end
      else in_place (Some q) p l
  end.

Definition idx_modify (p : ptr) (l : list ptr) : list ptr :=
  if in_place None p l then l else idx_insert p (idx_erase p l).
End Index.

(** ** State *)

Record fork_context (W : Type) := Fork {
  heap : gmap ptr block_pack;
  fresh : ptr;
  by_block_id : gmap sha256 ptr;
  by_pre_id : list ptr;
  by_number_less : list ptr;
  by_longest_num : list ptr;
  head : option ptr;
  world : W }.
Arguments Fork {W}.
Arguments heap {W}. Arguments fresh {W}. Arguments by_block_id {W}. Arguments by_pre_id {W}.
Arguments by_number_less {W}. Arguments by_longest_num {W}. Arguments head {W}. Arguments world {W}.

Section Fork.
Context `{Crypto} {W : Type} (irreversible : block_pack -> W -> result W).

Definition deref_in (h : gmap ptr block_pack) (p : ptr) : block_pack := default new_pack (h !! p).
Definition deref (c : fork_context W) (p : ptr) : block_pack := deref_in (heap c) p.

Definition empty_context (w : W) : fork_context W := Fork ∅ 0%nat ∅ [] [] [] None w.

(** std::make_shared *)
Definition alloc (c : fork_context W) (b : block_pack) : fork_context W * ptr :=
  (Fork (<[fresh c := b]> (heap c)) (S (fresh c)) (by_block_id c) (by_pre_id c) (by_number_less c)
     (by_longest_num c) (head c) (world c), fresh c).

(** A write through a pointer that touches no key. *)
Definition store (c : fork_context W) (p : ptr) (b : block_pack) : fork_context W :=
  Fork (<[p := b]> (heap c)) (fresh c) (by_block_id c) (by_pre_id c) (by_number_less c)
     (by_longest_num c) (head c) (world c).

(** packs.insert *)
Definition packs_insert (c : fork_context W) (p : ptr) : result (fork_context W) :=
  match by_block_id c !! block_id (deref c p) with
  | Some _ => Throw "unable to insert block state, duplicate state detected"
  | None =>
      Ok (Fork (heap c) (fresh c) (<[block_id (deref c p) := p]> (by_block_id c))
            (idx_insert lt_pre_id (deref c) p (by_pre_id c))
            (idx_insert lt_number_less (deref c) p (by_number_less c))
            (idx_insert lt_longest_num (deref c) p (by_longest_num c)) (head c) (world c))
  end.

(** packs.erase *)
Definition packs_erase (c : fork_context W) (p : ptr) : fork_context W :=
  Fork (heap c) (fresh c) (delete (block_id (deref c p)) (by_block_id c))
    (idx_erase p (by_pre_id c)) (idx_erase p (by_number_less c)) (idx_erase p (by_longest_num c))
    (head c) (world c).

(** packs.modify *)
Definition packs_modify (c : fork_context W) (p : ptr) (f : block_pack -> block_pack) : fork_context W :=
  let h := <[p := f (deref c p)]> (heap c) in
  Fork h (fresh c) (by_block_id c)
    (idx_modify lt_pre_id (deref_in h) p (by_pre_id c))
    (idx_modify lt_number_less (deref_in h) p (by_number_less c))
    (idx_modify lt_longest_num (deref_in h) p (by_longest_num c)) (head c) (world c).

(** ** Operations *)

Definition get_block (c : fork_context W) (id : sha256) : option ptr := by_block_id c !! id.

(** [lower_bound(num)] compares the first part of the key only. *)
Definition get_main_block_by_num (c : fork_context W) (num : Z) : option ptr :=
  match List.find (fun p => negb (block_num (deref c p) <? num)) (by_number_less c) with
  | Some first =>
      if negb (block_num (deref c first) =? num) || negb (main_chain (deref c first)) then None else Some first
  | None => None
  end.

(** [*begin()] of an empty index is undefined behaviour. *)
Definition update_head (c : fork_context W) : result (fork_context W) :=
  match by_longest_num c with
  | p :: _ => Ok (Fork (heap c) (fresh c) (by_block_id c) (by_pre_id c) (by_number_less c) (by_longest_num c) (Some p) (world c))
  | [] => Throw "undefined"
  end.

(** The blocks whose parent is [id], in the order of the index. *)
Definition children (c : fork_context W) (id : sha256) : list ptr :=
  filter (fun p => prev_id (deref c p) = id) (by_pre_id c).

Definition mark (num : Z) (id : sha256) (b : block_pack) : block_pack := with_last_confirmed b num id.

(** The walk over the blocks before [pre_id]. *)
Fixpoint mark_ancestors (fuel : nat) (num : Z) (last_id pre_id : sha256) (c : fork_context W) : result (fork_context W) :=
  match fuel with
  | O => Throw "diverges"
  | S fuel =>
      match by_block_id c !! pre_id with
      | Some pre_it =>
          if bool_decide (pre_id = empty_chain_id) then Ok c
          else
            let pre_id := prev_id (deref c pre_it) in
            mark_ancestors fuel num last_id pre_id (packs_modify c pre_it (mark num last_id))
      | None => Ok c
      end
  end.

(** The list [idlist] with its first [i] elements expanded. *)
Fixpoint descendants (fuel : nat) (c : fork_context W) (idlist : list sha256) (i : nat) : result (list sha256) :=
  match fuel with
  | O => Throw "diverges"
  | S fuel =>
      match nth_error idlist i with
      | Some id => descendants fuel c (idlist ++ map (fun p => block_id (deref c p)) (children c id)) (S i)
      | None => Ok idlist
      end
  end.

Fixpoint mark_all (num : Z) (last_id : sha256) (ids : list sha256) (c : fork_context W) : fork_context W :=
  match ids with
  | [] => c
  | id :: ids =>
      match by_block_id c !! id with
      | Some itr => mark_all num last_id ids (packs_modify c itr (mark num last_id))
      | None => mark_all num last_id ids c
      end
  end.

(** A walk to the parents lowers the block number in each turn, so a number
    is enough fuel for it; the list of descendants holds each block once, so
    the size of the container is enough for it. *)
Definition fuel_num (num : Z) : nat := S (Z.to_nat num).
Definition fuel_size (c : fork_context W) : nat := S (S (length (by_number_less c))).

Definition set_last_confirmed (c : fork_context W) (last_id : sha256) : result (fork_context W) :=
  match by_block_id c !! last_id with
  | None => Throw "unknown block id"
  | Some confirmed_pack =>
      let block_num := block_num (deref c confirmed_pack) in
      let c := packs_modify c confirmed_pack (mark block_num last_id) in
      let pre_id := prev_id (deref c confirmed_pack) in
      let* c := mark_ancestors (fuel_num (num_from_id pre_id)) block_num last_id pre_id c in
      let* idlist := descendants (fuel_size c) c [last_id] 0 in
      Ok (mark_all block_num last_id (tl idlist) c)
  end.

(** The prefix of by_number_less up to [num]. *)
Fixpoint take_until (c : fork_context W) (num : Z) (l : list ptr) : list ptr :=
  match l with
  | [] => []
  | p :: l => if block_num (deref c p) <=? num then p :: take_until c num l else []
  end.

(** The two lists the first loop fills: the confirmed blocks not yet reported,
    and those to remove. *)
Definition scan (c : fork_context W) (last_confirmed_id : sha256) (l : list ptr) : list sha256 * list sha256 :=
  fold_left (fun '(conf, rem) p =>
    let b := deref c p in
    if bool_decide (last_confirmed_id = BlockPack.last_confirmed_id b) then
      (if negb (irreversible_confirmed b) then conf ++ [block_id b] else conf,
       if bool_decide (block_id b <> last_confirmed_id) then rem ++ [block_id b] else rem)
    else (conf, rem ++ [block_id b])) l ([], []).

Fixpoint report (ids : list sha256) (c : fork_context W) : result (fork_context W) :=
  match ids with
  | [] => Ok c
  | id :: ids =>
      match get_block c id with
      | None => Throw "undefined"
      | Some p =>
          let* w := irreversible (deref c p) (world c) in
          let c := Fork (heap c) (fresh c) (by_block_id c) (by_pre_id c) (by_number_less c) (by_longest_num c) (head c) w in
          report ids (store c p (with_irreversible_confirmed (deref c p) true))
      end
  end.

Fixpoint remove_all (ids : list sha256) (c : fork_context W) : fork_context W :=
  match ids with
  | [] => c
  | id :: ids =>
      match by_block_id c !! id with
      | Some itr => remove_all ids (packs_erase c itr)
      | None => remove_all ids c
      end
  end.

Definition on_last_confirmed_grow (c : fork_context W) (last_confirmed_id : sha256) (last_confirmed_num : Z)
    : result (fork_context W) :=
  let '(confiremdlist, remlist) := scan c last_confirmed_id (take_until c last_confirmed_num (by_number_less c)) in
  let* c := report confiremdlist c in
  Ok (remove_all remlist c).

Definition force_confirm (c : fork_context W) (last_confirmed_id : sha256) (last_confirmed_num : Z)
    : result (fork_context W) :=
  let* c := set_last_confirmed c last_confirmed_id in
  on_last_confirmed_grow c last_confirmed_id last_confirmed_num.

(** Insertion and choice of the head, the first half of [add_block]. *)
Definition insert_pack (c : fork_context W) (p : ptr) : result (fork_context W) :=
  match block (deref c p) with
  | None => Throw "undefined"
  | Some b =>
      let* _ := check (bool_decide (block_id (deref c p) = id b)) "block_pack->block_id == block_pack->block->id()" in
      let* c := packs_insert c p in
      update_head c
  end.

Definition add_block_pack (c : fork_context W) (p : ptr) : result (fork_context W) :=
  let* c := insert_pack c p in
  match by_number_less c, head c with
  | earliest :: _, Some h =>
      let e := deref c earliest in
      let hd := deref c h in
      if block_num e <? last_confirmed_num hd then
        on_last_confirmed_grow c (last_confirmed_id hd) (last_confirmed_num hd)
      else if block_num e <? dpos_irreversible_num hd then
        let* c := set_last_confirmed c (dpos_irreversible_id hd) in
        on_last_confirmed_grow c (dpos_irreversible_id (deref c h)) (dpos_irreversible_num (deref c h))
      else Ok c
  | _, _ => Throw "undefined"
  end.

Definition add_block (c : fork_context W) (b : signed_block) : result (fork_context W * ptr) :=
  match by_block_id c !! previous b with
  | None => Throw "previous block not found."
  | Some preblock =>
      let* pack := init_by_pre_pack new_pack (deref c preblock) (timestamp b) false in
      let* _ := check (builder (new_header pack) =? builder b) "block_attack_exception" in
      let* bsign := is_signer_valid b (block_signing_key (bld_info pack)) in
      let* _ := check bsign "block_attack_exception" in
      let pack := generate_by_block pack b false false false in
      let '(c, p) := alloc c pack in
      let* c := add_block_pack c p in
      Ok (c, p)
  end.

(** The inner loop pushes every block from [lower_bound] to the end of the index. *)
Fixpoint remove_chain_loop (fuel : nat) (c : fork_context W) (remove_blocks : list sha256) (i : nat) : result (fork_context W) :=
  match fuel with
  | O => Throw "diverges"
  | S fuel =>
      match nth_error remove_blocks i with
      | None => Ok c
      | Some id =>
          let c := match by_block_id c !! id with Some itr => packs_erase c itr | None => c end in
          let child := filter (fun p => sha_lt (prev_id (deref c p)) id = false) (by_pre_id c) in
          remove_chain_loop fuel c (remove_blocks ++ map (fun p => block_id (deref c p)) child) (S i)
      end
  end.

Definition remove_chain (fuel : nat) (c : fork_context W) (begin_id : sha256) : result (fork_context W) :=
  let* c := remove_chain_loop fuel c [begin_id] 0 in
  update_head c.

Definition add_confirmation (c : fork_context W) (conf : block_confirmation) (skip : Z) : result (fork_context W) :=
  match get_block c (conf_block_id conf) with
  | None => Throw "Unknown block id"
  | Some p =>
      let* b := BlockPack.add_confirmation (deref c p) conf skip in
      let c := store c p b in
      if enough_confirmation b then
        if last_confirmed_num b <? block_num b then set_last_confirmed c (block_id b) else Ok c
      else Ok c
  end.

Definition change_main_chain_flag (c : fork_context W) (id : sha256) (main_chain_flag : bool) : result (fork_context W) :=
  match by_block_id c !! id with
  | None => Throw "block not found in fork database"
  | Some it =>
      if Bool.eqb (main_chain (deref c it)) main_chain_flag then Ok c
      else Ok (packs_modify c it (fun b => with_main_chain b main_chain_flag))
  end.

(** ** The branches of two blocks from their fork *)

Record fetch_branch := Branch { fork_node : ptr; first : list ptr; second : list ptr }.

Definition parent (c : fork_context W) (p : ptr) : result ptr :=
  match get_block c (prev_id (deref c p)) with Some q => Ok q | None => Throw "branch" end.

(** Step down from [p] until its number is not above [num]. *)
Fixpoint descend (fuel : nat) (c : fork_context W) (num : Z) (p : ptr) (acc : list ptr) : result (ptr * list ptr) :=
  match fuel with
  | O => Throw "diverges"
  | S fuel =>
      if block_num (deref c p) >? num then
        let* q := parent c p in descend fuel c num q (acc ++ [p])
      else Ok (p, acc)
  end.

Fixpoint descend_both (fuel : nat) (c : fork_context W) (p1 p2 : ptr) (acc1 acc2 : list ptr)
    : result (ptr * list ptr * list ptr) :=
  match fuel with
  | O => Throw "diverges"
  | S fuel =>
      if bool_decide (block_id (deref c p1) = block_id (deref c p2)) then Ok (p1, acc1, acc2)
      else
        let* q1 := parent c p1 in
        let* q2 := parent c p2 in
        descend_both fuel c q1 q2 (acc1 ++ [p1]) (acc2 ++ [p2])
  end.

Definition fetch_branch_from_fork (c : fork_context W) (firstid secondid : sha256) : result fetch_branch :=
  match get_block c firstid, get_block c secondid with
  | Some b1, Some b2 =>
      let* r := descend (fuel_num (block_num (deref c b1))) c (block_num (deref c b2)) b1 [] in
      let '(b1, l1) := r in
      let* r := descend (fuel_num (block_num (deref c b2))) c (block_num (deref c b1)) b2 [] in
      let '(b2, l2) := r in
      let* _ := check (block_num (deref c b1) =? block_num (deref c b2)) "branch1->block_num == branch2->block_num" in
      let* r := descend_both (fuel_num (block_num (deref c b1))) c b1 b2 l1 l2 in
      let '(b, l1, l2) := r in
      match get_block c (block_id (deref c b)) with
      | Some f => Ok (Branch f l1 l2)
      | None => Throw "branches.fork_node"
      end
  | _, _ => Throw "Unknown block id"
  end.
End Fork.

(** ** The orders are strict weak orders *)

Class KeyOrder (lt : block_pack -> block_pack -> bool) : Prop := {
  ko_asym : forall p q, lt p q = true -> lt q p = false;
  ko_trans : forall p q r, lt q p = false -> lt r q = false -> lt r p = false }.

(** An order given by a condition in linear arithmetic. *)
Lemma key_order_by (lt : block_pack -> block_pack -> bool) (P : block_pack -> block_pack -> Prop) :
  (forall p q, lt p q = true <-> P p q) ->
  (forall p q, P p q -> ~ P q p) -> (forall p q r, ~ P q p -> ~ P r q -> ~ P r p) -> KeyOrder lt.
Proof.
  intros HP HA HT.
  assert (N : forall p q, lt p q = false <-> ~ P p q).
  { intros p q. rewrite <- HP. destruct (lt p q); intuition congruence. }
  split; intros; rewrite ?HP, ?N in *; eauto.
Qed.

Lemma bool_gt_iff a b : bool_gt a b = true <-> Z.b2z a > Z.b2z b.
Proof. destruct a, b; cbn; intuition (try congruence; try lia). Qed.

Lemma lt_number_less_iff p q :
  lt_number_less p q = true <->
  block_num p < block_num q \/ block_num p = block_num q /\ Z.b2z (main_chain p) > Z.b2z (main_chain q).
Proof. unfold lt_number_less. rewrite orb_true_iff, andb_true_iff, bool_gt_iff, Z.ltb_lt, Z.eqb_eq. reflexivity. Qed.

#[export] Instance number_less_order : KeyOrder lt_number_less.
Proof. eapply key_order_by; [apply lt_number_less_iff | |]; cbn; intros; lia. Qed.

Lemma lt_longest_num_iff p q :
  lt_longest_num p q = true <->
  last_confirmed_num p > last_confirmed_num q \/ last_confirmed_num p = last_confirmed_num q /\
  (dpos_irreversible_num p > dpos_irreversible_num q \/ dpos_irreversible_num p = dpos_irreversible_num q /\
   (block_num p > block_num q \/ block_num p = block_num q /\ Z.b2z (main_chain p) > Z.b2z (main_chain q))).
Proof.
  unfold lt_longest_num. rewrite !orb_true_iff, !andb_true_iff, !orb_true_iff, !andb_true_iff, !orb_true_iff,
    !andb_true_iff, bool_gt_iff, !Z.gtb_ltb, !Z.ltb_lt, !Z.eqb_eq. intuition lia.
Qed.

#[export] Instance longest_num_order : KeyOrder lt_longest_num.
Proof. eapply key_order_by; [apply lt_longest_num_iff | |]; cbn; intros; lia. Qed.

Lemma memcmp_lt_iff a : forall b,
  bytes a -> bytes b -> length a = length b -> memcmp_lt a b = true <-> be_val a < be_val b.
Proof.
  induction a as [| x a IH]; intros [| y b] Ha Hb L; try discriminate; [cbn; intuition (congruence || lia) |].
  inversion_clear Ha; inversion_clear Hb. injection L as L. cbn [memcmp_lt].
  rewrite orb_true_iff, andb_true_iff, Z.ltb_lt, Z.eqb_eq, IH, !be_val_cons, L by assumption.
  pose proof (be_val_range a ltac:(assumption)). pose proof (be_val_range b ltac:(assumption)). rewrite L in *.
  unfold Bnd in *. set (P := 256 ^ Z.of_nat (length b)) in *. split; [intros [? | [-> ?]]; nia |].
  intros. destruct (Z.lt_trichotomy x y) as [? | [? | ?]]; [auto | subst; right; split; [reflexivity | lia] | nia].
Qed.

Lemma sha_bytes_ok h : bytes (sha_bytes h) /\ length (sha_bytes h) = 32%nat.
Proof.
  split; [| reflexivity]. unfold sha_bytes, bytes. rewrite !List.Forall_app. repeat split; apply slices_bytes.
Qed.

#[export] Instance pre_id_order : KeyOrder lt_pre_id.
Proof.
  apply key_order_by with (P := fun p q => be_val (sha_bytes (prev_id p)) < be_val (sha_bytes (prev_id q))); [| lia..].
  intros p q. unfold lt_pre_id, sha_lt. destruct (sha_bytes_ok (prev_id p)), (sha_bytes_ok (prev_id q)).
  apply memcmp_lt_iff; congruence.
Qed.

(** ** The indices *)

Section IndexLemmas.
Context (lt : block_pack -> block_pack -> bool) `{KeyOrder lt}.

(** Neighbours are in order. *)
Definition ordered (deref : ptr -> block_pack) : list ptr -> Prop :=
  Sorted (fun p q => lt (deref q) (deref p) = false).

Lemma ordered_strong deref l : ordered deref l -> StronglySorted (fun p q => lt (deref q) (deref p) = false) l.
Proof using H. apply Sorted_StronglySorted. intros p q r. apply ko_trans. Qed.

Lemma idx_insert_perm deref p l : Permutation (idx_insert lt deref p l) (p :: l).
Proof using.
  induction l as [| q l IH]; cbn [idx_insert]; [reflexivity |].
  destruct (lt _ _); [reflexivity |]. rewrite IH. constructor.
Qed.

Lemma idx_insert_ordered deref p l : ordered deref l -> ordered deref (idx_insert lt deref p l).
Proof using H.
  unfold ordered. induction 1 as [| q l Hl IH Hq]; cbn [idx_insert]; [repeat constructor |].
  destruct (lt (deref p) (deref q)) eqn:E.
  - constructor; [constructor; assumption |]. constructor. apply ko_asym, E.
  - constructor; [exact IH |]. destruct l as [| r l]; cbn [idx_insert]; [constructor; exact E |].
    inversion_clear Hq. destruct (lt (deref p) (deref r)); constructor; assumption.
Qed.

Lemma idx_erase_perm p l : p ∈ l -> Permutation l (p :: idx_erase p l).
Proof using.
  induction l as [| q l IH]; intros E; [inversion E |]. cbn [idx_erase].
  destruct (Nat.eqb_spec p q) as [-> | N]; [reflexivity |].
  apply elem_of_cons in E as [-> | E]; [congruence |]. rewrite (IH E) at 1. constructor.
Qed.

Lemma ordered_ext deref deref' l :
  (forall p, p ∈ l -> deref' p = deref p) -> ordered deref l -> ordered deref' l.
Proof using.
  unfold ordered. intros E. induction 1 as [| q l Hl IH Hq]; constructor.
  - apply IH. intros p Hp. apply E. right. exact Hp.
  - destruct Hq as [| r l Hr]; constructor. rewrite !E; [exact Hr | left | right; left].
Qed.

Lemma idx_erase_ordered deref p l : ordered deref l -> ordered deref (idx_erase p l).
Proof using H.
  intros S. apply ordered_strong in S. apply StronglySorted_Sorted.
  induction S as [| q l Hl IH Hq]; cbn [idx_erase]; [constructor |].
  destruct (Nat.eqb_spec p q) as [-> | N]; [exact Hl |]. constructor; [exact IH |].
  destruct (decide (p ∈ l)) as [E | E].
  - rewrite (idx_erase_perm p l E) in Hq. inversion_clear Hq. assumption.
  - assert (idx_erase p l = l) as ->; [| exact Hq]. clear - E. induction l as [| r l IH]; [reflexivity |]. cbn [idx_erase].
    destruct (Nat.eqb_spec p r) as [-> | N]; [exfalso; apply E; left | rewrite IH; [reflexivity | intros X; apply E; right; exact X]].
Qed.

Lemma idx_modify_perm deref p l : p ∈ l -> Permutation (idx_modify lt deref p l) l.
Proof using.
  intros E. unfold idx_modify. destruct (in_place _ _ _ _ _); [reflexivity |].
  rewrite idx_insert_perm. symmetry. apply idx_erase_perm, E.
Qed.

(** An element in place leaves the index ordered under its new value. *)
Lemma in_place_ordered deref deref' p l : forall prev,
  NoDup l -> p ∈ l -> (forall q, q <> p -> deref' q = deref q) ->
  match prev with Some x => x <> p /\ HdRel (fun p q => lt (deref q) (deref p) = false) x l | None => True end ->
  ordered deref l -> in_place lt deref' prev p l = true ->
  ordered deref' l /\ match prev with Some x => HdRel (fun p q => lt (deref' q) (deref' p) = false) x l | None => True end.
Proof using.
  unfold ordered. induction l as [| q l IH]; intros prev N E D P S I; [inversion E |].
  apply NoDup_cons in N as [Nq N]. apply Sorted_inv in S as [S Hq]. cbn [in_place] in I.
  destruct (Nat.eqb_spec p q) as [<- | Npq].
  - apply andb_true_iff in I as [I1 I2]. split.
    + constructor.
      * apply (ordered_ext deref); [| exact S]. intros r Hr. apply D. intros ->. contradiction.
      * destruct l as [| y l]; constructor. apply negb_true_iff, I2.
    + destruct prev as [x |]; [| exact I]. constructor. apply negb_true_iff, I1.
  - apply elem_of_cons in E as [E | E]; [congruence |].
    destruct (IH (Some q)) as [S' H']; try assumption; [split; [congruence | exact Hq] |].
    split; [constructor; assumption |].
    destruct prev as [x |]; [| exact Logic.I]. destruct P as [Nx Hx]. inversion_clear Hx as [| ? ? R]. constructor.
    rewrite !D by congruence. exact R.
Qed.

Lemma idx_modify_ordered deref deref' p l :
  NoDup l -> p ∈ l -> (forall q, q <> p -> deref' q = deref q) ->
  ordered deref l -> ordered deref' (idx_modify lt deref' p l).
Proof using H.
  intros N E D S. unfold idx_modify. destruct (in_place lt deref' None p l) eqn:I.
  - eapply (in_place_ordered deref deref' p l None); eauto.
  - apply idx_insert_ordered. apply (ordered_ext deref); [| apply idx_erase_ordered, S].
    rewrite (idx_erase_perm p l E) in N. apply NoDup_cons in N as [N _].
    intros q Hq. apply D. intros ->. contradiction.
Qed.

(** The first element of the index is not beaten by any other. *)
Lemma ordered_first deref p l q :
  ordered deref (p :: l) -> q ∈ p :: l -> lt (deref q) (deref p) = false.
Proof using H.
  intros S%ordered_strong E. inversion_clear S as [| ? ? _ F]. apply elem_of_cons in E as [-> | E].
  - destruct (lt (deref p) (deref p)) eqn:X; [| reflexivity]. pose proof (ko_asym _ _ X). congruence.
  - rewrite List.Forall_forall in F. apply F, list_elem_of_In, E.
Qed.
End IndexLemmas.
