(* ===== verification/ForkDbInv.v ===== *)
(** Consistency of the fork database: the four indices of ForkDb hold the
    same blocks, each in its order, and every operation keeps it so. *)

From Stdlib Require Import ZArith Lia Bool String List Sorted.
From stdpp Require Import base decidable gmap list.
From S2P Require Import Prelude ChainUtils Block BlockPack ForkDb.
Import ListNotations.
Local Open Scope Z_scope.

Section Inv.
Context `{Crypto} {W : Type}.
Implicit Types c : fork_context W.

Definition member c (p : ptr) : Prop := exists id, by_block_id c !! id = Some p.

Definition indexed c (lt : block_pack -> block_pack -> bool) (l : list ptr) : Prop :=
  NoDup l /\ (forall p, p ∈ l <-> member c p) /\ ordered lt (deref c) l.

Record wf c : Prop := {
  wf_id : forall id p, by_block_id c !! id = Some p ->
            (p < fresh c)%nat /\ is_Some (heap c !! p) /\ block_id (deref c p) = id;
  wf_pre : indexed c lt_pre_id (by_pre_id c);
  wf_num : indexed c lt_number_less (by_number_less c);
  wf_long : indexed c lt_longest_num (by_longest_num c) }.

Lemma member_lookup c p : wf c -> member c p <-> by_block_id c !! block_id (deref c p) = Some p.
Proof using.
  intros Hc. split; [| intros E; eexists; exact E].
  intros [id E]. destruct (wf_id c Hc id p E) as (_ & _ & <-). exact E.
Qed.

Lemma same_id c p q : wf c -> member c p -> member c q -> block_id (deref c p) = block_id (deref c q) -> p = q.
Proof using. intros Hc Hp Hq E. rewrite member_lookup in Hp, Hq by assumption. congruence. Qed.

Lemma wf_empty (w : W) : wf (empty_context w).
Proof using.
  assert (I : forall lt, indexed (empty_context w) lt []).
  { intros lt. split; [constructor |]. split; [| constructor]. intros p. split; [intros X; inversion X |].
    intros [id E]. cbn in E. rewrite lookup_empty in E. discriminate. }
  split; auto. intros id p E. cbn in E. rewrite lookup_empty in E. discriminate.
Qed.

(** ** The primitive steps *)

(** Two contexts with the same container and the same objects in it. *)
Record same_packs c c' : Prop := {
  sp_id : by_block_id c' = by_block_id c;
  sp_pre : by_pre_id c' = by_pre_id c;
  sp_num : by_number_less c' = by_number_less c;
  sp_long : by_longest_num c' = by_longest_num c;
  sp_fresh : (fresh c <= fresh c')%nat;
  sp_heap : forall p, member c p -> is_Some (heap c' !! p) /\
    block_id (deref c' p) = block_id (deref c p) /\ prev_id (deref c' p) = prev_id (deref c p) /\
    block_num (deref c' p) = block_num (deref c p) /\ main_chain (deref c' p) = main_chain (deref c p) /\
    last_confirmed_num (deref c' p) = last_confirmed_num (deref c p) /\
    dpos_irreversible_num (deref c' p) = dpos_irreversible_num (deref c p) }.

Lemma ordered_keys c c' lt l :
  (forall p q, p ∈ l -> q ∈ l -> lt (deref c' q) (deref c' p) = lt (deref c q) (deref c p)) ->
  ordered lt (deref c) l -> ordered lt (deref c') l.
Proof using.
  unfold ordered. intros E. induction 1 as [| p l Hl IH Hp]; constructor.
  - apply IH. intros x y Hx Hy. apply E; right; assumption.
  - destruct Hp as [| q l Hq]; constructor. rewrite E; [exact Hq | left | right; left].
Qed.

Lemma wf_same_packs c c' : wf c -> same_packs c c' -> wf c'.
Proof using.
  intros Hc [Si Sp Sn Sl Sf Sh].
  assert (Hm : forall p, member c' p <-> member c p) by (intros p; unfold member; rewrite Si; reflexivity).
  assert (I : forall lt l, (forall p q, member c p -> member c q -> lt (deref c' q) (deref c' p) = lt (deref c q) (deref c p)) ->
            indexed c lt l -> indexed c' lt l).
  { intros lt l K (N & M & O). split; [exact N |]. split; [intros p; rewrite Hm; apply M |].
    eapply ordered_keys; [| exact O]. intros p q Hp Hq. apply K; apply M; assumption. }
  split.
  - intros id p E. rewrite Si in E. destruct (wf_id c Hc id p E) as (A & B & C).
    destruct (Sh p (ex_intro _ id E)) as (D & F & _). split; [lia |]. split; [exact D | congruence].
  - rewrite Sp. apply I; [| apply Hc]. intros p q Hp Hq. unfold lt_pre_id.
    destruct (Sh p Hp) as (_ & _ & -> & _), (Sh q Hq) as (_ & _ & -> & _). reflexivity.
  - rewrite Sn. apply I; [| apply Hc]. intros p q Hp Hq. unfold lt_number_less.
    destruct (Sh p Hp) as (_ & _ & _ & -> & -> & _), (Sh q Hq) as (_ & _ & _ & -> & -> & _). reflexivity.
  - rewrite Sl. apply I; [| apply Hc]. intros p q Hp Hq. unfold lt_longest_num.
    destruct (Sh p Hp) as (_ & _ & _ & -> & -> & -> & ->), (Sh q Hq) as (_ & _ & _ & -> & -> & -> & ->). reflexivity.
Qed.

Lemma wf_alloc c b : wf c -> wf (alloc c b).1 /\ (forall q, member (alloc c b).1 q <-> member c q) /\
  heap (alloc c b).1 !! (alloc c b).2 = Some b /\ ((alloc c b).2 < fresh (alloc c b).1)%nat.
Proof using.
  intros Hc. unfold alloc. cbn [fst snd heap fresh]. split; [| split; [reflexivity | split; [apply lookup_insert_eq | lia]]].
  apply (wf_same_packs c); [exact Hc |]. split; cbn; try reflexivity; [lia |].
  intros p [id E]. destruct (wf_id c Hc id p E) as (A & B & _).
  unfold deref, deref_in. cbn. rewrite lookup_insert_ne by lia. repeat split; try reflexivity. exact B.
Qed.

(** The state of the handler and the head are not part of the container. *)
Lemma wf_context c h w :
  wf c -> wf (Fork (heap c) (fresh c) (by_block_id c) (by_pre_id c) (by_number_less c) (by_longest_num c) h w).
Proof using.
  intros Hc. apply (wf_same_packs c); [exact Hc |]. split; try reflexivity.
  intros p [id E]. destruct (wf_id c Hc id p E) as (_ & B & _). repeat split; exact B.
Qed.

Lemma deref_store c p b q : deref (store c p b) q = if decide (q = p) then b else deref c q.
Proof using.
  unfold deref, deref_in, store. cbn. destruct (decide (q = p)) as [-> | N].
  - rewrite lookup_insert_eq. reflexivity.
  - rewrite lookup_insert_ne by congruence. reflexivity.
Qed.

Lemma wf_store c p b :
  wf c -> block_id b = block_id (deref c p) -> prev_id b = prev_id (deref c p) ->
  block_num b = block_num (deref c p) -> main_chain b = main_chain (deref c p) ->
  last_confirmed_num b = last_confirmed_num (deref c p) ->
  dpos_irreversible_num b = dpos_irreversible_num (deref c p) -> wf (store c p b).
Proof using.
  intros Hc. intros. apply (wf_same_packs c); [exact Hc |]. split; try reflexivity.
  intros q [id E]. rewrite deref_store. destruct (wf_id c Hc id q E) as (_ & B & _). split.
  - cbn. destruct (decide (q = p)) as [-> | N]; [rewrite lookup_insert_eq; eauto | rewrite lookup_insert_ne by congruence; exact B].
  - destruct (decide (q = p)) as [-> | N]; auto 10.
Qed.

Lemma indexed_insert c c' lt `{KeyOrder lt} p l :
  indexed c lt l -> ~ member c p -> (forall q, deref c' q = deref c q) ->
  (forall q, member c' q <-> q = p \/ member c q) -> indexed c' lt (idx_insert lt (deref c) p l).
Proof using.
  intros (N & M & O) Hp D Hm. pose proof (idx_insert_perm lt (deref c) p l) as P. split; [| split].
  - rewrite P. constructor; [rewrite M; exact Hp | exact N].
  - intros q. rewrite P, elem_of_cons, M, Hm. reflexivity.
  - apply (ordered_ext _ (deref c)); [intros q _; apply D |]. apply idx_insert_ordered; assumption.
Qed.

Lemma packs_insert_spec c p c' :
  wf c -> is_Some (heap c !! p) -> (p < fresh c)%nat -> packs_insert c p = Ok c' ->
  wf c' /\ heap c' = heap c /\ fresh c' = fresh c /\ head c' = head c /\ world c' = world c /\
  (forall q, member c' q <-> q = p \/ member c q) /\ ~ member c p.
Proof using.
  intros Hc Hh Hf E. unfold packs_insert in E.
  destruct (by_block_id c !! block_id (deref c p)) eqn:L; [discriminate |].
  assert (Hp : ~ member c p) by (intros X; apply member_lookup in X; [congruence | exact Hc]).
  injection E as <-.
  set (c' := Fork _ _ _ _ _ _ _ _).
  assert (Hm : forall q, member c' q <-> q = p \/ member c q).
  { intros q. unfold member. cbn. split.
    - intros [id E]. apply lookup_insert_Some in E as [[_ <-] | [_ E]]; eauto.
    - intros [-> | [id E]]; [exists (block_id (deref c p)); apply lookup_insert_eq |].
      exists id. rewrite lookup_insert_ne; [exact E |]. intros <-. congruence. }
  split; [| repeat split; try apply Hm; exact Hp].
  split.
  - intros id q E. cbn in E. apply lookup_insert_Some in E as [[<- <-] | [_ E]]; [auto |]. apply (wf_id c Hc), E.
  - apply (indexed_insert c c'); try assumption; try reflexivity; try apply Hc. typeclasses eauto.
  - apply (indexed_insert c c'); try assumption; try reflexivity; try apply Hc. typeclasses eauto.
  - apply (indexed_insert c c'); try assumption; try reflexivity; try apply Hc. typeclasses eauto.
Qed.

Lemma indexed_erase c c' lt `{KeyOrder lt} p l :
  indexed c lt l -> member c p -> (forall q, deref c' q = deref c q) ->
  (forall q, member c' q <-> q <> p /\ member c q) -> indexed c' lt (idx_erase p l).
Proof using.
  intros (N & M & O) Hp D Hm. pose proof (idx_erase_perm p l (proj2 (M p) Hp)) as P.
  rewrite P in N at 1. apply NoDup_cons in N as [Np N]. split; [exact N |]. split.
  - intros q. assert (E : q ∈ l <-> q = p \/ q ∈ idx_erase p l) by (rewrite P at 1; apply elem_of_cons).
    rewrite Hm, <- M, E. destruct (decide (q = p)) as [-> | Nq]; intuition congruence.
  - apply (ordered_ext _ (deref c)); [intros q _; apply D |]. apply idx_erase_ordered; assumption.
Qed.

Lemma packs_erase_spec c p :
  wf c -> member c p ->
  wf (packs_erase c p) /\ (forall q, member (packs_erase c p) q <-> q <> p /\ member c q).
Proof using.
  intros Hc Hp.
  assert (Hm : forall q, member (packs_erase c p) q <-> q <> p /\ member c q).
  { intros q. unfold member. cbn. split.
    - intros [id E]. apply lookup_delete_Some in E as [N E]. split; [| eauto]. intros ->.
      destruct (wf_id c Hc id p E) as (_ & _ & X). congruence.
    - intros [N [id E]]. exists id. rewrite lookup_delete_ne; [exact E |]. intros <-.
      apply (member_lookup c p Hc) in Hp. congruence. }
  split; [| exact Hm]. split.
  - intros id q E. cbn in E. apply lookup_delete_Some in E as [_ E]. apply (wf_id c Hc), E.
  - apply (indexed_erase c); try assumption; try reflexivity; try apply Hc. typeclasses eauto.
  - apply (indexed_erase c); try assumption; try reflexivity; try apply Hc. typeclasses eauto.
  - apply (indexed_erase c); try assumption; try reflexivity; try apply Hc. typeclasses eauto.
Qed.

Lemma deref_modify c p f q :
  deref (packs_modify c p f) q = if decide (q = p) then f (deref c p) else deref c q.
Proof using.
  unfold deref, deref_in, packs_modify. cbn. destruct (decide (q = p)) as [-> | N].
  - rewrite lookup_insert_eq. reflexivity.
  - rewrite lookup_insert_ne by congruence. reflexivity.
Qed.

Lemma indexed_modify c c' lt `{KeyOrder lt} p l :
  indexed c lt l -> member c p -> (forall q, q <> p -> deref c' q = deref c q) ->
  (forall q, member c' q <-> member c q) -> indexed c' lt (idx_modify lt (deref c') p l).
Proof using.
  intros (N & M & O) Hp D Hm. pose proof (idx_modify_perm lt (deref c') p l (proj2 (M p) Hp)) as P.
  split; [rewrite P; exact N |]. split; [intros q; rewrite P, M, Hm; reflexivity |].
  apply (idx_modify_ordered lt (deref c)); try assumption. apply M, Hp.
Qed.

Lemma packs_modify_spec c p f :
  wf c -> member c p -> (forall b, block_id (f b) = block_id b) ->
  wf (packs_modify c p f) /\ (forall q, member (packs_modify c p f) q <-> member c q).
Proof using.
  intros Hc Hp Hf. assert (Hm : forall q, member (packs_modify c p f) q <-> member c q) by reflexivity.
  assert (D : forall q, q <> p -> deref (packs_modify c p f) q = deref c q)
    by (intros q N; rewrite deref_modify; destruct (decide (q = p)); [contradiction | reflexivity]).
  split; [| exact Hm]. split.
  - intros id q E. cbn in E. destruct (wf_id c Hc id q E) as (A & B & C). split; [exact A |].
    rewrite deref_modify. change (heap (packs_modify c p f)) with (<[p := f (deref c p)]> (heap c)).
    destruct (decide (q = p)) as [-> | N].
    + rewrite lookup_insert_eq, decide_True by reflexivity. split; [eauto | rewrite Hf; exact C].
    + rewrite lookup_insert_ne, decide_False by congruence. auto.
  - apply (indexed_modify c); try assumption; try apply Hc. typeclasses eauto.
  - apply (indexed_modify c); try assumption; try apply Hc. typeclasses eauto.
  - apply (indexed_modify c); try assumption; try apply Hc. typeclasses eauto.
Qed.

Lemma update_head_spec c c' :
  wf c -> update_head c = Ok c' ->
  wf c' /\ (forall q, member c' q <-> member c q) /\ (forall q, deref c' q = deref c q) /\
  exists h, head c' = Some h /\ member c' h /\
    forall q, member c' q -> lt_longest_num (deref c' q) (deref c' h) = false.
Proof using.
  intros Hc E. unfold update_head in E. destruct (by_longest_num c) as [| h l] eqn:El; [discriminate |].
  injection E as <-. rewrite <- El. split; [apply wf_context, Hc |]. split; [reflexivity |]. split; [reflexivity |].
  destruct (wf_long c Hc) as (_ & M & O). exists h. split; [reflexivity |]. split.
  - change (member c h). apply M. rewrite El. left.
  - intros q Hq. rewrite El in *. apply (ordered_first lt_longest_num (deref c) h l q O), M, Hq.
Qed.

(** ** Numbers *)

(** The number of a block is in its id, and one more than the number in the
    id of its parent. *)
Definition numbered_block (b : block_pack) : Prop :=
  num_from_id (block_id b) = block_num b /\ block_num b = num_from_id (prev_id b) + 1.
Definition numbered c : Prop := forall p, member c p -> numbered_block (deref c p).

Lemma num_from_id_range i : 0 <= num_from_id i.
Proof using. apply reverse_range. Qed.

(** [par c p q]: q is the parent of p. *)
Definition par c (p q : ptr) : Prop := member c p /\ by_block_id c !! prev_id (deref c p) = Some q.

Lemma par_num c p q : wf c -> numbered c -> par c p q -> member c q /\ block_num (deref c p) = block_num (deref c q) + 1.
Proof using.
  intros Hc Hn [Hp E]. assert (Hq : member c q) by (eexists; exact E). split; [exact Hq |].
  destruct (wf_id c Hc _ _ E) as (_ & _ & Ei). destruct (Hn p Hp) as [_ ->]. destruct (Hn q Hq) as [<- _]. congruence.
Qed.

(** ** Marking blocks *)

(** [c'] is [c] with the blocks of [S] marked. *)
Record marked (num : Z) (i : sha256) (S : ptr -> Prop) c c' : Prop := {
  mk_wf : wf c';
  mk_id : by_block_id c' = by_block_id c;
  mk_rest : fresh c' = fresh c /\ head c' = head c /\ world c' = world c;
  mk_deref : forall q, S q /\ deref c' q = mark num i (deref c q) \/ ~ S q /\ deref c' q = deref c q }.

Lemma mark_keeps num i b :
  block_id (mark num i b) = block_id b /\ prev_id (mark num i b) = prev_id b /\ block_num (mark num i b) = block_num b.
Proof using. destruct b; auto. Qed.

Lemma mark_mark num i b : mark num i (mark num i b) = mark num i b.
Proof using. destruct b; reflexivity. Qed.

Lemma marked_ids num i S c c' q : marked num i S c c' ->
  block_id (deref c' q) = block_id (deref c q) /\ prev_id (deref c' q) = prev_id (deref c q) /\
  block_num (deref c' q) = block_num (deref c q) /\ (member c' q <-> member c q).
Proof using.
  intros [_ Ei _ D]. unfold member. rewrite Ei.
  destruct (D q) as [[_ ->] | [_ ->]]; [pose proof (mark_keeps num i (deref c q)) as (-> & -> & ->) |]; auto 10.
Qed.

Lemma marked_numbered num i S c c' : marked num i S c c' -> numbered c -> numbered c'.
Proof using.
  intros M Hn p Hp. destruct (marked_ids _ _ _ _ _ p M) as (E1 & E2 & E3 & E4).
  unfold numbered_block. rewrite E1, E2, E3. apply Hn, E4, Hp.
Qed.

Lemma marked_refl num i c : wf c -> marked num i (fun _ => False) c c.
Proof using. intros Hc. split; auto. Qed.

Lemma marked_trans num i S1 S2 S c1 c2 c3 :
  marked num i S1 c1 c2 -> marked num i S2 c2 c3 -> (forall q, S q <-> S1 q \/ S2 q) -> marked num i S c1 c3.
Proof using.
  intros [W1 I1 (F1 & H1 & V1) D1] [W2 I2 (F2 & H2 & V2) D2] HS. split; [exact W2 | congruence | repeat split; congruence |].
  intros q. specialize (HS q). destruct (D1 q) as [[A1 E1] | [A1 E1]], (D2 q) as [[A2 E2] | [A2 E2]].
  - left. rewrite E2, E1, mark_mark. tauto.
  - left. rewrite E2, E1. tauto.
  - left. rewrite E2, E1. tauto.
  - right. rewrite E2, E1. tauto.
Qed.

Lemma marked_ext num i S S' c c' : (forall q, S q <-> S' q) -> marked num i S c c' -> marked num i S' c c'.
Proof using. intros E [A B C D]. split; try assumption. intros q. rewrite <- E. apply D. Qed.

Lemma marked_one num i c p : wf c -> member c p -> marked num i (eq p) c (packs_modify c p (mark num i)).
Proof using.
  intros Hc Hp. destruct (packs_modify_spec c p (mark num i) Hc Hp (fun b => proj1 (mark_keeps num i b))) as [Hw _].
  split; [exact Hw | reflexivity | auto |].
  intros q. rewrite deref_modify. destruct (decide (q = p)) as [-> | N]; [left; auto | right; split; congruence].
Qed.

(** The blocks met when walking from the id [i] to the parents. *)
Inductive above c : sha256 -> ptr -> Prop :=
| above_here i p : i <> empty_chain_id -> by_block_id c !! i = Some p -> above c i p
| above_next i r p : i <> empty_chain_id -> by_block_id c !! i = Some r -> above c (prev_id (deref c r)) p -> above c i p.

Lemma above_marked num i S c c' j p : marked num i S c c' -> above c' j p <-> above c j p.
Proof using.
  intros M. pose proof (mk_id _ _ _ _ _ M) as Ei. split; induction 1 as [j p N E | j r p N E _ IH].
  - apply above_here; congruence.
  - destruct (marked_ids _ _ _ _ _ r M) as (_ & Ep & _). rewrite Ep in IH. eapply above_next; [exact N | rewrite <- Ei; exact E | exact IH].
  - apply above_here; congruence.
  - destruct (marked_ids _ _ _ _ _ r M) as (_ & Ep & _). rewrite <- Ep in IH. eapply above_next; [exact N | rewrite Ei; exact E | exact IH].
Qed.

Lemma mark_ancestors_spec num i fuel : forall c j,
  wf c -> numbered c -> num_from_id j < Z.of_nat fuel ->
  exists c', mark_ancestors fuel num i j c = Ok c' /\ marked num i (above c j) c c'.
Proof using.
  induction fuel as [| fuel IH]; intros c j Hc Hn Hf; [pose proof (num_from_id_range j); lia |].
  cbn [mark_ancestors]. destruct (by_block_id c !! j) as [r |] eqn:E.
  - case_bool_decide as N.
    + exists c. split; [reflexivity |]. eapply marked_ext; [| apply marked_refl, Hc].
      intros q. split; [contradiction | intros A; inversion A; contradiction].
    + cbv zeta. assert (Hr : member c r) by (eexists; exact E).
      pose proof (marked_one num i c r Hc Hr) as M1.
      destruct (Hn r Hr) as [En1 En2]. destruct (wf_id c Hc j r E) as (_ & _ & Ej).
      destruct (IH (packs_modify c r (mark num i)) (prev_id (deref c r)) (mk_wf _ _ _ _ _ M1)
                  (marked_numbered _ _ _ _ _ M1 Hn)) as (c' & E' & M2); [rewrite <- Ej in Hf; lia |].
      exists c'. split; [exact E' |]. eapply marked_trans; [exact M1 | exact M2 |].
      intros q. rewrite (above_marked _ _ _ _ _ _ _ M1). split.
      * intros A. inversion A as [? ? _ Eq | ? r' ? _ Eq A']; [left; congruence |].
        right. assert (r' = r) as -> by congruence. exact A'.
      * intros [<- | A]; [apply above_here; assumption | eapply above_next; eassumption].
  - exists c. split; [reflexivity |]. eapply marked_ext; [| apply marked_refl, Hc].
    intros q. split; [contradiction | intros A; inversion A; congruence].
Qed.

Lemma mark_all_spec num i ids : forall c,
  wf c -> marked num i (fun q => exists j, j ∈ ids /\ by_block_id c !! j = Some q) c (mark_all num i ids c).
Proof using.
  induction ids as [| j ids IH]; intros c Hc; cbn [mark_all].
  - eapply marked_ext; [| apply marked_refl, Hc]. intros q. split; [contradiction | intros (x & X & _); inversion X].
  - destruct (by_block_id c !! j) as [r |] eqn:E.
    + pose proof (marked_one num i c r Hc (ex_intro _ j E)) as M1.
      eapply marked_trans; [exact M1 | apply IH, M1 |]. intros q. rewrite (mk_id _ _ _ _ _ M1). split.
      * intros (x & X & Ex). apply elem_of_cons in X as [-> | X]; [left; congruence | right; eauto].
      * intros [<- | (x & X & Ex)]; [exists j; split; [left | exact E] | exists x; split; [right; exact X | exact Ex]].
    + eapply marked_ext; [| apply IH, Hc]. intros q. split.
      * intros (x & X & Ex). exists x. split; [right; exact X | exact Ex].
      * intros (x & X & Ex). apply elem_of_cons in X as [-> | X]; [congruence | eauto].
Qed.

(** ** Descendants *)

(** The blocks that have the block of id [root] before them. *)
Inductive below c (root : sha256) : ptr -> Prop :=
| below_child p : member c p -> prev_id (deref c p) = root -> below c root p
| below_step q p : below c root q -> member c p -> prev_id (deref c p) = block_id (deref c q) -> below c root p.

Lemma below_member c root p : below c root p -> member c p.
Proof using. destruct 1; assumption. Qed.

Lemma below_num c root p : numbered c -> below c root p -> num_from_id root < block_num (deref c p).
Proof using.
  intros Hn. induction 1 as [p Hp E | q p Hq IH Hp E]; destruct (Hn p Hp) as [_ ->]; rewrite E; [lia |].
  destruct (Hn q (below_member _ _ _ Hq)) as [-> _]. lia.
Qed.

Lemma below_marked num i S c c' root p : marked num i S c c' -> below c' root p <-> below c root p.
Proof using.
  intros M. pose proof (fun q => marked_ids _ _ _ _ _ q M) as K.
  split; induction 1 as [p Hp E | q p Hq IH Hp E]; destruct (K p) as (_ & Ep & _ & Em).
  - apply below_child; [apply Em, Hp | congruence].
  - destruct (K q) as (Eq & _). apply (below_step _ _ q); [exact IH | apply Em, Hp | congruence].
  - apply below_child; [apply Em, Hp | congruence].
  - destruct (K q) as (Eq & _). apply (below_step _ _ q); [exact IH | apply Em, Hp | congruence].
Qed.

Lemma elem_of_children c i p : wf c -> p ∈ children c i <-> member c p /\ prev_id (deref c p) = i.
Proof using.
  intros Hc. unfold children. rewrite list_elem_of_filter. destruct (wf_pre c Hc) as (_ & M & _). rewrite M. tauto.
Qed.

Definition id_of c (p : ptr) : sha256 := block_id (deref c p).

Lemma NoDup_ids c l : wf c -> NoDup l -> (forall p, p ∈ l -> member c p) -> NoDup (map (id_of c) l).
Proof using.
  intros Hc. induction l as [| p l IH]; intros N M; cbn [map]; [constructor |].
  apply NoDup_cons in N as [Np N]. constructor.
  - intros X. apply list_elem_of_fmap in X as (q & E & Hq).
    apply (same_id c p q Hc) in E; [subst q; contradiction | apply M; left | apply M; right; exact Hq].
  - apply IH; [exact N |]. intros q Hq. apply M. right. exact Hq.
Qed.

(** What the list of ids satisfies when its first [i] elements are expanded. *)
Record expanding c (root : sha256) (rest : list sha256) (i : nat) : Prop := {
  ex_nodup : NoDup (root :: rest);
  ex_below : forall x, x ∈ rest -> exists p, below c root p /\ id_of c p = x /\ prev_id (deref c p) ∈ firstn i (root :: rest);
  ex_closed : forall p, member c p -> prev_id (deref c p) ∈ firstn i (root :: rest) -> id_of c p ∈ rest }.

Lemma expanding_length c root rest i :
  wf c -> expanding c root rest i -> (length rest <= length (by_number_less c))%nat.
Proof using.
  intros Hc [N B _]. apply NoDup_cons in N as [_ N].
  rewrite <- (length_map (id_of c) (by_number_less c)). apply submseteq_length, NoDup_submseteq; [exact N |].
  intros x Hx. destruct (B x Hx) as (p & Hp & <- & _). apply list_elem_of_fmap. exists p. split; [reflexivity |].
  apply (wf_num c Hc). eapply below_member, Hp.
Qed.

Lemma nth_error_firstn_notin {A} (l : list A) i x : NoDup l -> nth_error l i = Some x -> x ∉ firstn i l.
Proof using.
  revert i. induction l as [| y l IH]; intros [| i] N E; cbn in *; try discriminate; [intros X; inversion X |].
  apply NoDup_cons in N as [Ny N]. intros X. apply elem_of_cons in X as [-> | X]; [| apply (IH i N E X)].
  apply Ny. apply nth_error_In in E. apply list_elem_of_In, E.
Qed.

Lemma firstn_S_nth {A} (l : list A) i x : nth_error l i = Some x -> firstn (S i) l = firstn i l ++ [x].
Proof using.
  revert i. induction l as [| y l IH]; intros [| i] E; try discriminate; [injection E as ->; reflexivity |].
  change (y :: firstn (S i) l = y :: (firstn i l ++ [x])). f_equal. apply IH, E.
Qed.

Lemma expanding_step c root rest i x :
  wf c -> numbered c -> expanding c root rest i -> nth_error (root :: rest) i = Some x ->
  expanding c root (rest ++ map (id_of c) (children c x)) (S i).
Proof using.
  intros Hc Hn HE Ex. pose proof HE as [N B C].
  assert (Hx : x = root \/ exists q, below c root q /\ id_of c q = x).
  { pose proof (nth_error_In _ _ Ex) as [-> | X]; [auto |]. right. destruct (B x) as (q & Hq & E & _); [apply list_elem_of_In, X | eauto]. }
  assert (Hch : forall p, p ∈ children c x -> below c root p /\ prev_id (deref c p) = x).
  { intros p Hp. apply elem_of_children in Hp as [Hp E]; [| exact Hc]. split; [| exact E].
    destruct Hx as [-> | (q & Hq & <-)]; [apply below_child; assumption | eapply below_step; eassumption]. }
  assert (Hi : (i < length (root :: rest))%nat) by (apply nth_error_Some; congruence).
  assert (Hf : forall m, firstn (S i) (root :: rest ++ m) = firstn i (root :: rest) ++ [x]).
  { intros m. rewrite <- (firstn_S_nth _ _ _ Ex). change (root :: rest ++ m) with ((root :: rest) ++ m).
    rewrite firstn_app. replace (S i - length (root :: rest))%nat with 0%nat by lia. rewrite app_nil_r. reflexivity. }
  split.
  - change (root :: rest ++ _) with ((root :: rest) ++ map (id_of c) (children c x)). apply NoDup_app. split; [exact N |]. split.
    + intros y Hy X. apply list_elem_of_fmap in X as (p & -> & Hp). destruct (Hch p Hp) as [Hb Epr].
      apply elem_of_cons in Hy as [Er | Hy].
      * pose proof (below_num c root p Hn Hb). destruct (Hn p (below_member _ _ _ Hb)) as [En _]. unfold id_of in Er. rewrite Er in En. lia.
      * destruct (B _ Hy) as (p' & Hb' & E' & Hpr). apply (same_id c p' p Hc) in E'; [subst p' | eapply below_member; eassumption..].
        rewrite Epr in Hpr. eapply nth_error_firstn_notin; eassumption.
    + apply NoDup_ids; [exact Hc | | intros p Hp; eapply below_member, Hch, Hp].
      unfold children. apply NoDup_filter, (wf_pre c Hc).
  - intros y Hy. rewrite Hf. apply elem_of_app in Hy as [Hy | Hy].
    + destruct (B y Hy) as (p & Hp & E & F). exists p. split; [exact Hp |]. split; [exact E |]. apply elem_of_app. auto.
    + apply list_elem_of_fmap in Hy as (p & -> & Hp). destruct (Hch p Hp) as [Hb Epr]. exists p.
      split; [exact Hb |]. split; [reflexivity |]. apply elem_of_app. right. rewrite Epr. left.
  - intros p Hp F. rewrite Hf in F. apply elem_of_app in F as [F | F].
    + apply elem_of_app. left. apply C; assumption.
    + apply list_elem_of_singleton in F. apply elem_of_app. right. apply list_elem_of_fmap. exists p.
      split; [reflexivity |]. apply elem_of_children; auto.
Qed.

Lemma descendants_spec c root fuel : forall rest i,
  wf c -> numbered c -> expanding c root rest i -> (i <= S (length rest))%nat ->
  (fuel + i = fuel_size c)%nat ->
  exists rest', descendants fuel c (root :: rest) i = Ok (root :: rest') /\
    forall p, below c root p <-> member c p /\ id_of c p ∈ rest'.
Proof using.
  induction fuel as [| fuel IH]; intros rest i Hc Hn HE Hi Hf.
  - pose proof (expanding_length _ _ _ _ Hc HE). unfold fuel_size in Hf. lia.
  - cbn [descendants]. destruct (nth_error (root :: rest) i) as [x |] eqn:Ex.
    + destruct (IH _ _ Hc Hn (expanding_step _ _ _ _ _ Hc Hn HE Ex)) as (rest' & E & P); [| lia | eauto].
      assert (i < length (root :: rest))%nat by (apply nth_error_Some; congruence). rewrite length_app. cbn [length] in *. lia.
    + apply nth_error_None in Ex. exists rest. split; [reflexivity |]. destruct HE as [N B C].
      rewrite (firstn_all2 (root :: rest)) in C by exact Ex. intros p. split.
      * intros Hb. split; [eapply below_member, Hb |].
        induction Hb as [p Hp E | q p Hq IHq Hp E]; apply C; try assumption; rewrite E; [left | right; exact IHq].
      * intros [Hp Hr]. destruct (B _ Hr) as (p' & Hb & E & _). apply (same_id c p' p Hc) in E; [subst p'; exact Hb | eapply below_member, Hb | exact Hp].
Qed.

Lemma expanding_start c root : expanding c root [] 0.
Proof using.
  split; [apply NoDup_singleton | intros x X; inversion X | intros p _ X; inversion X].
Qed.

(** ** set_last_confirmed *)

(** The blocks a confirmation of [p] marks: itself, those before it and those
    after it. *)
Definition related c (p q : ptr) : Prop :=
  q = p \/ above c (prev_id (deref c p)) q \/ below c (id_of c p) q.

Lemma set_last_confirmed_spec c i p :
  wf c -> numbered c -> by_block_id c !! i = Some p ->
  exists c', set_last_confirmed c i = Ok c' /\ marked (block_num (deref c p)) i (related c p) c c'.
Proof using.
  intros Hc Hn E. unfold set_last_confirmed. rewrite E. cbv zeta. set (num := block_num (deref c p)).
  assert (Hp : member c p) by (eexists; exact E). destruct (wf_id c Hc i p E) as (_ & _ & Ei).
  pose proof (marked_one num i c p Hc Hp) as M1. set (c1 := packs_modify c p (mark num i)) in *.
  destruct (marked_ids _ _ _ _ _ p M1) as (_ & Epr & _). rewrite Epr.
  destruct (mark_ancestors_spec num i (fuel_num (num_from_id (prev_id (deref c p)))) c1 (prev_id (deref c p)) (mk_wf _ _ _ _ _ M1)
              (marked_numbered _ _ _ _ _ M1 Hn)) as (c2 & E2 & M2).
  { unfold fuel_num. pose proof (num_from_id_range (prev_id (deref c p))). lia. }
  rewrite E2. cbn [bind].
  assert (M12 : marked num i (fun q => q = p \/ above c (prev_id (deref c p)) q) c c2).
  { eapply marked_trans; [exact M1 | exact M2 |]. intros q. rewrite (above_marked _ _ _ _ _ _ _ M1). intuition congruence. }
  destruct (descendants_spec c2 i (fuel_size c2) [] 0 (mk_wf _ _ _ _ _ M12) (marked_numbered _ _ _ _ _ M12 Hn)
              (expanding_start c2 i)) as (rest & E3 & P3); [cbn; lia | lia |].
  rewrite E3. cbn [bind tl]. eexists. split; [reflexivity |].
  eapply marked_trans; [exact M12 | apply mark_all_spec, M12 |].
  intros q. unfold related. rewrite <- (below_marked _ _ _ _ _ (id_of c p) q M12).
  assert (Eid : id_of c p = i) by exact Ei. rewrite Eid, P3.
  split.
  - intros [-> | [A | [Hq R]]]; [auto | auto |]. right. exists (id_of c2 q). split; [exact R |].
    apply (member_lookup c2 q (mk_wf _ _ _ _ _ M12)), Hq.
  - intros [[-> | A] | (j & Hj & Ej)]; [auto | auto |]. right. right.
    destruct (wf_id c2 (mk_wf _ _ _ _ _ M12) j q Ej) as (_ & _ & Eq). split; [exists j; exact Ej |]. unfold id_of. rewrite Eq. exact Hj.
Qed.
End Inv.
