(* ===== verification/ForkDbThm.v ===== *)
(** What the operations of the fork database guarantee: consistency of the
    container along any history, the choice of the head, the blocks a
    confirmation marks, the blocks reported irreversible and dropped, and the
    branches of two blocks from their fork. *)

From Stdlib Require Import ZArith Lia Bool String List Sorted.
From stdpp Require Import base decidable gmap list.
From S2P Require Import Prelude ChainUtils Block BlockPack ForkDb ForkDbInv.
Import ListNotations.
Local Open Scope Z_scope.
Local Open Scope result_scope.

Section Thm.
Context `{Crypto} {W : Type} (irreversible : block_pack -> W -> result W).
Implicit Types c : fork_context W.

(** ** Dropping what lies below the last confirmed block *)

(** In the index by number, the prefix the scan reads is every block up to [n]. *)
Lemma take_until_elem c n l p :
  ordered lt_number_less (deref c) l -> p ∈ take_until c n l <-> p ∈ l /\ block_num (deref c p) <= n.
Proof using.
  intros O%ordered_strong; [| typeclasses eauto]. induction O as [| q l Hl IH Hq]; cbn [take_until].
  - split; [intros X; inversion X | intros [X _]; inversion X].
  - destruct (Z.leb_spec (block_num (deref c q)) n) as [L | L].
    + rewrite !elem_of_cons, IH. intuition (subst; auto).
    + split; [intros X; inversion X |]. intros [X Hn]. exfalso. apply elem_of_cons in X as [-> | X]; [lia |].
      rewrite List.Forall_forall in Hq. specialize (Hq p (proj1 (list_elem_of_In _ _) X)).
      assert (lt_number_less (deref c p) (deref c q) = true) by (apply lt_number_less_iff; lia). congruence.
Qed.

Lemma take_until_prefix c n l : exists m, l = take_until c n l ++ m.
Proof using.
  induction l as [| q l [m IH]]; cbn [take_until]; [exists []; reflexivity |].
  destruct (_ <=? _); [exists m; cbn; f_equal; exact IH | exists (q :: l); reflexivity].
Qed.

Definition confirmed_by c (i : sha256) (p : ptr) : Prop :=
  i = last_confirmed_id (deref c p) /\ irreversible_confirmed (deref c p) = false.
Definition dropped_by c (i : sha256) (p : ptr) : Prop :=
  ~ (i = last_confirmed_id (deref c p) /\ id_of c p = i).

#[local] Instance confirmed_dec c i p : Decision (confirmed_by c i p).
Proof. unfold confirmed_by. solve_decision. Defined.
#[local] Instance dropped_dec c i p : Decision (dropped_by c i p).
Proof. unfold dropped_by. solve_decision. Defined.

Lemma scan_spec c i l :
  scan c i l = (map (id_of c) (filter (confirmed_by c i) l), map (id_of c) (filter (dropped_by c i) l)).
Proof using.
  unfold scan.
  assert (G : forall a b, fold_left (fun '(conf, rem) p =>
    let b := deref c p in
    if bool_decide (i = last_confirmed_id b) then
      (if negb (irreversible_confirmed b) then conf ++ [block_id b] else conf,
       if bool_decide (block_id b <> i) then rem ++ [block_id b] else rem)
    else (conf, rem ++ [block_id b])) l (a, b)
    = (a ++ map (id_of c) (filter (confirmed_by c i) l), b ++ map (id_of c) (filter (dropped_by c i) l))).
  { induction l as [| p l IH]; intros a b; cbn [fold_left]; [rewrite !app_nil_r; reflexivity |]. cbv zeta.
    rewrite !filter_cons.
    destruct (decide (confirmed_by c i p)) as [X | X], (decide (dropped_by c i p)) as [Y | Y];
      unfold confirmed_by, dropped_by, id_of in X, Y;
      (case_bool_decide as E1; [destruct (irreversible_confirmed (deref c p)) eqn:E2; case_bool_decide as E3 |]);
      cbn [negb]; try solve [exfalso; intuition congruence];
      rewrite IH; cbn [map]; rewrite <- ?app_assoc; reflexivity. }
  apply G.
Qed.

(** The handler on a list of blocks. *)
Fixpoint run_handler (bs : list block_pack) (w : W) : result W :=
  match bs with
  | [] => Ok w
  | b :: bs => let* w := irreversible b w in run_handler bs w
  end.

(** [c'] is [c] after the blocks [ps] were reported. *)
Record reported (ps : list ptr) (w : W) c c' : Prop := {
  rp_packs : same_packs c c';
  rp_head : head c' = head c;
  rp_world : world c' = w;
  rp_deref : forall q, deref c' q = if decide (q ∈ ps) then with_irreversible_confirmed (deref c q) true else deref c q }.

Lemma irr_keeps b t :
  block_id (with_irreversible_confirmed b t) = block_id b /\ prev_id (with_irreversible_confirmed b t) = prev_id b /\
  block_num (with_irreversible_confirmed b t) = block_num b /\ main_chain (with_irreversible_confirmed b t) = main_chain b /\
  last_confirmed_num (with_irreversible_confirmed b t) = last_confirmed_num b /\
  dpos_irreversible_num (with_irreversible_confirmed b t) = dpos_irreversible_num b /\
  last_confirmed_id (with_irreversible_confirmed b t) = last_confirmed_id b /\
  irreversible_confirmed (with_irreversible_confirmed b t) = t.
Proof using. destruct b; repeat split. Qed.

Lemma same_packs_trans c1 c2 c3 : same_packs c1 c2 -> same_packs c2 c3 -> same_packs c1 c3.
Proof using.
  intros [A1 A2 A3 A4 A5 A6] [B1 B2 B3 B4 B5 B6]. split; try congruence; [lia |].
  intros p Hp. assert (Hp' : member c2 p) by (destruct Hp as [x E]; exists x; congruence).
  destruct (A6 p Hp) as (_ & ? & ? & ? & ? & ? & ?), (B6 p Hp') as (? & ? & ? & ? & ? & ? & ?).
  split; [assumption |]. repeat split; congruence.
Qed.

Lemma report_one c p w :
  wf c -> member c p ->
  reported [p] w c (store (Fork (heap c) (fresh c) (by_block_id c) (by_pre_id c) (by_number_less c) (by_longest_num c) (head c) w)
                      p (with_irreversible_confirmed (deref c p) true)).
Proof using.
  intros Hc Hp. split; try reflexivity.
  - split; try reflexivity. intros q [x E]. destruct (wf_id c Hc x q E) as (_ & B & _). rewrite deref_store. split.
    + cbn. destruct (decide (q = p)) as [-> | N]; [rewrite lookup_insert_eq; eauto | rewrite lookup_insert_ne by congruence; exact B].
    + destruct (decide (q = p)) as [-> | N]; [destruct (irr_keeps (deref c p) true) as (?&?&?&?&?&?&_); auto 10 | auto 10].
  - intros q. rewrite deref_store. destruct (decide (q = p)) as [-> | N].
    + rewrite decide_True by left. reflexivity.
    + rewrite decide_False; [reflexivity |]. intros X. apply list_elem_of_singleton in X. contradiction.
Qed.

Lemma reported_app ps qs w w' c1 c2 c3 :
  reported ps w c1 c2 -> reported qs w' c2 c3 -> reported (ps ++ qs) w' c1 c3.
Proof using.
  intros [A1 A2 A3 A4] [B1 B2 B3 B4]. split; [eapply same_packs_trans; eassumption | congruence | assumption |].
  intros q. rewrite B4, A4. destruct (decide (q ∈ ps)) as [I | I], (decide (q ∈ qs)) as [J | J].
  - rewrite decide_True by (apply elem_of_app; auto). destruct (deref c1 q); reflexivity.
  - rewrite decide_True by (apply elem_of_app; auto). reflexivity.
  - rewrite decide_True by (apply elem_of_app; auto). reflexivity.
  - rewrite decide_False; [reflexivity |]. intros X%elem_of_app. tauto.
Qed.

Lemma report_spec ps : forall c,
  wf c -> NoDup ps -> (forall p, p ∈ ps -> member c p) ->
  match run_handler (map (deref c) ps) (world c) with
  | Ok w => exists c', report irreversible (map (id_of c) ps) c = Ok c' /\ reported ps w c c'
  | Throw e => report irreversible (map (id_of c) ps) c = Throw e
  end.
Proof using.
  induction ps as [| p ps IH]; intros c Hc N M; cbn [map run_handler report].
  - exists c. split; [reflexivity |]. split; [| reflexivity.. |].
    2: { intros q. rewrite decide_False; [reflexivity | intros X; inversion X]. }
    split; try reflexivity. intros q [x E]. destruct (wf_id c Hc x q E) as (_ & B & _). auto 10.
  - assert (Hp : member c p) by (apply M; left). apply NoDup_cons in N as [Np N].
    assert (G : get_block c (id_of c p) = Some p) by (apply member_lookup; assumption). rewrite G.
    destruct (irreversible (deref c p) (world c)) as [w | e]; cbn [bind]; [| reflexivity].
    pose proof (report_one c p w Hc Hp) as R1. cbv zeta.
    set (c1 := store _ p _) in *. change (deref (Fork _ _ _ _ _ _ _ w) p) with (deref c p) in c1.
    assert (Hc1 : wf c1) by (eapply wf_same_packs; [exact Hc | apply R1]).
    assert (D : forall q, q ∈ ps -> deref c1 q = deref c q).
    { intros q Hq. rewrite (rp_deref _ _ _ _ R1), decide_False; [reflexivity |].
      intros X. apply list_elem_of_singleton in X. subst q. contradiction. }
    specialize (IH c1 Hc1 N).
    replace (map (deref c) ps) with (map (deref c1) ps)
      by (apply map_ext_in; intros q Hq; apply D, list_elem_of_In, Hq).
    replace (map (id_of c) ps) with (map (id_of c1) ps)
      by (apply map_ext_in; intros q Hq; unfold id_of; rewrite D by (apply list_elem_of_In, Hq); reflexivity).
    assert (Mp : forall q, q ∈ ps -> member c1 q).
    { intros q Hq. destruct (M q) as [x E]; [right; exact Hq |]. exists x. exact E. }
    specialize (IH Mp). change (world c1) with w in IH.
    destruct (run_handler (map (deref c1) ps) w) as [w' | e]; [| exact IH].
    destruct IH as (c' & E & R). exists c'. split; [exact E |]. apply (reported_app [p] ps w w' c c1 c'); assumption.
Qed.

Lemma remove_all_spec rs : forall c,
  wf c -> NoDup rs -> (forall p, p ∈ rs -> member c p) ->
  let c' := remove_all (map (id_of c) rs) c in
  wf c' /\ head c' = head c /\ world c' = world c /\ fresh c' = fresh c /\ heap c' = heap c /\
  (forall q, member c' q <-> member c q /\ q ∉ rs).
Proof using.
  induction rs as [| p rs IH]; intros c Hc N M; cbn [map remove_all]; cbv zeta.
  - split_and!; try reflexivity; [exact Hc |]. intros q. split; [| tauto]. intros Hq. split; [exact Hq | intros X; inversion X].
  - assert (Hp : member c p) by (apply M; left). apply NoDup_cons in N as [Np N].
    assert (G : by_block_id c !! id_of c p = Some p) by (apply member_lookup; assumption). rewrite G.
    destruct (packs_erase_spec c p Hc Hp) as [Hc1 Hm].
    change (map (id_of c) rs) with (map (id_of (packs_erase c p)) rs).
    destruct (IH (packs_erase c p) Hc1 N) as (A & B & C & D & E & F).
    { intros q Hq. apply Hm. split; [intros -> ; contradiction | apply M; right; exact Hq]. }
    split_and!; try assumption. intros q. rewrite F, Hm, elem_of_cons. tauto.
Qed.

Lemma StronglySorted_filter {A} (R : A -> A -> Prop) (P : A -> Prop) `{forall x, Decision (P x)} l :
  StronglySorted R l -> StronglySorted R (filter P l).
Proof using.
  induction 1 as [| x l Hl IH Hx]; [constructor |]. rewrite filter_cons. case_decide; [| exact IH].
  constructor; [exact IH |]. rewrite List.Forall_forall in *. intros y Hy%list_elem_of_In.
  apply list_elem_of_filter in Hy as [_ Hy]. apply Hx, list_elem_of_In, Hy.
Qed.

(** The blocks reported when the last confirmed block is [i] with number [n]. *)
Definition to_report c (i : sha256) (n : Z) : list ptr :=
  filter (confirmed_by c i) (take_until c n (by_number_less c)).

Lemma to_report_spec c i n :
  wf c ->
  NoDup (to_report c i n) /\ StronglySorted (fun p q => block_num (deref c p) <= block_num (deref c q)) (to_report c i n) /\
  forall p, p ∈ to_report c i n <-> member c p /\ block_num (deref c p) <= n /\ confirmed_by c i p.
Proof using.
  intros Hc. destruct (wf_num c Hc) as (N & M & O). destruct (take_until_prefix c n (by_number_less c)) as [m Em].
  unfold to_report. split; [| split].
  - apply NoDup_filter. rewrite Em in N. apply NoDup_app in N. tauto.
  - apply StronglySorted_filter. pose proof (ordered_strong _ _ _ O) as S. rewrite Em in S. apply StronglySorted_app_l in S.
    clear - S. induction S as [| p l Hl IH Hp]; constructor; [exact IH |]. eapply List.Forall_impl; [| exact Hp].
    cbn. intros q Hq. destruct (Z.le_gt_cases (block_num (deref c p)) (block_num (deref c q))) as [L | L]; [exact L | exfalso].
    assert (lt_number_less (deref c q) (deref c p) = true) by (apply lt_number_less_iff; lia). congruence.
  - intros p. rewrite list_elem_of_filter, take_until_elem, M by exact O. tauto.
Qed.

Lemma grow_spec c i n :
  wf c ->
  match run_handler (map (deref c) (to_report c i n)) (world c) with
  | Throw e => on_last_confirmed_grow irreversible c i n = Throw e
  | Ok w =>
      exists c', on_last_confirmed_grow irreversible c i n = Ok c' /\ wf c' /\ head c' = head c /\ world c' = w /\
        (forall q, member c' q <-> member c q /\ (n < block_num (deref c q) \/ ~ dropped_by c i q)) /\
        (forall q, deref c' q = if decide (q ∈ to_report c i n) then with_irreversible_confirmed (deref c q) true else deref c q)
  end.
Proof using.
  intros Hc. unfold on_last_confirmed_grow. rewrite scan_spec.
  destruct (wf_num c Hc) as (N & M & O). destruct (to_report_spec c i n Hc) as (Np & _ & Mp).
  fold (to_report c i n).
  pose proof (report_spec (to_report c i n) c Hc Np (fun p Hp => proj1 (proj1 (Mp p) Hp))) as R.
  destruct (run_handler _ _) as [w | e]; [| rewrite R; reflexivity].
  destruct R as (c1 & E1 & R1). rewrite E1. cbn [bind].
  set (rs := filter (dropped_by c i) (take_until c n (by_number_less c))).
  assert (Hc1 : wf c1) by (eapply wf_same_packs; [exact Hc | apply R1]).
  assert (Hm1 : forall q, member c1 q <-> member c q) by (intros q; unfold member; rewrite (sp_id _ _ (rp_packs _ _ _ _ R1)); reflexivity).
  assert (Mr : forall q, q ∈ rs <-> dropped_by c i q /\ member c q /\ block_num (deref c q) <= n)
    by (intros q; unfold rs; rewrite list_elem_of_filter, take_until_elem, M by exact O; tauto).
  replace (map (id_of c) rs) with (map (id_of c1) rs).
  2: { apply map_ext_in. intros q Hq%list_elem_of_In%Mr.
       apply (sp_heap _ _ (rp_packs _ _ _ _ R1)), Hq. }
  destruct (remove_all_spec rs c1 Hc1) as (A & B & C & _ & E & F).
  - unfold rs. apply NoDup_filter. destruct (take_until_prefix c n (by_number_less c)) as [m Em].
    rewrite Em in N. apply NoDup_app in N. tauto.
  - intros q Hq%Mr. apply Hm1, Hq.
  - eexists. split; [reflexivity |]. split; [exact A |]. split; [rewrite B; apply R1 |]. split; [rewrite C; apply R1 |].
    split.
    + intros q. rewrite F, Hm1, Mr.
      destruct (decide (dropped_by c i q)), (Z.le_gt_cases (block_num (deref c q)) n); intuition lia.
    + intros q. unfold deref at 1, deref_in. rewrite E. apply (rp_deref _ _ _ _ R1).
Qed.

Lemma grow_wf c i n c' :
  wf c -> numbered c -> on_last_confirmed_grow irreversible c i n = Ok c' -> wf c' /\ numbered c' /\ head c' = head c.
Proof using.
  intros Hc Hn E. pose proof (grow_spec c i n Hc) as G. rewrite E in G.
  destruct (run_handler _ _) as [w | e]; [| discriminate]. destruct G as (c1 & E1 & A & B & _ & F & D).
  injection E1 as <-. split; [exact A |]. split; [| exact B].
  intros q Hq. apply F in Hq as [Hq _]. specialize (Hn q Hq). unfold numbered_block in *. rewrite D.
  destruct (decide _); [| exact Hn]. destruct (irr_keeps (deref c q) true) as (-> & -> & -> & _). exact Hn.
Qed.

Lemma set_last_confirmed_wf c i c' :
  wf c -> numbered c -> set_last_confirmed c i = Ok c' -> wf c' /\ numbered c' /\ head c' = head c.
Proof using.
  intros Hc Hn E. destruct (by_block_id c !! i) as [p |] eqn:Ei.
  - destruct (set_last_confirmed_spec c i p Hc Hn Ei) as (c1 & E1 & M). rewrite E in E1. injection E1 as <-.
    split; [apply M | split; [eapply marked_numbered; eassumption | apply M]].
  - unfold set_last_confirmed in E. rewrite Ei in E. discriminate.
Qed.

(** After marking, a block carries the id when it was marked now or before. *)
Lemma marked_confirmed_by n m i S c c' x :
  marked n i S c c' ->
  (member c' x /\ block_num (deref c' x) <= m /\ confirmed_by c' i x) <->
  (member c x /\ block_num (deref c x) <= m /\ irreversible_confirmed (deref c x) = false /\
   (S x \/ last_confirmed_id (deref c x) = i)).
Proof using.
  intros M. destruct (marked_ids _ _ _ _ _ x M) as (_ & _ & -> & ->). unfold confirmed_by.
  destruct (mk_deref _ _ _ _ _ M x) as [[A ->] | [A ->]]; [destruct (deref c x); cbn; intuition congruence | intuition congruence].
Qed.

Lemma marked_kept n m i (S : ptr -> Prop) c c' p x :
  wf c -> by_block_id c !! i = Some p -> marked n i S c c' -> S p ->
  (member c' x /\ (m < block_num (deref c' x) \/ ~ dropped_by c' i x)) <-> (member c x /\ (x = p \/ m < block_num (deref c x))).
Proof using.
  intros Hc Ei M Sp. destruct (wf_id c Hc i p Ei) as (_ & _ & Ep). assert (Hp : member c p) by (eexists; exact Ei).
  destruct (marked_ids _ _ _ _ _ x M) as (Ex & _ & -> & ->).
  assert (D : member c x -> ~ dropped_by c' i x <-> x = p).
  { intros Hx. unfold dropped_by, id_of. rewrite Ex. split.
    - destruct (decide (x = p)) as [E | E]; [auto |]. intros Q. exfalso. apply Q. intros [_ K]. apply E, (same_id c x p Hc Hx Hp). congruence.
    - intros ->. intros Q. apply Q. split; [| exact Ep].
      destruct (mk_deref _ _ _ _ _ M p) as [[_ ->] | [A _]]; [destruct (deref c p); reflexivity | contradiction]. }
  tauto.
Qed.

Lemma insert_pack_spec c p c' :
  wf c -> numbered c -> is_Some (heap c !! p) -> (p < fresh c)%nat -> numbered_block (deref c p) ->
  insert_pack c p = Ok c' ->
  wf c' /\ numbered c' /\ (forall q, member c' q <-> q = p \/ member c q) /\ (forall q, deref c' q = deref c q) /\
  exists h, head c' = Some h /\ member c' h /\
    forall q, member c' q -> lt_longest_num (deref c' q) (deref c' h) = false.
Proof using.
  intros Hc Hn Hh Hf Hb E. unfold insert_pack in E. destruct (block (deref c p)); [| discriminate].
  apply bind_ok in E as (u & _ & E). apply bind_ok in E as (c1 & E1 & E2).
  destruct (packs_insert_spec c p c1 Hc Hh Hf E1) as (A & B & _ & _ & _ & F & _).
  destruct (update_head_spec c1 c' A E2) as (A' & F' & D' & h & Eh & Hh' & Hbest).
  assert (D : forall q, deref c' q = deref c q) by (intros q; rewrite D'; unfold deref; rewrite B; reflexivity).
  split; [exact A' |]. split; [| split; [intros q; rewrite F'; apply F | split; [exact D |]]].
  - intros q Hq. rewrite D. apply F', F in Hq as [-> | Hq]; auto.
  - exists h. auto.
Qed.

Lemma add_block_pack_wf c p c' :
  wf c -> numbered c -> is_Some (heap c !! p) -> (p < fresh c)%nat -> numbered_block (deref c p) ->
  add_block_pack irreversible c p = Ok c' ->
  wf c' /\ numbered c' /\ exists c1 h, insert_pack c p = Ok c1 /\ head c1 = Some h /\ head c' = Some h.
Proof using.
  intros Hc Hn Hh Hf Hb E. unfold add_block_pack in E. apply bind_ok in E as (c1 & E1 & E).
  destruct (insert_pack_spec c p c1 Hc Hn Hh Hf Hb E1) as (A & B & _ & _ & h & Eh & _).
  rewrite Eh in E. destruct (by_number_less c1) as [| e l]; [discriminate |]. cbv zeta in E.
  destruct (_ <? _) in E; [| destruct (_ <? _) in E].
  - destruct (grow_wf _ _ _ _ A B E) as (? & ? & ?). split_and!; try assumption. exists c1, h. rewrite E1. split_and!; congruence.
  - apply bind_ok in E as (c2 & E2 & E). destruct (set_last_confirmed_wf _ _ _ A B E2) as (A2 & B2 & H2).
    destruct (grow_wf _ _ _ _ A2 B2 E) as (? & ? & ?). split_and!; try assumption. exists c1, h. rewrite E1. split_and!; congruence.
  - injection E as <-. split_and!; try assumption. exists c1, h. auto.
Qed.

(** ** Histories *)

Context (hash_header_word : forall h, word (hash0 (hash_header h))).

Lemma alloc_numbered c b : wf c -> numbered c -> numbered (alloc c b).1.
Proof using.
  intros Hc Hn q Hq. destruct (wf_alloc c b Hc) as (_ & M & _). apply M in Hq. specialize (Hn q Hq).
  destruct Hq as [x E]. destruct (wf_id c Hc x q E) as (L & _). unfold deref, deref_in in *. cbn.
  rewrite lookup_insert_ne by lia. exact Hn.
Qed.

Lemma deref_alloc c b : deref (alloc c b).1 (alloc c b).2 = b.
Proof using. unfold deref, deref_in. cbn. rewrite lookup_insert_eq. reflexivity. Qed.

(** What a successful [add_block] did. *)
Lemma add_block_inv c (b : signed_block) c' p :
  add_block irreversible c b = Ok (c', p) ->
  exists q pack, by_block_id c !! previous b = Some q /\
    init_by_pre_pack new_pack (deref c q) (timestamp b) false = Ok pack /\
    builder (new_header pack) = builder b /\
    is_signer_valid b (block_signing_key (bld_info pack)) = Ok true /\
    p = fresh c /\
    add_block_pack irreversible (alloc c (generate_by_block pack b false false false)).1 p = Ok c'.
Proof using.
  unfold add_block. destruct (by_block_id c !! previous b) as [q |]; [| discriminate]. intros E. cbv zeta in E.
  apply bind_ok in E as (pack & Ep & E). apply bind_ok in E as (u & Eb%check_ok%Z.eqb_eq & E).
  apply bind_ok in E as (v & Ev & E). apply bind_ok in E as (u2 & Es%check_ok & E).
  destruct (alloc c _) as [c1 p1] eqn:Ea. apply bind_ok in E as (c2 & E2 & E). injection E as <- <-.
  exists q, pack. subst v. injection Ea as <- <-. auto 10.
Qed.

(** The new block, before it enters the container. *)
Lemma alloc_generated c pack (b : signed_block) :
  wf c -> numbered c -> num_from_id (previous b) < 2 ^ 32 - 1 ->
  let c0 := (alloc c (generate_by_block pack b false false false)).1 in
  wf c0 /\ numbered c0 /\ (forall q, member c0 q <-> member c q) /\ is_Some (heap c0 !! fresh c) /\ (fresh c < fresh c0)%nat /\
  numbered_block (deref c0 (fresh c)).
Proof using hash_header_word.
  intros Hc Hn Hb c0. destruct (wf_alloc c (generate_by_block pack b false false false) Hc) as (A & M & Hh & Hf).
  split; [exact A |]. split; [apply alloc_numbered; assumption |]. split; [exact M |]. split; [eexists; exact Hh |]. split; [exact Hf |].
  pose proof (deref_alloc c (generate_by_block pack b false false false)) as D. change (deref c0 (fresh c) = generate_by_block pack b false false false) in D.
  rewrite D. destruct (generate_by_block_fields pack b false false false) as (Fn & Fi & _ & Fh & _).
  unfold numbered_block, prev_id. rewrite Fn, Fi, Fh. rewrite (id_num hash_header_word). split; [reflexivity |].
  unfold Block.block_num, u32. apply Z.mod_small. pose proof (num_from_id_range (previous b)). lia.
Qed.

Lemma add_block_wf c (b : signed_block) c' p :
  wf c -> numbered c -> num_from_id (previous b) < 2 ^ 32 - 1 ->
  add_block irreversible c b = Ok (c', p) -> wf c' /\ numbered c'.
Proof using hash_header_word.
  intros Hc Hn Hb E. apply add_block_inv in E as (q & pack & Eq & _ & _ & _ & -> & E).
  destruct (alloc_generated c pack b Hc Hn Hb) as (A & B & _ & Hx & Hf & Nb).
  eapply add_block_pack_wf in E as (? & ? & _); [split; assumption | eassumption..].
Qed.

(** The block with one more confirmation, in its place. *)
Lemma confirmed_store_wf c p conf skip b : wf c -> numbered c -> BlockPack.add_confirmation (deref c p) conf skip = Ok b ->
  wf (store c p b) /\ numbered (store c p b) /\ block_id b = block_id (deref c p).
Proof using.
  intros Hc Hn Eb.
  assert (K : block_id b = block_id (deref c p) /\ prev_id b = prev_id (deref c p) /\ block_num b = block_num (deref c p) /\
            main_chain b = main_chain (deref c p) /\ last_confirmed_num b = last_confirmed_num (deref c p) /\
            dpos_irreversible_num b = dpos_irreversible_num (deref c p)).
  { unfold BlockPack.add_confirmation in Eb. destruct (_ =? _) in Eb; [destruct (confirmations _) in Eb |]; cbv zeta in Eb; invert_ok;
      auto 10; destruct (deref c p); auto 10. }
  destruct K as (K1 & K2 & K3 & K4 & K5 & K6). split; [exact (wf_store c p b Hc K1 K2 K3 K4 K5 K6) |]. split; [| exact K1].
  intros q Hq. rewrite deref_store. specialize (Hn q Hq). destruct (decide (q = p)) as [-> | N]; [| exact Hn].
  unfold numbered_block in *. rewrite K1, K2, K3. exact Hn.
Qed.

Lemma add_confirmation_wf c conf skip c' :
  wf c -> numbered c -> add_confirmation c conf skip = Ok c' -> wf c' /\ numbered c'.
Proof using.
  intros Hc Hn E. unfold add_confirmation in E. destruct (get_block c (conf_block_id conf)) as [p |] eqn:Ep; [| discriminate].
  cbv zeta in E. apply bind_ok in E as (b & Eb & E). destruct (confirmed_store_wf c p conf skip b Hc Hn Eb) as (Hs & Ns & _).
  destruct (enough_confirmation b); [destruct (_ <? _) in E |]; [| injection E as <-; auto..].
  destruct (set_last_confirmed_wf _ _ _ Hs Ns E) as (? & ? & _). auto.
Qed.

Lemma force_confirm_wf c i n c' :
  wf c -> numbered c -> force_confirm irreversible c i n = Ok c' -> wf c' /\ numbered c'.
Proof using.
  intros Hc Hn E. unfold force_confirm in E. apply bind_ok in E as (c1 & E1 & E).
  destruct (set_last_confirmed_wf _ _ _ Hc Hn E1) as (A & B & _). destruct (grow_wf _ _ _ _ A B E) as (? & ? & _). auto.
Qed.

Lemma change_main_chain_flag_wf c i f c' :
  wf c -> numbered c -> change_main_chain_flag c i f = Ok c' -> wf c' /\ numbered c'.
Proof using.
  intros Hc Hn E. unfold change_main_chain_flag in E. destruct (by_block_id c !! i) as [p |] eqn:Ep; [| discriminate].
  destruct (Bool.eqb _ _); injection E as <-; [auto |].
  destruct (packs_modify_spec c p (fun b => with_main_chain b f) Hc (ex_intro _ i Ep)) as [A M]; [intros []; reflexivity |].
  split; [exact A |]. intros q Hq. specialize (Hn q Hq). rewrite deref_modify.
  destruct (decide (q = p)) as [-> | N]; [| exact Hn]. unfold numbered_block in *. destruct (deref c p). exact Hn.
Qed.

Lemma remove_chain_loop_wf fuel : forall c l i c',
  wf c -> numbered c -> remove_chain_loop fuel c l i = Ok c' -> wf c' /\ numbered c'.
Proof using.
  induction fuel as [| fuel IH]; intros c l i c' Hc Hn E; [discriminate |]. cbn [remove_chain_loop] in E.
  destruct (nth_error l i) as [x |]; [| injection E as <-; auto]. cbv zeta in E.
  destruct (by_block_id c !! x) as [p |] eqn:Ep.
  - destruct (packs_erase_spec c p Hc (ex_intro _ x Ep)) as [A M]. eapply IH; [exact A | | exact E].
    intros q Hq. apply M in Hq as [_ Hq]. exact (Hn q Hq).
  - eapply IH; eassumption.
Qed.

Lemma remove_chain_wf fuel c i c' :
  wf c -> numbered c -> remove_chain fuel c i = Ok c' -> wf c' /\ numbered c'.
Proof using.
  intros Hc Hn E. unfold remove_chain in E. apply bind_ok in E as (c1 & E1 & E).
  destruct (remove_chain_loop_wf _ _ _ _ _ Hc Hn E1) as [A B].
  destruct (update_head_spec c1 c' A E) as (A' & M & D & _). split; [exact A' |].
  intros q Hq. rewrite D. apply B, M, Hq.
Qed.

(** The states a fork database can reach: blocks received and blocks built
    here (whose number is in their id), confirmations, the operations of the
    chain. *)
Inductive history (w : W) : fork_context W -> Prop :=
| h_empty : history w (empty_context w)
| h_add_block c (b : signed_block) c' p : history w c -> num_from_id (previous b) < 2 ^ 32 - 1 ->
    add_block irreversible c b = Ok (c', p) -> history w c'
| h_add_pack c b c' : history w c -> numbered_block b ->
    add_block_pack irreversible (alloc c b).1 (alloc c b).2 = Ok c' -> history w c'
| h_confirmation c conf skip c' : history w c -> add_confirmation c conf skip = Ok c' -> history w c'
| h_force c i n c' : history w c -> force_confirm irreversible c i n = Ok c' -> history w c'
| h_flag c i f c' : history w c -> change_main_chain_flag c i f = Ok c' -> history w c'
| h_remove c fuel i c' : history w c -> remove_chain fuel c i = Ok c' -> history w c'.

Lemma history_wf w c : history w c -> wf c /\ numbered c.
Proof using hash_header_word.
  induction 1 as [| c b c' p _ [A B] N E | c b c' _ [A B] N E | c conf skip c' _ [A B] E | c i n c' _ [A B] E
                 | c i f c' _ [A B] E | c fuel i c' _ [A B] E].
  - split; [apply wf_empty |]. intros q [x E]. cbn in E. rewrite lookup_empty in E. discriminate.
  - eapply add_block_wf; eassumption.
  - destruct (wf_alloc c b A) as (A' & _ & Hh & Hf).
    eapply add_block_pack_wf in E as (? & ? & _); [split; assumption | exact A' | apply alloc_numbered; assumption | | exact Hf |].
    + unfold alloc in *. cbn [fst snd] in *. eauto.
    + rewrite deref_alloc. exact N.
  - eapply add_confirmation_wf; eassumption.
  - eapply force_confirm_wf; eassumption.
  - eapply change_main_chain_flag_wf; eassumption.
  - eapply remove_chain_wf; eassumption.
Qed.

(** ** Branches *)

(** [path c p l q]: stepping from [p] to parents passes through [l] and ends in [q]. *)
Inductive path c : ptr -> list ptr -> ptr -> Prop :=
| path_nil p : member c p -> path c p [] p
| path_cons p r l q : par c p r -> path c r l q -> path c p (p :: l) q.

Lemma path_member c p l q : path c p l q -> member c p.
Proof using. destruct 1 as [p Hp | p r l q [Hp _] _]; exact Hp. Qed.

Lemma path_num c p l q : wf c -> numbered c -> path c p l q ->
  block_num (deref c p) = block_num (deref c q) + Z.of_nat (length l).
Proof using.
  intros Hc Hn. induction 1 as [p Hp | p r l q Hpr Hr IH]; cbn [length]; [lia |].
  destruct (par_num c p r Hc Hn Hpr) as [_ ->]. lia.
Qed.

(** The blocks passed lie strictly above the end. *)
Lemma path_bounds c p l q x : wf c -> numbered c -> path c p l q -> x ∈ l ->
  block_num (deref c q) < block_num (deref c x) <= block_num (deref c p).
Proof using.
  intros Hc Hn. induction 1 as [p Hp | p r l q Hpr Hr IH]; intros X; [inversion X |].
  destruct (par_num c p r Hc Hn Hpr) as [_ En]. pose proof (path_num _ _ _ _ Hc Hn Hr).
  apply elem_of_cons in X as [-> | X]; [lia | specialize (IH X); lia].
Qed.

Lemma path_app_l c p l m q : path c p (l ++ m) q -> exists r, path c p l r /\ path c r m q.
Proof using.
  revert p. induction l as [| x l IH]; intros p Hp; cbn [app] in Hp.
  - exists p. split; [apply path_nil, (path_member _ _ _ _ Hp) | exact Hp].
  - inversion Hp as [| ? r ? ? Hpr Hr]; subst. destruct (IH r Hr) as (y & A & B). exists y. split; [eapply path_cons; eassumption | exact B].
Qed.

Lemma path_snoc c p l q r : path c p l q -> par c q r -> path c p (l ++ [q]) r.
Proof using.
  intros Hp Hr. revert r Hr. induction Hp as [p Hp | p x l q Hpx Hx IH]; intros r Hr; cbn [app].
  - eapply path_cons; [exact Hr |]. apply path_nil. destruct Hr as [_ E]. eexists. exact E.
  - eapply path_cons; [exact Hpx | apply IH, Hr].
Qed.

Lemma parent_par c p q : member c p -> parent c p = Ok q <-> par c p q.
Proof using.
  intros Hp. unfold parent, par, get_block. destruct (by_block_id c !! prev_id (deref c p)) as [r |].
  - split; [intros [= ->]; auto | intros [_ [= ->]]; reflexivity].
  - split; [discriminate | intros [_ E]; discriminate].
Qed.

(** Stepping down to [num] along a path to an ancestor not above [num]. *)
Lemma descend_spec c num a fuel : forall p l0 l acc,
  wf c -> numbered c -> path c p l a -> path c l0 acc p ->
  block_num (deref c a) <= num -> block_num (deref c p) < Z.of_nat fuel ->
  exists q l1, descend fuel c num p acc = Ok (q, acc ++ l1) /\ path c l0 (acc ++ l1) q /\
    (exists l2, l = l1 ++ l2 /\ path c q l2 a) /\
    (num <= block_num (deref c p) -> block_num (deref c q) = num) /\
    (block_num (deref c p) <= num -> q = p).
Proof using.
  induction fuel as [| fuel IH]; intros p l0 l acc Hc Hn Hp Hl Ha Hf.
  - pose proof (proj1 (Hn p (path_member _ _ _ _ Hp))) as E. pose proof (num_from_id_range (block_id (deref c p))). lia.
  - cbn [descend]. rewrite Z.gtb_ltb. destruct (Z.ltb_spec num (block_num (deref c p))) as [L | L].
    + destruct Hp as [p Hp | p r l q Hpr Hr]; [lia |].
      rewrite (proj2 (parent_par c p r (proj1 Hpr)) Hpr). cbn [bind].
      destruct (par_num c p r Hc Hn Hpr) as [_ En].
      destruct (IH r l0 l (acc ++ [p]) Hc Hn Hr (path_snoc _ _ _ _ _ Hl Hpr) Ha ltac:(lia))
        as (x & l1 & E & Px & (l2 & -> & P2) & Q1 & _).
      exists x, (p :: l1). rewrite E, <- app_assoc in *. split; [reflexivity |]. split; [exact Px |].
      split; [exists l2; auto |]. split; [intros _; apply Q1; lia | lia].
    + exists p, []. rewrite app_nil_r. split; [reflexivity |]. split; [exact Hl |]. split; [exists l; auto |].
      split; [lia | reflexivity].
Qed.

(** From two blocks of the same number with a common ancestor. *)
Lemma descend_both_spec c a fuel : forall p1 p2 s1 s2 l1 l2 acc1 acc2,
  wf c -> numbered c -> path c p1 l1 a -> path c p2 l2 a -> path c s1 acc1 p1 -> path c s2 acc2 p2 ->
  block_num (deref c p1) = block_num (deref c p2) -> block_num (deref c p1) < Z.of_nat fuel ->
  exists q m1 m2 r1 r2, descend_both fuel c p1 p2 acc1 acc2 = Ok (q, acc1 ++ m1, acc2 ++ m2) /\
    path c s1 (acc1 ++ m1) q /\ path c s2 (acc2 ++ m2) q /\ l1 = m1 ++ r1 /\ l2 = m2 ++ r2 /\ path c q r1 a /\
    (forall x, x ∈ m1 -> x ∉ m2).
Proof using.
  induction fuel as [| fuel IH]; intros p1 p2 s1 s2 l1 l2 acc1 acc2 Hc Hn H1 H2 A1 A2 En Hf.
  - pose proof (proj1 (Hn p1 (path_member _ _ _ _ H1))) as E. pose proof (num_from_id_range (block_id (deref c p1))). lia.
  - cbn [descend_both]. case_bool_decide as E.
    + assert (p1 = p2) as <- by (eapply same_id; [exact Hc | eapply path_member; eassumption.. | exact E]).
      exists p1, [], [], l1, l2. rewrite !app_nil_r. split_and!; try assumption; try reflexivity. intros x X. inversion X.
    + pose proof (path_num _ _ _ _ Hc Hn H1) as N1. pose proof (path_num _ _ _ _ Hc Hn H2) as N2.
      destruct H1 as [p1 M1 | p1 r1 l1 a P1 H1]; [destruct H2 as [p2 M2 | p2 r2 l2 a P2 H2]; [congruence | cbn [length] in *; lia] |].
      destruct H2 as [p2 M2 | p2 r2 l2 a P2 H2]; [cbn [length] in *; lia |].
      rewrite (proj2 (parent_par c p1 r1 (proj1 P1)) P1), (proj2 (parent_par c p2 r2 (proj1 P2)) P2). cbn [bind].
      destruct (par_num c p1 r1 Hc Hn P1) as [_ K1]. destruct (par_num c p2 r2 Hc Hn P2) as [_ K2].
      destruct (IH r1 r2 s1 s2 l1 l2 (acc1 ++ [p1]) (acc2 ++ [p2]) Hc Hn H1 H2 (path_snoc _ _ _ _ _ A1 P1)
                  (path_snoc _ _ _ _ _ A2 P2) ltac:(lia) ltac:(lia)) as (q & m1 & m2 & t1 & t2 & F & B1 & B2 & -> & -> & B3 & D).
      exists q, (p1 :: m1), (p2 :: m2), t1, t2. rewrite F. rewrite <- !app_assoc in *. split_and!; try assumption; try reflexivity.
      apply path_app_l in H1 as (y1 & B1' & _). apply path_app_l in H2 as (y2 & B2' & _).
      intros x X Y. apply elem_of_cons in X as [-> | X]; apply elem_of_cons in Y as [-> | Y].
      * congruence.
      * pose proof (path_bounds _ _ _ _ _ Hc Hn B2' Y). lia.
      * pose proof (path_bounds _ _ _ _ _ Hc Hn B1' X). lia.
      * exact (D x X Y).
Qed.

Lemma fetch_branch_spec c i1 i2 p1 p2 m1 m2 a :
  wf c -> numbered c -> by_block_id c !! i1 = Some p1 -> by_block_id c !! i2 = Some p2 ->
  path c p1 m1 a -> path c p2 m2 a ->
  exists f l1 l2 r, fetch_branch_from_fork c i1 i2 = Ok (Branch f l1 l2) /\
    path c p1 l1 f /\ path c p2 l2 f /\ path c f r a /\ (forall x, x ∈ l1 -> x ∉ l2).
Proof using.
  intros Hc Hn E1 E2 H1 H2. unfold fetch_branch_from_fork, get_block. rewrite E1, E2.
  pose proof (path_num _ _ _ _ Hc Hn H1) as N1. pose proof (path_num _ _ _ _ Hc Hn H2) as N2.
  assert (M1 := path_nil c p1 (path_member _ _ _ _ H1)). assert (M2 := path_nil c p2 (path_member _ _ _ _ H2)).
  destruct (descend_spec c (block_num (deref c p2)) a (fuel_num (block_num (deref c p1))) p1 p1 m1 [] Hc Hn H1 M1)
    as (q1 & d1 & -> & D1 & (r1 & _ & H1') & S1 & T1); [lia | unfold fuel_num; lia |].
  cbn [bind app] in *. cbv zeta. pose proof (path_num _ _ _ _ Hc Hn H1') as N1'.
  destruct (descend_spec c (block_num (deref c q1)) a (fuel_num (block_num (deref c p2))) p2 p2 m2 [] Hc Hn H2 M2)
    as (q2 & d2 & -> & D2 & (r2 & _ & H2') & S2 & T2); [lia | unfold fuel_num; lia |].
  cbn [bind app] in *. cbv zeta.
  assert (En : block_num (deref c q1) = block_num (deref c q2)).
  { destruct (Z.le_gt_cases (block_num (deref c p2)) (block_num (deref c p1))) as [L | L].
    - rewrite (S1 L) in *. rewrite (T2 ltac:(lia)). reflexivity.
    - rewrite (T1 ltac:(lia)) in *. rewrite S2 by lia. reflexivity. }
  rewrite (proj2 (Z.eqb_eq _ _) En). cbn [check bind].
  destruct (descend_both_spec c a (fuel_num (block_num (deref c q1))) q1 q2 p1 p2 r1 r2 d1 d2 Hc Hn H1' H2' D1 D2 En)
    as (f & k1 & k2 & s1 & s2 & -> & F1 & F2 & -> & -> & F3 & Dj); [unfold fuel_num; lia |].
  cbn [bind]. cbv zeta. rewrite (proj1 (member_lookup c f Hc) (path_member _ _ _ _ F3)).
  exists f, (d1 ++ k1), (d2 ++ k2), s1. split_and!; try assumption; try reflexivity.
  apply path_app_l in H1' as (y1 & K1 & _). apply path_app_l in H2' as (y2 & K2 & _).
  intros x X Y. apply elem_of_app in X as [X | X]; apply elem_of_app in Y as [Y | Y].
  - destruct (Z.le_gt_cases (block_num (deref c p2)) (block_num (deref c p1))) as [L | L].
    + rewrite (T2 ltac:(rewrite (S1 L); lia)) in *. pose proof (path_bounds _ _ _ _ _ Hc Hn D2 Y). lia.
    + rewrite (T1 ltac:(lia)) in *. pose proof (path_bounds _ _ _ _ _ Hc Hn D1 X). lia.
  - pose proof (path_bounds _ _ _ _ _ Hc Hn D1 X). pose proof (path_bounds _ _ _ _ _ Hc Hn K2 Y). lia.
  - pose proof (path_bounds _ _ _ _ _ Hc Hn K1 X). pose proof (path_bounds _ _ _ _ _ Hc Hn D2 Y). lia.
  - exact (Dj x X Y).
Qed.
End Thm.

(** ** Properties *)


(** C22: a received block enters only on top of a known block, when its builder
    is the one scheduled for its time and its signature is by the key of that
    builder; then the head is a block no other known block beats. *)
Theorem received_block_authentic `{Crypto} {W} (irreversible : block_pack -> W -> result W) w c (b : signed_block) c' p :
  (forall h, word (hash0 (hash_header h))) -> history irreversible w c ->
  num_from_id (previous b) < 2 ^ 32 - 1 ->
  add_block irreversible c b = Ok (c', p) ->
  exists q pack h, by_block_id c !! previous b = Some q /\
    init_by_pre_pack new_pack (deref c q) (timestamp b) false = Ok pack /\
    builder b = builder (new_header pack) /\
    recover (builder_signature b) (digest b) = Ok (block_signing_key (bld_info pack)) /\
    let c0 := (alloc c (generate_by_block pack b false false false)).1 in
    head c' = Some h /\ (h = p \/ member c h) /\
    forall x, x = p \/ member c x -> lt_longest_num (deref c0 x) (deref c0 h) = false.
Proof.
  intros Hw Hh Hb E. destruct (history_wf _ Hw _ _ Hh) as [Hc Hn].
  apply add_block_inv in E as (q & pack & Eq & Ep & Eb & Es & -> & E).
  apply bind_ok in Es as (k & Ek & Es). injection Es as Es. apply bool_decide_eq_true in Es. subst k.
  destruct (alloc_generated Hw c pack b Hc Hn Hb) as (A & B & M & Hx & Hf & Nb).
  set (c0 := (alloc c (generate_by_block pack b false false false)).1) in *.
  eapply add_block_pack_wf in E as (_ & _ & c1 & h & E1 & Eh & ->); [| eassumption..].
  destruct (insert_pack_spec c0 _ c1 A B Hx Hf Nb E1) as (_ & _ & Mi & D & h' & Eh' & Hm & Best).
  assert (h' = h) as -> by congruence.
  exists q, pack, h. split_and!; try assumption; [congruence |]. cbv zeta. split; [reflexivity |]. split.
  - apply Mi in Hm as [-> | Hm%M]; auto.
  - intros x Hx'. rewrite <- !D. apply Best, Mi. destruct Hx' as [-> | Hx'%M]; auto.
Qed.

(** C31: confirming a known block tells the handler, lowest number first, every
    unreported block up to it that is related to it (itself, or before it) or
    was marked with its id earlier; then that block and the blocks with higher
    numbers stay, and all others go.  When the handler refuses a block, the
    whole operation fails. *)
Theorem force_confirm_settles `{Crypto} {W} (irreversible : block_pack -> W -> result W) w c i p :
  (forall h, word (hash0 (hash_header h))) -> history irreversible w c -> by_block_id c !! i = Some p ->
  let n := block_num (deref c p) in
  exists c1 rs, marked n i (related c p) c c1 /\
    NoDup rs /\ StronglySorted (fun x y => block_num (deref c1 x) <= block_num (deref c1 y)) rs /\
    (forall x, x ∈ rs <-> member c x /\ block_num (deref c x) <= n /\ irreversible_confirmed (deref c x) = false /\
                (related c p x \/ last_confirmed_id (deref c x) = i)) /\
    match run_handler irreversible (map (deref c1) rs) (world c) with
    | Throw e => force_confirm irreversible c i n = Throw e
    | Ok w' => exists c', force_confirm irreversible c i n = Ok c' /\ world c' = w' /\ wf c' /\ head c' = head c /\
        (forall x, member c' x <-> member c x /\ (x = p \/ n < block_num (deref c x)))
    end.
Proof.
  intros Hw Hh Ei n. destruct (history_wf _ Hw _ _ Hh) as [Hc Hn].
  destruct (set_last_confirmed_spec c i p Hc Hn Ei) as (c1 & E1 & M). pose proof (mk_wf _ _ _ _ _ M) as Hc1.
  destruct (to_report_spec c1 i n Hc1) as (R1 & R2 & R3). pose proof (grow_spec irreversible c1 i n Hc1) as G.
  destruct (mk_rest _ _ _ _ _ M) as (_ & Hd & Wd). rewrite Wd in G.
  exists c1, (to_report c1 i n). split; [exact M |]. split; [exact R1 |]. split; [exact R2 |]. split.
  - intros x. rewrite R3. apply (marked_confirmed_by _ _ _ _ _ _ _ M).
  - unfold force_confirm. rewrite E1. cbn [bind].
    destruct (run_handler _ _ _) as [w' | e]; [| exact G]. destruct G as (c' & -> & Hc' & Hd' & Wd' & Mc' & _).
    exists c'. split_and!; try assumption; try reflexivity; [congruence |].
    intros x. rewrite Mc'. apply (marked_kept _ _ _ _ _ _ _ _ Hc Ei M). left. reflexivity.
Qed.

(** For two known blocks with a common ancestor the branches meet in a
    block from which the ancestor is reached, list the blocks from each of the
    two down to it, and share no block; the loops end within their fuel. *)
Theorem branches_from_fork `{Crypto} {W} (irreversible : block_pack -> W -> result W) w c i1 i2 p1 p2 m1 m2 a :
  (forall h, word (hash0 (hash_header h))) -> history irreversible w c ->
  by_block_id c !! i1 = Some p1 -> by_block_id c !! i2 = Some p2 -> path c p1 m1 a -> path c p2 m2 a ->
  exists f l1 l2 r, fetch_branch_from_fork c i1 i2 = Ok (Branch f l1 l2) /\
    path c p1 l1 f /\ path c p2 l2 f /\ path c f r a /\ (forall x, x ∈ l1 -> x ∉ l2).
Proof. intros Hw Hh. destruct (history_wf _ Hw _ _ Hh) as [Hc Hn]. apply fetch_branch_spec; assumption. Qed.

(** ** A sample run *)

(** A sample run: a genesis block, two blocks on top of it at different times,
    and a block on the first of the two. *)
#[local] Existing Instance toy_crypto.

(** The handler of the sample logs the numbers it is given. *)
Definition toy_handler (b : block_pack) (w : list Z) : result (list Z) := Ok (w ++ [block_num b]).

Definition toy_add (r : result (fork_context (list Z))) (b : signed_block) : result (fork_context (list Z)) :=
  let* c := r in let* r := add_block toy_handler c b in let '(c, _) := r in Ok c.

Definition toy_0 : fork_context (list Z) := (alloc (empty_context []) toy_first).1.
Definition toy_1 : result (fork_context (list Z)) := add_block_pack toy_handler toy_0 0%nat.
Definition toy_a : signed_block := toy_block (block_id toy_first) 103.
Definition toy_b : signed_block := toy_block (block_id toy_first) 106.
Definition toy_c : signed_block := toy_block (Block.id toy_a) 109.
Definition toy_2 : result (fork_context (list Z)) := toy_add toy_1 toy_a.
Definition toy_3 : result (fork_context (list Z)) := toy_add toy_2 toy_b.
Definition toy_4 : result (fork_context (list Z)) := toy_add toy_3 toy_c.

Definition toy_of (r : result (fork_context (list Z))) : fork_context (list Z) :=
  match r with Ok c => c | Throw _ => empty_context [] end.
Definition toy_state : fork_context (list Z) := Eval vm_compute in toy_of toy_4.

Lemma toy_hash : forall h : block_header, word (hash0 (hash_header h)).
Proof. intros h. split; reflexivity || (cbn; lia). Qed.

Lemma toy_add_history r (b : signed_block) :
  (exists c, r = Ok c /\ history toy_handler [] c) -> num_from_id (previous b) < 2 ^ 32 - 1 ->
  (exists c p, add_block toy_handler (toy_of r) b = Ok (c, p)) ->
  exists c, toy_add r b = Ok c /\ history toy_handler [] c.
Proof.
  intros (c & -> & Hc) Hb (c' & p & E). exists c'. unfold toy_add. cbn [bind toy_of] in *. rewrite E. split; [reflexivity |].
  eapply h_add_block; eassumption.
Qed.

Ltac toy_step := apply toy_add_history; [| reflexivity | vm_compute; eauto].

Lemma toy_history_3 : exists c, toy_3 = Ok c /\ history toy_handler [] c.
Proof.
  do 2 toy_step.
  assert (exists c, toy_1 = Ok c) as [c E] by (vm_compute; eauto). exists c. split; [exact E |].
  apply (h_add_pack toy_handler [] (empty_context []) toy_first c (h_empty _ _)); [split; vm_compute; reflexivity | exact E].
Qed.

Lemma toy_history : history toy_handler [] toy_state.
Proof.
  assert (exists c, toy_4 = Ok c /\ history toy_handler [] c) as (c & E & Hc) by (toy_step; exact toy_history_3).
  replace toy_state with c; [exact Hc |]. vm_compute in E. injection E as <-. reflexivity.
Qed.

Lemma toy_path : path toy_state 3%nat [3; 1]%nat 0%nat /\ path toy_state 2%nat [2]%nat 0%nat.
Proof.
  assert (M0 : member toy_state 0%nat) by (exists (block_id toy_first); vm_compute; reflexivity).
  assert (P10 : par toy_state 1%nat 0%nat) by (split; [exists (Block.id toy_a) |]; vm_compute; reflexivity).
  assert (P20 : par toy_state 2%nat 0%nat) by (split; [exists (Block.id toy_b) |]; vm_compute; reflexivity).
  assert (P31 : par toy_state 3%nat 1%nat) by (split; [exists (Block.id toy_c) |]; vm_compute; reflexivity).
  split; repeat (eapply path_cons; [eassumption |]); apply path_nil, M0.
Qed.


Lemma received_block_authentic_witness :
  exists c p h, add_block toy_handler toy_state (toy_block (Block.id toy_c) 112) = Ok (c, p) /\ head c = Some h /\
    recover empty_signature empty_chain_id = Ok empty_public_key.
Proof.
  assert (exists c p, add_block toy_handler toy_state (toy_block (Block.id toy_c) 112) = Ok (c, p)) as (c & p & E) by (vm_compute; eauto).
  pose proof (received_block_authentic toy_handler [] toy_state (toy_block (Block.id toy_c) 112) c p toy_hash toy_history) as X.
  specialize (X ltac:(vm_compute; reflexivity) E). destruct X as (q & pack & h & X). destruct X as (_ & _ & _ & _ & X).
  destruct X as [Eh _].
  exists c, p, h. split; [exact E |]. split; [exact Eh | reflexivity].
Defined.

Lemma force_confirm_settles_witness :
  exists c', force_confirm toy_handler toy_state (Block.id toy_a) 2 = Ok c' /\ world c' = [1; 2] /\ wf c' /\
    member c' 1%nat /\ member c' 3%nat /\ ~ member c' 2%nat.
Proof.
  assert (G : by_block_id toy_state !! Block.id toy_a = Some 1%nat) by (vm_compute; reflexivity).
  pose proof (force_confirm_settles toy_handler [] toy_state (Block.id toy_a) 1%nat toy_hash toy_history G) as X.
  destruct X as (c1 & rs & X). destruct X as (_ & _ & _ & _ & R).
  assert (E : forall l w, run_handler toy_handler l w <> Throw "" -> exists w', run_handler toy_handler l w = Ok w').
  { induction l as [| b l IH]; intros w X; cbn [run_handler toy_handler bind] in *; eauto. }
  assert (E2 : exists w, run_handler toy_handler (map (deref c1) rs) (world toy_state) = Ok w).
  { apply E. generalize (map (deref c1) rs) (world toy_state). induction l as [| b l IH]; intros w X; [discriminate |]. exact (IH _ X). }
  destruct E2 as [w Ew]. rewrite Ew in R. destruct R as (c' & Ec & _ & Wf & _ & M).
  assert (N1 : block_num (deref toy_state 1%nat) = 2) by (vm_compute; reflexivity). rewrite N1 in *.
  exists c'. split; [exact Ec |]. split; [vm_compute in Ec; injection Ec as <-; reflexivity |]. split; [exact Wf |].
  rewrite !M. split; [split; [exists (Block.id toy_a); vm_compute; reflexivity | left; reflexivity] |].
  split; [split; [exists (Block.id toy_c); vm_compute; reflexivity | right; vm_compute; reflexivity] |].
  intros [_ [X | X]]; [discriminate X | vm_compute in X; discriminate X].
Defined.

Lemma branches_from_fork_witness :
  exists f l1 l2, fetch_branch_from_fork toy_state (Block.id toy_c) (Block.id toy_b) = Ok (Branch f l1 l2) /\
    l1 = [3; 1]%nat /\ l2 = [2]%nat.
Proof.
  assert (G1 : by_block_id toy_state !! Block.id toy_c = Some 3%nat) by (vm_compute; reflexivity).
  assert (G2 : by_block_id toy_state !! Block.id toy_b = Some 2%nat) by (vm_compute; reflexivity).
  pose proof (branches_from_fork toy_handler [] toy_state _ _ _ _ _ _ _ toy_hash toy_history G1 G2 (proj1 toy_path) (proj2 toy_path)) as X.
  destruct X as (f & l1 & l2 & r & E & _).
  exists f, l1, l2. split; [exact E |]. vm_compute in E. injection E as _ <- <-. split; reflexivity.
Defined.

(** Removing the chain of [toy_a] also removes a block on [toy_b], which is no
    descendant of [toy_a] but follows it in the index by parent. *)
Definition toy_d : signed_block := toy_block (Block.id toy_b) 109.
Example remove_chain_drops_others :
  match toy_add toy_3 toy_d with
  | Ok c => by_number_less c = [0; 1; 2; 3]%nat /\ by_block_id c !! Block.id toy_d = Some 3%nat /\
            previous toy_d = Block.id toy_b /\
            (exists c', remove_chain 100 c (Block.id toy_a) = Ok c' /\ by_number_less c' = [0; 2]%nat)
  | Throw _ => False
  end.
Proof. vm_compute. split_and!; eauto. Qed.
