(* ===== verification/Objects.v ===== *)
(** The objects of the chain's database
    (blockchain/chain/include/objects/*.hpp, authoritys.hpp, account_type.hpp).

    One record per class, without the id, which is the key of the object in
    its index.  The database holds one index per class; the type [row] is the
    sum of the classes and the class [Object] says in which index a class
    lives, as Basechain::get_index_type does.  [row_clash] lists the unique
    keys of the multi_index containers.

    Names are 128-bit codes, asset symbols 64-bit words, public keys their 33
    bytes, times microseconds. *)

From Stdlib Require Import ZArith Lia Bool String List.
From stdpp Require Import base decidable gmap list.
From S2P Require Import Prelude ChainUtils Block Effects UndoIndex.
Import ListNotations.
Local Open Scope Z_scope.

(** ** Accounts *)

Inductive account_type := acc_personal | acc_system | acc_contract | acc_erc20 | acc_erc721.
#[export] Instance account_type_eq_dec : EqDecision account_type.
Proof. solve_decision. Defined.

Record account_contract := AccountContract { code_version : sha256; contract_code : list Z; contract_abi : list Z }.

Record account_object := Account {
  acc_name : Z; acc_type : account_type; creation_date : Z; contract : option account_contract }.

(** ** Tokens: share_type is int64 *)

Record xmx_token_object := XmxToken { xmx_owner : Z; main_token : Z }.

Record resource_token_object := ResourceToken {
  res_owner : Z; locked_token : Z; unlocked_token : Z; last_unlocked_time : Z }.

Record erc20_token_object := Erc20 {
  e20_token_name : Z; e20_owner : Z; total_supply : Z; e20_decimal : Z; e20_revoked : Z; e20_stopmint : Z }.

Record erc20_token_account_object := Erc20Account { e20a_token_name : Z; e20a_owner : Z; balance : Z }.

Record erc721_token_object := Erc721 { e721_token_name : Z; e721_owner : Z; e721_revoked : Z; e721_stopmint : Z }.

Record erc721_token_account_object := Erc721Account {
  e721a_token_name : Z; token_id : sha256; token_owner : Z; token_url : list Z }.

(** ** Authorities: a weight is a uint16, a threshold a uint32 *)

Record key_permission_weight := KeyWeight { kw_key : list Z; kw_weight : Z }.
Record account_permission_weight := AccountWeight { permission : account_auth; aw_weight : Z }.
(** Basetypes::authority *)
Record authority := Authority {
  threshold : Z; auth_keys : list key_permission_weight; auth_accounts : list account_permission_weight }.

(** Chain::mapped_authoritys, with key_permission and account_permission. *)
Record key_permission := KeyPermission { kp_weight : Z; kp_key : list Z }.
Record account_permission := AccountPermission { ap_weight : Z; ap_auth : account_auth }.
Record mapped_authoritys := MappedAuthoritys {
  m_threshold : Z; m_keys : list key_permission; m_accounts : list account_permission }.

Record authority_object := AuthorityObject {
  auth_owner : Z; auth_name : Z; auth_parent : Z; authoritys : mapped_authoritys; last_updated : Z }.

Record linked_permission_object := LinkedPermission {
  link_account : Z; link_code : Z; link_func : Z; required_auth : Z }.

(** ** Voting: proxied_votes and total_votes are uint128 *)

Record voter_info_object := VoterInfo {
  vt_owner : Z; proxy : Z; is_proxy : Z; proxied_votes : Z; vt_builders : list Z;
  staked : Z; unstaking : Z; unstake_per_week : Z; deferred_trx_id : Z;
  last_update : Z; last_unstake_time : Z }.

Record builder_info_object := BuilderInfo { bd_owner : Z; total_votes : Z; builder_key : list Z }.
Definition is_actived (b : builder_info_object) : bool := bool_decide (builder_key b <> empty_public_key).
(** get_vote_order, with the id of the object. *)
Definition get_vote_order (id : Z) (b : builder_info_object) : Z * Z := (total_votes b, id).

(** ** Counters and recorded transactions *)

Record global_msg_status_object := MsgStatus { msg_counter : Z }.
Record global_trx_status_object := TrxStatus { trx_counter : Z }.
Record transaction_object := TrxRecord { rec_trx_id : sha256; rec_expiration : Z }.

(** ** The state of the chain *)

Record block_summary_object := BlockSummary { sum_block_id : sha256 }.
Record builder_object := BuilderObject { bo_owner : Z; signing_key : list Z; last_block_time : Z; total_missed : Z }.
Record dynamic_states_object := DynamicStates {
  head_block_number : Z; head_block_id : sha256; state_time : Z; total_slot : Z; ds_block_builder : Z; ds_round_slot : Z }.
(** Without the setup of the chain, which nothing here reads. *)
Record static_config_object := StaticConfig { cfg_current_builders : builder_rule; cfg_next_builders : builder_rule }.

(** The records of contracts; the keys of keystr_value_object and all values
    are bytes. *)
Record key_value_object := KeyValue { kv_scope : Z; kv_code : Z; kv_table : Z; kv_primary_key : Z; kv_value : list Z }.
Record keystr_value_object := KeyStr { ks_scope : Z; ks_code : Z; ks_table : Z; ks_primary_key : list Z; ks_value : list Z }.
Record key128x128_value_object := KeyPair {
  kp_scope : Z; kp_code : Z; kp_table : Z; kp_primary_key : Z; kp_secondary_key : Z; kp_value : list Z }.

(** ** The database *)

(** strcmp finds no difference. *)
Fixpoint c_string (s : list Z) : list Z := match s with [] => [] | c :: s => if c =? 0 then [] else c :: c_string s end.
Definition c_string_eqb (a b : list Z) : bool := bool_decide (c_string a = c_string b).

Inductive row :=
| RAccount (r : account_object) | RXmxToken (r : xmx_token_object) | RResource (r : resource_token_object)
| RErc20 (r : erc20_token_object) | RErc20Account (r : erc20_token_account_object)
| RErc721 (r : erc721_token_object) | RErc721Account (r : erc721_token_account_object)
| RAuthority (r : authority_object) | RLinked (r : linked_permission_object)
| RVoter (r : voter_info_object) | RBuilder (r : builder_info_object)
| RMsgStatus (r : global_msg_status_object) | RTrxStatus (r : global_trx_status_object)
| RTransaction (r : transaction_object)
| RSummary (r : block_summary_object) | RBuilderObject (r : builder_object)
| RDynamic (r : dynamic_states_object) | RConfig (r : static_config_object)
| RKeyValue (r : key_value_object) | RKeyStr (r : keystr_value_object) | RKeyPair (r : key128x128_value_object).

(** Equal on a unique key other than the id. *)
Definition row_clash (x y : row) : bool :=
  match x, y with
  | RAccount a, RAccount b => acc_name a =? acc_name b
  | RXmxToken a, RXmxToken b => xmx_owner a =? xmx_owner b
  | RResource a, RResource b => res_owner a =? res_owner b
  | RErc20 a, RErc20 b => e20_token_name a =? e20_token_name b
  | RErc20Account a, RErc20Account b => (e20a_token_name a =? e20a_token_name b) && (e20a_owner a =? e20a_owner b)
  | RErc721 a, RErc721 b => e721_token_name a =? e721_token_name b
  | RErc721Account a, RErc721Account b =>
      (e721a_token_name a =? e721a_token_name b)
      && ((token_owner a =? token_owner b) || bool_decide (token_id a = token_id b))
  | RAuthority a, RAuthority b => (auth_owner a =? auth_owner b) && (auth_name a =? auth_name b)
  | RLinked a, RLinked b => (link_account a =? link_account b) && (link_code a =? link_code b) && (link_func a =? link_func b)
  | RVoter a, RVoter b => vt_owner a =? vt_owner b
  | RBuilder a, RBuilder b => bd_owner a =? bd_owner b
  | RTransaction a, RTransaction b => bool_decide (rec_trx_id a = rec_trx_id b)
  | RBuilderObject a, RBuilderObject b => bo_owner a =? bo_owner b
  | RKeyValue a, RKeyValue b =>
      (kv_scope a =? kv_scope b) && (kv_code a =? kv_code b) && (kv_table a =? kv_table b) && (kv_primary_key a =? kv_primary_key b)
  | RKeyStr a, RKeyStr b =>
      (ks_scope a =? ks_scope b) && (ks_code a =? ks_code b) && (ks_table a =? ks_table b) && c_string_eqb (ks_primary_key a) (ks_primary_key b)
  | RKeyPair a, RKeyPair b =>
      (kp_scope a =? kp_scope b) && (kp_code a =? kp_code b) && (kp_table a =? kp_table b)
      && (kp_primary_key a =? kp_primary_key b) && (kp_secondary_key a =? kp_secondary_key b)
  | _, _ => false
  end.

(** The copy constructor of mapped_ptr leaves the copy without an object
    (mapped_ptr.hpp): the copy of an account has no contract. *)
Definition row_copied (x : row) : row :=
  match x with
  | RAccount a => RAccount (Account (acc_name a) (acc_type a) (creation_date a) None)
  | x => x
  end.

#[export, refine] Instance row_keys : UniqueKeys row := { clash := row_clash; copied := row_copied }.
Proof.
  2: { intros [] []; reflexivity. }
  destruct v, w; try reflexivity; cbn;
    repeat first [apply Z.eqb_sym | apply bool_decide_ext; split; congruence | f_equal].
Defined.

(** The index a row belongs to. *)
Definition slot_of (x : row) : nat :=
  match x with
  | RAccount _ => 0 | RXmxToken _ => 1 | RResource _ => 2 | RErc20 _ => 3 | RErc20Account _ => 4
  | RErc721 _ => 5 | RErc721Account _ => 6 | RAuthority _ => 7 | RLinked _ => 8 | RVoter _ => 9
  | RBuilder _ => 10 | RMsgStatus _ => 11 | RTrxStatus _ => 12 | RTransaction _ => 13
  | RSummary _ => 14 | RBuilderObject _ => 15 | RDynamic _ => 16 | RConfig _ => 17
  | RKeyValue _ => 18 | RKeyStr _ => 19 | RKeyPair _ => 20
  end%nat.

Definition n_slots : nat := 21.

Class Object (R : Type) := {
  slot : nat;
  inj : R -> row;
  prj : row -> option R;
  prj_inj : forall r, prj (inj r) = Some r;
  inj_prj : forall x r, prj x = Some r -> x = inj r;
  slot_prj : forall x, slot_of x = slot <-> is_Some (prj x);
  slot_bound : (slot < n_slots)%nat }.

Ltac object := intros; repeat match goal with x : row |- _ => destruct x end; cbn in *;
  try congruence; try (unfold n_slots; lia); split; (intros [? ?] || intros ?); cbn in *; (congruence || discriminate || eauto).

#[export, refine] Instance account_Object : Object account_object := {
  slot := 0; inj := RAccount; prj x := match x with RAccount r => Some r | _ => None end }.
Proof. all: object. Defined.
#[export, refine] Instance xmx_token_Object : Object xmx_token_object := {
  slot := 1; inj := RXmxToken; prj x := match x with RXmxToken r => Some r | _ => None end }.
Proof. all: object. Defined.
#[export, refine] Instance resource_token_Object : Object resource_token_object := {
  slot := 2; inj := RResource; prj x := match x with RResource r => Some r | _ => None end }.
Proof. all: object. Defined.
#[export, refine] Instance erc20_Object : Object erc20_token_object := {
  slot := 3; inj := RErc20; prj x := match x with RErc20 r => Some r | _ => None end }.
Proof. all: object. Defined.
#[export, refine] Instance erc20_account_Object : Object erc20_token_account_object := {
  slot := 4; inj := RErc20Account; prj x := match x with RErc20Account r => Some r | _ => None end }.
Proof. all: object. Defined.
#[export, refine] Instance erc721_Object : Object erc721_token_object := {
  slot := 5; inj := RErc721; prj x := match x with RErc721 r => Some r | _ => None end }.
Proof. all: object. Defined.
#[export, refine] Instance erc721_account_Object : Object erc721_token_account_object := {
  slot := 6; inj := RErc721Account; prj x := match x with RErc721Account r => Some r | _ => None end }.
Proof. all: object. Defined.
#[export, refine] Instance authority_Object : Object authority_object := {
  slot := 7; inj := RAuthority; prj x := match x with RAuthority r => Some r | _ => None end }.
Proof. all: object. Defined.
#[export, refine] Instance linked_Object : Object linked_permission_object := {
  slot := 8; inj := RLinked; prj x := match x with RLinked r => Some r | _ => None end }.
Proof. all: object. Defined.
#[export, refine] Instance voter_Object : Object voter_info_object := {
  slot := 9; inj := RVoter; prj x := match x with RVoter r => Some r | _ => None end }.
Proof. all: object. Defined.
#[export, refine] Instance builder_Object : Object builder_info_object := {
  slot := 10; inj := RBuilder; prj x := match x with RBuilder r => Some r | _ => None end }.
Proof. all: object. Defined.
#[export, refine] Instance msg_status_Object : Object global_msg_status_object := {
  slot := 11; inj := RMsgStatus; prj x := match x with RMsgStatus r => Some r | _ => None end }.
Proof. all: object. Defined.
#[export, refine] Instance trx_status_Object : Object global_trx_status_object := {
  slot := 12; inj := RTrxStatus; prj x := match x with RTrxStatus r => Some r | _ => None end }.
Proof. all: object. Defined.
#[export, refine] Instance transaction_Object : Object transaction_object := {
  slot := 13; inj := RTransaction; prj x := match x with RTransaction r => Some r | _ => None end }.
Proof. all: object. Defined.
#[export, refine] Instance block_summary_Object : Object block_summary_object := {
  slot := 14; inj := RSummary; prj x := match x with RSummary r => Some r | _ => None end }.
Proof. all: object. Defined.
#[export, refine] Instance builder_object_Object : Object builder_object := {
  slot := 15; inj := RBuilderObject; prj x := match x with RBuilderObject r => Some r | _ => None end }.
Proof. all: object. Defined.
#[export, refine] Instance dynamic_states_Object : Object dynamic_states_object := {
  slot := 16; inj := RDynamic; prj x := match x with RDynamic r => Some r | _ => None end }.
Proof. all: object. Defined.
#[export, refine] Instance static_config_Object : Object static_config_object := {
  slot := 17; inj := RConfig; prj x := match x with RConfig r => Some r | _ => None end }.
Proof. all: object. Defined.
#[export, refine] Instance key_value_Object : Object key_value_object := {
  slot := 18; inj := RKeyValue; prj x := match x with RKeyValue r => Some r | _ => None end }.
Proof. all: object. Defined.
#[export, refine] Instance keystr_value_Object : Object keystr_value_object := {
  slot := 19; inj := RKeyStr; prj x := match x with RKeyStr r => Some r | _ => None end }.
Proof. all: object. Defined.
#[export, refine] Instance key128x128_value_Object : Object key128x128_value_object := {
  slot := 20; inj := RKeyPair; prj x := match x with RKeyPair r => Some r | _ => None end }.
Proof. all: object. Defined.

(** The objects of every class but accounts are copied whole. *)
Class Copyable (R : Type) `{Object R} : Prop := copies_all (r : R) : copies (inj r).

#[export] Instance xmx_token_object_copies : Copyable xmx_token_object := fun _ => eq_refl.
#[export] Instance resource_token_object_copies : Copyable resource_token_object := fun _ => eq_refl.
#[export] Instance erc20_token_object_copies : Copyable erc20_token_object := fun _ => eq_refl.
#[export] Instance erc20_token_account_object_copies : Copyable erc20_token_account_object := fun _ => eq_refl.
#[export] Instance erc721_token_object_copies : Copyable erc721_token_object := fun _ => eq_refl.
#[export] Instance erc721_token_account_object_copies : Copyable erc721_token_account_object := fun _ => eq_refl.
#[export] Instance authority_object_copies : Copyable authority_object := fun _ => eq_refl.
#[export] Instance linked_permission_object_copies : Copyable linked_permission_object := fun _ => eq_refl.
#[export] Instance voter_info_object_copies : Copyable voter_info_object := fun _ => eq_refl.
#[export] Instance builder_info_object_copies : Copyable builder_info_object := fun _ => eq_refl.
#[export] Instance global_msg_status_object_copies : Copyable global_msg_status_object := fun _ => eq_refl.
#[export] Instance global_trx_status_object_copies : Copyable global_trx_status_object := fun _ => eq_refl.
#[export] Instance transaction_object_copies : Copyable transaction_object := fun _ => eq_refl.
#[export] Instance block_summary_object_copies : Copyable block_summary_object := fun _ => eq_refl.
#[export] Instance builder_object_copies : Copyable builder_object := fun _ => eq_refl.
#[export] Instance dynamic_states_object_copies : Copyable dynamic_states_object := fun _ => eq_refl.
#[export] Instance static_config_object_copies : Copyable static_config_object := fun _ => eq_refl.
#[export] Instance key_value_object_copies : Copyable key_value_object := fun _ => eq_refl.
#[export] Instance keystr_value_object_copies : Copyable keystr_value_object := fun _ => eq_refl.
#[export] Instance key128x128_value_object_copies : Copyable key128x128_value_object := fun _ => eq_refl.
