(* ===== verification/Tables.v ===== *)
(** Typed access to the chain's database: Basechain::database's find, get,
    create, modify and remove by the class of an object
    (foundation/basechain/include/basechain.hpp), and const_db_table and
    mutable_db_table (blockchain/chain/include/objects/chain_object_table.hpp).

    A reference or a pointer to an object is its id: reading through it reads
    the present object.  A modifier is a program on the object. *)

From Stdlib Require Import ZArith Lia Bool String List.
From stdpp Require Import base decidable gmap fin_maps list.
From S2P Require Import Prelude Effects UndoIndex UndoIndexThm DbSession Objects.
Import ListNotations.
Local Open Scope Z_scope.

Local Abbreviation database := (list (generic_index row)).

Definition slot_rows (i : nat) (db : database) : gmap Z row :=
  match db !! i with Some ix => indices ix | None => ∅ end.

(** The objects of a class. *)
Definition table (R : Type) `{Object R} (db : database) : gmap Z R := omap prj (slot_rows slot db).

(** The element an index finds under a key; [p] compares with the key. *)
Definition find_id {R} (p : R -> bool) (m : gmap Z R) : option Z :=
  fst <$> head (filter (fun kv => p kv.2) (map_to_list m)).

Section Access.
Context {R : Type} `{Object R}.

(** Class and field are taken from [p]. *)
Definition db_find (p : R -> bool) : M database (option Z) := gets (fun db => find_id p (table R db)).

Definition db_get (p : R -> bool) : M database Z :=
  found ← db_find p;
  match found with
  | None => throw "unknown key"
  | Some id => mret id
  end.

(** ... of the index of ids. *)
Definition db_get_at (R : Type) `{Object R} (id : Z) : M database Z :=
  obj ← gets (fun db => table R db !! id);
  match obj with
  | None => throw "unknown key"
  | Some _ => mret id
  end.

(** *obj; a pointer to no object is undefined behaviour. *)
Definition deref (id : Z) : M database R :=
  found ← gets (fun db => table R db !! id);
  match found with
  | None => undefined
  | Some r => mret r
  end.

Definition db_create (c : Z -> R) : M database Z := on_index slot (emplace (fun id => inj (c id))).

Definition on_object (m : M R unit) : M row unit := fun x =>
  match prj x with
  | None => Undef
  | Some r =>
      match m r with
      | Ret r u => Ret (inj r) u
      | Exc r e => Exc (inj r) e
      | Undef => Undef
      end
  end.

Definition db_modify (id : Z) (m : M R unit) : M database unit := on_index slot (modify_with id (on_object m)).

End Access.

(** A reference is to an object of its class. *)
Definition db_remove (R : Type) `{Object R} (id : Z) : M database unit :=
  on_index slot (obj ← gets (fun ix => indices ix !! id); match obj ≫= prj (R := R) with Some _ => remove id | None => undefined end).

(** The value of signed 64-bit arithmetic; overflow is undefined. *)
Definition int64 {S} (z : Z) : M S Z := if (- 2 ^ 63 <=? z) && (z <? 2 ^ 63) then mret z else undefined.

(** ** Reasoning *)

Lemma find_id_Some {R} (p : R -> bool) (m : gmap Z R) id :
  find_id p m = Some id -> exists r, m !! id = Some r /\ p r = true.
Proof.
  unfold find_id. destruct (filter _ _) as [| [k r] l] eqn:E; cbn; [discriminate |]. intros [= <-]. exists r.
  assert (I : (k, r) ∈ filter (fun kv : Z * R => p kv.2) (map_to_list m)) by (rewrite E; left).
  apply list_elem_of_filter in I as [P I]. apply elem_of_map_to_list in I. split; [exact I | apply Is_true_true, P].
Qed.

Lemma find_id_None {R} (p : R -> bool) (m : gmap Z R) id r : find_id p m = None -> m !! id = Some r -> p r = false.
Proof.
  unfold find_id. intros E L. apply not_true_is_false. intros P.
  assert (I : (id, r) ∈ filter (fun kv : Z * R => p kv.2) (map_to_list m)).
  { apply list_elem_of_filter. split; [apply Is_true_true, P | apply elem_of_map_to_list, L]. }
  destruct (filter _ _) as [| kv l]; [inversion I | destruct kv; discriminate].
Qed.

(** Every index holds objects of its class, under unique keys. *)
Record valid (db : database) : Prop := {
  valid_length : length db = n_slots;
  valid_good : forall i ix, db !! i = Some ix -> good (indices ix) (next_id ix);
  valid_typed : forall i id x, slot_rows i db !! id = Some x -> slot_of x = i }.

(** The database [db'] differs from [db] in the table of [R] alone, which is [m]. *)
Record changed (R : Type) `{Object R} (db : database) (m : gmap Z R) (db' : database) : Prop := {
  changed_valid : valid db';
  changed_table : table R db' = m;
  changed_others : forall i, i <> @slot R _ -> slot_rows i db' = slot_rows i db }.

Lemma changed_other {R} `{Object R} R' `{Object R'} db m db' :
  changed R db m db' -> @slot R' _ <> @slot R _ -> table R' db' = table R' db.
Proof. intros C N. unfold table. rewrite (changed_others _ _ _ _ C) by exact N. reflexivity. Qed.

Section Tables.
Context {R : Type} `{Object R}.
Implicit Types (db : database).

Lemma table_lookup db id r : table R db !! id = Some r <-> slot_rows (@slot R _) db !! id = Some (inj r).
Proof.
  unfold table. rewrite lookup_omap. destruct (slot_rows slot db !! id) as [x |]; cbn; [| split; discriminate].
  split; [intros E; apply inj_prj in E; congruence | intros [= ->]; apply prj_inj].
Qed.

Lemma slot_index db : valid db -> exists ix, db !! @slot R _ = Some ix /\ slot_rows (@slot R _) db = indices ix.
Proof.
  intros V. destruct (lookup_lt_is_Some_2 db (@slot R _)) as [ix E]; [rewrite (valid_length _ V); apply slot_bound |].
  exists ix. split; [exact E | unfold slot_rows; rewrite E; reflexivity].
Qed.

(** Two objects of a class do not share a unique key. *)
Lemma table_unique db i j r r' : valid db -> table R db !! i = Some r -> table R db !! j = Some r' -> i <> j -> clash (inj r) (inj r') = false.
Proof.
  intros V. rewrite !table_lookup. destruct (slot_index db V) as (ix & E & ->). destruct (valid_good _ V _ _ E) as [U _].
  intros Hi Hj N. eapply U; eauto.
Qed.

(** A table changed in place. *)
Lemma table_changed db ix ix' m : valid db -> db !! @slot R _ = Some ix -> good (indices ix') (next_id ix') ->
  (forall id x, indices ix' !! id = Some x -> slot_of x = @slot R _) ->
  (forall id, m !! id = (indices ix' !! id) ≫= prj) ->
  changed R db m (<[@slot R _ := ix']> db).
Proof.
  intros V E G T Hm. assert (L : (@slot R _ < length db)%nat) by (eapply lookup_lt_Some, E).
  assert (S : forall i, slot_rows i (<[@slot R _ := ix']> db) = if decide (i = @slot R _) then indices ix' else slot_rows i db).
  { intros i. unfold slot_rows. case_decide as D; [subst i; rewrite list_lookup_insert_eq by exact L | rewrite list_lookup_insert_ne by congruence]; reflexivity. }
  split.
  - split.
    + rewrite length_insert. apply V.
    + intros i jx. destruct (decide (i = @slot R _)) as [-> | N].
      * rewrite list_lookup_insert_eq by exact L. intros [= <-]. exact G.
      * rewrite list_lookup_insert_ne by congruence. apply V.
    + intros i id x. rewrite S. case_decide as D; [subst i; apply T | apply V].
  - unfold table. rewrite S, decide_True by reflexivity. apply map_eq. intros id. rewrite lookup_omap. symmetry. apply Hm.
  - intros i N. rewrite S, decide_False by exact N. reflexivity.
Qed.

Lemma lookup_omap_prj (m : gmap Z row) id : omap (prj (R := R)) m !! id = (m !! id) ≫= prj.
Proof. apply lookup_omap. Qed.

(** What the operations of an index do to a table. *)
Lemma db_create_spec c db : valid db ->
  ends (db_create c) db
    (fun db' id => table R db !! id = None /\ (forall j r, table R db !! j = Some r -> clash (inj (c id)) (inj r) = false) /\
                   changed R db (<[id := c id]> (table R db)) db')
    (fun db' _ => db' = db).
Proof.
  intros V. destruct (slot_index db V) as (ix & E & Er). pose proof (valid_good _ V _ _ E) as G.
  unfold ends, db_create, on_index. rewrite E, emplace_runs by (apply good_fresh, G). cbn.
  destruct (placeable _ _ _) eqn:P; [| apply list_insert_id, E].
  assert (F : table R db !! next_id ix = None) by (unfold table; rewrite lookup_omap, Er, (good_fresh _ _ G); reflexivity).
  split; [exact F |]. split.
  - intros j r L. rewrite table_lookup, Er in L. rewrite placeable_spec in P. apply (P j _ L). intros ->. rewrite (good_fresh _ _ G) in L. discriminate.
  - assert (I : forall id, indices (on_create (next_id ix) (with_next_id (next_id ix + 1) (with_indices (<[next_id ix := inj (c (next_id ix))]> (indices ix)) ix))) !! id = <[next_id ix := inj (c (next_id ix))]> (indices ix) !! id)
      by (intros id; unfold on_create, on_head; cbn; destruct (stack ix); reflexivity).
    apply (table_changed db ix); [exact V | exact E | | |].
    + unfold on_create, on_head; cbn. destruct (stack ix); cbn; (eapply change_good; [exact G | apply change_create, P]).
    + intros id x. rewrite I, lookup_insert_Some. intros [[_ <-] | [_ L]]; [apply slot_prj; rewrite prj_inj; eauto |].
      rewrite <- Er in L. eapply V, L.
    + intros id. rewrite I. unfold table. rewrite Er.
      destruct (decide (id = next_id ix)) as [-> | N]; [rewrite !lookup_insert_eq; cbn; symmetry; apply prj_inj |].
      rewrite !lookup_insert_ne by congruence. apply lookup_omap.
Qed.

Lemma db_modify_spec id r f db : valid db -> table R db !! id = Some r ->
  match f r with Ret r' _ | Exc r' _ => same_keys (inj r) (inj r') | Undef => False end ->
  ends (db_modify id f) db
    (fun db' _ => exists r', f r = Ret r' tt /\ changed R db (<[id := r']> (table R db)) db')
    (fun db' e => exists r', f r = Exc r' e /\ changed R db (<[id := r']> (table R db)) db').
Proof.
  intros V L. rewrite table_lookup in L. destruct (slot_index db V) as (ix & E & Er). pose proof (valid_good _ V _ _ E) as G.
  rewrite Er in L.
  assert (C : forall r', same_keys (inj r) (inj r') ->
    changed R db (<[id := r']> (table R db)) (<[slot := with_indices (<[id := inj r']> (indices ix)) (on_modify id (inj r) ix)]> db)).
  { intros r' K. apply (table_changed db ix); [exact V | exact E | | |].
    - replace (next_id _) with (next_id ix) by (unfold on_modify, on_head; destruct (stack ix); reflexivity).
      eapply change_good; [exact G | eapply change_modify; eassumption].
    - cbn. intros j x. rewrite lookup_insert_Some. intros [[_ <-] | [_ Lj]]; [apply slot_prj; rewrite prj_inj; eauto |].
      rewrite <- Er in Lj. eapply V, Lj.
    - cbn. intros j. unfold table. rewrite Er.
      destruct (decide (j = id)) as [-> | N]; [rewrite !lookup_insert_eq; cbn; symmetry; apply prj_inj |].
      rewrite !lookup_insert_ne by congruence. apply lookup_omap. }
  intros K. unfold ends, db_modify, on_index. rewrite E. unfold modify_with, mbind, M_bind, gets. rewrite L.
  unfold on_object. rewrite prj_inj. destruct (f r) as [r' [] | r' e |]; [| | contradiction].
  - rewrite (modify_runs id (fun _ => inj r') (inj r)) by (assumption || apply G). exists r'. split; [reflexivity | apply C, K].
  - unfold update, throw, mbind, M_bind. exists r'. split; [reflexivity |].
    replace (indices (on_modify id (inj r) ix)) with (indices ix) by (unfold on_modify, on_head; destruct (stack ix); reflexivity).
    apply C, K.
Qed.

(** A modification of the unique keys succeeds when the new keys are free. *)
Lemma db_rekey_spec id r r' f db : valid db -> table R db !! id = Some r -> f r = Ret r' tt ->
  ends (db_modify id f) db
    (fun db' _ => (forall j x, table R db !! j = Some x -> j <> id -> clash (inj r') (inj x) = false) /\
                  changed R db (<[id := r']> (table R db)) db')
    (fun _ _ => True).
Proof.
  intros V L F. rewrite table_lookup in L. destruct (slot_index db V) as (ix & E & Er). pose proof (valid_good _ V _ _ E) as G.
  rewrite Er in L. unfold ends, db_modify, on_index. rewrite E. unfold modify_with, modify, mbind, M_bind, gets, update. rewrite L.
  unfold on_object. rewrite prj_inj, F. cbv beta iota.
  assert (I : indices (on_modify id (inj r) ix) = indices ix) by (unfold on_modify, on_head; destruct (stack ix); reflexivity).
  assert (Nx : next_id (on_modify id (inj r) ix) = next_id ix) by (unfold on_modify, on_head; destruct (stack ix); reflexivity).
  unfold container_modify. rewrite L. cbv beta iota. rewrite I, L. destruct (placeable (indices ix) id (inj r')) eqn:P; cbn; [| exact Logic.I].
  split.
  - intros j x Lj N. rewrite table_lookup, Er in Lj. rewrite placeable_spec in P. apply (P j _ Lj N).
  - apply (table_changed db ix); [exact V | exact E | | |]; cbn.
    + rewrite Nx. destruct G as [U Rg]. split; [apply unique_insert; assumption |].
      intros j x. rewrite lookup_insert_Some. intros [[<- _] | [_ Lj]]; eauto.
    + intros j x. rewrite lookup_insert_Some. intros [[_ <-] | [_ Lj]]; [apply slot_prj; rewrite prj_inj; eauto |].
      rewrite <- Er in Lj. eapply V, Lj.
    + intros j. unfold table. rewrite Er.
      destruct (decide (j = id)) as [-> | N]; [rewrite !lookup_insert_eq; cbn; symmetry; apply prj_inj |].
      rewrite !lookup_insert_ne by congruence. apply lookup_omap.
Qed.

Lemma db_remove_spec id r db : valid db -> table R db !! id = Some r ->
  ends (db_remove R id) db (fun db' _ => changed R db (delete id (table R db)) db') (fun _ _ => False).
Proof.
  intros V L. rewrite table_lookup in L. destruct (slot_index db V) as (ix & E & Er). pose proof (valid_good _ V _ _ E) as G.
  rewrite Er in L.
  assert (Rm : (obj ← gets (fun ix : generic_index row => indices ix !! id); match obj ≫= prj (R := R) with Some _ => remove id | None => undefined end) ix
               = Ret (with_indices (delete id (indices ix)) (on_remove id (inj r) ix)) tt).
  { unfold mbind at 1, M_bind at 1, gets. rewrite L. cbn [mbind option_bind]. rewrite prj_inj. apply remove_runs, L. }
  unfold ends, db_remove, on_index. rewrite E, Rm.
  apply (table_changed db ix); [exact V | exact E | | |].
  - replace (next_id _) with (next_id ix) by (unfold on_remove, on_head; destruct (stack ix); reflexivity).
    eapply change_good; [exact G | eapply change_remove; eassumption].
  - cbn. intros j x. rewrite lookup_delete_Some. intros [_ Lj]. rewrite <- Er in Lj. eapply V, Lj.
  - cbn. intros j. unfold table. rewrite Er.
    destruct (decide (j = id)) as [-> | N]; [rewrite !lookup_delete_eq; reflexivity |].
    rewrite !lookup_delete_ne by congruence. apply lookup_omap.
Qed.
End Tables.

(** ** Programs on the database of the chain keep to its interface *)

(** A run, when it is defined, leaves every index with a record of the way
    back, whatever sessions are open. *)
Definition tracked {A} (m : M database A) : Prop := forall bases db,
  Forall ready bases -> all_within bases db ->
  match m db with Ret db' _ | Exc db' _ => all_within bases db' | Undef => True end.

Lemma tracked_ret {A} (a : A) : tracked (mret a).
Proof. intros bases db _ W. exact W. Qed.

Lemma tracked_throw {A} e : tracked (throw e : M _ A).
Proof. intros bases db _ W. exact W. Qed.

Lemma tracked_undefined {A} : tracked (undefined : M _ A).
Proof. intros bases db _ W. exact I. Qed.

Lemma tracked_gets {A} (f : database -> A) : tracked (gets f).
Proof. intros bases db _ W. exact W. Qed.

Lemma tracked_bind {A B} (m : M database A) (f : A -> M database B) : tracked m -> (forall a, tracked (f a)) -> tracked (m ≫= f).
Proof.
  intros Hm Hf bases db R W. specialize (Hm bases db R W). unfold mbind, M_bind.
  destruct (m db) as [db' a | |]; [apply (Hf a bases db' R Hm) | exact Hm | exact I].
Qed.

Lemma tracked_on_index {A} i (m : M (generic_index row) A) :
  (forall base ix, within base ix -> match m ix with Ret ix' _ | Exc ix' _ => within base ix' | Undef => True end) -> tracked (on_index i m).
Proof.
  intros Hm bases db _ W. unfold on_index. destruct (db !! i) as [ix |] eqn:E; [| exact I].
  destruct (Forall2_lookup_r _ _ _ _ _ W E) as (base & B & Wi). specialize (Hm base ix Wi).
  assert (G : forall ix', within base ix' -> all_within bases (<[i := ix']> db)).
  { intros ix' W'. rewrite <- (list_insert_id bases i base B). apply Forall2_insert; assumption. }
  destruct (m ix); auto.
Qed.

Lemma ends_tracks {S A} (m : M S A) s P : ends m s (fun s _ => P s) (fun s _ => P s) ->
  match m s with Ret s' _ | Exc s' _ => P s' | Undef => True end.
Proof. unfold ends. destruct (m s); auto. Qed.

Lemma tracked_create {R} `{Object R} (c : Z -> R) : tracked (db_create c).
Proof. apply tracked_on_index. intros base ix W. apply ends_tracks, within_emplace, W. Qed.

(** A modifier that leaves the unique keys of its object alone. *)
Definition keeps_keys {R} `{Object R} (f : M R unit) : Prop := forall r,
  match f r with Ret r' _ | Exc r' _ => same_keys (inj r) (inj r') | Undef => True end.

Lemma tracked_modify {R} `{Object R} `{!Copyable R} id (f : M R unit) : keeps_keys f -> tracked (db_modify id f).
Proof.
  intros K. apply tracked_on_index. intros base ix W. destruct (indices ix !! id) as [v |] eqn:L.
  - destruct (on_object f v) as [w u | w e |] eqn:F.
    3: { unfold modify_with, mbind, M_bind, gets. rewrite L, F. exact I. }
    all: apply ends_tracks; apply within_modify_with with (v := v); [exact W | exact L | |]; rewrite ?F;
      unfold on_object in F; destruct (prj v) as [r |] eqn:P; try discriminate; apply inj_prj in P; subst v; try apply copies_all;
      specialize (K r); destruct (f r); congruence.
  - unfold modify_with, mbind, M_bind, gets. rewrite L. exact I.
Qed.

Lemma tracked_remove R `{Object R} `{!Copyable R} id : tracked (db_remove R id).
Proof.
  apply tracked_on_index. intros base ix W. unfold mbind at 1, M_bind at 1, gets.
  destruct (indices ix !! id) as [v |] eqn:L; [| exact I]. cbn [mbind option_bind].
  destruct (prj v) as [r |] eqn:P; [| exact I]. apply inj_prj in P; subst v.
  apply ends_tracks. eapply within_remove; eauto using copies_all.
Qed.

(** In a session, a program that throws leaves no trace. *)
Lemma tracked_session {A} (body : M database A) db : Forall ready db -> tracked body ->
  match in_session body leave_undo db with Ret db' _ | Exc db' _ => db' = db | Undef => body (fst (db_start_undo_session true db)) = Undef end.
Proof.
  intros R T. destruct (start_sessions db R) as [W O]. unfold in_session.
  specialize (T db _ R W). destruct (db_start_undo_session true db) as [db1 s]. cbn [fst snd] in *.
  destruct (body db1) as [db2 a | db2 e |] eqn:E.
  - unfold mbind, M_bind, leave_undo. rewrite (undo_sessions _ _ _ T O). unfold db_session_undo; cbn. reflexivity.
  - rewrite (undo_sessions _ _ _ T O). reflexivity.
  - reflexivity.
Qed.

(** ** A database without objects, and objects put into it *)

Definition empty_db : database := replicate n_slots empty_index.

Lemma empty_slot i : slot_rows i empty_db = ∅.
Proof.
  unfold slot_rows, empty_db. destruct (replicate n_slots empty_index !! i) as [ix |] eqn:E; [| reflexivity].
  apply lookup_replicate in E as [-> _]. reflexivity.
Qed.

Lemma empty_table R `{Object R} : table R empty_db = ∅.
Proof. unfold table. rewrite empty_slot. apply omap_empty. Qed.

Lemma empty_valid : valid empty_db.
Proof.
  split; [reflexivity | |].
  - intros i ix E. unfold empty_db in E. apply lookup_replicate in E as [-> _]. apply (ref_good _ _ empty_refines).
  - intros i id x. rewrite empty_slot, lookup_empty. discriminate.
Qed.

(** The database after a creation. *)
Definition created {R} `{Object R} (r : R) (db : database) : database :=
  match db_create (fun _ => r) db with Ret db' _ | Exc db' _ => db' | Undef => db end.

Lemma created_valid {R} `{Object R} (r : R) db : valid db -> valid (created r db).
Proof.
  intros V. pose proof (db_create_spec (fun _ => r) db V) as E. unfold ends, created in *.
  destruct (db_create _ db) as [db' i | db' e |]; [apply E | subst; exact V | exact V].
Qed.
