(* ===== verification/Context.v ===== *)
(** The context of a message being applied: class message_context_xmax
    (blockchain/chain/include/message_context_xmax.hpp,
    message_context_xmax.cpp).

    A handler is a program on the database and on the members of its context
    that change; the transaction, the message, the depth and the time are
    those of the call.  The records of contracts (store_record and its kin) are
    in [Records]; get_active_builders and the pending transactions serve the
    virtual machines and are not modelled. *)

From Stdlib Require Import ZArith Lia Bool String List.
From stdpp Require Import base decidable gmap list.
From S2P Require Import Prelude Block Effects UndoIndex UndoIndexThm Objects Tables.
Import ListNotations.
Local Open Scope Z_scope.

Local Abbreviation database := (list (generic_index row)).

(** message_context_xmax::pending_message *)
Record pending_message := PendingMessage { handle : Z; pending : message }.

(** The members that change; [running_code] is [code]. *)
Record context := Context {
  running_code : Z;
  notified : list Z;
  inline_messages : list message;
  used_authorizations : list bool;
  next_pending_message_serial : Z;
  pending_messages : list pending_message }.

(** What a context refers to, with the time of the head block and the time of
    the block being built. *)
Record call := Call {
  call_trx : transaction; call_msg : message; apply_depth : Z; current_time : Z; building_time : Z }.

Record world := World { w_db : database; w_ctx : context }.

Definition new_context (c : call) (code : Z) : context :=
  Context code [] [] (replicate (length (authorization (call_msg c))) false) 0 [].

Definition on_db {A} (m : M database A) : M world A := fun w =>
  match m (w_db w) with
  | Ret db a => Ret (World db (w_ctx w)) a
  | Exc db e => Exc (World db (w_ctx w)) e
  | Undef => Undef
  end.

Definition get_ctx : M world context := gets w_ctx.
Definition set_ctx (f : context -> context) : M world unit := update (fun w => World (w_db w) (f (w_ctx w))).

Definition set_notified (l : list Z) (c : context) : context :=
  Context (running_code c) l (inline_messages c) (used_authorizations c) (next_pending_message_serial c) (pending_messages c).
Definition set_used (l : list bool) (c : context) : context :=
  Context (running_code c) (notified c) (inline_messages c) l (next_pending_message_serial c) (pending_messages c).
Definition set_pending (l : list pending_message) (serial : Z) (c : context) : context :=
  Context (running_code c) (notified c) (inline_messages c) (used_authorizations c) serial l.

Definition change_code (code : Z) (c : context) : context :=
  Context code (notified c) (inline_messages c) (used_authorizations c) (next_pending_message_serial c) (pending_messages c).

(** The position boost::find_if stops at. *)
Fixpoint find_if {A} (p : A -> bool) (l : list A) : option nat :=
  match l with
  | [] => None
  | x :: l => if p x then Some O else option_map S (find_if p l)
  end.

Section Context.
Variable cx : call.

Definition require_auth (p : account_auth -> bool) : M world unit :=
  match find_if p (authorization (call_msg cx)) with
  | None => throw "tx_missing_auth"
  | Some i => set_ctx (fun c => set_used (<[i := true]> (used_authorizations c)) c)
  end.

Definition require_authorization (acnt : Z) : M world unit :=
  require_auth (fun auth => account auth =? acnt).
Definition require_authorization_of (acnt auth_name : Z) : M world unit :=
  require_auth (fun auth => (account auth =? acnt) && (Block.authority auth =? auth_name)).

Definition require_scope (acnt : Z) : M world unit :=
  match find_if (fun s => s =? acnt) (scope (call_trx cx)) with
  | None => throw "tx_missing_scope"
  | Some _ => mret tt
  end.

Definition require_recipient (acnt : Z) : M world unit :=
  if acnt =? msg_code (call_msg cx) then mret tt
  else
    c ← get_ctx;
    match find_if (fun recipient => recipient =? acnt) (notified c) with
    | Some _ => mret tt
    | None => set_ctx (fun c => set_notified (notified c ++ [acnt]) c)
    end.

(** ** Pending messages of the virtual machines *)

Definition unknown_pending : string := "tx_unknown_argument".

Definition get_pending_message (h : Z) : M world pending_message :=
  c ← get_ctx;
  match find_if (fun m => handle m =? h) (pending_messages c) with
  | None => throw unknown_pending
  | Some i => match nth_error (pending_messages c) i with Some m => mret m | None => undefined end
  end.

Definition create_pending_message (code type : Z) (data : list Z) : M world pending_message :=
  c ← get_ctx;
  let m := PendingMessage (next_pending_message_serial c) (Message code type [] data) in
  set_ctx (set_pending (pending_messages c ++ [m]) (u32 (next_pending_message_serial c + 1))) ;;
  mret m.

(** std::swap exchanges the two iterators, not the messages they point to. *)
Definition release_pending_message (h : Z) : M world unit :=
  c ← get_ctx;
  match find_if (fun m => handle m =? h) (pending_messages c) with
  | None => throw unknown_pending
  | Some _ => set_ctx (set_pending (removelast (pending_messages c)) (next_pending_message_serial c))
  end.
End Context.

(** ** Reasoning *)

Lemma find_if_Some {A} (p : A -> bool) l i : find_if p l = Some i -> exists x, nth_error l i = Some x /\ p x = true.
Proof.
  revert i. induction l as [| x l IH]; cbn; intros i; [discriminate |]. destruct (p x) eqn:P.
  - intros [= <-]. exists x. auto.
  - destruct (find_if p l) as [j |]; [| discriminate]. intros [= <-]. apply IH. reflexivity.
Qed.

Lemma find_if_None {A} (p : A -> bool) l : find_if p l = None <-> forall x, x ∈ l -> p x = false.
Proof.
  induction l as [| x l IH]; cbn; [split; [intros _ x X; inversion X | reflexivity] |]. destruct (p x) eqn:P; split.
  - discriminate.
  - intros F. rewrite (F x) in P by left. discriminate.
  - destruct (find_if p l); [discriminate |]. intros _ y. rewrite elem_of_cons. intros [-> | Y]; [exact P | apply IH; auto].
  - intros F. destruct IH as [_ ->]; [reflexivity |]. intros y Y. apply F. right. exact Y.
Qed.

Lemma nth_error_elem {A} (l : list A) i x : nth_error l i = Some x -> x ∈ l.
Proof. intros E. apply list_elem_of_In. eapply nth_error_In, E. Qed.

(** The account is among the declared authorizations of the message. *)
Definition authorized (cx : call) (acnt : Z) : Prop :=
  exists auth, auth ∈ authorization (call_msg cx) /\ account auth = acnt.

(** A step that leaves the database alone. *)
Definition same_db {A} (m : M world A) : Prop := forall w, ends m w (fun w' _ => w_db w' = w_db w) (fun w' _ => w_db w' = w_db w).

Lemma require_authorization_ends cx acnt w :
  ends (require_authorization cx acnt) w (fun w' _ => w_db w' = w_db w /\ authorized cx acnt) (fun w' _ => w' = w /\ ~ authorized cx acnt).
Proof.
  unfold require_authorization, require_auth. destruct (find_if _ _) as [i |] eqn:E; unfold ends; cbn.
  - split; [reflexivity |]. apply find_if_Some in E as (a & L & P). exists a.
    split; [exact (nth_error_elem _ _ _ L) | lia].
  - split; [reflexivity |]. intros (a & I & <-). rewrite find_if_None in E. specialize (E a I). lia.
Qed.

Lemma require_scope_ends cx acnt w :
  ends (require_scope cx acnt) w (fun w' _ => w' = w /\ acnt ∈ scope (call_trx cx)) (fun w' _ => w' = w).
Proof.
  unfold require_scope. destruct (find_if _ _) as [i |] eqn:E; unfold ends; cbn; [| reflexivity].
  apply find_if_Some in E as (a & L & P). split; [reflexivity |]. apply Z.eqb_eq in P as ->.
  exact (nth_error_elem _ _ _ L).
Qed.

Lemma require_recipient_ends cx acnt w (X : world -> string -> Prop) :
  ends (require_recipient cx acnt) w (fun w' _ => w_db w' = w_db w) X.
Proof.
  unfold require_recipient. destruct (acnt =? _); [reflexivity |]. unfold ends, get_ctx, gets, mbind, M_bind; cbn.
  destruct (find_if _ _); reflexivity.
Qed.

(** Rules for a step on the database followed by the rest of the program. *)
Section Rules.
Context {R : Type} `{Object R} {A : Type}.
Implicit Types (w : world) (Q : world -> A -> Prop) (X : world -> string -> Prop).

Lemma wp_find (p : R -> bool) (k : option Z -> M world A) w Q X :
  ends (k (find_id p (table R (w_db w)))) w Q X -> ends (on_db (db_find p) ≫= k) w Q X.
Proof. destruct w. exact (fun E => E). Qed.

Lemma wp_get (p : R -> bool) (k : Z -> M world A) w Q X :
  (forall id r, table R (w_db w) !! id = Some r -> p r = true -> ends (k id) w Q X) ->
  (find_id p (table R (w_db w)) = None -> X w "unknown key"%string) -> ends (on_db (db_get p) ≫= k) w Q X.
Proof.
  destruct w as [db c]. cbn. intros HS HN. unfold ends, on_db, db_get, db_find, gets, mbind, M_bind. cbn.
  destruct (find_id p (table R db)) as [id |] eqn:F; cbn; [| exact (HN eq_refl)].
  destruct (find_id_Some _ _ _ F) as (r & L & P). exact (HS id r L P).
Qed.

Lemma wp_deref id r (k : R -> M world A) w Q X :
  table R (w_db w) !! id = Some r -> ends (k r) w Q X -> ends (on_db (deref id) ≫= k) w Q X.
Proof. destruct w. cbn. intros L E. unfold ends, on_db, deref, gets, mbind, M_bind. cbn. rewrite L. exact E. Qed.

Lemma wp_modify id r f (k : unit -> M world A) w Q X :
  valid (w_db w) -> table R (w_db w) !! id = Some r ->
  match f r with
  | Ret r' _ => same_keys (inj r) (inj r') /\
      forall w', w_ctx w' = w_ctx w -> changed R (w_db w) (<[id := r']> (table R (w_db w))) (w_db w') -> ends (k tt) w' Q X
  | Exc r' e => same_keys (inj r) (inj r') /\
      forall w', w_ctx w' = w_ctx w -> changed R (w_db w) (<[id := r']> (table R (w_db w))) (w_db w') -> X w' e
  | Undef => False
  end -> ends (on_db (db_modify id f) ≫= k) w Q X.
Proof.
  intros V L K. pose proof (db_modify_spec id r f (w_db w) V L) as Sp. destruct w as [db c]. cbn in *.
  unfold ends, mbind, M_bind, on_db in *. cbn. destruct (f r) as [r' [] | r' e |]; [| | contradiction];
    destruct K as [Kk K]; specialize (Sp Kk); destruct (db_modify id f db) as [db' [] | db' e' |]; try contradiction;
    destruct Sp as (r2 & E2 & C); try discriminate E2; injection E2 as <-.
  - apply (K (World db' c)); [reflexivity | exact C].
  - subst. apply (K (World db' c)); [reflexivity | exact C].
Qed.

Lemma wp_rekey id r r' f (k : unit -> M world A) w Q X :
  valid (w_db w) -> table R (w_db w) !! id = Some r -> f r = Ret r' tt ->
  (forall w', (forall j x, table R (w_db w) !! j = Some x -> j <> id -> clash (inj r') (inj x) = false) ->
     w_ctx w' = w_ctx w -> changed R (w_db w) (<[id := r']> (table R (w_db w))) (w_db w') -> ends (k tt) w' Q X) ->
  (forall w' e, X w' e) -> ends (on_db (db_modify id f) ≫= k) w Q X.
Proof.
  intros V L F HS HX. pose proof (db_rekey_spec id r r' f (w_db w) V L F) as Sp. destruct w as [db c]. cbn in *.
  unfold ends, mbind, M_bind, on_db in *. cbn. destruct (db_modify id f db) as [db' [] | db' e |]; [| apply HX | contradiction].
  destruct Sp as [U C]. apply (HS (World db' c)); auto.
Qed.

Lemma wp_create c (k : Z -> M world A) w Q X :
  valid (w_db w) ->
  (forall id w', table R (w_db w) !! id = None ->
     (forall j r, table R (w_db w) !! j = Some r -> clash (inj (c id)) (inj r) = false) ->
     w_ctx w' = w_ctx w -> changed R (w_db w) (<[id := c id]> (table R (w_db w))) (w_db w') -> ends (k id) w' Q X) ->
  (forall e, X w e) -> ends (on_db (db_create c) ≫= k) w Q X.
Proof.
  intros V HS HX. pose proof (db_create_spec c (w_db w) V) as Sp. destruct w as [db cx]. cbn in *.
  unfold ends, mbind, M_bind, on_db in *. cbn. destruct (db_create c db) as [db' id | db' e |]; [| | contradiction].
  - destruct Sp as (F & U & C). apply (HS id (World db' cx)); auto.
  - subst db'. apply HX.
Qed.

Lemma wp_remove id r (k : unit -> M world A) w Q X :
  valid (w_db w) -> table R (w_db w) !! id = Some r ->
  (forall w', w_ctx w' = w_ctx w -> changed R (w_db w) (delete id (table R (w_db w))) (w_db w') -> ends (k tt) w' Q X) ->
  ends (on_db (db_remove R id) ≫= k) w Q X.
Proof.
  intros V L HS. pose proof (db_remove_spec id r (w_db w) V L) as Sp. destruct w as [db cx]. cbn in *.
  unfold ends, mbind, M_bind, on_db in *. cbn. destruct (db_remove R id db) as [db' [] | db' e |]; try contradiction.
  apply (HS (World db' cx)); auto.
Qed.
End Rules.

(** A run that stops here. *)
Lemma ends_bind_ret {S A} (m : M S A) s Q X : ends (m ≫= mret) s Q X -> ends m s Q X.
Proof. unfold ends, mbind, M_bind. destruct (m s); exact (fun H => H). Qed.

Lemma wp_require {S A} b e (k : unit -> M S A) s Q X :
  (b = true -> ends (k tt) s Q X) -> (b = false -> X s e) -> ends (require b e ≫= k) s Q X.
Proof. intros HT HF. apply ends_bind, ends_require; assumption. Qed.
