(* ===== verification/Authority.v ===== *)
(** Permissions and their verification
    (blockchain/chain/authority_utls.cpp, include/authoritys.hpp,
    include/authoritys_utils.hpp).

    The fc unpacking of the data of a message is a parameter.  Comparing two
    public keys compares their bytes. *)

From Stdlib Require Import ZArith Lia Bool Ascii String List.
From stdpp Require Import base decidable gmap list.
From S2P Require Import Prelude ChainUtils Block LongName Effects UndoIndex Objects Tables.
Import ListNotations.
Local Open Scope Z_scope.

Local Abbreviation database := (list (generic_index row)).

(** STN(...) and name_code: the codes of the names the code mentions. *)
Definition name_of (s : string) : Z := match LongName.to_name_code (chars s) with Ok code => code | Throw _ => 0 end.
Definition xmax_contract_name : Z := name_of "xmax".
Definition xmax_owner_name : Z := name_of "owner".
Definition xmax_active_name : Z := name_of "active".
Definition xmax_sysany_name : Z := name_of "sys.any".
Definition updateauth_name : Z := name_of "updateauth".
Definition deleteauth_name : Z := name_of "deleteauth".
Definition linkauth_name : Z := name_of "linkauth".
Definition unlinkauth_name : Z := name_of "unlinkauth".

(** ** Messages about authorities (gentypes.hpp) *)

Record updateauth := UpdateAuth { ua_account : Z; ua_permission : Z; ua_parent : Z; ua_new_authority : authority }.
Record deleteauth := DeleteAuth { da_account : Z; da_permission : Z }.
Record linkauth := LinkAuth { la_account : Z; la_code : Z; la_type : Z; la_requirement : Z }.
Record unlinkauth := UnlinkAuth { ul_account : Z; ul_code : Z; ul_type : Z }.

(** mapped_authoritys::operator =: the vectors are appended to, not cleared. *)
Definition assign_authoritys (auths : authority) (m : mapped_authoritys) : mapped_authoritys :=
  MappedAuthoritys (threshold auths)
    (m_keys m ++ map (fun it => KeyPermission (kw_weight it) (kw_key it)) (auth_keys auths))
    (m_accounts m ++ map (fun it => AccountPermission (aw_weight it) (permission it)) (auth_accounts auths)).

(** The constructor leaves the threshold as the memory has it. *)
Definition empty_authoritys (raw_threshold : Z) : mapped_authoritys := MappedAuthoritys raw_threshold [] [].

(** ** Authority objects *)

Definition owned_by (auth : account_auth) (a : authority_object) : bool :=
  (auth_owner a =? account auth) && (auth_name a =? Block.authority auth).

Definition check_auth_names (auth : account_auth) : M database unit :=
  require (negb (account auth =? 0) && negb (Block.authority auth =? 0)) "Invalid authority".

Definition get_authority_object (auth : account_auth) : M database Z :=
  capture_and_rethrow (check_auth_names auth ;; db_get (owned_by auth)).
Definition find_authority_object (auth : account_auth) : M database (option Z) :=
  capture_and_rethrow (check_auth_names auth ;; db_find (owned_by auth)).

Definition modify_authority_object (obj : Z) (new_auth : authority) (t : Z) : M database unit :=
  db_modify obj (update (fun po =>
    AuthorityObject (auth_owner po) (auth_name po) (auth_parent po) (assign_authoritys new_auth (authoritys po)) t)).

Definition new_authority_object (raw_threshold acnt name parent : Z) (auth : authority) (t : Z) : M database Z :=
  db_create (fun _ => AuthorityObject acnt name parent (assign_authoritys auth (empty_authoritys raw_threshold)) t).

Definition remove_authority_object (obj : Z) : M database unit := db_remove authority_object obj.

(** The range of the index by_permission under account and authority. *)
Definition remove_linked_object (acnt auth : Z) : M database unit :=
  linked ← db_find (fun l => (link_account l =? acnt) && (required_auth l =? auth));
  require (match linked with None => true | Some _ => false end) "Cannot delete a linked authority".

(** name.to_string().find("xmax") != 0 *)
Definition check_authority_name (ndebug : bool) (name : Z) : result bool :=
  match LongName.to_string ndebug name with
  | Ok s => Ok (negb (bool_decide (take 4 s = chars "xmax")))
  | Throw e => Throw e
  end.

(** The loop of parent_permission_valid at [parent_auth]; [None]: out of fuel. *)
Fixpoint climb (fuel : nat) (t : gmap Z authority_object) (editor : Z) (parent_auth : option authority_object) : option bool :=
  match parent_auth with
  | None => Some false
  | Some p =>
      if auth_parent p =? editor then Some true
      else if auth_parent p =? 0 then Some false
      else match fuel with
           | O => None
           | S fuel => climb fuel t editor (t !! auth_parent p)
           end
  end.

Definition parent_permission_valid (fuel : nat) (t : gmap Z authority_object) (editor_id : Z) (editor info : authority_object) : option bool :=
  if negb (auth_owner editor =? auth_owner info) then Some false
  else if editor_id =? auth_parent info then Some true
  else climb fuel t editor_id (t !! auth_parent info).

(** ** Linked permissions *)

Definition linked_by (acc code func : Z) (l : linked_permission_object) : bool :=
  (link_account l =? acc) && (link_code l =? code) && (link_func l =? func).

Definition find_linked_permission (acc code func : Z) : M database (option Z) :=
  linked ← db_find (linked_by acc code func);
  linked ← match linked with
           | None => db_find (linked_by acc code 0)
           | Some _ => mret linked
           end;
  match linked with
  | None => mret None
  | Some l => o ← deref l; mret (Some (required_auth o))
  end.

Definition min_linked_permission (acc code func : Z) : M database (option Z) :=
  linked ← find_linked_permission acc code func;
  mret match linked with
       | None => Some xmax_active_name
       | Some l => if l =? xmax_sysany_name then None else Some l
       end.

(** ** The operations on authorities need the account's own authorization *)

Definition one_own_authorization (auths : list account_auth) (acnt : Z) : M database unit :=
  match auths with
  | [] => undefined
  | auth :: _ =>
      require (Z.of_nat (length auths) =? 1) "should only have one declared authorization" ;;
      require (account auth =? acnt) "only can control self authorization."
  end.

Definition check_updateauth (auths : list account_auth) (args : updateauth) : M database unit :=
  one_own_authorization auths (ua_account args) ;;
  authobj ← find_authority_object (AccountAuth (ua_account args) (ua_parent args));
  require (match authobj with None => false | Some _ => true end) "error updateauth data, auth or parent of auth is not found.".
Definition check_deleteauth (auths : list account_auth) (args : deleteauth) : M database unit :=
  one_own_authorization auths (da_account args).
Definition check_linkauth (auths : list account_auth) (args : linkauth) : M database unit :=
  one_own_authorization auths (la_account args).
Definition check_unlinkauth (auths : list account_auth) (args : unlinkauth) : M database unit :=
  one_own_authorization auths (ul_account args).

Definition check_auth_op (acc_name auth_name edit_auth : Z) (auths : list account_auth) : M database unit :=
  one_own_authorization auths acc_name ;;
  if auth_name =? xmax_owner_name then
    require (edit_auth =? xmax_owner_name) "edit auth of 'ower auth' must be 'owner'."
  else if auth_name =? xmax_active_name then
    require ((edit_auth =? xmax_owner_name) || (edit_auth =? xmax_owner_name)) "modify auth of 'ower auth' must be 'owner' or 'active'."
  else
    get_authority_object (AccountAuth auth_name edit_auth) ;; mret tt.

(** ** auth_checker *)

Definition max_check_depth : nat := 3.

(** The state of the checker besides the database. *)
Record auth_checker := AuthChecker { key_used : list bool; aucache : list account_auth }.

(** int(...) of a sum; overflow is undefined. *)
Definition int32 {S} (z : Z) : M S Z := if (- 2 ^ 31 <=? z) && (z <? 2 ^ 31) then mret z else undefined.

Definition lift {S A} (m : M database A) : M (database * S) A := fun s =>
  match m (fst s) with
  | Ret db a => Ret (db, snd s) a
  | Exc db e => Exc (db, snd s) e
  | Undef => Undef
  end.

Section Checker.
Context (pdic : list (list Z)).

Definition use_key (i : nat) : M (database * auth_checker) unit :=
  update (fun s => (fst s, AuthChecker (<[i := true]> (key_used (snd s))) (aucache (snd s)))).
Definition cache (auth : account_auth) : M (database * auth_checker) unit :=
  update (fun s => (fst s, AuthChecker (key_used (snd s)) (auth :: aucache (snd s)))).

(** pdic.find(key), as a position. *)
Fixpoint key_index (k : list Z) (l : list (list Z)) : option nat :=
  match l with
  | [] => None
  | x :: l => if bool_decide (x = k) then Some O else option_map S (key_index k l)
  end.

Fixpoint check_keys (current_weight : Z) (wkeys : list key_permission) : M (database * auth_checker) Z :=
  match wkeys with
  | [] => mret current_weight
  | wkey :: wkeys =>
      match key_index (kp_key wkey) pdic with
      | None => check_keys current_weight wkeys
      | Some i =>
          current_weight ← int32 (current_weight + kp_weight wkey);
          use_key i ;;
          check_keys current_weight wkeys
      end
  end.

(** The loop over the account permissions. *)
Fixpoint check_accounts (check_acc : account_auth -> M (database * auth_checker) unit) (current_weight : Z)
    (waccs : list account_permission) : M (database * auth_checker) Z :=
  match waccs with
  | [] => mret current_weight
  | wacc :: waccs =>
      s ← gets snd;
      (if bool_decide (ap_auth wacc ∈ aucache s) then mret tt
       else check_acc (ap_auth wacc) ;; cache (ap_auth wacc)) ;;
      current_weight ← int32 (current_weight + ap_weight wacc);
      check_accounts check_acc current_weight waccs
  end.

(** [levels] may still be entered: depth = max_check_depth - levels. *)
Fixpoint check_with_depth (levels : nat) (accauth : account_auth) : M (database * auth_checker) unit :=
  match levels with
  | O => throw "depth in check must be less than 3"
  | S levels =>
      authobj ← lift (get_authority_object accauth);
      authobj ← lift (deref authobj);
      let threshold := s32 (m_threshold (authoritys authobj)) in
      current_weight ← check_keys 0 (m_keys (authoritys authobj));
      current_weight ← check_accounts (check_with_depth levels) current_weight (m_accounts (authoritys authobj));
      require (threshold <=? current_weight) "no enough auth"
  end.

Definition check (accauth : account_auth) : M (database * auth_checker) unit := check_with_depth max_check_depth accauth.

Definition check_key_used : M (database * auth_checker) unit :=
  s ← gets snd;
  for_each (key_used s) (fun used => require used "key is not be used.").
End Checker.

(** ** check_authorization *)

(** operator< of account_auth *)
Definition account_auth_lt (a b : account_auth) : bool :=
  (account a <? account b) || ((account a =? account b) && (Block.authority a <? Block.authority b)).

(** std::set::emplace *)
Fixpoint set_emplace (a : account_auth) (l : list account_auth) : list account_auth :=
  match l with
  | [] => [a]
  | b :: l' => if account_auth_lt a b then a :: l else if account_auth_lt b a then b :: set_emplace a l' else l
  end.

(** What fc::raw::unpack makes of the data of the messages read here. *)
Class AuthCodec := {
  as_updateauth : list Z -> option updateauth;
  as_deleteauth : list Z -> option deleteauth;
  as_linkauth : list Z -> option linkauth;
  as_unlinkauth : list Z -> option unlinkauth }.

(** msg.as<T>(): unpacking throws when the data is too short. *)
Definition unpack {S T} (d : list Z -> option T) (data : list Z) : M S T :=
  match d data with
  | None => throw "fc::out_of_range_exception"
  | Some t => mret t
  end.

Section CheckAuthorization.
Context `{AuthCodec}.

(** The checks of the messages of the system contract; the result is special_flag. *)
Definition check_special (msg : message) : M database bool :=
  if msg_code msg =? xmax_contract_name then
    if updateauth_name =? msg_type msg then
      args ← unpack as_updateauth (msg_data msg); check_updateauth (authorization msg) args ;; mret true
    else if deleteauth_name =? msg_type msg then
      args ← unpack as_deleteauth (msg_data msg); check_deleteauth (authorization msg) args ;; mret true
    else if linkauth_name =? msg_type msg then
      args ← unpack as_linkauth (msg_data msg); check_linkauth (authorization msg) args ;; mret true
    else if unlinkauth_name =? msg_type msg then
      args ← unpack as_unlinkauth (msg_data msg); check_unlinkauth (authorization msg) args ;; mret true
    else mret false
  else mret true.

(** The fuel is enough for every chain of parents with growing ids. *)
Definition parent_fuel (info : authority_object) : nat := S (Z.to_nat (auth_parent info)).

Definition check_permission (msg : message) (au : account_auth) : M database unit :=
  permission ← min_linked_permission (account au) (msg_code msg) (msg_type msg);
  match permission with
  | None => undefined
  | Some permission =>
      if permission =? Block.authority au then mret tt
      else
        origin ← get_authority_object au;
        origin_auth ← deref origin;
        sub ← get_authority_object (AccountAuth (account au) permission);
        sub_auth ← deref sub;
        t ← gets (table authority_object);
        match parent_permission_valid (parent_fuel sub_auth) t origin origin_auth sub_auth with
        | None => undefined
        | Some valid => require valid "error authority"
        end
  end.

(** The loop over the authorizations of a message, which collects them. *)
Fixpoint check_declared (msg : message) (special_flag : bool) (aus : list account_auth) (satisfys : list account_auth) : M database (list account_auth) :=
  match aus with
  | [] => mret satisfys
  | au :: aus =>
      (if negb special_flag then check_permission msg au else mret tt) ;;
      check_declared msg special_flag aus (set_emplace au satisfys)
  end.

Fixpoint check_messages (messages : list message) (satisfys : list account_auth) : M database (list account_auth) :=
  match messages with
  | [] => mret satisfys
  | msg :: messages =>
      special_flag ← check_special msg;
      satisfys ← check_declared msg special_flag (authorization msg) satisfys;
      check_messages messages satisfys
  end.

(** The checker lives to the end of the function. *)
Definition with_checker {A} (checker : auth_checker) (m : M (database * auth_checker) A) : M database A := fun db =>
  match m (db, checker) with
  | Ret s a => Ret (fst s) a
  | Exc s e => Exc (fst s) e
  | Undef => Undef
  end.

Definition check_authorization (messages : list message) (keys : list (list Z)) : M database unit :=
  satisfys ← check_messages messages [];
  with_checker (AuthChecker (replicate (length keys) false) [])
    (for_each satisfys (fun accauth =>
       lift (get_authority_object accauth) ;; check keys accauth)).
End CheckAuthorization.

(** ** Gas and the format of weights *)

Definition check_gaspayer (t : transaction) : M database unit :=
  if gaslimit t =? 0 then mret tt
  else
    token_obj ← db_get (fun o => xmx_owner o =? gas_payer t);
    o ← deref token_obj;
    require (gaslimit t <=? u64 (main_token o)) "account must have more balance than gaslimit".

(** key_data < key_data, byte by byte. *)
Fixpoint bytes_lt (a b : list Z) : bool :=
  match a, b with
  | _, [] => false
  | [], _ :: _ => true
  | x :: a, y :: b => (x <? y) || ((x =? y) && bytes_lt a b)
  end.

(** One list of weights: the sum in a uint16 and the order of what is weighed. *)
Fixpoint weigh {T} (lt : T -> T -> bool) (l : list (T * Z)) (weights : Z) : option Z :=
  match l with
  | [] => Some weights
  | (t, w) :: l' =>
      match l' with
      | (t', _) :: _ => if lt t t' then weigh lt l' (u16 (weights + w)) else None
      | [] => Some (u16 (weights + w))
      end
  end.

Definition validate_weight_format (auth : authority) : bool :=
  if 2 ^ 16 <? Z.of_nat (length (auth_keys auth)) + Z.of_nat (length (auth_accounts auth)) then false
  else if threshold auth =? 0 then false
  else
    match weigh bytes_lt (map (fun k => (kw_key k, kw_weight k)) (auth_keys auth)) 0 with
    | None => false
    | Some weights =>
        match weigh account_auth_lt (map (fun a => (permission a, aw_weight a)) (auth_accounts auth)) weights with
        | None => false
        | Some weights => threshold auth <=? weights
        end
    end.
