(* ===== verification/AuthorityThm.v ===== *)
(** What the verification of permissions establishes: the climb along the
    parents decides ancestry, the checker accepts what the keys satisfy, and a
    transaction that passes is authorized. *)

From Stdlib Require Import ZArith Lia Bool String List.
From stdpp Require Import base decidable gmap fin_maps list.
From S2P Require Import Prelude ChainUtils Block Effects UndoIndex UndoIndexThm Objects Tables Authority.
Import ListNotations.
Local Open Scope Z_scope.

Local Abbreviation database := (list (generic_index row)).

(** ** Ancestry *)

(** The ids of parents are smaller, a root has the parent 0. *)
Definition forest (t : gmap Z authority_object) : Prop :=
  forall id a, t !! id = Some a -> 0 <= auth_parent a /\ (auth_parent a < id \/ auth_parent a = 0).

(** [e] is the parent of [a], or an ancestor of it. *)
Inductive ancestor (t : gmap Z authority_object) (e : Z) : authority_object -> Prop :=
| anc_parent a : auth_parent a = e -> ancestor t e a
| anc_up a p : t !! auth_parent a = Some p -> ancestor t e p -> ancestor t e a.

Lemma root_ancestor t e a : forest t -> ancestor t e a -> auth_parent a = 0 -> e = 0.
Proof.
  intros F. induction 1 as [a E | a p L _ IH]; intros P; [congruence |]. rewrite P in L.
  destruct (F _ _ L) as [P0 Pp]. apply IH. lia.
Qed.

Lemma climb_spec t e fuel : forall p, forest t -> 0 <= auth_parent p < Z.of_nat fuel \/ auth_parent p = 0 ->
  exists b, climb fuel t e (Some p) = Some b /\ (b = true <-> ancestor t e p).
Proof.
  induction fuel as [| fuel IH]; intros p F M; cbn [climb].
  - destruct (Z.eqb_spec (auth_parent p) e) as [E | E]; [exists true; split; [reflexivity | split; [constructor; exact E | reflexivity]] |].
    destruct M as [M | M]; [lia |]. rewrite M. exists false. split; [reflexivity |]. split; [discriminate |].
    intros A. pose proof (root_ancestor _ _ _ F A M). congruence.
  - destruct (Z.eqb_spec (auth_parent p) e) as [E | E]; [exists true; split; [reflexivity | split; [constructor; exact E | reflexivity]] |].
    destruct (Z.eqb_spec (auth_parent p) 0) as [Z0 | Z0].
    { exists false. split; [reflexivity |]. split; [discriminate |]. intros A. pose proof (root_ancestor _ _ _ F A Z0). congruence. }
    destruct (t !! auth_parent p) as [q |] eqn:L.
    + destruct (IH q F) as (b & C & S); [pose proof (F _ _ L); lia |]. exists b. split; [exact C |]. rewrite S. split.
      * intros A. eapply anc_up; eassumption.
      * intros A. inversion A as [? Ep | ? q' L' A']; subst; [congruence |]. congruence.
    + exists false. split; [destruct fuel; reflexivity |]. split; [discriminate |].
      intros A. inversion A as [? Ep | ? q' L' A']; subst; congruence.
Qed.

Lemma parent_permission_decided t fuel e editor info : forest t -> 0 <= auth_parent info ->
  (parent_fuel info <= fuel)%nat ->
  exists b, parent_permission_valid fuel t e editor info = Some b /\
    (b = true <-> auth_owner editor = auth_owner info /\ ancestor t e info).
Proof.
  intros F P0 Fu. unfold parent_permission_valid, parent_fuel in *.
  destruct (Z.eqb_spec (auth_owner editor) (auth_owner info)) as [O | O]; cbn [negb].
  2: { exists false. split; [reflexivity |]. split; [discriminate | tauto]. }
  destruct (Z.eqb_spec e (auth_parent info)) as [E | E].
  { exists true. split; [reflexivity |]. split; [intros _; split; [exact O | constructor; congruence] | reflexivity]. }
  destruct (t !! auth_parent info) as [p |] eqn:L.
  - destruct (climb_spec t e fuel p F) as (b & C & S); [pose proof (F _ _ L); lia |]. exists b. split; [exact C |]. rewrite S. split.
    + intros A. split; [exact O | eapply anc_up; eassumption].
    + intros [_ A]. inversion A as [? Ep | ? q' L' A']; subst; congruence.
  - exists false. split; [destruct fuel; reflexivity |]. split; [discriminate |].
    intros [_ A]. inversion A as [? Ep | ? q' L' A']; subst; congruence.
Qed.

(** The walk along the parents ends, whatever the fuel above the id of
    the first parent, and says whether the editor's authority is of the same
    account and an ancestor of the other. *)
Theorem parent_permission_decides_ancestry t fuel e editor info : forest t -> 0 <= auth_parent info ->
  (parent_fuel info <= fuel)%nat ->
  exists b, parent_permission_valid fuel t e editor info = Some b /\
    (b = true <-> auth_owner editor = auth_owner info /\ ancestor t e info).
Proof. apply parent_permission_decided. Qed.

(** ** The checker *)

Definition key_weights (pdic : list (list Z)) (l : list key_permission) : Z :=
  fold_right (fun k acc => (if bool_decide (kp_key k ∈ pdic) then kp_weight k else 0) + acc) 0 l.
Definition account_weights (l : list account_permission) : Z := fold_right (fun a acc => ap_weight a + acc) 0 l.

(** The keys satisfy an authority: all accounts named in it are satisfied,
    and with the weights of the keys at hand the threshold is reached. *)
Inductive satisfies (t : gmap Z authority_object) (pdic : list (list Z)) : account_auth -> Prop :=
| satisfied id obj au : account au <> 0 -> Block.authority au <> 0 -> t !! id = Some obj -> owned_by au obj = true ->
    (forall wacc, wacc ∈ m_accounts (authoritys obj) -> satisfies t pdic (ap_auth wacc)) ->
    s32 (m_threshold (authoritys obj)) <= key_weights pdic (m_keys (authoritys obj)) + account_weights (m_accounts (authoritys obj)) ->
    satisfies t pdic au.

(** The same with at most [n] levels of authorities. *)
Fixpoint satisfies_within (t : gmap Z authority_object) (pdic : list (list Z)) (n : nat) (au : account_auth) : Prop :=
  match n with
  | O => False
  | S n => account au <> 0 /\ Block.authority au <> 0 /\ exists id obj, t !! id = Some obj /\ owned_by au obj = true /\
      (forall wacc, wacc ∈ m_accounts (authoritys obj) -> satisfies_within t pdic n (ap_auth wacc)) /\
      s32 (m_threshold (authoritys obj)) <= key_weights pdic (m_keys (authoritys obj)) + account_weights (m_accounts (authoritys obj))
  end.

Lemma satisfies_within_satisfies t pdic n : forall au, satisfies_within t pdic n au -> satisfies t pdic au.
Proof.
  induction n as [| n IH]; intros au; [intros [] |]. intros (A & B & id & obj & L & O & H & W). econstructor; eauto.
Qed.

(** Weights are unsigned and their sums fit an int. *)
Definition weights_fit (t : gmap Z authority_object) : Prop := forall id obj, t !! id = Some obj ->
  Forall (fun k => 0 <= kp_weight k) (m_keys (authoritys obj)) /\ Forall (fun a => 0 <= ap_weight a) (m_accounts (authoritys obj)) /\
  fold_right (fun k acc => kp_weight k + acc) 0 (m_keys (authoritys obj)) + account_weights (m_accounts (authoritys obj)) < 2 ^ 31.

Lemma int32_ends {S} z (s : S) : - 2 ^ 31 <= z < 2 ^ 31 -> int32 z s = Ret s z.
Proof. intros R. unfold int32. destruct (_ && _) eqn:E; [reflexivity | lia]. Qed.

Lemma key_index_spec k l : match key_index k l with Some _ => k ∈ l | None => k ∉ l end.
Proof.
  induction l as [| x l IH]; cbn [key_index]; [intros X; inversion X |]. case_bool_decide as E; [rewrite elem_of_cons; left; congruence |].
  destruct (key_index k l); cbn; rewrite elem_of_cons; [right; exact IH |]. intros [-> | I]; tauto.
Qed.

Section Checker.
Context (pdic : list (list Z)) (db : database).
Hypothesis V : valid db.
Hypothesis WF : weights_fit (table authority_object db).
Local Abbreviation t := (table authority_object db).

(** A step of the checker that reads the database alone. *)
Lemma lift_ends {S A} (m : M database A) (ck : S) Q X :
  ends m db (fun db' a => Q (db', ck) a) (fun db' e => X (db', ck) e) -> ends (lift m) (db, ck) Q X.
Proof. unfold ends, lift. cbn. destruct (m db); auto. Qed.

Lemma get_authority_ends au (Q : database -> Z -> Prop) X :
  (forall id obj, account au <> 0 -> Block.authority au <> 0 -> t !! id = Some obj -> owned_by au obj = true -> Q db id) ->
  (forall e, (account au <> 0 -> Block.authority au <> 0 -> forall id obj, t !! id = Some obj -> owned_by au obj = false) -> X db e) ->
  ends (get_authority_object au) db Q X.
Proof.
  intros HS HX. unfold get_authority_object, check_auth_names. apply ends_capture, ends_bind, ends_require.
  - intros N. apply andb_true_iff in N as [N1 N2]. apply negb_true_iff, Z.eqb_neq in N1, N2.
    unfold db_get. apply ends_bind. unfold ends at 1, db_find, gets. destruct (find_id _ t) as [id |] eqn:F.
    + apply find_id_Some in F as (obj & L & O). exact (HS id obj N1 N2 L O).
    + apply (HX (rethrown "unknown key")). intros _ _ id obj L. exact (find_id_None _ _ _ _ F L).
  - intros N. apply (HX (rethrown "Invalid authority")). intros N1 N2. lia.
Qed.

Lemma deref_ends {R} `{Object R} id (r : R) Q X : table R db !! id = Some r -> Q db r -> ends (deref id) db Q X.
Proof. intros L HQ. unfold deref. apply ends_bind. unfold ends at 1, gets. rewrite L. exact HQ. Qed.

Lemma check_keys_ends ck l : forall w, 0 <= w -> Forall (fun k => 0 <= kp_weight k) l -> w + fold_right (fun k acc => kp_weight k + acc) 0 l < 2 ^ 31 ->
  ends (check_keys pdic w l) (db, ck) (fun s r => fst s = db /\ aucache (snd s) = aucache ck /\ r = w + key_weights pdic l) no_exc.
Proof.
  revert ck. induction l as [| k l IH]; intros ck w W F B; cbn [check_keys key_weights fold_right] in *.
  - unfold ends; cbn. split; [reflexivity |]. split; [reflexivity | lia].
  - apply Forall_cons in F as [Fk F]. pose proof (key_index_spec (kp_key k) pdic) as KI.
    assert (S0 : 0 <= fold_right (fun k acc => kp_weight k + acc) 0 l) by (clear - F; induction F; cbn; lia).
    destruct (key_index (kp_key k) pdic) as [i |].
    + rewrite bool_decide_true by exact KI. apply ends_bind. unfold ends at 1. rewrite int32_ends by lia.
      apply ends_bind. unfold ends at 1, use_key, update.
      eapply ends_weaken; [apply IH; [lia | exact F | lia] | | auto].
      intros s r (E1 & E2 & ->). split; [exact E1 |]. split; [exact E2 | unfold key_weights; lia].
    + rewrite bool_decide_false by exact KI. eapply ends_weaken; [apply IH; [lia | exact F | lia] | | auto].
      intros s r (E1 & E2 & ->). split; [exact E1 |]. split; [exact E2 | unfold key_weights; lia].
Qed.

Lemma key_weights_le l : Forall (fun k => 0 <= kp_weight k) l ->
  0 <= key_weights pdic l <= fold_right (fun k acc => kp_weight k + acc) 0 l.
Proof. unfold key_weights. induction 1 as [| k l Hk F IH]; cbn [fold_right]; [lia |]. destruct (bool_decide _); lia. Qed.

Definition cached_ok (s : database * auth_checker) : Prop :=
  fst s = db /\ forall c, c ∈ aucache (snd s) -> satisfies t pdic c.

Lemma account_weights_nonneg l : Forall (fun a => 0 <= ap_weight a) l -> 0 <= account_weights l.
Proof. unfold account_weights. induction 1; cbn [fold_right]; lia. Qed.

(** The loop over the accounts, for a check that is right about each of them. *)
Lemma check_accounts_ends chk (X : database * auth_checker -> string -> Prop) l : forall w s,
  (forall x s, x ∈ l -> cached_ok s -> ends (chk (ap_auth x)) s (fun s' _ => cached_ok s' /\ satisfies t pdic (ap_auth x)) X) ->
  Forall (fun a => 0 <= ap_weight a) l -> 0 <= w -> w + account_weights l < 2 ^ 31 -> cached_ok s ->
  ends (check_accounts chk w l) s
    (fun s' r => cached_ok s' /\ r = w + account_weights l /\ forall x, x ∈ l -> satisfies t pdic (ap_auth x)) X.
Proof.
  induction l as [| x l IHl]; intros w s Hc F W Bd Cs; cbn [check_accounts].
  - unfold ends; cbn. split; [exact Cs |]. split; [lia | intros x X0; inversion X0].
  - apply Forall_cons in F as [Fx F]. cbn [account_weights fold_right] in *. fold (account_weights l) in *.
    pose proof (account_weights_nonneg l F) as S0.
    apply ends_bind. unfold ends at 1, gets. apply ends_bind.
    eapply ends_weaken with (Q := fun s' _ => cached_ok s' /\ satisfies t pdic (ap_auth x)) (X := X); [| | auto].
    + case_bool_decide as In; [split; [exact Cs | apply Cs, In] |]. apply ends_bind.
      eapply ends_weaken; [apply (Hc x s); [left | exact Cs] | | auto].
      intros [db2 ck2] _ [[E C2] Sx]. unfold ends, cache, update; cbn in *. split; [| exact Sx]. split; [exact E |].
      cbn. intros c. rewrite elem_of_cons. intros [-> | H]; auto.
    + intros s' _ [Cs' Sx]. apply ends_bind. unfold ends at 1. rewrite int32_ends by lia.
      eapply ends_weaken; [apply (IHl (w + ap_weight x)); [intros y s2 Hy; apply Hc; right; exact Hy | exact F | lia | lia | exact Cs'] | | auto].
      intros s2 r (C2 & -> & H2). split; [exact C2 |]. split; [lia |]. intros y. rewrite elem_of_cons. intros [-> | Hy]; auto.
Qed.

(** There is one authority of a name. *)
Lemma satisfies_within_obj n au id obj : t !! id = Some obj -> owned_by au obj = true -> satisfies_within t pdic (S n) au ->
  (forall wacc, wacc ∈ m_accounts (authoritys obj) -> satisfies_within t pdic n (ap_auth wacc)) /\
  s32 (m_threshold (authoritys obj)) <= key_weights pdic (m_keys (authoritys obj)) + account_weights (m_accounts (authoritys obj)).
Proof.
  intros L O (_ & _ & id' & obj' & L' & O' & H' & W'). assert (id' = id) as ->.
  { destruct (decide (id' = id)) as [| Ne]; [assumption |]. pose proof (table_unique _ _ _ _ _ V L' L Ne) as Cl.
    cbn in Cl. unfold owned_by in *. lia. }
  rewrite L in L'. injection L' as <-. auto.
Qed.

Lemma check_with_depth_ends n : forall au s, cached_ok s ->
  ends (check_with_depth pdic n au) s (fun s' _ => cached_ok s' /\ satisfies t pdic au)
    (fun s' _ => fst s' = db /\ ~ satisfies_within t pdic n au).
Proof.
  induction n as [| n IH]; intros au [db1 ck] [E C]; cbn in E; subst db1; [split; [reflexivity | intros []] |].
  cbn [check_with_depth]. apply ends_bind, lift_ends, get_authority_ends.
  2: { intros e N. split; [reflexivity |]. intros (A & B & id & obj & L & O & _). rewrite (N A B id obj L) in O. discriminate. }
  intros id obj A B L O. apply ends_bind, lift_ends, (deref_ends id obj); [exact L |].
  destruct (WF id obj L) as (Fk & Fa & Sm). cbv zeta. pose proof (key_weights_le _ Fk) as Kw. pose proof (account_weights_nonneg _ Fa) as Aw.
  apply ends_bind. eapply ends_weaken; [apply check_keys_ends; [lia | exact Fk | lia] | | intros ? ? []].
  intros [db1 ck1] w0 (E1 & E2 & ->). cbn in E1, E2. subst db1. rewrite Z.add_0_l.
  apply ends_bind. eapply ends_weaken; [apply (check_accounts_ends _ (fun s' _ => fst s' = db /\ ~ satisfies_within t pdic (S n) au)) | | auto].
  - intros x s Hx Cs. eapply ends_weaken; [apply IH, Cs | auto |]. intros s' e [Es N]. split; [exact Es |].
    intros Sw. apply N, (proj1 (satisfies_within_obj n au id obj L O Sw)), Hx.
  - exact Fa.
  - lia.
  - lia.
  - split; [reflexivity |]. cbn. rewrite E2. exact C.
  - intros s' r (Cs & -> & Hs). apply ends_require; intros Th.
    + split; [exact Cs |]. econstructor; eauto. lia.
    + split; [apply Cs |]. intros Sw. destruct (satisfies_within_obj n au id obj L O Sw). lia.
Qed.
End Checker.


(** ** The whole verification *)

Lemma set_emplace_elem a l x : x ∈ set_emplace a l <-> x = a \/ x ∈ l.
Proof.
  induction l as [| b l IH]; cbn [set_emplace]; [rewrite list_elem_of_singleton; split; [auto | intros [E | X]; [exact E | inversion X]] |].
  destruct (account_auth_lt a b) eqn:A; [rewrite !elem_of_cons; tauto |].
  destruct (account_auth_lt b a) eqn:B; [rewrite !elem_of_cons, IH; tauto |].
  assert (a = b) as ->; [| rewrite elem_of_cons; tauto].
  destruct a as [a1 a2], b as [b1 b2]. unfold account_auth_lt in *. cbn in *. f_equal; lia.
Qed.

Definition required_of (links : gmap Z linked_permission_object) (id : option Z) : option Z := id ≫= fun l => required_auth <$> links !! l.

(** The permission a message asks for, as the tables say. *)
Definition min_permission (links : gmap Z linked_permission_object) (acc code func : Z) : option Z :=
  match find_id (linked_by acc code func) links with
  | Some l => required_of links (Some l)
  | None => match find_id (linked_by acc code 0) links with Some l => required_of links (Some l) | None => Some xmax_active_name end
  end.

Definition permitted (db : database) (msg : message) (au : account_auth) : Prop :=
  exists p, min_permission (table linked_permission_object db) (account au) (msg_code msg) (msg_type msg) = Some p /\
    (p = Block.authority au \/
     exists e editor i info, table authority_object db !! e = Some editor /\ owned_by au editor = true /\
       table authority_object db !! i = Some info /\ owned_by (AccountAuth (account au) p) info = true /\
       ancestor (table authority_object db) e info).

Definition auth_op (msg : message) : bool :=
  (msg_code msg =? xmax_contract_name) &&
  ((updateauth_name =? msg_type msg) || (deleteauth_name =? msg_type msg) || (linkauth_name =? msg_type msg) || (unlinkauth_name =? msg_type msg)).
(** The messages whose declared authorities are compared with the linked permission. *)
Definition ordinary (msg : message) : bool := (msg_code msg =? xmax_contract_name) && negb (auth_op msg).

Section Verification.
Context `{AuthCodec} (db : database).
Hypothesis V : valid db.
Hypothesis F : forest (table authority_object db).
Hypothesis WF : weights_fit (table authority_object db).
(** No link says that any authority will do. *)
Hypothesis NA : forall id l, table linked_permission_object db !! id = Some l -> required_auth l <> xmax_sysany_name.

Local Abbreviation t := (table authority_object db).

Lemma find_ends {R} `{Object R} (p : R -> bool) Q X : Q db (find_id p (table R db)) -> ends (db_find p) db Q X.
Proof. intros HQ. exact HQ. Qed.

Lemma min_linked_permission_ends acc code func (Q : database -> option Z -> Prop) X :
  (forall p, min_permission (table linked_permission_object db) acc code func = Some p -> Q db (Some p)) ->
  ends (min_linked_permission acc code func) db Q X.
Proof.
  intros HQ. unfold min_linked_permission, find_linked_permission. apply ends_bind, ends_bind, find_ends.
  unfold min_permission, required_of in HQ.
  assert (G : forall l o, table linked_permission_object db !! l = Some o ->
    (required_auth <$> table linked_permission_object db !! l) = Some (required_auth o) /\ (required_auth o =? xmax_sysany_name) = false).
  { intros l o L. rewrite L. split; [reflexivity | apply Z.eqb_neq, (NA _ _ L)]. }
  apply ends_bind. destruct (find_id (linked_by acc code func) _) as [l |] eqn:F1.
  - apply find_id_Some in F1 as (o & L & _). destruct (G l o L) as [G1 G2]. unfold ends at 1; cbn.
    apply ends_bind, (deref_ends db l o); [exact L |]. unfold ends; cbn. rewrite G2. apply HQ, G1.
  - apply find_ends. destruct (find_id (linked_by acc code 0) _) as [l |] eqn:F2.
    + apply find_id_Some in F2 as (o & L & _). destruct (G l o L) as [G1 G2].
      apply ends_bind, (deref_ends db l o); [exact L |]. unfold ends; cbn. rewrite G2. apply HQ, G1.
    + apply HQ. reflexivity.
Qed.

Definition unchanged {A} (P : A -> Prop) (m : M database A) : Prop :=
  ends m db (fun db' a => db' = db /\ P a) (fun db' _ => db' = db).

Lemma check_permission_ends msg au : unchanged (fun _ => permitted db msg au) (check_permission msg au).
Proof.
  unfold unchanged, check_permission. apply ends_bind, min_linked_permission_ends. intros p Hp.
  destruct (Z.eqb_spec p (Block.authority au)) as [E | N].
  { split; [reflexivity |]. exists p. auto. }
  apply ends_bind, get_authority_ends; [| reflexivity]. intros e editor _ _ Le Oe. apply ends_bind, (deref_ends db e editor); [exact Le |].
  apply ends_bind, get_authority_ends; [| reflexivity]. intros i info _ _ Li Oi. apply ends_bind, (deref_ends db i info); [exact Li |].
  apply ends_bind. unfold ends at 1, gets.
  destruct (parent_permission_decided t (parent_fuel info) e editor info) as (b & -> & S); [exact F | apply (F _ _ Li) | lia |].
  apply ends_require; [intros -> | reflexivity]. split; [reflexivity |]. exists p. split; [exact Hp | right].
  exists e, editor, i, info. split_and!; try assumption. apply S. reflexivity.
Qed.

Lemma check_declared_ends msg flag aus : forall sat,
  unchanged (fun sat' => (forall x, x ∈ sat' <-> x ∈ sat \/ x ∈ aus) /\ (flag = false -> Forall (permitted db msg) aus)) (check_declared msg flag aus sat).
Proof.
  induction aus as [| au aus IH]; intros sat; unfold unchanged; cbn [check_declared].
  - split; [reflexivity |]. split; [| constructor]. intros x. split; [auto | intros [X | X]; [exact X | inversion X]].
  - apply ends_bind. eapply ends_weaken with (Q := fun db' _ => db' = db /\ (flag = false -> permitted db msg au)) (X := fun db' _ => db' = db); [| | auto].
    + destruct flag; cbn [negb]; [split; [reflexivity | discriminate] |]. eapply ends_weaken; [apply check_permission_ends | | auto].
      intros db' _ [E P]. auto.
    + intros db' _ [-> P]. eapply ends_weaken; [apply IH | | auto]. intros db' sat' [E [Hs Hp]]. split; [exact E |]. split.
      * intros x. rewrite Hs, set_emplace_elem, elem_of_cons. tauto.
      * intros Fl. constructor; auto.
Qed.

Lemma own_authorization_ends auths acnt : auths <> [] -> unchanged (fun _ => True) (one_own_authorization auths acnt).
Proof.
  intros N. unfold unchanged, one_own_authorization. destruct auths as [| auth l]; [tauto |].
  apply ends_bind, ends_require; [intros _ | reflexivity]. apply ends_require; auto.
Qed.

Lemma check_special_ends msg : (auth_op msg = true -> authorization msg <> []) ->
  unchanged (fun flag => flag = negb (ordinary msg)) (check_special msg).
Proof.
  intros N. unfold unchanged, check_special, ordinary, auth_op in *. destruct (msg_code msg =? xmax_contract_name); [cbn in * | split; reflexivity].
  assert (G : forall {A} (d : list Z -> option A) (chk : A -> M database unit),
    (forall a, unchanged (fun _ => True) (chk a)) ->
    ends (args ← unpack d (msg_data msg); chk args ;; mret true) db (fun db' flag => db' = db /\ flag = true) (fun db' _ => db' = db)).
  { intros A d chk Hc. apply ends_bind. unfold unpack. destruct (d (msg_data msg)) as [a |]; [| reflexivity].
    unfold ends at 1; cbn. apply ends_bind. eapply ends_weaken; [apply Hc | | auto]. intros db' _ [-> _]. split; reflexivity. }
  destruct (updateauth_name =? msg_type msg); [cbn in *; apply G; intros a |].
  { apply ends_bind. eapply ends_weaken; [apply own_authorization_ends, N; reflexivity | | auto]. intros db' _ [-> _].
    apply ends_bind. unfold find_authority_object, check_auth_names. apply ends_capture, ends_bind, ends_require; [intros _ | reflexivity].
    apply find_ends. apply ends_require; auto. }
  destruct (deleteauth_name =? msg_type msg); [cbn in *; apply G; intros a; apply own_authorization_ends, N; reflexivity |].
  destruct (linkauth_name =? msg_type msg); [cbn in *; apply G; intros a; apply own_authorization_ends, N; reflexivity |].
  destruct (unlinkauth_name =? msg_type msg); [cbn in *; apply G; intros a; apply own_authorization_ends, N; reflexivity |].
  split; reflexivity.
Qed.

Lemma check_messages_ends messages : forall sat, Forall (fun msg => auth_op msg = true -> authorization msg <> []) messages ->
  unchanged (fun sat' => (forall x, x ∈ sat -> x ∈ sat') /\
    Forall (fun msg => forall au, au ∈ authorization msg -> au ∈ sat' /\ (ordinary msg = true -> permitted db msg au)) messages) (check_messages messages sat).
Proof.
  induction messages as [| msg messages IH]; intros sat N; unfold unchanged; cbn [check_messages]; [split; auto |].
  apply Forall_cons in N as [N0 N]. apply ends_bind. eapply ends_weaken; [apply check_special_ends, N0 | | auto].
  intros db' flag [-> ->]. apply ends_bind. eapply ends_weaken; [apply check_declared_ends | | auto].
  intros db' sat1 [-> [H1 P1]]. eapply ends_weaken; [apply IH, N | | auto]. intros db' sat2 [E [H2 P2]]. split; [exact E |].
  split; [intros x Hx; apply H2, H1; auto |]. constructor; [| exact P2]. intros au Hau. split; [apply H2, H1; auto |].
  intros O. rewrite O in P1. specialize (P1 eq_refl). rewrite Forall_forall in P1. apply P1, Hau.
Qed.

Lemma check_all_ends keys l : forall s, cached_ok keys db s ->
  ends (for_each l (fun accauth => lift (get_authority_object accauth) ;; check keys accauth)) s
    (fun s' _ => fst s' = db /\ Forall (satisfies t keys) l) (fun s' _ => fst s' = db).
Proof.
  induction l as [| au l IH]; intros s Cs; cbn [for_each]; [split; [apply Cs | constructor] |].
  apply ends_bind, ends_bind. destruct s as [db1 ck]. pose proof (proj1 Cs) as E. cbn in E. subst db1.
  apply lift_ends, get_authority_ends; [| reflexivity]. intros id obj _ _ _ _.
  eapply ends_weaken; [apply (check_with_depth_ends keys db V WF 3 au (db, ck) Cs) | | intros s' e [E _]; exact E].
  intros s' _ [Cs' S]. eapply ends_weaken; [apply IH, Cs' | | auto]. intros s2 _ [E S2]. auto.
Qed.

Lemma check_authorization_ends messages keys : Forall (fun msg => auth_op msg = true -> authorization msg <> []) messages ->
  unchanged (fun _ => forall msg au, msg ∈ messages -> au ∈ authorization msg ->
               satisfies t keys au /\ (ordinary msg = true -> permitted db msg au)) (check_authorization messages keys).
Proof.
  intros N. unfold unchanged, check_authorization. apply ends_bind. eapply ends_weaken; [apply check_messages_ends, N | | auto].
  intros db' sat [-> [_ P]].
  pose proof (check_all_ends keys sat (db, AuthChecker (replicate (length keys) false) []) ltac:(split; [reflexivity | intros c X; inversion X])) as E.
  unfold ends, with_checker in *. destruct (for_each sat _ _) as [s [] | s e |]; [| exact E | exact E].
  destruct E as [-> S]. split; [reflexivity |]. intros msg au Hm Ha. rewrite Forall_forall in P. rewrite Forall_forall in S.
  destruct (P msg Hm au Ha). auto.
Qed.
End Verification.

(** C7: what a passed verification means.  When check_authorization returns,
    every authorization that a message declares is satisfied by the keys that
    signed the transaction, and for a message to the system contract the
    declared authority is the one its link asks for, or an ancestor of it;
    whether it passes or throws, the database is as before.  Supposed are
    sums of weights below 2^31, no link to sys.any, and that the messages on
    authorities declare an authorization, without which the code reads past
    the end of a vector. *)
Theorem verified_means_authorized `{AuthCodec} db messages keys : valid db -> forest (table authority_object db) ->
  weights_fit (table authority_object db) ->
  (forall id l, table linked_permission_object db !! id = Some l -> required_auth l <> xmax_sysany_name) ->
  Forall (fun msg => auth_op msg = true -> authorization msg <> []) messages ->
  ends (check_authorization messages keys) db
    (fun db' _ => db' = db /\ forall msg au, msg ∈ messages -> au ∈ authorization msg ->
       satisfies (table authority_object db) keys au /\ (ordinary msg = true -> permitted db msg au))
    (fun db' _ => db' = db).
Proof. intros V F WF NA N. exact (check_authorization_ends db V F WF NA messages keys N). Qed.

(** ** The format of weights *)

Fixpoint sum_weights {T} (l : list (T * Z)) : Z := match l with [] => 0 | (_, w) :: l => w + sum_weights l end.

Lemma weigh_spec {T} (lt : T -> T -> bool) (l : list (T * Z)) : forall w r, 0 <= w < 2 ^ 16 -> Forall (fun x => 0 <= x.2) l ->
  weigh lt l w = Some r -> 0 <= r < 2 ^ 16 /\ r <= w + sum_weights l.
Proof.
  induction l as [| [t w1] l IH]; intros w r W F E; [injection E as <-; cbn; lia |].
  apply Forall_cons in F as [F1 F]. cbn [snd] in F1.
  assert (U : 0 <= u16 (w + w1) <= w + w1 /\ u16 (w + w1) < 2 ^ 16).
  { unfold u16. pose proof (Z.mod_pos_bound (w + w1) (2 ^ 16) ltac:(lia)). pose proof (Z.mod_le (w + w1) (2 ^ 16) ltac:(lia) ltac:(lia)). lia. }
  cbn [weigh sum_weights] in *. destruct l as [| [t' w'] l]; [injection E as <-; cbn; lia |].
  destruct (lt t t'); [| discriminate]. apply IH in E; [lia | lia | exact F].
Qed.

(** The signatures of all keys and all accounts of an authority. *)
Definition total_weight (auth : authority) : Z :=
  sum_weights (map (fun k => (kw_key k, kw_weight k)) (auth_keys auth)) +
  sum_weights (map (fun a => (permission a, aw_weight a)) (auth_accounts auth)).

(** An authority whose weights are accepted can be satisfied: its
    threshold is positive, fits an int, and is at most the weight of all its
    keys and accounts together, although the sum is taken in sixteen bits. *)
Theorem accepted_weights_reach_threshold auth :
  0 <= threshold auth -> Forall (fun k => 0 <= kw_weight k) (auth_keys auth) -> Forall (fun a => 0 <= aw_weight a) (auth_accounts auth) ->
  validate_weight_format auth = true ->
  0 < s32 (threshold auth) /\ s32 (threshold auth) = threshold auth /\ threshold auth <= total_weight auth.
Proof.
  intros T0 Fk Fa E. unfold validate_weight_format in E.
  destruct (_ <? _); [discriminate |]. destruct (Z.eqb_spec (threshold auth) 0) as [| N]; [discriminate |].
  destruct (weigh bytes_lt _ 0) as [w |] eqn:Wk; [| discriminate]. destruct (weigh account_auth_lt _ w) as [r |] eqn:Wa; [| discriminate].
  apply weigh_spec in Wk; [| lia | apply Forall_map; exact Fk]. apply weigh_spec in Wa; [| lia | apply Forall_map; exact Fa].
  assert (threshold auth < 2 ^ 16) by lia. unfold s32, swrap. rewrite Z.mod_small by lia. rewrite (proj2 (Z.ltb_lt _ _)) by lia.
  unfold total_weight. lia.
Qed.

(** ** Witnesses: an account with an owner and an active authority *)

Definition toy_k1 : list Z := repeat 1 33.
Definition toy_k2 : list Z := repeat 2 33.
Definition toy_owner : authority_object :=
  AuthorityObject 100 xmax_owner_name 0 (MappedAuthoritys 1 [KeyPermission 1 toy_k1] []) 5.
Definition toy_active : authority_object :=
  AuthorityObject 100 xmax_active_name 0
    (MappedAuthoritys 2 [KeyPermission 1 toy_k2] [AccountPermission 1 (AccountAuth 100 xmax_owner_name)]) 5.
Definition toy_auth_db : database := created toy_active (created toy_owner empty_db).

Lemma toy_auth_valid : valid toy_auth_db.
Proof. apply created_valid, created_valid, empty_valid. Qed.

Lemma toy_auth_table id a : table authority_object toy_auth_db !! id = Some a -> (id = 0 /\ a = toy_owner) \/ (id = 1 /\ a = toy_active).
Proof.
  assert (E : map_to_list (table authority_object toy_auth_db) = [(1, toy_active); (0, toy_owner)]) by (vm_compute; reflexivity).
  rewrite <- elem_of_map_to_list, E, !elem_of_cons, elem_of_nil. intros [X | [X | []]]; injection X as -> ->; auto.
Qed.

Lemma toy_auth_forest : forest (table authority_object toy_auth_db).
Proof. intros id a L. destruct (toy_auth_table id a L) as [[-> ->] | [-> ->]]; cbn; lia. Qed.

Lemma toy_auth_weights : weights_fit (table authority_object toy_auth_db).
Proof.
  intros id a L. destruct (toy_auth_table id a L) as [[-> ->] | [-> ->]]; cbn; split_and!; repeat constructor; cbn; lia.
Qed.

Lemma toy_no_links id l : table linked_permission_object toy_auth_db !! id = Some l -> required_auth l <> xmax_sysany_name.
Proof.
  assert (E : map_to_list (table linked_permission_object toy_auth_db) = []) by (vm_compute; reflexivity).
  rewrite <- elem_of_map_to_list, E, elem_of_nil. contradiction.
Qed.

Lemma parent_permission_decides_ancestry_witness :
  exists b, parent_permission_valid 1 (table authority_object toy_auth_db) 0 toy_owner toy_active = Some b /\
    (b = true <-> auth_owner toy_owner = auth_owner toy_active /\ ancestor (table authority_object toy_auth_db) 0 toy_active).
Proof. apply (parent_permission_decides_ancestry _ 1 0 toy_owner toy_active toy_auth_forest); vm_compute; [discriminate | repeat constructor]. Defined.


#[local] Instance toy_codec : AuthCodec :=
  { as_updateauth _ := None; as_deleteauth _ := None; as_linkauth _ := None; as_unlinkauth _ := None }.

(** The owner signs where the link asks for the active authority. *)
Definition toy_message : message := Message xmax_contract_name (name_of "transfer") [AccountAuth 100 xmax_owner_name] [].

Lemma verified_means_authorized_witness :
  ends (check_authorization [toy_message] [toy_k1]) toy_auth_db
    (fun db' _ => satisfies (table authority_object toy_auth_db) [toy_k1] (AccountAuth 100 xmax_owner_name) /\
       permitted toy_auth_db toy_message (AccountAuth 100 xmax_owner_name)) no_exc.
Proof.
  assert (N : Forall (fun msg => auth_op msg = true -> authorization msg <> []) [toy_message]) by (repeat constructor; discriminate).
  pose proof (verified_means_authorized toy_auth_db [toy_message] [toy_k1] toy_auth_valid toy_auth_forest toy_auth_weights toy_no_links N) as E.
  assert (R : match check_authorization [toy_message] [toy_k1] toy_auth_db with Ret _ _ => True | _ => False end) by (vm_compute; exact I).
  assert (O : ordinary toy_message = true) by (vm_compute; reflexivity).
  unfold ends in *. destruct (check_authorization _ _ _) as [db' u | |]; [| contradiction ..].
  destruct E as [_ E]. destruct (E toy_message (AccountAuth 100 xmax_owner_name)) as [S P]; [left | left | auto].
Defined.

Definition toy_authority : authority := Authority 2 [KeyWeight toy_k1 1; KeyWeight toy_k2 1] [].

Lemma accepted_weights_reach_threshold_witness :
  validate_weight_format toy_authority = true /\ threshold toy_authority <= total_weight toy_authority.
Proof.
  split; [vm_compute; reflexivity |].
  apply (accepted_weights_reach_threshold toy_authority); [cbn; lia | repeat constructor; cbn; lia | constructor | vm_compute; reflexivity].
Defined.

(** Sixteen bits are not enough for every authority: the sum wraps around. *)
Example weights_wrap_around :
  validate_weight_format (Authority 3 [KeyWeight toy_k1 65535; KeyWeight toy_k2 2] []) = false.
Proof. vm_compute. reflexivity. Qed.

(** An update keeps the keys it was meant to replace. *)
Example updated_keys_stay :
  m_keys (assign_authoritys (Authority 1 [KeyWeight toy_k2 1] []) (authoritys toy_owner)) = [KeyPermission 1 toy_k1; KeyPermission 1 toy_k2].
Proof. reflexivity. Qed.
