(* ===== verification/Sums.v ===== *)
(** Sums over the objects of a table. *)

From Stdlib Require Import ZArith Lia Bool.
From stdpp Require Import base decidable gmap fin_maps.
Local Open Scope Z_scope.

Definition msum {R} (f : R -> Z) (m : gmap Z R) : Z := map_fold (fun _ r acc => f r + acc) 0 m.

Section Sums.
Context {R : Type}.
Implicit Types (f g : R -> Z) (m : gmap Z R).

Lemma msum_empty f : msum f ∅ = 0.
Proof. apply map_fold_empty. Qed.

Lemma msum_new f m i x : m !! i = None -> msum f (<[i := x]> m) = f x + msum f m.
Proof. intros N. unfold msum. rewrite map_fold_insert_L; [reflexivity | intros; lia | exact N]. Qed.

Lemma msum_delete f m i x : m !! i = Some x -> msum f m = f x + msum f (delete i m).
Proof. intros L. unfold msum. rewrite (map_fold_delete_L _ _ i x m); [reflexivity | intros; lia | exact L]. Qed.

Lemma msum_update f m i x y : m !! i = Some x -> msum f (<[i := y]> m) = msum f m + (f y - f x).
Proof.
  intros L. rewrite (msum_delete f m i x L), (msum_delete f (<[i := y]> m) i y), delete_insert_eq by apply lookup_insert_eq. lia.
Qed.

Lemma msum_ind (P : gmap Z R -> Prop) : P ∅ -> (forall i x m, m !! i = None -> P m -> P (<[i := x]> m)) -> forall m, P m.
Proof. intros H0 HS m. induction m using map_ind; auto. Qed.

Lemma msum_ext f g m : (forall i x, m !! i = Some x -> f x = g x) -> msum f m = msum g m.
Proof.
  induction m as [| i x m N IH] using msum_ind; intros E; [rewrite !msum_empty; reflexivity |].
  rewrite !msum_new by exact N. f_equal; [apply (E i x), lookup_insert_eq |].
  apply IH. intros j y L. apply (E j y). rewrite lookup_insert_ne by congruence. exact L.
Qed.

Lemma msum_nonneg f m : (forall i x, m !! i = Some x -> 0 <= f x) -> 0 <= msum f m.
Proof.
  induction m as [| i x m N IH] using msum_ind; intros E; [rewrite msum_empty; lia |]. rewrite msum_new by exact N.
  pose proof (E i x (lookup_insert_eq _ _ _)). enough (0 <= msum f m) by lia.
  apply IH. intros j y L. apply (E j y). rewrite lookup_insert_ne by congruence. exact L.
Qed.

Lemma msum_lookup f m i x : (forall i x, m !! i = Some x -> 0 <= f x) -> m !! i = Some x -> f x <= msum f m.
Proof.
  intros E L. rewrite (msum_delete f m i x L). enough (0 <= msum f (delete i m)) by lia.
  apply msum_nonneg. intros j y. rewrite lookup_delete_Some. intros [_ Lj]. eauto.
Qed.

Lemma msum_le f g m : (forall i x, m !! i = Some x -> f x <= g x) -> msum f m <= msum g m.
Proof.
  induction m as [| i x m N IH] using msum_ind; intros E; [rewrite !msum_empty; lia |]. rewrite !msum_new by exact N.
  pose proof (E i x (lookup_insert_eq _ _ _)). enough (msum f m <= msum g m) by lia.
  apply IH. intros j y L. apply (E j y). rewrite lookup_insert_ne by congruence. exact L.
Qed.

Lemma msum_plus f g m : msum (fun x => f x + g x) m = msum f m + msum g m.
Proof. induction m as [| i x m N IH] using msum_ind; [rewrite !msum_empty; reflexivity |]. rewrite !msum_new by exact N. lia. Qed.

Lemma msum_zero m : msum (fun _ => 0) m = 0.
Proof. induction m as [| i x m N IH] using msum_ind; [apply msum_empty |]. rewrite !msum_new by exact N. lia. Qed.
End Sums.
