(* ===== verification/Voting.v ===== *)
(** Voting for builders
    (blockchain/native_contract/xmax_voting.cpp,
    blockchain/chain/include/objects/vote_objects.hpp).

    proxied_votes and total_votes are unchecked 128-bit multiprecision
    integers: they wrap around.  The stakes are share_type, and their overflow
    is undefined.  A new voter_info_object does not initialize its integers:
    [raw] is what they read as, by the id of the object. *)

From Stdlib Require Import ZArith Lia Bool String List.
From stdpp Require Import base decidable gmap list sorting.
From S2P Require Import Prelude ChainUtils Block Effects UndoIndex Objects Tables Context.
Import ListNotations.
Local Open Scope Z_scope.

Local Abbreviation database := (list (generic_index row)).

Definition builders_per_round : Z := 21.
Definition blocks_per_builder : Z := 1.
Definition blocks_per_round : Z := blocks_per_builder * builders_per_round.

(** ** Members of the objects *)

Definition set_staked (x : Z) (a : voter_info_object) : voter_info_object :=
  VoterInfo (vt_owner a) (proxy a) (is_proxy a) (proxied_votes a) (vt_builders a) x
    (unstaking a) (unstake_per_week a) (deferred_trx_id a) (last_update a) (last_unstake_time a).
Definition set_proxied_votes (x : Z) (a : voter_info_object) : voter_info_object :=
  VoterInfo (vt_owner a) (proxy a) (is_proxy a) x (vt_builders a) (staked a)
    (unstaking a) (unstake_per_week a) (deferred_trx_id a) (last_update a) (last_unstake_time a).
Definition set_last_update (x : Z) (a : voter_info_object) : voter_info_object :=
  VoterInfo (vt_owner a) (proxy a) (is_proxy a) (proxied_votes a) (vt_builders a) (staked a)
    (unstaking a) (unstake_per_week a) (deferred_trx_id a) x (last_unstake_time a).
Definition set_is_proxy (x : Z) (a : voter_info_object) : voter_info_object :=
  VoterInfo (vt_owner a) (proxy a) x (proxied_votes a) (vt_builders a) (staked a)
    (unstaking a) (unstake_per_week a) (deferred_trx_id a) (last_update a) (last_unstake_time a).
Definition set_choice (p : Z) (bs : list Z) (a : voter_info_object) : voter_info_object :=
  VoterInfo (vt_owner a) p (is_proxy a) (proxied_votes a) bs (staked a)
    (unstaking a) (unstake_per_week a) (deferred_trx_id a) (last_update a) (last_unstake_time a).
Definition clear_unstaking (a : voter_info_object) : voter_info_object :=
  VoterInfo (vt_owner a) (proxy a) (is_proxy a) (proxied_votes a) (vt_builders a) (staked a)
    0 0 0 (last_update a) (last_unstake_time a).

Definition set_total_votes (x : Z) (b : builder_info_object) : builder_info_object := BuilderInfo (bd_owner b) x (builder_key b).
Definition set_builder_key (k : list Z) (b : builder_info_object) : builder_info_object := BuilderInfo (bd_owner b) (total_votes b) k.

(** ** Messages (foundation/basetypes/include/gentypes.hpp) *)

Record votebuilder := VoteBuilder { vb_voter : Z; vb_proxy : Z; vb_builders : list Z }.
Record regbuilder := RegBuilder { rb_builder : Z; rb_builder_key : list Z }.

(** The members that neither the constructor nor its caller sets. *)
Record uninitialized := Raw { raw_is_proxy : Z; raw_unstaking : Z; raw_unstake_per_week : Z; raw_deferred_trx_id : Z }.

(** std::set_difference of two ranges. *)
Fixpoint set_difference (a : list Z) : list Z -> list Z :=
  match a with
  | [] => fun _ => []
  | x :: a' =>
      fix against (b : list Z) : list Z :=
        match b with
        | [] => x :: a'
        | y :: b' =>
            if x <? y then x :: set_difference a' b
            else if y <? x then against b' else set_difference a' b'
        end
  end.

Section Voting.
Context (cx : call) (raw : Z -> uninitialized) (xmax_contract_name : Z) (xmax_build_public_key : list Z).

Definition find_voter (n : Z) : M world (option Z) := on_db (db_find (fun v => vt_owner v =? n)).
Definition find_builder (n : Z) : M world (option Z) := on_db (db_find (fun b => bd_owner b =? n)).
Definition the_voter (id : Z) : M world voter_info_object := on_db (deref id).
Definition the_builder (id : Z) : M world builder_info_object := on_db (deref id).

(** pi.total_votes += votes *)
Definition add_votes (d : Z) : M builder_info_object unit := update (fun b => set_total_votes (u128 (total_votes b + d)) b).
(** a.proxied_votes += votes *)
Definition add_proxied (d : Z) : M voter_info_object unit := update (fun a => set_proxied_votes (u128 (proxied_votes a + d)) a).
(** a.staked += amount *)
Definition add_staked (d : Z) : M voter_info_object unit :=
  a ← gets (fun a => a);
  s ← int64 (staked a + d);
  update (set_staked s).

Definition never_existed : string := "never existed builder".

(** The loop over a list of builders that changes their votes. *)
Definition change_votes (d : Z) (bs : list Z) : M world unit :=
  for_each bs (fun p =>
    prod ← find_builder p;
    match prod with
    | None => throw never_existed
    | Some prod => on_db (db_modify prod (add_votes d))
    end).

(** The loop over the newly elected builders. *)
Definition elect (d : Z) (direct : bool) (bs : list Z) : M world unit :=
  for_each bs (fun p =>
    builder ← find_builder p;
    match builder with
    | None => throw "builder is not registered"
    | Some builder =>
        b ← the_builder builder;
        require (negb direct || is_actived b) "builder is not currently registered" ;;
        on_db (db_modify builder (add_votes d))
    end).

Definition increase_votes (acnt amount : Z) : M world unit :=
  found ← find_voter acnt;
  voter ← match found with
          | None =>
              on_db (db_create (fun id =>
                VoterInfo acnt 0 (raw_is_proxy (raw id)) 0 [] amount (raw_unstaking (raw id))
                  (raw_unstake_per_week (raw id)) (raw_deferred_trx_id (raw id)) (current_time cx) 0))
          | Some voter =>
              on_db (db_modify voter (update (set_last_update (current_time cx)) ;; add_staked amount)) ;;
              mret voter
          end;
  v ← the_voter voter;
  builders ← (if negb (proxy v =? 0) then
                found ← find_voter (proxy v);
                match found with
                | None => throw "selected proxy not found"
                | Some px =>
                    on_db (db_modify px (add_proxied amount)) ;;
                    p ← the_voter px;
                    mret (if negb (is_proxy p =? 0) then vt_builders p else [])
                end
              else mret (vt_builders v));
  change_votes amount builders.

Definition decrease_votes (acnt amount : Z) : M world unit :=
  found ← find_voter acnt;
  match found with
  | None => throw "stake not found"
  | Some voter =>
      v ← the_voter voter;
      if 0 <? amount then
        require (amount <=? staked v) "cannot unstake more than total stake amount" ;;
        on_db (db_modify voter (add_staked (- amount) ;; update (set_last_update (current_time cx)))) ;;
        builders ← (if negb (proxy v =? 0) then
                      found ← find_voter (proxy v);
                      match found with
                      | None => undefined
                      | Some px =>
                          on_db (db_modify px (add_proxied (- amount))) ;;
                          p ← the_voter px;
                          mret (if negb (is_proxy p =? 0) then vt_builders p else [])
                      end
                    else mret (vt_builders v));
        change_votes (- amount) builders
      else
        on_db (db_modify voter
          (a ← gets (fun a => a);
           add_staked (unstaking a) ;;
           update clear_unstaking ;;
           update (set_last_update (current_time cx))))
  end.

(** for (i = 1; ...) builders[i - 1] < builders[i] *)
Fixpoint strictly_sorted (l : list Z) : bool :=
  match l with
  | a :: (b :: _) as l' => (a <? b) && strictly_sorted l'
  | _ => true
  end.

Definition vote_builder (vp : votebuilder) : M world unit :=
  (if negb (vb_proxy vp =? 0) then
     require (Z.of_nat (length (vb_builders vp)) =? 0) "cannot vote for builders and proxy at same time" ;;
     require_recipient cx (vb_proxy vp)
   else
     require (Z.of_nat (length (vb_builders vp)) <=? 30) "attempt to vote for too many builders" ;;
     require (strictly_sorted (vb_builders vp)) "builder votes must be unique and sorted") ;;
  found ← find_voter (vb_voter vp);
  match found with
  | None => throw "no stake to vote"
  | Some voter =>
      v ← the_voter voter;
      require ((0 <? staked v) || (negb (is_proxy v =? 0) && (0 <? proxied_votes v))) "no stake to vote" ;;
      require ((is_proxy v =? 0) || (vb_proxy vp =? 0)) "account registered as a proxy is not allowed to use a proxy" ;;
      if negb (proxy v =? 0) && (proxy v =? vb_proxy vp) then mret tt
      else
        old_builders ← (if negb (proxy v =? 0) then
                          found ← find_voter (proxy v);
                          match found with
                          | None => throw "old proxy not found"
                          | Some old_proxy =>
                              on_db (db_modify old_proxy (add_proxied (- staked v))) ;;
                              p ← the_voter old_proxy;
                              mret (if negb (is_proxy p =? 0) then vt_builders p else [])
                          end
                        else mret (vt_builders v));
        new_builders ← (if negb (vb_proxy vp =? 0) then
                          found ← find_voter (vb_proxy vp);
                          match found with
                          | None => throw "proxy not found"
                          | Some new_proxy =>
                              p ← the_voter new_proxy;
                              require (negb (is_proxy p =? 0)) "proxy not found" ;;
                              v ← the_voter voter;
                              on_db (db_modify new_proxy (add_proxied (staked v))) ;;
                              p ← the_voter new_proxy;
                              mret (vt_builders p)
                          end
                        else mret (vb_builders vp));
        v ← the_voter voter;
        let votes := u128 (if negb (is_proxy v =? 0) then u128 (staked v) + proxied_votes v else staked v) in
        (if negb (Z.of_nat (length old_builders) =? 0)
         then change_votes (- votes) (set_difference old_builders new_builders) else mret tt) ;;
        elect votes (vb_proxy vp =? 0)
          (if negb (Z.of_nat (length old_builders) =? 0) then set_difference new_builders old_builders else new_builders) ;;
        on_db (db_modify voter
          (update (set_choice (vb_proxy vp) (vb_builders vp)) ;; update (set_last_update (current_time cx))))
  end.

Definition reg_builder (reg : regbuilder) : M world unit :=
  prod ← find_builder (rb_builder reg);
  match prod with
  | Some prod => on_db (db_modify prod (update (set_builder_key (rb_builder_key reg))))
  | None => on_db (db_create (fun _ => BuilderInfo (rb_builder reg) 0 (rb_builder_key reg))) ;; mret tt
  end.

Definition unreg_builder (builder : Z) : M world unit :=
  prod ← find_builder builder;
  match prod with
  | None => throw "builder not found"
  | Some prod => on_db (db_modify prod (update (set_builder_key empty_public_key)))
  end.

(** The loop of reg_proxy and unreg_proxy: proxy->proxied_votes is read at each turn. *)
Definition propagate (sign : Z) (px : Z) : M world unit :=
  p ← the_voter px;
  if 0 <? proxied_votes p then
    for_each (vt_builders p) (fun b =>
      prod ← find_builder b;
      match prod with
      | None => throw never_existed
      | Some prod =>
          p ← the_voter px;
          on_db (db_modify prod (add_votes (sign * proxied_votes p)))
      end)
  else mret tt.

Definition reg_proxy (name : Z) : M world unit :=
  found ← find_voter name;
  match found with
  | Some px =>
      p ← the_voter px;
      require (is_proxy p =? 0) "account is already a proxy" ;;
      require (proxy p =? 0) "account that uses a proxy is not allowed to become a proxy" ;;
      on_db (db_modify px (update (set_is_proxy 1) ;; update (set_last_update (current_time cx)))) ;;
      propagate 1 px
  | None =>
      on_db (db_create (fun id =>
        VoterInfo name 0 1 0 [] 0 (raw_unstaking (raw id)) (raw_unstake_per_week (raw id))
          (raw_deferred_trx_id (raw id)) (current_time cx) 0)) ;;
      mret tt
  end.

Definition unreg_proxy (name : Z) : M world unit :=
  found ← find_voter name;
  match found with
  | None => throw "proxy not found"
  | Some px =>
      p ← the_voter px;
      require (is_proxy p =? 1) "account is not a proxy" ;;
      on_db (db_modify px (update (set_is_proxy 0) ;; update (set_last_update (current_time cx)))) ;;
      propagate (-1) px
  end.

(** ** The builders of the next round *)

(** std::greater on pairs of votes and id. *)
Definition vote_order_ge (x y : Z * builder_info_object) : Prop :=
  total_votes y.2 < total_votes x.2 \/ (total_votes x.2 = total_votes y.2 /\ y.1 <= x.1).
#[export] Instance vote_order_ge_dec x y : Decision (vote_order_ge x y).
Proof. unfold vote_order_ge. apply _. Defined.

(** The index by_votes. *)
Definition by_votes (m : gmap Z builder_info_object) : list (Z * builder_info_object) := merge_sort vote_order_ge (map_to_list m).

(** The loop with its counter and break. *)
Fixpoint take_round (count : Z) (l : list (Z * builder_info_object)) : list builder_info :=
  match l with
  | [] => []
  | it :: l =>
      Builder (bd_owner it.2) (builder_key it.2) ::
      (if blocks_per_round <=? count + 1 then [] else take_round (count + 1) l)
  end.

Definition name_le (x y : builder_info) : Prop := builder_name x <= builder_name y.
#[export] Instance name_le_dec x y : Decision (name_le x y).
Proof. unfold name_le. apply _. Defined.

Definition next_round (db : database) : list builder_info :=
  let round := take_round 0 (filter (fun it => is_actived it.2) (by_votes (table builder_info_object db))) in
  match round with
  | [] => [Builder xmax_contract_name xmax_build_public_key]
  | _ => merge_sort name_le round
  end.
End Voting.
