(* ===== verification/VotingThm.v ===== *)
(** The books of the vote: the votes a builder is credited with are the stakes
    of those who vote for it, directly or through an active proxy, and every
    operation of xmax_voting keeps them so. *)

From Stdlib Require Import ZArith Lia Bool String List Sorted.
From stdpp Require Import base decidable gmap fin_maps list sorting.
From S2P Require Import Prelude ChainUtils Block Effects UndoIndex UndoIndexThm Objects Tables Context Sums Voting.
Import ListNotations.
Local Open Scope Z_scope.

Local Abbreviation database := (list (generic_index row)).
Local Abbreviation voters := (gmap Z voter_info_object).
Local Abbreviation builders := (gmap Z builder_info_object).

(** ** Arithmetic modulo 2^128 *)

Lemma u128_add_l a b : u128 (u128 a + b) = u128 (a + b).
Proof. apply Zplus_mod_idemp_l. Qed.

Lemma u128_add_r a b : u128 (a + u128 b) = u128 (a + b).
Proof. apply Zplus_mod_idemp_r. Qed.

Lemma u128_u128 a : u128 (u128 a) = u128 a.
Proof. apply Zmod_mod. Qed.

Lemma u128_opp a b : u128 a = u128 b -> u128 (- a) = u128 (- b).
Proof. unfold u128. intros E. rewrite <- (Z.sub_0_l a), <- (Z.sub_0_l b), Zminus_mod, E, <- Zminus_mod. reflexivity. Qed.

Lemma u128_add a a' b b' : u128 a = u128 a' -> u128 b = u128 b' -> u128 (a + b) = u128 (a' + b').
Proof. intros Ea Eb. rewrite <- u128_add_l, <- u128_add_r, Ea, Eb, u128_add_l, u128_add_r. reflexivity. Qed.

Lemma u128_small a : 0 <= a < 2 ^ 128 -> u128 a = a.
Proof. apply Z.mod_small. Qed.

Lemma u128_range a : 0 <= u128 a < 2 ^ 128.
Proof. apply Z.mod_pos_bound. lia. Qed.

(** ** Votes moved between builders *)

Definition registered (B : builders) (n : Z) : Prop := exists id b, B !! id = Some b /\ bd_owner b = n.
Definition in_range (B : builders) : Prop := forall id b, B !! id = Some b -> u128 (total_votes b) = total_votes b.
Definition one_each (B : builders) : Prop := forall i j b b', B !! i = Some b -> B !! j = Some b' -> bd_owner b = bd_owner b' -> i = j.

(** Every builder [n] has [d n] votes more, nothing else differs. *)
Definition moved (d : Z -> Z) (B B' : builders) : Prop := forall id,
  B' !! id = (fun b => set_total_votes (u128 (total_votes b + d (bd_owner b))) b) <$> B !! id.

Lemma moved_refl B : in_range B -> moved (fun _ => 0) B B.
Proof. intros R id. destruct (B !! id) as [b |] eqn:E; [| reflexivity]. cbn. rewrite Z.add_0_r, (R _ _ E). destruct b; reflexivity. Qed.

Lemma moved_range d B B' : moved d B B' -> in_range B'.
Proof. intros M id b. rewrite M. destruct (B !! id); [| discriminate]. intros [= <-]. apply u128_u128. Qed.

Lemma moved_trans d d' B B' B'' : moved d B B' -> moved d' B' B'' -> moved (fun n => d n + d' n) B B''.
Proof.
  intros M M' id. rewrite M', M. destruct (B !! id) as [b |]; [| reflexivity]. cbn. rewrite u128_add_l, Z.add_assoc. reflexivity.
Qed.

Lemma moved_registered d B B' n : moved d B B' -> registered B' n <-> registered B n.
Proof.
  intros M. split; intros (id & b & L & E).
  - rewrite M in L. destruct (B !! id) as [b' |] eqn:E'; [| discriminate]. injection L as <-. exists id, b'. auto.
  - exists id, (set_total_votes (u128 (total_votes b + d (bd_owner b))) b). rewrite M, L. auto.
Qed.

Lemma moved_ext d d' B B' : (forall n, registered B n -> u128 (d n) = u128 (d' n)) -> moved d B B' -> moved d' B B'.
Proof.
  intros E M id. rewrite M. destruct (B !! id) as [b |] eqn:L; [| reflexivity]. cbn. do 2 f_equal.
  apply u128_add; [reflexivity | apply E; exists id, b; auto].
Qed.

Definition only (n d m : Z) : Z := if m =? n then d else 0.

Lemma moved_one id b d B : B !! id = Some b -> in_range B -> one_each B ->
  moved (only (bd_owner b) d) B (<[id := set_total_votes (u128 (total_votes b + d)) b]> B).
Proof.
  intros L R U j. unfold only. destruct (decide (j = id)) as [-> | N].
  - rewrite lookup_insert_eq, L. cbn. rewrite Z.eqb_refl. reflexivity.
  - rewrite lookup_insert_ne by congruence. destruct (B !! j) as [b' |] eqn:E; [| reflexivity]. cbn.
    destruct (Z.eqb_spec (bd_owner b') (bd_owner b)) as [D | _]; [destruct N; eapply U; eauto |].
    rewrite Z.add_0_r, (R _ _ E). destruct b'; reflexivity.
Qed.

Definition among (bs : list Z) (d m : Z) : Z := if bool_decide (m ∈ bs) then d else 0.

Lemma among_cons n bs d m : n ∉ bs -> only n d m + among bs d m = among (n :: bs) d m.
Proof.
  intros N. unfold only, among. destruct (Z.eqb_spec m n) as [-> | D].
  - rewrite bool_decide_false, bool_decide_true by (exact N || left). lia.
  - rewrite (bool_decide_ext (m ∈ n :: bs) (m ∈ bs)); [lia |]. rewrite elem_of_cons. tauto.
Qed.

(** ** The two tables in a run *)

Record st (db0 : database) (V : voters) (B : builders) (w : world) : Prop := {
  st_valid : valid (w_db w);
  st_voters : table voter_info_object (w_db w) = V;
  st_builders : table builder_info_object (w_db w) = B;
  st_frame : forall i, i <> 9%nat -> i <> 10%nat -> slot_rows i (w_db w) = slot_rows i db0 }.

Lemma st_start w : valid (w_db w) -> st (w_db w) (table voter_info_object (w_db w)) (table builder_info_object (w_db w)) w.
Proof. intros V. split; auto. Qed.

Lemma st_same db0 V B w w' : w_db w' = w_db w -> st db0 V B w -> st db0 V B w'.
Proof. intros E [? ? ? ?]. split; rewrite E; assumption. Qed.

Lemma st_one_voter db0 V B w i j v v' : st db0 V B w -> V !! i = Some v -> V !! j = Some v' -> vt_owner v = vt_owner v' -> i = j.
Proof.
  intros [Vd <- _ _] Hi Hj E. destruct (decide (i = j)) as [| N]; [assumption |].
  pose proof (table_unique _ _ _ _ _ Vd Hi Hj N) as C. cbn in C. lia.
Qed.

Lemma st_one_builder db0 V B w : st db0 V B w -> one_each B.
Proof.
  intros [Vd _ <- _] i j v v' Hi Hj E. destruct (decide (i = j)) as [| N]; [assumption |].
  pose proof (table_unique _ _ _ _ _ Vd Hi Hj N) as C. cbn in C. lia.
Qed.

Section Steps.
Context (db0 : database) {A : Type}.
Implicit Types (V : voters) (B : builders) (w : world) (Q : world -> A -> Prop) (X : world -> string -> Prop).

Lemma find_voter_step V B w n (k : option Z -> M world A) Q X : st db0 V B w ->
  ends (k (find_id (fun v => vt_owner v =? n) V)) w Q X -> ends (find_voter n ≫= k) w Q X.
Proof. intros S E. apply wp_find. rewrite (st_voters _ _ _ _ S). exact E. Qed.

Lemma find_builder_step V B w n (k : option Z -> M world A) Q X : st db0 V B w ->
  ends (k (find_id (fun b => bd_owner b =? n) B)) w Q X -> ends (find_builder n ≫= k) w Q X.
Proof. intros S E. apply wp_find. rewrite (st_builders _ _ _ _ S). exact E. Qed.

Lemma the_voter_step V B w id v (k : voter_info_object -> M world A) Q X : st db0 V B w -> V !! id = Some v ->
  ends (k v) w Q X -> ends (the_voter id ≫= k) w Q X.
Proof. intros S L E. apply wp_deref with (r := v); [rewrite (st_voters _ _ _ _ S); exact L | exact E]. Qed.

Lemma the_builder_step V B w id v (k : builder_info_object -> M world A) Q X : st db0 V B w -> B !! id = Some v ->
  ends (k v) w Q X -> ends (the_builder id ≫= k) w Q X.
Proof. intros S L E. apply wp_deref with (r := v); [rewrite (st_builders _ _ _ _ S); exact L | exact E]. Qed.

Lemma voter_step V B w id v v' f (k : unit -> M world A) Q X : st db0 V B w -> V !! id = Some v ->
  f v = Ret v' tt -> vt_owner v' = vt_owner v ->
  (forall w', st db0 (<[id := v']> V) B w' -> ends (k tt) w' Q X) -> ends (on_db (db_modify id f) ≫= k) w Q X.
Proof.
  intros S L F O K. apply wp_modify with (r := v); [apply S | rewrite (st_voters _ _ _ _ S); exact L |]. rewrite F. split.
  - intros []; cbn; try reflexivity. congruence.
  - intros w' _ C. apply K. split; [apply C | | |].
    + rewrite (changed_table _ _ _ _ C), (st_voters _ _ _ _ S). reflexivity.
    + rewrite (changed_other builder_info_object _ _ _ C) by discriminate. apply S.
    + intros i N9 N10. rewrite (changed_others _ _ _ _ C) by exact N9. apply S; assumption.
Qed.

Lemma new_voter_step V B w c (k : Z -> M world A) Q X : st db0 V B w ->
  (forall id w', V !! id = None -> st db0 (<[id := c id]> V) B w' -> ends (k id) w' Q X) -> (forall e, X w e) ->
  ends (on_db (db_create c) ≫= k) w Q X.
Proof.
  intros S K HX. apply wp_create; [apply S | | exact HX]. intros id w' F U _ C. rewrite (st_voters _ _ _ _ S) in F.
  apply K; [exact F |]. split; [apply C | | |].
  - rewrite (changed_table _ _ _ _ C), (st_voters _ _ _ _ S). reflexivity.
  - rewrite (changed_other builder_info_object _ _ _ C) by discriminate. apply S.
  - intros i N9 N10. rewrite (changed_others _ _ _ _ C) by exact N9. apply S; assumption.
Qed.

Lemma builder_step V B w id b b' f (k : unit -> M world A) Q X : st db0 V B w -> B !! id = Some b ->
  f b = Ret b' tt -> bd_owner b' = bd_owner b ->
  (forall w', st db0 V (<[id := b']> B) w' -> ends (k tt) w' Q X) -> ends (on_db (db_modify id f) ≫= k) w Q X.
Proof.
  intros S L F O K. apply wp_modify with (r := b); [apply S | rewrite (st_builders _ _ _ _ S); exact L |]. rewrite F. split.
  - intros []; cbn; try reflexivity. congruence.
  - intros w' _ C. apply K. split; [apply C | | |].
    + rewrite (changed_other voter_info_object _ _ _ C) by discriminate. apply S.
    + rewrite (changed_table _ _ _ _ C), (st_builders _ _ _ _ S). reflexivity.
    + intros i N9 N10. rewrite (changed_others _ _ _ _ C) by exact N10. apply S; assumption.
Qed.

Lemma new_builder_step V B w c (k : Z -> M world A) Q X : st db0 V B w ->
  (forall id w', B !! id = None -> st db0 V (<[id := c id]> B) w' -> ends (k id) w' Q X) -> (forall e, X w e) ->
  ends (on_db (db_create c) ≫= k) w Q X.
Proof.
  intros S K HX. apply wp_create; [apply S | | exact HX]. intros id w' F U _ C. rewrite (st_builders _ _ _ _ S) in F.
  apply K; [exact F |]. split; [apply C | | |].
  - rewrite (changed_other voter_info_object _ _ _ C) by discriminate. apply S.
  - rewrite (changed_table _ _ _ _ C), (st_builders _ _ _ _ S). reflexivity.
  - intros i N9 N10. rewrite (changed_others _ _ _ _ C) by exact N10. apply S; assumption.
Qed.

Lemma votes_step V B w id b d (k : unit -> M world A) Q X : st db0 V B w -> in_range B -> B !! id = Some b ->
  (forall w' B', st db0 V B' w' -> moved (only (bd_owner b) d) B B' -> ends (k tt) w' Q X) ->
  ends (on_db (db_modify id (add_votes d)) ≫= k) w Q X.
Proof.
  intros S R L K. eapply builder_step; [exact S | exact L | reflexivity | reflexivity |]. intros w' S'. eapply K; [exact S' |].
  apply moved_one; [exact L | exact R | eapply st_one_builder, S].
Qed.
End Steps.

(** ** The loops over builders *)

(** A loop whose body gives one registered builder [d] votes. *)
Lemma votes_loop db0 V X f d bs B w :
  (forall n B1 w1, n ∈ bs -> st db0 V B1 w1 -> in_range B1 -> (forall m, registered B1 m <-> registered B m) ->
     ends (f n) w1 (fun w2 _ => exists B2, st db0 V B2 w2 /\ moved (only n d) B1 B2 /\ registered B1 n) X) ->
  NoDup bs -> st db0 V B w -> in_range B ->
  ends (for_each bs f) w (fun w' _ => exists B', st db0 V B' w' /\ moved (among bs d) B B' /\ Forall (registered B) bs) X.
Proof.
  revert B w. induction bs as [| n bs IH]; intros B w F ND S R.
  - exists B. split; [exact S |]. split; [apply moved_refl, R | constructor].
  - apply NoDup_cons in ND as [Nn ND]. cbn [for_each]. apply ends_bind. eapply ends_weaken; [apply (F n B w); [left | auto .. | tauto] | | auto].
    intros w1 _ (B1 & S1 & M1 & Rn).
    eapply ends_weaken; [apply (IH B1); [| exact ND | exact S1 | eapply moved_range, M1] | | auto].
    + intros m B2 w2 Im S2 R2 E. apply F; [right; exact Im | exact S2 | exact R2 |]. intros k. rewrite E. eapply moved_registered, M1.
    + intros w2 _ (B2 & S2 & M2 & F2). exists B2. split; [exact S2 |]. split.
      * eapply moved_ext; [| exact (moved_trans _ _ _ _ _ M1 M2)]. intros m _. cbn. rewrite among_cons by exact Nn. reflexivity.
      * constructor; [exact Rn |]. eapply Forall_impl; [exact F2 |]. intros m. apply (moved_registered _ _ _ _ M1).
Qed.

(** The body of every loop: find a builder, then change its votes. *)
Lemma find_registered {A} db0 V B w n (k : option Z -> M world A) Q X : st db0 V B w ->
  (forall id b, B !! id = Some b -> bd_owner b = n -> ends (k (Some id)) w Q X) ->
  (~ registered B n -> ends (k None) w Q X) -> ends (find_builder n ≫= k) w Q X.
Proof.
  intros S HS HN. eapply find_builder_step; [exact S |]. destruct (find_id _ B) as [id |] eqn:F.
  - apply find_id_Some in F as (b & L & E). apply (HS id b L). lia.
  - apply HN. intros (id & b & L & E). pose proof (find_id_None _ _ _ _ F L) as N. cbn in N. lia.
Qed.

Lemma change_votes_spec db0 V B w d bs : st db0 V B w -> in_range B -> NoDup bs -> Forall (registered B) bs ->
  ends (change_votes d bs) w (fun w' _ => exists B', st db0 V B' w' /\ moved (among bs d) B B') no_exc.
Proof.
  intros S R ND F. eapply ends_weaken; [apply (votes_loop db0 V no_exc _ d bs B w); [| exact ND | exact S | exact R] | | auto].
  - intros n B1 w1 In S1 R1 E. apply (find_registered db0 V B1); [exact S1 | |].
    + intros id b L O. apply ends_bind_ret. eapply votes_step; [exact S1 | exact R1 | exact L |].
      intros w2 B2 S2 M2. exists B2. rewrite O in M2. split; [exact S2 |]. split; [exact M2 | exists id, b; auto].
    + intros N. destruct N. apply E. rewrite Forall_forall in F. apply F, In.
  - intros w' _ (B' & S' & M' & _). eauto.
Qed.

Lemma elect_spec db0 V B w d direct bs : st db0 V B w -> in_range B -> NoDup bs ->
  ends (elect d direct bs) w (fun w' _ => exists B', st db0 V B' w' /\ moved (among bs d) B B' /\ Forall (registered B) bs) any_exc.
Proof.
  intros S R ND. apply votes_loop; [| assumption ..].
  intros n B1 w1 In S1 R1 E. apply (find_registered db0 V B1); [exact S1 | | intros _; exact I].
  intros id b L O. eapply the_builder_step; [exact S1 | exact L |]. apply wp_require; [intros _ | intros _; exact I].
  apply ends_bind_ret. eapply votes_step; [exact S1 | exact R1 | exact L |].
  intros w2 B2 S2 M2. exists B2. rewrite O in M2. split; [exact S2 |]. split; [exact M2 | exists id, b; auto].
Qed.

Lemma propagate_spec db0 V B w sign px p : st db0 V B w -> in_range B -> V !! px = Some p -> NoDup (vt_builders p) ->
  Forall (registered B) (vt_builders p) -> 0 <= proxied_votes p ->
  ends (propagate sign px) w (fun w' _ => exists B', st db0 V B' w' /\ moved (among (vt_builders p) (sign * proxied_votes p)) B B') no_exc.
Proof.
  intros S R L ND F P0. unfold propagate. eapply the_voter_step; [exact S | exact L |].
  destruct (0 <? proxied_votes p) eqn:P.
  - eapply ends_weaken; [apply (votes_loop db0 V no_exc _ (sign * proxied_votes p) (vt_builders p) B w); [| exact ND | exact S | exact R] | | auto].
    + intros n B1 w1 In S1 R1 E. apply (find_registered db0 V B1); [exact S1 | |].
      * intros id b Lb O. eapply the_voter_step; [exact S1 | exact L |]. apply ends_bind_ret.
        eapply votes_step; [exact S1 | exact R1 | exact Lb |].
        intros w2 B2 S2 M2. exists B2. rewrite O in M2. split; [exact S2 |]. split; [exact M2 | exists id, b; auto].
      * intros N. destruct N. apply E. rewrite Forall_forall in F. apply F, In.
    + intros w' _ (B' & S' & M' & _). eauto.
  - exists B. split; [exact S |]. eapply moved_ext; [| apply moved_refl, R]. intros n _. unfold among.
    replace (proxied_votes p) with 0 by lia. rewrite Z.mul_0_r. destruct (bool_decide _); reflexivity.
Qed.

(** ** The books *)

Definition weight (v : voter_info_object) : Z := staked v + (if is_proxy v =? 0 then 0 else proxied_votes v).

(** What a voter gives the builder [n]. *)
Definition contrib (n : Z) (v : voter_info_object) : Z :=
  if bool_decide (proxy v = 0 /\ n ∈ vt_builders v) then weight v else 0.
Definition tally (V : voters) (n : Z) : Z := msum (contrib n) V.

(** What a voter entrusts to the proxy [n]. *)
Definition entrust (n : Z) (v : voter_info_object) : Z := if proxy v =? n then staked v else 0.
Definition entrusted (V : voters) (n : Z) : Z := msum (entrust n) V.

Record voter_ok (V : voters) (B : builders) (v : voter_info_object) : Prop := {
  ok_staked : 0 <= staked v;
  ok_unstaking : unstaking v = 0;
  ok_is_proxy : is_proxy v = 0 \/ is_proxy v = 1;
  ok_proxied : 0 <= proxied_votes v < 2 ^ 128;
  ok_nameless : vt_owner v = 0 -> proxied_votes v = 0;
  ok_builders : StronglySorted Z.lt (vt_builders v);
  ok_registered : Forall (registered B) (vt_builders v);
  ok_proxy : proxy v <> 0 -> is_proxy v = 0 /\ vt_builders v = [] /\ proxy v <> vt_owner v /\
             exists id p, V !! id = Some p /\ vt_owner p = proxy v }.

Record books (V : voters) (B : builders) : Prop := {
  bk_total : forall id b, B !! id = Some b -> total_votes b = u128 (tally V (bd_owner b));
  bk_proxied : forall id v, V !! id = Some v -> vt_owner v <> 0 -> proxied_votes v = u128 (entrusted V (vt_owner v));
  bk_voter : forall id v, V !! id = Some v -> voter_ok V B v;
  bk_stakes : msum staked V < 2 ^ 63 }.

Lemma sorted_NoDup l : StronglySorted Z.lt l -> NoDup l.
Proof.
  induction 1 as [| a l S IH F]; constructor; [| exact IH]. intros I. rewrite Forall_forall in F. specialize (F a I). lia.
Qed.

Lemma books_range V B : books V B -> in_range B.
Proof. intros K id b L. rewrite (bk_total _ _ K _ _ L). apply u128_u128. Qed.

Lemma tally_update V id v v' n : V !! id = Some v -> tally (<[id := v']> V) n = tally V n + (contrib n v' - contrib n v).
Proof. apply msum_update. Qed.

Lemma entrusted_update V id v v' n : V !! id = Some v -> entrusted (<[id := v']> V) n = entrusted V n + (entrust n v' - entrust n v).
Proof. apply msum_update. Qed.

Lemma stakes_nonneg V B : books V B -> 0 <= msum staked V.
Proof. intros K. apply msum_nonneg. intros id v L. apply (bk_voter _ _ K _ _ L). Qed.

Lemma staked_bound V B id v : books V B -> V !! id = Some v -> 0 <= staked v <= msum staked V.
Proof.
  intros K L. split; [apply (bk_voter _ _ K _ _ L) |]. apply msum_lookup with (i := id); [| exact L].
  intros j x Lx. apply (bk_voter _ _ K _ _ Lx).
Qed.

(** The owners of a table. *)
Definition owners (V : voters) (n : Z) : Prop := exists id v, V !! id = Some v /\ vt_owner v = n.

Lemma owners_update V id v v' n : V !! id = Some v -> vt_owner v' = vt_owner v -> owners V n -> owners (<[id := v']> V) n.
Proof.
  intros L O (j & x & Lx & E). destruct (decide (j = id)) as [-> | N].
  - exists id, v'. rewrite lookup_insert_eq. split; [reflexivity |]. rewrite O. congruence.
  - exists j, x. rewrite lookup_insert_ne by congruence. auto.
Qed.

Lemma voter_ok_mono V B V' B' v : (forall n, owners V n -> owners V' n) -> (forall n, registered B n -> registered B' n) ->
  voter_ok V B v -> voter_ok V' B' v.
Proof.
  intros HV HB []. split; auto; [eapply Forall_impl; eauto |].
  intros Px. destruct (ok_proxy0 Px) as (Hp & Hb & Ho & id & p & L & E). split_and!; auto. apply HV. exists id, p. auto.
Qed.

(** New books: the voters' side is right, and the builders' votes moved by
    the change of the tally. *)
Lemma books_moved V B V' B' d : books V B -> moved d B B' ->
  (forall n, u128 (tally V n + d n) = u128 (tally V' n)) ->
  (forall id v, V' !! id = Some v -> vt_owner v <> 0 -> proxied_votes v = u128 (entrusted V' (vt_owner v))) ->
  (forall id v, V' !! id = Some v -> voter_ok V' B v) -> msum staked V' < 2 ^ 63 -> books V' B'.
Proof.
  intros K M T P O S. split; [| exact P | | exact S].
  - intros id b. rewrite M. destruct (B !! id) as [b0 |] eqn:L; [| discriminate]. intros [= <-]. cbn.
    rewrite (bk_total _ _ K _ _ L), u128_add_l. apply T.
  - intros id v L. eapply voter_ok_mono; [intros n E; exact E | | exact (O id v L)]. intros n. apply (moved_registered _ _ _ _ M).
Qed.

(** ** A stake changes *)

Definition restake (s t : Z) (v : voter_info_object) : voter_info_object := set_last_update t (set_staked s v).
Definition more_proxied (d : Z) (p : voter_info_object) : voter_info_object := set_proxied_votes (u128 (proxied_votes p + d)) p.

Ltac bool_cases := repeat (case_bool_decide || case_match); try tauto; try lia.

Lemma stakes_update V i v v' : V !! i = Some v -> msum staked (<[i := v']> V) = msum staked V + (staked v' - staked v).
Proof. apply msum_update. Qed.

(** A voter's record changes without its owner; the other voters stay good. *)
Lemma voters_ok_update V B i v v' : V !! i = Some v -> vt_owner v' = vt_owner v ->
  (forall j x, V !! j = Some x -> voter_ok V B x) -> voter_ok V B v' ->
  forall j x, <[i := v']> V !! j = Some x -> voter_ok (<[i := v']> V) B x.
Proof.
  intros L O H Hv j x. rewrite lookup_insert_Some.
  assert (E : forall n, owners V n -> owners (<[i := v']> V) n) by (intros n; eapply owners_update; eauto).
  intros [[_ <-] | [_ Lx]]; (eapply voter_ok_mono; [exact E | intros n Rn; exact Rn |]); eauto.
Qed.

Lemma restake_direct V B B' i v s t : books V B -> V !! i = Some v -> proxy v = 0 -> 0 <= s ->
  msum staked V + (s - staked v) < 2 ^ 63 -> moved (among (vt_builders v) (s - staked v)) B B' ->
  books (<[i := restake s t v]> V) B'.
Proof.
  intros K L P0 S0 Sb M. eapply books_moved; [exact K | exact M | | | |].
  - intros n. f_equal. rewrite (tally_update V i v) by exact L. f_equal. unfold contrib, among, weight, restake; cbn. rewrite P0. bool_cases.
  - intros j x Lx Ox. rewrite (entrusted_update V i v) by exact L. unfold entrust, restake; cbn. rewrite P0.
    rewrite (proj2 (Z.eqb_neq 0 (vt_owner x))) by congruence. rewrite Z.sub_diag, Z.add_0_r.
    apply lookup_insert_Some in Lx as [[<- <-] | [N Lx]]; [exact (bk_proxied _ _ K i v L Ox) | exact (bk_proxied _ _ K j x Lx Ox)].
  - apply (voters_ok_update V B i v); [exact L | reflexivity | apply (bk_voter _ _ K) |].
    destruct (bk_voter _ _ K _ _ L). split; auto.
  - rewrite (stakes_update V i v) by exact L. exact Sb.
Qed.

Definition active_list (p : voter_info_object) : list Z := if negb (is_proxy p =? 0) then vt_builders p else [].

Lemma among_active p d n : among (active_list p) d n = if bool_decide (is_proxy p <> 0 /\ n ∈ vt_builders p) then d else 0.
Proof.
  unfold among, active_list. destruct (Z.eqb_spec (is_proxy p) 0); cbn; bool_cases.
  all: match goal with H : _ ∈ [] |- _ => inversion H | _ => idtac end; tauto.
Qed.

Lemma active_list_ok V B p : voter_ok V B p -> NoDup (active_list p) /\ Forall (registered B) (active_list p).
Proof.
  intros K. unfold active_list. destruct (negb _); split; try constructor; [apply sorted_NoDup, K | apply K].
Qed.

(** Proxied votes as they are after a change, by what is entrusted. *)
Lemma more_proxied_spec p d n : proxied_votes p = u128 n -> proxied_votes (more_proxied d p) = u128 (n + d).
Proof. intros E. cbn. rewrite E. apply u128_add_l. Qed.

Lemma more_proxied_ok V B p d : vt_owner p <> 0 -> voter_ok V B p -> voter_ok V B (more_proxied d p).
Proof. intros N []. split; auto; [apply u128_range | intros E; destruct (N E)]. Qed.

Lemma contrib_proxied n p d : (proxy p <> 0 -> is_proxy p = 0) ->
  u128 (contrib n (more_proxied d p) - contrib n p) = u128 (among (active_list p) d n).
Proof.
  intros PX. rewrite among_active. unfold contrib, weight; cbn. destruct (Z.eqb_spec (is_proxy p) 0) as [E | E].
  - rewrite (bool_decide_false (is_proxy p <> 0 /\ _)) by tauto. f_equal. lia.
  - assert (proxy p = 0) as -> by (destruct (Z.eq_dec (proxy p) 0); tauto).
    rewrite (bool_decide_ext (is_proxy p <> 0 /\ n ∈ vt_builders p) (0 = 0 /\ n ∈ vt_builders p)) by tauto.
    case_bool_decide; [| reflexivity].
    replace (staked p + u128 (proxied_votes p + d) - (staked p + proxied_votes p)) with (- proxied_votes p + u128 (proxied_votes p + d)) by lia.
    rewrite u128_add_r. f_equal. lia.
Qed.

Lemma entrust_proxied n p d : entrust n (more_proxied d p) = entrust n p.
Proof. reflexivity. Qed.

Lemma restake_proxied V B B' i j v p s t : books V B -> V !! i = Some v -> V !! j = Some p -> j <> i ->
  proxy v <> 0 -> vt_owner p = proxy v -> (forall k x, V !! k = Some x -> vt_owner x = vt_owner p -> k = j) -> 0 <= s ->
  msum staked V + (s - staked v) < 2 ^ 63 -> moved (among (active_list p) (s - staked v)) B B' ->
  books (<[j := more_proxied (s - staked v) p]> (<[i := restake s t v]> V)) B'.
Proof.
  intros K L Lp Nij P0 O U S0 Sb M. set (d := s - staked v) in *.
  assert (Lj : <[i := restake s t v]> V !! j = Some p) by (rewrite lookup_insert_ne by congruence; exact Lp).
  pose proof (bk_voter _ _ K _ _ L) as Kv. pose proof (bk_voter _ _ K _ _ Lp) as Kp.
  eapply books_moved; [exact K | exact M | | | |].
  - intros n. rewrite (tally_update _ j p), (tally_update V i v) by assumption.
    replace (contrib n (restake s t v) - contrib n v) with 0
      by (unfold contrib; cbn; rewrite !bool_decide_false by tauto; reflexivity).
    rewrite Z.add_0_r. apply u128_add; [reflexivity |]. symmetry. apply contrib_proxied. intros Hp. apply (ok_proxy _ _ _ Kp Hp).
  - intros k x Lx Ox. rewrite (entrusted_update _ j p), (entrusted_update V i v) by assumption.
    rewrite entrust_proxied, Z.sub_diag, Z.add_0_r.
    replace (entrust (vt_owner x) (restake s t v) - entrust (vt_owner x) v) with (if proxy v =? vt_owner x then d else 0)
      by (unfold entrust, d; cbn; destruct (proxy v =? vt_owner x); lia).
    rewrite !lookup_insert_Some in Lx. destruct Lx as [[<- <-] | [N Lx]].
    + cbn [more_proxied set_proxied_votes vt_owner]. rewrite O, Z.eqb_refl. apply more_proxied_spec. rewrite <- O.
      apply (bk_proxied _ _ K _ _ Lp). congruence.
    + assert (Ex : exists y, V !! k = Some y /\ vt_owner y = vt_owner x /\ proxied_votes y = proxied_votes x).
      { destruct Lx as [[<- <-] | [_ Lx]]; [exists v | exists x]; auto. }
      destruct Ex as (y & Ly & Oy & Py). destruct (Z.eqb_spec (proxy v) (vt_owner x)) as [E | E].
      * destruct N. symmetry. apply (U k y); congruence.
      * rewrite Z.add_0_r, <- Py, <- Oy. apply (bk_proxied _ _ K _ _ Ly). congruence.
  - apply (voters_ok_update _ B j p); [exact Lj | reflexivity | |].
    + apply (voters_ok_update V B i v); [exact L | reflexivity | apply (bk_voter _ _ K) |]. destruct Kv. split; auto.
    + apply more_proxied_ok; [congruence |]. eapply voter_ok_mono; [| | exact Kp]; [| auto]. intros n. apply (owners_update _ _ v); [exact L | reflexivity].
  - rewrite (stakes_update _ j p), (stakes_update V i v) by assumption. cbn. unfold d in Sb. lia.
Qed.

(** ** New records *)

Lemma entrusted_nobody V B n : books V B -> ~ owners V n -> n <> 0 -> entrusted V n = 0.
Proof.
  intros K N N0. unfold entrusted. rewrite (msum_ext _ (fun _ => 0)); [apply msum_zero |].
  intros i v L. unfold entrust. destruct (Z.eqb_spec (proxy v) n) as [E | _]; [| reflexivity].
  destruct (ok_proxy _ _ _ (bk_voter _ _ K _ _ L)) as (_ & _ & _ & id & p & Lp & O); [congruence |]. destruct N. exists id, p. split; congruence.
Qed.

Lemma tally_nobody V B n : books V B -> ~ registered B n -> tally V n = 0.
Proof.
  intros K N. unfold tally. rewrite (msum_ext _ (fun _ => 0)); [apply msum_zero |].
  intros i v L. unfold contrib. case_bool_decide as D; [| reflexivity]. destruct N.
  pose proof (ok_registered _ _ _ (bk_voter _ _ K _ _ L)) as F. rewrite Forall_forall in F. apply F, D.
Qed.

(** A voter with no stake, no choice and no votes entrusted. *)
Definition blank (v : voter_info_object) : Prop :=
  proxy v = 0 /\ (is_proxy v = 0 \/ is_proxy v = 1) /\ proxied_votes v = 0 /\ vt_builders v = [] /\ staked v = 0 /\ unstaking v = 0.

Lemma blank_books V B id v : books V B -> V !! id = None -> ~ owners V (vt_owner v) -> blank v -> books (<[id := v]> V) B.
Proof.
  intros K F N (Px & Ip & Pv & Bl & St & Un).
  assert (E : forall n, owners V n -> owners (<[id := v]> V) n).
  { intros n (j & x & Lx & O). exists j, x. rewrite lookup_insert_ne by congruence. auto. }
  assert (Ent : forall n, n <> 0 -> entrusted (<[id := v]> V) n = entrusted V n).
  { intros n Hn. unfold entrusted. rewrite msum_new by exact F. unfold entrust at 1. rewrite Px, (proj2 (Z.eqb_neq 0 n)) by congruence. lia. }
  eapply books_moved; [exact K | apply moved_refl, (books_range _ _ K) | | | |].
  - intros n. f_equal. unfold tally. rewrite msum_new by exact F. unfold contrib at 2. rewrite Bl.
    rewrite bool_decide_false by (intros [_ X]; inversion X). lia.
  - intros j x. rewrite lookup_insert_Some. intros [[<- <-] | [_ Lx]] O; rewrite Ent by exact O.
    + rewrite (entrusted_nobody V B) by assumption. exact Pv.
    + apply (bk_proxied _ _ K _ _ Lx O).
  - intros j x. rewrite lookup_insert_Some. intros [[<- <-] | [_ Lx]].
    + split; rewrite ?St, ?Pv, ?Bl, ?Px; auto with lia; try constructor; try lia.
    + eapply voter_ok_mono; [exact E | intros n Rn; exact Rn | apply (bk_voter _ _ K _ _ Lx)].
  - rewrite msum_new by exact F. rewrite St. apply (bk_stakes _ _ K).
Qed.

Lemma new_builder_books V B id b : books V B -> B !! id = None -> ~ registered B (bd_owner b) -> total_votes b = 0 -> books V (<[id := b]> B).
Proof.
  intros K F N T. assert (R : forall n, registered B n -> registered (<[id := b]> B) n).
  { intros n (j & x & Lx & O). exists j, x. rewrite lookup_insert_ne by congruence. auto. }
  split; [| apply K | | apply K].
  - intros j x. rewrite lookup_insert_Some. intros [[<- <-] | [_ Lx]]; [| apply (bk_total _ _ K _ _ Lx)].
    rewrite (tally_nobody V B) by assumption. exact T.
  - intros j x Lx. eapply voter_ok_mono; [intros n On; exact On | exact R | apply (bk_voter _ _ K _ _ Lx)].
Qed.

Lemma builder_key_books V B id b k : books V B -> B !! id = Some b -> books V (<[id := set_builder_key k b]> B).
Proof.
  intros K L. assert (R : forall n, registered B n -> registered (<[id := set_builder_key k b]> B) n).
  { intros n (j & x & Lx & O). destruct (decide (j = id)) as [-> | N].
    - exists id, (set_builder_key k b). rewrite lookup_insert_eq. split; [reflexivity |]. cbn. congruence.
    - exists j, x. rewrite lookup_insert_ne by congruence. auto. }
  split; [| apply K | | apply K].
  - intros j x. rewrite lookup_insert_Some. intros [[<- <-] | [_ Lx]]; [apply (bk_total _ _ K _ _ L) | apply (bk_total _ _ K _ _ Lx)].
  - intros j x Lx. eapply voter_ok_mono; [intros n On; exact On | exact R | apply (bk_voter _ _ K _ _ Lx)].
Qed.

(** ** The operations keep the books *)

Section Operations.
Context (cx : call) (raw : Z -> uninitialized).

(** The memory of a new object reads as zero. *)
Definition zeroed : Prop := forall id, raw_is_proxy (raw id) = 0 /\ raw_unstaking (raw id) = 0.

(** The books hold, all that is staked is [total]. *)
Definition booked (db0 : database) (total : Z) (w : world) : Prop :=
  exists V B, st db0 V B w /\ books V B /\ msum staked V = total.

Lemma find_voter_cases {A} db0 V B w n (k : option Z -> M world A) Q X : st db0 V B w ->
  (forall id v, V !! id = Some v -> vt_owner v = n -> ends (k (Some id)) w Q X) ->
  (~ owners V n -> ends (k None) w Q X) -> ends (find_voter n ≫= k) w Q X.
Proof.
  intros S HS HN. eapply find_voter_step; [exact S |]. destruct (find_id _ V) as [id |] eqn:F.
  - apply find_id_Some in F as (b & L & E). apply (HS id b L). lia.
  - apply HN. intros (id & b & L & E). pose proof (find_id_None _ _ _ _ F L) as N. cbn in N. lia.
Qed.

(** The part increase_votes and decrease_votes share: the voter's stake has
    changed, the change goes to its proxy and to the builders. *)
Lemma spread_spec db0 V B w i v s t (no_proxy : M world (list Z)) : books V B -> V !! i = Some v ->
  st db0 (<[i := restake s t v]> V) B w -> 0 <= s -> msum staked V + (s - staked v) < 2 ^ 63 ->
  ends (builders ← (if negb (proxy v =? 0) then
                      found ← find_voter (proxy v);
                      match found with
                      | None => no_proxy
                      | Some px =>
                          on_db (db_modify px (add_proxied (s - staked v))) ;;
                          p ← the_voter px;
                          mret (if negb (is_proxy p =? 0) then vt_builders p else [])
                      end
                    else mret (vt_builders v));
        change_votes (s - staked v) builders) w
    (fun w' _ => booked db0 (msum staked V + (s - staked v)) w') no_exc.
Proof.
  intros K L S S0 Sb. pose proof (bk_voter _ _ K _ _ L) as Kv.
  assert (T : forall V', V' !! i = Some v -> msum staked (<[i := restake s t v]> V') = msum staked V' + (s - staked v))
    by (intros V'; apply stakes_update).
  destruct (Z.eqb_spec (proxy v) 0) as [P0 | P0]; cbn [negb].
  - eapply ends_weaken; [eapply change_votes_spec; [exact S | eapply books_range, K | apply sorted_NoDup, Kv | apply Kv] | | auto].
    intros w' _ (B' & S' & M). exists (<[i := restake s t v]> V), B'. split; [exact S' |]. split; [| apply T, L].
    eapply restake_direct; eassumption.
  - destruct (ok_proxy _ _ _ Kv P0) as (_ & _ & Self & j & p & Lp & O). apply ends_bind.
    assert (N : j <> i) by congruence.
    assert (Lj : <[i := restake s t v]> V !! j = Some p) by (rewrite lookup_insert_ne by congruence; exact Lp).
    assert (U : forall k x, V !! k = Some x -> vt_owner x = vt_owner p -> k = j).
    { intros k x Lx E. destruct (decide (k = i)) as [-> | Nk]; [congruence |].
      eapply (st_one_voter _ _ _ _ k j x p S); [rewrite lookup_insert_ne by congruence; exact Lx | exact Lj | exact E]. }
    eapply (find_voter_cases _ _ _ _ _ _ _ _ S).
    2: { intros No. destruct No. exists j, p. auto. }
    intros k x Lx Ox. assert (k = j) as -> by (eapply (st_one_voter _ _ _ _ k j x p S); [exact Lx | exact Lj | congruence]).
    rewrite Lj in Lx. injection Lx as <-. pose proof (bk_voter _ _ K _ _ Lp) as Kp.
    eapply voter_step; [exact S | exact Lj | reflexivity | reflexivity |]. intros w1 S1.
    eapply the_voter_step; [exact S1 | apply lookup_insert_eq |]. change (ends (change_votes (s - staked v) (active_list p)) w1
      (fun w' _ => booked db0 (msum staked V + (s - staked v)) w') no_exc).
    eapply ends_weaken; [eapply change_votes_spec; [exact S1 | eapply books_range, K | |] | | auto].
    1,2: apply (active_list_ok _ _ _ Kp).
    intros w' _ (B' & S' & M). eexists _, B'. split; [exact S' |]. split.
    + apply (restake_proxied V B B' i j v p s t); assumption.
    + rewrite (stakes_update _ j p) by exact Lj. rewrite (T V L). cbn. lia.
Qed.

Lemma spread_votes db0 V B w i v d t (no_proxy : M world (list Z)) : books V B -> V !! i = Some v ->
  st db0 (<[i := restake (staked v + d) t v]> V) B w -> 0 <= staked v + d -> msum staked V + d < 2 ^ 63 ->
  ends (builders ← (if negb (proxy v =? 0) then
                      found ← find_voter (proxy v);
                      match found with
                      | None => no_proxy
                      | Some px =>
                          on_db (db_modify px (add_proxied d)) ;;
                          p ← the_voter px;
                          mret (if negb (is_proxy p =? 0) then vt_builders p else [])
                      end
                    else mret (vt_builders v));
        change_votes d builders) w
    (fun w' _ => booked db0 (msum staked V + d) w') no_exc.
Proof.
  intros K L S S0 Sb. pose proof (spread_spec db0 V B w i v (staked v + d) t no_proxy K L S S0) as H.
  replace (staked v + d - staked v) with d in H by lia. apply H, Sb.
Qed.

Lemma int64_in {T} z (s : T) : - 2 ^ 63 <= z < 2 ^ 63 -> int64 z s = Ret s z.
Proof. intros R. unfold int64. destruct (_ && _) eqn:E; [reflexivity | lia]. Qed.

Lemma staking_modifier v d t : - 2 ^ 63 <= staked v + d < 2 ^ 63 ->
  (update (set_last_update t) ;; add_staked d) v = Ret (restake (staked v + d) t v) tt /\
  (add_staked d ;; update (set_last_update t)) v = Ret (restake (staked v + d) t v) tt.
Proof.
  intros R. unfold add_staked, gets, update, mbind, M_bind. cbn. rewrite !int64_in by exact R. auto.
Qed.

Lemma increase_votes_books db0 V B w acnt amount : zeroed -> books V B -> st db0 V B w ->
  0 <= amount -> msum staked V + amount < 2 ^ 63 ->
  ends (increase_votes cx raw acnt amount) w (fun w' _ => booked db0 (msum staked V + amount) w') any_exc.
Proof.
  intros Z0 K S A0 Sb. unfold increase_votes.
  eapply (find_voter_cases _ _ _ _ _ _ _ _ S).
  - intros i v L _. pose proof (staked_bound _ _ _ _ K L) as Bv. apply ends_bind, ends_bind.
    destruct (staking_modifier v amount (current_time cx)) as [F _]; [lia |].
    apply ends_bind_ret. eapply voter_step; [exact S | exact L | exact F | reflexivity |].
    intros w1 S1. change (ends (v0 ← the_voter i; builders ← (if negb (proxy v0 =? 0) then
                      found ← find_voter (proxy v0);
                      match found with
                      | None => throw "selected proxy not found"
                      | Some px =>
                          on_db (db_modify px (add_proxied amount)) ;;
                          p ← the_voter px;
                          mret (if negb (is_proxy p =? 0) then vt_builders p else [])
                      end
                    else mret (vt_builders v0));
        change_votes amount builders) w1 (fun w' _ => booked db0 (msum staked V + amount) w') any_exc).
    eapply the_voter_step; [exact S1 | apply lookup_insert_eq |]. apply no_exc_any.
    apply (spread_votes db0 V B w1 i v amount (current_time cx)); try assumption. lia.
  - intros N. apply ends_bind, ends_bind_ret. eapply new_voter_step; [exact S | | intros; exact I]. intros id w1 F S1.
    destruct (Z0 id) as [Zp Zu].
    set (v0 := VoterInfo acnt 0 (raw_is_proxy (raw id)) 0 [] 0 (raw_unstaking (raw id))
                  (raw_unstake_per_week (raw id)) (raw_deferred_trx_id (raw id)) (current_time cx) 0) in *.
    assert (K0 : books (<[id := v0]> V) B) by (apply (blank_books V B); [exact K | exact F | exact N | unfold blank; cbn; auto 10]).
    assert (L0 : <[id := v0]> V !! id = Some v0) by apply lookup_insert_eq.
    replace (<[id := _]> V) with (<[id := restake (staked v0 + amount) (current_time cx) v0]> (<[id := v0]> V)) in S1
      by (rewrite insert_insert_eq; reflexivity).
    assert (E : msum staked (<[id := v0]> V) = msum staked V) by (rewrite msum_new by exact F; reflexivity).
    unfold ends. cbn. eapply the_voter_step; [exact S1 | apply lookup_insert_eq |]. apply no_exc_any. rewrite <- E.
    apply (spread_votes db0 _ B w1 id v0 amount (current_time cx)); try assumption; cbn; lia.
Qed.

(** Only the members the books do not speak of change. *)
Definition same_account (v v' : voter_info_object) : Prop :=
  vt_owner v' = vt_owner v /\ proxy v' = proxy v /\ is_proxy v' = is_proxy v /\ proxied_votes v' = proxied_votes v /\
  vt_builders v' = vt_builders v /\ staked v' = staked v /\ unstaking v' = unstaking v.

Lemma same_account_books V B i v v' : books V B -> V !! i = Some v -> same_account v v' -> books (<[i := v']> V) B.
Proof.
  intros K L (O & Px & Ip & Pv & Bl & St & Un). eapply books_moved; [exact K | apply moved_refl, (books_range _ _ K) | | | |].
  - intros n. f_equal. rewrite (tally_update V i v) by exact L. unfold contrib, weight. rewrite Px, Ip, Pv, Bl, St. lia.
  - intros j x Lx Ox. rewrite (entrusted_update V i v) by exact L. unfold entrust. rewrite Px, St, Z.sub_diag, Z.add_0_r.
    apply lookup_insert_Some in Lx as [[<- <-] | [N Lx]]; [| apply (bk_proxied _ _ K j x Lx Ox)].
    rewrite Pv, O. apply (bk_proxied _ _ K i v L). congruence.
  - apply (voters_ok_update V B i v); [exact L | exact O | apply (bk_voter _ _ K) |].
    destruct (bk_voter _ _ K _ _ L). split; rewrite ?Px, ?Ip, ?Pv, ?Bl, ?St, ?Un, ?O; auto.
  - rewrite (stakes_update V i v) by exact L. rewrite St, Z.sub_diag, Z.add_0_r. apply (bk_stakes _ _ K).
Qed.

Lemma decrease_votes_books db0 V B w acnt amount : books V B -> st db0 V B w ->
  ends (decrease_votes cx acnt amount) w (fun w' _ => booked db0 (msum staked V - Z.max 0 amount) w') any_exc.
Proof.
  intros K S. pose proof (bk_stakes _ _ K) as Sb. unfold decrease_votes.
  eapply (find_voter_cases _ _ _ _ _ _ _ _ S); [| intros _; exact I]. intros i v L _.
  pose proof (staked_bound _ _ _ _ K L) as Bv. eapply the_voter_step; [exact S | exact L |].
  destruct (0 <? amount) eqn:A.
  - apply wp_require; [| intros _; exact I]. intros Le.
    destruct (staking_modifier v (- amount) (current_time cx)) as [_ F]; [lia |].
    eapply voter_step; [exact S | exact L | exact F | reflexivity |]. intros w1 S1. apply no_exc_any.
    replace (msum staked V - Z.max 0 amount) with (msum staked V + - amount) by lia.
    apply (spread_votes db0 V B w1 i v (- amount) (current_time cx)); try assumption; lia.
  - replace (msum staked V - Z.max 0 amount) with (msum staked V) by lia.
    pose proof (ok_unstaking _ _ _ (bk_voter _ _ K _ _ L)) as Un.
    apply ends_bind_ret. eapply voter_step; [exact S | exact L | | |].
    + unfold add_staked, gets, update, mbind, M_bind. cbn. rewrite int64_in by (rewrite Un; lia). reflexivity.
    + reflexivity.
    + intros w1 S1. eexists _, B. split; [exact S1 |].
      assert (Sa : same_account v (set_last_update (current_time cx) (clear_unstaking (set_staked (staked v + unstaking v) v))))
        by (unfold same_account; cbn; rewrite Un; auto 10 with lia).
      split; [eapply same_account_books; eassumption |]. rewrite (stakes_update V i v) by exact L. cbn. lia.
Qed.

Lemma reg_builder_books db0 V B w reg : books V B -> st db0 V B w ->
  ends (reg_builder reg) w (fun w' _ => booked db0 (msum staked V) w') any_exc.
Proof.
  intros K S. unfold reg_builder. eapply (find_registered _ _ _ _ _ _ _ _ S).
  - intros i b L _. apply ends_bind_ret. eapply builder_step; [exact S | exact L | reflexivity | reflexivity |].
    intros w1 S1. eexists _, _. split; [exact S1 |]. split; [apply builder_key_books; assumption | reflexivity].
  - intros N. eapply new_builder_step; [exact S | | intros; exact I]. intros i w1 F S1.
    eexists _, _. split; [exact S1 |]. split; [apply new_builder_books; (assumption || reflexivity) | reflexivity].
Qed.

Lemma unreg_builder_books db0 V B w n : books V B -> st db0 V B w ->
  ends (unreg_builder n) w (fun w' _ => booked db0 (msum staked V) w') any_exc.
Proof.
  intros K S. unfold unreg_builder. eapply (find_registered _ _ _ _ _ _ _ _ S); [| intros _; exact I].
  intros i b L _. apply ends_bind_ret. eapply builder_step; [exact S | exact L | reflexivity | reflexivity |].
  intros w1 S1. eexists _, _. split; [exact S1 |]. split; [apply builder_key_books; assumption | reflexivity].
Qed.

(** A voter becomes an active proxy or stops being one. *)
Lemma set_proxy_books V B B' i v x t : books V B -> V !! i = Some v -> proxy v = 0 -> x = 0 \/ x = 1 -> is_proxy v = 1 - x ->
  moved (among (vt_builders v) ((2 * x - 1) * proxied_votes v)) B B' ->
  books (<[i := set_last_update t (set_is_proxy x v)]> V) B'.
Proof.
  intros K L P0 X Ip M. eapply books_moved; [exact K | exact M | | | |].
  - intros n. f_equal. rewrite (tally_update V i v) by exact L. f_equal. unfold contrib, among, weight; cbn. rewrite P0, Ip.
    destruct X as [-> | ->]; cbn; bool_cases.
  - intros j y Ly Oy. rewrite (entrusted_update V i v) by exact L. unfold entrust; cbn. rewrite Z.sub_diag, Z.add_0_r.
    apply lookup_insert_Some in Ly as [[<- <-] | [N Ly]]; [exact (bk_proxied _ _ K i v L Oy) | exact (bk_proxied _ _ K j y Ly Oy)].
  - apply (voters_ok_update V B i v); [exact L | reflexivity | apply (bk_voter _ _ K) |].
    destruct (bk_voter _ _ K _ _ L). split; auto. cbn. congruence.
  - rewrite (stakes_update V i v) by exact L. cbn. rewrite Z.sub_diag, Z.add_0_r. apply (bk_stakes _ _ K).
Qed.

Lemma switch_proxy_books db0 V B w i v x : books V B -> V !! i = Some v -> proxy v = 0 -> x = 0 \/ x = 1 -> is_proxy v = 1 - x ->
  st db0 (<[i := set_last_update (current_time cx) (set_is_proxy x v)]> V) B w ->
  ends (propagate (2 * x - 1) i) w (fun w' _ => booked db0 (msum staked V) w') no_exc.
Proof.
  intros K L P0 X Ip S. pose proof (bk_voter _ _ K _ _ L) as Kv.
  eapply ends_weaken; [eapply propagate_spec; [exact S | eapply books_range, K | apply lookup_insert_eq | | |] | | auto].
  - apply sorted_NoDup, Kv.
  - apply Kv.
  - apply Kv.
  - intros w' _ (B' & S' & M). eexists _, B'. split; [exact S' |]. split.
    + eapply set_proxy_books; eassumption.
    + rewrite (stakes_update V i v) by exact L. cbn. lia.
Qed.

Lemma reg_proxy_books db0 V B w n : zeroed -> books V B -> st db0 V B w ->
  ends (reg_proxy cx raw n) w (fun w' _ => booked db0 (msum staked V) w') any_exc.
Proof.
  intros Z0 K S. unfold reg_proxy. eapply (find_voter_cases _ _ _ _ _ _ _ _ S).
  - intros i v L _. eapply the_voter_step; [exact S | exact L |].
    apply wp_require; [| intros _; exact I]. intros Ip. apply wp_require; [| intros _; exact I]. intros P0.
    eapply voter_step; [exact S | exact L | reflexivity | reflexivity |]. intros w1 S1.
    apply no_exc_any. apply (switch_proxy_books db0 V B w1 i v 1); try assumption; lia.
  - intros N. eapply new_voter_step; [exact S | | intros; exact I]. intros i w1 F S1. destruct (Z0 i) as [_ Zu].
    eexists _, B. split; [exact S1 |].
    split; [apply blank_books; try assumption; unfold blank; cbn; auto 10 | rewrite msum_new by exact F; reflexivity].
Qed.

Lemma unreg_proxy_books db0 V B w n : books V B -> st db0 V B w ->
  ends (unreg_proxy cx n) w (fun w' _ => booked db0 (msum staked V) w') any_exc.
Proof.
  intros K S. unfold unreg_proxy. eapply (find_voter_cases _ _ _ _ _ _ _ _ S); [| intros _; exact I].
  intros i v L _. eapply the_voter_step; [exact S | exact L |]. apply wp_require; [| intros _; exact I]. intros Ip.
  pose proof (bk_voter _ _ K _ _ L) as Kv.
  assert (P0 : proxy v = 0) by (destruct (Z.eq_dec (proxy v) 0) as [E | E]; [exact E | destruct (ok_proxy _ _ _ Kv E); lia]).
  eapply voter_step; [exact S | exact L | reflexivity | reflexivity |]. intros w1 S1.
  apply no_exc_any. apply (switch_proxy_books db0 V B w1 i v 0); try assumption; lia.
Qed.

(** ** A vote

    While a vote is being changed the books are off: the tally is ahead of
    the builders' votes by [dt], the proxied votes are ahead of what is
    entrusted by [de]. *)

Record off (V : voters) (B : builders) (dt de : Z -> Z) : Prop := {
  off_total : forall id b, B !! id = Some b -> u128 (total_votes b + dt (bd_owner b)) = u128 (tally V (bd_owner b));
  off_range : in_range B;
  off_proxied : forall id v, V !! id = Some v -> vt_owner v <> 0 -> proxied_votes v = u128 (entrusted V (vt_owner v) + de (vt_owner v));
  off_voter : forall id v, V !! id = Some v -> voter_ok V B v;
  off_stakes : msum staked V < 2 ^ 63 }.

Lemma books_off V B : books V B -> off V B (fun _ => 0) (fun _ => 0).
Proof.
  intros K. split; [| eapply books_range, K | | apply K | apply K].
  - intros id b L. rewrite Z.add_0_r, (bk_total _ _ K _ _ L). apply u128_u128.
  - intros id v L O. rewrite Z.add_0_r. apply (bk_proxied _ _ K _ _ L O).
Qed.

Lemma off_books V B dt de : off V B dt de -> (forall n, u128 (dt n) = 0) -> (forall n, n <> 0 -> de n = 0) -> books V B.
Proof.
  intros K T E. split; [| | apply K | apply K].
  - intros id b L. rewrite <- (off_total _ _ _ _ K _ _ L), <- u128_add_r, T, Z.add_0_r. symmetry. apply (off_range _ _ _ _ K _ _ L).
  - intros id v L O. rewrite (off_proxied _ _ _ _ K _ _ L O), E, Z.add_0_r by exact O. reflexivity.
Qed.

Lemma off_ext V B dt de dt' de' : off V B dt de -> (forall n, dt n = dt' n) -> (forall n, de n = de' n) -> off V B dt' de'.
Proof.
  intros [Ot Or Op Ov Os] T E. split; [| exact Or | | exact Ov | exact Os].
  - intros id b L. rewrite <- T. exact (Ot id b L).
  - intros id v L O. rewrite <- E. exact (Op id v L O).
Qed.

Lemma among_zero bs n : among bs 0 n = 0.
Proof. unfold among. destruct (bool_decide _); reflexivity. Qed.

Lemma only_zero m n : only m 0 n = 0.
Proof. unfold only. destruct (_ =? _); reflexivity. Qed.

Lemma off_moved V B B' dt de d : off V B dt de -> moved d B B' -> off V B' (fun n => dt n - d n) de.
Proof.
  intros K M. split; [| eapply moved_range, M | apply K | | apply K].
  - intros id b. rewrite M. destruct (B !! id) as [b0 |] eqn:L; [| discriminate]. intros [= <-]. cbn.
    rewrite u128_add_l, <- (off_total _ _ _ _ K _ _ L). f_equal. lia.
  - intros id v L. eapply voter_ok_mono; [intros n O; exact O | | apply (off_voter _ _ _ _ K _ _ L)]. intros n. apply (moved_registered _ _ _ _ M).
Qed.

Lemma off_voters_ok V B dt de i v v' : off V B dt de -> V !! i = Some v -> vt_owner v' = vt_owner v -> voter_ok V B v' ->
  forall j x, <[i := v']> V !! j = Some x -> voter_ok (<[i := v']> V) B x.
Proof. intros K L O H. apply (voters_ok_update V B i v); [exact L | exact O | apply (off_voter _ _ _ _ K) | exact H]. Qed.

(** Votes are given to a proxy or taken from it. *)
Lemma off_proxied_step V B dt de j p d : off V B dt de -> V !! j = Some p -> vt_owner p <> 0 ->
  (forall k x, V !! k = Some x -> vt_owner x = vt_owner p -> k = j) ->
  off (<[j := more_proxied d p]> V) B (fun n => dt n + among (active_list p) d n) (fun n => de n + only (vt_owner p) d n).
Proof.
  intros K L Np U. pose proof (off_voter _ _ _ _ K _ _ L) as Kp. split.
  - intros id b Lb. rewrite (tally_update V j p) by exact L. rewrite Z.add_assoc. apply u128_add; [apply (off_total _ _ _ _ K _ _ Lb) |].
    symmetry. apply contrib_proxied. intros Hp. apply (ok_proxy _ _ _ Kp Hp).
  - apply (off_range _ _ _ _ K).
  - intros k x Lx Ox. rewrite (entrusted_update V j p), entrust_proxied, Z.sub_diag, Z.add_0_r, Z.add_assoc by exact L. unfold only.
    apply lookup_insert_Some in Lx as [[<- <-] | [N Lx]].
    + cbn [more_proxied set_proxied_votes vt_owner]. rewrite Z.eqb_refl. apply more_proxied_spec. apply (off_proxied _ _ _ _ K _ _ L Ox).
    + destruct (Z.eqb_spec (vt_owner x) (vt_owner p)) as [E | _]; [destruct N; symmetry; eauto |].
      rewrite Z.add_0_r. apply (off_proxied _ _ _ _ K _ _ Lx Ox).
  - apply (off_voters_ok V B dt de j p); [exact K | exact L | reflexivity | apply more_proxied_ok; assumption].
  - rewrite (stakes_update V j p) by exact L. cbn. rewrite Z.sub_diag, Z.add_0_r. apply (off_stakes _ _ _ _ K).
Qed.

Definition rechoice (q : Z) (bs : list Z) (t : Z) (v : voter_info_object) : voter_info_object := set_last_update t (set_choice q bs v).

(** The voter's own record takes the new choice. *)
Lemma off_choice V B dt de i v q bs t : off V B dt de -> V !! i = Some v -> voter_ok V B (rechoice q bs t v) ->
  off (<[i := rechoice q bs t v]> V) B
    (fun n => dt n + (contrib n (rechoice q bs t v) - contrib n v)) (fun n => de n - (entrust n (rechoice q bs t v) - entrust n v)).
Proof.
  intros K L Hv. split.
  - intros id b Lb. rewrite (tally_update V i v) by exact L. rewrite Z.add_assoc. apply u128_add; [apply (off_total _ _ _ _ K _ _ Lb) | reflexivity].
  - apply (off_range _ _ _ _ K).
  - intros k x Lx Ox. rewrite (entrusted_update V i v) by exact L.
    replace (entrusted V (vt_owner x) + _ + _) with (entrusted V (vt_owner x) + de (vt_owner x)) by lia.
    apply lookup_insert_Some in Lx as [[<- <-] | [N Lx]]; [exact (off_proxied _ _ _ _ K i v L Ox) | exact (off_proxied _ _ _ _ K k x Lx Ox)].
  - apply (off_voters_ok V B dt de i v); [exact K | exact L | reflexivity | exact Hv].
  - rewrite (stakes_update V i v) by exact L. cbn. rewrite Z.sub_diag, Z.add_0_r. apply (off_stakes _ _ _ _ K).
Qed.

(** ** std::set_difference *)

Lemma set_difference_cons x a b : set_difference (x :: a) b =
  match b with
  | [] => x :: a
  | y :: b' => if x <? y then x :: set_difference a b else if y <? x then set_difference (x :: a) b' else set_difference a b'
  end.
Proof. destruct b; reflexivity. Qed.

Lemma sorted_inv x l : StronglySorted Z.lt (x :: l) -> StronglySorted Z.lt l /\ forall n, n ∈ l -> x < n.
Proof. intros S. apply StronglySorted_inv in S as [S F]. split; [exact S |]. apply Forall_forall, F. Qed.

Lemma set_difference_spec a b n : StronglySorted Z.lt a -> StronglySorted Z.lt b -> n ∈ set_difference a b <-> n ∈ a /\ n ∉ b.
Proof.
  revert b. induction a as [| x a IH]; intros b Sa Sb; [split; [intros X; inversion X | intros [X _]; inversion X] |].
  apply sorted_inv in Sa as [Sa La]. induction b as [| y b IHb]; rewrite set_difference_cons.
  - split; [intros X; split; [exact X | intros Y; inversion Y] | tauto].
  - apply sorted_inv in Sb as [Sb' Lb]. assert (Sy : StronglySorted Z.lt (y :: b)).
    { constructor; [exact Sb' | rewrite Forall_forall; exact Lb]. }
    destruct (x <? y) eqn:E1; [| destruct (y <? x) eqn:E2].
    + rewrite !elem_of_cons, (IH _ Sa Sy), elem_of_cons. specialize (La n). specialize (Lb n).
      split; [intros [-> | T]; [split; [auto |] | tauto] | tauto]. intros [-> | In]; [lia |]. specialize (Lb In). lia.
    + rewrite (IHb Sb'), !elem_of_cons. specialize (La n). split; [| tauto]. intros [In Nb]. split; [exact In |].
      intros [-> | Nn]; [| tauto]. destruct In as [-> | In]; [lia |]. specialize (La In). lia.
    + assert (x = y) by lia. subst y. rewrite (IH b Sa Sb'), !elem_of_cons. specialize (La n). split; [| tauto].
      intros [In Nb]. split; [auto |]. intros [-> | ?]; [| tauto]. specialize (La In). lia.
Qed.

Lemma set_difference_sorted a b : StronglySorted Z.lt a -> StronglySorted Z.lt b -> StronglySorted Z.lt (set_difference a b).
Proof.
  revert b. induction a as [| x a IH]; intros b Sa Sb; [constructor |].
  pose proof Sa as Sxa. apply sorted_inv in Sa as [Sa La]. induction b as [| y b IHb]; rewrite set_difference_cons; [exact Sxa |].
  pose proof Sb as Sy. apply sorted_inv in Sb as [Sb' Lb]. destruct (x <? y) eqn:E1; [| destruct (y <? x) eqn:E2]; auto.
  constructor; [apply IH; assumption |]. rewrite Forall_forall. intros n In. apply set_difference_spec in In as [In _]; auto.
Qed.

Lemma strictly_sorted_spec l : strictly_sorted l = true -> StronglySorted Z.lt l.
Proof.
  intros E. apply Sorted_StronglySorted; [intros a b c; lia |]. induction l as [| a [| b l] IH]; [constructor | repeat constructor |].
  cbn [strictly_sorted] in E. apply andb_true_iff in E as [E1 E2]. constructor; [apply IH, E2 | constructor; lia].
Qed.

(** The votes taken back from the old proxy. *)
Lemma old_side db0 V B w i v {A} (k : list Z -> M world A) Q : books V B -> st db0 V B w -> V !! i = Some v ->
  (forall w1 V1 old, st db0 V1 B w1 -> V1 !! i = Some v -> msum staked V1 = msum staked V ->
     StronglySorted Z.lt old -> Forall (registered B) old -> (proxy v = 0 -> old = vt_builders v) ->
     off V1 B (among old (- (if proxy v =? 0 then 0 else staked v))) (only (proxy v) (- (if proxy v =? 0 then 0 else staked v))) ->
     ends (k old) w1 Q any_exc) ->
  ends (old_builders ← (if negb (proxy v =? 0) then
                          found ← find_voter (proxy v);
                          match found with
                          | None => throw "old proxy not found"
                          | Some old_proxy =>
                              on_db (db_modify old_proxy (add_proxied (- staked v))) ;;
                              p ← the_voter old_proxy;
                              mret (if negb (is_proxy p =? 0) then vt_builders p else [])
                          end
                        else mret (vt_builders v));
        k old_builders) w Q any_exc.
Proof.
  intros K S L HK. pose proof (bk_voter _ _ K _ _ L) as Kv. pose proof (books_off _ _ K) as Ko.
  destruct (Z.eqb_spec (proxy v) 0) as [P0 | P0]; cbn [negb].
  - apply (HK w V (vt_builders v)); try (assumption || reflexivity || apply Kv).
    eapply off_ext; [exact Ko | intros n; rewrite among_zero; reflexivity | intros n; rewrite only_zero; reflexivity].
  - apply ends_bind. eapply (find_voter_cases _ _ _ _ _ _ _ _ S); [| intros _; exact I].
    intros j p Lp O. destruct (ok_proxy _ _ _ Kv P0) as (_ & _ & Self & _).
    assert (N : j <> i) by congruence. pose proof (bk_voter _ _ K _ _ Lp) as Kp.
    eapply voter_step; [exact S | exact Lp | reflexivity | reflexivity |]. intros w1 S1.
    eapply the_voter_step; [exact S1 | apply lookup_insert_eq |]. cbn [set_proxied_votes is_proxy vt_builders].
    change (ends (k (active_list p)) w1 Q any_exc).
    eapply HK; [exact S1 | rewrite lookup_insert_ne by congruence; exact L | | | | tauto |].
    + rewrite (stakes_update V j p) by exact Lp. cbn. lia.
    + unfold active_list. destruct (negb _); [apply Kp | constructor].
    + apply (active_list_ok _ _ _ Kp).
    + rewrite <- O. eapply off_ext; [apply (off_proxied_step V B (fun _ => 0) (fun _ => 0) j p (- staked v)); [exact Ko | exact Lp | congruence |] | reflexivity | reflexivity].
      intros m x Lx E. eapply st_one_voter; [exact S | exact Lx | exact Lp | exact E].
Qed.

(** The votes given to the new proxy. *)
Lemma new_side db0 V B w i v dt de q bs {A} (k : list Z -> M world A) Q : off V B dt de -> st db0 V B w -> V !! i = Some v ->
  StronglySorted Z.lt bs -> (q <> 0 -> is_proxy v = 0) ->
  (forall w1 V1 new, st db0 V1 B w1 -> V1 !! i = Some v -> msum staked V1 = msum staked V ->
     StronglySorted Z.lt new -> (q = 0 -> new = bs) -> (q <> 0 -> Forall (registered B) new /\ q <> vt_owner v /\ owners V1 q) ->
     off V1 B (fun n => dt n + among new (if q =? 0 then 0 else staked v) n) (fun n => de n + only q (if q =? 0 then 0 else staked v) n) ->
     ends (k new) w1 Q any_exc) ->
  ends (new_builders ← (if negb (q =? 0) then
                          found ← find_voter q;
                          match found with
                          | None => throw "proxy not found"
                          | Some new_proxy =>
                              p ← the_voter new_proxy;
                              require (negb (is_proxy p =? 0)) "proxy not found" ;;
                              v ← the_voter i;
                              on_db (db_modify new_proxy (add_proxied (staked v))) ;;
                              p ← the_voter new_proxy;
                              mret (vt_builders p)
                          end
                        else mret bs);
        k new_builders) w Q any_exc.
Proof.
  intros K S L Sb Hq HK. destruct (Z.eqb_spec q 0) as [P0 | P0]; cbn [negb].
  - apply (HK w V bs); try (assumption || reflexivity || tauto).
    eapply off_ext; [exact K | intros n; rewrite among_zero, Z.add_0_r; reflexivity | intros n; rewrite only_zero, Z.add_0_r; reflexivity].
  - apply ends_bind. eapply (find_voter_cases _ _ _ _ _ _ _ _ S); [| intros _; exact I].
    intros j p Lp O. pose proof (off_voter _ _ _ _ K _ _ Lp) as Kp.
    eapply the_voter_step; [exact S | exact Lp |]. apply wp_require; [intros Ip | intros _; exact I].
    apply negb_true_iff, Z.eqb_neq in Ip. assert (N : j <> i) by (intros ->; rewrite L in Lp; injection Lp as <-; tauto).
    eapply the_voter_step; [exact S | exact L |].
    eapply voter_step; [exact S | exact Lp | reflexivity | reflexivity |]. intros w1 S1.
    eapply the_voter_step; [exact S1 | apply lookup_insert_eq |]. change (ends (k (vt_builders p)) w1 Q any_exc).
    assert (Ea : active_list p = vt_builders p) by (unfold active_list; destruct (Z.eqb_spec (is_proxy p) 0); [tauto | reflexivity]).
    eapply HK; [exact S1 | rewrite lookup_insert_ne by congruence; exact L | | apply Kp | tauto | intros _ |].
    + rewrite (stakes_update V j p) by exact Lp. cbn. lia.
    + split; [apply Kp |]. split; [intros E; destruct N; eapply st_one_voter; [exact S | exact Lp | exact L | congruence] |].
      exists j, (more_proxied (staked v) p). rewrite lookup_insert_eq. auto.
    + rewrite <- O, <- Ea. apply (off_proxied_step V B dt de j p (staked v)); [exact K | exact Lp | congruence |].
      intros m x Lx E. eapply st_one_voter; [exact S | exact Lx | exact Lp | exact E].
Qed.

(** What the lists of revoked and elected builders are. *)
Lemma revoked_elected old new : StronglySorted Z.lt old -> StronglySorted Z.lt new ->
  let elected := if negb (Z.of_nat (length old) =? 0) then set_difference new old else new in
  (forall n, n ∈ set_difference old new <-> n ∈ old /\ n ∉ new) /\ (forall n, n ∈ elected <-> n ∈ new /\ n ∉ old) /\
  NoDup (set_difference old new) /\ NoDup elected.
Proof.
  intros So Sn elected. split_and!.
  - intros n. apply set_difference_spec; assumption.
  - intros n. unfold elected. destruct old as [| x old]; [cbn | cbn [length]; rewrite (proj2 (Z.eqb_neq _ 0)) by lia; apply set_difference_spec; assumption].
    split; [intros Hn; split; [exact Hn | intros X; inversion X] | tauto].
  - apply sorted_NoDup, set_difference_sorted; assumption.
  - unfold elected. destruct (negb _); apply sorted_NoDup; [apply set_difference_sorted |]; assumption.
Qed.

Lemma among_difference old new revoked elected W n :
  (forall m, m ∈ revoked <-> m ∈ old /\ m ∉ new) -> (forall m, m ∈ elected <-> m ∈ new /\ m ∉ old) ->
  u128 (among revoked (- u128 W) n + among elected (u128 W) n) = u128 (among new W n - among old W n).
Proof.
  intros R E. unfold among. rewrite (bool_decide_ext _ _ (R n)), (bool_decide_ext _ _ (E n)).
  assert (U : u128 (- u128 W) = u128 (- W)) by apply u128_opp, u128_u128.
  repeat case_bool_decide; try tauto; rewrite ?Z.add_0_r, ?Z.add_0_l, ?Z.sub_0_r, ?Z.sub_0_l; auto.
  - apply u128_u128.
  - f_equal. lia.
Qed.

Lemma contrib_split v W old n : W = weight v -> (proxy v <> 0 -> W = staked v) -> (proxy v = 0 -> old = vt_builders v) ->
  contrib n v + among old (if proxy v =? 0 then 0 else staked v) n = among old W n.
Proof.
  intros HW HP HO. unfold contrib, among. destruct (Z.eqb_spec (proxy v) 0) as [P0 | P0].
  - rewrite (HO P0), (bool_decide_ext (proxy v = 0 /\ n ∈ vt_builders v) (n ∈ vt_builders v)) by tauto.
    subst W. destruct (bool_decide _); lia.
  - rewrite bool_decide_false by tauto. rewrite (HP P0). reflexivity.
Qed.

(** The checks at the head of vote_builder. *)
Lemma vote_checks w q bs :
  ends (if negb (q =? 0) then
     require (Z.of_nat (length bs) =? 0) "cannot vote for builders and proxy at same time" ;; require_recipient cx q
   else
     require (Z.of_nat (length bs) <=? 30) "attempt to vote for too many builders" ;;
     require (strictly_sorted bs) "builder votes must be unique and sorted") w
   (fun w' _ => w_db w' = w_db w /\ StronglySorted Z.lt bs /\ (q <> 0 -> bs = [])) any_exc.
Proof.
  destruct (Z.eqb_spec q 0) as [Q0 | Q0]; cbn [negb]; (apply wp_require; [intros E | intros _; exact I]).
  - apply ends_require; [intros E2 | intros _; exact I]. split; [reflexivity |]. split; [apply strictly_sorted_spec, E2 | tauto].
  - eapply ends_weaken; [apply (require_recipient_ends cx q w any_exc) | | auto]. intros w1 u D. cbn in D. split; [exact D |].
    destruct bs as [| b bs]; [split; [constructor | intros _; reflexivity] | discriminate E].
Qed.

(** Old and new builders, revocations, elections and the two proxies balance
    the voter's change of choice. *)
Lemma choice_balances V B V2 B2 i v q bs t old new revoked elected :
  voter_ok V B v -> V2 !! i = Some v -> voter_ok V2 B2 (rechoice q bs t v) -> (q <> 0 -> is_proxy v = 0) ->
  (proxy v = 0 -> old = vt_builders v) -> (q = 0 -> new = bs) ->
  (forall m, m ∈ revoked <-> m ∈ old /\ m ∉ new) -> (forall m, m ∈ elected <-> m ∈ new /\ m ∉ old) ->
  off V2 B2 (fun n => among old (- (if proxy v =? 0 then 0 else staked v)) n + among new (if q =? 0 then 0 else staked v) n
               - among revoked (- u128 (weight v)) n - among elected (u128 (weight v)) n)
            (fun n => only (proxy v) (- (if proxy v =? 0 then 0 else staked v)) n + only q (if q =? 0 then 0 else staked v) n) ->
  books (<[i := rechoice q bs t v]> V2) B2.
Proof.
  intros Kv L2 Hv Qp Eo En Rv El K. set (a := if proxy v =? 0 then 0 else staked v) in *. set (c := if q =? 0 then 0 else staked v) in *.
  apply (off_books _ _ _ _ (off_choice _ _ _ _ _ _ q bs t K L2 Hv)).
  - intros n. cbn beta.
    assert (C : contrib n v + among old a n = among old (weight v) n).
    { apply contrib_split; [reflexivity | | exact Eo]. intros P0. destruct (ok_proxy _ _ _ Kv P0) as (Ip & _). unfold weight. rewrite Ip. cbn. lia. }
    assert (C' : contrib n (rechoice q bs t v) + among new c n = among new (weight v) n).
    { apply (contrib_split (rechoice q bs t v)); [reflexivity | | exact En]. cbn. intros Q0. unfold weight. rewrite (Qp Q0). cbn. lia. }
    pose proof (among_difference old new _ _ (weight v) n Rv El) as Dn.
    assert (Na : among old (- a) n = - among old a n) by (unfold among; destruct (bool_decide _); reflexivity).
    replace (_ + _ - _ - _ + _) with (among new (weight v) n - among old (weight v) n
      + - (among revoked (- u128 (weight v)) n + among elected (u128 (weight v)) n)) by lia.
    rewrite <- u128_add_r, (u128_opp _ _ Dn), u128_add_r, Z.add_opp_diag_r. reflexivity.
  - intros n N0. unfold only, entrust; cbn. unfold a, c.
    rewrite (Z.eqb_sym n (proxy v)), (Z.eqb_sym n q).
    destruct (Z.eqb_spec (proxy v) n), (Z.eqb_spec q n), (Z.eqb_spec (proxy v) 0), (Z.eqb_spec q 0); lia.
Qed.

Lemma vote_builder_books db0 V B w vp : books V B -> st db0 V B w ->
  ends (vote_builder cx vp) w (fun w' _ => booked db0 (msum staked V) w') any_exc.
Proof.
  destruct vp as [acnt q bs]. intros K S. unfold vote_builder. cbn [vb_voter vb_proxy vb_builders]. apply ends_bind.
  eapply ends_weaken; [apply vote_checks | | auto]. intros w0 _ (D & Sb & Qb).
  pose proof (st_same _ _ _ _ _ D S) as S0. clear S D.
  eapply (find_voter_cases _ _ _ _ _ _ _ _ S0); [| intros _; exact I]. intros i v L _. pose proof (bk_voter _ _ K _ _ L) as Kv.
  eapply the_voter_step; [exact S0 | exact L |].
  apply wp_require; [intros _ | intros _; exact I]. apply wp_require; [intros Qp | intros _; exact I].
  destruct (negb (proxy v =? 0) && (proxy v =? q)) eqn:Same; [exists V, B; auto |].
  apply (old_side db0 V B w0 i v); [exact K | exact S0 | exact L |].
  intros w1 V1 old S1 L1 St1 So Ro Eo K1.
  apply (new_side db0 V1 B w1 i v _ _ q bs _ _ K1 S1 L1 Sb); [lia |].
  intros w2 V2 new S2 L2 St2 Sn En Pn K2. eapply the_voter_step; [exact S2 | exact L2 |]. cbv zeta.
  replace (u128 (if negb (is_proxy v =? 0) then u128 (staked v) + proxied_votes v else staked v)) with (u128 (weight v))
    by (unfold weight; destruct (is_proxy v =? 0); cbn [negb]; [f_equal; lia | symmetry; apply u128_add_l]).
  destruct (revoked_elected old new So Sn) as (Rv & El & NR & NE). cbv zeta in El, NE.
  set (elected := if negb (Z.of_nat (length old) =? 0) then _ else _) in *.
  apply ends_bind. eapply ends_weaken with (Q := fun w3 _ => exists B3, st db0 V2 B3 w3 /\ moved (among (set_difference old new) (- u128 (weight v))) B B3)
    (X := no_exc); [| | intros ? ? []].
  { destruct old as [| x old]; [exists B; split; [exact S2 |]; eapply moved_ext; [| apply moved_refl, (books_range _ _ K)]; reflexivity |].
    cbn [length negb]. rewrite (proj2 (Z.eqb_neq _ 0)) by lia. cbn [negb].
    apply change_votes_spec; [exact S2 | apply (books_range _ _ K) | exact NR |].
    rewrite Forall_forall in *. intros n Hn. apply Ro, Rv, Hn. }
  intros w3 _ (B3 & S3 & M3). pose proof (off_moved _ _ _ _ _ _ K2 M3) as K3.
  apply ends_bind. eapply ends_weaken; [apply elect_spec; [exact S3 | apply (off_range _ _ _ _ K3) | exact NE] | | auto].
  intros w4 _ (B4 & S4 & M4 & Fe). pose proof (off_moved _ _ _ _ _ _ K3 M4) as K4.
  assert (Rn : Forall (registered B4) new).
  { rewrite Forall_forall in *. intros n Hn. apply (moved_registered _ _ _ _ M4). destruct (decide (n ∈ old)) as [Ho | Ho];
      [apply (moved_registered _ _ _ _ M3), Ro, Ho | apply Fe, El; auto]. }
  apply ends_bind_ret. eapply voter_step; [exact S4 | exact L2 | reflexivity | reflexivity |]. intros w5 S5.
  eexists _, B4. split; [exact S5 |].
  split; [| rewrite (stakes_update V2 i v) by exact L2; cbn; lia].
  eapply (choice_balances V B V2 B4 i v q bs _ old new); try eassumption; [| lia].
  pose proof (off_voter _ _ _ _ K4 _ _ L2) as []. split; try assumption; cbn.
  - destruct (Z.eq_dec q 0) as [Q0 | Q0]; [rewrite <- (En Q0); exact Rn | rewrite (Qb Q0); constructor].
  - intros Q0. destruct (Pn Q0) as (_ & Ns & Ow). split_and!; [lia | auto | exact Ns | exact Ow].
Qed.
End Operations.

(** ** The books are exact *)

Lemma msum_swap {R T} (f : R -> T -> Z) (m : gmap Z R) (k : gmap Z T) :
  msum (fun x => msum (f x) k) m = msum (fun y => msum (fun x => f x y) m) k.
Proof.
  induction m as [| i x m N IH] using msum_ind.
  - rewrite msum_empty. rewrite (msum_ext _ (fun _ => 0)); [symmetry; apply msum_zero |]. intros j y _. apply msum_empty.
  - rewrite msum_new, IH, <- msum_plus by exact N. apply msum_ext. intros j y _. rewrite msum_new by exact N. reflexivity.
Qed.

(** At most one object is counted. *)
Lemma msum_one {R} (p : R -> bool) c (m : gmap Z R) : 0 <= c ->
  (forall i j x y, m !! i = Some x -> m !! j = Some y -> p x = true -> p y = true -> i = j) -> msum (fun x => if p x then c else 0) m <= c.
Proof.
  intros C. induction m as [| i x m N IH] using msum_ind; intros U; [rewrite msum_empty; exact C |]. rewrite msum_new by exact N.
  destruct (p x) eqn:P.
  - rewrite (msum_ext _ (fun _ => 0)); [rewrite msum_zero; lia |]. intros j y L. destruct (p y) eqn:Py; [| reflexivity].
    assert (j <> i) by congruence. destruct H. apply (U j i y x); rewrite ?lookup_insert_eq, ?lookup_insert_ne by congruence; auto.
  - apply IH. intros j k y z Lj Lk. apply U; rewrite lookup_insert_ne by congruence; assumption.
Qed.

Section Exact.
Context (V : voters) (B : builders).
Hypothesis K : books V B.
Hypothesis U : forall i j v v', V !! i = Some v -> V !! j = Some v' -> vt_owner v = vt_owner v' -> i = j.

Lemma entrusted_range n : 0 <= entrusted V n <= msum staked V.
Proof.
  split; [apply msum_nonneg | apply msum_le]; intros i v L; pose proof (ok_staked _ _ _ (bk_voter _ _ K _ _ L));
    unfold entrust; destruct (_ =? _); lia.
Qed.

Lemma proxied_exact i v : V !! i = Some v -> vt_owner v <> 0 -> proxied_votes v = entrusted V (vt_owner v).
Proof.
  intros L O. rewrite (bk_proxied _ _ K _ _ L O). apply u128_small.
  pose proof (entrusted_range (vt_owner v)). pose proof (bk_stakes _ _ K). lia.
Qed.

(** Nobody's stake is entrusted twice. *)
Lemma all_entrusted : msum (fun p => if vt_owner p =? 0 then 0 else entrusted V (vt_owner p)) V <= msum staked V.
Proof.
  rewrite (msum_ext _ (fun p => msum (fun v => if (vt_owner p =? proxy v) && negb (vt_owner p =? 0) then staked v else 0) V)).
  - rewrite msum_swap. apply msum_le. intros i v L. apply msum_one; [apply (bk_voter _ _ K _ _ L) |].
    intros j k x y Lj Lk Hx Hy. apply (U j k x y Lj Lk). lia.
  - intros i p L. destruct (vt_owner p =? 0) eqn:O.
    + symmetry. rewrite (msum_ext _ (fun _ => 0)); [apply msum_zero |]. intros j v _. rewrite andb_false_r. reflexivity.
    + apply msum_ext. intros j v _. unfold entrust. rewrite andb_true_r, (Z.eqb_sym (proxy v)). reflexivity.
Qed.

Lemma tally_exact :
  forall i b, B !! i = Some b -> total_votes b = tally V (bd_owner b).
Proof.
  intros i b L. rewrite (bk_total _ _ K _ _ L). apply u128_small. pose proof (bk_stakes _ _ K). pose proof all_entrusted.
  assert (C : forall j v, V !! j = Some v -> 0 <= contrib (bd_owner b) v <= staked v + (if vt_owner v =? 0 then 0 else entrusted V (vt_owner v))).
  { intros j v Lv. pose proof (bk_voter _ _ K _ _ Lv) as Kv. pose proof (ok_staked _ _ _ Kv). pose proof (ok_proxied _ _ _ Kv).
    assert (E : proxied_votes v = if vt_owner v =? 0 then 0 else entrusted V (vt_owner v))
      by (destruct (Z.eqb_spec (vt_owner v) 0); [apply (ok_nameless _ _ _ Kv); assumption | apply (proxied_exact j); assumption]).
    unfold contrib, weight. case_bool_decide; [destruct (is_proxy v =? 0) |]; lia. }
  split; [apply msum_nonneg; intros j v Lv; apply (C j v Lv) |].
  apply Z.le_lt_trans with (msum (fun v => staked v + (if vt_owner v =? 0 then 0 else entrusted V (vt_owner v))) V).
  - apply msum_le. intros j v Lv. apply (C j v Lv).
  - rewrite msum_plus. lia.
Qed.
End Exact.
