(* ===== verification/VotingProps.v ===== *)
(** Voting from the outside: histories of operations keep the books balanced,
    and the next round consists of the active builders with the most votes. *)

From Stdlib Require Import ZArith Lia Bool String List Sorted.
From stdpp Require Import base decidable gmap fin_maps list sorting.
From S2P Require Import Prelude ChainUtils Block Effects UndoIndex UndoIndexThm Objects Tables Context Sums Voting VotingThm.
Import ListNotations.
Local Open Scope Z_scope.

Local Abbreviation database := (list (generic_index row)).

(** ** Histories *)

Inductive vote_op :=
| OpIncrease (acnt amount : Z) | OpDecrease (acnt amount : Z) | OpVote (vp : votebuilder)
| OpRegBuilder (reg : regbuilder) | OpUnregBuilder (builder : Z) | OpRegProxy (name : Z) | OpUnregProxy (name : Z).

Definition run_op (raw : Z -> uninitialized) (cx : call) (op : vote_op) : M world unit :=
  match op with
  | OpIncrease acnt amount => increase_votes cx raw acnt amount
  | OpDecrease acnt amount => decrease_votes cx acnt amount
  | OpVote vp => vote_builder cx vp
  | OpRegBuilder reg => reg_builder reg
  | OpUnregBuilder builder => unreg_builder builder
  | OpRegProxy name => reg_proxy cx raw name
  | OpUnregProxy name => unreg_proxy cx name
  end.

(** Operations one after the other; one that throws is rolled back with its
    transaction.  [None] is undefined behaviour. *)
Fixpoint vote_history (raw : Z -> uninitialized) (ops : list (call * vote_op)) (db : database) : option database :=
  match ops with
  | [] => Some db
  | (cx, op) :: ops =>
      match run_op raw cx op (World db (new_context cx 0)) with
      | Ret w _ => vote_history raw ops (w_db w)
      | Exc _ _ => vote_history raw ops db
      | Undef => None
      end
  end.

Definition op_amount (op : vote_op) : Z := match op with OpIncrease _ amount => amount | _ => 0 end.
Definition amounts (ops : list (call * vote_op)) : Z := fold_right (fun o acc => op_amount o.2 + acc) 0 ops.

Definition balanced (db : database) : Prop :=
  valid db /\ books (table voter_info_object db) (table builder_info_object db).
Definition all_staked (db : database) : Z := msum staked (table voter_info_object db).

Lemma run_op_books raw cx op db : zeroed raw -> balanced db -> 0 <= op_amount op -> all_staked db + op_amount op < 2 ^ 63 ->
  ends (run_op raw cx op) (World db (new_context cx 0)) (fun w _ => balanced (w_db w) /\ all_staked (w_db w) <= all_staked db + op_amount op) any_exc.
Proof.
  intros Z0 [Vd K] A0 Sb. pose proof (st_start (World db (new_context cx 0)) Vd) as S. cbn [w_db] in S. unfold all_staked in *.
  assert (F : forall total w, booked db total w -> balanced (w_db w) /\ msum staked (table voter_info_object (w_db w)) = total).
  { intros total w (V & B & [Vw <- <- _] & Kw & E). split; [split; assumption | exact E]. }
  assert (G : forall m total, ends m (World db (new_context cx 0)) (fun w _ => booked db total w) any_exc ->
     total <= msum staked (table voter_info_object db) + op_amount op ->
     ends m (World db (new_context cx 0)) (fun w (_ : unit) => balanced (w_db w) /\ msum staked (table voter_info_object (w_db w)) <= msum staked (table voter_info_object db) + op_amount op) any_exc).
  { intros m total E Le. eapply ends_weaken; [exact E | | auto]. intros w u Bk. cbn in Bk. destruct (F _ _ Bk) as [Bw <-]. auto. }
  destruct op; cbn [run_op op_amount] in *; eapply G.
  - eapply increase_votes_books; eassumption.
  - lia.
  - eapply decrease_votes_books; eassumption.
  - lia.
  - eapply vote_builder_books; eassumption.
  - lia.
  - eapply reg_builder_books; eassumption.
  - lia.
  - eapply unreg_builder_books; eassumption.
  - lia.
  - eapply reg_proxy_books; eassumption.
  - lia.
  - eapply unreg_proxy_books; eassumption.
  - lia.
Qed.

Lemma amounts_nonneg ops : Forall (fun o : call * vote_op => 0 <= op_amount o.2) ops -> 0 <= amounts ops.
Proof.
  induction ops as [| [c o] l IH]; intros F; [cbn; lia |]. apply Forall_cons in F as [Ho F].
  cbn [amounts fold_right snd] in *. specialize (IH F). unfold amounts in IH. lia.
Qed.

Lemma vote_history_balanced raw ops : forall db, zeroed raw -> balanced db -> Forall (fun o => 0 <= op_amount o.2) ops ->
  all_staked db + amounts ops < 2 ^ 63 -> exists db', vote_history raw ops db = Some db' /\ balanced db'.
Proof.
  induction ops as [| [cx op] ops IH]; intros db Z0 K F Sb; [exists db; auto |].
  apply Forall_cons in F as [F0 F]. cbn [amounts fold_right snd] in Sb. fold (amounts ops) in Sb. cbn [snd] in F0.
  pose proof (amounts_nonneg ops F) as A.
  pose proof (run_op_books raw cx op db Z0 K F0 ltac:(lia)) as E. cbn [vote_history]. unfold ends in E.
  destruct (run_op raw cx op _) as [w [] | w e |]; [destruct E as [Kw Sw] | | contradiction]; apply IH; try assumption; lia.
Qed.


(** ** A witness: two voters, a proxy, three builders *)

Lemma empty_balanced : balanced empty_db.
Proof.
  split; [apply empty_valid |]. rewrite !empty_table.
  split; [intros ? ? E | intros ? ? E | intros ? ? E |]; try (rewrite lookup_empty in E; discriminate).
  rewrite msum_empty. lia.
Qed.

Definition toy_raw : Z -> uninitialized := fun _ => Raw 0 0 0 0.
Definition toy_call : call := Call (Transaction 0 0 0 [] [] [] 0 0 0) (Message 1 2 [] []) 0 77 78.
Definition toy_key (k : Z) : list Z := repeat k 33.

(** Builders 11 and 12; proxy 5 with a stake of its own votes for both; voter 6
    first votes for 12 and then chooses the proxy; the proxy drops 11. *)
Definition toy_votes : list (call * vote_op) := map (fun o => (toy_call, o))
  [OpRegBuilder (RegBuilder 11 (toy_key 1)); OpRegBuilder (RegBuilder 12 (toy_key 2));
   OpIncrease 5 100; OpIncrease 6 30; OpRegProxy 5; OpVote (VoteBuilder 5 0 [11; 12]); OpVote (VoteBuilder 6 0 [12]);
   OpVote (VoteBuilder 6 5 []); OpIncrease 6 12; OpVote (VoteBuilder 5 0 [12; 13]); OpVote (VoteBuilder 5 0 [12])].

Definition votes_of (db : database) : list (Z * Z) := map (fun kv => (bd_owner kv.2, total_votes kv.2)) (map_to_list (table builder_info_object db)).

Example toy_votes_result : option_map votes_of (vote_history toy_raw toy_votes empty_db) = Some [(12, 142); (11, 0)].
Proof. vm_compute. reflexivity. Qed.


(** ** The next round *)

Lemma take_round_take l : forall c, 0 <= c < 21 ->
  take_round c l = map (fun it => Builder (bd_owner it.2) (builder_key it.2)) (take (Z.to_nat (21 - c)) l).
Proof.
  induction l as [| it l IH]; intros c C; [rewrite take_nil; reflexivity |].
  cbn [take_round]. change blocks_per_round with 21. destruct (21 <=? c + 1) eqn:E.
  - replace (Z.to_nat (21 - c)) with 1%nat by lia. destruct l; reflexivity.
  - replace (Z.to_nat (21 - c)) with (S (Z.to_nat (21 - (c + 1)))) by lia. cbn. rewrite IH by lia. reflexivity.
Qed.

#[local] Instance vote_order_total : Total vote_order_ge.
Proof. intros x y. unfold vote_order_ge. lia. Qed.
#[local] Instance vote_order_trans : Transitive vote_order_ge.
Proof. intros x y z. unfold vote_order_ge. lia. Qed.
#[local] Instance name_le_total : Total name_le.
Proof. intros x y. unfold name_le. lia. Qed.
#[local] Instance name_le_trans : Transitive name_le.
Proof. intros x y z. unfold name_le. lia. Qed.

Lemma filter_keeps_sorted {A} (R : A -> A -> Prop) (P : A -> Prop) `{!forall x, Decision (P x)} l : StronglySorted R l -> StronglySorted R (filter P l).
Proof.
  induction 1 as [| x l S IH F]; [constructor |]. rewrite filter_cons. case_decide; [| exact IH].
  constructor; [exact IH |]. rewrite Forall_forall in *. intros y Hy. apply F. apply list_elem_of_filter in Hy. tauto.
Qed.

Lemma StronglySorted_split {A} (R : A -> A -> Prop) n l x y : StronglySorted R l -> x ∈ take n l -> y ∈ drop n l -> R x y.
Proof.
  intros S. rewrite <- (take_drop n l) in S. revert S. generalize (take n l) (drop n l). intros t d S Hx Hy.
  induction t as [| a t IH]; [inversion Hx |]. cbn in S. apply StronglySorted_inv in S as [S F].
  apply elem_of_cons in Hx as [-> | Hx]; [| auto]. rewrite Forall_forall in F. apply F, elem_of_app. right. exact Hy.
Qed.

Definition active_builders (db : database) : list (Z * builder_info_object) :=
  filter (fun it => is_actived it.2) (map_to_list (table builder_info_object db)).
Definition as_info (it : Z * builder_info_object) : builder_info := Builder (bd_owner it.2) (builder_key it.2).
Definition name_lt (x y : builder_info) : Prop := builder_name x < builder_name y.

(** Sorted by a total order in which no two entries are equal. *)
Lemma sorted_strictly l : StronglySorted name_le l -> NoDup (map builder_name l) -> StronglySorted name_lt l.
Proof.
  induction 1 as [| x l S IH F]; intros ND; constructor; cbn in ND; apply NoDup_cons in ND as [N ND]; [apply IH, ND |].
  rewrite Forall_forall in *. intros y Hy. specialize (F y Hy). unfold name_le, name_lt in *.
  enough (builder_name x <> builder_name y) by lia. intros E. apply N. rewrite E. apply list_elem_of_fmap. eauto.
Qed.

Lemma active_names_NoDup db : valid db -> NoDup (map builder_name (map as_info (active_builders db))).
Proof.
  intros Vd. rewrite map_map. cbn. pose proof (st_one_builder _ _ _ _ (st_start (World db (Context 0 [] [] [] 0 [])) Vd)) as U. cbn in U.
  apply NoDup_fmap_2_strong; [| apply NoDup_filter, NoDup_map_to_list].
  intros [i x] [j y] Hx Hy E. cbn in E. apply list_elem_of_filter in Hx as [_ Hx], Hy as [_ Hy].
  apply elem_of_map_to_list in Hx, Hy. assert (i = j) as -> by exact (U i j x y Hx Hy E). congruence.
Qed.

(** The election of a round.  When no builder is active the round is the
    contract's own builder; otherwise it is made of the first 21 active
    builders in the order of votes (of ids among equals), all of them when
    there are fewer, and is sorted by strictly increasing names. *)
Theorem next_round_elects xmax key db : valid db ->
  (active_builders db = [] -> next_round xmax key db = [Builder xmax key]) /\
  (active_builders db <> [] -> exists elected rest,
     elected ++ rest ≡ₚ active_builders db /\ length elected = Nat.min 21 (length (active_builders db)) /\
     (forall x y, x ∈ elected -> y ∈ rest -> total_votes y.2 < total_votes x.2 \/ (total_votes x.2 = total_votes y.2 /\ y.1 <= x.1)) /\
     next_round xmax key db ≡ₚ map as_info elected /\ StronglySorted name_lt (next_round xmax key db)).
Proof.
  intros Vd. pose proof (active_names_NoDup db Vd) as ND. unfold next_round. rewrite take_round_take by lia. fold as_info.
  set (l := filter (fun it : Z * builder_info_object => is_actived it.2) (by_votes (table builder_info_object db))).
  assert (P : l ≡ₚ active_builders db) by (apply filter_Permutation, merge_sort_Permutation).
  change (Z.to_nat (21 - 0)) with 21%nat. split.
  - intros E. rewrite E in P. apply Permutation_nil_r in P. rewrite P. reflexivity.
  - intros E. exists (take 21 l), (drop 21 l). rewrite take_drop. split; [exact P |].
    split; [rewrite length_take, (Permutation_length P); reflexivity |]. split.
    { intros x y. apply (StronglySorted_split vote_order_ge). apply filter_keeps_sorted, StronglySorted_merge_sort; apply _. }
    assert (R : match map as_info (take 21 l) with [] => [Builder xmax key] | _ => merge_sort name_le (map as_info (take 21 l)) end
                = merge_sort name_le (map as_info (take 21 l))).
    { destruct l as [| x l']; [destruct E; symmetry; apply Permutation_nil_l, P | reflexivity]. }
    fold as_info. change (map (fun it => Builder (bd_owner it.2) (builder_key it.2)) (take 21 l)) with (map as_info (take 21 l)).
    rewrite R. split; [apply merge_sort_Permutation |]. apply sorted_strictly; [apply StronglySorted_merge_sort; apply _ |].
    rewrite (fmap_Permutation builder_name _ _ (merge_sort_Permutation name_le (map as_info (take 21 l)))).
    rewrite <- P, <- (take_drop 21 l), !map_app in ND. apply NoDup_app in ND. tauto.
Qed.

Lemma next_round_elects_witness : exists db, vote_history toy_raw toy_votes empty_db = Some db /\ active_builders db <> [] /\
  length (next_round 1 (toy_key 9) db) = 2%nat.
Proof.
  destruct (vote_history_balanced toy_raw toy_votes empty_db) as (db & E & Vd & _).
  - intros id; split; reflexivity.
  - apply empty_balanced.
  - repeat constructor; cbn; lia.
  - unfold all_staked. rewrite empty_table, msum_empty. vm_compute. reflexivity.
  - exists db. split; [exact E |].
    assert (Ea : active_builders db <> []).
    { assert (L : option_map (fun db => length (active_builders db)) (vote_history toy_raw toy_votes empty_db) = Some 2%nat) by (vm_compute; reflexivity).
      rewrite E in L. cbn in L. injection L as L. intros X. rewrite X in L. discriminate. }
    split; [exact Ea |]. destruct (proj2 (next_round_elects 1 (toy_key 9) db Vd) Ea) as (el & rest & P & Ln & _ & Pn & _).
    rewrite Pn, length_map, Ln.
    assert (L : option_map (fun db => length (active_builders db)) (vote_history toy_raw toy_votes empty_db) = Some 2%nat) by (vm_compute; reflexivity).
    rewrite E in L. cbn in L. injection L as ->. reflexivity.
Defined.
