(* ===== verification/SystemContract.v ===== *)
(** The handlers of the system contract
    (blockchain/native_contract/xmax_contract.cpp), with the creation of
    native accounts (native_contract_chain_init.cpp) and the payment of gas
    (chain_xmax.cpp).

    share_type is int64_t, whose overflow is undefined.  The amount of a
    transfer and the gas are unchecked 64-bit multiprecision integers;
    comparing one with a share_type compares 64-bit words, and [to_share]
    is their conversion to share_type.  The FC_CAPTURE_AND_RETHROW of transfer
    and linkauth is left to exec_one_message, which has it around every
    handler.  addcontract and setcode, which load
    code into the JavaScript machine, are not modelled. *)

From Stdlib Require Import ZArith Lia Bool Ascii String List.
From stdpp Require Import base decidable gmap list.
From S2P Require Import Prelude Asset ChainUtils Block LongName Effects UndoIndex Objects Tables Context Authority Voting.
Import ListNotations.
Local Open Scope Z_scope.

Local Abbreviation database := (list (generic_index row)).

(** ** Messages (foundation/basetypes/include/gentypes.hpp) *)

Record transfer := Transfer { tr_from : Z; tr_to : Z; tr_amount : Z; tr_memo : list Z }.
Record lock := Lock { lk_from : Z; lk_to : Z; lk_amount : Z }.
Record unlock := Unlock { un_account : Z; un_amount : Z }.
Record addaccount := AddAccount {
  aa_creator : Z; aa_name : Z; aa_owner : authority; aa_active : authority; aa_deposit : asset }.
Record adderc20 := AddErc20 { a20_creator : Z; a20_token_name : Z; a20_total_balance : asset; a20_decimal : Z }.
Record adderc721 := AddErc721 { a721_creator : Z; a721_token_name : Z }.

(** What fc::raw::unpack makes of the data of these messages. *)
Class SystemCodec := {
  as_transfer : list Z -> option transfer;
  as_lock : list Z -> option lock;
  as_unlock : list Z -> option unlock;
  as_addaccount : list Z -> option addaccount;
  as_adderc20 : list Z -> option adderc20;
  as_adderc721 : list Z -> option adderc721;
  as_votebuilder : list Z -> option votebuilder;
  as_regbuilder : list Z -> option regbuilder;
  as_unregbuilder : list Z -> option Z;
  as_regproxy : list Z -> option Z;
  as_unregproxy : list Z -> option Z }.

(** context.msg.as<T>() *)
Definition msg_as {T} (cx : call) (d : list Z -> option T) : M world T := unpack d (msg_data (call_msg cx)).

Definition is_found (o : option Z) : bool := match o with Some _ => true | None => false end.

(** A function that throws, in code with exceptions and undefined behaviour. *)
Definition from_result {S A} (r : result A) : M S A :=
  match r with
  | Ok a => mret a
  | Throw e => if String.eqb e "undefined" then undefined else throw e
  end.

(** try { m } catch (...) { h } *)
Definition catch_all {S A} (m : M S A) (h : M S A) : M S A := fun s =>
  match m s with
  | Exc s e => h s
  | o => o
  end.

(** ** Members of the objects *)

(** main_token += d *)
Definition add_main (d : Z) : M xmx_token_object unit :=
  b ← gets (fun b => b);
  x ← int64 (main_token b + d);
  update (fun b => XmxToken (xmx_owner b) x).

Definition add_locked (d : Z) : M resource_token_object unit :=
  a ← gets (fun a => a);
  x ← int64 (locked_token a + d);
  update (fun a => ResourceToken (res_owner a) x (unlocked_token a) (last_unlocked_time a)).

Definition release (d t : Z) : M resource_token_object unit :=
  add_locked (- d) ;;
  a ← gets (fun a => a);
  x ← int64 (unlocked_token a + d);
  update (fun a => ResourceToken (res_owner a) (locked_token a) x t).

Definition find_account (n : Z) : M world (option Z) := on_db (db_find (fun a => acc_name a =? n)).
Definition get_tokens (n : Z) : M world Z := on_db (db_get (fun b => xmx_owner b =? n)).
Definition tokens_at (id : Z) : M world xmx_token_object := on_db (deref id).
Definition get_resource (n : Z) : M world Z := on_db (db_get (fun a => res_owner a =? n)).

Section SystemContract.
Context `{AuthCodec} `{SystemCodec}.
Context (to_share : Z -> Z) (ndebug : bool) (raw : Z -> uninitialized) (raw_threshold : Z).
Context (cx : call).

Definition validate_authority (auth : authority) : M world unit :=
  for_each (auth_accounts auth) (fun a =>
    acct ← find_account (account (permission a));
    require (is_found acct) "account does not exist" ;;
    if (Block.authority (permission a) =? xmax_owner_name) || (Block.authority (permission a) =? xmax_active_name) then mret tt
    else catch_all (on_db (get_authority_object (permission a)) ;; mret tt) (throw "permission does not exist")).

Definition account_assert (acnt : Z) : M world Z :=
  acc ← find_account acnt;
  match acc with
  | None => throw "Account not found"
  | Some acc => mret acc
  end.

Definition xmax_new_account (accname creation_time : Z) (acc_type : account_type) : M world Z :=
  on_db (db_create (fun _ => Account accname acc_type creation_time None)).

(** An authority object whose constructor ran just before. *)
Definition fresh_authority (owner name parent : Z) (auth : authority) (t : Z) : authority_object :=
  AuthorityObject owner name parent (assign_authoritys auth (empty_authoritys raw_threshold)) t.

Definition xmax_system_addaccount : M world unit :=
  create ← msg_as cx as_addaccount;
  require_authorization cx (aa_creator create) ;;
  existing_account ← find_account (aa_name create);
  require (negb (is_found existing_account)) "account_name_exists_exception" ;;
  let amount := Asset.amount (aa_deposit create) in
  require (0 <? amount) "account creation deposit must > 0" ;;
  xmax_new_account (aa_name create) (current_time cx) acc_personal ;;
  creatorToken ← get_tokens (aa_creator create);
  b ← tokens_at creatorToken;
  require (amount <=? main_token b) "insufficient funds to make account creation deposit" ;;
  on_db (db_modify creatorToken (add_main (- amount))) ;;
  on_db (db_create (fun _ => XmxToken (aa_name create) amount)) ;;
  owner_p ← on_db (db_create (fun _ => fresh_authority (aa_name create) xmax_owner_name 0 (aa_owner create) (current_time cx)));
  on_db (db_create (fun _ => fresh_authority (aa_name create) xmax_active_name owner_p (aa_active create) (current_time cx))) ;;
  mret tt.

(** asset_symbol to account_name, through the characters of the symbol. *)
Definition contract_name (token_name : Z) : M world Z :=
  from_result (LongName.to_name_code (Asset.token_name_to_string token_name)).

Definition xmax_system_adderc20 : M world unit :=
  msgdata ← msg_as cx as_adderc20;
  name ← contract_name (a20_token_name msgdata);
  require_scope cx (a20_creator msgdata) ;;
  require_authorization cx (a20_creator msgdata) ;;
  xmax_new_account name (current_time cx) acc_erc20 ;;
  existing_token_obj ← on_db (db_find (fun t => e20_token_name t =? a20_token_name msgdata));
  require (negb (is_found existing_token_obj)) "Erc20 token already exist" ;;
  on_db (db_create (fun _ =>
    Erc20 (a20_token_name msgdata) (a20_creator msgdata) (Asset.amount (a20_total_balance msgdata)) 2 0 0)) ;;
  token_account_owner_ptr ← on_db (db_find (fun a =>
    (e20a_token_name a =? a20_token_name msgdata) && (e20a_owner a =? a20_creator msgdata)));
  require (negb (is_found token_account_owner_ptr)) "From account already have tokens!" ;;
  on_db (db_create (fun _ =>
    Erc20Account (a20_token_name msgdata) (a20_creator msgdata) (Asset.amount (a20_total_balance msgdata)))) ;;
  mret tt.

Definition xmax_system_adderc721 : M world unit :=
  msgdata ← msg_as cx as_adderc721;
  require_scope cx (a721_creator msgdata) ;;
  require_authorization cx (a721_creator msgdata) ;;
  name ← contract_name (a721_token_name msgdata);
  require_authorization cx (a721_creator msgdata) ;;
  xmax_new_account name (current_time cx) acc_erc721 ;;
  existing_token_obj ← on_db (db_find (fun t => e721_token_name t =? a721_token_name msgdata));
  require (negb (is_found existing_token_obj)) "Erc721 token already exist" ;;
  on_db (db_create (fun _ => Erc721 (a721_token_name msgdata) (a721_creator msgdata) 0 0)) ;;
  mret tt.

(** ** Authorities *)

Definition xmax_system_updateauth : M world unit :=
  msg ← msg_as cx as_updateauth;
  require_authorization cx (ua_account msg) ;;
  require (negb (ua_permission msg =? 0)) "Cannot create authority with empty name" ;;
  ok ← from_result (check_authority_name ndebug (ua_permission msg));
  require ok "Permission names cannot be started with 'xmax'" ;;
  require (negb (ua_permission msg =? ua_parent msg)) "Cannot set an authority as its own parent" ;;
  account_assert (ua_account msg) ;;
  require (validate_weight_format (ua_new_authority msg)) "Invalid authority" ;;
  (if ua_permission msg =? xmax_owner_name then require (ua_parent msg =? 0) "Owner authority's parent must be empty"
   else require (negb (ua_parent msg =? 0)) "Only owner authority's parent can be empty") ;;
  (if ua_permission msg =? xmax_active_name then
     require (ua_parent msg =? xmax_owner_name) "Active authority's parent must be owner"
   else mret tt) ;;
  validate_authority (ua_new_authority msg) ;;
  old_auth ← on_db (find_authority_object (AccountAuth (ua_account msg) (ua_permission msg)));
  parent_id ← (if negb (ua_permission msg =? xmax_owner_name)
               then on_db (get_authority_object (AccountAuth (ua_account msg) (ua_parent msg)))
               else mret 0);
  match old_auth with
  | Some old_auth =>
      old ← on_db (deref old_auth);
      require (parent_id =? auth_parent old) "Changing parent authority is not supported" ;;
      on_db (modify_authority_object old_auth (ua_new_authority msg) (building_time cx))
  | None =>
      on_db (new_authority_object raw_threshold (ua_account msg) (ua_permission msg) parent_id
               (ua_new_authority msg) (building_time cx)) ;;
      mret tt
  end.

Definition xmax_system_deleteauth : M world unit :=
  msg ← msg_as cx as_deleteauth;
  require_authorization cx (da_account msg) ;;
  require (negb (da_permission msg =? xmax_active_name)) "Cannot delete active authority" ;;
  require (negb (da_permission msg =? xmax_owner_name)) "Cannot delete owner authority" ;;
  on_db (remove_linked_object (da_account msg) (da_permission msg)) ;;
  auth ← on_db (get_authority_object (AccountAuth (da_account msg) (da_permission msg)));
  on_db (remove_authority_object auth).

(** find<authority_object, by_name> and by_owner: the first key is the owner. *)
Definition find_owned (n : Z) : M world (option Z) := on_db (db_find (fun a => auth_owner a =? n)).

Definition xmax_system_linkauth : M world unit :=
  msg ← msg_as cx as_linkauth;
  require (negb (la_requirement msg =? 0)) "Required authority name cannot be empty" ;;
  require_authorization cx (la_account msg) ;;
  account_assert (la_account msg) ;;
  account_assert (la_code msg) ;;
  (if negb (la_type msg =? xmax_sysany_name) then
     permission ← find_owned (la_requirement msg);
     require (is_found permission) "Failed to retrieve authority"
   else mret tt) ;;
  auth ← find_owned (la_requirement msg);
  require (is_found auth) "Auth not found" ;;
  linked ← on_db (db_find (linked_by (la_account msg) (la_code msg) (la_type msg)));
  match linked with
  | Some linked =>
      l ← on_db (deref linked);
      require (negb (required_auth l =? la_requirement msg)) "Auth used" ;;
      on_db (db_modify linked (update (fun l =>
        LinkedPermission (link_account l) (link_code l) (link_func l) (la_requirement msg))))
  | None =>
      on_db (db_create (fun _ =>
        LinkedPermission (la_account msg) (la_code msg) (la_type msg) (la_requirement msg))) ;;
      mret tt
  end.

Definition xmax_system_unlinkauth : M world unit :=
  msg ← msg_as cx as_unlinkauth;
  require_authorization cx (ul_account msg) ;;
  linked ← on_db (db_find (linked_by (ul_account msg) (ul_code msg) (ul_type msg)));
  match linked with
  | None => throw "Linked permission not found"
  | Some linked => on_db (db_remove linked_permission_object linked)
  end.

(** ** Tokens *)

Definition xmax_system_transfer : M world unit :=
  transfer ← msg_as cx as_transfer;
  require (0 <? tr_amount transfer) "Must transfer a positive amount" ;;
  require_scope cx (tr_to transfer) ;;
  require_scope cx (tr_from transfer) ;;
  require_recipient cx (tr_to transfer) ;;
  require_recipient cx (tr_from transfer) ;;
  from ← get_tokens (tr_from transfer);
  b ← tokens_at from;
  require (tr_amount transfer <=? u64 (main_token b)) "Insufficient Funds" ;;
  to ← get_tokens (tr_to transfer);
  on_db (db_modify from (add_main (- to_share (tr_amount transfer)))) ;;
  on_db (db_modify to (add_main (to_share (tr_amount transfer)))).

Definition xmax_system_lock : M world unit :=
  lock ← msg_as cx as_lock;
  require (0 <? lk_amount lock) "Locked amount must be positive" ;;
  require_scope cx (lk_to lock) ;;
  require_scope cx (lk_from lock) ;;
  require_scope cx xmax_contract_name ;;
  require_authorization cx (lk_from lock) ;;
  require_recipient cx (lk_to lock) ;;
  require_recipient cx (lk_from lock) ;;
  locker ← get_tokens (lk_from lock);
  b ← tokens_at locker;
  require (lk_amount lock <=? main_token b) "lacks sufficient funds to lock" ;;
  resource_token ← get_resource (lk_to lock);
  on_db (db_modify locker (add_main (- lk_amount lock))) ;;
  on_db (db_modify resource_token (add_locked (lk_amount lock))) ;;
  increase_votes cx raw (lk_to lock) (lk_amount lock).

Definition xmax_system_unlock : M world unit :=
  unlock ← msg_as cx as_unlock;
  require_authorization cx (un_account unlock) ;;
  require (0 <=? un_amount unlock) "Unlock amount cannot be negative" ;;
  unlocker ← get_resource (un_account unlock);
  a ← on_db (deref unlocker : M database resource_token_object);
  require (un_amount unlock <=? locked_token a) "Insufficient locked funds to unlock" ;;
  on_db (db_modify unlocker (release (un_amount unlock) (current_time cx))) ;;
  decrease_votes cx (un_account unlock) (un_amount unlock).

(** ** Votes *)

Definition xmax_system_votebuilder : M world unit := vp ← msg_as cx as_votebuilder; vote_builder cx vp.
Definition xmax_system_regbuilder : M world unit := reg ← msg_as cx as_regbuilder; reg_builder reg.
Definition xmax_system_unregbuilder : M world unit := unreg ← msg_as cx as_unregbuilder; unreg_builder unreg.
Definition xmax_system_regproxy : M world unit := reg ← msg_as cx as_regproxy; reg_proxy cx raw reg.
Definition xmax_system_unregproxy : M world unit := unreg ← msg_as cx as_unregproxy; unreg_proxy cx unreg.

(** ** Outside of messages *)

Definition create_native_account (name main_token creation_date : Z) : M database unit :=
  db_create (fun _ => Account name acc_system creation_date None) ;;
  db_create (fun _ => XmxToken name main_token) ;;
  mret tt.

(** chain_xmax::transfer_gas, to the builder of the block. *)
Definition transfer_gas (payer builder gas_used : Z) : M database unit :=
  if gas_used =? 0 then mret tt
  else
    from ← db_get (fun b => xmx_owner b =? payer);
    to ← db_get (fun b => xmx_owner b =? builder);
    b ← deref from;
    require (gas_used <=? u64 (main_token b)) "account must have more balance than gas used" ;;
    db_modify from (add_main (- to_share gas_used)) ;;
    db_modify to (add_main (to_share gas_used)).
End SystemContract.
