(* ===== verification/Erc.v ===== *)
(** The handlers of the ERC20 and ERC721 contracts
    (blockchain/native_contract/xmax_contract.cpp), with the arithmetic of
    foundation/basetypes/include/safemath.hpp on share_type and the ids of
    ERC721 tokens (libraries/fc/src/crypto/sha256.cpp, hex.cpp,
    libraries/fc/include/fc/fixed_string.hpp).

    The id of a token is a sha256 read from the hexadecimal digits of a string
    of at most 32 characters, which fill half of it; the constructor leaves the
    other half as the memory has it.  [stack] is that memory, by the place in
    the code where the id is built. *)

From Stdlib Require Import ZArith Lia Bool Ascii String List.
From stdpp Require Import base decidable gmap list.
From S2P Require Import Prelude Asset Limbs ChainUtils Block Effects UndoIndex Objects Tables Context SystemContract.
Import ListNotations.
Local Open Scope Z_scope.

Local Abbreviation database := (list (generic_index row)).

(** ** SafeMath on int64_t *)

Definition safe_sub {S} (a b : Z) : M S Z :=
  require (b <=? a) SafeMath.overflow ;;
  Tables.int64 (a - b).

Definition safe_add {S} (a b : Z) : M S Z :=
  c ← Tables.int64 (a + b);
  require (a <=? c) SafeMath.overflow ;;
  mret c.

(** ** Messages (foundation/basetypes/include/gentypes.hpp) *)

Record minterc20 := MintErc20 { m20_token_name : Z; mint_amount : asset }.
Record transferfromerc20 := TransferErc20 { t20_token_name : Z; t20_from : Z; t20_to : Z; t20_value : asset }.
(** A fixed_string32 is its 32 bytes. *)
Record minterc721 := MintErc721 { m721_token_name : Z; m721_token_id : list ascii }.
Record transferfromerc721 := TransferErc721 { t721_token_name : Z; t721_token_id : list ascii; t721_from : Z; t721_to : Z }.

Class ErcCodec := {
  as_minterc20 : list Z -> option minterc20;
  as_stopminterc20 : list Z -> option Z;
  as_revokeerc20 : list Z -> option Z;
  as_transferfromerc20 : list Z -> option transferfromerc20;
  as_minterc721 : list Z -> option minterc721;
  as_stopminterc721 : list Z -> option Z;
  as_transferfromerc721 : list Z -> option transferfromerc721;
  as_revokeerc721 : list Z -> option Z }.

(** ** The ids of ERC721 tokens *)

(** fixed_string::operator std::string: size() is 32 when the last byte is set. *)
Definition fixed_string_str (data : list ascii) : list ascii :=
  if Ascii.eqb (nth 31 data nul) nul then c_str data else data.

(** fc::from_hex(char) *)
Definition hex_digit (c : ascii) : result Z :=
  let z := ord c in
  if (ord "0" <=? z) && (z <=? ord "9") then Ok (z - ord "0")
  else if (ord "a" <=? z) && (z <=? ord "f") then Ok (z - ord "a" + 10)
  else if (ord "A" <=? z) && (z <=? ord "F") then Ok (z - ord "A" + 10)
  else Throw "Invalid hex character".

Local Open Scope result_scope.

(** fc::from_hex: [out] is the memory from out_pos to out_end. *)
Fixpoint from_hex (s : list ascii) (out : list Z) {struct out} : result (list Z) :=
  match out with
  | [] => Ok []
  | _ :: out' =>
      match s with
      | [] => Ok out
      | [i] => let* h := hex_digit i in Ok (Z.shiftl h 4 :: out')
      | i :: j :: s =>
          let* h := hex_digit i in
          let* l := hex_digit j in
          let* out' := from_hex s out' in Ok (Z.lor (Z.shiftl h 4) l :: out')
      end
  end.

Local Close Scope result_scope.

(** The four words of a hash, from its bytes and back. *)
Definition sha_of_bytes (b : list Z) : sha256 :=
  Sha (leval 8 (take 8 b)) (leval 8 (take 8 (drop 8 b))) (leval 8 (take 8 (drop 16 b))) (leval 8 (take 8 (drop 24 b))).

(** xmax_erc721_id token_id{ s }; [memory]: its 32 bytes before. *)
Definition make_token_id {S} (memory : list Z) (s : list ascii) : M S sha256 :=
  b ← from_result (from_hex (fixed_string_str s) memory);
  mret (sha_of_bytes b).

(** The places where an id is built. *)
Inductive place := checked_mint | created_mint | transferred.

(** ** Checks *)

Definition validate_token_not_revoke (revoked : Z) : M world unit := require (revoked =? 0) "ERC token already revoked!".
Definition validate_token_canmint (stopmint : Z) : M world unit := require (stopmint =? 0) "ERC token already revoked!".
(** long_name::valid *)
Definition name_valid (n : Z) : bool := true.
Definition validate_name (n : Z) : M world unit := require (name_valid n) "Name is invalid".

(** ** Members of the objects *)

Definition set_balance (x : Z) (a : erc20_token_account_object) : erc20_token_account_object :=
  Erc20Account (e20a_token_name a) (e20a_owner a) x.
Definition set_supply (x : Z) (t : erc20_token_object) : erc20_token_object :=
  Erc20 (e20_token_name t) (e20_owner t) x (e20_decimal t) (e20_revoked t) (e20_stopmint t).
Definition stop_minting (t : erc20_token_object) : erc20_token_object :=
  Erc20 (e20_token_name t) (e20_owner t) (total_supply t) (e20_decimal t) (e20_revoked t) 1.
Definition revoke20 (t : erc20_token_object) : erc20_token_object :=
  Erc20 (e20_token_name t) (e20_owner t) (total_supply t) (e20_decimal t) 1 (e20_stopmint t).
Definition stop_minting721 (t : erc721_token_object) : erc721_token_object :=
  Erc721 (e721_token_name t) (e721_owner t) (e721_revoked t) 1.
Definition revoke721 (t : erc721_token_object) : erc721_token_object :=
  Erc721 (e721_token_name t) (e721_owner t) 1 (e721_stopmint t).

(** obj.balance = SafeMath::add(obj.balance, d), and its kin *)
Definition credit (d : Z) : M erc20_token_account_object unit :=
  a ← gets (fun a => a); x ← safe_add (balance a) d; update (set_balance x).
Definition debit (d : Z) : M erc20_token_account_object unit :=
  a ← gets (fun a => a);
  require (d <? balance a) "From have no enough tokens!" ;;
  x ← safe_sub (balance a) d; update (set_balance x).
Definition issue (d : Z) : M erc20_token_object unit :=
  t ← gets (fun t => t); x ← safe_add (total_supply t) d; update (set_supply x).

(** MakeErcTokenIndex *)
Definition held_by (token_name owner_name : Z) (a : erc20_token_account_object) : bool :=
  (e20a_token_name a =? token_name) && (e20a_owner a =? owner_name).
Definition with_id (token_name : Z) (id : sha256) (a : erc721_token_account_object) : bool :=
  (e721a_token_name a =? token_name) && bool_decide (token_id a = id).

Definition get_erc20 (token_name : Z) : M world Z := on_db (db_get (fun t => e20_token_name t =? token_name)).
Definition get_erc721 (token_name : Z) : M world Z := on_db (db_get (fun t => e721_token_name t =? token_name)).
Definition the_erc20 (id : Z) : M world erc20_token_object := on_db (deref id).
Definition the_erc721 (id : Z) : M world erc721_token_object := on_db (deref id).

Section Erc.
Context `{ErcCodec} (stack : place -> list Z) (cx : call).

(** ** ERC20 *)

Definition xmax_erc20_mint : M world unit :=
  minterc20 ← msg_as cx as_minterc20;
  existing_token_obj ← get_erc20 (m20_token_name minterc20);
  t ← the_erc20 existing_token_obj;
  validate_token_not_revoke (e20_revoked t) ;;
  validate_token_canmint (e20_stopmint t) ;;
  require_scope cx (e20_owner t) ;;
  require_authorization cx (e20_owner t) ;;
  require_recipient cx (e20_owner t) ;;
  token_account_owner_ptr ← on_db (db_find (held_by (m20_token_name minterc20) (e20_owner t)));
  require (is_found token_account_owner_ptr) "From have no tokens!" ;;
  token_account_owner ← on_db (db_get (held_by (m20_token_name minterc20) (e20_owner t)));
  on_db (db_modify token_account_owner (credit (Asset.amount (mint_amount minterc20)))) ;;
  on_db (db_modify existing_token_obj (issue (Asset.amount (mint_amount minterc20)))).

Definition xmax_erc20_stopmint : M world unit :=
  token_name ← msg_as cx as_stopminterc20;
  existing_token_obj ← get_erc20 token_name;
  t ← the_erc20 existing_token_obj;
  validate_token_not_revoke (e20_revoked t) ;;
  validate_token_canmint (e20_stopmint t) ;;
  require_scope cx (e20_owner t) ;;
  require_authorization cx (e20_owner t) ;;
  require_recipient cx (e20_owner t) ;;
  on_db (db_modify existing_token_obj (update stop_minting)).

Definition xmax_erc20_revoke : M world unit :=
  token_name ← msg_as cx as_revokeerc20;
  erc20_obj ← get_erc20 token_name;
  t ← the_erc20 erc20_obj;
  validate_token_not_revoke (e20_revoked t) ;;
  on_db (db_modify erc20_obj (update revoke20)).

Definition xmax_erc20_transferfrom : M world unit :=
  transfer_erc20 ← msg_as cx as_transferfromerc20;
  let from := t20_from transfer_erc20 in
  let to := t20_to transfer_erc20 in
  let value := Asset.amount (t20_value transfer_erc20) in
  require_authorization cx from ;;
  require_scope cx from ;;
  require_scope cx to ;;
  require_recipient cx from ;;
  require_recipient cx to ;;
  validate_name from ;;
  validate_name to ;;
  erc20_obj ← get_erc20 (t20_token_name transfer_erc20);
  t ← the_erc20 erc20_obj;
  validate_token_not_revoke (e20_revoked t) ;;
  let account_from := held_by (t20_token_name transfer_erc20) from in
  token_account_ptr_from ← on_db (db_find account_from);
  require (is_found token_account_ptr_from) "From have no tokens!" ;;
  let account_to := held_by (t20_token_name transfer_erc20) to in
  token_account_ptr_to ← on_db (db_find account_to);
  (if is_found token_account_ptr_to then mret tt
   else on_db (db_create (fun _ => Erc20Account (t20_token_name transfer_erc20) to 0)) ;; mret tt) ;;
  token_account_from ← on_db (db_get account_from);
  token_account_to ← on_db (db_get account_to);
  on_db (db_modify token_account_from (debit value)) ;;
  on_db (db_modify token_account_to (credit value)).

(** ** ERC721 *)

Definition xmax_erc721_mint : M world unit :=
  minterc721 ← msg_as cx as_minterc721;
  existing_token_obj ← get_erc721 (m721_token_name minterc721);
  t ← the_erc721 existing_token_obj;
  validate_token_not_revoke (e721_revoked t) ;;
  validate_token_canmint (e721_stopmint t) ;;
  require_scope cx (e721_owner t) ;;
  require_authorization cx (e721_owner t) ;;
  require_recipient cx (e721_owner t) ;;
  id ← make_token_id (stack checked_mint) (m721_token_id minterc721);
  token_obj_ptr ← on_db (db_find (with_id (m721_token_name minterc721) id));
  require (negb (is_found token_obj_ptr)) "The ERC721 token has already minted" ;;
  id ← make_token_id (stack created_mint) (m721_token_id minterc721);
  on_db (db_create (fun _ => Erc721Account (m721_token_name minterc721) id (e721_owner t) [])) ;;
  mret tt.

Definition xmax_erc721_stopmint : M world unit :=
  token_name ← msg_as cx as_stopminterc721;
  existing_token_obj ← get_erc721 token_name;
  t ← the_erc721 existing_token_obj;
  validate_token_not_revoke (e721_revoked t) ;;
  validate_token_canmint (e721_stopmint t) ;;
  require_authorization cx (e721_owner t) ;;
  require_scope cx (e721_owner t) ;;
  require_recipient cx (e721_owner t) ;;
  on_db (db_modify existing_token_obj (update stop_minting721)).

Definition xmax_erc721_transferfrom : M world unit :=
  transferform721 ← msg_as cx as_transferfromerc721;
  let from := t721_from transferform721 in
  let to := t721_to transferform721 in
  require_authorization cx from ;;
  require_scope cx from ;;
  require_scope cx to ;;
  require_recipient cx from ;;
  require_recipient cx to ;;
  existing_token_obj ← get_erc721 (t721_token_name transferform721);
  t ← the_erc721 existing_token_obj;
  validate_token_not_revoke (e721_revoked t) ;;
  id ← make_token_id (stack transferred) (t721_token_id transferform721);
  token_obj_ptr ← on_db (db_find (with_id (t721_token_name transferform721) id));
  require (is_found token_obj_ptr) "The ERC721 token has already minted" ;;
  erc721_token ← on_db (db_get (with_id (t721_token_name transferform721) id));
  a ← on_db (deref erc721_token);
  require (token_owner a =? from) "The ERC721 token does not belong to account" ;;
  require (e721a_token_name a =? t721_token_name transferform721) "token_name table broken! all erc721 in danger!" ;;
  require (bool_decide (token_id a = id)) "token_id table broken! all erc721 in danger!" ;;
  on_db (db_modify erc721_token (update (fun a => Erc721Account (e721a_token_name a) (token_id a) to (token_url a)))).

Definition xmax_erc721_revoke : M world unit :=
  token_name ← msg_as cx as_revokeerc721;
  erc721_obj ← get_erc721 token_name;
  t ← the_erc721 erc721_obj;
  validate_token_not_revoke (e721_revoked t) ;;
  on_db (db_modify erc721_obj (update revoke721)).
End Erc.
