(* ===== verification/SystemContractThm.v ===== *)
(** The handlers of the system contract keep the ledger: no token is created
    or lost, no balance becomes negative, what is locked is what is staked. *)

From Stdlib Require Import ZArith Lia Bool Ascii String List.
From stdpp Require Import base decidable gmap fin_maps list.
From S2P Require Import Prelude Asset ChainUtils Block LongName Effects UndoIndex UndoIndexThm Objects Tables Context Sums.
From S2P Require Import Authority Voting VotingThm SystemContract.
Import ListNotations.
Local Open Scope Z_scope.

Local Abbreviation database := (list (generic_index row)).
Local Abbreviation tokens := (gmap Z xmx_token_object).
Local Abbreviation resources := (gmap Z resource_token_object).

(** ** The two tables of tokens in a run *)

Record purse (db0 : database) (X : tokens) (R : resources) (w : world) : Prop := {
  pu_valid : valid (w_db w);
  pu_tokens : table xmx_token_object (w_db w) = X;
  pu_resources : table resource_token_object (w_db w) = R;
  pu_frame : forall i, i <> 1%nat -> i <> 2%nat -> slot_rows i (w_db w) = slot_rows i db0 }.

Lemma purse_start w : valid (w_db w) ->
  purse (w_db w) (table xmx_token_object (w_db w)) (table resource_token_object (w_db w)) w.
Proof. intros V. split; auto. Qed.

Lemma purse_same db0 X R w w' : w_db w' = w_db w -> purse db0 X R w -> purse db0 X R w'.
Proof. intros E [? ? ? ?]. split; rewrite E; assumption. Qed.

Section Steps.
Context (db0 : database) {A : Type}.
Implicit Types (Q : world -> A -> Prop) (E : world -> string -> Prop).

Lemma get_tokens_step X R w n (k : Z -> M world A) Q E : purse db0 X R w ->
  (forall id b, X !! id = Some b -> xmx_owner b = n -> ends (k id) w Q E) -> (forall e, E w e) ->
  ends (get_tokens n ≫= k) w Q E.
Proof. intros P HS HE. apply wp_get; [| auto]. intros id b. rewrite (pu_tokens _ _ _ _ P). intros L O. apply (HS id b L). lia. Qed.

Lemma tokens_at_step X R w id b (k : xmx_token_object -> M world A) Q E : purse db0 X R w -> X !! id = Some b ->
  ends (k b) w Q E -> ends (tokens_at id ≫= k) w Q E.
Proof. intros P L. apply wp_deref. rewrite (pu_tokens _ _ _ _ P). exact L. Qed.

Lemma get_resource_step X R w n (k : Z -> M world A) Q E : purse db0 X R w ->
  (forall id r, R !! id = Some r -> ends (k id) w Q E) -> (forall e, E w e) ->
  ends (get_resource n ≫= k) w Q E.
Proof. intros P HS HE. apply wp_get; [| auto]. intros id b. rewrite (pu_resources _ _ _ _ P). intros L _. apply (HS id b L). Qed.

Lemma resource_at_step X R w id r (k : resource_token_object -> M world A) Q E : purse db0 X R w -> R !! id = Some r ->
  ends (k r) w Q E -> ends (on_db (deref id) ≫= k) w Q E.
Proof. intros P L. apply wp_deref. rewrite (pu_resources _ _ _ _ P). exact L. Qed.

Lemma main_step X R w id b d (k : unit -> M world A) Q E : purse db0 X R w -> X !! id = Some b ->
  - 2 ^ 63 <= main_token b + d < 2 ^ 63 ->
  (forall w', w_ctx w' = w_ctx w -> purse db0 (<[id := XmxToken (xmx_owner b) (main_token b + d)]> X) R w' -> ends (k tt) w' Q E) ->
  ends (on_db (db_modify id (add_main d)) ≫= k) w Q E.
Proof.
  intros P L B HS. destruct P as [V PX PR F]. subst X. eapply wp_modify; [exact V | exact L |].
  unfold add_main, gets, update, mbind, M_bind. cbn. rewrite int64_in by exact B. cbn. split; [intros []; reflexivity |].
  intros w' Ec C. apply HS; [exact Ec |]. split.
  - apply C.
  - apply C.
  - rewrite <- PR. apply (changed_other _ _ _ _ C). cbn. lia.
  - intros i N1 N2. rewrite (changed_others _ _ _ _ C) by (cbn; lia). apply F; assumption.
Qed.

Lemma resource_step X R w id r r' f (k : unit -> M world A) Q E : purse db0 X R w -> R !! id = Some r ->
  f r = Ret r' tt -> res_owner r' = res_owner r ->
  (forall w', w_ctx w' = w_ctx w -> purse db0 X (<[id := r']> R) w' -> ends (k tt) w' Q E) ->
  ends (on_db (db_modify id f) ≫= k) w Q E.
Proof.
  intros P L Er O HS. destruct P as [V PX PR F]. subst R. eapply wp_modify; [exact V | exact L |].
  rewrite Er. cbn. split; [intros [] ; cbn; rewrite ?O; reflexivity |].
  intros w' Ec C. apply HS; [exact Ec |]. split.
  - apply C.
  - rewrite <- PX. apply (changed_other _ _ _ _ C). cbn. lia.
  - apply C.
  - intros i N1 N2. rewrite (changed_others _ _ _ _ C) by (cbn; lia). apply F; assumption.
Qed.

Lemma new_tokens_step X R w b (k : Z -> M world A) Q E : purse db0 X R w ->
  (forall id w', X !! id = None -> purse db0 (<[id := b]> X) R w' -> ends (k id) w' Q E) -> (forall e, E w e) ->
  ends (on_db (db_create (fun _ => b)) ≫= k) w Q E.
Proof.
  intros [V PX PR F] HS HE. subst X. eapply wp_create; [exact V | | exact HE].
  intros id w' N _ _ C. apply (HS id w' N). split.
  - apply C.
  - apply C.
  - rewrite <- PR. apply (changed_other _ _ _ _ C). cbn. lia.
  - intros i N1 N2. rewrite (changed_others _ _ _ _ C) by (cbn; lia). apply F; assumption.
Qed.
End Steps.

(** ** The ledger *)

Record ledger (total : Z) (db : database) : Prop := {
  ld_valid : valid db;
  ld_books : books (table voter_info_object db) (table builder_info_object db);
  ld_main : forall id b, table xmx_token_object db !! id = Some b -> 0 <= main_token b;
  ld_resource : forall id r, table resource_token_object db !! id = Some r -> 0 <= locked_token r /\ 0 <= unlocked_token r;
  ld_staked : msum staked (table voter_info_object db) = msum locked_token (table resource_token_object db);
  ld_total : msum main_token (table xmx_token_object db) + msum locked_token (table resource_token_object db)
               + msum unlocked_token (table resource_token_object db) = total;
  ld_bound : total < 2 ^ 63 }.

(** A state between the steps of a handler, with the same votes. *)
Lemma purse_ledger db0 total X R w : ledger total db0 -> purse db0 X R w ->
  (forall id b, X !! id = Some b -> 0 <= main_token b) ->
  (forall id r, R !! id = Some r -> 0 <= locked_token r /\ 0 <= unlocked_token r) ->
  msum staked (table voter_info_object db0) = msum locked_token R ->
  msum main_token X + msum locked_token R + msum unlocked_token R = total -> ledger total (w_db w).
Proof.
  intros L [V <- <- F] HX HR Es Et.
  assert (EV : table voter_info_object (w_db w) = table voter_info_object db0) by (unfold table; rewrite F by (cbn; lia); reflexivity).
  assert (EB : table builder_info_object (w_db w) = table builder_info_object db0) by (unfold table; rewrite F by (cbn; lia); reflexivity).
  split; [exact V | rewrite EV, EB; apply L | exact HX | exact HR | rewrite EV; exact Es | exact Et | apply L].
Qed.

Lemma main_bound total db id b : ledger total db -> table xmx_token_object db !! id = Some b -> 0 <= main_token b <= total.
Proof.
  intros L E. split; [apply (ld_main _ _ L id b E) |]. rewrite <- (ld_total _ _ L).
  pose proof (msum_lookup _ _ _ _ (ld_main _ _ L) E).
  pose proof (msum_nonneg locked_token _ (fun i r H => proj1 (ld_resource _ _ L i r H))).
  pose proof (msum_nonneg unlocked_token _ (fun i r H => proj2 (ld_resource _ _ L i r H))). lia.
Qed.

Lemma resource_bound total db id r : ledger total db -> table resource_token_object db !! id = Some r ->
  0 <= locked_token r /\ 0 <= unlocked_token r /\ locked_token r + unlocked_token r <= total.
Proof.
  intros L E. destruct (ld_resource _ _ L id r E) as [H1 H2]. split; [exact H1 |]. split; [exact H2 |]. rewrite <- (ld_total _ _ L).
  pose proof (msum_nonneg main_token _ (ld_main _ _ L)).
  pose proof (msum_lookup locked_token _ _ _ (fun i r H => proj1 (ld_resource _ _ L i r H)) E).
  pose proof (msum_lookup unlocked_token _ _ _ (fun i r H => proj2 (ld_resource _ _ L i r H)) E). lia.
Qed.

Lemma staked_bound_ledger total db : ledger total db -> 0 <= msum staked (table voter_info_object db) <= total.
Proof.
  intros L. rewrite (ld_staked _ _ L), <- (ld_total _ _ L).
  pose proof (msum_nonneg main_token _ (ld_main _ _ L)).
  pose proof (msum_nonneg locked_token _ (fun i r H => proj1 (ld_resource _ _ L i r H))).
  pose proof (msum_nonneg unlocked_token _ (fun i r H => proj2 (ld_resource _ _ L i r H))). lia.
Qed.

(** A handler keeps the ledger. *)
Definition keeps_ledger (m : M world unit) : Prop := forall total w,
  ledger total (w_db w) -> ends m w (fun w' _ => ledger total (w_db w')) any_exc.

(** Steps that leave the database alone. *)
Lemma quiet_step {A B} (m : M world A) (k : A -> M world B) w Q (C : world -> A -> Prop) :
  ends m w (fun w' a => w_db w' = w_db w /\ C w' a) any_exc ->
  (forall w' a, w_db w' = w_db w -> C w' a -> ends (k a) w' Q any_exc) -> ends (m ≫= k) w Q any_exc.
Proof.
  intros Hm HS. apply ends_bind. eapply ends_weaken; [exact Hm | | auto]. intros w' a [E HC]. apply HS; assumption.
Qed.

Lemma msg_as_step {T B} cx (d : list Z -> option T) (k : T -> M world B) w Q :
  (forall t, d (msg_data (call_msg cx)) = Some t -> ends (k t) w Q any_exc) -> ends (msg_as cx d ≫= k) w Q any_exc.
Proof.
  intros HS. unfold msg_as, unpack. destruct (d _) as [t |]; [| exact I]. unfold ends, mbind, M_bind, mret, M_ret. apply HS. reflexivity.
Qed.

Lemma authorization_step {B} cx n (k : unit -> M world B) w Q :
  (forall w', w_db w' = w_db w -> authorized cx n -> ends (k tt) w' Q any_exc) -> ends (require_authorization cx n ≫= k) w Q any_exc.
Proof.
  intros HS. eapply (quiet_step _ _ _ _ (fun _ _ => authorized cx n)); [| intros w' []; apply HS].
  eapply ends_weaken; [apply require_authorization_ends | intros w' u H; exact H | intros w' e _; exact I].
Qed.

Lemma scope_step {B} cx n (k : unit -> M world B) w Q :
  (forall w', w_db w' = w_db w -> ends (k tt) w' Q any_exc) -> ends (require_scope cx n ≫= k) w Q any_exc.
Proof.
  intros HS. eapply (quiet_step _ _ _ _ (fun _ _ => True)); [| intros w' [] E _; apply HS, E].
  eapply ends_weaken; [apply require_scope_ends | intros w' u [-> _]; auto | intros w' e _; exact I].
Qed.

Lemma recipient_step {B} cx n (k : unit -> M world B) w Q :
  (forall w', w_db w' = w_db w -> ends (k tt) w' Q any_exc) -> ends (require_recipient cx n ≫= k) w Q any_exc.
Proof.
  intros HS. eapply (quiet_step _ _ _ _ (fun _ _ => True)); [| intros w' [] E _; apply HS, E].
  eapply ends_weaken; [apply (require_recipient_ends cx n w any_exc) | auto | auto].
Qed.

Lemma account_step {B} n (k : option Z -> M world B) w Q :
  (forall o, ends (k o) w Q any_exc) -> ends (find_account n ≫= k) w Q any_exc.
Proof. intros HS. apply wp_find, HS. Qed.

Lemma require_step {B} b e (k : unit -> M world B) w Q : (b = true -> ends (k tt) w Q any_exc) -> ends (require b e ≫= k) w Q any_exc.
Proof. intros HS. apply wp_require; [exact HS | intros _; exact I]. Qed.

(** A row created in a table that the ledger does not read. *)
Lemma other_create {R} `{Object R} {B} (c : Z -> R) (k : Z -> M world B) w Q total :
  ledger total (w_db w) -> existsb (Nat.eqb (@slot R _)) [1; 2; 9; 10]%nat = false ->
  (forall id w', ledger total (w_db w') ->
     (forall R' `{!Object R'}, @slot R' _ <> @slot R _ -> table R' (w_db w') = table R' (w_db w)) -> ends (k id) w' Q any_exc) ->
  ends (on_db (db_create c) ≫= k) w Q any_exc.
Proof.
  intros L N HS. apply wp_create; [apply L | | intros; exact I]. intros id w' _ _ _ C.
  assert (F : forall R' `{!Object R'}, @slot R' _ <> @slot R _ -> table R' (w_db w') = table R' (w_db w))
    by (intros R' O' D; apply (changed_other _ _ _ _ C); exact D).
  apply (HS id w'); [| exact F]. 
  assert (@slot R _ <> 1 /\ @slot R _ <> 2 /\ @slot R _ <> 9 /\ @slot R _ <> 10)%nat as (N1 & N2 & N9 & N10)
    by (split_and!; intros E; rewrite E in N; discriminate).
  destruct L. split; rewrite ?(F xmx_token_object), ?(F resource_token_object), ?(F voter_info_object), ?(F builder_info_object)
    by (cbn; congruence); try assumption. apply C.
Qed.

(** ** The handlers *)

Lemma decimal_names (t : list ascii) e : LongName.to_name_code t = Throw e -> e = "std::out_of_range"%string.
Proof.
  unfold LongName.to_name_code. generalize (Z.to_nat (LongName.max_char_count + 1)) (c_str t) 0 LongName.invalid_code.
  intros n s. generalize (Z.of_nat (List.length s)). intros len.
  induction n as [| n IH]; intros i value; [discriminate |]. cbn [LongName.to_name_code_loop].
  destruct (_ && _).
  - destruct (LongName.code_cases (nth (Z.to_nat i) s nul)) as [(_ & -> & _) | (_ & -> & _)]; cbn; [apply IH | congruence].
  - cbn. apply IH.
Qed.

Lemma contract_name_step {B} token_name (k : Z -> M world B) w Q :
  (forall n, ends (k n) w Q any_exc) -> ends (contract_name token_name ≫= k) w Q any_exc.
Proof.
  intros HS. unfold contract_name. destruct (LongName.to_name_code _) as [n | e] eqn:E; [apply HS |].
  apply decimal_names in E as ->. exact I.
Qed.

Section Handlers.
Context `{SystemCodec} (to_share : Z -> Z) (raw : Z -> uninitialized) (raw_threshold : Z) (cx : call).
Hypothesis narrowing : forall z, 0 <= z < 2 ^ 63 -> to_share z = z.
Hypothesis Z0 : zeroed raw.

Lemma main_nonneg (X : tokens) id b x : (forall i b, X !! i = Some b -> 0 <= main_token b) -> 0 <= x ->
  forall i b', <[id := XmxToken (xmx_owner b) x]> X !! i = Some b' -> 0 <= main_token b'.
Proof. intros HX Hx i b'. rewrite lookup_insert_Some. intros [[<- <-] | [_ L]]; [exact Hx | eauto]. Qed.

(** [a] tokens go from one holder to another, or to the same. *)
Lemma move_keeps total w i j bi bj a : ledger total (w_db w) -> 0 <= a <= main_token bi ->
  table xmx_token_object (w_db w) !! i = Some bi -> table xmx_token_object (w_db w) !! j = Some bj ->
  ends (on_db (db_modify i (add_main (- a))) ;; on_db (db_modify j (add_main a))) w (fun w' _ => ledger total (w_db w')) any_exc.
Proof.
  intros L Ha Hi Hj. pose proof (main_bound _ _ _ _ L Hi) as Bi. pose proof (ld_bound _ _ L) as Bt.
  pose proof (main_nonneg _ i bi (main_token bi + - a) (ld_main _ _ L) ltac:(lia)) as N1.
  eapply main_step; [apply purse_start, L | exact Hi | lia |]. intros w1 _ P1.
  set (X1 := <[i := _]> _) in *.
  assert (S1 : msum main_token X1 = msum main_token (table xmx_token_object (w_db w)) - a).
  { unfold X1. rewrite (msum_update _ _ _ _ _ Hi). cbn. lia. }
  assert (Hj1 : exists b, X1 !! j = Some b).
  { unfold X1. destruct (decide (i = j)) as [<- | N]; [rewrite lookup_insert_eq; eauto | rewrite lookup_insert_ne by exact N; eauto]. }
  destruct Hj1 as [b Hb]. pose proof (msum_lookup main_token X1 j b N1 Hb) as Bb. pose proof (N1 j b Hb) as Nb.
  assert (T : msum main_token (table xmx_token_object (w_db w)) <= total).
  { rewrite <- (ld_total _ _ L).
    pose proof (msum_nonneg locked_token _ (fun i r E => proj1 (ld_resource _ _ L i r E))).
    pose proof (msum_nonneg unlocked_token _ (fun i r E => proj2 (ld_resource _ _ L i r E))). lia. }
  apply ends_bind_ret. eapply main_step; [exact P1 | exact Hb | lia |]. intros w2 _ P2.
  eapply (purse_ledger (w_db w)); [exact L | exact P2 | | apply L | apply L |].
  - apply main_nonneg; [exact N1 | lia].
  - rewrite (msum_update _ _ _ _ _ Hb). cbn. rewrite S1, <- (ld_total _ _ L). lia.
Qed.

Lemma u64_share z : 0 <= z < 2 ^ 63 -> u64 z = z.
Proof. intros. apply Z.mod_small. lia. Qed.

Lemma transfer_keeps : keeps_ledger (xmax_system_transfer to_share cx).
Proof.
  intros total w L. apply msg_as_step. intros t _. apply require_step. intros A0.
  apply scope_step. intros w1 E1. apply scope_step. intros w2 E2. apply recipient_step. intros w3 E3. apply recipient_step. intros w4 E4.
  assert (Ew : w_db w4 = w_db w) by congruence. clear E1 E2 E3 E4 w1 w2 w3. rewrite <- Ew in L.
  eapply get_tokens_step; [apply purse_start, L | | intros; exact I]. intros i b Hb _.
  eapply tokens_at_step; [apply purse_start, L | exact Hb |]. apply require_step. intros Le.
  eapply get_tokens_step; [apply purse_start, L | | intros; exact I]. intros j b' Hb' _.
  pose proof (main_bound _ _ _ _ L Hb) as Bb. pose proof (ld_bound _ _ L). rewrite u64_share in Le by lia.
  rewrite narrowing by lia. eapply move_keeps; [exact L | | exact Hb | exact Hb']. lia.
Qed.

Lemma on_db_bind {A B} (m : M database A) (k : A -> M database B) w Q :
  ends (on_db m ≫= fun a => on_db (k a)) w Q any_exc -> ends (on_db (m ≫= k)) w Q any_exc.
Proof. unfold ends, on_db, mbind, M_bind. destruct w as [db c]. cbn. destruct (m db); exact (fun E => E). Qed.

Lemma transfer_gas_keeps payer builder gas : 0 <= gas -> keeps_ledger (on_db (transfer_gas to_share payer builder gas)).
Proof.
  intros G total w L. unfold transfer_gas. destruct (gas =? 0) eqn:G0; [exact L |].
  apply on_db_bind. eapply (get_tokens_step (w_db w) _ _ w payer); [apply purse_start, L | | intros; exact I]. intros i b Hb _.
  apply on_db_bind. eapply (get_tokens_step (w_db w) _ _ w builder); [apply purse_start, L | | intros; exact I]. intros j b' Hb' _.
  apply on_db_bind. eapply (tokens_at_step (w_db w)); [apply purse_start, L | exact Hb |].
  apply on_db_bind. destruct (gas <=? u64 (main_token b)) eqn:Le; [| exact I].
  pose proof (main_bound _ _ _ _ L Hb) as Bb. pose proof (ld_bound _ _ L). rewrite u64_share in Le by lia. rewrite narrowing by lia.
  replace (ends _ _ _ _) with (ends (on_db (db_modify i (add_main (- gas)) ;; db_modify j (add_main gas))) w (fun w' _ => ledger total (w_db w')) any_exc)
    by (destruct w; reflexivity).
  apply on_db_bind. eapply move_keeps; [exact L | | exact Hb | exact Hb']. lia.
Qed.

Lemma addaccount_keeps : keeps_ledger (xmax_system_addaccount raw_threshold cx).
Proof.
  intros total w L. apply msg_as_step. intros c _. apply authorization_step. intros w1 E1 _. rewrite <- E1 in L.
  apply account_step. intros o. apply require_step. intros _. apply require_step. intros A0.
  eapply other_create; [exact L | reflexivity |]. intros _ w2 L2 _.
  eapply get_tokens_step; [apply purse_start, L2 | | intros; exact I]. intros i b Hb _.
  eapply tokens_at_step; [apply purse_start, L2 | exact Hb |]. apply require_step. intros Le.
  pose proof (main_bound _ _ _ _ L2 Hb) as Bb. pose proof (ld_bound _ _ L2).
  eapply main_step; [apply purse_start, L2 | exact Hb | lia |]. intros w3 _ P3.
  eapply new_tokens_step; [exact P3 | | intros; exact I]. intros j w4 N P4.
  assert (L4 : ledger total (w_db w4)).
  { eapply (purse_ledger (w_db w2)); [exact L2 | exact P4 | | apply L2 | apply L2 |].
    - intros k x. rewrite lookup_insert_Some. intros [[_ <-] | [_ E]]; [cbn; lia |].
      revert E. apply main_nonneg; [apply L2 | lia].
    - rewrite msum_new by exact N. rewrite (msum_update _ _ _ _ _ Hb). cbn. rewrite <- (ld_total _ _ L2). lia. }
  eapply other_create; [exact L4 | reflexivity |]. intros owner_p w5 L5 _.
  eapply other_create; [exact L5 | reflexivity |]. intros _ w6 L6 _. exact L6.
Qed.

Lemma find_step {R} `{Object R} {B} (p : R -> bool) (k : option Z -> M world B) w Q :
  (forall o, ends (k o) w Q any_exc) -> ends (on_db (db_find p) ≫= k) w Q any_exc.
Proof. intros HS. apply wp_find, HS. Qed.

Lemma adderc20_keeps : keeps_ledger (xmax_system_adderc20 cx).
Proof.
  intros total w L. apply msg_as_step. intros c _. apply contract_name_step. intros n.
  apply scope_step. intros w1 E1. apply authorization_step. intros w2 E2 _. rewrite <- E1, <- E2 in L.
  eapply other_create; [exact L | reflexivity |]. intros _ w3 L3 _. apply find_step. intros o. apply require_step. intros _.
  eapply other_create; [exact L3 | reflexivity |]. intros _ w4 L4 _. apply find_step. intros o'. apply require_step. intros _.
  eapply other_create; [exact L4 | reflexivity |]. intros _ w5 L5 _. exact L5.
Qed.

Lemma adderc721_keeps : keeps_ledger (xmax_system_adderc721 cx).
Proof.
  intros total w L. apply msg_as_step. intros c _.
  apply scope_step. intros w1 E1. apply authorization_step. intros w2 E2 _. apply contract_name_step. intros n.
  apply authorization_step. intros w3 E3 _. rewrite <- E1, <- E2, <- E3 in L.
  eapply other_create; [exact L | reflexivity |]. intros _ w4 L4 _. apply find_step. intros o. apply require_step. intros _.
  eapply other_create; [exact L4 | reflexivity |]. intros _ w5 L5 _. exact L5.
Qed.

(** ** Votes and stakes *)

(** The votes have changed, the tokens not; what is staked is what is locked again. *)
Lemma booked_ledger db0 total s w : booked db0 s w ->
  (forall id b, table xmx_token_object db0 !! id = Some b -> 0 <= main_token b) ->
  (forall id r, table resource_token_object db0 !! id = Some r -> 0 <= locked_token r /\ 0 <= unlocked_token r) ->
  s = msum locked_token (table resource_token_object db0) ->
  msum main_token (table xmx_token_object db0) + msum locked_token (table resource_token_object db0)
    + msum unlocked_token (table resource_token_object db0) = total -> total < 2 ^ 63 -> ledger total (w_db w).
Proof.
  intros (V & B & [Vd <- <- F] & K & Es) HX HR -> Et Bt.
  assert (EX : table xmx_token_object (w_db w) = table xmx_token_object db0) by (unfold table; rewrite F by (cbn; lia); reflexivity).
  assert (ER : table resource_token_object (w_db w) = table resource_token_object db0) by (unfold table; rewrite F by (cbn; lia); reflexivity).
  split; rewrite ?EX, ?ER; assumption.
Qed.

Lemma votes_keep m total w : ledger total (w_db w) ->
  ends m w (fun w' _ => booked (w_db w) (msum staked (table voter_info_object (w_db w))) w') any_exc ->
  ends m w (fun w' (_ : unit) => ledger total (w_db w')) any_exc.
Proof.
  intros L E. eapply ends_weaken; [exact E | | auto]. intros w' u Bk. cbn in Bk.
  eapply booked_ledger; [exact Bk | apply L ..].
Qed.

Ltac votes_keep books := intros total w L; apply msg_as_step; intros vp _; apply votes_keep; [exact L |];
  eapply books; first [exact raw | exact Z0 | exact (ld_books _ _ L) | apply st_start, L].

Lemma votebuilder_keeps : keeps_ledger (xmax_system_votebuilder cx).
Proof. votes_keep vote_builder_books. Qed.
Lemma regbuilder_keeps : keeps_ledger (xmax_system_regbuilder cx).
Proof. votes_keep reg_builder_books. Qed.
Lemma unregbuilder_keeps : keeps_ledger (xmax_system_unregbuilder cx).
Proof. votes_keep unreg_builder_books. Qed.
Lemma regproxy_keeps : keeps_ledger (xmax_system_regproxy raw cx).
Proof. votes_keep reg_proxy_books. Qed.
Lemma unregproxy_keeps : keeps_ledger (xmax_system_unregproxy cx).
Proof. votes_keep unreg_proxy_books. Qed.

(** Tokens have moved, and the votes follow: what is locked changed by [d], and so does what is staked. *)
Lemma stake_step total db0 X R w d m : ledger total db0 -> purse db0 X R w ->
  (forall id b, X !! id = Some b -> 0 <= main_token b) ->
  (forall id r, R !! id = Some r -> 0 <= locked_token r /\ 0 <= unlocked_token r) ->
  msum locked_token R = msum locked_token (table resource_token_object db0) + d ->
  msum main_token X + msum locked_token R + msum unlocked_token R = total ->
  (forall V B, books V B -> st (w_db w) V B w -> msum staked V + d < 2 ^ 63 ->
     ends m w (fun w' _ => booked (w_db w) (msum staked V + d) w') any_exc) ->
  ends m w (fun w' (_ : unit) => ledger total (w_db w')) any_exc.
Proof.
  intros L [V <- <- F] HX HR Ed Et Hm. pose proof (ld_bound _ _ L) as Bt. pose proof (ld_staked _ _ L) as Es.
  assert (EV : table voter_info_object (w_db w) = table voter_info_object db0) by (unfold table; rewrite F by (cbn; lia); reflexivity).
  assert (EB : table builder_info_object (w_db w) = table builder_info_object db0) by (unfold table; rewrite F by (cbn; lia); reflexivity).
  pose proof (msum_nonneg main_token _ HX). pose proof (msum_nonneg unlocked_token _ (fun i r E => proj2 (HR i r E))).
  eapply ends_weaken; [apply (Hm _ _ (eq_ind_r (fun V => books V _) (eq_ind_r (books _) (ld_books _ _ L) EB) EV)); [apply st_start, V |] | | auto].
  - rewrite EV, Es. lia.
  - intros w' u Bk. cbn in Bk. eapply booked_ledger; [exact Bk | exact HX | exact HR | rewrite EV, Es; lia | exact Et | exact Bt].
Qed.

Lemma lock_keeps : keeps_ledger (xmax_system_lock raw cx).
Proof.
  intros total w L. apply msg_as_step. intros lk _. apply require_step. intros A0.
  apply scope_step. intros w1 E1. apply scope_step. intros w2 E2. apply scope_step. intros w3 E3.
  apply authorization_step. intros w4 E4 _. apply recipient_step. intros w5 E5. apply recipient_step. intros w6 E6.
  assert (Ew : w_db w6 = w_db w) by congruence. clear E1 E2 E3 E4 E5 E6 w1 w2 w3 w4 w5. rewrite <- Ew in L.
  eapply get_tokens_step; [apply purse_start, L | | intros; exact I]. intros i b Hb _.
  eapply tokens_at_step; [apply purse_start, L | exact Hb |]. apply require_step. intros Le.
  eapply get_resource_step; [apply purse_start, L | | intros; exact I]. intros j r Hr.
  pose proof (main_bound _ _ _ _ L Hb) as Bb. pose proof (ld_bound _ _ L) as Bt. pose proof (resource_bound _ _ _ _ L Hr) as Br.
  pose proof (msum_lookup main_token _ _ _ (ld_main _ _ L) Hb) as Sb. pose proof (ld_total _ _ L) as Et.
  pose proof (msum_lookup locked_token _ _ _ (fun i r H => proj1 (ld_resource _ _ L i r H)) Hr) as Sr.
  pose proof (msum_nonneg unlocked_token _ (fun i r H => proj2 (ld_resource _ _ L i r H))) as Su.
  eapply main_step; [apply purse_start, L | exact Hb | lia |]. intros w1 _ P1.
  eapply (resource_step _ _ _ _ j r (ResourceToken (res_owner r) (locked_token r + lk_amount lk) (unlocked_token r) (last_unlocked_time r)));
    [exact P1 | exact Hr | | reflexivity |].
  { unfold add_locked, gets, update, mbind, M_bind. cbn. rewrite int64_in by lia. reflexivity. }
  intros w2 _ P2. eapply (stake_step _ _ _ _ _ (lk_amount lk)); [exact L | exact P2 | | | | |].
  - apply main_nonneg; [apply L | lia].
  - intros k x. rewrite lookup_insert_Some. intros [[_ <-] | [_ E]]; [cbn; lia | apply (ld_resource _ _ L k x E)].
  - rewrite (msum_update _ _ _ _ _ Hr). cbn. lia.
  - rewrite (msum_update main_token _ _ _ _ Hb), (msum_update locked_token _ _ _ _ Hr), (msum_update unlocked_token _ _ _ _ Hr). cbn. lia.
  - intros V B K S Bd. apply (increase_votes_books cx raw (w_db w2) V B); (assumption || lia).
Qed.

Lemma unlock_keeps : keeps_ledger (xmax_system_unlock cx).
Proof.
  intros total w L. apply msg_as_step. intros un _. apply authorization_step. intros w1 E1 _. rewrite <- E1 in L.
  apply require_step. intros A0. eapply get_resource_step; [apply purse_start, L | | intros; exact I]. intros j r Hr.
  eapply resource_at_step; [apply purse_start, L | exact Hr |]. apply require_step. intros Le.
  pose proof (ld_bound _ _ L) as Bt. pose proof (resource_bound _ _ _ _ L Hr) as Br. pose proof (ld_total _ _ L) as Et.
  eapply (resource_step _ _ _ _ j r (ResourceToken (res_owner r) (locked_token r - un_amount un) (unlocked_token r + un_amount un) (current_time cx)));
    [apply purse_start, L | exact Hr | | reflexivity |].
  { unfold release, add_locked, gets, update, mbind, M_bind. cbn. rewrite int64_in by lia. cbn. rewrite int64_in by lia. reflexivity. }
  intros w2 _ P2. eapply (stake_step _ _ _ _ _ (- un_amount un)); [exact L | exact P2 | apply L | | | |].
  - intros k x. rewrite lookup_insert_Some. intros [[_ <-] | [_ E]]; [cbn; lia | apply (ld_resource _ _ L k x E)].
  - rewrite (msum_update _ _ _ _ _ Hr). cbn. lia.
  - rewrite (msum_update locked_token _ _ _ _ Hr), (msum_update unlocked_token _ _ _ _ Hr). cbn. lia.
  - intros V B K S _. replace (msum staked V + - un_amount un) with (msum staked V - Z.max 0 (un_amount un)) by lia.
    apply (decrease_votes_books cx (w_db w2) V B); assumption.
Qed.
End Handlers.

(** ** Histories of messages and payments of gas *)

Section History.
Context `{SystemCodec} (to_share : Z -> Z) (raw : Z -> uninitialized) (raw_threshold : Z).

(** The registered handlers, without those that load code. *)
Definition system_handlers (cx : call) : list (string * M world unit) := [
  ("addaccount"%string, xmax_system_addaccount raw_threshold cx); ("adderc20"%string, xmax_system_adderc20 cx);
  ("adderc721"%string, xmax_system_adderc721 cx); ("transfer"%string, xmax_system_transfer to_share cx);
  ("lock"%string, xmax_system_lock raw cx); ("unlock"%string, xmax_system_unlock cx);
  ("votebuilder"%string, xmax_system_votebuilder cx); ("regbuilder"%string, xmax_system_regbuilder cx);
  ("unregbuilder"%string, xmax_system_unregbuilder cx); ("regproxy"%string, xmax_system_regproxy raw cx);
  ("unregproxy"%string, xmax_system_unregproxy cx)].

Fixpoint handler_of (func : string) (l : list (string * M world unit)) : M world unit :=
  match l with
  | [] => throw "There is not function"
  | (name, h) :: l => if String.eqb name func then h else handler_of func l
  end.

Inductive ledger_op :=
| OpMessage (cx : call) (func : string)
| OpGas (payer builder gas_used : Z).

Definition run_ledger_op (op : ledger_op) : M world unit :=
  match op with
  | OpMessage cx func => handler_of func (system_handlers cx)
  | OpGas payer builder gas_used => on_db (transfer_gas to_share payer builder gas_used)
  end.

(** One operation after the other; one that throws is rolled back.  [None] is
    undefined behaviour. *)
Fixpoint ledger_history (ops : list ledger_op) (db : database) : option database :=
  match ops with
  | [] => Some db
  | op :: ops =>
      match run_ledger_op op (World db (Context 0 [] [] [] 0 [])) with
      | Ret w _ => ledger_history ops (w_db w)
      | Exc _ _ => ledger_history ops db
      | Undef => None
      end
  end.

Definition gas_nonneg (op : ledger_op) : Prop := match op with OpGas _ _ g => 0 <= g | _ => True end.

Hypothesis narrowing : forall z, 0 <= z < 2 ^ 63 -> to_share z = z.
Hypothesis Z0 : zeroed raw.

Lemma handler_of_keeps func l : Forall (fun h => keeps_ledger h.2) l -> keeps_ledger (handler_of func l).
Proof.
  induction 1 as [| [n h] l K _ IH]; intros total w L; [exact I |]. cbn [handler_of].
  destruct (String.eqb n func); [apply K, L | apply IH, L].
Qed.

Lemma system_handlers_keep cx : Forall (fun h => keeps_ledger h.2) (system_handlers cx).
Proof.
  repeat apply Forall_cons_2; cbn [snd];
    eauto using addaccount_keeps, adderc20_keeps, adderc721_keeps, transfer_keeps, lock_keeps, unlock_keeps,
      votebuilder_keeps, regbuilder_keeps, unregbuilder_keeps, regproxy_keeps, unregproxy_keeps.
Qed.

Lemma run_ledger_op_keeps op : gas_nonneg op -> keeps_ledger (run_ledger_op op).
Proof. destruct op; intros G; [apply handler_of_keeps, system_handlers_keep | apply transfer_gas_keeps; assumption]. Qed.

Lemma ledger_history_keeps total ops : forall db, ledger total db -> Forall gas_nonneg ops ->
  exists db', ledger_history ops db = Some db' /\ ledger total db'.
Proof.
  induction ops as [| op ops IH]; intros db L G; [exists db; auto |]. apply Forall_cons in G as [G0 G].
  pose proof (run_ledger_op_keeps op G0 total (World db (Context 0 [] [] [] 0 [])) L) as E. cbn [ledger_history]. unfold ends in E.
  destruct (run_ledger_op op _) as [w [] | w e |]; [| | contradiction]; apply IH; assumption.
Qed.
End History.
