(* ===== verification/SystemContractProps.v ===== *)
(** The system contract from the outside: histories of messages and payments
    of gas conserve the tokens; a transfer needs nobody's authorization. *)

From Stdlib Require Import ZArith Lia Bool Ascii String List.
From stdpp Require Import base decidable gmap fin_maps list.
From S2P Require Import Prelude Asset ChainUtils Block LongName Effects UndoIndex UndoIndexThm Objects Tables Context Sums.
From S2P Require Import Authority Voting VotingThm SystemContract SystemContractThm.
Import ListNotations.
Local Open Scope Z_scope.

Local Abbreviation database := (list (generic_index row)).

(** C5: no token is created or lost.  After any history of messages to the
    system contract and of payments of gas, the failed ones being rolled back,
    no operation runs into undefined behaviour, all balances are nonnegative,
    the main, locked and unlocked tokens of all accounts add up to what they
    did before, what is staked for votes is what is locked, and the books of
    the vote balance.  The total is below 2^63, new objects lie in zeroed
    memory, and boost converts amounts below 2^63 exactly. *)
Theorem tokens_conserved `{SystemCodec} to_share raw raw_threshold total ops db :
  (forall z, 0 <= z < 2 ^ 63 -> to_share z = z) -> zeroed raw -> ledger total db -> Forall gas_nonneg ops ->
  exists db', ledger_history to_share raw raw_threshold ops db = Some db' /\ ledger total db'.
Proof. intros Hs Z0 L G. apply ledger_history_keeps; assumption. Qed.

(** ** A witness *)

(** Messages as lists of numbers. *)
#[local] Instance toy_system_codec : SystemCodec := {
  as_transfer d := match d with [f; t; a] => Some (Transfer f t a []) | _ => None end;
  as_lock d := match d with [f; t; a] => Some (Lock f t a) | _ => None end;
  as_unlock d := match d with [c; a] => Some (Unlock c a) | _ => None end;
  as_addaccount d := match d with [c; n; a] => Some (AddAccount c n (Authority 1 [] []) (Authority 1 [] []) (Asset a 0)) | _ => None end;
  as_adderc20 d := match d with [c; n; a] => Some (AddErc20 c n (Asset a n) 0) | _ => None end;
  as_adderc721 d := match d with [c; n] => Some (AddErc721 c n) | _ => None end;
  as_votebuilder d := match d with v :: p :: bs => Some (VoteBuilder v p bs) | _ => None end;
  as_regbuilder d := match d with [b; k] => Some (RegBuilder b (repeat k 33)) | _ => None end;
  as_unregbuilder d := match d with [b] => Some b | _ => None end;
  as_regproxy d := match d with [b] => Some b | _ => None end;
  as_unregproxy d := match d with [b] => Some b | _ => None end }.

(** A message to the system contract, declaring [auths], in a transaction that names [scopes]. *)
Definition toy_msg (scopes auths : list Z) (func : string) (data : list Z) : ledger_op :=
  OpMessage (Call (Transaction 0 0 0 scopes [] [] 0 0 0)
    (Message xmax_contract_name (name_of func) (map (fun a => AccountAuth a xmax_active_name) auths) data) 0 77 78) func.

(** Accounts 7, 8 and 9 with tokens, 8 can lock; builder 11. *)
Definition toy_ledger_db : database :=
  created (ResourceToken 8 0 0 0) (created (XmxToken 9 0) (created (XmxToken 8 10) (created (XmxToken 7 1000) empty_db))).

Definition toy_no_raw : Z -> uninitialized := fun _ => Raw 0 0 0 0.

Definition toy_ops : list ledger_op := [
  toy_msg [] [11] "regbuilder"%string [11; 1];
  toy_msg [] [7] "addaccount"%string [7; 6; 50];
  toy_msg [8; 7; xmax_contract_name] [7] "lock"%string [7; 8; 300];
  toy_msg [] [8] "votebuilder"%string [8; 0; 11];
  toy_msg [6; 9] [6] "transfer"%string [6; 9; 20];
  OpGas 9 7 5;
  toy_msg [] [8] "unlock"%string [8; 100];
  toy_msg [6; 9] [6] "transfer"%string [6; 9; 31]].

Definition balances (db : database) : list (Z * Z) * list (Z * (Z * Z)) * list (Z * Z) :=
  (map (fun kv => (xmx_owner kv.2, main_token kv.2)) (map_to_list (table xmx_token_object db)),
   map (fun kv => (res_owner kv.2, (locked_token kv.2, unlocked_token kv.2))) (map_to_list (table resource_token_object db)),
   map (fun kv => (bd_owner kv.2, total_votes kv.2)) (map_to_list (table builder_info_object db))).

Example toy_ops_result : option_map balances (ledger_history (fun z => z) toy_no_raw 0 toy_ops toy_ledger_db) =
  Some ([(6, 30); (9, 15); (8, 10); (7, 655)], [(8, (200, 100))], [(11, 200)]).
Proof. vm_compute. reflexivity. Qed.

Lemma toy_ledger : ledger 1010 toy_ledger_db.
Proof.
  assert (EV : map_to_list (table voter_info_object toy_ledger_db) = []) by (vm_compute; reflexivity).
  assert (EB : map_to_list (table builder_info_object toy_ledger_db) = []) by (vm_compute; reflexivity).
  apply map_to_list_empty_iff in EV, EB.
  split.
  - repeat apply created_valid. apply empty_valid.
  - rewrite EV, EB. split; [intros ? ? E | intros ? ? E | intros ? ? E |]; try (rewrite lookup_empty in E; discriminate).
    rewrite msum_empty. lia.
  - apply (map_Forall_to_list (fun _ b => 0 <= main_token b)). vm_compute. repeat constructor; discriminate.
  - apply (map_Forall_to_list (fun _ r => 0 <= locked_token r /\ 0 <= unlocked_token r)). vm_compute. repeat constructor; discriminate.
  - vm_compute. reflexivity.
  - vm_compute. reflexivity.
  - lia.
Qed.

Lemma tokens_conserved_witness :
  exists db', ledger_history (fun z => z) toy_no_raw 0 toy_ops toy_ledger_db = Some db' /\ ledger 1010 db'.
Proof.
  apply tokens_conserved; [reflexivity | intros id; split; reflexivity | apply toy_ledger |].
  repeat constructor; cbn; lia.
Defined.

(** No authorization is asked of the one who pays: a message without any
    takes the tokens of account 7. *)
Example transfer_needs_no_authorization :
  option_map balances (ledger_history (fun z => z) toy_no_raw 0 [toy_msg [7; 9] [] "transfer"%string [7; 9; 1000]] toy_ledger_db) =
  Some ([(9, 1000); (8, 10); (7, 0)], [(8, (0, 0))], []).
Proof. vm_compute. reflexivity. Qed.
