(* ===== verification/ErcThm.v ===== *)
(** The ERC20 and ERC721 contracts: the balances of a token add up to its
    supply, and tokens move with the authorization of those who hold them. *)

From Stdlib Require Import ZArith Lia Bool Ascii String List.
From stdpp Require Import base decidable gmap fin_maps list.
From S2P Require Import Prelude Asset ChainUtils Block Effects UndoIndex UndoIndexThm Objects Tables Context Sums.
From S2P Require Import Authority VotingThm SystemContract Erc SystemContractThm.
Import ListNotations.
Local Open Scope Z_scope.

Local Abbreviation database := (list (generic_index row)).
Local Abbreviation issues := (gmap Z erc20_token_object).
Local Abbreviation accounts := (gmap Z erc20_token_account_object).
Local Abbreviation series := (gmap Z erc721_token_object).
Local Abbreviation collectibles := (gmap Z erc721_token_account_object).

(** ** The four tables in a run *)

Record vault (T : issues) (A : accounts) (U : series) (N : collectibles) (w : world) : Prop := {
  va_valid : valid (w_db w);
  va_issues : table erc20_token_object (w_db w) = T;
  va_accounts : table erc20_token_account_object (w_db w) = A;
  va_series : table erc721_token_object (w_db w) = U;
  va_collectibles : table erc721_token_account_object (w_db w) = N }.

Lemma vault_start w : valid (w_db w) -> vault (table erc20_token_object (w_db w)) (table erc20_token_account_object (w_db w))
  (table erc721_token_object (w_db w)) (table erc721_token_account_object (w_db w)) w.
Proof. intros V. split; auto. Qed.

Lemma vault_same T A U N w w' : w_db w' = w_db w -> vault T A U N w -> vault T A U N w'.
Proof. intros E [? ? ? ? ?]. split; rewrite E; assumption. Qed.

Ltac vault_tables C := split;
  [apply C | first [apply C | etransitivity; [apply (changed_other _ _ _ _ C); cbn; lia | assumption]] ..].

Section Steps.
Context {B : Type} (T : issues) (A : accounts) (U : series) (N : collectibles) (w : world).
Hypothesis W : vault T A U N w.
Implicit Types (Q : world -> B -> Prop).

Lemma get_erc20_step n (k : Z -> M world B) Q :
  (forall id t, T !! id = Some t -> e20_token_name t = n -> ends (k id) w Q any_exc) -> ends (get_erc20 n ≫= k) w Q any_exc.
Proof. intros HS. apply wp_get; [| intros _; exact I]. rewrite (va_issues _ _ _ _ _ W). intros id t L E. apply (HS id t L). lia. Qed.

Lemma the_erc20_step id t (k : erc20_token_object -> M world B) Q : T !! id = Some t ->
  ends (k t) w Q any_exc -> ends (the_erc20 id ≫= k) w Q any_exc.
Proof. intros L. apply wp_deref. rewrite (va_issues _ _ _ _ _ W). exact L. Qed.

Lemma get_erc721_step n (k : Z -> M world B) Q :
  (forall id t, U !! id = Some t -> e721_token_name t = n -> ends (k id) w Q any_exc) -> ends (get_erc721 n ≫= k) w Q any_exc.
Proof. intros HS. apply wp_get; [| intros _; exact I]. rewrite (va_series _ _ _ _ _ W). intros id t L E. apply (HS id t L). lia. Qed.

Lemma the_erc721_step id t (k : erc721_token_object -> M world B) Q : U !! id = Some t ->
  ends (k t) w Q any_exc -> ends (the_erc721 id ≫= k) w Q any_exc.
Proof. intros L. apply wp_deref. rewrite (va_series _ _ _ _ _ W). exact L. Qed.

Lemma held_step n o (k : Z -> M world B) Q :
  (forall id a, A !! id = Some a -> e20a_token_name a = n -> e20a_owner a = o -> ends (k id) w Q any_exc) ->
  ends (on_db (db_get (held_by n o)) ≫= k) w Q any_exc.
Proof.
  intros HS. apply wp_get; [| intros _; exact I]. rewrite (va_accounts _ _ _ _ _ W). intros id a L E. unfold held_by in E.
  apply (HS id a L); lia.
Qed.

Lemma with_id_step n i (k : Z -> M world B) Q :
  (forall id a, N !! id = Some a -> e721a_token_name a = n -> token_id a = i -> ends (k id) w Q any_exc) ->
  ends (on_db (db_get (with_id n i)) ≫= k) w Q any_exc.
Proof.
  intros HS. apply wp_get; [| intros _; exact I]. rewrite (va_collectibles _ _ _ _ _ W). intros id a L E. unfold with_id in E.
  apply andb_true_iff in E as [E1 E2]. apply bool_decide_eq_true in E2. apply (HS id a L); [lia | exact E2].
Qed.

Lemma collectible_step id a (k : erc721_token_account_object -> M world B) Q : N !! id = Some a ->
  ends (k a) w Q any_exc -> ends (on_db (deref id) ≫= k) w Q any_exc.
Proof. intros L. apply wp_deref. rewrite (va_collectibles _ _ _ _ _ W). exact L. Qed.

Lemma issue_step id t t' f (k : unit -> M world B) Q : T !! id = Some t -> f t = Ret t' tt -> e20_token_name t' = e20_token_name t ->
  (forall w', vault (<[id := t']> T) A U N w' -> ends (k tt) w' Q any_exc) -> ends (on_db (db_modify id f) ≫= k) w Q any_exc.
Proof.
  intros L F E HS. destruct W as [V ET EA EU EN]. subst T. eapply wp_modify; [exact V | exact L |]. rewrite F.
  split; [intros []; cbn; rewrite ?E; reflexivity |]. intros w' _ C. apply HS. vault_tables C.
Qed.

Lemma series_step id t t' f (k : unit -> M world B) Q : U !! id = Some t -> f t = Ret t' tt -> e721_token_name t' = e721_token_name t ->
  (forall w', vault T A (<[id := t']> U) N w' -> ends (k tt) w' Q any_exc) -> ends (on_db (db_modify id f) ≫= k) w Q any_exc.
Proof.
  intros L F E HS. destruct W as [V ET EA EU EN]. subst U. eapply wp_modify; [exact V | exact L |]. rewrite F.
  split; [intros []; cbn; rewrite ?E; reflexivity |]. intros w' _ C. apply HS. vault_tables C.
Qed.

(** A modification of a balance that may throw. *)
Lemma balance_step id a x f (k : unit -> M world B) Q : A !! id = Some a ->
  (f a = Ret (set_balance x a) tt \/ exists e, f a = Exc a e) ->
  (forall w', f a = Ret (set_balance x a) tt -> vault T (<[id := set_balance x a]> A) U N w' -> ends (k tt) w' Q any_exc) ->
  ends (on_db (db_modify id f) ≫= k) w Q any_exc.
Proof.
  intros L F HS. destruct W as [V ET EA EU EN]. subst A. eapply wp_modify; [exact V | exact L |].
  destruct F as [F | [e F]]; rewrite F; (split; [intros []; reflexivity |]); intros w' _ C; [| exact I].
  apply HS; [exact F |]. vault_tables C.
Qed.

Lemma new_account_step a (k : Z -> M world B) Q :
  (forall id w', A !! id = None -> vault T (<[id := a]> A) U N w' -> ends (k id) w' Q any_exc) ->
  ends (on_db (db_create (fun _ => a)) ≫= k) w Q any_exc.
Proof.
  intros HS. destruct W as [V ET EA EU EN]. subst A. eapply wp_create; [exact V | | intros; exact I].
  intros id w' F _ _ C. apply (HS id); [exact F |]. vault_tables C.
Qed.

Lemma new_issue_step t (k : Z -> M world B) Q :
  (forall id w', T !! id = None -> (forall j x, T !! j = Some x -> e20_token_name x <> e20_token_name t) ->
     vault (<[id := t]> T) A U N w' -> ends (k id) w' Q any_exc) ->
  ends (on_db (db_create (fun _ => t)) ≫= k) w Q any_exc.
Proof.
  intros HS. destruct W as [V ET EA EU EN]. subst T. eapply wp_create; [exact V | | intros; exact I].
  intros id w' F D _ C. apply (HS id); [exact F | | vault_tables C].
  intros j x L E. specialize (D j x L). cbn in D. lia.
Qed.

Lemma new_series_step t (k : Z -> M world B) Q :
  (forall id w', U !! id = None -> vault T A (<[id := t]> U) N w' -> ends (k id) w' Q any_exc) ->
  ends (on_db (db_create (fun _ => t)) ≫= k) w Q any_exc.
Proof.
  intros HS. destruct W as [V ET EA EU EN]. subst U. eapply wp_create; [exact V | | intros; exact I].
  intros id w' F _ _ C. apply (HS id); [exact F |]. vault_tables C.
Qed.

Lemma new_collectible_step a (k : Z -> M world B) Q :
  (forall id w', N !! id = None -> vault T A U (<[id := a]> N) w' -> ends (k id) w' Q any_exc) ->
  ends (on_db (db_create (fun _ => a)) ≫= k) w Q any_exc.
Proof.
  intros HS. destruct W as [V ET EA EU EN]. subst N. eapply wp_create; [exact V | | intros; exact I].
  intros id w' F _ _ C. apply (HS id); [exact F |]. vault_tables C.
Qed.

Lemma hand_over_step id a a' f (k : unit -> M world B) Q : N !! id = Some a -> f a = Ret a' tt ->
  (forall w', vault T A U (<[id := a']> N) w' -> ends (k tt) w' Q any_exc) -> ends (on_db (db_modify id f) ≫= k) w Q any_exc.
Proof.
  intros L F HS. destruct W as [V ET EA EU EN]. subst N. eapply wp_rekey; [exact V | exact L | exact F | | intros; exact I].
  intros w' _ _ C. apply HS. vault_tables C.
Qed.

(** An account in the table of accounts of the chain. *)
Lemma new_chain_account_step n t ty (k : Z -> M world B) Q :
  (forall id w', vault T A U N w' -> ends (k id) w' Q any_exc) -> ends (xmax_new_account n t ty ≫= k) w Q any_exc.
Proof.
  intros HS. destruct W as [V ET EA EU EN]. eapply wp_create; [exact V | | intros; exact I].
  intros id w' F _ _ C. apply (HS id). vault_tables C.
Qed.
End Steps.

(** ** Books and guarded changes *)

Definition of_token (n : Z) (a : erc20_token_account_object) : Z := if e20a_token_name a =? n then balance a else 0.
Definition supply_of (n : Z) (A : accounts) : Z := msum (of_token n) A.

Record erc20_books (total : Z) (T : issues) (A : accounts) : Prop := {
  eb_supply : forall id t, T !! id = Some t -> total_supply t = supply_of (e20_token_name t) A;
  eb_account : forall id a, A !! id = Some a -> 0 <= balance a /\ exists j t, T !! j = Some t /\ e20_token_name t = e20a_token_name a;
  eb_total : msum balance A = total }.

(** Who lost, issued, gave away or minted has authorized the message. *)
Definition balances_guarded (cx : call) (A A' : accounts) : Prop := forall id a, A !! id = Some a ->
  exists a', A' !! id = Some a' /\ e20a_token_name a' = e20a_token_name a /\ e20a_owner a' = e20a_owner a /\
    (balance a' < balance a -> authorized cx (e20a_owner a)).
Definition supplies_guarded (cx : call) (T T' : issues) : Prop := forall id t, T !! id = Some t ->
  exists t', T' !! id = Some t' /\ e20_token_name t' = e20_token_name t /\ e20_owner t' = e20_owner t /\
    (total_supply t' <> total_supply t -> authorized cx (e20_owner t)).
Definition owners_guarded (cx : call) (N N' : collectibles) : Prop := forall id a, N !! id = Some a ->
  exists a', N' !! id = Some a' /\ e721a_token_name a' = e721a_token_name a /\ token_id a' = token_id a /\
    (token_owner a' <> token_owner a -> authorized cx (token_owner a)).
Definition mints_guarded (cx : call) (U : series) (N N' : collectibles) : Prop := forall id a', N' !! id = Some a' -> N !! id = None ->
  exists j u, U !! j = Some u /\ e721_token_name u = e721a_token_name a' /\ token_owner a' = e721_owner u /\ authorized cx (e721_owner u).

Lemma balances_grow cx A A' : A ⊆ A' -> balances_guarded cx A A'.
Proof. intros S id a L. exists a. split; [exact (lookup_weaken _ _ _ _ L S) | auto with lia]. Qed.
Lemma supplies_grow cx T T' : T ⊆ T' -> supplies_guarded cx T T'.
Proof. intros S id t L. exists t. split; [exact (lookup_weaken _ _ _ _ L S) | split_and!; auto; congruence]. Qed.
Lemma owners_grow cx N N' : N ⊆ N' -> owners_guarded cx N N'.
Proof. intros S id t L. exists t. split; [exact (lookup_weaken _ _ _ _ L S) | split_and!; auto; congruence]. Qed.
Lemma mints_none cx U N : mints_guarded cx U N N.
Proof. intros id a L F. congruence. Qed.

Lemma balances_trans cx A A' A'' : balances_guarded cx A A' -> balances_guarded cx A' A'' -> balances_guarded cx A A''.
Proof.
  intros H1 H2 id a L. destruct (H1 id a L) as (a1 & L1 & N1 & O1 & B1). destruct (H2 id a1 L1) as (a2 & L2 & N2 & O2 & B2).
  exists a2. split; [exact L2 |]. split_and!; [congruence | congruence |]. intros D.
  destruct (Z.ltb_spec (balance a1) (balance a)); [auto |]. rewrite <- O1. apply B2. lia.
Qed.

Lemma balance_guarded cx A id a x : A !! id = Some a -> (x < balance a -> authorized cx (e20a_owner a)) ->
  balances_guarded cx A (<[id := set_balance x a]> A).
Proof.
  intros L G j b Lb. destruct (decide (j = id)) as [-> | D].
  - rewrite lookup_insert_eq. exists (set_balance x a). replace b with a by congruence. auto.
  - rewrite lookup_insert_ne by congruence. exists b. split; [exact Lb | auto with lia].
Qed.

Lemma supply_guarded cx T id t t' : T !! id = Some t -> e20_token_name t' = e20_token_name t -> e20_owner t' = e20_owner t ->
  (total_supply t' <> total_supply t -> authorized cx (e20_owner t)) -> supplies_guarded cx T (<[id := t']> T).
Proof.
  intros L E O G j b Lb. destruct (decide (j = id)) as [-> | D].
  - rewrite lookup_insert_eq. exists t'. replace b with t by congruence. auto.
  - rewrite lookup_insert_ne by congruence. exists b. split; [exact Lb | split_and!; auto; congruence].
Qed.

(** ** Sums of balances *)

Lemma supply_of_new n A id a : A !! id = None -> supply_of n (<[id := a]> A) = of_token n a + supply_of n A.
Proof. apply msum_new. Qed.

Lemma supply_of_update n A id a x : A !! id = Some a ->
  supply_of n (<[id := set_balance x a]> A) = supply_of n A + (if e20a_token_name a =? n then x - balance a else 0).
Proof. intros L. unfold supply_of. rewrite (msum_update _ _ _ _ _ L). unfold of_token. cbn. destruct (_ =? _); lia. Qed.

Lemma supply_of_nobody n T A total : erc20_books total T A -> (forall j t, T !! j = Some t -> e20_token_name t <> n) -> supply_of n A = 0.
Proof.
  intros K F. unfold supply_of. rewrite (msum_ext _ (fun _ => 0)); [apply msum_zero |]. intros id a L.
  destruct (eb_account _ _ _ K id a L) as (_ & j & t & Lt & E). unfold of_token.
  destruct (Z.eqb_spec (e20a_token_name a) n) as [E' |]; [| reflexivity]. destruct (F j t Lt). congruence.
Qed.

Lemma balance_bound total T A id a : erc20_books total T A -> A !! id = Some a -> 0 <= balance a <= total.
Proof.
  intros K L. split; [apply (eb_account _ _ _ K id a L) |]. rewrite <- (eb_total _ _ _ K).
  apply (msum_lookup balance A id); [| exact L]. intros i b Lb. apply (eb_account _ _ _ K i b Lb).
Qed.

Lemma supply_bound total T A id t : erc20_books total T A -> T !! id = Some t -> 0 <= total_supply t <= total.
Proof.
  intros K L. rewrite (eb_supply _ _ _ K id t L), <- (eb_total _ _ _ K). unfold supply_of. split.
  - apply msum_nonneg. intros i a La. unfold of_token. pose proof (eb_account _ _ _ K i a La). destruct (_ =? _); lia.
  - apply msum_le. intros i a La. unfold of_token. pose proof (eb_account _ _ _ K i a La). destruct (_ =? _); lia.
Qed.

Lemma safe_add_cases {S} a b (s : S) : - 2 ^ 63 <= a + b < 2 ^ 63 -> 0 <= b -> safe_add a b s = Ret s (a + b).
Proof.
  intros R P. unfold safe_add, mbind, M_bind. rewrite int64_in by exact R. unfold require.
  rewrite (proj2 (Z.leb_le _ _)) by lia. reflexivity.
Qed.

Lemma safe_sub_cases {S} a b (s : S) : - 2 ^ 63 <= a - b < 2 ^ 63 -> b <= a -> safe_sub a b s = Ret s (a - b).
Proof.
  intros R P. unfold safe_sub, require, mbind, M_bind. rewrite (proj2 (Z.leb_le _ _)) by lia. cbn. apply int64_in, R.
Qed.

Lemma credit_runs a d : 0 <= d -> - 2 ^ 63 <= balance a + d < 2 ^ 63 -> credit d a = Ret (set_balance (balance a + d) a) tt.
Proof. intros P R. unfold credit, gets, update, mbind, M_bind. rewrite safe_add_cases by assumption. reflexivity. Qed.

Lemma debit_runs a d : 0 <= d -> 0 <= balance a < 2 ^ 63 ->
  debit d a = if d <? balance a then Ret (set_balance (balance a - d) a) tt else Exc a "From have no enough tokens!".
Proof.
  intros P R. unfold debit, gets, update, require, mbind, M_bind. destruct (Z.ltb_spec d (balance a)); cbn; [| reflexivity].
  rewrite safe_sub_cases by lia. reflexivity.
Qed.

Lemma issue_runs t d : 0 <= d -> - 2 ^ 63 <= total_supply t + d < 2 ^ 63 -> issue d t = Ret (set_supply (total_supply t + d) t) tt.
Proof. intros P R. unfold issue, gets, update, mbind, M_bind. rewrite safe_add_cases by assumption. reflexivity. Qed.

(** ** The handlers *)

(** After a handler that issued [d]: books and guards. *)
Record conducted (cx : call) (total : Z) (T : issues) (A : accounts) (U : series) (N : collectibles)
    (T' : issues) (A' : accounts) (N' : collectibles) : Prop := {
  co_books : erc20_books total T' A';
  co_balances : balances_guarded cx A A';
  co_supplies : supplies_guarded cx T T';
  co_owners : owners_guarded cx N N';
  co_mints : mints_guarded cx U N N' }.

Definition conducts (cx : call) (d : Z) (m : M world unit) : Prop := forall total T A U N w,
  vault T A U N w -> erc20_books total T A -> total + d < 2 ^ 63 ->
  ends m w (fun w' _ => exists T' A' U' N', vault T' A' U' N' w' /\ conducted cx (total + d) T A U N T' A' N') any_exc.

Lemma conducted_id cx total T A U N : erc20_books total T A -> conducted cx (total + 0) T A U N T A N.
Proof.
  intros K. rewrite Z.add_0_r. split; [exact K | apply balances_grow | apply supplies_grow | apply owners_grow | apply mints_none]; reflexivity.
Qed.

(** A token is marked; its supply stays. *)
Lemma conducted_marked cx total T A U N id t t' : erc20_books total T A -> T !! id = Some t ->
  e20_token_name t' = e20_token_name t -> e20_owner t' = e20_owner t -> total_supply t' = total_supply t ->
  conducted cx (total + 0) T A U N (<[id := t']> T) A N.
Proof.
  intros K L En Eo Es. rewrite Z.add_0_r. split; [| apply balances_grow; reflexivity | | apply owners_grow; reflexivity | apply mints_none].
  - split.
    + intros i x. rewrite lookup_insert_Some. intros [[<- <-] | [_ Lx]]; [| apply (eb_supply _ _ _ K i x Lx)].
      rewrite Es, En. apply (eb_supply _ _ _ K id t L).
    + intros i a La. destruct (eb_account _ _ _ K i a La) as (B & j & x & Lx & E). split; [exact B |].
      destruct (decide (j = id)) as [-> | D]; [exists id, t'; rewrite lookup_insert_eq; split; [reflexivity | congruence] |].
      exists j, x. rewrite lookup_insert_ne by congruence. auto.
    + apply K.
  - eapply supply_guarded; [exact L | exact En | exact Eo | congruence].
Qed.

Section Handlers.
Context `{SystemCodec} `{ErcCodec} (stack : place -> list Z) (cx : call).

Lemma from_result_step {X B} (r : result X) (k : X -> M world B) w Q :
  (forall e, r = Throw e -> e <> "undefined"%string) -> (forall x, r = Ok x -> ends (k x) w Q any_exc) ->
  ends (from_result r ≫= k) w Q any_exc.
Proof.
  intros HE HS. unfold from_result. destruct r as [x | e]; [apply HS; reflexivity |].
  destruct (String.eqb_spec e "undefined"); [destruct (HE e eq_refl); assumption | exact I].
Qed.

Lemma hex_digit_error c e : hex_digit c = Throw e -> e <> "undefined"%string.
Proof. unfold hex_digit. repeat destruct (_ && _); congruence. Qed.

Lemma from_hex_error out : forall s e, from_hex s out = Throw e -> e <> "undefined"%string.
Proof.
  induction out as [| o out IH]; intros s e; [discriminate |]. cbn [from_hex]. destruct s as [| i [| j s]]; [discriminate | |].
  - destruct (hex_digit i) eqn:E; [discriminate |]. intros [= <-]. eapply hex_digit_error, E.
  - destruct (hex_digit i) eqn:E1; [| intros [= <-]; eapply hex_digit_error, E1]. cbn.
    destruct (hex_digit j) eqn:E2; [| intros [= <-]; eapply hex_digit_error, E2]. cbn.
    destruct (from_hex s out) eqn:E3; [discriminate |]. intros [= <-]. eapply IH, E3.
Qed.

Lemma token_id_step {B} memory s (k : sha256 -> M world B) w Q :
  (forall i, ends (k i) w Q any_exc) -> ends (make_token_id memory s ≫= k) w Q any_exc.
Proof.
  intros HS. unfold make_token_id. apply ends_bind. apply from_result_step; [apply from_hex_error |]. intros x _. apply HS.
Qed.

Lemma quiet T A U N w w' : w_db w' = w_db w -> vault T A U N w -> vault T A U N w'.
Proof. apply vault_same. Qed.

Lemma adderc20_conducts amount : (forall c, as_adderc20 (msg_data (call_msg cx)) = Some c -> Asset.amount (a20_total_balance c) = amount) ->
  0 <= amount -> conducts cx amount (xmax_system_adderc20 cx).
Proof.
  intros Ha P total T A U N w W K B. apply msg_as_step. intros c D. apply Ha in D. apply contract_name_step. intros n.
  apply scope_step. intros w1 E1. apply authorization_step. intros w2 E2 _. apply (vault_same _ _ _ _ w w2) in W; [| congruence].
  eapply new_chain_account_step; [exact W |]. intros _ w3 W3. apply find_step. intros o. apply require_step. intros _.
  eapply new_issue_step; [exact W3 |]. intros i w4 Fi Di W4. apply find_step. intros o'. apply require_step. intros _.
  eapply new_account_step; [exact W4 |]. intros j w5 Fj W5.
  eexists _, _, _, _. split; [exact W5 |]. cbn in Di. rewrite D in *. split.
  - split.
    + intros k t. rewrite supply_of_new by exact Fj. unfold of_token; cbn. rewrite lookup_insert_Some. intros [[<- <-] | [_ L]]; cbn.
      * rewrite Z.eqb_refl, (supply_of_nobody _ _ _ _ K Di). lia.
      * rewrite (eb_supply _ _ _ K k t L). pose proof (Di k t L). destruct (Z.eqb_spec (a20_token_name c) (e20_token_name t)); [congruence | lia].
    + intros k a. rewrite lookup_insert_Some. intros [[<- <-] | [_ L]]; cbn.
      * split; [exact P |]. eexists i, _. rewrite lookup_insert_eq. split; reflexivity.
      * destruct (eb_account _ _ _ K k a L) as (Pk & l & x & Lx & E). split; [exact Pk |]. exists l, x. split; [| exact E].
        rewrite lookup_insert_ne by (intros ->; congruence). exact Lx.
    + rewrite msum_new by exact Fj. cbn. rewrite (eb_total _ _ _ K). lia.
  - apply balances_grow, insert_subseteq, Fj.
  - apply supplies_grow, insert_subseteq, Fi.
  - apply owners_grow. reflexivity.
  - apply mints_none.
Qed.

Lemma adderc721_conducts : conducts cx 0 (xmax_system_adderc721 cx).
Proof.
  intros total T A U N w W K B. apply msg_as_step. intros c _.
  apply scope_step. intros w1 E1. apply authorization_step. intros w2 E2 _. apply contract_name_step. intros n.
  apply authorization_step. intros w3 E3 _. apply (vault_same _ _ _ _ w w3) in W; [| congruence].
  eapply new_chain_account_step; [exact W |]. intros _ w4 W4. apply find_step. intros o. apply require_step. intros _.
  eapply new_series_step; [exact W4 |]. intros i w5 _ W5. eexists _, _, _, _. split; [exact W5 | apply conducted_id, K].
Qed.

Lemma erc20_mint_conducts amount : (forall m, as_minterc20 (msg_data (call_msg cx)) = Some m -> Asset.amount (mint_amount m) = amount) ->
  0 <= amount -> conducts cx amount (xmax_erc20_mint cx).
Proof.
  intros Ha P total T A U N w W K B. apply msg_as_step. intros m D. apply Ha in D.
  eapply get_erc20_step; [exact W |]. intros i t L En. eapply the_erc20_step; [exact W | exact L |].
  apply require_step. intros _. apply require_step. intros _.
  apply scope_step. intros w1 E1. apply authorization_step. intros w2 E2 Au. apply recipient_step. intros w3 E3.
  apply (vault_same _ _ _ _ w w3) in W; [| congruence]. apply find_step. intros o. apply require_step. intros _.
  eapply held_step; [exact W |]. intros j a La Ena Eo. rewrite D.
  pose proof (balance_bound _ _ _ _ _ K La) as Bb. pose proof (supply_bound _ _ _ _ _ K L) as Bs.
  eapply (balance_step _ _ _ _ _ W j a (balance a + amount)); [exact La | left; apply credit_runs; lia |]. intros w4 _ W4.
  apply ends_bind_ret. eapply (issue_step _ _ _ _ _ W4 i t (set_supply (total_supply t + amount) t)); [exact L | apply issue_runs; lia | reflexivity |].
  intros w5 W5. eexists _, _, _, _. split; [exact W5 |]. split.
  - split.
    + intros k x. rewrite (supply_of_update _ _ _ _ _ La), lookup_insert_Some. intros [[<- <-] | [Dk Lk]]; cbn.
      * rewrite (eb_supply _ _ _ K i t L), Ena, En, Z.eqb_refl. lia.
      * rewrite (eb_supply _ _ _ K k x Lk). destruct (Z.eqb_spec (e20a_token_name a) (e20_token_name x)) as [E |]; [| lia].
        pose proof (table_unique (w_db w3) k i x t (va_valid _ _ _ _ _ W)) as Uq. rewrite (va_issues _ _ _ _ _ W) in Uq.
        specialize (Uq Lk L ltac:(congruence)). cbn in Uq. lia.
    + intros k x. rewrite lookup_insert_Some. intros Hx.
      assert (Hk : 0 <= balance x /\ exists j t, T !! j = Some t /\ e20_token_name t = e20a_token_name x).
      { destruct Hx as [[_ <-] | [_ Lx]]; [| exact (eb_account _ _ _ K k x Lx)]. cbn. split; [lia |]. exists i, t. split; [exact L | congruence]. }
      destruct Hk as (Pk & l & y & Ly & E). split; [exact Pk |].
      destruct (decide (l = i)) as [-> | Dl]; [eexists i, _; rewrite lookup_insert_eq; split; [reflexivity | cbn; congruence] |].
      exists l, y. rewrite lookup_insert_ne by congruence. auto.
    + rewrite (msum_update _ _ _ _ _ La). cbn. rewrite (eb_total _ _ _ K). lia.
  - apply balance_guarded; [exact La | intros X; lia].
  - eapply supply_guarded; [exact L | reflexivity | reflexivity | intros _; exact Au].
  - apply owners_grow. reflexivity.
  - apply mints_none.
Qed.

Lemma erc20_stopmint_conducts : conducts cx 0 (xmax_erc20_stopmint cx).
Proof.
  intros total T A U N w W K B. apply msg_as_step. intros n D.
  eapply get_erc20_step; [exact W |]. intros i t L En. eapply the_erc20_step; [exact W | exact L |].
  apply require_step. intros _. apply require_step. intros _.
  apply scope_step. intros w1 E1. apply authorization_step. intros w2 E2 Au. apply recipient_step. intros w3 E3.
  apply (vault_same _ _ _ _ w w3) in W; [| congruence]. apply ends_bind_ret.
  eapply issue_step; [exact W | exact L | reflexivity | reflexivity |]. intros w4 W4. eexists _, _, _, _. split; [exact W4 |].
  eapply conducted_marked; [exact K | exact L | reflexivity ..].
Qed.

Lemma erc20_revoke_conducts : conducts cx 0 (xmax_erc20_revoke cx).
Proof.
  intros total T A U N w W K B. apply msg_as_step. intros n D.
  eapply get_erc20_step; [exact W |]. intros i t L En. eapply the_erc20_step; [exact W | exact L |].
  apply require_step. intros _. apply ends_bind_ret.
  eapply issue_step; [exact W | exact L | reflexivity | reflexivity |]. intros w4 W4. eexists _, _, _, _. split; [exact W4 |].
  eapply conducted_marked; [exact K | exact L | reflexivity ..].
Qed.

(** ** Transfers *)

Lemma held_mono (T : issues) (A : accounts) i a x : A !! i = Some a ->
  (forall k y, A !! k = Some y -> 0 <= balance y /\ exists j t, T !! j = Some t /\ e20_token_name t = e20a_token_name y) -> 0 <= x ->
  forall k y, <[i := set_balance x a]> A !! k = Some y -> 0 <= balance y /\ exists j t, T !! j = Some t /\ e20_token_name t = e20a_token_name y.
Proof.
  intros L HA P k y. rewrite lookup_insert_Some. intros [[_ <-] | [_ Ly]]; [| exact (HA k y Ly)].
  split; [exact P |]. apply (HA i a L).
Qed.

Lemma books_moved_value total T A i j a b v : erc20_books total T A -> A !! i = Some a ->
  <[i := set_balance (balance a - v) a]> A !! j = Some b -> e20a_token_name b = e20a_token_name a -> 0 <= v <= balance a ->
  erc20_books total T (<[j := set_balance (balance b + v) b]> (<[i := set_balance (balance a - v) a]> A)).
Proof.
  intros K La Lb E R.
  assert (H1 : forall k y, <[i := set_balance (balance a - v) a]> A !! k = Some y -> 0 <= balance y /\ exists j t, T !! j = Some t /\ e20_token_name t = e20a_token_name y)
    by (apply held_mono; [exact La | apply (eb_account _ _ _ K) | lia]).
  split.
  - intros k t Lt. rewrite (supply_of_update _ _ _ _ _ Lb), (supply_of_update _ _ _ _ _ La), (eb_supply _ _ _ K k t Lt), E.
    destruct (_ =? _); lia.
  - apply held_mono; [exact Lb | exact H1 |]. pose proof (H1 j b Lb). lia.
  - rewrite (msum_update _ _ _ _ _ Lb), (msum_update _ _ _ _ _ La), (eb_total _ _ _ K). cbn. lia.
Qed.

(** The account of the receiver, created when it is missing. *)
Lemma receiver_step {B} total T A U N w n o to t i (k : unit -> M world B) Q : vault T A U N w -> erc20_books total T A ->
  T !! i = Some t -> e20_token_name t = n ->
  (forall A' w', vault T A' U N w' -> A ⊆ A' -> erc20_books total T A' -> ends (k tt) w' Q any_exc) ->
  ends ((if is_found o then mret tt else on_db (db_create (fun _ => Erc20Account n to 0)) ;; mret tt) ≫= k) w Q any_exc.
Proof.
  intros W K L En HS. destruct (is_found o); [apply (HS A w W); [reflexivity | exact K] |].
  apply ends_bind. eapply new_account_step; [exact W |]. intros j w1 F W1. apply (HS _ w1 W1); [apply insert_subseteq, F |].
  split.
  - intros l x Lx. rewrite supply_of_new by exact F. rewrite (eb_supply _ _ _ K l x Lx). unfold of_token; cbn. destruct (_ =? _); lia.
  - intros l x. rewrite lookup_insert_Some. intros [[_ <-] | [_ Lx]]; [| apply (eb_account _ _ _ K l x Lx)].
    cbn. split; [lia |]. eauto.
  - rewrite msum_new by exact F. rewrite (eb_total _ _ _ K). reflexivity.
Qed.

Lemma erc20_transferfrom_conducts :
  (forall m, as_transferfromerc20 (msg_data (call_msg cx)) = Some m -> 0 <= Asset.amount (t20_value m)) ->
  conducts cx 0 (xmax_erc20_transferfrom cx).
Proof.
  intros Hv total T A U N w W K B. rewrite Z.add_0_r in *. apply msg_as_step. intros m D. pose proof (Hv m D) as P.
  apply authorization_step. intros w1 E1 Au. apply scope_step. intros w2 E2. apply scope_step. intros w3 E3.
  apply recipient_step. intros w4 E4. apply recipient_step. intros w5 E5. apply require_step. intros _. apply require_step. intros _.
  apply (vault_same _ _ _ _ w w5) in W; [| congruence]. clear E1 E2 E3 E4 E5.
  eapply get_erc20_step; [exact W |]. intros i t L En. eapply the_erc20_step; [exact W | exact L |]. apply require_step. intros _.
  apply find_step. intros o. apply require_step. intros _. apply find_step. intros o'.
  eapply receiver_step; [exact W | exact K | exact L | exact En |]. intros A1 w6 W6 S6 K6.
  eapply held_step; [exact W6 |]. intros ia a La Ena Eoa. eapply held_step; [exact W6 |]. intros ib b0 Lb0 Enb Eob.
  set (v := Asset.amount (t20_value m)) in *. pose proof (balance_bound _ _ _ _ _ K6 La) as Ba.
  pose proof (debit_runs a v P ltac:(lia)) as Dr. eapply (balance_step _ _ _ _ _ W6 ia a (balance a - v)); [exact La | rewrite Dr; destruct (_ <? _); eauto |].
  intros w7 Er W7. rewrite Dr in Er. destruct (Z.ltb_spec v (balance a)) as [Lt |]; [clear Er Dr | discriminate].
  assert (Hb : exists b, <[ia := set_balance (balance a - v) a]> A1 !! ib = Some b /\ e20a_token_name b = e20a_token_name a).
  { destruct (decide (ia = ib)) as [<- | Dn]; [rewrite lookup_insert_eq | rewrite lookup_insert_ne by exact Dn]; eexists; split; eauto; congruence. }
  destruct Hb as (b & Lb & Eb).
  pose proof (books_moved_value _ _ _ _ _ _ _ v K6 La Lb Eb ltac:(lia)) as K7.
  assert (Bb : 0 <= balance b + v <= total).
  { apply (balance_bound total T _ ib (set_balance (balance b + v) b) K7). apply lookup_insert_eq. }
  apply ends_bind_ret. eapply (balance_step _ _ _ _ _ W7 ib b (balance b + v)); [exact Lb | left; apply credit_runs; lia |].
  intros w8 _ W8. eexists _, _, _, _. split; [exact W8 |]. split.
  - exact K7.
  - eapply balances_trans; [apply balances_grow, S6 |]. eapply balances_trans; [apply (balance_guarded cx A1 ia a); [exact La |] |].
    + intros _. rewrite Eoa. exact Au.
    + apply balance_guarded; [exact Lb | intros X; lia].
  - apply supplies_grow. reflexivity.
  - apply owners_grow. reflexivity.
  - apply mints_none.
Qed.

(** ** ERC721 *)

Lemma erc721_mint_conducts : conducts cx 0 (xmax_erc721_mint stack cx).
Proof.
  intros total T A U N w W K B. apply msg_as_step. intros m D.
  eapply get_erc721_step; [exact W |]. intros i t L En. eapply the_erc721_step; [exact W | exact L |].
  apply require_step. intros _. apply require_step. intros _.
  apply scope_step. intros w1 E1. apply authorization_step. intros w2 E2 Au. apply recipient_step. intros w3 E3.
  apply (vault_same _ _ _ _ w w3) in W; [| congruence].
  apply token_id_step. intros id1. apply find_step. intros o. apply require_step. intros _. apply token_id_step. intros id2.
  eapply new_collectible_step; [exact W |]. intros j w4 F W4. eexists _, _, _, _. split; [exact W4 |].
  rewrite Z.add_0_r. split; [exact K | apply balances_grow; reflexivity | apply supplies_grow; reflexivity | apply owners_grow, insert_subseteq, F |].
  intros k a'. rewrite lookup_insert_Some. intros [[_ <-] | [_ X]] Nk; [| congruence]. exists i, t. cbn. auto.
Qed.

Lemma series_mark_conducts (mark : erc721_token_object -> erc721_token_object) T A U N w i t total :
  (forall t, e721_token_name (mark t) = e721_token_name t) -> vault T A U N w -> erc20_books total T A -> U !! i = Some t ->
  ends (on_db (db_modify i (update mark))) w (fun w' _ => exists T' A' U' N', vault T' A' U' N' w' /\ conducted cx (total + 0) T A U N T' A' N') any_exc.
Proof.
  intros Hm W K L. apply ends_bind_ret. eapply series_step; [exact W | exact L | reflexivity | apply Hm |].
  intros w1 W1. eexists _, _, _, _. split; [exact W1 | apply conducted_id, K].
Qed.

Lemma erc721_stopmint_conducts : conducts cx 0 (xmax_erc721_stopmint cx).
Proof.
  intros total T A U N w W K B. apply msg_as_step. intros n D.
  eapply get_erc721_step; [exact W |]. intros i t L En. eapply the_erc721_step; [exact W | exact L |].
  apply require_step. intros _. apply require_step. intros _.
  apply authorization_step. intros w2 E2 Au. apply scope_step. intros w1 E1. apply recipient_step. intros w3 E3.
  apply (vault_same _ _ _ _ w w3) in W; [| congruence].
  eapply series_mark_conducts; [reflexivity | exact W | exact K | exact L].
Qed.

Lemma erc721_revoke_conducts : conducts cx 0 (xmax_erc721_revoke cx).
Proof.
  intros total T A U N w W K B. apply msg_as_step. intros n D.
  eapply get_erc721_step; [exact W |]. intros i t L En. eapply the_erc721_step; [exact W | exact L |].
  apply require_step. intros _.
  eapply series_mark_conducts; [reflexivity | exact W | exact K | exact L].
Qed.

Lemma erc721_transferfrom_conducts : conducts cx 0 (xmax_erc721_transferfrom stack cx).
Proof.
  intros total T A U N w W K B. apply msg_as_step. intros m D.
  apply authorization_step. intros w1 E1 Au. apply scope_step. intros w2 E2. apply scope_step. intros w3 E3.
  apply recipient_step. intros w4 E4. apply recipient_step. intros w5 E5.
  apply (vault_same _ _ _ _ w w5) in W; [| congruence].
  eapply get_erc721_step; [exact W |]. intros i t L En. eapply the_erc721_step; [exact W | exact L |]. apply require_step. intros _.
  apply token_id_step. intros id. apply find_step. intros o. apply require_step. intros _.
  eapply with_id_step; [exact W |]. intros j a La Ena Eia. eapply collectible_step; [exact W | exact La |].
  apply require_step. intros Ow. apply require_step. intros _. apply require_step. intros _.
  apply ends_bind_ret. eapply hand_over_step; [exact W | exact La | reflexivity |]. intros w6 W6.
  eexists _, _, _, _. split; [exact W6 |]. rewrite Z.add_0_r.
  split; [exact K | apply balances_grow; reflexivity | apply supplies_grow; reflexivity | |].
  - intros k x Lx. destruct (decide (k = j)) as [-> | Dk].
    + replace x with a by congruence. eexists. rewrite lookup_insert_eq. split; [reflexivity |]. split_and!; [reflexivity .. |].
      intros _. replace (token_owner a) with (t721_from m) by lia. exact Au.
    + exists x. rewrite lookup_insert_ne by congruence. split; [exact Lx | split_and!; auto; congruence].
  - intros k x. rewrite lookup_insert_Some. intros [[<- _] | [_ X]] Nk; congruence.
Qed.
End Handlers.
