(* ===== verification/ErcProps.v ===== *)
(** ERC20 and ERC721 tokens from the outside: histories of messages keep the
    books of every token, and no message takes what belongs to somebody who
    did not authorize it. *)

From Stdlib Require Import ZArith Lia Bool Ascii String List.
From stdpp Require Import base decidable gmap fin_maps list.
From S2P Require Import Prelude Asset ChainUtils Block Effects UndoIndex UndoIndexThm Objects Tables Context Sums.
From S2P Require Import Authority VotingThm SystemContract Erc SystemContractThm ErcThm.
Import ListNotations.
Local Open Scope Z_scope.

Local Abbreviation database := (list (generic_index row)).

Inductive erc_op :=
| OpAddErc20 | OpAddErc721
| OpMint20 | OpStopMint20 | OpRevoke20 | OpTransferFrom20
| OpMint721 | OpStopMint721 | OpTransferFrom721 | OpRevoke721.

Section Erc.
Context `{SystemCodec} `{ErcCodec} (stack : place -> list Z).

Definition run_erc (cx : call) (op : erc_op) : M world unit :=
  match op with
  | OpAddErc20 => xmax_system_adderc20 cx
  | OpAddErc721 => xmax_system_adderc721 cx
  | OpMint20 => xmax_erc20_mint cx
  | OpStopMint20 => xmax_erc20_stopmint cx
  | OpRevoke20 => xmax_erc20_revoke cx
  | OpTransferFrom20 => xmax_erc20_transferfrom cx
  | OpMint721 => xmax_erc721_mint stack cx
  | OpStopMint721 => xmax_erc721_stopmint cx
  | OpTransferFrom721 => xmax_erc721_transferfrom stack cx
  | OpRevoke721 => xmax_erc721_revoke cx
  end.

(** What a message issues, by its data. *)
Definition issued (cx : call) (op : erc_op) : Z :=
  match op with
  | OpAddErc20 => match as_adderc20 (msg_data (call_msg cx)) with Some c => Asset.amount (a20_total_balance c) | None => 0 end
  | OpMint20 => match as_minterc20 (msg_data (call_msg cx)) with Some m => Asset.amount (mint_amount m) | None => 0 end
  | _ => 0
  end.

(** The amounts in a message are not negative. *)
Definition moderate (cx : call) (op : erc_op) : Prop :=
  0 <= issued cx op /\
  (op = OpTransferFrom20 -> forall m, as_transferfromerc20 (msg_data (call_msg cx)) = Some m -> 0 <= Asset.amount (t20_value m)).

Lemma run_erc_conducts cx op : moderate cx op -> conducts cx (issued cx op) (run_erc cx op).
Proof.
  intros [P V]. destruct op; cbn [run_erc issued] in *.
  - apply adderc20_conducts; [intros c -> ; reflexivity | exact P].
  - apply adderc721_conducts.
  - apply erc20_mint_conducts; [intros c -> ; reflexivity | exact P].
  - apply erc20_stopmint_conducts.
  - apply erc20_revoke_conducts.
  - apply erc20_transferfrom_conducts, V. reflexivity.
  - apply erc721_mint_conducts.
  - apply erc721_stopmint_conducts.
  - apply erc721_transferfrom_conducts.
  - apply erc721_revoke_conducts.
Qed.

(** Messages one after the other; one that throws is rolled back. [None] is undefined behaviour. *)
Fixpoint erc_history (ops : list (call * erc_op)) (db : database) : option database :=
  match ops with
  | [] => Some db
  | (cx, op) :: ops =>
      match run_erc cx op (World db (new_context cx 0)) with
      | Ret w _ => erc_history ops (w_db w)
      | Exc _ _ => erc_history ops db
      | Undef => None
      end
  end.

Definition erc_balanced (total : Z) (db : database) : Prop :=
  valid db /\ erc20_books total (table erc20_token_object db) (table erc20_token_account_object db).

Definition all_issued (ops : list (call * erc_op)) : Z := fold_right (fun o acc => issued o.1 o.2 + acc) 0 ops.

(** One message. *)
Lemma run_erc_ends total cx op db : erc_balanced total db -> moderate cx op -> total + issued cx op < 2 ^ 63 ->
  ends (run_erc cx op) (World db (new_context cx 0))
    (fun w' _ => valid (w_db w') /\
       conducted cx (total + issued cx op) (table erc20_token_object db) (table erc20_token_account_object db)
         (table erc721_token_object db) (table erc721_token_account_object db)
         (table erc20_token_object (w_db w')) (table erc20_token_account_object (w_db w')) (table erc721_token_account_object (w_db w')))
    any_exc.
Proof.
  intros [V K] Mo B.
  pose proof (run_erc_conducts cx op Mo total _ _ _ _ _ (vault_start (World db (new_context cx 0)) V) K B) as E.
  eapply ends_weaken; [exact E | | auto]. intros w' u (T' & A' & U' & N' & W & C). split; [apply W |].
  rewrite (va_issues _ _ _ _ _ W), (va_accounts _ _ _ _ _ W), (va_collectibles _ _ _ _ _ W). exact C.
Qed.

Lemma erc_history_balanced ops : forall total db, erc_balanced total db -> Forall (fun o => moderate o.1 o.2) ops ->
  total + all_issued ops < 2 ^ 63 ->
  exists db' total', erc_history ops db = Some db' /\ total <= total' <= total + all_issued ops /\ erc_balanced total' db'.
Proof.
  induction ops as [| [cx op] ops IH]; intros total db Eb F B; [exists db, total; cbn; auto with lia |].
  apply Forall_cons in F as [F0 F]. cbn [all_issued fold_right fst snd] in *. fold (all_issued ops) in *.
  assert (P : 0 <= all_issued ops).
  { clear -F. induction F as [| [c o] l [G _] _ IHl]; [cbn; lia |]. cbn [all_issued fold_right fst snd] in *. unfold all_issued in IHl. lia. }
  destruct F0 as [P0 V0]. pose proof (run_erc_ends total cx op db Eb (conj P0 V0) ltac:(lia)) as E. cbn [erc_history]. unfold ends in E.
  destruct (run_erc cx op _) as [w [] | w e |]; [| | contradiction].
  - destruct E as [Vw C]. destruct (IH (total + issued cx op) (w_db w)) as (db' & t' & E' & R & Kb); [split; [exact Vw | apply C] | exact F | lia |].
    exists db', t'. split; [exact E' |]. split; [lia | exact Kb].
  - destruct (IH total db Eb F ltac:(lia)) as (db' & t' & E' & R & Kb). exists db', t'. split; [exact E' |]. split; [lia | exact Kb].
Qed.

(** C6: the books of every ERC20 token balance.  After any history of messages
    to the ERC20 and ERC721 contracts and to the system contract that creates
    them, the failed ones being rolled back, no message runs into undefined
    behaviour, no balance is negative, and the supply of each token is the
    sum of the balances of its accounts.  The messages name no negative
    amounts, and what they issue stays below 2^63. *)
Theorem erc20_supply_conserved total ops db :
  erc_balanced total db -> Forall (fun o => moderate o.1 o.2) ops -> total + all_issued ops < 2 ^ 63 ->
  exists db', erc_history ops db = Some db' /\
    (forall id t, table erc20_token_object db' !! id = Some t ->
       total_supply t = supply_of (e20_token_name t) (table erc20_token_account_object db')) /\
    (forall id a, table erc20_token_account_object db' !! id = Some a -> 0 <= balance a <= total + all_issued ops).
Proof.
  intros Eb F B. destruct (erc_history_balanced ops total db Eb F B) as (db' & t' & E & R & [V K]).
  exists db'. split; [exact E |]. split; [apply K |]. intros id a L. pose proof (balance_bound _ _ _ _ _ K L). lia.
Qed.

(** C38: tokens move with the authorization of those who hold them.  When a
    message to an ERC20 or ERC721 contract succeeds, every account whose
    balance went down, the owner of every token whose supply changed, and the
    old owner of every ERC721 token that changed hands are among the declared
    authorizations of the message; a new ERC721 token belongs to the owner of
    its contract, who authorized the message. *)
Theorem tokens_move_by_holders total cx op db w' :
  erc_balanced total db -> moderate cx op -> total + issued cx op < 2 ^ 63 ->
  run_erc cx op (World db (new_context cx 0)) = Ret w' tt ->
  balances_guarded cx (table erc20_token_account_object db) (table erc20_token_account_object (w_db w')) /\
  supplies_guarded cx (table erc20_token_object db) (table erc20_token_object (w_db w')) /\
  owners_guarded cx (table erc721_token_account_object db) (table erc721_token_account_object (w_db w')) /\
  mints_guarded cx (table erc721_token_object db) (table erc721_token_account_object db) (table erc721_token_account_object (w_db w')).
Proof.
  intros Eb Mo B E. pose proof (run_erc_ends total cx op db Eb Mo B) as Es. unfold ends in Es. rewrite E in Es.
  destruct Es as [_ [_ G1 G2 G3 G4]]. auto.
Qed.
End Erc.

(** ** Witnesses *)

#[local] Instance toy_add_codec : SystemCodec := {
  as_transfer _ := None; as_lock _ := None; as_unlock _ := None; as_addaccount _ := None;
  as_adderc20 d := match d with [c; n; a] => Some (AddErc20 c n (Asset a n) 2) | _ => None end;
  as_adderc721 d := match d with [c; n] => Some (AddErc721 c n) | _ => None end;
  as_votebuilder _ := None; as_regbuilder _ := None; as_unregbuilder _ := None; as_regproxy _ := None; as_unregproxy _ := None }.

(** The characters of a token id as numbers; a fixed string is filled up with zeros. *)
Definition toy_fixed (d : list Z) : list ascii := map (fun z => ascii_of_N (Z.to_N z)) d ++ repeat nul (32 - length d).

#[local] Instance toy_erc_codec : ErcCodec := {
  as_minterc20 d := match d with [n; a] => Some (MintErc20 n (Asset a n)) | _ => None end;
  as_stopminterc20 d := match d with [n] => Some n | _ => None end;
  as_revokeerc20 d := match d with [n] => Some n | _ => None end;
  as_transferfromerc20 d := match d with [n; f; t; a] => Some (TransferErc20 n f t (Asset a n)) | _ => None end;
  as_minterc721 d := match d with n :: i => Some (MintErc721 n (toy_fixed i)) | _ => None end;
  as_stopminterc721 d := match d with [n] => Some n | _ => None end;
  as_transferfromerc721 d := match d with n :: f :: t :: i => Some (TransferErc721 n (toy_fixed i) f t) | _ => None end;
  as_revokeerc721 d := match d with [n] => Some n | _ => None end }.

Definition toy_erc (auth : Z) (op : erc_op) (data : list Z) : call * erc_op :=
  (Call (Transaction 0 0 0 [7; 8] [] [] 0 0 0) (Message 1 2 [AccountAuth auth 0] data) 0 77 78, op).

(** The symbols "abc" and "art". *)
Definition toy_abc : Z := 97 + 256 * (98 + 256 * 99).
Definition toy_art : Z := 97 + 256 * (114 + 256 * 116).

Definition zero_stack (p : place) : list Z := repeat 0 32.

Definition toy_erc_ops : list (call * erc_op) := [
  toy_erc 7 OpAddErc20 [7; toy_abc; 100]; toy_erc 7 OpMint20 [toy_abc; 20];
  toy_erc 7 OpTransferFrom20 [toy_abc; 7; 8; 30]; toy_erc 8 OpTransferFrom20 [toy_abc; 8; 7; 30];
  toy_erc 7 OpTransferFrom20 [toy_abc; 8; 7; 1]; toy_erc 8 OpTransferFrom20 [toy_abc; 8; 7; 9];
  toy_erc 7 OpStopMint20 [toy_abc]; toy_erc 7 OpMint20 [toy_abc; 1];
  toy_erc 7 OpAddErc721 [7; toy_art]; toy_erc 7 OpMint721 (toy_art :: [49; 102]);
  toy_erc 7 OpTransferFrom721 (toy_art :: 7 :: 8 :: [49; 102]); toy_erc 7 OpTransferFrom721 (toy_art :: 8 :: 7 :: [49; 102])].

Definition erc_view (db : database) : list (Z * Z) * list (sha256 * Z) :=
  (map (fun kv => (e20a_owner kv.2, balance kv.2)) (map_to_list (table erc20_token_account_object db)),
   map (fun kv => (token_id kv.2, token_owner kv.2)) (map_to_list (table erc721_token_account_object db))).

(** The holder cannot spend all of the 30, others cannot spend for it. *)
Example toy_erc_result : option_map erc_view (erc_history zero_stack toy_erc_ops empty_db) =
  Some ([(8, 21); (7, 99)], [(Sha 31 0 0 0, 8)]).
Proof. vm_compute. reflexivity. Qed.

Lemma empty_erc_balanced : erc_balanced 0 empty_db.
Proof.
  split; [apply empty_valid |]. rewrite !empty_table.
  split; [intros ? ? E | intros ? ? E |]; [rewrite lookup_empty in E; discriminate .. | apply msum_empty].
Qed.

Lemma toy_erc_moderate : Forall (fun o => moderate o.1 o.2) toy_erc_ops.
Proof.
  repeat apply Forall_cons_2; [.. | constructor]; (split; [vm_compute; discriminate |]);
    intros E m D; cbn in D; try discriminate; injection D as <-; vm_compute; discriminate.
Qed.

Lemma erc20_supply_conserved_witness : exists db', erc_history zero_stack toy_erc_ops empty_db = Some db' /\
  forall id t, table erc20_token_object db' !! id = Some t ->
    total_supply t = supply_of (e20_token_name t) (table erc20_token_account_object db').
Proof.
  destruct (erc20_supply_conserved zero_stack 0 toy_erc_ops empty_db empty_erc_balanced toy_erc_moderate ltac:(vm_compute; reflexivity))
    as (db' & E & Sp & _). exists db'. split; [exact E | exact Sp].
Defined.

Lemma tokens_move_by_holders_witness :
  exists db w', erc_history zero_stack (take 3 toy_erc_ops) empty_db = Some db /\
    run_erc zero_stack (fst (toy_erc 8 OpTransferFrom20 [toy_abc; 8; 7; 9])) OpTransferFrom20
      (World db (new_context (fst (toy_erc 8 OpTransferFrom20 [toy_abc; 8; 7; 9])) 0)) = Ret w' tt /\
    balances_guarded (fst (toy_erc 8 OpTransferFrom20 [toy_abc; 8; 7; 9]))
      (table erc20_token_account_object db) (table erc20_token_account_object (w_db w')).
Proof.
  assert (F : Forall (fun o => moderate o.1 o.2) (take 3 toy_erc_ops)) by (apply Forall_take, toy_erc_moderate).
  destruct (erc_history_balanced zero_stack (take 3 toy_erc_ops) 0 empty_db empty_erc_balanced F ltac:(vm_compute; reflexivity))
    as (db & total & E0 & R & Eb). exists db. pose proof E0 as E.
  assert (T : total <= 120) by (eapply Z.le_trans; [apply R | vm_compute; discriminate]).
  set (cx := fst (toy_erc 8 OpTransferFrom20 [toy_abc; 8; 7; 9])).
  assert (Mo : moderate cx OpTransferFrom20).
  { split; [vm_compute; discriminate |]. intros _ m D. cbn in D. injection D as <-. vm_compute. discriminate. }
  assert (Rn : option_map (fun db => returns (run_erc zero_stack cx OpTransferFrom20 (World db (new_context cx 0))))
                 (erc_history zero_stack (take 3 toy_erc_ops) empty_db) = Some true) by (vm_compute; reflexivity).
  apply (mapped_some _ _ _ _ Rn), returns_ret in E as (w' & [] & Er).
  exists w'. split; [exact E0 |]. split; [exact Er |].
  apply (tokens_move_by_holders zero_stack total cx OpTransferFrom20 db w' Eb Mo); [change (issued cx OpTransferFrom20) with 0; lia | exact Er].
Defined.

(** The second half of an id is whatever the stack held: the check of mint
    misses the id that is already there, and the same digits name two tokens. *)
Definition dirty_stack (p : place) : list Z :=
  match p with checked_mint => repeat 1 32 | created_mint => repeat 2 32 | transferred => repeat 0 32 end.

Example erc721_ids_depend_on_the_stack :
  option_map (fun db => map fst (snd (erc_view db)))
    (erc_history dirty_stack [toy_erc 7 OpAddErc721 [7; toy_art]; toy_erc 7 OpMint721 (toy_art :: [49; 102]);
       toy_erc 7 OpTransferFrom721 (toy_art :: 7 :: 8 :: [49; 102])] empty_db)
  = Some [Sha 144680345676153375 144680345676153346 144680345676153346 144680345676153346].
Proof. vm_compute. reflexivity. Qed.

(** A negative amount drives the balance into overflow, which is undefined. *)
Example negative_transfer_undefined :
  erc_history zero_stack [toy_erc 7 OpAddErc20 [7; toy_abc; 100]; toy_erc 7 OpTransferFrom20 [toy_abc; 7; 8; - 2 ^ 63]] empty_db = None.
Proof. vm_compute. reflexivity. Qed.
