(* ===== verification/Records.v ===== *)
(** The records contracts keep: the templates store_record to
    upper_bound_record of message_context_xmax
    (blockchain/chain/include/message_context_xmax.hpp), with the helpers that
    are specialised for each class of records (include/record_functions.hpp)
    and the classes themselves (include/objects/key_value_object.hpp).

    A class of records is an instance of [RecordClass], with the members of
    the helpers find_tuple, key_helper and next_record_tuple; a [scope_index]
    is one of its indices, by_scope_primary or by_scope_secondary, with those of
    load_record_tuple, load_record_compare, front_record_tuple,
    lower_bound_tuple and upper_bound_tuple.  An index is the list of its
    objects in the order of its composite key; an iterator splits the list.

    A function that reads returns the keys and the bytes it copies, or None
    where the code returns -1; the length it returns is the number of these
    bytes.  key64x64x64_value_object, which no function of the machines uses,
    and key128x128x128_value_object, which has no index in the database, are
    left out. *)

From Stdlib Require Import ZArith Lia Bool String List.
From stdpp Require Import base decidable gmap list sorting.
From S2P Require Import Prelude ChainUtils Block Effects UndoIndex Objects Tables Context.
Import ListNotations.
Local Open Scope Z_scope.

Local Abbreviation database := (list (generic_index row)).

(** ** Composite keys *)

(** A member of a key: a number, or a C string that strcmp compares. *)
Inductive part := Num (z : Z) | Text (s : list Z).

Fixpoint strcmp (a b : list Z) : comparison :=
  match a, b with
  | [], [] => Eq
  | [], y :: _ => if y =? 0 then Eq else Lt
  | x :: _, [] => if x =? 0 then Eq else Gt
  | x :: a, y :: b =>
      if x =? 0 then (if y =? 0 then Eq else Lt)
      else if y =? 0 then Gt
      else match Z.compare x y with Eq => strcmp a b | c => c end
  end.

Definition part_compare (a b : part) : comparison :=
  match a, b with
  | Num x, Num y => Z.compare x y
  | Text s, Text t => strcmp s t
  | Num _, Text _ => Lt
  | Text _, Num _ => Gt
  end.

(** Of tuples of different lengths, the members both have. *)
Fixpoint composite (a b : list part) : comparison :=
  match a, b with
  | x :: a, y :: b => match part_compare x y with Eq => composite a b | c => c end
  | _, _ => Eq
  end.

Section Index.
Context {R : Type} (key : R -> list part).

Definition ordered (a b : Z * R) : Prop := composite (key a.2) (key b.2) <> Gt.

#[local] Instance ordered_dec : RelDecision ordered.
Proof. intros a b. unfold ordered. destruct (composite _ _); [left; discriminate .. | right; auto]. Defined.

Definition index_list (m : gmap Z R) : list (Z * R) := merge_sort ordered (map_to_list m).

(** The elements before an iterator, the last one first, and those from it on. *)
Fixpoint partition_point (before : Z * R -> bool) (passed l : list (Z * R)) : list (Z * R) * list (Z * R) :=
  match l with
  | [] => (passed, [])
  | x :: l => if before x then partition_point before (x :: passed) l else (passed, x :: l)
  end.

Definition lower_bound (tuple : list part) (l : list (Z * R)) : list (Z * R) * list (Z * R) :=
  partition_point (fun x => match composite (key x.2) tuple with Lt => true | _ => false end) [] l.
Definition upper_bound (tuple : list part) (l : list (Z * R)) : list (Z * R) * list (Z * R) :=
  partition_point (fun x => match composite tuple (key x.2) with Lt => false | _ => true end) [] l.

(** project: the element with the same id. *)
Definition project (id : Z) (l : list (Z * R)) : list (Z * R) * list (Z * R) :=
  partition_point (fun x => negb (x.1 =? id)) [] l.
End Index.

(** ** Classes of records *)

Class RecordClass (R K : Type) `{Object R} := {
  rec_scope : R -> Z;
  rec_code : R -> Z;
  rec_table : R -> Z;
  rec_value : R -> list Z;
  make_record : Z -> Z -> Z -> K -> list Z -> R;
  set_value : list Z -> R -> R;
  rec_keys : R -> K;
  compare_keys : R -> K -> bool;
  by_primary : R -> list part;
  find_tuple : Z -> Z -> Z -> K -> list part;
  next_record_tuple : Z -> Z -> Z -> K -> list part }.

Record scope_index (R K : Type) := ScopeIndex {
  index_key : R -> list part;
  load_record_tuple : Z -> Z -> Z -> K -> list part;
  load_record_compare : R -> K -> option bool;
  front_record_tuple : Z -> Z -> Z -> list part;
  lower_bound_tuple : Z -> Z -> Z -> K -> list part;
  upper_bound_tuple : Z -> Z -> Z -> K -> list part }.
Arguments ScopeIndex {R K}.
Arguments index_key {R K}.
Arguments load_record_tuple {R K}.
Arguments load_record_compare {R K}.
Arguments front_record_tuple {R K}.
Arguments lower_bound_tuple {R K}.
Arguments upper_bound_tuple {R K}.

Section Records.
Context {R K : Type} `{RecordClass R K} (cx : call).

(** The object find returns for a full tuple of the primary index. *)
Definition find_record (tuple : list part) : M database (option Z) :=
  db_find (fun r => match composite (by_primary r) tuple with Eq => true | _ => false end).

Definition store_record (scope code table : Z) (keys : K) (value : list Z) : M world Z :=
  require_scope cx scope ;;
  obj ← on_db (find_record (find_tuple scope code table keys));
  match obj with
  | Some id =>
      o ← on_db (deref id);
      let previous_size := s32 (Z.of_nat (length (rec_value o))) in
      on_db (db_modify id (update (set_value value))) ;;
      mret previous_size
  | None =>
      on_db (db_create (fun _ => make_record scope code table keys value)) ;;
      mret (-1)
  end.

(** memcpy over the begin of the value, which grows when it is shorter. *)
Definition overwrite_value (value : list Z) (o : R) : R := set_value (value ++ drop (length value) (rec_value o)) o.

Definition update_record (scope code table : Z) (keys : K) (value : list Z) : M world Z :=
  require_scope cx scope ;;
  obj ← on_db (find_record (find_tuple scope code table keys));
  match obj with
  | None => mret (-1)
  | Some id =>
      o ← on_db (deref id);
      let previous_size := s32 (Z.of_nat (length (rec_value o))) in
      on_db (db_modify id (update (overwrite_value value))) ;;
      mret previous_size
  end.

Definition remove_record (scope code table : Z) (keys : K) : M world Z :=
  require_scope cx scope ;;
  obj ← on_db (find_record (find_tuple scope code table keys));
  match obj with
  | Some id =>
      o ← on_db (deref id);
      let previous_size := s32 (Z.of_nat (length (rec_value o))) in
      on_db (db_remove R id) ;;
      mret previous_size
  | None => mret (-1)
  end.

Definition in_table (r : R) (scope code table : Z) : bool :=
  (rec_scope r =? scope) && (rec_code r =? code) && (rec_table r =? table).

(** What is copied to the memory of the caller. *)
Definition found (r : R) (valuelen : nat) : option (K * list Z) := Some (rec_keys r, take valuelen (rec_value r)).

Definition read_index (key : R -> list part) : M world (list (Z * R)) := gets (fun w => index_list key (table R (w_db w))).

Section Reading.
Context (ix : scope_index R K) (scope code table_name : Z).

(** The record at an iterator, when it is one of the table. *)
Definition record_at (itr : list (Z * R)) (valuelen : nat) : option (K * list Z) :=
  match itr with
  | [] => None
  | (_, r) :: _ => if in_table r scope code table_name then found r valuelen else None
  end.

Definition load_record (keys : K) (valuelen : nat) : M world (option (K * list Z)) :=
  require_scope cx scope ;;
  idx ← read_index (index_key ix);
  match (lower_bound (index_key ix) (load_record_tuple ix scope code table_name keys) idx).2 with
  | [] => mret None
  | (_, r) :: _ =>
      if in_table r scope code table_name then
        match load_record_compare ix r keys with
        | None => undefined
        | Some true => mret (found r valuelen)
        | Some false => mret None
        end
      else mret None
  end.

Definition front_record (valuelen : nat) : M world (option (K * list Z)) :=
  require_scope cx scope ;;
  idx ← read_index (index_key ix);
  mret (record_at (lower_bound (index_key ix) (front_record_tuple ix scope code table_name) idx).2 valuelen).

(** uint64_t(table) keeps the low half of the name. *)
Definition back_record (valuelen : nat) : M world (option (K * list Z)) :=
  require_scope cx scope ;;
  idx ← read_index (index_key ix);
  mret (record_at (lower_bound (index_key ix) [Num scope; Num code; Num (u64 (u64 table_name + 1))] idx).1 valuelen).

(** The iterator of the object with these keys; the tests after it look at the
    object again. *)
Definition keys_position (keys : K) : M world (option (list (Z * R) * list (Z * R))) :=
  require_scope cx scope ;;
  pitr ← on_db (find_record (next_record_tuple scope code table_name keys));
  match pitr with
  | None => mret None
  | Some id =>
      idx ← read_index (index_key ix);
      mret (Some (project id idx))
  end.

Definition next_record (keys : K) (valuelen : nat) : M world (option (K * list Z)) :=
  itr ← keys_position keys;
  match itr with
  | Some (_, (_, r) :: rest) =>
      if in_table r scope code table_name && compare_keys r keys then mret (record_at rest valuelen) else mret None
  | _ => mret None
  end.

Definition previous_record (keys : K) (valuelen : nat) : M world (option (K * list Z)) :=
  itr ← keys_position keys;
  match itr with
  | Some (before, (_, r) :: _) =>
      if in_table r scope code table_name && compare_keys r keys then mret (record_at before valuelen) else mret None
  | _ => mret None
  end.

Definition lower_bound_record (keys : K) (valuelen : nat) : M world (option (K * list Z)) :=
  require_scope cx scope ;;
  idx ← read_index (index_key ix);
  mret (record_at (lower_bound (index_key ix) (lower_bound_tuple ix scope code table_name keys) idx).2 valuelen).

Definition upper_bound_record (keys : K) (valuelen : nat) : M world (option (K * list Z)) :=
  require_scope cx scope ;;
  idx ← read_index (index_key ix);
  mret (record_at (upper_bound (index_key ix) (upper_bound_tuple ix scope code table_name keys) idx).2 valuelen).
End Reading.
End Records.

(** ** The classes and their indices *)

Definition uint128_max : Z := 2 ^ 128 - 1.
Definition table_parts (scope code table : Z) : list part := [Num scope; Num code; Num table].

#[export] Instance key_value_record : RecordClass key_value_object Z := {
  rec_scope := kv_scope; rec_code := kv_code; rec_table := kv_table; rec_value := kv_value;
  make_record := KeyValue;
  set_value v o := KeyValue (kv_scope o) (kv_code o) (kv_table o) (kv_primary_key o) v;
  rec_keys := kv_primary_key;
  compare_keys o keys := kv_primary_key o =? keys;
  by_primary o := table_parts (kv_scope o) (kv_code o) (kv_table o) ++ [Num (kv_primary_key o)];
  find_tuple s c t keys := table_parts s c t ++ [Num keys];
  next_record_tuple s c t keys := table_parts s c t ++ [Num keys] }.

Definition key_value_primary : scope_index key_value_object Z := ScopeIndex
  by_primary
  (fun s c t keys => table_parts s c t ++ [Num keys])
  (fun o keys => Some (kv_primary_key o =? keys))
  (fun s c t => table_parts s c t ++ [Num 0])
  (fun s c t keys => table_parts s c t ++ [Num keys])
  (fun s c t keys => table_parts s c t ++ [Num keys; Num uint128_max; Num uint128_max]).

(** A std::string has its characters and its size, which key_helper keeps; the
    tuples and the index take the C string at its data, and compare, of
    std::string, takes the one of the object. *)
#[export] Instance keystr_record : RecordClass keystr_value_object (list Z) := {
  rec_scope := ks_scope; rec_code := ks_code; rec_table := ks_table; rec_value := ks_value;
  make_record := KeyStr;
  set_value v o := KeyStr (ks_scope o) (ks_code o) (ks_table o) (ks_primary_key o) v;
  rec_keys := ks_primary_key;
  compare_keys o keys := bool_decide (keys = c_string (ks_primary_key o));
  by_primary o := table_parts (ks_scope o) (ks_code o) (ks_table o) ++ [Text (ks_primary_key o)];
  find_tuple s c t keys := table_parts s c t ++ [Text keys];
  next_record_tuple s c t keys := table_parts s c t ++ [Text keys] }.

(** !memcmp of the bytes of [keys] with those at the start of [data], which
    end with the zero of the string; to read past it is undefined. *)
Fixpoint memcmp_equal (data keys : list Z) : option bool :=
  match keys, data with
  | [], _ => Some true
  | _ :: _, [] => None
  | y :: keys, x :: data => if x =? y then memcmp_equal data keys else Some false
  end.

Definition keystr_primary : scope_index keystr_value_object (list Z) := ScopeIndex
  by_primary
  (fun s c t keys => table_parts s c t ++ [Text keys])
  (fun o keys => memcmp_equal (ks_primary_key o ++ [0]) keys)
  (fun s c t => table_parts s c t)
  (fun s c t keys => table_parts s c t ++ [Text keys])
  (fun s c t keys => table_parts s c t ++ [Text keys]).

#[export] Instance key128x128_record : RecordClass key128x128_value_object (Z * Z) := {
  rec_scope := kp_scope; rec_code := kp_code; rec_table := kp_table; rec_value := kp_value;
  make_record s c t keys v := KeyPair s c t keys.1 keys.2 v;
  set_value v o := KeyPair (kp_scope o) (kp_code o) (kp_table o) (kp_primary_key o) (kp_secondary_key o) v;
  rec_keys o := (kp_primary_key o, kp_secondary_key o);
  compare_keys o keys := (kp_primary_key o =? keys.1) && (kp_secondary_key o =? keys.2);
  by_primary o := table_parts (kp_scope o) (kp_code o) (kp_table o) ++ [Num (kp_primary_key o); Num (kp_secondary_key o)];
  find_tuple s c t keys := table_parts s c t ++ [Num keys.1; Num keys.2];
  next_record_tuple s c t keys := table_parts s c t ++ [Num keys.1; Num keys.2] }.

Definition key128x128_primary : scope_index key128x128_value_object (Z * Z) := ScopeIndex
  by_primary
  (fun s c t keys => table_parts s c t ++ [Num keys.1; Num 0])
  (fun o keys => Some (kp_primary_key o =? keys.1))
  (fun s c t => table_parts s c t ++ [Num 0; Num 0; Num 0])
  (fun s c t keys => table_parts s c t ++ [Num keys.1; Num 0; Num 0])
  (fun s c t keys => table_parts s c t ++ [Num keys.1; Num uint128_max; Num uint128_max]).

Definition key128x128_secondary : scope_index key128x128_value_object (Z * Z) := ScopeIndex
  (fun o => table_parts (kp_scope o) (kp_code o) (kp_table o) ++ [Num (kp_secondary_key o); Num (kp_primary_key o)])
  (fun s c t keys => table_parts s c t ++ [Num keys.2; Num 0])
  (fun o keys => Some (kp_secondary_key o =? keys.2))
  (fun s c t => table_parts s c t ++ [Num 0; Num 0; Num 0])
  (fun s c t keys => table_parts s c t ++ [Num keys.2; Num 0])
  (fun s c t keys => table_parts s c t ++ [Num keys.2; Num uint128_max]).
