(* ===== verification/RecordsThm.v ===== *)
(** The indices of the records of contracts: composite keys are a preorder,
    the records of a table lie together in an index, and the operations on
    them act on the table as on a finite map. *)

From Stdlib Require Import ZArith Lia Bool String List Sorting.Sorted.
From stdpp Require Import base decidable gmap list sorting.
From S2P Require Import Prelude Block Effects UndoIndex UndoIndexThm Objects Tables Context Records.
Import ListNotations.
Local Open Scope Z_scope.

Local Abbreviation database := (list (generic_index row)).

(** ** Comparisons *)

Fixpoint lex (a b : list Z) : comparison :=
  match a, b with
  | [], [] => Eq
  | [], _ => Lt
  | _, [] => Gt
  | x :: a, y :: b => match Z.compare x y with Eq => lex a b | c => c end
  end.

Lemma strcmp_lex a b : strcmp a b = lex (c_string a) (c_string b).
Proof.
  revert b. induction a as [| x a IH]; intros [| y b]; cbn; try reflexivity.
  - destruct (y =? 0); reflexivity.
  - destruct (x =? 0); reflexivity.
  - destruct (x =? 0), (y =? 0); try reflexivity. cbn. rewrite IH. reflexivity.
Qed.

Lemma lex_eq a b : lex a b = Eq <-> a = b.
Proof.
  revert b. induction a as [| x a IH]; intros [| y b]; cbn; try (split; congruence).
  destruct (Z.compare_spec x y) as [-> | L | L]; [rewrite IH; split; congruence | |]; (split; [discriminate | intros [= -> ->]; lia]).
Qed.

Lemma lex_flip a b : lex b a = CompOpp (lex a b).
Proof.
  revert b. induction a as [| x a IH]; intros [| y b]; cbn; try reflexivity.
  rewrite (Z.compare_antisym x y). destruct (Z.compare x y); cbn; auto.
Qed.

Lemma lex_trans a b c : lex a b = Lt -> lex b c = Lt -> lex a c = Lt.
Proof.
  revert b c. induction a as [| x a IH]; intros [| y b] [| z c]; cbn; try congruence.
  destruct (Z.compare_spec x y), (Z.compare_spec y z), (Z.compare_spec x z); try discriminate; try lia; eauto.
Qed.

(** What a comparison sees of a member. *)
Definition canon_part (p : part) : part := match p with Num z => Num z | Text s => Text (c_string s) end.

Lemma part_eq a b : part_compare a b = Eq <-> canon_part a = canon_part b.
Proof.
  destruct a as [x | s], b as [y | t]; cbn; try (split; discriminate).
  - rewrite Z.compare_eq_iff. split; congruence.
  - rewrite strcmp_lex, lex_eq. split; congruence.
Qed.

Lemma part_flip a b : part_compare b a = CompOpp (part_compare a b).
Proof. destruct a, b; cbn; try reflexivity; [apply Z.compare_antisym | rewrite !strcmp_lex; apply lex_flip]. Qed.

Lemma part_trans a b c : part_compare a b = Lt -> part_compare b c = Lt -> part_compare a c = Lt.
Proof.
  destruct a, b, c; cbn; try congruence; [rewrite !Z.compare_lt_iff; lia | rewrite !strcmp_lex; apply lex_trans].
Qed.

(** Equal members compare alike. *)
Lemma part_same a b c : part_compare a b = Eq -> part_compare a c = part_compare b c.
Proof.
  rewrite part_eq. destruct a, b; try discriminate; intros [= E]; [subst; reflexivity |].
  destruct c; cbn; [reflexivity | rewrite !strcmp_lex, E; reflexivity].
Qed.

Lemma composite_flip a b : composite b a = CompOpp (composite a b).
Proof.
  revert b. induction a as [| x a IH]; intros [| y b]; cbn; try reflexivity.
  rewrite (part_flip x y). destruct (part_compare x y); cbn; auto.
Qed.

Lemma composite_eq a b : length a = length b -> composite a b = Eq <-> map canon_part a = map canon_part b.
Proof.
  revert b. induction a as [| x a IH]; intros [| y b]; cbn; try discriminate; [split; reflexivity |]. intros [= L].
  destruct (part_compare x y) eqn:P.
  - apply part_eq in P. rewrite (IH _ L), P. split; congruence.
  - split; [discriminate |]. intros [= E _]. apply part_eq in E. congruence.
  - split; [discriminate |]. intros [= E _]. apply part_eq in E. congruence.
Qed.

(** Nothing that is not above [y] is above what [y] is below; [t] may be short. *)
Lemma composite_below x y t : length x = length y -> composite x y <> Gt ->
  (composite y t = Lt -> composite x t = Lt) /\ (composite y t <> Gt -> composite x t <> Gt).
Proof.
  revert y t. induction x as [| a x IH]; intros [| b y] t; cbn; try discriminate; [tauto |]. intros [= L] O.
  destruct t as [| c t]; [split; congruence |]. destruct (part_compare a b) eqn:P; [| | congruence].
  - rewrite (part_same _ _ c P). destruct (part_compare b c); [apply IH; assumption | auto | auto].
  - destruct (part_compare b c) eqn:Q; [| | split; congruence].
    + assert (part_compare a c = Lt) as ->; [| split; congruence].
      pose proof (part_flip c b) as F. rewrite Q in F. rewrite part_flip, (part_same c b) by (destruct (part_compare c b); cbn in F; congruence).
      rewrite part_flip, P. reflexivity.
    + rewrite (part_trans _ _ _ P Q). split; congruence.
Qed.

(** ** Sorted lists *)

Section Lists.
Context {A : Type} (Rel : A -> A -> Prop).

Lemma filter_all (p : A -> bool) l : Forall (fun x => p x = true) l -> List.filter p l = l.
Proof using. induction 1 as [| x l P F IH]; cbn; [| rewrite P, IH]; reflexivity. Qed.

Lemma filter_none (p : A -> bool) l : Forall (fun x => p x = false) l -> List.filter p l = [].
Proof using. induction 1 as [| x l P F IH]; cbn; [| rewrite P, IH]; reflexivity. Qed.

Lemma sorted_filter (p : A -> bool) l : StronglySorted Rel l -> StronglySorted Rel (List.filter p l).
Proof using.
  induction 1 as [| x l S IH F]; cbn; [constructor |]. destruct (p x); [| exact IH]. constructor; [exact IH |].
  apply List.Forall_forall. intros y I. apply filter_In in I as [I _]. exact (proj1 (List.Forall_forall _ _) F y I).
Qed.

(** A test that holds below every element it holds of cuts a sorted list in two. *)
Lemma sorted_split (p : A -> bool) l : StronglySorted Rel l -> (forall x y, Rel x y -> p y = true -> p x = true) ->
  l = List.filter p l ++ List.filter (fun x => negb (p x)) l.
Proof using.
  intros S D. induction S as [| x l S IH F]; cbn; [reflexivity |]. destruct (p x) eqn:P; cbn; [congruence |].
  assert (N : Forall (fun y => p y = false) l).
  { eapply Forall_impl; [exact F |]. intros y R. apply not_true_is_false. intros Y. rewrite (D x y R Y) in P. discriminate. }
  rewrite (filter_none p), filter_all; [reflexivity | | exact N]. eapply Forall_impl; [exact N |]. cbn. intros y ->. reflexivity.
Qed.

End Lists.

Lemma partition_point_app {R} (before : Z * R -> bool) passed l1 l2 :
  Forall (fun x => before x = true) l1 -> match l2 with x :: _ => before x = false | [] => True end ->
  partition_point before passed (l1 ++ l2) = (rev l1 ++ passed, l2).
Proof.
  intros F. revert passed. induction F as [| x l1 B F IH]; intros passed H2; cbn.
  - destruct l2 as [| x l2]; cbn; [reflexivity | rewrite H2; reflexivity].
  - rewrite B, IH by exact H2. rewrite <- app_assoc. reflexivity.
Qed.

(** ** What the theorems ask of a class of records and of an index *)

Definition place {R K} `{RecordClass R K} (scope code table : Z) (r : R) : comparison :=
  composite (table_parts (rec_scope r) (rec_code r) (rec_table r)) (table_parts scope code table).

Class RecordLaws (R K : Type) `{RecordClass R K} := {
  canon : K -> K;
  well_keyed : R -> Prop;
  find_spec r s c t k : composite (by_primary r) (find_tuple s c t k) = Eq <->
    (rec_scope r, rec_code r, rec_table r, canon (rec_keys r)) = (s, c, t, canon k);
  next_is_find s c t k : next_record_tuple s c t k = find_tuple s c t k;
  clash_spec r r' : clash (inj r) (inj r') = true <->
    (rec_scope r, rec_code r, rec_table r, canon (rec_keys r)) = (rec_scope r', rec_code r', rec_table r', canon (rec_keys r'));
  make_record_spec s c t k v : let r := make_record s c t k v in
    rec_scope r = s /\ rec_code r = c /\ rec_table r = t /\ rec_keys r = k /\ rec_value r = v;
  set_value_spec v r : let r' := set_value v r in
    (rec_scope r', rec_code r', rec_table r', rec_keys r') = (rec_scope r, rec_code r, rec_table r, rec_keys r) /\
    rec_value r' = v /\ same_keys (inj r) (inj r');
  compare_self r : well_keyed r -> compare_keys r (rec_keys r) = true }.

Class IndexLaws {R K : Type} `{RecordLaws R K} (ix : scope_index R K) := {
  index_rest : R -> list part;
  front_rest : list part;
  index_shape r : index_key ix r = table_parts (rec_scope r) (rec_code r) (rec_table r) ++ index_rest r;
  index_width r r' : length (index_rest r) = length (index_rest r');
  front_shape s c t : front_record_tuple ix s c t = table_parts s c t ++ front_rest;
  front_first r : well_keyed r -> composite (index_rest r) front_rest <> Lt }.

(** Under which key a record is found. *)
Definition rec_id {R K} `{RecordLaws R K} (r : R) : Z * Z * Z * K := (rec_scope r, rec_code r, rec_table r, canon (rec_keys r)).

Lemma c_string_idem s : c_string (c_string s) = c_string s.
Proof. induction s as [| x s IH]; cbn; [reflexivity |]. destruct (x =? 0) eqn:Z; cbn; [| rewrite Z, IH]; reflexivity. Qed.

#[export, refine] Instance key_value_laws : RecordLaws key_value_object Z := {
  canon k := k; well_keyed r := 0 <= kv_primary_key r }.
Proof.
  - intros r s c t k. rewrite composite_eq by reflexivity. cbn. split; congruence.
  - reflexivity.
  - intros r r'. cbn. rewrite !andb_true_iff, !Z.eqb_eq. split; [intros [[[-> ->] ->] ->]; reflexivity | intros [= -> -> -> ->]; auto].
  - cbn. auto.
  - intros v r. cbn. repeat split.
  - intros r _. apply Z.eqb_refl.
Defined.

#[export, refine] Instance keystr_laws : RecordLaws keystr_value_object (list Z) := {
  canon := c_string; well_keyed r := c_string (ks_primary_key r) = ks_primary_key r }.
Proof.
  - intros r s c t k. rewrite composite_eq by reflexivity. cbn. split; congruence.
  - reflexivity.
  - intros r r'. cbn. unfold c_string_eqb. rewrite !andb_true_iff, !Z.eqb_eq, bool_decide_eq_true.
    split; [intros [[[-> ->] ->] ->]; reflexivity | intros [= -> -> -> ->]; auto].
  - cbn. auto.
  - intros v r. cbn. repeat split.
  - intros r E. apply bool_decide_eq_true. exact (eq_sym E).
Defined.

#[export, refine] Instance key128x128_laws : RecordLaws key128x128_value_object (Z * Z) := {
  canon k := k; well_keyed r := 0 <= kp_primary_key r /\ 0 <= kp_secondary_key r }.
Proof.
  - intros r s c t [k1 k2]. rewrite composite_eq by reflexivity. cbn. split; congruence.
  - reflexivity.
  - intros r r'. cbn. rewrite !andb_true_iff, !Z.eqb_eq. split; [intros [[[[-> ->] ->] ->] ->]; reflexivity | intros [= -> -> -> -> ->]; auto].
  - intros s c t [k1 k2] v. cbn. auto.
  - intros v r. cbn. repeat split.
  - intros r _. cbn. rewrite !Z.eqb_refl. reflexivity.
Defined.

Lemma nonneg_parts (l zeros : list Z) : Forall (fun z => 0 <= z) l -> Forall (fun z => z = 0) zeros ->
  composite (map Num l) (map Num zeros) <> Lt.
Proof.
  intros F. revert zeros. induction F as [| x l N F IH]; intros zeros E; cbn; [discriminate |].
  destruct E as [| y zeros -> E]; cbn; [discriminate |]. destruct (Z.compare_spec x 0); [apply IH, E | lia | discriminate].
Qed.

#[export, refine] Instance key_value_primary_laws : IndexLaws key_value_primary := {
  index_rest r := map Num [kv_primary_key r]; front_rest := map Num [0] }.
Proof. all: try reflexivity. intros r W. apply nonneg_parts; repeat constructor. exact W. Defined.

#[export, refine] Instance keystr_primary_laws : IndexLaws keystr_primary := {
  index_rest r := [Text (ks_primary_key r)]; front_rest := [] }.
Proof. all: try reflexivity. discriminate. Defined.

#[export, refine] Instance key128x128_primary_laws : IndexLaws key128x128_primary := {
  index_rest r := map Num [kp_primary_key r; kp_secondary_key r]; front_rest := map Num [0; 0; 0] }.
Proof. all: try reflexivity. intros r [W1 W2]. apply nonneg_parts; repeat constructor; assumption. Defined.

#[export, refine] Instance key128x128_secondary_laws : IndexLaws key128x128_secondary := {
  index_rest r := map Num [kp_secondary_key r; kp_primary_key r]; front_rest := map Num [0; 0; 0] }.
Proof. all: try reflexivity. intros r [W1 W2]. apply nonneg_parts; repeat constructor; assumption. Defined.

(** ** An index in order *)

Lemma filter_both {A} (p q : A -> bool) l : List.filter p (List.filter q l) = List.filter (fun x => q x && p x) l.
Proof. induction l as [| x l IH]; cbn; [reflexivity |]. destruct (q x); cbn; [destruct (p x) |]; rewrite IH; reflexivity. Qed.

Lemma filter_Forall {A} (p : A -> bool) l : Forall (fun x => p x = true) (List.filter p l).
Proof. apply List.Forall_forall. intros x I. apply filter_In in I. apply I. Qed.

Section Ordered.
Context {R K : Type} `{RecordLaws R K} (ix : scope_index R K) `{!IndexLaws ix}.
Implicit Types (m : gmap Z R) (x y : Z * R).

Abbreviation ordered_by := (ordered (index_key ix)).
Abbreviation index := (index_list (index_key ix)).

Lemma index_length r r' : length (index_key ix r) = length (index_key ix r').
Proof using IndexLaws0. rewrite !index_shape, !length_app, (index_width r r'). reflexivity. Qed.

Lemma ordered_trans : Transitive ordered_by.
Proof using IndexLaws0. intros x y z XY YZ. exact (proj2 (composite_below _ _ _ (index_length _ _) XY) YZ). Qed.

Lemma ordered_total : Total ordered_by.
Proof using.
  intros x y. unfold ordered. rewrite (composite_flip (index_key ix x.2)).
  destruct (composite (index_key ix x.2) _); cbn; [left | left | right]; discriminate.
Qed.

Lemma index_sorted m : StronglySorted ordered_by (index m).
Proof using IndexLaws0. apply StronglySorted_merge_sort; [exact ordered_trans | exact ordered_total]. Qed.

Lemma index_elements m : index m ≡ₚ map_to_list m.
Proof using. apply merge_sort_Permutation. Qed.

Lemma index_ids m : NoDup (map fst (index m)).
Proof using. assert (P : map fst (index m) ≡ₚ map fst (map_to_list m)) by (rewrite index_elements; reflexivity). rewrite P. apply NoDup_fst_map_to_list. Qed.

Lemma index_lookup m id r : (id, r) ∈ index m <-> m !! id = Some r.
Proof using. rewrite index_elements. apply elem_of_map_to_list. Qed.

Variables (s c t : Z).

Lemma in_table_place r : in_table r s c t = true <-> place s c t r = Eq.
Proof using.
  unfold in_table, place. rewrite composite_eq by reflexivity. cbn. rewrite !andb_true_iff, !Z.eqb_eq.
  split; [intros [[-> ->] ->]; reflexivity | intros [= -> -> ->]; auto].
Qed.

(** The tuples of the helpers begin with the table. *)
Lemma composite_place r tail : composite (index_key ix r) (table_parts s c t ++ tail) =
  match place s c t r with Eq => composite (index_rest r) tail | o => o end.
Proof using.
  rewrite index_shape. unfold place. cbn.
  destruct (rec_scope r ?= s), (rec_code r ?= c), (rec_table r ?= t); reflexivity.
Qed.

Lemma place_below x y : ordered_by x y ->
  (place s c t y.2 = Lt -> place s c t x.2 = Lt) /\ (place s c t y.2 <> Gt -> place s c t x.2 <> Gt).
Proof using IndexLaws0.
  intros O. pose proof (composite_below _ _ (table_parts s c t ++ []) (index_length x.2 y.2) O) as B.
  rewrite !composite_place in B.
  assert (E : forall l, composite l [] = Eq) by (intros []; reflexivity). rewrite !E in B.
  destruct (place s c t x.2), (place s c t y.2); exact B.
Qed.

(** The records of the table, in the order of the index. *)
Definition table_rows m : list (Z * R) := List.filter (fun x => in_table x.2 s c t) (index m).

Lemma index_split m : exists before after, index m = before ++ table_rows m ++ after /\
  Forall (fun x => place s c t x.2 = Lt) before /\ Forall (fun x => place s c t x.2 = Gt) after.
Proof using IndexLaws0.
  set (lt x := match place s c t x.2 with Lt => true | _ => false end).
  set (le x := match place s c t x.2 with Gt => false | _ => true end).
  assert (L : index m = List.filter lt (index m) ++ List.filter (fun x => negb (lt x)) (index m)).
  { apply (sorted_split ordered_by); [apply index_sorted |]. intros x y O. apply place_below in O as [O _]. unfold lt.
    destruct (place s c t y.2); try discriminate. rewrite O by reflexivity. reflexivity. }
  assert (G : List.filter (fun x => negb (lt x)) (index m) = table_rows m ++ List.filter (fun x => negb (le x)) (List.filter (fun x => negb (lt x)) (index m))).
  { rewrite (sorted_split ordered_by le (List.filter (fun x => negb (lt x)) (index m))) at 1.
    - f_equal. unfold table_rows. rewrite filter_both. apply filter_ext. intros x. unfold lt, le.
      pose proof (in_table_place x.2) as P. destruct (place s c t x.2), (in_table x.2 s c t); cbn; try reflexivity; intuition discriminate.
    - apply (StronglySorted_app_1_r _ (List.filter lt (index m))). rewrite <- L. apply index_sorted.
    - intros x y O. apply place_below in O as [_ O]. unfold le. destruct (place s c t y.2), (place s c t x.2); try reflexivity; try discriminate;
        exfalso; apply O; congruence. }
  rewrite G in L. eexists _, _. split; [exact L |]. split.
  - eapply Forall_impl; [apply filter_Forall |]. intros x. unfold lt. destruct (place s c t x.2); congruence.
  - eapply Forall_impl; [apply filter_Forall |]. intros x. unfold le. destruct (place s c t x.2); cbn; congruence.
Qed.

Lemma table_rows_in m : Forall (fun x => in_table x.2 s c t = true) (table_rows m).
Proof using. apply filter_Forall. Qed.

Lemma table_rows_sorted m : StronglySorted ordered_by (table_rows m).
Proof using IndexLaws0.
  destruct (index_split m) as (b & a & E & _). pose proof (index_sorted m) as S. rewrite E in S.
  eapply StronglySorted_app_1_l, StronglySorted_app_1_r, S.
Qed.
End Ordered.

(** ** Reading *)

Lemma find_id_unique {R} (p : R -> bool) (m : gmap Z R) id r :
  m !! id = Some r -> p r = true -> (forall j r', m !! j = Some r' -> p r' = true -> j = id) -> find_id p m = Some id.
Proof.
  intros L P U. destruct (find_id p m) as [j |] eqn:F.
  - destruct (find_id_Some _ _ _ F) as (r' & L' & P'). f_equal. exact (U j r' L' P').
  - rewrite (find_id_None _ _ _ _ F L) in P. discriminate.
Qed.

Lemma find_id_absent {R} (p : R -> bool) (m : gmap Z R) : (forall j r', m !! j = Some r' -> p r' = false) -> find_id p m = None.
Proof.
  intros N. destruct (find_id p m) as [j |] eqn:F; [| reflexivity]. destruct (find_id_Some _ _ _ F) as (r' & L' & P').
  rewrite (N _ _ L') in P'. discriminate.
Qed.

Section Find.
Context {R K : Type} `{RecordLaws R K}.
Implicit Types (db : database).

Definition is_key (s c t : Z) (k : K) (r : R) : bool :=
  match composite (by_primary r) (find_tuple s c t k) with Eq => true | _ => false end.

Lemma is_key_spec s c t k r : is_key s c t k r = true <-> rec_id r = (s, c, t, canon k).
Proof using. unfold is_key, rec_id. rewrite <- find_spec. destruct (composite _ _); split; congruence. Qed.

Lemma same_record_id db i j r r' : valid db -> table R db !! i = Some r -> table R db !! j = Some r' -> rec_id r = rec_id r' -> i = j.
Proof using.
  intros V Li Lj E. destruct (decide (i = j)) as [-> | N]; [reflexivity |].
  pose proof (table_unique db i j r r' V Li Lj N) as C. apply clash_spec in E. congruence.
Qed.

Lemma find_present db id r s c t k : valid db -> table R db !! id = Some r -> rec_id r = (s, c, t, canon k) ->
  find_id (is_key s c t k) (table R db) = Some id.
Proof using.
  intros V L E. apply (find_id_unique _ _ _ r L); [apply is_key_spec, E |]. intros j r' L' P. apply is_key_spec in P.
  apply (same_record_id db j id r' r V L' L). congruence.
Qed.

Lemma find_absent db s c t k : (forall id r, table R db !! id = Some r -> rec_id r <> (s, c, t, canon k)) ->
  find_id (is_key s c t k) (table R db) = None.
Proof using.
  intros N. apply find_id_absent. intros j r L. apply not_true_is_false. rewrite is_key_spec. exact (N j r L).
Qed.
End Find.

Lemma scope_runs cx s w : s ∈ scope (call_trx cx) -> require_scope cx s w = Ret w tt.
Proof.
  intros I. unfold require_scope. destruct (find_if _ _) eqn:E; [reflexivity |]. rewrite find_if_None in E.
  specialize (E s I). cbn in E. lia.
Qed.

#[local] Arguments table_parts : simpl never.
#[local] Arguments composite : simpl never.

Section Reading.
Context {R K : Type} `{RecordLaws R K} (ix : scope_index R K) `{!IndexLaws ix}.
Variables (cx : call) (s c t : Z) (n : nat) (w : world).
Hypothesis Valid : valid (w_db w).
Hypothesis Declared : s ∈ scope (call_trx cx).

Abbreviation objects := (table R (w_db w)).
Abbreviation rows := (table_rows ix s c t objects).

(** What is copied of the first record of a list. *)
Definition first_of (l : list (Z * R)) : option (K * list Z) := match l with [] => None | x :: _ => found x.2 n end.

Lemma record_at_first l rest : Forall (fun x => in_table x.2 s c t = true) l -> Forall (fun x => place s c t x.2 <> Eq) rest ->
  record_at s c t (l ++ rest) n = first_of l.
Proof using.
  intros I O. destruct I as [| [i r] l E I]; cbn.
  - destruct O as [| [i r] rest N O]; cbn; [reflexivity |]. destruct (in_table r s c t) eqn:E; [| reflexivity].
    apply in_table_place in E. contradiction.
  - cbn in E. rewrite E. reflexivity.
Qed.

Lemma read_scoped {A} (k : M world A) : (require_scope cx s ;; k) w = k w.
Proof using Declared. unfold mbind, M_bind. rewrite scope_runs by exact Declared. reflexivity. Qed.

Lemma read_runs {A} (k : list (Z * R) -> M world A) : (read_index (index_key ix) ≫= k) w = k (index_list (index_key ix) objects) w.
Proof using. reflexivity. Qed.

Lemma apart (o : comparison) l : o <> Eq -> Forall (fun x : Z * R => place s c t x.2 = o) l -> Forall (fun x => place s c t x.2 <> Eq) l.
Proof using. intros N F. eapply Forall_impl; [exact F |]. cbn. congruence. Qed.

Lemma front_runs : (forall id r, objects !! id = Some r -> in_table r s c t = true -> well_keyed r) ->
  front_record cx ix s c t n w = Ret w (first_of rows).
Proof using Declared IndexLaws0.
  intros W. unfold front_record. rewrite read_scoped, read_runs. unfold mret, M_ret. f_equal.
  destruct (index_split ix s c t objects) as (b & a & E & B & A). unfold lower_bound. rewrite E, front_shape, partition_point_app; cbn.
  - apply record_at_first; [apply table_rows_in | apply (apart Gt); [discriminate | exact A]].
  - eapply Forall_impl; [exact B |]. intros x P. cbn in P. rewrite (composite_place ix), P. reflexivity.
  - assert (T : Forall (fun x => well_keyed x.2) rows).
    { apply List.Forall_forall. intros [i r] I. apply filter_In in I as [I P]. apply list_elem_of_In, index_lookup in I. exact (W i r I P). }
    pose proof (table_rows_in ix s c t objects) as TI. destruct rows as [| x l]; cbn.
    + destruct A as [| x a P A]; [exact I |]. rewrite (composite_place ix), P. reflexivity.
    + inversion TI as [| ? ? P _]; inversion T as [| ? ? Wx _]; subst. apply in_table_place in P. rewrite (composite_place ix), P.
      pose proof (front_first x.2 Wx). destruct (composite _ _); congruence.
Qed.

(** The iterators of the object with the keys of a record of the table. *)
Lemma position_runs l1 x l2 : rows = l1 ++ x :: l2 -> exists before after,
  keys_position cx ix s c t (rec_keys x.2) w = Ret w (Some (rev l1 ++ before, x :: l2 ++ after)) /\
  Forall (fun y => place s c t y.2 <> Eq) before /\ Forall (fun y => place s c t y.2 <> Eq) after.
Proof using Declared IndexLaws0 Valid.
  intros E. destruct (index_split ix s c t objects) as (b & a & Ei & B & A). exists (rev b), a.
  split; [| split; [apply Forall_rev, (apart Lt); [discriminate | exact B] | apply (apart Gt); [discriminate | exact A]]].
  assert (I : x ∈ rows) by (rewrite E; set_solver). destruct x as [i r]. cbn.
  apply list_elem_of_In, filter_In in I as [I P]. apply list_elem_of_In, index_lookup in I. cbn in P.
  unfold keys_position. rewrite read_scoped, next_is_find. unfold find_record, on_db, db_find, gets, mbind, M_bind.
  change (fun r0 : R => match composite (by_primary r0) (find_tuple s c t (rec_keys r)) with Eq => true | _ => false end) with (is_key s c t (rec_keys r)).
  cbn. rewrite (find_present (w_db w) i r); [| exact Valid | exact I |].
  2: { unfold rec_id. unfold in_table in P. apply andb_true_iff in P as [P Pt]. apply andb_true_iff in P as [Ps Pc].
       apply Z.eqb_eq in Ps, Pc, Pt. congruence. }
  unfold read_index, gets. destruct w as [db k]. cbn. repeat f_equal. cbn in Ei, E. unfold project.
  pose proof (index_ids ix (table R db)) as N. rewrite Ei, E in N |- *.
  replace (b ++ (l1 ++ (i, r) :: l2) ++ a) with ((b ++ l1) ++ (i, r) :: l2 ++ a) in N |- * by (rewrite <- !app_assoc; reflexivity).
  rewrite partition_point_app; [rewrite rev_app_distr, app_nil_r; reflexivity | | cbn; rewrite Z.eqb_refl; reflexivity].
  rewrite map_app, NoDup_app in N. destruct N as (_ & N & _). apply List.Forall_forall. intros y Y. apply negb_true_iff, Z.eqb_neq.
  intros Q. apply (N y.1); [apply list_elem_of_In, in_map, Y | rewrite Q; left].
Qed.

Lemma rows_cut l1 x l2 : rows = l1 ++ x :: l2 -> in_table x.2 s c t = true /\
  Forall (fun y => in_table y.2 s c t = true) (rev l1) /\ Forall (fun y => in_table y.2 s c t = true) l2.
Proof using.
  intros E. pose proof (table_rows_in ix s c t objects) as T. rewrite E in T. apply Forall_app in T as [T1 T].
  inversion T; subst. split; [assumption |]. split; [apply Forall_rev, T1 | assumption].
Qed.

Lemma next_runs l1 x l2 : rows = l1 ++ x :: l2 -> well_keyed x.2 ->
  next_record cx ix s c t (rec_keys x.2) n w = Ret w (first_of l2).
Proof using Declared IndexLaws0 Valid.
  intros E W. destruct (position_runs l1 x l2 E) as (b & a & P & _ & A). destruct (rows_cut l1 x l2 E) as (I & _ & I2).
  unfold next_record. unfold mbind, M_bind. rewrite P. destruct x as [i r]. cbn in *. rewrite I, (compare_self r W). cbn.
  rewrite record_at_first by assumption. reflexivity.
Qed.

Lemma previous_runs l1 x l2 : rows = l1 ++ x :: l2 -> well_keyed x.2 ->
  previous_record cx ix s c t (rec_keys x.2) n w = Ret w (first_of (rev l1)).
Proof using Declared IndexLaws0 Valid.
  intros E W. destruct (position_runs l1 x l2 E) as (b & a & P & B & _). destruct (rows_cut l1 x l2 E) as (I & I1 & _).
  unfold previous_record. unfold mbind, M_bind. rewrite P. destruct x as [i r]. cbn in *. rewrite I, (compare_self r W). cbn.
  rewrite record_at_first by assumption. reflexivity.
Qed.

(** What a bound of an index leads to: the records of the table from the first
    that is not below the tuple, or is above it, on. *)
Lemma cut_runs (before : R -> bool) tail :
  (forall x y, ordered (index_key ix) x y -> before y.2 = true -> before x.2 = true) ->
  (forall r, place s c t r <> Eq -> before r = match composite (index_key ix r) (table_parts s c t ++ tail) with Lt => true | _ => false end) ->
  record_at s c t (partition_point (fun x => before x.2) [] (index_list (index_key ix) objects)).2 n =
  first_of (List.filter (fun x => negb (before x.2)) rows).
Proof using IndexLaws0.
  intros D P. destruct (index_split ix s c t objects) as (b & a & E & B & A). rewrite E.
  pose proof (sorted_split (ordered (index_key ix)) (fun x => before x.2) rows (table_rows_sorted ix s c t objects) D) as Sp.
  pose proof (table_rows_in ix s c t objects) as T. set (lo := List.filter _ rows) in Sp. set (hi := List.filter _ rows) in Sp |- *.
  assert (O : forall o x, o <> Eq -> place s c t x = o -> before x = match o with Lt => true | _ => false end).
  { intros o x N Px. rewrite P, (composite_place ix), Px by congruence. destruct o; [contradiction | reflexivity ..]. }
  replace (b ++ rows ++ a) with ((b ++ lo) ++ hi ++ a) by (rewrite Sp at 1; rewrite <- !app_assoc; reflexivity).
  rewrite partition_point_app; cbn.
  - apply record_at_first; [| apply (apart Gt); [discriminate | exact A]]. rewrite Sp in T. apply Forall_app in T as [_ T]. exact T.
  - apply Forall_app. split; [| apply filter_Forall]. eapply Forall_impl; [exact B |]. cbn. intros x Px. exact (O Lt x.2 ltac:(discriminate) Px).
  - pose proof (filter_Forall (fun x : Z * R => negb (before x.2)) rows) as F. fold hi in F. destruct hi as [| x l]; cbn.
    + destruct A as [| x a Px A]; [exact I |]. exact (O Gt x.2 ltac:(discriminate) Px).
    + inversion F; subst. apply negb_true_iff. assumption.
Qed.

Lemma lower_bound_runs tail :
  record_at s c t (lower_bound (index_key ix) (table_parts s c t ++ tail) (index_list (index_key ix) objects)).2 n =
  first_of (List.filter (fun x => match composite (index_rest x.2) tail with Lt => false | _ => true end) rows).
Proof using IndexLaws0.
  unfold lower_bound. rewrite (cut_runs (fun r => match composite (index_key ix r) (table_parts s c t ++ tail) with Lt => true | _ => false end) tail).
  - f_equal. unfold table_rows. rewrite !filter_both. apply filter_ext. intros x. destruct (in_table x.2 s c t) eqn:I; [| reflexivity].
    apply in_table_place in I. rewrite (composite_place ix), I. destruct (composite _ _); reflexivity.
  - intros x y O. destruct (composite_below _ _ (table_parts s c t ++ tail) (index_length ix x.2 y.2) O) as [Lo _].
    destruct (composite (index_key ix y.2) _); try discriminate. rewrite Lo; reflexivity.
  - reflexivity.
Qed.

Lemma upper_bound_runs tail :
  record_at s c t (upper_bound (index_key ix) (table_parts s c t ++ tail) (index_list (index_key ix) objects)).2 n =
  first_of (List.filter (fun x => match composite (index_rest x.2) tail with Gt => true | _ => false end) rows).
Proof using IndexLaws0.
  unfold upper_bound.
  rewrite (cut_runs (fun r => match composite (table_parts s c t ++ tail) (index_key ix r) with Lt => false | _ => true end) tail).
  - f_equal. unfold table_rows. rewrite !filter_both. apply filter_ext. intros x. destruct (in_table x.2 s c t) eqn:I; [| reflexivity].
    apply in_table_place in I. rewrite (composite_flip (index_key ix x.2)), (composite_place ix), I. destruct (composite _ _); reflexivity.
  - intros x y O. rewrite !(composite_flip (index_key ix _)).
    destruct (composite_below _ _ (table_parts s c t ++ tail) (index_length ix x.2 y.2) O) as [_ Le].
    destruct (composite (index_key ix y.2) _), (composite (index_key ix x.2) _); cbn; intros; try reflexivity; try discriminate;
      exfalso; apply Le; congruence.
  - intros r N. rewrite (composite_flip (index_key ix r)), (composite_place ix). destruct (place s c t r); [contradiction | reflexivity ..].
Qed.
End Reading.
