(* ===== verification/RecordsProps.v ===== *)
(** The properties of the records of contracts: storing, updating and removing
    act on a finite map from keys to values; a contract that starts at the
    front of a table and asks for the next record visits every record once, in
    the order of the index; the back of a table is found under small names
    alone. *)

From Stdlib Require Import ZArith Lia Bool String List Sorting.Sorted.
From stdpp Require Import base decidable countable gmap list sorting.
From S2P Require Import Prelude LongName Block Effects UndoIndex UndoIndexThm Objects Tables Context Records RecordsThm.
Import ListNotations.
Local Open Scope Z_scope.

Local Abbreviation database := (list (generic_index row)).

(** ** The specification *)

(** The records of a class as a finite map from scope, code, table and key. *)
Definition contents {R K} `{RecordLaws R K} `{Countable K} (db : database) : gmap (Z * Z * Z * K) (list Z) :=
  list_to_map (map (fun x => (rec_id x.2, rec_value x.2)) (map_to_list (table R db))).

(** The int32_t of a previous value, or of none. *)
Definition previous_size (v : option (list Z)) : Z := match v with Some v => s32 (Z.of_nat (length v)) | None => -1 end.

(** From [w] to [w'] the records of the class become [m], and nothing else changes. *)
Record becomes {R K} `{RecordLaws R K} `{Countable K} (w w' : world) (m : gmap (Z * Z * Z * K) (list Z)) : Prop := {
  becomes_valid : valid (w_db w');
  becomes_contents : contents (w_db w') = m;
  becomes_others : forall i, i <> @slot R _ -> slot_rows i (w_db w') = slot_rows i (w_db w);
  becomes_context : w_ctx w' = w_ctx w }.

(** A loop of a contract over the records of a table. *)
Fixpoint walk {R K} `{RecordClass R K} (cx : call) (ix : scope_index R K) (s c t : Z) (n fuel : nat) (here : option (K * list Z))
    : M world (list (K * list Z)) :=
  match here, fuel with
  | None, _ => mret []
  | Some _, O => undefined
  | Some (keys, value), S fuel =>
      there ← next_record cx ix s c t keys n;
      rest ← walk cx ix s c t n fuel there;
      mret ((keys, value) :: rest)
  end.

Definition walk_table {R K} `{RecordClass R K} (cx : call) (ix : scope_index R K) (s c t : Z) (n fuel : nat) : M world (list (K * list Z)) :=
  here ← front_record cx ix s c t n;
  walk cx ix s c t n fuel here.

(** ** The finite map *)

Section Contents.
Context {R K : Type} `{RecordLaws R K} `{Countable K}.
Implicit Types (db : database).

Lemma contents_lookup db key v : valid db ->
  contents db !! key = Some v <-> exists id r, table R db !! id = Some r /\ rec_id r = key /\ rec_value r = v.
Proof.
  intros V. unfold contents. split.
  - intros L. apply elem_of_list_to_map_2, list_elem_of_In, in_map_iff in L as ([id r] & E & I).
    apply pair_equal_spec in E. apply list_elem_of_In, elem_of_map_to_list in I. exists id, r. tauto.
  - intros (id & r & L & <- & <-). apply elem_of_list_to_map_1'.
    + intros v I. apply list_elem_of_In, in_map_iff in I as ([j r'] & E & I). apply pair_equal_spec in E as [E <-].
      apply list_elem_of_In, elem_of_map_to_list in I.
      pose proof (same_record_id db id j r r' V L I (eq_sym E)) as <-. rewrite L in I. injection I as ->. reflexivity.
    + apply list_elem_of_In, in_map_iff. exists (id, r). split; [reflexivity |]. apply list_elem_of_In, elem_of_map_to_list, L.
Qed.

Lemma contents_absent db key : valid db -> contents db !! key = None <-> forall id r, table R db !! id = Some r -> rec_id r <> key.
Proof.
  intros V. split.
  - intros N id r L E. assert (contents db !! key = Some (rec_value r)) by (apply contents_lookup; eauto). congruence.
  - intros N. destruct (contents db !! key) as [v |] eqn:E; [| reflexivity].
    apply contents_lookup in E as (id & r & L & E & _); [| exact V]. destruct (N id r L E).
Qed.

(** A record put in a place of its own, or in that of a record with its key. *)
Lemma contents_insert db db' id r : valid db -> changed R db (<[id := r]> (table R db)) db' ->
  (forall r0, table R db !! id = Some r0 -> rec_id r0 = rec_id r) ->
  contents db' = <[rec_id r := rec_value r]> (contents db).
Proof.
  intros V C Old. pose proof (changed_valid _ _ _ _ C) as V'. pose proof (changed_table _ _ _ _ C) as T.
  assert (N : table R db' !! id = Some r) by (rewrite T; apply lookup_insert_eq).
  apply map_eq. intros key. destruct (decide (key = rec_id r)) as [-> | Q].
  - rewrite lookup_insert_eq. apply contents_lookup; eauto.
  - rewrite lookup_insert_ne by congruence. apply option_eq. intros v. rewrite !contents_lookup by assumption. rewrite T.
    split; intros (j & r' & L & E & Ev); exists j, r'; (split; [| auto]).
    + apply lookup_insert_Some in L as [[_ <-] | [_ L]]; [congruence | exact L].
    + rewrite lookup_insert_ne; [exact L |]. intros <-. apply Old in L. congruence.
Qed.

Lemma contents_delete db db' id r : valid db -> changed R db (delete id (table R db)) db' -> table R db !! id = Some r ->
  contents db' = delete (rec_id r) (contents db).
Proof.
  intros V C L. pose proof (changed_valid _ _ _ _ C) as V'. pose proof (changed_table _ _ _ _ C) as T.
  apply map_eq. intros key. apply option_eq. intros v. rewrite lookup_delete_Some, !contents_lookup by assumption. rewrite T. split.
  - intros (j & r' & Lj & E & Ev). apply lookup_delete_Some in Lj as [N Lj]. split; [| eauto].
    intros Q. apply N. apply (same_record_id db id j r r' V L Lj). rewrite Q, E. reflexivity.
  - intros (Q & j & r' & Lj & E & Ev). exists j, r'. split; [| auto]. rewrite lookup_delete_ne; [exact Lj |]. intros <-. congruence.
Qed.

(** Where find_record leads. *)
Lemma find_record_runs {A} s c t k (f : option Z -> M world A) w : valid (w_db w) ->
  (exists id r, table R (w_db w) !! id = Some r /\ rec_id r = (s, c, t, canon k) /\
     contents (w_db w) !! (s, c, t, canon k) = Some (rec_value r) /\ (on_db (find_record (find_tuple s c t k)) ≫= f) w = f (Some id) w) \/
  (contents (w_db w) !! (s, c, t, canon k) = None /\ (on_db (find_record (find_tuple s c t k)) ≫= f) w = f None w).
Proof.
  intros V. assert (Run : forall o, find_id (is_key s c t k) (table R (w_db w)) = o -> (on_db (find_record (find_tuple s c t k)) ≫= f) w = f o w).
  { intros o <-. destruct w. reflexivity. }
  destruct (contents (w_db w) !! (s, c, t, canon k)) as [v |] eqn:E; [left | right].
  - apply contents_lookup in E as (id & r & L & E & <-); [| exact V]. exists id, r. repeat split; try assumption.
    apply Run, (find_present _ _ r); assumption.
  - split; [reflexivity |]. apply Run, find_absent. apply contents_absent; assumption.
Qed.

Lemma deref_runs {A} id r (f : R -> M world A) w : table R (w_db w) !! id = Some r -> (on_db (deref id) ≫= f) w = f r w.
Proof. intros L. destruct w as [db k]. unfold on_db, deref, gets, mbind, M_bind. cbn in *. rewrite L. reflexivity. Qed.

(** A record with a key of its own is created. *)
Lemma create_free (r : R) (a : Z) w : valid (w_db w) -> contents (w_db w) !! rec_id r = None ->
  exists w', (on_db (db_create (fun _ => r)) ;; mret a) w = Ret w' a /\ becomes w w' (<[rec_id r := rec_value r]> (contents (w_db w))).
Proof.
  intros V F. pose proof (proj1 (contents_absent _ _ V) F) as N. destruct w as [db k]. cbn in *.
  destruct (slot_index (R := R) db V) as (ix & E & Er). pose proof (valid_good _ V _ _ E) as G.
  pose proof (db_create_spec (fun _ => r) db V) as Sp. unfold ends in Sp. unfold on_db, mbind, M_bind. cbn.
  remember (db_create (fun _ => r) db) as o eqn:O. destruct o as [db' id | db' e |]; [| exfalso | contradiction].
  - destruct Sp as (Fr & _ & C). exists (World db' k). split; [reflexivity |]. split; [apply C | cbn | apply C | reflexivity].
    eapply contents_insert; [exact V | exact C |]. intros r0 L. rewrite Fr in L. discriminate.
  - unfold db_create, on_index in O. rewrite E, emplace_runs in O by (apply good_fresh, G).
    assert (P : placeable (indices ix) (next_id ix) (inj r) = true).
    { apply placeable_spec. intros j x Lx Nx. rewrite <- Er in Lx. assert (Ty := valid_typed _ V _ _ _ Lx). apply slot_prj in Ty as [r' P].
      apply inj_prj in P as ->. apply table_lookup in Lx. apply not_true_is_false. intros X. apply clash_spec in X.
      exact (N j r' Lx (eq_sym X)). }
    rewrite P in O. discriminate.
Qed.

(** A record is given a value. *)
Lemma set_runs id r f v (a : Z) w : valid (w_db w) -> table R (w_db w) !! id = Some r -> f r = set_value v r ->
  exists w', (on_db (db_modify id (update f)) ;; mret a) w = Ret w' a /\ becomes w w' (<[rec_id r := v]> (contents (w_db w))).
Proof.
  intros V L Ef. destruct (set_value_spec v r) as (Ek & Ev & Sk). rewrite <- Ef in Ek, Ev, Sk.
  assert (Id : rec_id (f r) = rec_id r) by (unfold rec_id; congruence).
  destruct w as [db k]. cbn in *. pose proof (db_modify_spec id r (update f) db V L Sk) as Sp. unfold ends in Sp.
  unfold on_db, mbind, M_bind. cbn. destruct (db_modify id (update f) db) as [db' [] | db' e |]; [| destruct Sp as (? & D & _); discriminate D | contradiction].
  destruct Sp as (r' & [= <-] & C). exists (World db' k). split; [reflexivity |]. split; [apply C | cbn | apply C | reflexivity].
  rewrite <- Id, <- Ev. eapply contents_insert; [exact V | exact C |]. congruence.
Qed.

Lemma remove_record_runs id r (a : Z) w : valid (w_db w) -> table R (w_db w) !! id = Some r ->
  exists w', (on_db (db_remove R id) ;; mret a) w = Ret w' a /\ becomes w w' (delete (rec_id r) (contents (w_db w))).
Proof.
  intros V L. destruct w as [db k]. cbn in *. pose proof (db_remove_spec id r db V L) as Sp. unfold ends in Sp.
  unfold on_db, mbind, M_bind. cbn. destruct (db_remove R id db) as [db' [] | db' e |]; [| contradiction ..].
  exists (World db' k). split; [reflexivity |]. split; [apply Sp | cbn | apply Sp | reflexivity]. eapply contents_delete; [exact V | exact Sp | exact L].
Qed.
End Contents.

(** C20: the records of a class are a finite map from scope, code, table and key
    to values, of which store_record inserts, update_record overwrites the
    begin of a value that is there and remove_record deletes; each returns
    the length of the value before, or -1, and nothing else of the database
    or the context changes.  Without the scope in the transaction they throw
    and change nothing. *)
Theorem records_are_a_map {R K} `{RecordLaws R K} `{Countable K} cx s c t (k : K) v w :
  valid (w_db w) ->
  let m := contents (w_db w) in
  let key := (s, c, t, canon k) in
  (s ∈ scope (call_trx cx) ->
     (exists w', store_record cx s c t k v w = Ret w' (previous_size (m !! key)) /\ becomes w w' (<[key := v]> m)) /\
     (exists w', update_record cx s c t k v w = Ret w' (previous_size (m !! key)) /\
        becomes w w' (match m !! key with Some o => <[key := v ++ drop (length v) o]> m | None => m end)) /\
     (exists w', remove_record cx s c t k w = Ret w' (previous_size (m !! key)) /\ becomes w w' (delete key m))) /\
  (s ∉ scope (call_trx cx) ->
     store_record cx s c t k v w = Exc w "tx_missing_scope" /\ update_record cx s c t k v w = Exc w "tx_missing_scope" /\
     remove_record cx s c t k w = Exc w "tx_missing_scope").
Proof.
  intros V m key. split.
  - intros D. destruct (make_record_spec s c t k v) as (Es & Ec & Et & Ek & Ev).
    assert (Id : rec_id (make_record s c t k v) = key) by (unfold rec_id; rewrite Es, Ec, Et, Ek; reflexivity).
    unfold store_record, update_record, remove_record. rewrite !read_scoped by exact D.
    split; [| split]; match goal with |- exists w', (_ ≫= ?f) w = _ /\ _ => destruct (find_record_runs s c t k f w V) as [(id & r & L & E & Er & ->) | (N & ->)] end.
    + rewrite (deref_runs id r) by exact L. unfold m, key. rewrite Er, <- E. apply (set_runs id r (set_value v) v); auto.
    + unfold m, key in *. rewrite N. rewrite <- Id in N |- *. destruct (create_free _ (-1) w V N) as (w' & Run & B).
      rewrite Ev in B. exists w'. split; [exact Run | exact B].
    + rewrite (deref_runs id r) by exact L. unfold m, key. rewrite Er, <- E. apply (set_runs id r (overwrite_value v)); auto.
    + unfold m, key. rewrite N. exists w. split; [reflexivity |]. split; auto.
    + rewrite (deref_runs id r) by exact L. unfold m, key. rewrite Er, <- E. exact (remove_record_runs id r _ w V L).
    + unfold m, key. rewrite N. exists w. split; [reflexivity |]. split; auto. symmetry. apply delete_id, N.
  - intros N. assert (Sc : require_scope cx s w = Exc w "tx_missing_scope").
    { unfold require_scope. destruct (find_if _ _) as [i |] eqn:E; [| reflexivity]. apply find_if_Some in E as (x & L & P).
      apply Z.eqb_eq in P as ->. destruct (N (nth_error_elem _ _ _ L)). }
    unfold store_record, update_record, remove_record, mbind, M_bind. rewrite Sc. auto.
Qed.

(** ** Iteration *)

Section Walk.
Context {R K : Type} `{RecordLaws R K} (ix : scope_index R K) `{!IndexLaws ix}.
Variables (cx : call) (s c t : Z) (n : nat) (w : world).
Hypothesis Valid : valid (w_db w).
Hypothesis Declared : s ∈ scope (call_trx cx).

Definition copy_of (x : Z * R) : K * list Z := (rec_keys x.2, take n (rec_value x.2)).

Lemma walk_runs l1 l2 fuel : table_rows ix s c t (table R (w_db w)) = l1 ++ l2 -> Forall (fun x => well_keyed x.2) l2 -> (length l2 <= fuel)%nat ->
  walk cx ix s c t n fuel (first_of n l2) w = Ret w (map copy_of l2).
Proof using Valid Declared IndexLaws0.
  revert l1 fuel. induction l2 as [| x l2 IH]; intros l1 fuel E F L; [destruct fuel; reflexivity |].
  inversion F as [| ? ? W F2]; subst. destruct fuel as [| fuel]; [cbn in L; lia |]. cbn [first_of found walk map].
  rewrite (mbind_ret _ _ w w (first_of n l2)) by exact (next_runs ix cx s c t n w Valid Declared l1 x l2 E W).
  rewrite (mbind_ret _ _ w w (map copy_of l2)).
  - reflexivity.
  - apply (IH (l1 ++ [x])); [rewrite E, <- app_assoc; reflexivity | exact F2 | cbn in L; lia].
Qed.
End Walk.


(** ** Looking up *)

Lemma one_number a k l : composite [Num a] (Num k :: l) = (a ?= k).
Proof. cbn. destruct (a ?= k); reflexivity. Qed.

(** The record with a number is the first that is not below it. *)
Lemma first_number s c t k n db : valid db ->
  (first_of n (List.filter (fun x => k <=? kv_primary_key x.2) (table_rows key_value_primary s c t (table key_value_object db)))
   ≫= fun x => if x.1 =? k then Some x else None) = (fun v => (k, take n v)) <$> contents db !! (s, c, t, k).
Proof.
  intros V. set (rows := table_rows _ _ _ _ _). set (l := List.filter _ rows).
  assert (M : forall x, x ∈ l <-> (table key_value_object db !! x.1 = Some x.2 /\ in_table x.2 s c t = true) /\ k <= kv_primary_key x.2).
  { intros [i r]. unfold l, rows, table_rows. rewrite list_elem_of_In, !filter_In, <- list_elem_of_In, (index_lookup key_value_primary), Z.leb_le. reflexivity. }
  assert (In : forall x, x ∈ l -> rec_id x.2 = (s, c, t, kv_primary_key x.2)).
  { intros x X. apply M in X as [[_ X] _]. unfold in_table in X. apply andb_true_iff in X as [X Xt]. apply andb_true_iff in X as [Xs Xc].
    apply Z.eqb_eq in Xs, Xc, Xt. unfold rec_id. cbn in *. congruence. }
  destruct (contents db !! (s, c, t, k)) as [v |] eqn:E.
  - apply contents_lookup in E as (id & r & L & Er & <-); [| exact V].
    assert (X : (id, r) ∈ l).
    { apply M. unfold rec_id in Er. cbn in Er |- *. injection Er as Es Ec Et Ek. split; [| lia]. split; [exact L |].
      unfold in_table. cbn. rewrite Es, Ec, Et, !Z.eqb_refl. reflexivity. }
    assert (S : StronglySorted (ordered (index_key key_value_primary)) l) by (apply sorted_filter, table_rows_sorted, _).
    destruct l as [| y l']; [inversion X |]. cbn.
    assert (Y : kv_primary_key y.2 = k).
    { pose proof (proj2 (proj1 (M y) ltac:(left))) as Le. injection Er as Es Ec Et Ek.
      apply list_elem_of_In in X as [-> | X]; [exact Ek |]. apply StronglySorted_inv in S as [_ F].
      pose proof (proj1 (List.Forall_forall _ _) F _ X) as O. pose proof (In y ltac:(left)) as Iy. injection Iy as Is Ic It.
      unfold ordered in O. cbn in O. rewrite Is, Ic, It, Es, Ec, Et, !Z.compare_refl in O.
      destruct (Z.compare_spec (kv_primary_key y.2) (kv_primary_key r)); lia || congruence. }
    rewrite Y, Z.eqb_refl. f_equal. f_equal. f_equal.
    assert (id = y.1) as ->. { apply (same_record_id db id y.1 r y.2 V L); [apply (M y); left | rewrite (In y) by left; congruence]. }
    assert (table key_value_object db !! y.1 = Some y.2) by (apply (M y); left). congruence.
  - destruct l as [| y l']; [reflexivity |]. cbn. destruct (Z.eqb_spec (kv_primary_key y.2) k) as [Y |]; [| reflexivity].
    pose proof (proj1 (contents_absent _ _ V) E y.1 y.2) as N. destruct N; [apply (M y); left | rewrite (In y) by left; congruence].
Qed.

(** ** The back of a table *)

Lemma place_cases {R K} `{RecordClass R K} s c t (r : R) : place s c t r =
  match rec_scope r ?= s with Eq => match rec_code r ?= c with Eq => rec_table r ?= t | o => o end | o => o end.
Proof. unfold place. cbn. destruct (rec_scope r ?= s), (rec_code r ?= c), (rec_table r ?= t); reflexivity. Qed.

#[local] Arguments place : simpl never.
#[local] Arguments composite : simpl never.
#[local] Arguments table_parts : simpl never.

(** Back_record returns the last record of a table whose name is below
    2^64 - 1, and always -1 for another name, whatever the table holds: it looks
    below the successor of the low 64 bits of the name. *)
Theorem back_record_is_narrow {R K} `{RecordLaws R K} (ix : scope_index R K) `{!IndexLaws ix} cx s c t n w :
  s ∈ scope (call_trx cx) -> 0 <= t ->
  back_record cx ix s c t n w =
    Ret w (if t <? 2 ^ 64 - 1 then first_of n (rev (table_rows ix s c t (table R (w_db w)))) else None).
Proof.
  intros D T. unfold back_record. rewrite read_scoped, read_runs by exact D. unfold mret, M_ret. f_equal.
  set (t' := u64 (u64 t + 1)). change [Num s; Num c; Num t'] with (table_parts s c t' ++ []).
  assert (P : forall r, match composite (index_key ix r) (table_parts s c t' ++ []) with Lt => true | _ => false end =
                        match place s c t' r with Lt => true | _ => false end).
  { intros r. rewrite (composite_place ix). destruct (place s c t' r); try reflexivity. destruct (index_rest r); reflexivity. }
  unfold lower_bound. destruct (t <? 2 ^ 64 - 1) eqn:Small.
  - assert (t' = t + 1) as Et by (unfold t', u64; rewrite (Z.mod_small t), Z.mod_small by lia; reflexivity).
    destruct (index_split ix s c t (table R (w_db w))) as (b & a & E & B & A). rewrite E, app_assoc, partition_point_app.
    + cbn [fst]. rewrite app_nil_r, rev_app_distr. apply record_at_first; [apply Forall_rev, table_rows_in |].
      apply Forall_rev. eapply Forall_impl; [exact B |]. cbn. congruence.
    + pose proof (table_rows_in ix s c t (table R (w_db w))) as In. apply Forall_app.
      split; (eapply Forall_impl; [eassumption |]); cbn; intros x; rewrite P; [| rewrite in_table_place]; rewrite !place_cases, Et;
        destruct (rec_scope x.2 ?= s), (rec_code x.2 ?= c); try congruence; destruct (Z.compare_spec (rec_table x.2) t); try congruence; intros _;
        rewrite (proj2 (Z.compare_lt_iff _ _)) by lia; reflexivity.
    + destruct A as [| x a G A]; [exact I |]. cbn in *. rewrite P. rewrite place_cases in G |- *. rewrite Et.
      destruct (rec_scope x.2 ?= s), (rec_code x.2 ?= c); try congruence. apply Z.compare_gt_iff in G.
      destruct (Z.compare_spec (rec_table x.2) (t + 1)); lia || reflexivity.
  - assert (t' <= t) as Lt' by (unfold t', u64; pose proof (Z.mod_pos_bound t (2 ^ 64)); destruct (decide (t = 2 ^ 64 - 1)) as [-> |];
      [vm_compute; discriminate | pose proof (Z.mod_pos_bound (t mod 2 ^ 64 + 1) (2 ^ 64)); lia]).
    destruct (index_split ix s c t' (table R (w_db w))) as (b & a & E & B & A). rewrite E, partition_point_app.
    + cbn [fst]. rewrite app_nil_r. apply (record_at_first s c t n []); [constructor |]. apply Forall_rev.
      eapply Forall_impl; [exact B |]. cbn. intros x. rewrite !place_cases.
      destruct (rec_scope x.2 ?= s), (rec_code x.2 ?= c); try congruence. rewrite Z.compare_lt_iff, Z.compare_eq_iff. lia.
    + eapply Forall_impl; [exact B |]. cbn. intros x Px. rewrite P, Px. reflexivity.
    + assert (G : Forall (fun x => place s c t' x.2 <> Lt) (table_rows ix s c t' (table R (w_db w)) ++ a)).
      { apply Forall_app. split; [eapply Forall_impl; [apply table_rows_in |] | eapply Forall_impl; [exact A |]]; cbn; intros x; [rewrite in_table_place |]; congruence. }
      destruct G as [| x l G _]; [exact I |]. rewrite P. destruct (place s c t' x.2); congruence.
Qed.

(** With the numbers of key_value_object as keys, load_record returns what
    the map has under a key, lower_bound_record the first record of the table
    whose key is not below it, and upper_bound_record the first whose key is
    above it. *)
Theorem numbers_are_looked_up cx s c t k n w :
  valid (w_db w) -> s ∈ scope (call_trx cx) ->
  let rows := table_rows key_value_primary s c t (table key_value_object (w_db w)) in
  load_record cx key_value_primary s c t k n w =
    Ret w ((fun v => (k, take n v)) <$> contents (w_db w) !! (s, c, t, k)) /\
  lower_bound_record cx key_value_primary s c t k n w =
    Ret w (first_of n (List.filter (fun x => k <=? kv_primary_key x.2) rows)) /\
  upper_bound_record cx key_value_primary s c t k n w =
    Ret w (first_of n (List.filter (fun x => k <? kv_primary_key x.2) rows)).
Proof.
  intros V D rows. unfold load_record, lower_bound_record, upper_bound_record. rewrite !read_scoped, !(read_runs key_value_primary) by exact D.
  unfold mret, M_ret. set (idx := index_list _ _).
  assert (Lo : record_at s c t (lower_bound (index_key key_value_primary) (load_record_tuple key_value_primary s c t k) idx).2 n =
               first_of n (List.filter (fun x => k <=? kv_primary_key x.2) rows)).
  { refine (eq_trans (lower_bound_runs key_value_primary s c t n w [Num k]) _). f_equal. apply filter_ext. intros x. cbn. rewrite one_number.
    destruct (Z.compare_spec (kv_primary_key x.2) k), (Z.leb_spec k (kv_primary_key x.2)); lia || reflexivity. }
  split; [| split].
  - rewrite <- (first_number s c t k n (w_db w) V). fold rows. rewrite <- Lo.
    destruct (lower_bound _ _ idx).2 as [| [i r] l]; cbn; [reflexivity |]. destruct (in_table r s c t); cbn; [| reflexivity].
    destruct (kv_primary_key r =? k); reflexivity.
  - f_equal. exact Lo.
  - f_equal. refine (eq_trans (upper_bound_runs key_value_primary s c t n w [Num k; Num uint128_max; Num uint128_max]) _).
    f_equal. apply filter_ext. intros x. cbn. rewrite one_number.
    destruct (Z.compare_spec (kv_primary_key x.2) k), (Z.ltb_spec k (kv_primary_key x.2)); lia || reflexivity.
Qed.

(** ** Witnesses *)

Section Witnesses.

Definition table_call : call :=
  Call (Transaction 0 0 0 [7] [] [] 0 0 0) (Message 1 0 [] []) 0 0 0.

(** The database after these records have been created. *)
Definition kept {R} `{Object R} (l : list R) : database := fold_left (fun db r => created r db) l empty_db.
Definition kept_world {R} `{Object R} (l : list R) : world := World (kept l) (Context 1 [] [] [] 0 []).

Lemma kept_valid {R} `{Object R} (l : list R) : valid (kept l).
Proof.
  unfold kept. assert (G : forall db, valid db -> valid (fold_left (fun db r => created r db) l db)); [| apply G, empty_valid].
  induction l as [| r l IH]; intros db V; [exact V | apply IH, created_valid, V].
Qed.

Lemma call_declares : 7 ∈ scope (call_trx table_call).
Proof. left. Qed.

(** What holds of the listed objects holds of the table. *)
Lemma table_all {R} `{Object R} (P : R -> Prop) db : Forall (fun x => P x.2) (map_to_list (table R db)) ->
  forall id r, table R db !! id = Some r -> P r.
Proof. intros F id r L. apply elem_of_map_to_list in L. exact (proj1 (Forall_forall _ _) F (id, r) L). Qed.

Lemma records_are_a_map_witness :
  let w := kept_world [KeyValue 7 1 2 5 [10; 11; 12]; KeyValue 7 1 2 6 [20]] in
  (exists w', store_record table_call 7 1 2 5 [9] w = Ret w' 3 /\ becomes w w' (<[(7, 1, 2, 5) := [9]]> (contents (w_db w)))) /\
  (exists w', update_record table_call 7 1 2 5 [9] w = Ret w' 3 /\ becomes w w' (<[(7, 1, 2, 5) := [9; 11; 12]]> (contents (w_db w)))).
Proof.
  intros w. pose proof (records_are_a_map table_call 7 1 2 5 [9] w (kept_valid _)) as [T _]. cbv zeta in T.
  assert (E : contents (w_db w) !! (7, 1, 2, canon 5) = Some [10; 11; 12]) by (vm_compute; reflexivity).
  rewrite E in T. destruct (T call_declares) as (S & U & _). split; [exact S | exact U].
Defined.


Lemma back_record_is_narrow_witness :
  match LongName.to_name_code (chars "t") with
  | Throw _ => False
  | Ok t =>
      let w := kept_world [KeyValue 7 1 t 5 [10]; KeyValue 7 1 2 5 [11]; KeyValue 7 1 2 6 [12]] in
      front_record table_call key_value_primary 7 1 t 8 w = Ret w (Some (5, [10])) /\
      back_record table_call key_value_primary 7 1 t 8 w = Ret w None /\
      back_record table_call key_value_primary 7 1 2 8 w = Ret w (Some (6, [12]))
  end.
Proof.
  remember (LongName.to_name_code (chars "t")) as o eqn:O. vm_compute in O. subst o. intros w. split; [vm_compute; reflexivity |]. split.
  - rewrite (back_record_is_narrow key_value_primary) by (exact call_declares || discriminate). reflexivity.
  - rewrite (back_record_is_narrow key_value_primary) by (exact call_declares || discriminate). vm_compute. reflexivity.
Defined.

Lemma numbers_are_looked_up_witness :
  let w := kept_world [KeyValue 7 1 2 5 [10]; KeyValue 7 1 2 9 [11]] in
  load_record table_call key_value_primary 7 1 2 9 8 w = Ret w (Some (9, [11])) /\
  load_record table_call key_value_primary 7 1 2 6 8 w = Ret w None /\
  lower_bound_record table_call key_value_primary 7 1 2 6 8 w = Ret w (Some (9, [11])) /\
  upper_bound_record table_call key_value_primary 7 1 2 9 8 w = Ret w None.
Proof.
  intros w. pose proof (numbers_are_looked_up table_call 7 1 2 9 8 w (kept_valid _) call_declares) as (L9 & _ & U9).
  pose proof (numbers_are_looked_up table_call 7 1 2 6 8 w (kept_valid _) call_declares) as (L6 & B6 & _).
  rewrite L9, U9, L6, B6. repeat split; vm_compute; reflexivity.
Defined.

(** load_record takes a string for a key it is the beginning of. *)
Example load_takes_a_prefix :
  let w := kept_world [KeyStr 7 1 2 [97; 98; 99] [10]] in
  load_record table_call keystr_primary 7 1 2 [97; 98] 8 w = Ret w (Some ([97; 98; 99], [10])).
Proof. vm_compute. reflexivity. Qed.

(** A key with a zero inside ends the loop over the table. *)
Example a_zero_ends_the_walk :
  let w := kept_world [KeyStr 7 1 2 [97; 0; 98] [10]; KeyStr 7 1 2 [99] [11]] in
  walk_table table_call keystr_primary 7 1 2 8 2 w = Ret w [([97; 0; 98], [10])].
Proof. vm_compute. reflexivity. Qed.
End Witnesses.
