(* ===== verification/NativeApi.v ===== *)
(** The native handlers of messages: the kinds of accounts they serve
    (blockchain/chain/native_handler.cpp, include/native_handler.hpp), the
    table of handlers (chain_xmax.cpp) and what is registered in it
    (blockchain/native_contract/native_contract_chain_init.cpp).

    The handlers of addcontract and setcode, which load code into the
    JavaScript machine, are arguments. *)

From Stdlib Require Import ZArith Lia Bool String List.
From stdpp Require Import base decidable gmap list.
From S2P Require Import Prelude Asset ChainUtils Block Effects UndoIndex Objects Tables Context Authority Voting SystemContract Erc.
Import ListNotations.
Local Open Scope Z_scope.

Inductive native_scope := native_invalid | native_system | native_erc20 | native_erc721.

(** The values of the enumerators. *)
Definition scope_value (s : native_scope) : Z :=
  match s with native_invalid => -1 | native_system => 0 | native_erc20 => 10 | native_erc721 => 20 end.

Definition get_native_scope (acc_type : account_type) : native_scope :=
  match acc_type with
  | acc_personal => native_system
  | acc_system => native_system
  | acc_erc20 => native_erc20
  | acc_erc721 => native_erc721
  | acc_contract => native_invalid
  end.

Definition native_handler : Type := call -> M world unit.

Record handlers := Handlers {
  message_handlers : gmap (Z * Z) native_handler;
  message_handler_gasstep : gmap (Z * Z) Z }.

Definition no_handlers : handlers := Handlers ∅ ∅.

Definition set_native_handler (scope : native_scope) (func : Z) (v : native_handler) (gas_step : Z) (h : handlers) : handlers :=
  Handlers (<[(scope_value scope, func) := v]> (message_handlers h))
           (<[(scope_value scope, func) := gas_step]> (message_handler_gasstep h)).

Definition find_native_handler (h : handlers) (scope : native_scope) (func : Z) : option native_handler :=
  message_handlers h !! (scope_value scope, func).

Definition get_native_handler_gasstep (h : handlers) (scope : native_scope) (func : Z) : Z :=
  default 0 (message_handler_gasstep h !! (scope_value scope, func)).

Section Api.
Context `{SystemCodec} `{ErcCodec}.
Context (to_share : Z -> Z) (raw : Z -> uninitialized) (raw_threshold : Z) (stack : place -> list Z).
Context (xmax_system_addcontract xmax_system_setcode xmax_system_setjscode : native_handler).

Definition SYSTEM_CONTRACT_API : list (string * native_handler * Z) := [
  ("addaccount"%string, xmax_system_addaccount raw_threshold, 0);
  ("addcontract"%string, xmax_system_addcontract, 5);
  ("adderc20"%string, xmax_system_adderc20, 5);
  ("adderc721"%string, xmax_system_adderc721, 5);
  ("transfer"%string, xmax_system_transfer to_share, 5);
  ("lock"%string, xmax_system_lock raw, 5);
  ("unlock"%string, xmax_system_unlock, 5);
  ("votebuilder"%string, xmax_system_votebuilder, 5);
  ("regbuilder"%string, xmax_system_regbuilder, 5);
  ("unregbuilder"%string, xmax_system_unregbuilder, 5);
  ("regproxy"%string, xmax_system_regproxy raw, 5);
  ("unregproxy"%string, xmax_system_unregproxy, 5);
  ("setcode"%string, xmax_system_setcode, 5)].

Definition ERC20_CONTRACT_API : list (string * native_handler * Z) := [
  ("mint"%string, xmax_erc20_mint, 5);
  ("stopmint"%string, xmax_erc20_stopmint, 5);
  ("revoke"%string, xmax_erc20_revoke, 5);
  ("transferfrom"%string, xmax_erc20_transferfrom, 5)].

Definition ERC721_CONTRACT_API : list (string * native_handler * Z) := [
  ("mint"%string, xmax_erc721_mint stack, 5);
  ("stopmint"%string, xmax_erc721_stopmint, 5);
  ("transferfrom"%string, xmax_erc721_transferfrom stack, 5);
  ("revoke"%string, xmax_erc721_revoke, 5)].

(** One API with the macro REGIST_SYSTEM_HANDLER or REGIST_ERC_HANDLER. *)
Definition register (scope : native_scope) (api : list (string * native_handler * Z)) (h : handlers) : handlers :=
  fold_left (fun h '(func, v, gas_step) => set_native_handler scope (name_of func) v gas_step h) api h.

(** With USE_V8; set_native_handler has 0 as its default gas step. *)
Definition register_handlers (h : handlers) : handlers :=
  let h := register native_system SYSTEM_CONTRACT_API h in
  let h := set_native_handler native_system (name_of "setcode") xmax_system_setjscode 0 h in
  let h := register native_erc20 ERC20_CONTRACT_API h in
  register native_erc721 ERC721_CONTRACT_API h.
End Api.
