(* ===== verification/Contracts.v ===== *)
(** The handlers that put contracts into accounts: xmax_system_addcontract,
    xmax_system_setjscode and xmax_system_setcode
    (blockchain/native_contract/xmax_contract.cpp) with
    account_object::set_contract (blockchain/chain/objects/account_object.cpp).

    Running the code is left to the machines: [jsvm_init] and [vm_init] are
    what init does in a context of its own, whose notifications, messages and
    marks are dropped.  [depth] is how deep the stack lets a recursion over the
    types of an abi go; one that goes deeper overflows it.  A message whose
    data end early throws an exception of fc; its text here is that of Raw. *)

From Stdlib Require Import ZArith Lia Bool String List.
From stdpp Require Import base decidable gmap list.
From S2P Require Import Prelude ChainUtils Block Effects Raw Abi UndoIndex Objects Tables Context SystemContract.
Import ListNotations.
Local Open Scope string_scope.
Local Open Scope list_scope.
Local Open Scope Z_scope.

(** ** Messages (foundation/basetypes/include/gentypes.hpp) *)

Record addcontract := AddContract { ac_creator : Z; ac_name : Z; ac_code : list Z; ac_abi : abi }.
Record setcode := SetCode { sc_account : Z; sc_vm_type : Z; sc_vm_version : Z; sc_code : list Z; sc_abi : abi }.

Section Contracts.
Context `{AbiSizes} (sha256_hash : list Z -> sha256) (depth : nat) (jsvm_init vm_init : call -> M world unit).

Definition raw_addcontract : codec addcontract :=
  raw_object (fun m => (ac_creator m, (ac_name m, (ac_code m, ac_abi m)))) (fun '(c, (n, (b, d))) => Some (AddContract c n b d))
    (raw_pair raw_name (raw_pair raw_name (raw_pair raw_bytes raw_abi))).
Definition raw_setcode : codec setcode :=
  raw_object (fun m => (sc_account m, (sc_vm_type m, (sc_vm_version m, (sc_code m, sc_abi m)))))
    (fun '(a, (t, (v, (b, d)))) => Some (SetCode a t v b d))
    (raw_pair raw_name (raw_pair (uint 1) (raw_pair (uint 1) (raw_pair raw_bytes raw_abi)))).

(** message_xmax::as; what the message has left is not looked at. *)
Definition message_as {T} (cx : call) (c : codec T) : M world T := fun w =>
  match unpack c (msg_data (call_msg cx)) with
  | Ret _ x => Ret w x
  | Exc _ e => Exc w e
  | Undef => Undef
  end.

(** abi_serializer(code_abi).validate() *)
Definition validate_abi (d : abi) : M world unit := fun w =>
  match (set_abi depth d ;; validate depth) empty_serializer with
  | Ret _ _ => Ret w tt
  | Exc _ e => Exc w e
  | Undef => Undef
  end.

Definition set_contract (code : list Z) (d : abi) : M account_object unit :=
  update (fun a => Account (acc_name a) (acc_type a) (creation_date a)
                     (Some (AccountContract (sha256_hash code) code (pack raw_abi d)))).

(** A context on the stack, for the time of [m]. *)
Definition in_init_context (cx : call) (code init_depth : Z) (m : call -> M world unit) : M world unit := fun w =>
  let init_cx := Call (call_trx cx) (call_msg cx) init_depth (current_time cx) (building_time cx) in
  match m init_cx (World (w_db w) (new_context init_cx code)) with
  | Ret w' _ => Ret (World (w_db w') (w_ctx w)) tt
  | Exc w' e => Exc (World (w_db w') (w_ctx w)) e
  | Undef => Undef
  end.

Definition modify_contract (name : Z) (code : list Z) (d : abi) : M world unit :=
  contract ← on_db (db_get (fun a => acc_name a =? name));
  on_db (db_modify contract (set_contract code d)).

Definition xmax_system_addcontract (cx : call) : M world unit :=
  msgdata ← message_as cx raw_addcontract;
  let contract_name := ac_name msgdata in
  require_authorization cx (ac_creator msgdata) ;;
  xmax_new_account contract_name (current_time cx) acc_contract ;;
  validate_abi (ac_abi msgdata) ;;
  modify_contract contract_name (ac_code msgdata) (ac_abi msgdata) ;;
  in_init_context cx contract_name 0 jsvm_init.

Definition xmax_system_setjscode (cx : call) : M world unit :=
  msg ← message_as cx raw_setcode;
  require_authorization cx (sc_account msg) ;;
  require (sc_vm_type msg =? 0) "msg.vm_type == 0" ;;
  require (sc_vm_version msg =? 0) "msg.vm_version == 0" ;;
  validate_abi (sc_abi msg) ;;
  modify_contract (sc_account msg) (sc_code msg) (sc_abi msg) ;;
  in_init_context cx (sc_account msg) 0 jsvm_init.

(** The constructor with five arguments takes the code of the message. *)
Definition xmax_system_setcode (cx : call) : M world unit :=
  msg ← message_as cx raw_setcode;
  require_authorization cx (sc_account msg) ;;
  require (sc_vm_type msg =? 0) "msg.vm_type == 0" ;;
  require (sc_vm_version msg =? 0) "msg.vm_version == 0" ;;
  validate_abi (sc_abi msg) ;;
  modify_contract (sc_account msg) (sc_code msg) (sc_abi msg) ;;
  in_init_context cx (msg_code (call_msg cx)) 0 vm_init.
End Contracts.
