(* ===== verification/Tracked.v ===== *)
(** The native handlers keep to the interface of the database, so that a
    session can undo what they do. *)

From Stdlib Require Import ZArith Lia Bool Ascii String List.
From stdpp Require Import base decidable gmap list.
From S2P Require Import Prelude Asset ChainUtils Block Effects UndoIndex UndoIndexThm DbSession Objects Tables Context.
From S2P Require Import Authority Voting SystemContract Erc NativeApi.
Import ListNotations.
Local Open Scope Z_scope.

Local Abbreviation database := (list (generic_index row)).

(** A run of a program on a state with a database leaves every index with a
    record of the way back, whatever sessions are open; [tracked] for a
    database alone. *)
Definition tracked_in {S A} (db_of : S -> database) (m : M S A) : Prop := forall bases s,
  Forall ready bases -> all_within bases (db_of s) ->
  match m s with Ret s' _ | Exc s' _ => all_within bases (db_of s') | Undef => True end.

Create HintDb tracked discriminated.

Section Programs.
Context {S : Type} (db_of : S -> database).

Lemma tracked_in_ret {A} (a : A) : tracked_in db_of (mret a).
Proof. intros bases s _ W. exact W. Qed.

Lemma tracked_in_throw {A} e : tracked_in db_of (throw e : M S A).
Proof. intros bases s _ W. exact W. Qed.

Lemma tracked_in_undefined {A} : tracked_in db_of (undefined : M S A).
Proof. intros bases s _ W. exact I. Qed.

Lemma tracked_in_gets {A} (f : S -> A) : tracked_in db_of (gets f).
Proof. intros bases s _ W. exact W. Qed.

Lemma tracked_in_update f : (forall s, db_of (f s) = db_of s) -> tracked_in db_of (update f).
Proof. intros E bases s _ W. unfold update. rewrite E. exact W. Qed.

Lemma tracked_in_bind {A B} (m : M S A) (f : A -> M S B) : tracked_in db_of m -> (forall a, tracked_in db_of (f a)) -> tracked_in db_of (m ≫= f).
Proof.
  intros Hm Hf bases s R W. specialize (Hm bases s R W). unfold mbind, M_bind.
  destruct (m s) as [s' a | |]; [apply (Hf a bases s' R Hm) | exact Hm | exact I].
Qed.

Lemma tracked_in_require b e : tracked_in db_of (require b e).
Proof. destruct b; [apply tracked_in_ret | apply tracked_in_throw]. Qed.

Lemma tracked_in_for_each {B} (l : list B) (f : B -> M S unit) : (forall x, tracked_in db_of (f x)) -> tracked_in db_of (for_each l f).
Proof. intros Hf. induction l; [apply tracked_in_ret | apply tracked_in_bind; auto]. Qed.

Lemma tracked_in_catch {A} (m h : M S A) : tracked_in db_of m -> tracked_in db_of h -> tracked_in db_of (catch_all m h).
Proof.
  intros Hm Hh bases s R W. specialize (Hm bases s R W). unfold catch_all. destruct (m s) as [s' a | s' e |]; [exact Hm | | exact I].
  apply Hh; assumption.
Qed.

Lemma tracked_in_capture {A} (m : M S A) : tracked_in db_of m -> tracked_in db_of (capture_and_rethrow m).
Proof. intros Hm bases s R W. specialize (Hm bases s R W). unfold capture_and_rethrow. destruct (m s); exact Hm. Qed.

Lemma tracked_in_result {A} (r : result A) : tracked_in db_of (from_result r).
Proof. destruct r as [a | e]; [apply tracked_in_ret |]. cbn. destruct (String.eqb e "undefined"); [apply tracked_in_undefined | apply tracked_in_throw]. Qed.

Lemma tracked_in_unpack {T} (d : list Z -> option T) data : tracked_in db_of (unpack d data).
Proof. unfold unpack. destruct (d data); [apply tracked_in_ret | apply tracked_in_throw]. Qed.
End Programs.

Lemma tracked_on_db {A} (m : M database A) : tracked m -> tracked_in w_db (on_db m).
Proof.
  intros Hm bases [db c] R W. specialize (Hm bases db R W). unfold on_db. cbn. destruct (m db); exact Hm.
Qed.

Lemma tracked_capture {A} (m : M database A) : tracked m -> tracked (capture_and_rethrow m).
Proof. intros Hm bases db R W. specialize (Hm bases db R W). unfold capture_and_rethrow. destruct (m db); exact Hm. Qed.

Lemma tracked_find {R} `{Object R} p : tracked (db_find p).
Proof. apply tracked_gets. Qed.

Lemma tracked_deref {R} `{Object R} id : tracked (deref id : M _ R).
Proof. apply tracked_bind; [apply tracked_gets |]. intros [r |]; [apply tracked_ret | apply tracked_undefined]. Qed.

Lemma tracked_get {R} `{Object R} p : tracked (db_get p).
Proof. apply tracked_bind; [apply tracked_find |]. intros [r |]; [apply tracked_ret | apply tracked_throw]. Qed.

Lemma tracked_require b e : tracked (require b e).
Proof. destruct b; [apply tracked_ret | apply tracked_throw]. Qed.

Lemma tracked_require_auth cx p : tracked_in w_db (require_auth cx p).
Proof. unfold require_auth. destruct (find_if _ _); [apply tracked_in_update; reflexivity | apply tracked_in_throw]. Qed.

Lemma tracked_require_scope cx n : tracked_in w_db (require_scope cx n).
Proof. unfold require_scope. destruct (find_if _ _); [apply tracked_in_ret | apply tracked_in_throw]. Qed.

Lemma tracked_require_recipient cx n : tracked_in w_db (require_recipient cx n).
Proof.
  unfold require_recipient. destruct (_ =? _); [apply tracked_in_ret |]. apply tracked_in_bind; [apply tracked_in_gets |].
  intros c. destruct (find_if _ _); [apply tracked_in_ret | apply tracked_in_update; reflexivity].
Qed.

#[export] Hint Resolve tracked_in_ret tracked_in_throw tracked_in_undefined tracked_in_gets tracked_in_bind tracked_in_require
  tracked_in_for_each tracked_in_catch tracked_in_capture tracked_in_result tracked_in_unpack tracked_on_db tracked_ret tracked_throw tracked_undefined
  tracked_gets tracked_bind tracked_create tracked_find tracked_deref tracked_get tracked_require tracked_capture
  tracked_require_auth tracked_require_scope tracked_require_recipient : tracked.

(** Case analysis on what a program branches on. *)
Ltac track := repeat first
  [ progress intros
  | progress unfold msg_as, require_authorization, require_authorization_of, find_account, get_tokens, tokens_at, get_resource,
      account_assert, xmax_new_account, contract_name, find_owned, validate_authority, find_voter, find_builder, the_voter, the_builder,
      get_erc20, get_erc721, the_erc20, the_erc721, validate_token_not_revoke, validate_token_canmint, validate_name, make_token_id,
      get_authority_object, find_authority_object, check_auth_names, modify_authority_object, new_authority_object, remove_authority_object,
      remove_linked_object, get_ctx, set_ctx in *
  | solve [eauto 2 with tracked nocore]
  | apply tracked_in_bind | apply tracked_bind | apply tracked_capture | apply tracked_on_db | apply tracked_in_catch | apply tracked_in_for_each
  | apply tracked_modify | match goal with |- tracked (db_remove ?R _) => exact (tracked_remove R _) end
  | match goal with |- tracked_in _ (match ?x with _ => _ end) => destruct x end
  | match goal with |- tracked (match ?x with _ => _ end) => destruct x end ].

(** The modifiers of the handlers keep the unique keys. *)
Lemma keeps_update {R} `{Object R} f : (forall r, same_keys (inj r) (inj (f r))) -> keeps_keys (update f).
Proof. intros K r. apply K. Qed.

Lemma keeps_bind {R} `{Object R} {A} (m : M R A) (f : A -> M R unit) :
  (forall r, match m r with Ret r' _ | Exc r' _ => same_keys (inj r) (inj r') | Undef => True end) ->
  (forall a, keeps_keys (f a)) -> keeps_keys (m ≫= f).
Proof.
  intros Hm Hf r. specialize (Hm r). unfold mbind, M_bind. destruct (m r) as [r' a | |]; [| exact Hm | exact I].
  specialize (Hf a r'). destruct (f a r'); [etransitivity; eassumption .. | exact I].
Qed.

Lemma keeps_seq {R} `{Object R} (m : M R unit) (f : unit -> M R unit) :
  keeps_keys m -> (forall a, keeps_keys (f a)) -> keeps_keys (m ≫= f).
Proof. intros Hm Hf. apply keeps_bind; [exact Hm | exact Hf]. Qed.

Lemma keeps_gets {R} `{Object R} {A} (g : R -> A) (f : A -> M R unit) : (forall a, keeps_keys (f a)) -> keeps_keys (gets g ≫= f).
Proof. intros Hf. apply keeps_bind; [intros r x; reflexivity | exact Hf]. Qed.

Ltac keys := intros r; intros []; reflexivity.

Ltac keep := intros r; cbv beta iota delta
    [add_main add_locked release add_votes add_proxied add_staked credit debit issue safe_add safe_sub
     Tables.int64 gets update mbind M_bind require mret M_ret throw undefined];
  repeat (match goal with |- context [if ?b then _ else _] => destruct b end; cbv beta iota); first [exact I | keys | intros []; reflexivity].

Lemma keeps_add_main d : keeps_keys (add_main d).
Proof. keep. Qed.
Lemma keeps_add_locked d : keeps_keys (add_locked d).
Proof. keep. Qed.
Lemma keeps_release d t : keeps_keys (release d t).
Proof. keep. Qed.
Lemma keeps_add_votes d : keeps_keys (add_votes d).
Proof. keep. Qed.
Lemma keeps_add_proxied d : keeps_keys (add_proxied d).
Proof. keep. Qed.
Lemma keeps_add_staked d : keeps_keys (add_staked d).
Proof. keep. Qed.
Lemma keeps_credit d : keeps_keys (credit d).
Proof. keep. Qed.
Lemma keeps_debit d : keeps_keys (debit d).
Proof. keep. Qed.
Lemma keeps_issue d : keeps_keys (issue d).
Proof. keep. Qed.

#[export] Hint Resolve keeps_add_main keeps_add_locked keeps_release keeps_add_votes keeps_add_proxied keeps_add_staked
  keeps_credit keeps_debit keeps_issue : tracked.

(** A modifier made of known ones and of updates of other members. *)
Ltac modifier := repeat first
  [ solve [eauto 1 with tracked nocore]
  | apply keeps_update; keys
  | simple apply keeps_seq; [| intros ?]
  | simple apply keeps_gets; intros ? ].

Section Votes.
Context (cx : call) (raw : Z -> uninitialized).

Lemma tracked_change_votes d bs : tracked_in w_db (change_votes d bs).
Proof. track. Qed.
Lemma tracked_elect d direct bs : tracked_in w_db (elect d direct bs).
Proof. track. Qed.
Lemma tracked_propagate sign px : tracked_in w_db (propagate sign px).
Proof. unfold propagate. track. Qed.
End Votes.
#[export] Hint Resolve tracked_change_votes tracked_elect tracked_propagate : tracked.

Section Handlers.
Context (cx : call) (raw : Z -> uninitialized).

Lemma tracked_increase_votes acnt amount : tracked_in w_db (increase_votes cx raw acnt amount).
Proof. unfold increase_votes. track; modifier. Qed.
Lemma tracked_decrease_votes acnt amount : tracked_in w_db (decrease_votes cx acnt amount).
Proof. unfold decrease_votes. track; modifier. Qed.
Lemma tracked_vote_builder vp : tracked_in w_db (vote_builder cx vp).
Proof. unfold vote_builder. track; modifier. Qed.
Lemma tracked_reg_builder reg : tracked_in w_db (reg_builder reg).
Proof. unfold reg_builder. track; modifier. Qed.
Lemma tracked_unreg_builder n : tracked_in w_db (unreg_builder n).
Proof. unfold unreg_builder. track; modifier. Qed.
Lemma tracked_reg_proxy n : tracked_in w_db (reg_proxy cx raw n).
Proof. unfold reg_proxy. track; modifier. Qed.
Lemma tracked_unreg_proxy n : tracked_in w_db (unreg_proxy cx n).
Proof. unfold unreg_proxy. track; modifier. Qed.
End Handlers.

#[export] Hint Resolve tracked_increase_votes tracked_decrease_votes tracked_vote_builder tracked_reg_builder tracked_unreg_builder
  tracked_reg_proxy tracked_unreg_proxy : tracked.

Definition tracked_handler (h : native_handler) : Prop := forall cx, tracked_in w_db (h cx).

Section Api.
Context `{AuthCodec} `{SystemCodec} `{ErcCodec}.
Context (to_share : Z -> Z) (ndebug : bool) (raw : Z -> uninitialized) (raw_threshold : Z) (stack : place -> list Z).

Lemma tracked_updateauth : tracked_handler (xmax_system_updateauth ndebug raw_threshold).
Proof. unfold tracked_handler, xmax_system_updateauth. track; modifier. Qed.
Lemma tracked_deleteauth : tracked_handler xmax_system_deleteauth.
Proof. unfold tracked_handler, xmax_system_deleteauth. track; modifier. Qed.
Lemma tracked_linkauth : tracked_handler xmax_system_linkauth.
Proof. unfold tracked_handler, xmax_system_linkauth. track; modifier. Qed.
Lemma tracked_unlinkauth : tracked_handler xmax_system_unlinkauth.
Proof. unfold tracked_handler, xmax_system_unlinkauth. track; modifier. Qed.

Lemma tracked_system_api addcontract setcode : tracked_handler addcontract -> tracked_handler setcode ->
  Forall (fun a => tracked_handler a.1.2) (SYSTEM_CONTRACT_API to_share raw raw_threshold addcontract setcode).
Proof.
  intros Ha Hs. repeat (apply Forall_cons_2; [cbn [fst snd] | ]); try exact Ha; try exact Hs; [.. | constructor]; intros cx;
    unfold xmax_system_addaccount, xmax_system_adderc20, xmax_system_adderc721, xmax_system_transfer, xmax_system_lock, xmax_system_unlock,
      xmax_system_votebuilder, xmax_system_regbuilder, xmax_system_unregbuilder, xmax_system_regproxy, xmax_system_unregproxy;
    track; modifier.
Qed.

Lemma tracked_erc20_api : Forall (fun a => tracked_handler a.1.2) ERC20_CONTRACT_API.
Proof.
  repeat (apply Forall_cons_2; [cbn [fst snd] | ]); [.. | constructor]; intros cx;
    unfold xmax_erc20_mint, xmax_erc20_stopmint, xmax_erc20_revoke, xmax_erc20_transferfrom; track; modifier.
Qed.

Lemma tracked_erc721_api : Forall (fun a => a.1.1 = "transferfrom"%string \/ tracked_handler a.1.2) (ERC721_CONTRACT_API stack).
Proof.
  repeat (apply Forall_cons_2; [cbn [fst snd] | ]); [.. | constructor];
    first [left; reflexivity | right]; intros cx;
    unfold xmax_erc721_mint, xmax_erc721_stopmint, xmax_erc721_revoke; track; modifier.
Qed.
End Api.
