(* ===== verification/Transaction.v ===== *)
(** The execution of transactions
    (blockchain/chain/transaction_context_xmax.cpp).

    The JavaScript machine and the hash of a message are arguments.  The loops over notified accounts have fuel; a run
    that returns [false] was out of it.  Inline messages nest at most
    max_message_apply_depth deep. *)

From Stdlib Require Import ZArith Lia Bool String List.
From stdpp Require Import base decidable gmap list.
From S2P Require Import Prelude ChainUtils Block Effects UndoIndex Objects Tables Context Authority SystemContract NativeApi.
Import ListNotations.
Local Open Scope Z_scope.

Local Abbreviation database := (list (generic_index row)).

(** FC_CAPTURE_AND_LOG: the exception ends here. *)
Definition capture_and_log {S} (m : M S unit) : M S unit := catch_all m (mret tt).

(** ** transaction_context_xmax *)

Record message_receipt := MessageReceipt { to_code : Z; message_id : sha256; message_idx : Z }.
Record message_response := MessageResponse { owner_id : sha256; msg_body : message; msg_receipt : message_receipt }.

(** The database and the members of a transaction context that change. *)
Record trx_context := TrxContext {
  x_db : database; gas_used : Z; msg_receipts : list message_receipt; message_responses : list message_response }.

(** ... with the context of the message being applied. *)
Record run := Run { r_trx : trx_context; r_ctx : context }.

Definition with_db (db : database) (x : trx_context) : trx_context :=
  TrxContext db (gas_used x) (msg_receipts x) (message_responses x).

(** A program on a message's context and the database. *)
Definition in_message {A} (m : M world A) : M run A := fun r =>
  match m (World (x_db (r_trx r)) (r_ctx r)) with
  | Ret w a => Ret (Run (with_db (w_db w) (r_trx r)) (w_ctx w)) a
  | Exc w e => Exc (Run (with_db (w_db w) (r_trx r)) (w_ctx w)) e
  | Undef => Undef
  end.

Definition on_trx (f : trx_context -> trx_context) : M run unit := update (fun r => Run (f (r_trx r)) (r_ctx r)).

(** usedgas += g *)
Definition use_gas (g : Z) : M run unit :=
  on_trx (fun x => TrxContext (x_db x) (u64 (gas_used x + g)) (msg_receipts x) (message_responses x)).

Definition max_message_apply_depth : nat := 5.

Section Exec.
Context (hs : handlers) (hash_message : message -> sha256) (t : transaction) (t_id : sha256) (now building : Z).
(** jsvm_xmax::apply with its limit, which returns the instructions it took. *)
Context (js_apply : Z -> call -> M world Z).

Definition call_of (msg : message) (depth : Z) : call := Call t msg depth now building.

(** The part of exec_one_message that may rethrow. *)
Definition apply_message (cx : call) (is_notify : bool) : M run unit :=
  c ← gets r_ctx;
  acc ← in_message (find_account (running_code c));
  match acc with
  | None => throw "unknown key"
  | Some id =>
      acc ← in_message (on_db (deref id));
      let scope := get_native_scope (acc_type acc) in
      let func := msg_type (call_msg cx) in
      let gas_step := get_native_handler_gasstep hs scope func in
      if negb (bool_decide (acc_type acc = acc_contract)) then
        require (negb (scope_value scope =? scope_value native_invalid)) "Unknown native scope type" ;;
        match find_native_handler hs scope func, is_notify with
        | Some handler, true => in_message (handler cx)
        | None, true => mret tt
        | handler, false =>
            use_gas (u64 (gas_step * gas t)) ;;
            x ← gets r_trx;
            require (gas_used x <=? gaslimit t) "transaction out of gas" ;;
            match handler with
            | None => throw "There is not function"
            | Some handler => in_message (handler cx)
            end
        end
      else
        require (match contract acc with Some _ => true | None => false end) "contract is not found." ;;
        capture_and_log (
          count ← in_message (js_apply (u32 (if gas t =? 0 then 1000 else gaslimit t / gas t)) cx);
          use_gas (u64 (count * gas t)))
  end.

Definition exec_one_message (cx : call) (is_notify : bool) : M run message_response :=
  capture_and_rethrow (apply_message cx is_notify) ;;
  obj ← in_message (on_db (db_get_at global_msg_status_object 0));
  in_message (on_db (db_modify obj (update (fun mrs => MsgStatus ((msg_counter mrs + 1) mod 2 ^ 64))))) ;;
  idx ← in_message (on_db (deref obj));
  c ← gets r_ctx;
  let receipt := MessageReceipt (running_code c) (hash_message (call_msg cx)) (msg_counter idx) in
  on_trx (fun x => TrxContext (x_db x) (gas_used x) (msg_receipts x ++ [receipt]) (message_responses x)) ;;
  mret (MessageResponse t_id (call_msg cx) receipt).

Definition respond (res : message_response) : M run unit :=
  on_trx (fun x => TrxContext (x_db x) (gas_used x) (msg_receipts x) (message_responses x ++ [res])).

(** The loop over the notified accounts from the position [i]. *)
Fixpoint notify (fuel i : nat) (cx : call) : M run bool :=
  c ← gets r_ctx;
  match nth_error (notified c) i with
  | None => mret true
  | Some notify_code =>
      match fuel with
      | O => mret false
      | S fuel =>
          update (fun r => Run (r_trx r) (change_code notify_code (r_ctx r))) ;;
          res2 ← exec_one_message cx true;
          respond res2 ;;
          notify fuel (S i) cx
      end
  end.

(** A message's own context, which ends with it. *)
Definition with_context {A} (c : context) (m : M run A) : M trx_context A := fun x =>
  match m (Run x c) with
  | Ret r a => Ret (r_trx r) a
  | Exc r e => Exc (r_trx r) e
  | Undef => Undef
  end.

(** The messages one after the other, while there is fuel. *)
Fixpoint exec_all {S B} (l : list B) (f : B -> M S bool) : M S bool :=
  match l with
  | [] => mret true
  | it :: l => ok ← f it; if (ok : bool) then exec_all l f else mret false
  end.

(** [levels] may still be entered: apply_depth = max_message_apply_depth - levels. *)
Fixpoint exec_message (fuel levels : nat) (msg : message) : M trx_context bool :=
  match levels with
  | O => throw "inline action recursion depth reached"
  | S levels =>
      let cx := call_of msg (Z.of_nat (max_message_apply_depth - S levels)) in
      inline ← with_context (set_notified [msg_code msg] (new_context cx (msg_code msg))) (
        res ← exec_one_message cx false;
        c ← gets r_ctx;
        require (Z.of_nat (length (notified c)) <? 1000) "to many recipient." ;;
        respond res ;;
        ok ← notify fuel 1 cx;
        c ← gets r_ctx;
        mret (if (ok : bool) then Some (inline_messages c) else None));
      match inline with
      | None => mret false
      | Some l => exec_all l (exec_message fuel levels)
      end
  end.

Definition exec (fuel : nat) : M trx_context bool := exec_all (messages t) (exec_message fuel max_message_apply_depth).
End Exec.
