(* ===== verification/Applying.v ===== *)
(** The life of a transaction in the chain (blockchain/chain/chain_xmax.cpp):
    the checks on arrival, the queue, its application to the block being
    built, and the selection of the transactions of a block.

    A run that returns [None] instead of a response was out of fuel in the
    execution of the messages.  The state is the database with the block
    being built; the head block's time, the skip flags and the id of the chain
    do not change meanwhile. *)

From Stdlib Require Import ZArith Lia Bool String List.
From stdpp Require Import base decidable gmap list.
From S2P Require Import Prelude ChainUtils Block BlockPack Effects UndoIndex Objects Tables Context Authority Voting SystemContract.
From S2P Require Import NativeApi Transaction.
Import ListNotations.
Local Open Scope Z_scope.

Local Abbreviation database := (list (generic_index row)).

(** The counters of build_status, and the pending block. *)
Record applying := Applying {
  a_db : database;
  a_pack : block_pack;
  message_receipts : list message_receipt;
  status_trx_counter : Z;
  status_msg_counter : Z }.

Record transaction_response := Response {
  receipt : option (Z * result_code);
  responses : list message_response;
  error : option string }.

Definition make_response (error : option string) : transaction_response := Response None [] error.

Definition set_a_db (db : database) (s : applying) : applying :=
  Applying db (a_pack s) (message_receipts s) (status_trx_counter s) (status_msg_counter s).
Definition set_a_pack (p : block_pack) (s : applying) : applying :=
  Applying (a_db s) p (message_receipts s) (status_trx_counter s) (status_msg_counter s).

(** A program on the database. *)
Definition on_chain {A} (m : M database A) : M applying A := fun s =>
  match m (a_db s) with
  | Ret db a => Ret (set_a_db db s) a
  | Exc db e => Exc (set_a_db db s) e
  | Undef => Undef
  end.

(** ** The checks on arrival: check_trx *)

(** std::set_intersection *)
Fixpoint set_intersection (a : list Z) : list Z -> list Z :=
  match a with
  | [] => fun _ => []
  | x :: a' =>
      fix inner (b : list Z) {struct b} : list Z :=
        match b with
        | [] => []
        | y :: b' =>
            if x <? y then set_intersection a' (y :: b')
            else if y <? x then inner b'
            else x :: set_intersection a' b'
        end
  end.

Definition max_trx_lifetime : Z := 600.
Definition skip_transaction_dupe_check : Z := Z.shiftl 1 2.
Definition skip_tapos_check : Z := Z.shiftl 1 6.

Section Checks.
Context `{Crypto} (skip_flags : Z) (head_block_time : Z).

Definition should_check_for_duplicate_transactions : bool := Z.land skip_flags skip_transaction_dupe_check =? 0.
Definition should_check_tapos : bool := Z.land skip_flags skip_tapos_check =? 0.

Definition validate_uniqueness (t : signed_transaction) : M database unit :=
  if negb should_check_for_duplicate_transactions then mret tt
  else
    transaction ← db_find (fun r => bool_decide (rec_trx_id r = trx_id t));
    require (negb (is_found transaction)) "Transaction is not unique".

Definition validate_tapos (t : transaction) : M database unit :=
  if negb should_check_tapos then mret tt
  else
    tapos ← db_get_at block_summary_object (u16 (ref_block_num t));
    tapos_block_summary ← deref tapos;
    require (transaction_verify_reference_block t (sum_block_id tapos_block_summary))
      "Transaction's reference block did not match. Is this transaction from a different fork?".

Definition require_account (name : Z) : M database unit :=
  account ← db_find (fun a => acc_name a =? name);
  require (is_found account) "Account not found".

Definition validate_referenced_accounts (t : transaction) : M database unit :=
  for_each (scope t) require_account ;;
  for_each (messages t) (fun msg =>
    require_account (msg_code msg) ;;
    for_each (authorization msg) (fun auth => require_account (account auth))).

(** Microseconds, in signed 64-bit arithmetic. *)
Definition validate_expiration (t : transaction) : M database unit :=
  limit ← int64 (head_block_time + max_trx_lifetime * 1000000);
  require (expiration t <=? limit) "Transaction expiration is too far in the future" ;;
  require (head_block_time <=? expiration t) "Transaction is expired".

Definition validate_scope (t : transaction) : M database unit :=
  require (0 <? Z.of_nat (length (scope t)) + Z.of_nat (length (read_scope t))) "No scope specified by transaction" ;;
  require (strictly_sorted (scope t)) "Scopes must be sorted and unique" ;;
  require (strictly_sorted (read_scope t)) "Scopes must be sorted and unique" ;;
  require (match set_intersection (scope t) (read_scope t) with [] => true | _ => false end)
    "a transaction may not redeclare scope in read_scope".

Definition check_trx (request : transaction_request) : M database bool :=
  let t := signed_trx request in
  catch_all
    (require (0 <? Z.of_nat (length (messages (trx t)))) "A transaction must have at least one message" ;;
     validate_scope (trx t) ;;
     validate_expiration (trx t) ;;
     validate_tapos (trx t) ;;
     validate_referenced_accounts (trx t) ;;
     validate_uniqueness t ;;
     mret true)
    (mret false).

(** ** Application *)

Definition record_transaction (t : signed_transaction) : M database unit :=
  db_create (fun _ => TrxRecord (trx_id t) (u32 (Z.quot (expiration (trx t)) 1000000))) ;; mret tt.

(** block.receipts.back() = r *)
Definition set_last_receipt (r : transaction_receipt) (b : signed_block) : signed_block :=
  SignedBlock b (set_back (receipts b) r).

(** block.receipts.push_back(r) *)
Definition push_receipt (r : transaction_receipt) (b : signed_block) : signed_block := SignedBlock b (receipts b ++ [r]).

(** A change of the block a pack points to. *)
Definition on_block (f : signed_block -> signed_block) : M applying unit := fun s =>
  match block (a_pack s) with
  | None => Undef
  | Some b =>
      let '(Pack a1 a2 a3 a4 a5 a6 a7 a8 a9 a10 a11 a12 a13 a14 a15 a16 a17 a18 _ a20) := a_pack s in
      Ret (set_a_pack (Pack a1 a2 a3 a4 a5 a6 a7 a8 a9 a10 a11 a12 a13 a14 a15 a16 a17 a18 (Some (f b)) a20) s) tt
  end.

(** A new receipt's number is what the memory holds, [raw_idx]; its result
    starts as the first of the enumeration. *)
Definition apply_transaction_receipt (raw_idx : Z) (t : signed_transaction) : M applying (Z * result_code) :=
  on_block (push_receipt (Receipt raw_idx applied (by_package (set_trx t)))) ;;
  obj ← on_chain (db_get_at global_trx_status_object 0);
  on_chain (db_modify obj (update (fun mrs => TrxStatus (u64 (trx_counter mrs + 1))))) ;;
  mrs ← on_chain (deref obj);
  on_block (set_last_receipt (Receipt (trx_counter mrs) applied (by_package (set_trx t)))) ;;
  mret (trx_counter mrs, applied).

(** pack->transactions.push_back(request) *)
Definition push_request (request : transaction_request) (p : block_pack) : block_pack :=
  let '(Pack a1 a2 a3 a4 a5 a6 a7 a8 a9 a10 a11 a12 a13 a14 a15 a16 a17 a18 a19 a20) := p in
  Pack a1 a2 a3 a4 a5 a6 a7 a8 a9 a10 a11 a12 a13 a14 a15 a16 a17 a18 a19 (a20 ++ [request]).

(** The session of a transaction_context_xmax: squash() at the end of [body],
    the destructor after an exception. *)
Definition in_trx {A} (body : M applying A) : M applying A := fun s =>
  let '(db, session) := db_start_undo_session true (a_db s) in
  match body (set_a_db db s) with
  | Ret s a => on_chain (session ← leave_squash session; db_session_undo session ;; mret a) s
  | Exc s e => match db_session_undo session (a_db s) with Ret db _ => Exc (set_a_db db s) e | _ => Undef end
  | Undef => Undef
  end.

(** try { m } catch (const fc::exception& e) { return make_response(e); } *)
Definition catch_fc {S A} (m : M S A) (h : string -> M S A) : M S A := fun s =>
  match m s with
  | Exc s e => if fc_exception e then h e s else Exc s e
  | o => o
  end.

Section Apply.
Context `{AuthCodec} (hs : handlers) (hash_message : message -> sha256) (js_apply : Z -> call -> M world Z) (to_share : Z -> Z).
Context (chain_id : sha256) (raw_idx : Z) (fuel : nat).

(** Impl.exec(); what is left of the context afterwards. *)
Definition exec_transaction (t : signed_transaction) : M applying (option trx_context) := fun s =>
  let now := head_block_time in
  let building := to_time_point (timestamp (new_header (a_pack s))) in
  match exec hs hash_message (trx t) (trx_id t) now building js_apply fuel (TrxContext (a_db s) 0 [] []) with
  | Ret x ok => Ret (set_a_db (x_db x) s) (if (ok : bool) then Some x else None)
  | Exc x e => Exc (set_a_db (x_db x) s) e
  | Undef => Undef
  end.

(** The body of the transaction's session. *)
Definition apply_body (request : transaction_request) (check_auth : bool) : M applying (option (trx_context * transaction_response)) :=
  let t := signed_trx request in
  on_chain (check_gaspayer (trx t)) ;;
  (if check_auth then
     keys ← from_result (get_signature_keys t chain_id);
     on_chain (check_authorization (messages (trx t)) keys)
   else mret tt) ;;
  impl ← exec_transaction t;
  match impl with
  | None => mret None
  | Some impl =>
      s ← gets (fun s => s);
      on_chain (transfer_gas to_share (gas_payer (trx t)) (builder_name (bld_info (a_pack s))) (gas_used impl)) ;;
      on_chain (record_transaction t) ;;
      receipt ← apply_transaction_receipt raw_idx t;
      mret (Some (impl, Response (Some receipt) (message_responses impl) None))
  end.

Definition apply_transaction_impl (request : transaction_request) (check_auth : bool) : M applying (option transaction_response) :=
  catch_fc
    (applied ← in_trx (apply_body request check_auth);
     match applied with
     | None => mret None
     | Some (impl, response) =>
         update (fun s => Applying (a_db s) (push_request request (a_pack s)) (message_receipts s ++ msg_receipts impl)
                            (status_trx_counter s) (status_msg_counter s)) ;;
         s ← gets (fun s => s);
         trxs ← int32 (status_trx_counter s + 1);
         let msgs := s32 (u64 (status_msg_counter s + Z.of_nat (length (messages (trx (signed_trx request)))))) in
         update (fun s => Applying (a_db s) (a_pack s) (message_receipts s) trxs msgs) ;;
         mret (Some response)
     end)
    (fun e => mret (Some (make_response (Some e)))).

(** While a block is being built. *)
Definition apply_transaction (request : transaction_request) : M applying (option transaction_response) :=
  ok ← on_chain (check_trx request);
  if (ok : bool) then apply_transaction_impl request true else mret (Some (make_response None)).

(** The transactions of a block; [false] when one ran out of fuel. *)
Definition apply_transactions (l : list transaction_request) : M applying bool :=
  exec_all l (fun request =>
    response ← apply_transaction request;
    mret (match response with Some _ => true | None => false end)).
End Apply.
End Checks.

(** ** Selection *)

Definition block_max_message_count : Z := 500.

Definition messages_of (r : transaction_request) : Z := Z.of_nat (length (messages (trx (signed_trx r)))).

Section Selection.
(** std::priority_queue with the order of gas_sort: top() with pop(). *)
Context (pop : list transaction_request -> option (transaction_request * list transaction_request)).

(** The pool with its count, and the queue. *)
Record selection := Selection {
  selected_transaction_pool : list (option transaction_request);
  selected_transaction_count : Z;
  pending_transactions : list transaction_request }.

(** A turn of the loop takes one transaction from the queue. *)
Fixpoint select_loop (fuel : nat) (selected_message_count : Z) : M selection unit :=
  s ← gets (fun s => s);
  match pop (pending_transactions s), fuel with
  | None, _ => mret tt
  | Some _, O => undefined
  | Some (top, rest), S fuel =>
      if block_max_message_count <? selected_message_count + messages_of top then mret tt
      else
        let n := selected_transaction_count s in
        if Z.of_nat (length (selected_transaction_pool s)) <=? n then undefined
        else
          update (fun s => Selection (<[Z.to_nat n := Some top]> (selected_transaction_pool s)) (u32 (n + 1)) rest) ;;
          select_loop fuel (u32 (selected_message_count + messages_of top))
  end.

Definition select_transactions_by_gas : M selection unit :=
  update (fun s => Selection (selected_transaction_pool s) 0 (pending_transactions s)) ;;
  s ← gets (fun s => s);
  select_loop (length (pending_transactions s)) 0.
End Selection.
