(* ===== verification/ApplyingThm.v ===== *)
(** Transactions against the block being built: a transaction that fails
    leaves no trace, the notifications of a message come to an end, and the
    selection stays within the limits of a block. *)

From Stdlib Require Import ZArith Lia Bool String List Sorted.
From stdpp Require Import base decidable gmap list.
From S2P Require Import Prelude ChainUtils Block BlockPack Effects UndoIndex UndoIndexThm DbSession Objects Tables Context Authority.
From S2P Require Import Voting VotingThm SystemContract Erc NativeApi Tracked Transaction Applying.
Import ListNotations.
Local Open Scope Z_scope.

Local Abbreviation database := (list (generic_index row)).

(** ** The execution keeps to the interface of the database *)

Definition run_db (r : run) : database := x_db (r_trx r).

Lemma tracked_in_message {A} (m : M world A) : tracked_in w_db m -> tracked_in run_db (in_message m).
Proof.
  intros Hm bases r R W. specialize (Hm bases (World (x_db (r_trx r)) (r_ctx r)) R W). unfold in_message.
  destruct (m (World (x_db (r_trx r)) (r_ctx r))); exact Hm.
Qed.

Lemma tracked_with_context {A} c (m : M run A) : tracked_in run_db m -> tracked_in x_db (with_context c m).
Proof.
  intros Hm bases x R W. specialize (Hm bases (Run x c) R W). unfold with_context. destruct (m (Run x c)); exact Hm.
Qed.

Lemma tracked_exec_all {S B} (db_of : S -> database) (l : list B) f :
  (forall x, tracked_in db_of (f x)) -> tracked_in db_of (exec_all l f).
Proof.
  intros Hf. induction l as [| x l IH]; [apply tracked_in_ret |]. apply tracked_in_bind; [apply Hf |].
  intros [|]; [exact IH | apply tracked_in_ret].
Qed.

(** A table of handlers all of which keep to the interface. *)
Definition tracked_handlers (hs : handlers) : Prop :=
  map_Forall (fun _ h => tracked_handler h) (message_handlers hs).

Section Exec.
Context (hs : handlers) (hash_message : message -> sha256) (t : transaction) (t_id : sha256) (now building : Z).
Context (js_apply : Z -> call -> M world Z).
Hypothesis HS : tracked_handlers hs.
Hypothesis JS : forall limit cx, tracked_in w_db (js_apply limit cx).

Lemma tracked_on_trx f : (forall x, x_db (f x) = x_db x) -> tracked_in run_db (on_trx f).
Proof. intros E. apply tracked_in_update. intros r. apply E. Qed.

Lemma tracked_apply_message cx b : tracked_in run_db (apply_message hs t js_apply cx b).
Proof.
  unfold apply_message, use_gas. apply tracked_in_bind; [apply tracked_in_gets | intros c].
  apply tracked_in_bind; [apply tracked_in_message; unfold find_account; eauto with tracked | intros [id |]]; [| apply tracked_in_throw].
  apply tracked_in_bind; [apply tracked_in_message; eauto with tracked | intros acc]. cbv zeta.
  destruct (negb _).
  - apply tracked_in_bind; [apply tracked_in_require | intros _].
    destruct (find_native_handler hs _ _) as [h |] eqn:F, b; try solve [apply tracked_in_ret].
    + apply tracked_in_message, (HS _ _ F).
    + apply tracked_in_bind; [apply tracked_on_trx; reflexivity | intros _].
      apply tracked_in_bind; [apply tracked_in_gets | intros x].
      apply tracked_in_bind; [apply tracked_in_require | intros _]. apply tracked_in_message, (HS _ _ F).
    + apply tracked_in_bind; [apply tracked_on_trx; reflexivity | intros _].
      apply tracked_in_bind; [apply tracked_in_gets | intros x].
      apply tracked_in_bind; [apply tracked_in_require | intros _]. apply tracked_in_throw.
  - apply tracked_in_bind; [apply tracked_in_require | intros _]. unfold capture_and_log.
    apply tracked_in_catch; [| apply tracked_in_ret].
    apply tracked_in_bind; [apply tracked_in_message, JS | intros n]. apply tracked_on_trx; reflexivity.
Qed.

Lemma tracked_get_at R `{Object R} id : tracked (db_get_at R id).
Proof. apply tracked_bind; [apply tracked_gets |]. intros [r |]; [apply tracked_ret | apply tracked_throw]. Qed.

Lemma tracked_exec_one_message cx b : tracked_in run_db (exec_one_message hs hash_message t t_id js_apply cx b).
Proof.
  unfold exec_one_message. apply tracked_in_bind; [apply tracked_in_capture, tracked_apply_message | intros _].
  apply tracked_in_bind; [apply tracked_in_message, tracked_on_db, tracked_get_at | intros obj].
  apply tracked_in_bind; [apply tracked_in_message, tracked_on_db, tracked_modify; modifier | intros _].
  apply tracked_in_bind; [apply tracked_in_message; eauto with tracked | intros idx].
  apply tracked_in_bind; [apply tracked_in_gets | intros c]. cbv zeta.
  apply tracked_in_bind; [apply tracked_on_trx; reflexivity | intros _]. apply tracked_in_ret.
Qed.

Lemma tracked_notify fuel : forall i cx, tracked_in run_db (notify hs hash_message t t_id js_apply fuel i cx).
Proof.
  induction fuel as [| fuel IH]; intros i cx; cbn [notify]; (apply tracked_in_bind; [apply tracked_in_gets | intros c]);
    (destruct (nth_error _ _) as [code |]; [| apply tracked_in_ret]); [apply tracked_in_ret |].
  apply tracked_in_bind; [apply tracked_in_update; reflexivity | intros _].
  apply tracked_in_bind; [apply tracked_exec_one_message | intros res].
  apply tracked_in_bind; [apply tracked_on_trx; reflexivity | intros _]. apply IH.
Qed.

Lemma tracked_exec_message fuel levels : forall msg, tracked_in x_db (exec_message hs hash_message t t_id now building js_apply fuel levels msg).
Proof.
  induction levels as [| levels IH]; intros msg; cbn [exec_message]; [apply tracked_in_throw |]. cbv zeta.
  apply tracked_in_bind.
  - apply tracked_with_context. apply tracked_in_bind; [apply tracked_exec_one_message | intros res].
    apply tracked_in_bind; [apply tracked_in_gets | intros c]. apply tracked_in_bind; [apply tracked_in_require | intros _].
    apply tracked_in_bind; [apply tracked_on_trx; reflexivity | intros _].
    apply tracked_in_bind; [apply tracked_notify | intros ok].
    apply tracked_in_bind; [apply tracked_in_gets | intros c']. apply tracked_in_ret.
  - intros [l |]; [apply tracked_exec_all, IH | apply tracked_in_ret].
Qed.

Lemma tracked_exec fuel : tracked_in x_db (exec hs hash_message t t_id now building js_apply fuel).
Proof. apply tracked_exec_all. intros msg. apply tracked_exec_message. Qed.
End Exec.

(** ** The checks of a transaction *)

Lemma tracked_lift {S A} (m : M database A) : tracked m -> tracked_in fst (lift m : M (database * S) A).
Proof. intros Hm bases s R W. specialize (Hm bases (fst s) R W). unfold lift. destruct (m (fst s)); exact Hm. Qed.

Lemma tracked_with_checker {A} ck (m : M (database * auth_checker) A) : tracked_in fst m -> tracked (with_checker ck m).
Proof. intros Hm bases db R W. specialize (Hm bases (db, ck) R W). unfold with_checker. destruct (m (db, ck)); exact Hm. Qed.

Lemma tracked_int32 {S} (db_of : S -> database) z : tracked_in db_of (int32 z).
Proof. unfold int32. destruct (_ && _); [apply tracked_in_ret | apply tracked_in_undefined]. Qed.

Lemma tracked_get_authority au : tracked (get_authority_object au).
Proof. unfold get_authority_object, check_auth_names. track. Qed.

#[local] Hint Resolve tracked_lift tracked_int32 tracked_get_authority : tracked.

Lemma tracked_check_keys pdic l : forall w, tracked_in fst (check_keys pdic w l).
Proof.
  induction l as [| k l IH]; intros w; cbn [check_keys]; [apply tracked_in_ret |].
  destruct (key_index _ _); [| apply IH]. apply tracked_in_bind; [apply tracked_int32 | intros w'].
  apply tracked_in_bind; [apply tracked_in_update; reflexivity | intros _]. apply IH.
Qed.

Lemma tracked_check_accounts chk l : (forall au, tracked_in fst (chk au)) -> forall w, tracked_in fst (check_accounts chk w l).
Proof.
  intros Hc. induction l as [| a l IH]; intros w; cbn [check_accounts]; [apply tracked_in_ret |].
  apply tracked_in_bind; [apply tracked_in_gets | intros s]. apply tracked_in_bind.
  - destruct (bool_decide _); [apply tracked_in_ret |]. apply tracked_in_bind; [apply Hc | intros _; apply tracked_in_update; reflexivity].
  - intros _. apply tracked_in_bind; [apply tracked_int32 | intros w']. apply IH.
Qed.

Lemma tracked_check_with_depth pdic levels : forall au, tracked_in fst (check_with_depth pdic levels au).
Proof.
  induction levels as [| levels IH]; intros au; cbn [check_with_depth]; [apply tracked_in_throw |].
  apply tracked_in_bind; [eauto with tracked | intros a]. apply tracked_in_bind; [eauto with tracked | intros o]. cbv zeta.
  apply tracked_in_bind; [apply tracked_check_keys | intros w]. apply tracked_in_bind; [apply tracked_check_accounts, IH | intros w'].
  apply tracked_in_require.
Qed.

Lemma tracked_check_gaspayer t : tracked (check_gaspayer t).
Proof. unfold check_gaspayer. track. Qed.

Lemma tracked_transfer_gas to_share payer b n : tracked (transfer_gas to_share payer b n).
Proof. unfold transfer_gas. track; modifier. Qed.

Lemma tracked_record `{Crypto} t : tracked (record_transaction t).
Proof. unfold record_transaction. track. Qed.

Section Authorization.
Context `{AuthCodec}.

Lemma tracked_special msg : tracked (check_special msg).
Proof.
  assert (O : forall auths n, tracked (one_own_authorization auths n)) by (intros [| a l] n; unfold one_own_authorization; track).
  assert (U : forall {T} (d : list Z -> option T), tracked (unpack d (msg_data msg) : M database T)).
  { intros T d. unfold unpack. destruct (d _); [apply tracked_ret | apply tracked_throw]. }
  unfold check_special. repeat (destruct (_ =? _)); try apply tracked_ret;
    (apply tracked_bind; [apply U | intros args]; apply tracked_bind; [| intros _; apply tracked_ret]); try apply O.
  unfold check_updateauth. apply tracked_bind; [apply O | intros _]. unfold find_authority_object, check_auth_names. track.
Qed.

Lemma tracked_permission msg au : tracked (check_permission msg au).
Proof. unfold check_permission, min_linked_permission, find_linked_permission. track. Qed.

Lemma tracked_declared msg flag l : forall sat, tracked (check_declared msg flag l sat).
Proof.
  induction l as [| au l IH]; intros sat; cbn [check_declared]; [apply tracked_ret |].
  apply tracked_bind; [destruct (negb flag); [apply tracked_permission | apply tracked_ret] | intros _; apply IH].
Qed.

Lemma tracked_check_messages l : forall sat, tracked (check_messages l sat).
Proof.
  induction l as [| msg l IH]; intros sat; cbn [check_messages]; [apply tracked_ret |].
  apply tracked_bind; [apply tracked_special | intros flag]. apply tracked_bind; [apply tracked_declared | intros sat'; apply IH].
Qed.

Lemma tracked_check_authorization l keys : tracked (check_authorization l keys).
Proof.
  unfold check_authorization. apply tracked_bind; [apply tracked_check_messages | intros sat].
  apply tracked_with_checker, tracked_in_for_each. intros au. apply tracked_in_bind; [eauto with tracked | intros _].
  apply tracked_check_with_depth.
Qed.
End Authorization.

#[export] Hint Resolve tracked_check_gaspayer tracked_transfer_gas tracked_record tracked_check_authorization tracked_get_at : tracked.

(** ** What an exception leaves of the block being built *)

(** Apart from the database. *)
Definition same_block (s s' : applying) : Prop := set_a_db (a_db s) s' = s.

Lemma same_block_refl s : same_block s s.
Proof. destruct s. reflexivity. Qed.

Lemma same_block_trans s1 s2 s3 : same_block s1 s2 -> same_block s2 s3 -> same_block s1 s3.
Proof. unfold same_block. destruct s1, s2, s3. cbn. intros [= -> -> -> ->] [= -> -> -> ->]. reflexivity. Qed.

Lemma same_block_db s db : same_block s (set_a_db db s).
Proof. destruct s. reflexivity. Qed.

(** A program that leaves the block alone. *)
Definition quiet {A} (m : M applying A) : Prop := forall s,
  match m s with Ret s' _ | Exc s' _ => same_block s s' | Undef => True end.

(** A program that leaves it alone when it throws what the chain catches. *)
Definition clean {A} (m : M applying A) : Prop := forall s,
  match m s with Exc s' e => fc_exception e = true -> same_block s s' | _ => True end.

Lemma quiet_on_chain {A} (m : M database A) : quiet (on_chain m).
Proof. intros s. unfold on_chain. destruct (m (a_db s)); auto using same_block_db. Qed.

Lemma quiet_ret {A} (a : A) : quiet (mret a).
Proof. intros s. apply same_block_refl. Qed.

Lemma quiet_bind {A B} (m : M applying A) (f : A -> M applying B) : quiet m -> (forall a, quiet (f a)) -> quiet (m ≫= f).
Proof.
  intros Hm Hf s. specialize (Hm s). unfold mbind, M_bind. destruct (m s) as [s' a | s' e |]; [| exact Hm | exact I].
  specialize (Hf a s'). destruct (f a s'); [eapply same_block_trans; eassumption .. | exact I].
Qed.

Lemma quiet_from_result {A} (r : result A) : quiet (from_result r).
Proof.
  destruct r as [a | e]; [apply quiet_ret |]. intros s. cbn. destruct (String.eqb e "undefined"); [exact I | apply same_block_refl].
Qed.

Lemma clean_bind {A B} (m : M applying A) (f : A -> M applying B) : quiet m -> (forall a, clean (f a)) -> clean (m ≫= f).
Proof.
  intros Hm Hf s. specialize (Hm s). unfold mbind, M_bind. destruct (m s) as [s' a | s' e |]; [| intros _; exact Hm | exact I].
  specialize (Hf a s'). destruct (f a s'); auto. intros E. eapply same_block_trans; [exact Hm | exact (Hf E)].
Qed.

Lemma quiet_clean {A} (m : M applying A) : quiet m -> clean m.
Proof. intros Hm s. specialize (Hm s). destruct (m s); auto. Qed.

(** Programs whose exceptions are std's. *)
Definition throws_std {S A} (m : M S A) : Prop := forall s,
  match m s with Exc _ e => fc_exception e = false | _ => True end.

Lemma throws_std_bind {S A B} (m : M S A) (f : A -> M S B) : throws_std m -> (forall a, throws_std (f a)) -> throws_std (m ≫= f).
Proof. intros Hm Hf s. specialize (Hm s). unfold mbind, M_bind. destruct (m s) as [s' a | |]; auto. apply Hf. Qed.

Lemma throws_std_on_chain {A} (m : M database A) : throws_std m -> throws_std (on_chain m).
Proof. intros Hm s. specialize (Hm (a_db s)). unfold on_chain. destruct (m (a_db s)); auto. Qed.

Lemma throws_std_modify {R} `{Object R} id f : throws_std (db_modify id (update f)).
Proof.
  intros db. unfold db_modify, on_index. destruct (db !! slot) as [ix |]; [| exact I].
  unfold modify_with, mbind, M_bind, gets. destruct (indices ix !! id) as [v |] eqn:L; [| exact I].
  unfold on_object, update. destruct (prj v) as [r |]; [| exact I].
  unfold modify, mbind, M_bind, gets, update. rewrite L. destruct (container_modify _ _ _) as [[m' ok] |]; [| exact I].
  destruct ok; [exact I | reflexivity].
Qed.

Lemma throws_std_get_at R `{Object R} id : throws_std (db_get_at R id).
Proof. intros db. unfold db_get_at, mbind, M_bind, gets. destruct (table R db !! id); [exact I | reflexivity]. Qed.

Lemma throws_std_deref {R} `{Object R} id : throws_std (deref id : M _ R).
Proof. intros db. unfold deref, mbind, M_bind, gets. destruct (table R db !! id); exact I. Qed.

Lemma throws_std_on_block f : throws_std (on_block f).
Proof. intros s. unfold on_block. destruct (block (a_pack s)); [destruct (a_pack s) |]; exact I. Qed.

Lemma receipt_throws_std `{Crypto} raw_idx t : throws_std (apply_transaction_receipt raw_idx t).
Proof.
  unfold apply_transaction_receipt. apply throws_std_bind; [apply throws_std_on_block | intros _].
  apply throws_std_bind; [apply throws_std_on_chain, throws_std_get_at | intros obj].
  apply throws_std_bind; [apply throws_std_on_chain, throws_std_modify | intros _].
  apply throws_std_bind; [apply throws_std_on_chain, throws_std_deref | intros mrs].
  apply throws_std_bind; [apply throws_std_on_block | intros _]. intros s. exact I.
Qed.

Lemma throws_std_clean {A} (m : M applying A) : throws_std m -> clean m.
Proof. intros Hm s. specialize (Hm s). destruct (m s) as [| s' e |]; auto. rewrite Hm. discriminate. Qed.

Section Apply.
Context `{Crypto} `{AuthCodec} (head_block_time : Z).
Context (hs : handlers) (hash_message : message -> sha256) (js_apply : Z -> call -> M world Z) (to_share : Z -> Z).
Context (chain_id : sha256) (raw_idx : Z) (fuel : nat).

Local Abbreviation exec_trx := (exec_transaction head_block_time hs hash_message js_apply fuel).
Local Abbreviation body := (apply_body head_block_time hs hash_message js_apply to_share chain_id raw_idx fuel).
Local Abbreviation apply_impl := (apply_transaction_impl head_block_time hs hash_message js_apply to_share chain_id raw_idx fuel).

Lemma body_clean request check_auth : clean (body request check_auth).
Proof.
  unfold apply_body. cbv zeta. apply clean_bind; [apply quiet_on_chain | intros _].
  apply clean_bind.
  { destruct check_auth; [| apply quiet_ret]. apply quiet_bind; [apply quiet_from_result | intros keys; apply quiet_on_chain]. }
  intros _. apply clean_bind.
  { intros s. unfold exec_transaction. destruct (exec _ _ _ _ _ _ _ _ _); auto using same_block_db. }
  intros [impl |]; [| apply quiet_clean, quiet_ret]. apply clean_bind; [intros s; apply same_block_refl | intros s0].
  apply clean_bind; [apply quiet_on_chain | intros _]. apply clean_bind; [apply quiet_on_chain | intros _].
  apply throws_std_clean, throws_std_bind; [apply receipt_throws_std | intros r s; exact I].
Qed.

Hypothesis HS : tracked_handlers hs.
Hypothesis JS : forall limit cx, tracked_in w_db (js_apply limit cx).

Lemma tracked_on_chain {A} (m : M database A) : tracked m -> tracked_in a_db (on_chain m).
Proof. intros Hm bases s R W. specialize (Hm bases (a_db s) R W). unfold on_chain. destruct (m (a_db s)); exact Hm. Qed.

Lemma tracked_on_block f : tracked_in a_db (on_block f).
Proof.
  intros bases s R W. unfold on_block. destruct (block (a_pack s)); [| exact I]. destruct (a_pack s). exact W.
Qed.

Lemma body_tracked request check_auth : tracked_in a_db (body request check_auth).
Proof.
  unfold apply_body, apply_transaction_receipt. cbv zeta.
  apply tracked_in_bind; [apply tracked_on_chain; eauto with tracked | intros _].
  apply tracked_in_bind.
  { destruct check_auth; [| apply tracked_in_ret]. apply tracked_in_bind; [apply tracked_in_result | intros keys].
    apply tracked_on_chain; eauto with tracked. }
  intros _. apply tracked_in_bind.
  { intros bases s R W. unfold exec_transaction.
    pose proof (tracked_exec hs hash_message (trx (signed_trx request)) (trx_id (signed_trx request)) head_block_time
      (to_time_point (timestamp (new_header (a_pack s)))) js_apply HS JS fuel bases (TrxContext (a_db s) 0 [] []) R W) as T.
    destruct (exec _ _ _ _ _ _ _ _ _); exact T. }
  intros [impl |]; [| apply tracked_in_ret]. apply tracked_in_bind; [apply tracked_in_gets | intros s0].
  apply tracked_in_bind; [apply tracked_on_chain; eauto with tracked | intros _].
  apply tracked_in_bind; [apply tracked_on_chain; eauto with tracked | intros _].
  apply tracked_in_bind; [| intros r; apply tracked_in_ret].
  apply tracked_in_bind; [apply tracked_on_block | intros _].
  apply tracked_in_bind; [apply tracked_on_chain; eauto with tracked | intros obj].
  apply tracked_in_bind; [apply tracked_on_chain, tracked_modify; modifier | intros _].
  apply tracked_in_bind; [apply tracked_on_chain; eauto with tracked | intros mrs].
  apply tracked_in_bind; [apply tracked_on_block | intros _]. apply tracked_in_ret.
Qed.
End Apply.

(** The session of a transaction: an exception takes the database back. *)
Lemma in_trx_exception {A} (m : M applying A) s : Forall ready (a_db s) -> tracked_in a_db m ->
  forall s' e, in_trx m s = Exc s' e ->
  exists s1, m (set_a_db (fst (db_start_undo_session true (a_db s))) s) = Exc s1 e /\ s' = set_a_db (a_db s) s1.
Proof.
  intros R T s' e. unfold in_trx. destruct (start_sessions (a_db s) R) as [W O].
  specialize (T (a_db s) (set_a_db (fst (db_start_undo_session true (a_db s))) s) R W).
  destruct (db_start_undo_session true (a_db s)) as [db1 ses] eqn:St. cbn [fst snd] in *.
  destruct (m (set_a_db db1 s)) as [s1 a | s1 e1 |].
  - unfold on_chain, leave_squash, mbind, M_bind. destruct (db_session_squash ses (a_db s1)) as [db2 ses2] eqn:Q.
    injection Q as _ <-. discriminate.
  - rewrite (undo_sessions _ _ _ T O). intros [= <- <-]. eauto.
  - discriminate.
Qed.

(** A normal end of the body carries its response, which has no error. *)
Definition no_error {A} (p : option (A * transaction_response)) : Prop :=
  match p with Some (_, r) => error r = None | None => True end.

Lemma ret_bind {S A B} (m : M S A) (f : A -> M S B) (P : B -> Prop) :
  (forall a s s' b, f a s = Ret s' b -> P b) -> forall s s' b, (m ≫= f) s = Ret s' b -> P b.
Proof. intros Hf s s' b. unfold mbind, M_bind. destruct (m s) as [s1 a | |]; [apply Hf | discriminate ..]. Qed.

Lemma body_no_error `{Crypto} `{AuthCodec} head_block_time hs hash_message js_apply to_share chain_id raw_idx fuel request check_auth s s' p :
  apply_body head_block_time hs hash_message js_apply to_share chain_id raw_idx fuel request check_auth s = Ret s' p -> no_error p.
Proof.
  unfold apply_body. cbv zeta. apply ret_bind. intros _. apply ret_bind. intros _. apply ret_bind.
  intros [impl |]; [| intros s1 s2 b [= _ <-]; exact I]. do 4 (apply ret_bind; intros ?). intros s1 s2 b [= _ <-]. reflexivity.
Qed.

Lemma in_trx_ret {A} (m : M applying A) s s' a : in_trx m s = Ret s' a ->
  exists s1, m (set_a_db (fst (db_start_undo_session true (a_db s))) s) = Ret s1 a /\
    s' = set_a_db (fst (db_session_squash (snd (db_start_undo_session true (a_db s))) (a_db s1))) s1.
Proof.
  unfold in_trx. destruct (db_start_undo_session true (a_db s)) as [db1 ses]. cbn [fst snd].
  destruct (m (set_a_db db1 s)) as [s1 a1 | s1 e1 |]; [| destruct (db_session_undo _ _); discriminate | discriminate].
  unfold on_chain, leave_squash, mbind, M_bind. destruct (db_session_squash ses (a_db s1)) as [db2 ses2] eqn:Q.
  assert (ses2 = DbSession [] (db_session_revision ses)) by (unfold db_session_squash in Q; congruence). subst ses2.
  intros [= <- <-]. exists s1. rewrite Q. split; reflexivity.
Qed.

Lemma in_trx_response `{Crypto} `{AuthCodec} head_block_time hs hash_message js_apply to_share chain_id raw_idx fuel request check_auth s s' impl r :
  in_trx (apply_body head_block_time hs hash_message js_apply to_share chain_id raw_idx fuel request check_auth) s = Ret s' (Some (impl, r)) ->
  error r = None.
Proof. intros E. apply in_trx_ret in E as (s1 & E & _). apply body_no_error in E. exact E. Qed.

(** ** The handlers the chain registers *)

Lemma register_tracked (K : Z * Z) scope api hs :
  map_Forall (fun k h => k = K \/ tracked_handler h) (message_handlers hs) ->
  Forall (fun a => (scope_value scope, name_of a.1.1) = K \/ tracked_handler a.1.2) api ->
  map_Forall (fun k h => k = K \/ tracked_handler h) (message_handlers (register scope api hs)).
Proof.
  intros M F. revert hs M. induction F as [| [[func v] gas_step] api Hv F IH]; intros hs M; [exact M |].
  cbn [register fold_left]. apply IH. cbn. apply map_Forall_insert_2; [exact Hv | exact M].
Qed.

Definition erc721_transferfrom : Z * Z := (scope_value native_erc721, name_of "transferfrom").

(** All the handlers but the one that changes a unique key. *)
Definition interface_handlers (hs : handlers) : handlers :=
  Handlers (delete erc721_transferfrom (message_handlers hs)) (message_handler_gasstep hs).

Lemma standard_handlers_tracked `{AuthCodec} `{SystemCodec} `{ErcCodec} to_share raw raw_threshold stack addcontract setcode setjscode :
  tracked_handler addcontract -> tracked_handler setcode -> tracked_handler setjscode ->
  tracked_handlers (interface_handlers (register_handlers to_share raw raw_threshold stack addcontract setcode setjscode no_handlers)).
Proof.
  intros Ha Hs Hj.
  assert (M : map_Forall (fun k h => k = erc721_transferfrom \/ tracked_handler h)
    (message_handlers (register_handlers to_share raw raw_threshold stack addcontract setcode setjscode no_handlers))).
  { unfold register_handlers. cbv zeta. apply register_tracked; [apply register_tracked |].
    - apply map_Forall_insert_2; [right; exact Hj |]. apply register_tracked; [intros k h E; cbn in E; rewrite lookup_empty in E; discriminate |].
      eapply Forall_impl; [apply tracked_system_api; assumption | intros a T; right; exact T].
    - eapply Forall_impl; [apply tracked_erc20_api | intros a T; right; exact T].
    - eapply Forall_impl; [apply tracked_erc721_api |]. intros a [E | T]; [left; rewrite E; reflexivity | right; exact T]. }
  intros k h E. cbn in E. apply lookup_delete_Some in E as [N E]. destruct (M k h E) as [-> | T]; [destruct (N eq_refl) | exact T].
Qed.

(** ** The notifications of a message come to an end *)

Section Termination.
Context (hs : handlers) (hash_message : message -> sha256) (t : transaction) (t_id : sha256) (now building : Z).
Context (js_apply : Z -> call -> M world Z).
Context (L : list Z) (allowed : message -> Prop).

(** Nobody is notified twice, nor anybody outside of [L]; the inline messages
    are of the allowed kind. *)
Definition bounded (c : context) : Prop :=
  NoDup (notified c) /\ (forall n, n ∈ notified c -> n ∈ L) /\ Forall allowed (inline_messages c).

Definition within_bounds {S A} (ctx_of : S -> context) (m : M S A) : Prop := forall s, bounded (ctx_of s) ->
  match m s with Ret s' _ | Exc s' _ => bounded (ctx_of s') | Undef => True end.

Hypothesis HH : forall k h cx, message_handlers hs !! k = Some h -> allowed (call_msg cx) -> within_bounds w_ctx (h cx).
Hypothesis HJ : forall limit cx, allowed (call_msg cx) -> within_bounds w_ctx (js_apply limit cx).
Hypothesis HC : forall msg, allowed msg -> msg_code msg ∈ L.

Lemma bounds_bind {S A B} (ctx_of : S -> context) (m : M S A) (f : A -> M S B) :
  within_bounds ctx_of m -> (forall a, within_bounds ctx_of (f a)) -> within_bounds ctx_of (m ≫= f).
Proof.
  intros Hm Hf s W. specialize (Hm s W). unfold mbind, M_bind. destruct (m s) as [s' a | |]; [apply Hf, Hm | exact Hm | exact I].
Qed.

Lemma bounds_same {S A} (ctx_of : S -> context) (m : M S A) :
  (forall s, match m s with Ret s' _ | Exc s' _ => ctx_of s' = ctx_of s | Undef => True end) -> within_bounds ctx_of m.
Proof. intros E s W. specialize (E s). destruct (m s); auto; rewrite E; exact W. Qed.

Lemma bounds_require {S} (ctx_of : S -> context) b e : within_bounds ctx_of (require b e).
Proof. apply bounds_same. destruct b; reflexivity. Qed.

Lemma bounds_ret {S A} (ctx_of : S -> context) (a : A) : within_bounds ctx_of (mret a).
Proof. apply bounds_same. reflexivity. Qed.

Lemma bounds_on_db {A} (m : M database A) : within_bounds w_ctx (on_db m).
Proof. apply bounds_same. intros [db c]. unfold on_db. cbn. destruct (m db); reflexivity. Qed.

Lemma bounds_in_message {A} (m : M world A) : within_bounds w_ctx m -> within_bounds r_ctx (in_message m).
Proof.
  intros Hm r W. specialize (Hm (World (x_db (r_trx r)) (r_ctx r)) W). unfold in_message. destruct (m _); exact Hm.
Qed.

Lemma bounds_gets {S A} (ctx_of : S -> context) (f : S -> A) : within_bounds ctx_of (gets f).
Proof. apply bounds_same. reflexivity. Qed.

Lemma bounds_on_trx f : within_bounds r_ctx (on_trx f).
Proof. apply bounds_same. reflexivity. Qed.

Lemma bounds_catch {S A} (ctx_of : S -> context) (m h : M S A) :
  within_bounds ctx_of m -> within_bounds ctx_of h -> within_bounds ctx_of (catch_all m h).
Proof.
  intros Hm Hh s W. specialize (Hm s W). unfold catch_all. destruct (m s); [exact Hm | apply Hh, Hm | exact I].
Qed.

Lemma bounds_capture {S A} (ctx_of : S -> context) (m : M S A) : within_bounds ctx_of m -> within_bounds ctx_of (capture_and_rethrow m).
Proof. intros Hm s W. specialize (Hm s W). unfold capture_and_rethrow. destruct (m s); exact Hm. Qed.

Lemma bounds_apply_message cx b : allowed (call_msg cx) -> within_bounds r_ctx (apply_message hs t js_apply cx b).
Proof.
  intros Al. unfold apply_message, use_gas. apply bounds_bind; [apply bounds_gets | intros c].
  apply bounds_bind; [apply bounds_in_message, bounds_on_db | intros [id |]]; [| apply bounds_same; reflexivity].
  apply bounds_bind; [apply bounds_in_message, bounds_on_db | intros acc]. cbv zeta. destruct (negb _).
  - apply bounds_bind; [apply bounds_require | intros _].
    destruct (find_native_handler hs _ _) as [h |] eqn:F, b; try solve [apply bounds_ret].
    + apply bounds_in_message. eapply HH; eauto.
    + apply bounds_bind; [apply bounds_on_trx | intros _]. apply bounds_bind; [apply bounds_gets | intros x].
      apply bounds_bind; [apply bounds_require | intros _]. apply bounds_in_message. eapply HH; eauto.
    + apply bounds_bind; [apply bounds_on_trx | intros _]. apply bounds_bind; [apply bounds_gets | intros x].
      apply bounds_bind; [apply bounds_require | intros _]. apply bounds_same; reflexivity.
  - apply bounds_bind; [apply bounds_require | intros _]. apply bounds_catch; [| apply bounds_ret].
    apply bounds_bind; [apply bounds_in_message, HJ, Al | intros count]. apply bounds_on_trx.
Qed.

Lemma bounds_exec_one_message cx b : allowed (call_msg cx) -> within_bounds r_ctx (exec_one_message hs hash_message t t_id js_apply cx b).
Proof.
  intros Al. unfold exec_one_message. apply bounds_bind; [apply bounds_capture, bounds_apply_message, Al | intros _].
  apply bounds_bind; [apply bounds_in_message, bounds_on_db | intros obj].
  apply bounds_bind; [apply bounds_in_message, bounds_on_db | intros _]. apply bounds_bind; [apply bounds_in_message, bounds_on_db | intros idx].
  apply bounds_bind; [apply bounds_gets | intros c]. cbv zeta. apply bounds_bind; [apply bounds_on_trx | intros _]. apply bounds_ret.
Qed.

Lemma bounded_length c : bounded c -> (length (notified c) <= length L)%nat.
Proof. intros (N & S & _). apply submseteq_length, NoDup_submseteq; assumption. Qed.

(** Enough fuel: the result is not [false] and does not depend on it. *)
Definition settled (f : nat -> M run bool) (n : nat) (r : run) : Prop := forall fuel, (n <= fuel)%nat ->
  f fuel r = f n r /\ match f fuel r with Ret r' ok => ok = true /\ bounded (r_ctx r') | _ => True end.

Lemma notify_settled cx : allowed (call_msg cx) -> forall fuel i r, bounded (r_ctx r) -> (length L <= i + fuel)%nat ->
  settled (fun fuel => notify hs hash_message t t_id js_apply fuel i cx) fuel r.
Proof.
  intros Al. induction fuel as [| fuel IH]; intros i r B Le fuel' Le'.
  - pose proof (bounded_length _ B) as Bl. assert (N : nth_error (notified (r_ctx r)) i = None) by (apply nth_error_None; lia).
    destruct fuel'; cbn [notify]; unfold mbind, M_bind, gets; rewrite N; cbn; auto.
  - destruct fuel' as [| fuel']; [lia |]. cbn [notify]. unfold mbind at 1 5 9, M_bind at 1 5 9, gets at 1 2 3.
    destruct (nth_error (notified (r_ctx r)) i) as [code |]; [| cbn; auto].
    unfold mbind, M_bind, update. 
    pose proof (bounds_exec_one_message cx true Al (Run (r_trx r) (change_code code (r_ctx r))) B) as B'.
    destruct (exec_one_message _ _ _ _ _ _ _ _) as [r1 res | r1 e |]; [| auto | auto].
    destruct (respond res r1) as [r2 u | r2 e |] eqn:Rs; [| discriminate | discriminate].
    assert (B2 : bounded (r_ctx r2)) by (unfold respond, on_trx, update in Rs; injection Rs as <- _; exact B').
    apply (IH (S i) r2 B2); lia.
Qed.
(** Programs with enough fuel for every state. *)
Definition fueled {S} (f : nat -> M S bool) : Prop := forall fuel s, (length L <= fuel)%nat ->
  f fuel s = f (length L) s /\ match f fuel s with Ret _ ok => ok = true | _ => True end.

Lemma fueled_all {S B} (l : list B) (f : nat -> B -> M S bool) :
  (forall x, x ∈ l -> fueled (fun fuel => f fuel x)) -> fueled (fun fuel => exec_all l (f fuel)).
Proof.
  induction l as [| x l IH]; intros Hf fuel s Le; [cbn; auto |]. cbn [exec_all]. unfold mbind, M_bind.
  destruct (Hf x ltac:(left) fuel s Le) as [<- Ok]. destruct (f fuel x s) as [s' ok | s' e |]; [| auto | auto].
  subst ok. apply IH; [| exact Le]. intros y Hy. apply Hf. right. exact Hy.
Qed.

(** The context of one message, to the end of its notifications. *)
Lemma message_settled cx msg fuel x : allowed msg -> call_msg cx = msg -> (length L <= fuel)%nat ->
  let m := fun fuel => with_context (set_notified [msg_code msg] (new_context cx (msg_code msg))) (
    res ← exec_one_message hs hash_message t t_id js_apply cx false;
    c ← gets r_ctx;
    require (Z.of_nat (length (notified c)) <? 1000) "to many recipient." ;;
    respond res ;;
    ok ← notify hs hash_message t t_id js_apply fuel 1 cx;
    c ← gets r_ctx;
    mret (if (ok : bool) then Some (inline_messages c) else None)) in
  m fuel x = m (length L) x /\ match m fuel x with Ret _ l => exists l', l = Some l' /\ Forall allowed l' | _ => True end.
Proof.
  intros Al Ec Le. cbv zeta. unfold with_context. set (c0 := set_notified _ _).
  assert (B : bounded c0).
  { repeat split; cbn; [apply NoDup_singleton | | constructor]. intros n Hn. apply list_elem_of_singleton in Hn as ->. apply HC, Al. }
  rewrite <- Ec in Al. pose proof (bounds_exec_one_message cx false Al (Run x c0) B) as B1. unfold mbind, M_bind, gets.
  destruct (exec_one_message _ _ _ _ _ _ _ _) as [r1 res | r1 e |]; [| auto | auto].
  destruct (_ <? 1000); cbn [require mret M_ret throw]; [| auto]. unfold respond, on_trx, update.
  set (r2 := Run _ (r_ctx r1)). destruct (notify_settled cx Al (length L) 1 r2 B1 ltac:(lia) fuel Le) as [E Ok].
  rewrite <- E. destruct (notify _ _ _ _ _ fuel _ _ r2) as [r3 ok | r3 e |]; [| auto | auto]. destruct Ok as [-> (_ & _ & Fa)].
  split; [reflexivity |]. eexists. split; [reflexivity | exact Fa].
Qed.

Lemma exec_message_fueled levels : forall msg, allowed msg ->
  fueled (fun fuel => exec_message hs hash_message t t_id now building js_apply fuel levels msg).
Proof.
  induction levels as [| levels IH]; intros msg Al fuel x Le; [cbn; auto |]. cbn [exec_message]. cbv zeta.
  match goal with |- context [call_of ?t ?now ?b ?msg ?d] => set (cx := call_of t now b msg d) end.
  pose proof (message_settled cx msg fuel x Al eq_refl Le) as [E Ok]. unfold mbind at 1 8 15, M_bind at 1 8 15.
  rewrite <- E. destruct (with_context _ _ x) as [x1 l | x1 e |]; [| auto | auto]. destruct Ok as (l' & -> & Fa).
  apply (fueled_all l' (fun fuel => exec_message hs hash_message t t_id now building js_apply fuel levels)); [| exact Le].
  intros m Hm. apply IH. rewrite Forall_forall in Fa. apply Fa, Hm.
Qed.

Lemma exec_fueled : Forall allowed (messages t) -> fueled (exec hs hash_message t t_id now building js_apply).
Proof.
  intros Fa fuel x Le. apply (fueled_all (messages t) (fun fuel => exec_message hs hash_message t t_id now building js_apply fuel max_message_apply_depth)); [| exact Le].
  intros m Hm. apply exec_message_fueled. rewrite Forall_forall in Fa. apply Fa, Hm.
Qed.
End Termination.

(** ** A native handler notifies whom its message names *)

Lemma bounds_recipient L allowed cx n : n ∈ L -> within_bounds L allowed w_ctx (require_recipient cx n).
Proof.
  intros Hn. unfold require_recipient. destruct (_ =? _); [apply bounds_ret |]. intros w (N & S & F).
  unfold get_ctx, set_ctx, mbind, M_bind, gets, update.
  destruct (find_if _ _) eqn:Fi; [repeat split; assumption |]. cbn. repeat split; [| | exact F].
  - apply NoDup_app. repeat split; [exact N | | apply NoDup_singleton]. intros x Hx Hy. apply list_elem_of_singleton in Hy as ->.
    pose proof (proj1 (find_if_None _ _) Fi n Hx) as E. cbn in E. lia.
  - intros x. cbn. rewrite elem_of_app. intros [Hx | Hx]; [apply S, Hx | apply list_elem_of_singleton in Hx as ->; exact Hn].
Qed.

Lemma bounds_unpack {S T} L allowed (ctx_of : S -> context) (d : list Z -> option T) data (f : T -> M S unit) :
  (forall a, d data = Some a -> within_bounds L allowed ctx_of (f a)) -> within_bounds L allowed ctx_of (unpack d data ≫= f).
Proof.
  intros Hf s W. unfold unpack. destruct (d data) as [a |]; [apply (Hf a eq_refl s W) | exact W].
Qed.

Lemma transfer_bounds `{SystemCodec} to_share L allowed cx :
  (forall tr, as_transfer (msg_data (call_msg cx)) = Some tr -> tr_from tr ∈ L /\ tr_to tr ∈ L) ->
  within_bounds L allowed w_ctx (xmax_system_transfer to_share cx).
Proof.
  intros Hn. unfold xmax_system_transfer. apply bounds_unpack. intros tr E. destruct (Hn tr E) as [Hf Ht].
  assert (Sc : forall n, within_bounds L allowed w_ctx (require_scope cx n)).
  { intros n. unfold require_scope. destruct (find_if _ _); apply bounds_same; reflexivity. }
  repeat first [ apply bounds_bind; [| intros ?] | apply bounds_require | apply Sc | apply bounds_recipient; assumption | apply bounds_on_db
               | unfold get_tokens, tokens_at ].
Qed.

(** ** The selection of a block's transactions *)

Section Selection.
Context (pop : list transaction_request -> option (transaction_request * list transaction_request)).

(** What std::priority_queue promises of top() and pop(). *)
Record priority_queue : Prop := {
  pop_none : forall l, pop l = None -> l = [];
  pop_some : forall l x rest, pop l = Some (x, rest) -> x :: rest ≡ₚ l /\ Forall (fun y => sort_by_gas x y = false) rest }.

Definition total_messages (l : list transaction_request) : Z := fold_right (fun r n => messages_of r + n) 0 l.

Lemma total_messages_snoc l r : total_messages (l ++ [r]) = total_messages l + messages_of r.
Proof. unfold total_messages. induction l as [| x l IH]; cbn; lia. Qed.

Lemma messages_of_nonneg r : 0 <= messages_of r.
Proof. unfold messages_of. lia. Qed.

Lemma total_messages_nonneg l : 0 <= total_messages l.
Proof. unfold total_messages. induction l as [| r l IH]; cbn [fold_right]; [lia |]. pose proof (messages_of_nonneg r). lia. Qed.

Lemma total_messages_length l : Forall (fun r => 0 < messages_of r) l -> Z.of_nat (length l) <= total_messages l.
Proof. unfold total_messages. induction 1; cbn [length fold_right]; lia. Qed.

Definition cheaper (r r' : transaction_request) : Prop := gas (trx (signed_trx r')) <= gas (trx (signed_trx r)).

(** The state of the loop when it has taken [sel]. *)
Record selecting (pending sel : list transaction_request) (s : selection) : Prop := {
  sel_pool : length (selected_transaction_pool s) = 500%nat;
  sel_count : selected_transaction_count s = Z.of_nat (length sel);
  sel_taken : take (length sel) (selected_transaction_pool s) = map Some sel;
  sel_perm : sel ++ pending_transactions s ≡ₚ pending;
  sel_sorted : StronglySorted cheaper sel;
  sel_best : Forall (fun r => Forall (cheaper r) (pending_transactions s)) sel;
  sel_messages : total_messages sel <= 500 }.

Lemma selecting_step pending sel s top rest : priority_queue -> Forall (fun r => 0 < messages_of r) pending ->
  selecting pending sel s -> pop (pending_transactions s) = Some (top, rest) -> total_messages sel + messages_of top <= 500 ->
  selected_transaction_count s < 500 /\
  selecting pending (sel ++ [top]) (Selection (<[Z.to_nat (selected_transaction_count s) := Some top]> (selected_transaction_pool s))
    (u32 (selected_transaction_count s + 1)) rest).
Proof.
  intros Q Pos [Sl Sc St Sp Ss Sb Sm] Po Le. destruct (pop_some Q _ _ _ Po) as [Pm Best].
  assert (Pos' : Forall (fun r => 0 < messages_of r) (sel ++ [top])).
  { rewrite <- Sp, <- Pm in Pos. apply Forall_app in Pos as [P1 P2]. apply Forall_cons in P2 as [P2 _]. apply Forall_app. auto. }
  pose proof (total_messages_length _ Pos') as Ln. rewrite total_messages_snoc, length_app in Ln. cbn [length] in Ln.
  split; [rewrite Sc; lia |]. split; cbn [selected_transaction_pool selected_transaction_count pending_transactions].
  - rewrite length_insert. exact Sl.
  - rewrite Sc, length_app. cbn [length]. unfold u32. rewrite Z.mod_small; lia.
  - rewrite Sc, Nat2Z.id, length_app. cbn [length]. rewrite map_app, <- St.
    replace (length sel + 1)%nat with (S (length sel)) by lia.
    rewrite (take_S_r _ _ (Some top)) by (apply list_lookup_insert_eq; lia). rewrite take_insert, decide_False by lia. reflexivity.
  - rewrite <- app_assoc. cbn [app]. rewrite Pm. exact Sp.
  - apply StronglySorted_snoc; [exact Ss |]. eapply Forall_impl; [exact Sb |]. cbn. intros r F. rewrite <- Pm in F. inversion F. assumption.
  - apply Forall_app. split.
    + eapply Forall_impl; [exact Sb |]. cbn. intros r F. rewrite <- Pm in F. inversion F. assumption.
    + repeat constructor. eapply Forall_impl; [exact Best |]. unfold cheaper, sort_by_gas. cbn. intros y Y. lia.
  - rewrite total_messages_snoc. exact Le.
Qed.

Lemma select_loop_spec pending : priority_queue -> Forall (fun r => 0 < messages_of r) pending -> forall fuel sel s,
  selecting pending sel s -> length (pending_transactions s) = fuel ->
  ends (select_loop pop fuel (total_messages sel)) s (fun s' _ => exists sel', selecting pending sel' s' /\
    match pop (pending_transactions s') with Some (top, _) => 500 < total_messages sel' + messages_of top | None => True end) no_exc.
Proof.
  intros Q Pos. induction fuel as [| fuel IH]; intros sel s I Lf.
  - cbn [select_loop]. apply ends_bind. unfold ends at 1, gets. destruct (pop (pending_transactions s)) as [[top rest] |] eqn:Po.
    + destruct (pop_some Q _ _ _ Po) as [Pm _]. apply Permutation_length in Pm. cbn in Pm. lia.
    + exists sel. rewrite Po. auto.
  - cbn [select_loop]. apply ends_bind. unfold ends at 1, gets. destruct (pop (pending_transactions s)) as [[top rest] |] eqn:Po.
    2: { exists sel. rewrite Po. auto. }
    destruct (Z.ltb_spec block_max_message_count (total_messages sel + messages_of top)) as [Lt | Le]; unfold block_max_message_count in *.
    { exists sel. rewrite Po. auto. }
    destruct (selecting_step _ _ _ _ _ Q Pos I Po Le) as [Lc I']. rewrite (sel_pool _ _ _ I).
    destruct (Z.leb_spec (Z.of_nat 500) (selected_transaction_count s)); [lia |]. apply ends_bind. unfold ends at 1, update.
    pose proof (total_messages_nonneg sel) as T0. pose proof (messages_of_nonneg top) as T1.
    replace (u32 (total_messages sel + messages_of top)) with (total_messages (sel ++ [top]))
      by (rewrite total_messages_snoc; unfold u32; rewrite Z.mod_small; lia).
    apply IH; [exact I' |].
    cbn. destruct (pop_some Q _ _ _ Po) as [Pm _]. apply Permutation_length in Pm. cbn in Pm. lia.
Qed.
End Selection.

(** ** The checks on arrival decide *)

(** A check ends normally if [P] holds and with an exception if not, and
    reads the database only. *)
Definition decides (db : database) (m : M database unit) (P : Prop) : Prop :=
  (P /\ m db = Ret db tt) \/ (~ P /\ exists e, m db = Exc db e).

Lemma decides_seq db m m' P Q : decides db m P -> (P -> decides db m' Q) -> decides db (m ;; m') (P /\ Q).
Proof.
  unfold decides, mbind, M_bind. intros [[HP ->] | [NP (e & ->)]] D; [| right; split; [tauto | eauto]].
  destruct (D HP) as [[HQ ->] | [NQ (e & ->)]]; [left; auto | right; split; [tauto | eauto]].
Qed.

Lemma decides_iff db m P Q : decides db m P -> (P <-> Q) -> decides db m Q.
Proof. unfold decides. intros D E. rewrite <- E. exact D. Qed.

Lemma decides_require db b e P : (b = true <-> P) -> decides db (require b e) P.
Proof. intros E. destruct b; [left | right]; (split; [| try reflexivity]); [apply E; reflexivity | | exists e; reflexivity]. intros HP. apply E in HP. discriminate. Qed.

Lemma decides_for_each {B} db (l : list B) f (P : B -> Prop) :
  (forall x, decides db (f x) (P x)) -> decides db (for_each l f) (Forall P l).
Proof.
  intros Hf. induction l as [| x l IH]; [left; split; [constructor | reflexivity] |]. cbn [for_each].
  eapply decides_iff; [apply decides_seq; [apply Hf | intros _; exact IH] |]. rewrite Forall_cons. reflexivity.
Qed.

Lemma decides_find {R} `{Object R} db (p : R -> bool) (k : option Z -> M database unit) P :
  (forall o, (is_found o = true <-> exists id r, table R db !! id = Some r /\ p r = true) -> decides db (k o) P) ->
  decides db (o ← db_find p; k o) P.
Proof.
  intros Hk. unfold db_find, mbind, M_bind, gets. apply (Hk (find_id p (table R db))).
  destruct (find_id p (table R db)) as [id |] eqn:F; cbn; split; intros E; try discriminate; try reflexivity.
  - apply find_id_Some in F as (r & L & Pr). eauto.
  - destruct E as (id & r & L & Pr). rewrite (find_id_None _ _ _ _ F L) in Pr. discriminate.
Qed.

Lemma strictly_sorted_iff l : strictly_sorted l = true <-> StronglySorted Z.lt l.
Proof.
  split; [apply strictly_sorted_spec |]. induction 1 as [| x l S IH F]; [reflexivity |].
  destruct l as [| y l]; [reflexivity |]. change (((x <? y) && strictly_sorted (y :: l)) = true).
  rewrite IH. inversion F; subst. lia.
Qed.

Lemma set_intersection_elem a : forall b x, StronglySorted Z.lt a -> StronglySorted Z.lt b ->
  x ∈ set_intersection a b <-> x ∈ a /\ x ∈ b.
Proof.
  induction a as [| y a IHa]; intros b x Sa Sb; [cbn; split; [intros I; inversion I | intros [I _]; exact I] |].
  pose proof (StronglySorted_inv Sa) as [Sa' Fa]. rewrite Forall_forall in Fa.
  induction b as [| z b IHb]; [cbn; split; [intros I; inversion I | intros [_ I]; inversion I] |].
  pose proof (StronglySorted_inv Sb) as [Sb' Fb]. rewrite Forall_forall in Fb. cbn [set_intersection].
  destruct (Z.ltb_spec y z) as [Lt | Ge]; [| destruct (Z.ltb_spec z y) as [Lt' | Ge']].
  - rewrite IHa by assumption. rewrite !elem_of_cons. split; [tauto |]. intros [[-> | I] [-> | I']]; try lia; try tauto.
    specialize (Fb _ I'). lia.
  - etransitivity; [exact (IHb Sb') |]. rewrite !elem_of_cons. split; [tauto |]. intros [[-> | I] [-> | I']]; try lia; try tauto.
    specialize (Fa _ I). lia.
  - assert (y = z) as -> by lia. rewrite !elem_of_cons, IHa by assumption. split; [tauto |].
    intros [[E1 | I] [E2 | I']]; tauto.
Qed.

Section Arrival.
Context `{Crypto} (skip_flags head_block_time : Z) (db : database).
Hypothesis HT : 0 <= head_block_time < 2 ^ 62.

Definition account_exists (n : Z) : Prop := exists id a, table account_object db !! id = Some a /\ acc_name a = n.

Record acceptable (t : signed_transaction) : Prop := {
  ac_messages : messages (trx t) <> [];
  ac_scoped : scope (trx t) <> [] \/ read_scope (trx t) <> [];
  ac_sorted : StronglySorted Z.lt (scope (trx t)) /\ StronglySorted Z.lt (read_scope (trx t));
  ac_disjoint : forall n, n ∈ scope (trx t) -> n ∉ read_scope (trx t);
  ac_time : head_block_time <= expiration (trx t) <= head_block_time + 600 * 1000000;
  ac_tapos : Z.land skip_flags 64 = 0 -> exists r, table block_summary_object db !! u16 (ref_block_num (trx t)) = Some r /\
    transaction_verify_reference_block (trx t) (sum_block_id r) = true;
  ac_accounts : Forall account_exists (scope (trx t)) /\
    Forall (fun msg => account_exists (msg_code msg) /\ Forall (fun au => account_exists (account au)) (authorization msg)) (messages (trx t));
  ac_fresh : Z.land skip_flags 4 = 0 -> forall id r, table transaction_object db !! id = Some r -> rec_trx_id r <> trx_id t }.

Lemma decides_account n : decides db (require_account n) (account_exists n).
Proof.
  unfold require_account. apply decides_find. intros o E. apply decides_require. rewrite E.
  split; intros (id & a & L & N); exists id, a; (split; [exact L |]); [apply Z.eqb_eq | apply Z.eqb_eq]; exact N.
Qed.

Lemma decides_scope t : decides db (validate_scope t)
  ((scope t <> [] \/ read_scope t <> []) /\ StronglySorted Z.lt (scope t) /\ StronglySorted Z.lt (read_scope t) /\
   (forall n, n ∈ scope t -> n ∉ read_scope t)).
Proof.
  unfold validate_scope. apply decides_seq; [| intros _].
  { apply decides_require. rewrite Z.ltb_lt. destruct (scope t), (read_scope t); cbn; split; intros; try lia; try tauto; [right | left | left]; discriminate. }
  apply decides_seq; [apply decides_require, strictly_sorted_iff | intros S1].
  apply decides_seq; [apply decides_require, strictly_sorted_iff | intros S2]. apply decides_require.
  pose proof (fun x => set_intersection_elem _ _ x S1 S2) as E. destruct (set_intersection (scope t) (read_scope t)) as [| x l].
  - split; [intros _ n I I' | reflexivity]. assert (n ∈ @nil Z) by (apply E; auto). inversion H0.
  - split; [discriminate |]. intros D. assert (I : x ∈ x :: l) by left. apply E in I as [I I']. destruct (D x I I').
Qed.

Lemma decides_expiration t : decides db (validate_expiration head_block_time t)
  (head_block_time <= expiration t <= head_block_time + 600 * 1000000).
Proof.
  unfold validate_expiration, max_trx_lifetime, Tables.int64.
  replace (_ && _) with true by lia. cbn [mbind M_bind mret M_ret].
  eapply decides_iff; [apply decides_seq; [apply decides_require, Z.leb_le | intros _; apply decides_require, Z.leb_le] |]. lia.
Qed.

Lemma decides_tapos t : decides db (validate_tapos skip_flags t)
  (Z.land skip_flags 64 = 0 -> exists r, table block_summary_object db !! u16 (ref_block_num t) = Some r /\
     transaction_verify_reference_block t (sum_block_id r) = true).
Proof.
  unfold validate_tapos, should_check_tapos. change skip_tapos_check with 64.
  destruct (Z.eqb_spec (Z.land skip_flags 64) 0) as [E | N]; cbn [negb]; [| left; split; [intros E'; destruct (N E') | reflexivity]].
  unfold db_get_at, deref, gets, mbind, M_bind, decides.
  destruct (table block_summary_object db !! _) as [r |] eqn:L; cbn.
  - rewrite L. cbn. destruct (transaction_verify_reference_block t (sum_block_id r)) eqn:V; cbn; [left; split; [eauto | reflexivity] |].
    right. split; [| eauto]. intros D. destruct (D E) as (r' & [= <-] & V'). congruence.
  - right. split; [| eauto]. intros D. destruct (D E) as (r' & D' & _). discriminate.
Qed.

Lemma decides_accounts t : decides db (validate_referenced_accounts t)
  (Forall account_exists (scope t) /\
   Forall (fun msg => account_exists (msg_code msg) /\ Forall (fun au => account_exists (account au)) (authorization msg)) (messages t)).
Proof.
  unfold validate_referenced_accounts. apply decides_seq; [apply decides_for_each, decides_account | intros _].
  apply decides_for_each. intros msg. apply decides_seq; [apply decides_account | intros _].
  apply decides_for_each. intros au. apply decides_account.
Qed.

Lemma decides_unique t : decides db (validate_uniqueness skip_flags t)
  (Z.land skip_flags 4 = 0 -> forall id r, table transaction_object db !! id = Some r -> rec_trx_id r <> trx_id t).
Proof.
  unfold validate_uniqueness, should_check_for_duplicate_transactions. change skip_transaction_dupe_check with 4.
  destruct (Z.eqb_spec (Z.land skip_flags 4) 0) as [E | N]; cbn [negb]; [| left; split; [intros E'; destruct (N E') | reflexivity]].
  apply decides_find. intros o O. apply decides_require. rewrite negb_true_iff. split.
  - intros F _ id r L Er. rewrite (proj2 O) in F; [discriminate |]. exists id, r. split; [exact L | apply bool_decide_eq_true, Er].
  - intros D. apply not_true_iff_false. intros T. apply O in T as (id & r & L & Er). apply bool_decide_eq_true in Er. exact (D E id r L Er).
Qed.

Lemma check_trx_decides request : exists b, check_trx skip_flags head_block_time request db = Ret db b /\
  (b = true <-> acceptable (signed_trx request)).
Proof.
  set (t := signed_trx request).
  assert (D : decides db (
     require (0 <? Z.of_nat (length (messages (trx t)))) "A transaction must have at least one message" ;;
     validate_scope (trx t) ;; validate_expiration head_block_time (trx t) ;; validate_tapos skip_flags (trx t) ;;
     validate_referenced_accounts (trx t) ;; validate_uniqueness skip_flags t) (acceptable t)).
  { eapply decides_iff.
    - apply decides_seq with (P := messages (trx t) <> []).
      { apply decides_require. rewrite Z.ltb_lt. destruct (messages (trx t)); cbn; split; intros; try lia; congruence. }
      intros _. apply decides_seq; [apply decides_scope | intros _]. apply decides_seq; [apply decides_expiration | intros _].
      apply decides_seq; [apply decides_tapos | intros _]. apply decides_seq; [apply decides_accounts | intros _]. apply decides_unique.
    - split; [intros (? & (? & ? & ? & ?) & ? & ? & ? & ?); split; auto | intros []; tauto]. }
  assert (E : forall (m1 m2 m3 m4 m5 m6 : M database unit),
    (m1 ;; m2 ;; m3 ;; m4 ;; m5 ;; m6 ;; mret true) db = ((m1 ;; m2 ;; m3 ;; m4 ;; m5 ;; m6) ;; mret true) db).
  { intros. unfold mbind, M_bind. repeat match goal with |- context [match ?m ?d with _ => _ end] => destruct (m d); try reflexivity end. }
  unfold check_trx, catch_all. fold t. rewrite E. unfold mbind at 1, M_bind at 1.
  destruct D as [[P ->] | [NP (e & ->)]]; [exists true | exists false]; cbn; (split; [reflexivity |]); split; congruence || tauto.
Qed.
End Arrival.
