(* ===== verification/ApplyingProps.v ===== *)
(** Transactions from the outside: what fails leaves no trace, one message may
    be applied several times, and the selection for a block. *)

From Stdlib Require Import ZArith Lia Bool Ascii String List Sorted Permutation.
From stdpp Require Import base decidable gmap list.
From S2P Require Import Prelude Asset ChainUtils Block BlockPack Effects UndoIndex UndoIndexThm DbSession Objects Tables Context Authority.
From S2P Require Import AuthorityThm Voting SystemContract SystemContractProps Erc ErcProps NativeApi Tracked Transaction Applying ApplyingThm.
Import ListNotations.
Local Open Scope Z_scope.

Local Abbreviation database := (list (generic_index row)).


(** C36: the checks on arrival.  check_trx accepts a transaction exactly when it
    has messages and scopes, the scopes are strictly increasing and disjoint
    from those it only reads, it expires within ten minutes, it refers to a
    block of this chain, every account it names exists, and it has not been
    recorded before; it changes nothing and throws nothing. *)
Theorem arrival_checks `{Crypto} skip_flags head_block_time db request : 0 <= head_block_time < 2 ^ 62 ->
  exists b, check_trx skip_flags head_block_time request db = Ret db b /\
    (b = true <-> acceptable skip_flags head_block_time db (signed_trx request)).
Proof. intros HT. apply check_trx_decides, HT. Qed.

(** The execution of a transaction ends.  When the handlers and contracts
    of the allowed messages notify accounts of a set [L] only, nobody twice,
    and send allowed messages only, then with fuel for the accounts of [L] the
    execution is never out of fuel, and more fuel makes no difference. *)
Theorem execution_ends hs hash_message t t_id now building js_apply L allowed fuel x :
  (forall k h cx, message_handlers hs !! k = Some h -> allowed (call_msg cx) -> within_bounds L allowed w_ctx (h cx)) ->
  (forall limit cx, allowed (call_msg cx) -> within_bounds L allowed w_ctx (js_apply limit cx)) ->
  (forall msg, allowed msg -> msg_code msg ∈ L) ->
  Forall allowed (messages t) -> (length L <= fuel)%nat ->
  exec hs hash_message t t_id now building js_apply fuel x = exec hs hash_message t t_id now building js_apply (length L) x /\
  match exec hs hash_message t t_id now building js_apply fuel x with Ret _ ok => ok = true | _ => True end.
Proof. intros HH HJ HC Fa Le. exact (exec_fueled hs hash_message t t_id now building js_apply L allowed HH HJ HC Fa fuel x Le). Qed.

(** C37: the selection for a block.  From a queue whose transactions have
    messages, as the checks on arrival see to, the selection writes within its
    pool of 500, takes the transactions in the order of decreasing gas with at
    most 500 messages in all, loses none, and stops only before one that does
    not fit or at the end of the queue. *)
Theorem selection_fits pop s : priority_queue pop -> length (selected_transaction_pool s) = 500%nat ->
  Forall (fun r => 0 < messages_of r) (pending_transactions s) ->
  exists s' sel, select_transactions_by_gas pop s = Ret s' tt /\
    selected_transaction_count s' = Z.of_nat (length sel) /\
    take (length sel) (selected_transaction_pool s') = map Some sel /\
    sel ++ pending_transactions s' ≡ₚ pending_transactions s /\
    StronglySorted cheaper sel /\ Forall (fun r => Forall (cheaper r) (pending_transactions s')) sel /\
    Z.of_nat (length sel) <= 500 /\ total_messages sel <= 500 /\
    match pop (pending_transactions s') with
    | Some (top, _) => 500 < total_messages sel + messages_of top
    | None => pending_transactions s' = []
    end.
Proof.
  intros Q Lp Pos. set (s0 := Selection (selected_transaction_pool s) 0 (pending_transactions s)).
  assert (I : selecting (pending_transactions s) [] s0) by (split; cbn; try constructor; try exact Lp; try reflexivity; lia).
  pose proof (select_loop_spec pop _ Q Pos _ [] s0 I eq_refl) as E. apply ends_ret in E as (s' & [] & E & sel & I' & Stop).
  exists s', sel. split; [exact E |]. destruct I' as [Sl Sc St Sp Ss Sb Sm]. repeat (split; [assumption |]).
  assert (Pos' : Forall (fun r => 0 < messages_of r) sel) by (rewrite <- Sp in Pos; apply Forall_app in Pos as [P _]; exact P).
  pose proof (total_messages_length _ Pos'). split; [lia |]. split; [exact Sm |].
  destruct (pop (pending_transactions s')) as [[top rest] |] eqn:Po; [exact Stop | exact (pop_none _ Q _ Po)].
Qed.

(** ** Witnesses *)

#[local] Existing Instances toy_crypto SystemContractProps.toy_system_codec AuthorityThm.toy_codec ErcProps.toy_erc_codec.

Definition toy_nothing : native_handler := fun _ => mret tt.
Definition toy_registered : handlers :=
  register_handlers (fun z => z) SystemContractProps.toy_no_raw 0 ErcProps.zero_stack toy_nothing toy_nothing toy_nothing no_handlers.
Definition toy_js : Z -> call -> M world Z := fun _ _ => mret 0.

(** The system contract, and accounts 7 and 9 with a hundred tokens. *)
Definition toy_chain_db : database :=
  created (Account xmax_contract_name acc_system 0 None) (created (Account 7 acc_personal 0 None) (created (Account 9 acc_personal 0 None)
  (created (XmxToken 7 100) (created (XmxToken 9 100) (created (MsgStatus 0) (created (TrxStatus 0) empty_db)))))).

Definition toy_applying (db : database) : applying := Applying db toy_first [] 0 0.

Definition toy_transfer (amount : Z) : message := Message xmax_contract_name (name_of "transfer") [] [7; 9; amount].
Definition toy_request (l : list message) : transaction_request :=
  request_of_trx (SignedTransaction (Transaction 0 0 0 [7; 9] [] l 0 0 0) []).

Definition toy_apply (hs : handlers) (r : transaction_request) (db : database) :=
  apply_transaction_impl 1000 hs (fun _ => empty_chain_id) toy_js (fun z => z) empty_chain_id 0 5 r true (toy_applying db).

Lemma created_ready {R} `{Object R} (r : R) db : valid db -> forallb (fun ix => -1 <=? revision ix) db = true ->
  Forall ready db.
Proof.
  intros V F. apply Forall_lookup. intros i ix E. split; [eapply valid_good; eauto |].
  rewrite forallb_forall in F. apply Z.leb_le, F, list_elem_of_In. eapply list_elem_of_lookup_2, E.
Qed.

Lemma toy_ready : Forall ready toy_chain_db.
Proof.
  apply (created_ready (MsgStatus 0)); [repeat apply created_valid; apply empty_valid | vm_compute; reflexivity].
Qed.

Lemma toy_tracked : tracked_handlers (interface_handlers toy_registered).
Proof. apply standard_handlers_tracked; intros cx; apply tracked_in_ret. Qed.


(** The accounts' tokens after an application that gives a receipt. *)
Definition toy_tokens (o : outcome applying (option transaction_response)) : option (list (Z * Z)) :=
  match o with
  | Ret s (Some (Response (Some _) _ None)) => Some (map (fun kv => (xmx_owner kv.2, main_token kv.2)) (map_to_list (table xmx_token_object (a_db s))))
  | _ => None
  end.

(** The sender and the receiver are notified, and as personal accounts they
    are served by the handler of the system contract: one transfer of ten
    tokens moves thirty. *)
Example transfer_applied_three_times :
  toy_tokens (toy_apply toy_registered (toy_request [toy_transfer 10]) toy_chain_db) = Some [(7, 70); (9, 130)].
Proof. vm_compute. reflexivity. Qed.

(** Two ERC721 tokens of one kind that their holders exchange in a transaction
    that fails later: the undo of the session runs into an end iterator. *)
Definition toy_art_db : database :=
  created (Account toy_art acc_erc721 0 None) (created (Erc721 toy_art 7 0 0)
  (created (Erc721Account toy_art (Sha 47 0 0 0) 9 []) (created (Erc721Account toy_art (Sha 31 0 0 0) 7 []) toy_chain_db))).

Definition toy_exchange (from to : Z) (digits : list Z) : message :=
  Message toy_art (name_of "transferfrom") [AccountAuth from 0] (toy_art :: from :: to :: digits).

(** The tokens 1f and 2f: the first goes to 5, and the second to its old owner. *)
Example failed_exchange_not_undone :
  apply_transaction_impl 1000 toy_registered (fun _ => empty_chain_id) toy_js (fun z => z) empty_chain_id 0 5
    (request_of_trx (SignedTransaction (Transaction 0 0 0 [5; 7; 9] []
       [toy_exchange 7 5 [49; 102]; toy_exchange 9 7 [50; 102]; toy_transfer 500] 0 0 0) [])) false
    (toy_applying (created (Account 5 acc_personal 0 None) toy_art_db)) = Undef.
Proof. vm_compute. reflexivity. Qed.

Definition toy_arrived : transaction_request :=
  request_of_trx (SignedTransaction (Transaction 0 0 2000 [7; 9] [] [toy_transfer 10] 0 0 0) []).

(** The default reference block is that of an empty summary. *)
Lemma arrival_checks_witness : exists b, 0 <= 1000 < 2 ^ 62 /\
  check_trx 0 1000 toy_arrived (created (BlockSummary empty_chain_id) toy_chain_db) = Ret (created (BlockSummary empty_chain_id) toy_chain_db) b /\ b = true.
Proof.
  destruct (arrival_checks 0 1000 (created (BlockSummary empty_chain_id) toy_chain_db) toy_arrived ltac:(lia)) as (b & E & _).
  exists b. split; [lia |]. split; [exact E |].
  assert (T : match check_trx 0 1000 toy_arrived (created (BlockSummary empty_chain_id) toy_chain_db) with Ret _ b => b | _ => false end = true)
    by (vm_compute; reflexivity).
  rewrite E in T. exact T.
Defined.

(** Transfers among 7, 9 and the contract. *)
Definition toy_parties : list Z := [xmax_contract_name; 7; 9].
Definition toy_allowed (m : message) : Prop := msg_code m ∈ toy_parties /\
  forall tr, as_transfer (msg_data m) = Some tr -> tr_from tr ∈ toy_parties /\ tr_to tr ∈ toy_parties.
Definition toy_transfers : handlers :=
  set_native_handler native_system (name_of "transfer") (xmax_system_transfer (fun z => z)) 5 no_handlers.

Lemma toy_transfers_bounded k h cx : message_handlers toy_transfers !! k = Some h -> toy_allowed (call_msg cx) ->
  within_bounds toy_parties toy_allowed w_ctx (h cx).
Proof.
  intros E [_ Al]. unfold toy_transfers, set_native_handler, message_handlers, no_handlers in E.
  apply lookup_insert_Some in E as [[_ <-] | [_ E]]; [apply transfer_bounds, Al | rewrite lookup_empty in E; discriminate].
Qed.

Lemma execution_ends_witness : (length toy_parties <= 7)%nat /\
  exec toy_transfers (fun _ => empty_chain_id) (trx (signed_trx toy_arrived)) empty_chain_id 0 0 toy_js 7 (TrxContext toy_chain_db 0 [] []) =
  exec toy_transfers (fun _ => empty_chain_id) (trx (signed_trx toy_arrived)) empty_chain_id 0 0 toy_js (length toy_parties) (TrxContext toy_chain_db 0 [] []).
Proof.
  split; [cbn; lia |].
  assert (Fa : Forall toy_allowed (messages (trx (signed_trx toy_arrived)))).
  { constructor; [| constructor]. split; [repeat constructor |]. intros tr E. injection E as <-. split; repeat constructor. }
  assert (HJ : forall limit cx, toy_allowed (call_msg cx) -> within_bounds toy_parties toy_allowed w_ctx (toy_js limit cx))
    by (intros limit cx _; apply bounds_ret).
  assert (Le : (length toy_parties <= 7)%nat) by (cbn; lia).
  pose proof (execution_ends toy_transfers (fun _ => empty_chain_id) (trx (signed_trx toy_arrived)) empty_chain_id 0 0 toy_js toy_parties
    toy_allowed 7 (TrxContext toy_chain_db 0 [] []) toy_transfers_bounded HJ (fun msg Al => proj1 Al) Fa Le) as T.
  apply proj1 in T. exact T.
Defined.

(** A queue as the standard library has it: the one with the most gas first. *)
Fixpoint toy_pop (l : list transaction_request) : option (transaction_request * list transaction_request) :=
  match l with
  | [] => None
  | x :: l =>
      match toy_pop l with
      | None => Some (x, [])
      | Some (y, rest) => if sort_by_gas x y then Some (y, x :: rest) else Some (x, y :: rest)
      end
  end.

Lemma toy_queue : priority_queue toy_pop.
Proof.
  split.
  - intros [| x l]; [reflexivity |]. cbn. destruct (toy_pop l) as [[y rest] |]; [destruct (sort_by_gas x y) |]; discriminate.
  - induction l as [| x l IH]; intros z rest; cbn; [discriminate |]. destruct (toy_pop l) as [[y r] |] eqn:P.
    + specialize (IH y r eq_refl) as [Pm Best]. destruct (sort_by_gas x y) eqn:G; intros [= <- <-].
      * split; [rewrite <- Pm; apply Permutation_swap |]. constructor; [unfold sort_by_gas in *; lia | exact Best].
      * split; [rewrite <- Pm; reflexivity |]. constructor; [exact G |]. eapply Forall_impl; [exact Best |].
        unfold sort_by_gas in *. cbn. intros w. lia.
    + intros [= <- <-]. destruct l as [| y l]; [split; [reflexivity | constructor] |].
      cbn in P. destruct (toy_pop l) as [[? ?] |]; [destruct (sort_by_gas _ _) |]; discriminate.
Qed.

Definition toy_priced (n : nat) (gas : Z) : transaction_request :=
  request_of_trx (SignedTransaction (Transaction 0 0 0 [] [] (repeat (toy_transfer 1) n) 0 gas 0) []).
Definition toy_pool : list (option transaction_request) := repeat None 500.

Lemma selection_fits_witness : exists s' sel,
  select_transactions_by_gas toy_pop (Selection toy_pool 0 [toy_priced 1 5; toy_priced 300 7; toy_priced 200 6]) = Ret s' tt /\
  Z.of_nat (length sel) <= 500 /\ total_messages sel <= 500.
Proof.
  destruct (selection_fits toy_pop (Selection toy_pool 0 [toy_priced 1 5; toy_priced 300 7; toy_priced 200 6]) toy_queue
    (repeat_length _ _) ltac:(repeat constructor)) as (s' & sel & E & _ & _ & _ & _ & _ & L & M & _).
  exists s', sel. auto.
Defined.

(** A transaction with more messages than a block holds and the highest gas is
    never taken, and keeps all others in the queue. *)
Example oversized_transaction_blocks_the_queue :
  match select_transactions_by_gas toy_pop (Selection toy_pool 0 [toy_priced 1 5; toy_priced 501 7; toy_priced 2 6]) with
  | Ret s _ => (selected_transaction_count s, map messages_of (pending_transactions s)) = (0, [1; 501; 2])
  | _ => False
  end.
Proof. vm_compute. reflexivity. Qed.
