(* ===== verification/Replay.v ===== *)
(** The transactions of a block applied again: the receipts of a block name
    exactly the transactions that took effect, and applying those to the state
    before the block leads to the same state and the same block. *)

From Stdlib Require Import ZArith Lia Bool String List.
From stdpp Require Import base decidable gmap list.
From S2P Require Import Prelude ChainUtils Block BlockPack Effects UndoIndex UndoIndexThm DbSession Objects Tables Context Authority.
From S2P Require Import Voting SystemContract NativeApi Tracked Transaction Applying ApplyingThm.
Import ListNotations.
Local Open Scope Z_scope.

Local Abbreviation database := (list (generic_index row)).

(** transaction_request(package); the package of nothing has a default body. *)
Definition request_of_package (p : transaction_package) : transaction_request :=
  Request (match unpack_trx p with Some t => t | None => SignedTransaction default_transaction [] end) p.

(** The loop of _apply_block over the receipts; [None]: a receipt without its
    transaction, which it refuses. *)
Fixpoint requests_of (l : list transaction_receipt) : option (list transaction_request) :=
  match l with
  | [] => Some []
  | r :: l =>
      match rec_trx r with
      | by_id _ => None
      | by_package p => match requests_of l with Some rs => Some (request_of_package p :: rs) | None => None end
      end
  end.

Section Replay.
Context `{Crypto} `{AuthCodec} (skip_flags head_block_time : Z).
Context (hs : handlers) (hash_message : message -> sha256) (js_apply : Z -> call -> M world Z) (to_share : Z -> Z).
Context (chain_id : sha256) (raw_idx : Z) (fuel : nat).
Hypothesis HS : tracked_handlers hs.
Hypothesis JS : forall limit cx, tracked_in w_db (js_apply limit cx).
Context (bases : database) (RB : Forall ready bases).

Local Abbreviation body := (apply_body head_block_time hs hash_message js_apply to_share chain_id raw_idx fuel).
Local Abbreviation apply_impl := (apply_transaction_impl head_block_time hs hash_message js_apply to_share chain_id raw_idx fuel).
Local Abbreviation apply_one := (apply_transaction skip_flags head_block_time hs hash_message js_apply to_share chain_id raw_idx fuel).
Local Abbreviation apply_all := (apply_transactions skip_flags head_block_time hs hash_message js_apply to_share chain_id raw_idx fuel).

(** A transaction kept within an outer session. *)
Lemma in_trx_within {A} (m : M applying A) s s' a : all_within bases (a_db s) -> tracked_in a_db m -> in_trx m s = Ret s' a ->
  all_within bases (a_db s').
Proof.
  intros W T E. pose proof (all_within_ready _ _ RB W) as R. destruct (start_sessions (a_db s) R) as [W1 O].
  apply in_trx_ret in E as (s1 & E & ->). specialize (T (a_db s) (set_a_db (fst (db_start_undo_session true (a_db s))) s) R W1).
  rewrite E in T. exact (squash_sessions _ _ _ _ W T O).
Qed.

Lemma quiet_ret_block {A} (m : M applying A) s s' a : quiet m -> m s = Ret s' a -> block (a_pack s') = block (a_pack s).
Proof. intros Q E. specialize (Q s). rewrite E in Q. unfold same_block in Q. destruct s, s'. cbn in *. injection Q as -> -> -> ->. reflexivity. Qed.

Lemma on_block_ret f s s' u b : block (a_pack s) = Some b -> on_block f s = Ret s' u -> block (a_pack s') = Some (f b).
Proof. intros B E. unfold on_block in E. rewrite B in E. destruct (a_pack s). injection E as <- _. reflexivity. Qed.

(** What a transaction that is applied adds to the block. *)
Lemma receipt_block t s s' p b : block (a_pack s) = Some b -> apply_transaction_receipt raw_idx t s = Ret s' p ->
  exists idx, block (a_pack s') = Some (push_receipt (Receipt idx applied (by_package (set_trx t))) b).
Proof.
  intros B E. unfold apply_transaction_receipt in E.
  apply ret_of_bind in E as (s1 & u1 & E1 & E). apply (on_block_ret _ _ _ _ _ B) in E1.
  apply ret_of_bind in E as (s2 & obj & E2 & E). apply quiet_ret_block in E2; [| apply quiet_on_chain].
  apply ret_of_bind in E as (s3 & u3 & E3 & E). apply quiet_ret_block in E3; [| apply quiet_on_chain].
  apply ret_of_bind in E as (s4 & mrs & E4 & E). apply quiet_ret_block in E4; [| apply quiet_on_chain].
  apply ret_of_bind in E as (s5 & u5 & E5 & E). rewrite <- E2, <- E3, <- E4 in E1. apply (on_block_ret _ _ _ _ _ E1) in E5.
  injection E as <- _. exists (trx_counter mrs). rewrite E5. unfold set_last_receipt, push_receipt, set_back. cbn.
  rewrite removelast_last. reflexivity.
Qed.

Lemma body_block request s s' impl r b : block (a_pack s) = Some b -> body request true s = Ret s' (Some (impl, r)) ->
  exists idx, block (a_pack s') = Some (push_receipt (Receipt idx applied (by_package (set_trx (signed_trx request)))) b).
Proof.
  intros B E. unfold apply_body in E. cbv zeta in E.
  apply ret_of_bind in E as (s1 & u1 & E1 & E). apply quiet_ret_block in E1; [| apply quiet_on_chain].
  apply ret_of_bind in E as (s2 & u2 & E2 & E). apply quiet_ret_block in E2;
    [| apply quiet_bind; [apply quiet_from_result | intros keys; apply quiet_on_chain]].
  apply ret_of_bind in E as (s3 & impl' & E3 & E).
  assert (B3 : block (a_pack s3) = block (a_pack s2)).
  { unfold exec_transaction in E3. destruct (exec _ _ _ _ _ _ _ _ _); [injection E3 as <- _; reflexivity | discriminate ..]. }
  destruct impl' as [impl' |]; [| discriminate].
  apply ret_of_bind in E as (s4 & x & E4 & E). injection E4 as <- <-.
  apply ret_of_bind in E as (s5 & u5 & E5 & E). apply quiet_ret_block in E5; [| apply quiet_on_chain].
  apply ret_of_bind in E as (s6 & u6 & E6 & E). apply quiet_ret_block in E6; [| apply quiet_on_chain].
  apply ret_of_bind in E as (s7 & rc & E7 & E). injection E as <- _ _.
  apply (receipt_block (signed_trx request) s6 s7 rc b); [congruence | exact E7].
Qed.

(** The three ways of an application: refused, failed without a trace, and
    applied with one receipt. *)
Lemma impl_cases request s s' r b : all_within bases (a_db s) -> block (a_pack s) = Some b ->
  apply_impl request true s = Ret s' (Some r) ->
  s' = s \/ (all_within bases (a_db s') /\
    exists idx, block (a_pack s') = Some (push_receipt (Receipt idx applied (by_package (set_trx (signed_trx request)))) b)).
Proof.
  intros W B E. pose proof (all_within_ready _ _ RB W) as R.
  pose proof (body_tracked head_block_time hs hash_message js_apply to_share chain_id raw_idx fuel HS JS request true) as T.
  unfold apply_transaction_impl, catch_fc in E. destruct (mbind _ (in_trx _) s) as [s1 o | s1 e |] eqn:In; [| | discriminate].
  - injection E as <- ->. right. apply ret_of_bind in In as (s2 & ap & E2 & In). destruct ap as [[impl resp] |]; [| discriminate].
    pose proof (in_trx_within _ _ _ _ W T E2) as W2. apply in_trx_ret in E2 as (s3 & E3 & ->).
    apply body_block with (b := b) in E3 as (idx & B3); [| destruct s; exact B].
    unfold update, mbind, M_bind, gets, int32 in In. destruct (_ && _); [| discriminate]. injection In as <- _. cbn in W2 |- *.
    split; [exact W2 |]. exists idx. rewrite <- B3. destruct s3 as [d p mr tc mc]. cbn. destruct p. reflexivity.
  - left. destruct (fc_exception e) eqn:F; [| discriminate]. injection E as <- _.
    unfold mbind, M_bind in In. destruct (in_trx _ s) as [s2 ap | s2 e2 |] eqn:E2; [| | discriminate].
    + exfalso. destruct ap as [[impl resp] |]; [| discriminate]. unfold update, gets, int32 in In. destruct (_ && _); discriminate.
    + injection In as -> ->. destruct (in_trx_exception _ s R T s1 e E2) as (s0 & B0 & ->).
      pose proof (body_clean head_block_time hs hash_message js_apply to_share chain_id raw_idx fuel request true
        (set_a_db (fst (db_start_undo_session true (a_db s))) s)) as C. rewrite B0 in C. specialize (C F).
      unfold same_block in C. destruct s, s0. cbn in *. injection C as -> -> -> ->. reflexivity.
Qed.

(** The transactions of a block and those of its receipts. *)
Lemma all_replayed (HT : 0 <= head_block_time < 2 ^ 62) l : Forall (fun r => r = request_of_trx (signed_trx r)) l -> forall s s' b,
  all_within bases (a_db s) -> block (a_pack s) = Some b -> apply_all l s = Ret s' true ->
  all_within bases (a_db s') /\
  exists rs reqs b', block (a_pack s') = Some b' /\ block_head b' = block_head b /\ receipts b' = receipts b ++ rs /\
    requests_of rs = Some reqs /\ sublist reqs l /\ apply_all reqs s = Ret s' true.
Proof.
  induction 1 as [| r l Er Fr IH]; intros s s' b W B E.
  { injection E as <-. split; [exact W |]. exists [], [], b. rewrite app_nil_r. repeat split; try exact B; constructor. }
  unfold apply_transactions in E. cbn [exec_all] in E. fold (apply_all l) in E.
  apply ret_of_bind in E as (s1 & ok & E1 & E). pose proof E1 as Step. apply ret_of_bind in E1 as (s2 & resp & E1 & E2).
  injection E2 as <- <-. destruct resp as [resp |]; [| discriminate].
  assert (C : s2 = s \/ (all_within bases (a_db s2) /\
    exists idx, block (a_pack s2) = Some (push_receipt (Receipt idx applied (by_package (set_trx (signed_trx r)))) b))).
  { unfold apply_transaction in E1. apply ret_of_bind in E1 as (s0 & ok & C & E1).
    unfold on_chain in C. destruct (check_trx_decides skip_flags head_block_time (a_db s) HT r) as (ok' & C' & _). rewrite C' in C.
    injection C as <- <-. replace (set_a_db (a_db s) s) with s in E1 by (destruct s; reflexivity).
    destruct ok'; [| injection E1 as -> _; left; reflexivity]. eapply impl_cases; eauto. }
  destruct C as [-> | (W2 & idx & B2)].
  - destruct (IH s s' b W B E) as (W' & rs & reqs & b' & B' & Hd & Rc & Rq & Sub & Again). split; [exact W' |].
    exists rs, reqs, b'. repeat split; try assumption. constructor. exact Sub.
  - destruct (IH s2 s' _ W2 B2 E) as (W' & rs & reqs & b' & B' & Hd & Rc & Rq & Sub & Again). split; [exact W' |].
    exists (Receipt idx applied (by_package (set_trx (signed_trx r))) :: rs), (r :: reqs), b'.
    split; [exact B' |]. split; [exact Hd |]. split; [rewrite Rc; cbn; rewrite <- app_assoc; reflexivity |].
    split; [cbn; rewrite Rq; f_equal; rewrite Er at 2; reflexivity |]. split; [constructor; exact Sub |].
    unfold apply_transactions. cbn [exec_all]. rewrite (mbind_ret _ _ _ _ _ Step). exact Again.
Qed.
End Replay.
