(* ===== verification/ForkRun.v ===== *)
(** The fork database as programs of the effects monad: the operations of
    [ForkDb] that may throw after they have changed something, with the state
    a throw leaves behind, for the chain that goes on afterwards.  The handler
    of irreversible blocks is a program on the state [W] of its owner.

    [add_block_pack_agrees] and [force_confirm_agrees] say that a run that ends
    normally is one of [ForkDb]'s, so that the theorems on it hold here. *)

From Stdlib Require Import ZArith Lia Bool String List.
From stdpp Require Import base decidable gmap list.
From S2P Require Import Prelude ChainUtils Block BlockPack Effects ForkDb SystemContract.
Import ListNotations.
Local Open Scope Z_scope.
Local Open Scope result_scope.

(** A step that throws before it has changed anything; a loop without end has
    no outcome. *)
Definition stepped {S} (f : S -> result S) : M S unit := fun s =>
  match f s with
  | Ok s' => Ret s' tt
  | Throw e => if String.eqb e "undefined" || String.eqb e "diverges" then Undef else Exc s e
  end.

(** What a program leaves, as a [result]. *)
Definition as_result {S} (m : M S unit) (s : S) : result S :=
  match m s with
  | Ret s' _ => Ok s'
  | Exc _ e => Throw e
  | Undef => Throw "undefined"
  end.

Section Run.
Context `{Crypto} {W : Type} (irreversible : block_pack -> M W unit).

Definition set_world (w : W) (c : fork_context W) : fork_context W :=
  Fork (heap c) (fresh c) (by_block_id c) (by_pre_id c) (by_number_less c) (by_longest_num c) (head c) w.

Definition on_world {A} (m : M W A) : M (fork_context W) A := fun c =>
  match m (world c) with
  | Ret w a => Ret (set_world w c) a
  | Exc w e => Exc (set_world w c) e
  | Undef => Undef
  end.

(** The calls of the handler. *)
Fixpoint run_report (ids : list sha256) : M (fork_context W) unit :=
  match ids with
  | [] => mret tt
  | id :: ids =>
      block ← gets (fun c => get_block c id);
      match block with
      | None => undefined
      | Some p =>
          c ← gets (fun c => c);
          on_world (irreversible (deref c p)) ;;
          update (fun c => store c p (with_irreversible_confirmed (deref c p) true)) ;;
          run_report ids
      end
  end.

Definition run_grow (last_confirmed_id : sha256) (last_confirmed_num : Z) : M (fork_context W) unit :=
  c ← gets (fun c => c);
  let '(confiremdlist, remlist) := scan c last_confirmed_id (take_until c last_confirmed_num (by_number_less c)) in
  run_report confiremdlist ;;
  update (remove_all remlist).

Definition run_force_confirm (last_confirmed_id : sha256) (last_confirmed_num : Z) : M (fork_context W) unit :=
  stepped (fun c => set_last_confirmed c last_confirmed_id) ;;
  run_grow last_confirmed_id last_confirmed_num.

Definition run_add_block_pack (p : ptr) : M (fork_context W) unit :=
  stepped (fun c => insert_pack c p) ;;
  c ← gets (fun c => c);
  match by_number_less c, head c with
  | earliest :: _, Some h =>
      let e := deref c earliest in
      let hd := deref c h in
      if block_num e <? last_confirmed_num hd then run_grow (last_confirmed_id hd) (last_confirmed_num hd)
      else if block_num e <? dpos_irreversible_num hd then
        stepped (fun c => set_last_confirmed c (dpos_irreversible_id hd)) ;;
        c ← gets (fun c => c);
        run_grow (dpos_irreversible_id (deref c h)) (dpos_irreversible_num (deref c h))
      else mret tt
  | _, _ => undefined
  end.

(** The pack made from a received block, as [ForkDb.add_block] makes it. *)
Definition received_pack (b : signed_block) (c : fork_context W) : result block_pack :=
  match by_block_id c !! previous b with
  | None => Throw "previous block not found."
  | Some preblock =>
      let* pack := init_by_pre_pack new_pack (deref c preblock) (timestamp b) false in
      let* _ := check (builder (new_header pack) =? builder b) "block_attack_exception" in
      let* bsign := is_signer_valid b (block_signing_key (bld_info pack)) in
      let* _ := check bsign "block_attack_exception" in
      Ok (generate_by_block pack b false false false)
  end.

Definition run_alloc (pack : block_pack) : M (fork_context W) ptr := fun c => let '(c, p) := alloc c pack in Ret c p.

Definition run_add_block (b : signed_block) : M (fork_context W) ptr :=
  made ← gets (received_pack b);
  pack ← from_result made;
  p ← run_alloc pack;
  run_add_block_pack p ;;
  mret p.

(** ** Agreement with [ForkDb] *)

Definition handled (b : block_pack) : W -> result W := as_result (irreversible b).

Lemma stepped_ok {S} (f : S -> result S) s s' u : stepped f s = Ret s' u <-> f s = Ok s'.
Proof using. unfold stepped. destruct u, (f s) as [x | e]; [intuition congruence |]. destruct (_ || _); split; discriminate. Qed.

Lemma bind_agrees {S} (m : M S unit) (f : unit -> M S unit) (g : S -> result S) (k : S -> result S) s s' :
  (forall s1, m s = Ret s1 tt <-> g s = Ok s1) -> (forall s1, m s = Ret s1 tt -> f tt s1 = Ret s' tt <-> k s1 = Ok s') ->
  ((m ≫= f) s = Ret s' tt <-> (bind (g s) k) = Ok s').
Proof using.
  intros Hm Hf. unfold mbind, M_bind, bind. destruct (m s) as [s1 [] | s1 e |] eqn:E.
  - pose proof (proj1 (Hm s1) eq_refl) as ->. apply Hf. reflexivity.
  - destruct (g s) as [x |] eqn:G; [| split; discriminate]. discriminate (proj2 (Hm x) eq_refl).
  - destruct (g s) as [x |] eqn:G; [| split; discriminate]. discriminate (proj2 (Hm x) eq_refl).
Qed.

Lemma stepped_agrees {S} (g k : S -> result S) (f : unit -> M S unit) s s' :
  (forall s1, f tt s1 = Ret s' tt <-> k s1 = Ok s') -> ((stepped g ≫= f) s = Ret s' tt <-> (bind (g s) k) = Ok s').
Proof using. intros Hf. apply bind_agrees; [intros s1; apply stepped_ok | intros s1 _; apply Hf]. Qed.

Lemma report_agrees ids : forall c c', run_report ids c = Ret c' tt <-> report handled ids c = Ok c'.
Proof using.
  induction ids as [| id ids IH]; intros c c'; cbn [run_report report]; [split; [intros [= <-] | intros [= <-]]; reflexivity |].
  unfold mbind, M_bind, gets, update, on_world, handled, as_result, bind at 1. destruct (get_block c id) as [p |]; [| split; discriminate].
  destruct (irreversible (deref c p) (world c)) as [w [] | w e |]; [| split; discriminate ..].
  apply IH.
Qed.

Lemma grow_agrees i n c c' : run_grow i n c = Ret c' tt <-> on_last_confirmed_grow handled c i n = Ok c'.
Proof using.
  unfold run_grow, on_last_confirmed_grow. unfold mbind at 1, M_bind at 1, gets at 1.
  destruct (scan _ _ _) as [conf rem].
  apply (bind_agrees _ _ (report handled conf) (fun c => Ok (remove_all rem c))); [intros c1; apply report_agrees |].
  intros c1 _. unfold update. split; intros [= <-]; reflexivity.
Qed.

Lemma force_confirm_agrees i n c c' : run_force_confirm i n c = Ret c' tt <-> force_confirm handled c i n = Ok c'.
Proof using.
  apply (stepped_agrees (fun c => set_last_confirmed c i) (fun c => on_last_confirmed_grow handled c i n)).
  intros c1. apply grow_agrees.
Qed.

Lemma add_block_pack_agrees p c c' : run_add_block_pack p c = Ret c' tt <-> add_block_pack handled c p = Ok c'.
Proof using.
  unfold run_add_block_pack, add_block_pack.
  match goal with |- _ <-> bind _ ?k = _ => apply (stepped_agrees (fun c => insert_pack c p) k) end.
  intros c1. unfold mbind at 1, M_bind at 1, gets at 1.
  destruct (by_number_less c1) as [| e l]; [split; discriminate |]. destruct (head c1) as [h |]; [| split; discriminate].
  cbv zeta. destruct (_ <? _); [apply grow_agrees |]. destruct (_ <? _); [| split; intros [= <-]; reflexivity].
  match goal with |- _ <-> bind _ ?k = _ =>
    apply (stepped_agrees (fun c => set_last_confirmed c (dpos_irreversible_id (deref c1 h))) k) end.
  intros c2. unfold mbind at 1, M_bind at 1, gets at 1. apply grow_agrees.
Qed.

Lemma add_block_agrees b c c' p : run_add_block b c = Ret c' p <-> add_block handled c b = Ok (c', p).
Proof using.
  assert (E : add_block handled c b = bind (received_pack b c) (fun pack =>
    bind (add_block_pack handled (alloc c pack).1 (alloc c pack).2) (fun c1 => Ok (c1, (alloc c pack).2)))).
  { unfold add_block, received_pack. destruct (_ !! _); [| reflexivity]. unfold bind.
    repeat (match goal with |- context [match ?x with Ok _ => _ | Throw _ => _ end] => destruct x; [| reflexivity] end).
    reflexivity. }
  rewrite E. unfold run_add_block. unfold mbind at 1, M_bind at 1, gets. unfold bind at 1.
  destruct (received_pack b c) as [pack | e]; cbn [from_result].
  2:{ unfold mbind, M_bind. destruct (String.eqb e "undefined"); split; discriminate. }
  unfold run_alloc, mbind, M_bind, mret, M_ret. destruct (alloc c pack) as [c1 q]. cbn [fst snd].
  pose proof (fun c2 => add_block_pack_agrees q c1 c2) as A. unfold bind.
  destruct (run_add_block_pack q c1) as [c2 [] | c2 e |] eqn:R.
  - pose proof (proj1 (A c2) eq_refl) as ->. cbn. split; intros [= <- <-]; reflexivity.
  - destruct (add_block_pack handled c1 q) as [x |] eqn:G; [| split; discriminate]. discriminate (proj2 (A x) eq_refl).
  - destruct (add_block_pack handled c1 q) as [x |] eqn:G; [| split; discriminate]. discriminate (proj2 (A x) eq_refl).
Qed.
End Run.
