(* ===== verification/Follows.v ===== *)
(** Programs that move a state along a preorder: whatever a run does, also
    when it throws, the state it leaves is related to the one it began with.
    The relations are "this part is untouched", "the log only grows", "the
    invariant, when it held, holds still". *)

From Stdlib Require Import ZArith Lia Bool String List RelationClasses.
From stdpp Require Import base decidable list.
From S2P Require Import Prelude Effects SystemContract Applying ForkRun.
Import ListNotations.

Definition follows {S A} (R : relation S) (m : M S A) : Prop := forall s,
  match m s with
  | Ret s' _ | Exc s' _ => R s s'
  | Undef => True
  end.

Lemma mbind_exc {S A B} (m : M S A) (k : A -> M S B) s s' e : m s = Exc s' e -> (m ≫= k) s = Exc s' e.
Proof. unfold mbind, M_bind. intros ->. reflexivity. Qed.

Create HintDb follow.

Section Follows.
Context {S : Type} (R : relation S) `{!PreOrder R}.

Lemma follows_ret {A} (a : A) : follows R (mret a).
Proof using PreOrder0. intros s. cbn. reflexivity. Qed.

Lemma follows_throw {A} e : follows R (throw e : M S A).
Proof using PreOrder0. intros s. cbn. reflexivity. Qed.

Lemma follows_undefined {A} : follows R (undefined : M S A).
Proof using. intros s. exact I. Qed.

Lemma follows_gets {A} (f : S -> A) : follows R (gets f).
Proof using PreOrder0. intros s. cbn. reflexivity. Qed.

Lemma follows_require b e : follows R (require b e).
Proof using PreOrder0. destruct b; [apply follows_ret | apply follows_throw]. Qed.

Lemma follows_update f : (forall s, R s (f s)) -> follows R (update f).
Proof using. intros Hf s. apply Hf. Qed.

Lemma follows_bind {A B} (m : M S A) (k : A -> M S B) : follows R m -> (forall a, follows R (k a)) -> follows R (m ≫= k).
Proof using PreOrder0.
  intros Hm Hk s. specialize (Hm s). unfold mbind, M_bind. destruct (m s) as [s1 a | |]; [| exact Hm | exact I].
  specialize (Hk a s1). destruct (k a s1); [etransitivity; eassumption .. | exact I].
Qed.

Lemma follows_for_each {B} (l : list B) f : (forall x, follows R (f x)) -> follows R (for_each l f).
Proof using PreOrder0. intros Hf. induction l as [| x l IH]; [apply follows_ret | apply follows_bind; auto]. Qed.

Lemma follows_from_result {A} (r : result A) : follows R (from_result r).
Proof using PreOrder0.
  destruct r; cbn [from_result]; [apply follows_ret |]. destruct (String.eqb _ _); [apply follows_undefined | apply follows_throw].
Qed.

Lemma follows_capture {A} (m : M S A) : follows R m -> follows R (capture_and_rethrow m).
Proof using. intros Hm s. specialize (Hm s). unfold capture_and_rethrow. destruct (m s); exact Hm. Qed.

Lemma follows_catch_fc {A} (m : M S A) h : follows R m -> (forall e, follows R (h e)) -> follows R (catch_fc m h).
Proof using PreOrder0.
  intros Hm Hh s. specialize (Hm s). unfold catch_fc. destruct (m s) as [| s1 e |]; [exact Hm | | exact I].
  destruct (fc_exception e); [| exact Hm]. specialize (Hh e s1). destruct (h e s1); [etransitivity; eassumption .. | exact I].
Qed.

Lemma follows_catch_all {A} (m h : M S A) : follows R m -> follows R h -> follows R (catch_all m h).
Proof using PreOrder0.
  intros Hm Hh s. specialize (Hm s). unfold catch_all. destruct (m s) as [| s1 e |]; [exact Hm | | exact I].
  specialize (Hh s1). destruct (h s1); [etransitivity; eassumption .. | exact I].
Qed.

Lemma follows_stepped f : (forall s s', f s = Ok s' -> R s s') -> follows R (stepped f).
Proof using PreOrder0.
  intros Hf s. unfold stepped. destruct (f s) as [s' |] eqn:E; [apply Hf, E |]. destruct (_ || _); [exact I | reflexivity].
Qed.

Lemma follows_weaken {A} (Q : relation S) (m : M S A) : (forall s s', Q s s' -> R s s') -> follows Q m -> follows R m.
Proof using. intros QR Hm s. specialize (Hm s). destruct (m s); auto. Qed.
End Follows.

#[export] Hint Resolve follows_ret follows_throw follows_undefined follows_gets follows_require follows_from_result : follow.

(** Follow the structure of a program; what is left are its updates and the
    programs not known yet. *)
Ltac follow_step :=
  match goal with
  | |- follows _ (match ?x with _ => _ end) => destruct x
  | |- follows _ (let _ := _ in _) => cbv zeta
  | |- follows _ (_ ≫= _) => apply follows_bind; [exact _ | | intros ?]
  | |- follows _ (for_each _ _) => apply follows_for_each; [exact _ | intros ?]
  | |- follows _ (capture_and_rethrow _) => apply follows_capture
  | |- follows _ (catch_fc _ _) => apply follows_catch_fc; [exact _ | | intros ?]
  | |- follows _ (catch_all _ _) => apply follows_catch_all; [exact _ | |]
  | |- follows _ _ => solve [auto with follow typeclass_instances]
  end.
Ltac follow := repeat follow_step.
