(* ===== verification/ForkFrames.v ===== *)
(** What the operations of the fork database leave alone: the blocks of the
    packs, and, but for the calls of the handler, the world behind it. *)

From Stdlib Require Import ZArith Lia Bool String List RelationClasses.
From stdpp Require Import base decidable gmap list.
From S2P Require Import Prelude ChainUtils Block BlockPack Effects SystemContract ForkDb ForkRun Follows.
Import ListNotations.

Section Frames.
Context `{Crypto} {W : Type}.
Implicit Types (c : fork_context W).

(** Every pack keeps its block. *)
Definition same_blocks c c' : Prop := forall p, block (deref c' p) = block (deref c p).

(** And nothing is reported. *)
Record unreported c c' : Prop := { unreported_blocks : same_blocks c c'; unreported_world : world c' = world c }.

#[export] Instance same_blocks_preorder : PreOrder same_blocks.
Proof. split; [intros c p; reflexivity | intros a b c A B p; rewrite B, A; reflexivity]. Qed.

#[export] Instance unreported_preorder : PreOrder unreported.
Proof.
  split; [intros c; split; [intros p |]; reflexivity |].
  intros a b c [A1 A2] [B1 B2]. split; [etransitivity; eassumption | congruence].
Qed.

Lemma unreported_same_heap c c' : heap c' = heap c -> world c' = world c -> unreported c c'.
Proof using. intros E1 E2. split; [intros p; unfold deref, deref_in; rewrite E1; reflexivity | exact E2]. Qed.

Lemma blocks_written c c' p b : heap c' = <[p := b]> (heap c) -> block b = block (deref c p) -> same_blocks c c'.
Proof using.
  intros E Eb q. unfold deref, deref_in in *. rewrite E.
  destruct (decide (q = p)) as [-> | N]; [rewrite lookup_insert_eq; exact Eb | rewrite lookup_insert_ne by congruence; reflexivity].
Qed.

Lemma mark_block n i b : block (mark n i b) = block b.
Proof using. destruct b; reflexivity. Qed.

Lemma unreported_modify c p f : (forall b, block (f b) = block b) -> unreported c (packs_modify c p f).
Proof using. intros Hf. split; [eapply blocks_written; [reflexivity | apply Hf] | reflexivity]. Qed.

Lemma unreported_ancestors n i fuel : forall j c c', mark_ancestors fuel n i j c = Ok c' -> unreported c c'.
Proof using.
  induction fuel as [| fuel IH]; intros j c c' E; cbn [mark_ancestors] in E; [discriminate |].
  destruct (by_block_id c !! j) as [p |]; [| injection E as <-; reflexivity].
  destruct (bool_decide _); [injection E as <-; reflexivity |]. apply IH in E. etransitivity; [| exact E].
  apply unreported_modify. intros b. apply mark_block.
Qed.

Lemma unreported_mark_all n i ids : forall c, unreported c (mark_all n i ids c).
Proof using.
  induction ids as [| j ids IH]; intros c; cbn [mark_all]; [reflexivity |].
  destruct (by_block_id c !! j); [| apply IH]. etransitivity; [| apply IH]. apply unreported_modify. intros b. apply mark_block.
Qed.

Lemma unreported_set_last_confirmed c i c' : set_last_confirmed c i = Ok c' -> unreported c c'.
Proof using.
  unfold set_last_confirmed. destruct (by_block_id c !! i) as [p |]; [| discriminate]. intros E. cbv zeta in E.
  apply bind_ok in E as (c1 & E1 & E). apply bind_ok in E as (l & _ & E). injection E as <-.
  apply unreported_ancestors in E1. etransitivity; [| apply unreported_mark_all]. etransitivity; [| exact E1].
  apply unreported_modify. intros b. apply mark_block.
Qed.

Lemma unreported_erase c p : unreported c (packs_erase c p).
Proof using. apply unreported_same_heap; reflexivity. Qed.

Lemma unreported_remove_all ids : forall c, unreported c (remove_all ids c).
Proof using.
  induction ids as [| j ids IH]; intros c; cbn [remove_all]; [reflexivity |].
  destruct (by_block_id c !! j); [| apply IH]. etransitivity; [apply unreported_erase | apply IH].
Qed.

Lemma unreported_update_head c c' : update_head c = Ok c' -> unreported c c'.
Proof using. unfold update_head. destruct (by_longest_num c); [discriminate |]. intros [= <-]. apply unreported_same_heap; reflexivity. Qed.

Lemma unreported_insert_pack c p c' : insert_pack c p = Ok c' -> unreported c c'.
Proof using.
  unfold insert_pack. destruct (block (deref c p)); [| discriminate]. intros E.
  apply bind_ok in E as (u & _ & E). apply bind_ok in E as (c1 & E1 & E). etransitivity; [| eapply unreported_update_head, E].
  unfold packs_insert in E1. destruct (_ !! _); [discriminate |]. injection E1 as <-. apply unreported_same_heap; reflexivity.
Qed.

Lemma unreported_flag c i f c' : change_main_chain_flag c i f = Ok c' -> unreported c c'.
Proof using.
  unfold change_main_chain_flag. destruct (_ !! _) as [p |]; [| discriminate].
  destruct (Bool.eqb _ _); intros [= <-]; [reflexivity |]. apply unreported_modify. intros b. destruct b; reflexivity.
Qed.

Lemma unreported_remove_chain fuel c i c' : remove_chain fuel c i = Ok c' -> unreported c c'.
Proof using.
  unfold remove_chain. intros E. apply bind_ok in E as (c1 & E1 & E). etransitivity; [| eapply unreported_update_head, E]. clear E.
  revert E1. generalize 0%nat as k. generalize [i] as l. revert c.
  induction fuel as [| fuel IH]; intros c l k E; cbn [remove_chain_loop] in E; [discriminate |].
  destruct (nth_error l k) as [j |]; [| injection E as <-; reflexivity].
  destruct (by_block_id c !! j); apply IH in E; [| exact E]. etransitivity; [apply unreported_erase | exact E].
Qed.

Lemma unreported_confirmation c conf skip c' : add_confirmation c conf skip = Ok c' -> unreported c c'.
Proof using.
  unfold add_confirmation. destruct (get_block c _) as [p |]; [| discriminate]. intros E.
  apply bind_ok in E as (b & Eb & E).
  assert (S : unreported c (store c p b)).
  { split; [| reflexivity]. eapply blocks_written; [reflexivity |]. unfold BlockPack.add_confirmation in Eb.
    destruct (Z.eqb _ _); [destruct (confirmations _); [| injection Eb as <-; reflexivity] |].
    - apply bind_ok in Eb as (v & _ & Eb). apply bind_ok in Eb as (u & _ & Eb). injection Eb as <-. destruct (deref c p); reflexivity.
    - injection Eb as <-. destruct (deref c p); reflexivity. }
  etransitivity; [exact S |]. destruct (enough_confirmation b); [| injection E as <-; reflexivity].
  destruct (Z.ltb _ _); [eapply unreported_set_last_confirmed, E | injection E as <-; reflexivity].
Qed.

(** ** The programs *)

(** A relation the fork database's own steps and its handler respect. *)
Class ForkFrame (irreversible : block_pack -> M W unit) (R : relation (fork_context W)) : Prop := {
  frame_preorder :: PreOrder R;
  frame_unreported c c' : unreported c c' -> R c c';
  frame_handler b : follows R (on_world (irreversible b)) }.

Context (irreversible : block_pack -> M W unit) (R : relation (fork_context W)) `{!ForkFrame irreversible R}.

Lemma frame_stepped f : (forall c c', f c = Ok c' -> unreported c c') -> follows R (stepped f).
Proof using ForkFrame0. intros Hf. apply follows_stepped; [exact _ |]. intros c c' E. apply (frame_unreported c c'), Hf, E. Qed.

Lemma frame_report ids : follows R (run_report irreversible ids).
Proof using ForkFrame0.
  induction ids as [| i ids IH]; cbn [run_report]; [apply follows_ret; exact _ |].
  apply follows_bind; [exact _ | apply follows_gets; exact _ |]. intros [p |]; [| apply follows_undefined].
  apply follows_bind; [exact _ | apply follows_gets; exact _ | intros c].
  apply follows_bind; [exact _ | apply frame_handler | intros _].
  apply follows_bind; [exact _ | | intros _; exact IH]. apply follows_update. intros c1. apply frame_unreported.
  split; [| reflexivity]. eapply blocks_written; [reflexivity |]. destruct (deref c1 p); reflexivity.
Qed.

Lemma frame_grow i n : follows R (run_grow irreversible i n).
Proof using ForkFrame0.
  unfold run_grow. apply follows_bind; [exact _ | apply follows_gets; exact _ | intros c].
  destruct (scan _ _ _) as [conf rem]. apply follows_bind; [exact _ | apply frame_report | intros _].
  apply follows_update. intros c1. apply frame_unreported, unreported_remove_all.
Qed.

Lemma frame_force_confirm i n : follows R (run_force_confirm irreversible i n).
Proof using ForkFrame0.
  unfold run_force_confirm. apply follows_bind; [exact _ | | intros _; apply frame_grow].
  apply frame_stepped. intros c c'. apply unreported_set_last_confirmed.
Qed.

Lemma frame_add_block_pack p : follows R (run_add_block_pack irreversible p).
Proof using ForkFrame0.
  unfold run_add_block_pack. apply follows_bind; [exact _ | | intros _].
  { apply frame_stepped. intros c c'. apply unreported_insert_pack. }
  apply follows_bind; [exact _ | apply follows_gets; exact _ | intros c].
  destruct (by_number_less c); [apply follows_undefined |]. destruct (head c); [| apply follows_undefined]. cbv zeta.
  destruct (Z.ltb _ _); [apply frame_grow |]. destruct (Z.ltb _ _); [| apply follows_ret; exact _].
  apply follows_bind; [exact _ | | intros _; apply follows_bind; [exact _ | apply follows_gets; exact _ | intros c1; apply frame_grow]].
  apply frame_stepped. intros c1 c2. apply unreported_set_last_confirmed.
Qed.
End Frames.
