(* ===== verification/AbiThm.v ===== *)
(** Which definitions of types the serializer can follow: the circular check of
    validate decides it, and when every definition names a type that is not an
    array, validation ends. *)

From Stdlib Require Import ZArith Lia Bool String Ascii List Sorted.
From stdpp Require Import base decidable list.
From S2P Require Import Prelude ChainUtils Effects ForkRun Follows Raw Abi.
Import ListNotations.
Local Open Scope Z_scope.

(** ** The order of names *)

Lemma string_compare_lt_trans a : forall b c,
  String.compare a b = Lt -> String.compare b c = Lt -> String.compare a c = Lt.
Proof.
  induction a as [| x a IH]; intros [| y b] [| z c]; cbn; try discriminate; [reflexivity |].
  unfold Ascii.compare.
  destruct (N.compare_spec (N_of_ascii x) (N_of_ascii y)) as [E | L | L]; try discriminate;
    destruct (N.compare_spec (N_of_ascii y) (N_of_ascii z)) as [E' | L' | L']; try discriminate; intros H1 H2.
  - rewrite E, E', N.compare_refl. eapply IH; eauto.
  - rewrite E, (proj2 (N.compare_lt_iff _ _) L'). reflexivity.
  - rewrite <- E', (proj2 (N.compare_lt_iff _ _) L). reflexivity.
  - rewrite (proj2 (N.compare_lt_iff _ _) (N.lt_trans _ _ _ L L')). reflexivity.
Qed.

Definition name_lt (a b : string) : Prop := String.ltb a b = true.

Lemma name_lt_compare a b : name_lt a b <-> String.compare a b = Lt.
Proof. unfold name_lt, String.ltb. destruct (String.compare a b); split; congruence. Qed.

Lemma name_lt_trans a b c : name_lt a b -> name_lt b c -> name_lt a c.
Proof. rewrite !name_lt_compare. apply string_compare_lt_trans. Qed.

Lemma name_lt_irrefl a : ~ name_lt a a.
Proof.
  rewrite name_lt_compare. pose proof (String.compare_antisym a a) as A. intros E. rewrite E in A. discriminate.
Qed.

Lemma name_trichotomy a b : a <> b -> String.ltb a b = false -> name_lt b a.
Proof.
  intros N F. rewrite name_lt_compare. unfold String.ltb in F. rewrite String.compare_antisym.
  destruct (String.compare a b) eqn:E; [| discriminate | reflexivity].
  apply String.compare_eq_iff in E. contradiction.
Qed.

(** ** std::map *)

Section Maps.
Context {V : Type}.

Definition name_sorted (m : list (string * V)) : Prop := StronglySorted name_lt (map fst m).

Lemma name_find_assign k (v : V) m k' :
  name_find k' (name_assign k v m) = if String.eqb k' k then Some v else name_find k' m.
Proof.
  unfold name_find, name_assign. induction m as [| [k1 v1] m IH]; cbn [map_assign map_find]; [reflexivity |].
  destruct (String.eqb_spec k k1) as [-> | N]; [| destruct (String.ltb k k1)]; cbn [map_find].
  - destruct (String.eqb_spec k' k1); reflexivity.
  - reflexivity.
  - rewrite IH. destruct (String.eqb_spec k' k1) as [-> | N1]; [| reflexivity].
    destruct (String.eqb_spec k1 k); [congruence | reflexivity].
Qed.

Lemma assign_keys k (v : V) m x : In x (map fst (name_assign k v m)) <-> x = k \/ In x (map fst m).
Proof.
  unfold name_assign. induction m as [| [k1 v1] m IH]; cbn [map_assign map fst In]; [intuition |].
  destruct (String.eqb_spec k k1) as [-> | N]; [cbn; intuition |].
  destruct (String.ltb k k1); cbn [map fst In]; [intuition |]. rewrite IH. intuition.
Qed.

Lemma assign_sorted k (v : V) m : name_sorted m -> name_sorted (name_assign k v m).
Proof.
  unfold name_sorted, name_assign. induction m as [| [k1 v1] m IH]; intros S; cbn [map_assign map fst].
  - repeat constructor.
  - apply StronglySorted_inv in S as [S F]. cbn [map fst] in *. destruct (String.eqb_spec k k1) as [-> | N].
    + constructor; assumption.
    + destruct (String.ltb k k1) eqn:L; cbn [map fst].
      * constructor; [constructor; assumption |]. constructor; [exact L |].
        eapply List.Forall_impl; [| exact F]. intros x Hx. eapply name_lt_trans; eauto.
      * constructor; [apply IH, S |]. apply List.Forall_forall. intros x Hx. apply assign_keys in Hx as [-> | Hx].
        -- apply name_trichotomy; assumption.
        -- rewrite List.Forall_forall in F. apply F, Hx.
Qed.

Lemma sorted_keys m : name_sorted m -> List.NoDup (map fst m).
Proof.
  unfold name_sorted. induction m as [| [k v] m IH]; cbn [map fst]; intros S; [constructor |].
  apply StronglySorted_inv in S as [S F]. constructor; [| apply IH, S].
  intros I. rewrite List.Forall_forall in F. exact (name_lt_irrefl k (F _ I)).
Qed.

Lemma find_some k v (m : list (string * V)) : name_find k m = Some v -> In (k, v) m.
Proof.
  unfold name_find. induction m as [| [k1 v1] m IH]; cbn [map_find]; [discriminate |].
  destruct (String.eqb_spec k k1) as [-> | N]; intros E; [injection E as ->; left; reflexivity | right; auto].
Qed.

Lemma find_in k v (m : list (string * V)) : List.NoDup (map fst m) -> In (k, v) m -> name_find k m = Some v.
Proof.
  unfold name_find. induction m as [| [k1 v1] m IH]; cbn [map_find map fst]; intros D I; [destruct I |].
  apply List.NoDup_cons_iff in D as [D1 D2]. destruct I as [E | I].
  - injection E as -> ->. rewrite String.eqb_refl. reflexivity.
  - destruct (String.eqb_spec k k1) as [-> | N]; [| auto]. destruct D1. apply (in_map fst) in I. exact I.
Qed.
End Maps.

(** ** Following the definitions *)

Section Chains.
Context (a : abi_serializer).

Local Abbreviation next x := (name_find x (typedefs a)).

Fixpoint walk (n : nat) (x : type_name) : option type_name :=
  match n with
  | O => Some x
  | S n => match next x with Some y => walk n y | None => None end
  end.

Lemma walk_add m n x : walk (m + n) x = match walk m x with Some y => walk n y | None => None end.
Proof. revert x. induction m as [| m IH]; intros x; cbn; [reflexivity |]. destruct (next x); [apply IH | reflexivity]. Qed.

Lemma resolve_walk n x y fuel : walk n x = Some y -> resolve_type a (n + fuel) x = resolve_type a fuel y.
Proof.
  revert x. induction n as [| n IH]; intros x E; cbn in *; [congruence |].
  destruct (next x) as [z |]; [apply IH, E | discriminate].
Qed.

(** A name that leads to itself is never resolved. *)
Lemma resolve_cycle n x : walk (S n) x = Some x -> forall fuel, resolve_type a fuel x = None.
Proof.
  intros C fuel. induction (lt_wf fuel) as [fuel _ IH]. destruct (Nat.le_gt_cases (S n) fuel) as [L | L].
  - replace fuel with (S n + (fuel - S n))%nat by lia. rewrite (resolve_walk _ _ _ _ C). apply IH. lia.
  - clear IH. assert (W : exists y, walk fuel x = Some y).
    { replace (S n) with (fuel + (S n - fuel))%nat in C by lia. rewrite walk_add in C. destruct (walk fuel x); [eauto | discriminate]. }
    destruct W as [y W]. pose proof (resolve_walk fuel x y 0 W) as R. rewrite Nat.add_0_r in R. exact R.
Qed.

Lemma resolve_step x y : next x = Some y -> (exists fuel r, resolve_type a fuel x = Some r) <-> (exists fuel r, resolve_type a fuel y = Some r).
Proof.
  intros E. split; intros (fuel & r & R).
  - destruct fuel as [| fuel]; [discriminate |]. cbn in R. rewrite E in R. eauto.
  - exists (S fuel), r. cbn. rewrite E. exact R.
Qed.

Lemma resolve_more fuel fuel' x r : (fuel <= fuel')%nat -> resolve_type a fuel x = Some r -> resolve_type a fuel' x = Some r.
Proof.
  revert fuel' x. induction fuel as [| fuel IH]; intros fuel' x L R; [discriminate |].
  destruct fuel' as [| fuel']; [lia |]. cbn in *. destruct (next x); [| exact R]. apply IH; [lia | exact R].
Qed.

Lemma resolve_end fuel x r : resolve_type a fuel x = Some r -> next r = None.
Proof.
  revert x. induction fuel as [| fuel IH]; intros x R; [discriminate |]. cbn in R.
  destruct (next x) eqn:E; [eapply IH, R | injection R as <-; exact E].
Qed.

Lemma get_struct_at {T} fuel type r (s : T) : resolve_type a fuel type = Some r ->
  get_struct a fuel type s = match name_find r (struct_map a) with Some st => Ret s st | None => Exc s "Unknown struct" end.
Proof. intros R. unfold get_struct, mbind, M_bind, ended. rewrite R. cbn. destruct (name_find r (struct_map a)); reflexivity. Qed.

Lemma seen_in l t : seen l t = true <-> In t l.
Proof.
  unfold seen. rewrite existsb_exists. split; [intros (y & I & E); apply String.eqb_eq in E; subst y; exact I |].
  intros I. exists t. split; [exact I | apply String.eqb_refl].
Qed.

Lemma NoDup_snoc {A} (l : list A) x : List.NoDup l -> ~ In x l -> List.NoDup (l ++ [x]).
Proof.
  intros D N. apply List.NoDup_app; [exact D | repeat constructor; intros [] | intros y Hy [<- | []]; exact (N Hy)].
Qed.

(** The loop of the circular check: [path] are the names gone through after
    the first two. *)
Lemma chain_run s fuel : forall seen_ path last,
  (forall x, In x seen_ -> exists n, walk n x = Some last) ->
  List.NoDup path -> incl path seen_ -> incl path (map snd (typedefs a)) ->
  (length (typedefs a) < fuel + length path)%nat ->
  (typedef_chain a fuel seen_ (next last) s = Ret s tt /\ exists r, resolve_type a (S fuel) last = Some r) \/
  (typedef_chain a fuel seen_ (next last) s = Exc s "Circular reference in type" /\ forall n, resolve_type a n last = None).
Proof.
  induction fuel as [| fuel IH]; intros seen_ path last W ND I1 I2 L.
  { pose proof (List.NoDup_incl_length ND I2) as Le. rewrite length_map in Le. lia. }
  destruct (next last) as [y |] eqn:E.
  2:{ left. split; [reflexivity |]. exists last. cbn. rewrite E. reflexivity. }
  cbn [typedef_chain]. destruct (seen seen_ y) eqn:Sn.
  - right. split; [reflexivity |]. apply seen_in in Sn. destruct (W y Sn) as [n Wn].
    intros m. apply (resolve_cycle n). cbn. rewrite E. exact Wn.
  - assert (Ny : ~ In y seen_) by (intros I; apply seen_in in I; congruence).
    destruct (IH (seen_ ++ [y]) (path ++ [y]) y) as [[R [r Rr]] | [R Rr]].
    + intros x Hx. apply in_app_or in Hx as [Hx | [<- | []]]; [| exists 0%nat; reflexivity].
      destruct (W x Hx) as [n Wn]. exists (n + 1)%nat. rewrite walk_add, Wn. cbn. rewrite E. reflexivity.
    + apply (NoDup_snoc path y ND). intros I. apply Ny, I1, I.
    + apply incl_app; [apply incl_appl, I1 | apply incl_appr, incl_refl].
    + apply incl_app; [exact I2 |]. intros x [<- | []]. apply find_some in E. apply (in_map snd) in E. exact E.
    + rewrite length_app. cbn. lia.
    + left. unfold require. cbn. rewrite E. split; [exact R | exists r; exact Rr].
    + right. unfold require. cbn. split; [exact R |]. intros n. destruct n as [| n]; [reflexivity |]. cbn. rewrite E. apply Rr.
Qed.

(** ** Checks leave the serializer as it is *)

Definition checks (m : M abi_serializer unit) : Prop := m a = Ret a tt \/ exists e, m a = Exc a e.

Lemma checks_bind m k : checks m -> checks k -> checks (m ;; k).
Proof. intros [E | [e E]] K; unfold checks, mbind, M_bind; rewrite E; [exact K | right; eauto]. Qed.

Lemma checks_ret : checks (mret tt).
Proof. left. reflexivity. Qed.

Lemma checks_require b e : checks (require b e).
Proof. destruct b; [left; reflexivity | right; exists e; reflexivity]. Qed.

Lemma checks_capture m : checks m -> checks (capture_and_rethrow m).
Proof. intros [E | [e E]]; unfold checks, capture_and_rethrow; rewrite E; [left; reflexivity | right; eauto]. Qed.

Lemma checks_for_each {B} (l : list B) f : (forall x, In x l -> checks (f x)) -> checks (for_each l f).
Proof.
  induction l as [| x l IH]; intros K; [apply checks_ret |].
  cbn [for_each]. apply checks_bind; [apply K; left; reflexivity | apply IH; intros y Hy; apply K; right; exact Hy].
Qed.

Lemma checks_gets k : checks (k a) -> checks (x ← gets (fun a => a); k x).
Proof. exact id. Qed.

(** Every definition is followed to its end, or the check throws and one is not. *)
Lemma typedefs_checked fuel : List.NoDup (map fst (typedefs a)) -> (length (typedefs a) < fuel)%nat ->
  (validate_typedefs fuel a = Ret a tt /\ forall x, exists r, resolve_type a (S (S fuel)) x = Some r) \/
  (validate_typedefs fuel a = Exc a "Circular reference in type" /\ exists x, forall n, resolve_type a n x = None).
Proof.
  intros ND L. set (f := fun t : type_name * type_name => capture_and_rethrow (typedef_chain a fuel [t.1; t.2] (next t.2))).
  change (validate_typedefs fuel a) with (for_each (typedefs a) f a).
  assert (K : forall l, incl l (typedefs a) ->
    (for_each l f a = Ret a tt /\ forall t, In t l -> exists r, resolve_type a (S fuel) t.2 = Some r) \/
    (for_each l f a = Exc a "Circular reference in type" /\ exists x, forall n, resolve_type a n x = None)).
  { induction l as [| [k v] l IH]; intros I; [left; split; [reflexivity | intros t []] |].
    assert (Ek : name_find k (typedefs a) = Some v) by (apply find_in; [exact ND | apply I; left; reflexivity]).
    cbn [for_each]. change (f (k, v)) with (capture_and_rethrow (typedef_chain a fuel [k; v] (next v))).
    destruct (chain_run a fuel [k; v] [] v) as [[R [r Rr]] | [R Rn]].
    - intros x [<- | [<- | []]]; [exists 1%nat; cbn; rewrite Ek; reflexivity | exists 0%nat; reflexivity].
    - constructor.
    - intros x [].
    - intros x [].
    - cbn. lia.
    - unfold capture_and_rethrow, mbind, M_bind. rewrite R.
      destruct (IH ltac:(intros x Hx; apply I; right; exact Hx)) as [[R' A] | [R' A]]; [left | right; auto].
      split; [exact R' |]. intros t [<- | Ht]; [exists r; exact Rr | apply A, Ht].
    - right. unfold capture_and_rethrow, mbind, M_bind. rewrite R. split; [reflexivity | eauto]. }
  destruct (K (typedefs a) (List.incl_refl _)) as [[R A] | R]; [left | right; exact R]. split; [exact R |].
  intros x. destruct (next x) as [v |] eqn:E; [| exists x; cbn; rewrite E; reflexivity].
  destruct (A _ (find_some _ _ _ E)) as [r Rr]. exists r. cbn in *. rewrite E. exact Rr.
Qed.

(** ** Validation *)

Section Resolved.
Context (N : nat) (resolved : forall x, exists r, resolve_type a N x = Some r)
  (plain : forall k v, In (k, v) (typedefs a) -> is_array v = false).

Lemma plain_type_ends fuel : forall x r, is_array x = false -> resolve_type a fuel x = Some r -> exists b, is_type a fuel x = Some b.
Proof using plain.
  induction fuel as [| fuel IH]; intros x r A R; [discriminate |]. cbn [is_type resolve_type] in *.
  unfold array_type. rewrite A. cbn [negb]. destruct (is_builtin_type x); [eauto |]. destruct (next x) as [y |] eqn:E.
  - apply (IH y r); [exact (plain _ _ (find_some _ _ _ E)) | exact R].
  - destruct (name_find x (struct_map a)); eauto.
Qed.

Lemma type_more fuel : forall fuel' x b, (fuel <= fuel')%nat -> is_type a fuel x = Some b -> is_type a fuel' x = Some b.
Proof using.
  induction fuel as [| fuel IH]; intros fuel' x b L R; [discriminate |]. destruct fuel' as [| fuel']; [lia |].
  cbn [is_type] in *. destruct (is_builtin_type _); [exact R |]. destruct (next _); [apply IH; [lia | exact R] | exact R].
Qed.

Lemma type_ends fuel x : (N < fuel)%nat -> exists b, is_type a fuel x = Some b.
Proof using plain resolved.
  intros L. assert (E : exists b, is_type a (S N) x = Some b).
  { cbn [is_type]. destruct (is_builtin_type _); [eauto |]. destruct (next _) as [y |] eqn:E; [| destruct (name_find (array_type x) (struct_map a)); eauto].
    destruct (resolved y) as [r R]. exact (plain_type_ends N y r (plain _ _ (find_some _ _ _ E)) R). }
  destruct E as [b E]. exists b. apply (type_more (S N)); [lia | exact E].
Qed.

Lemma checks_type fuel x e : (N < fuel)%nat -> checks (type_required fuel x e).
Proof using plain resolved.
  intros L. unfold type_required. apply (checks_gets (fun a => b ← ended (is_type a fuel x); require b e)).
  destruct (type_ends fuel x L) as [b ->]. exact (checks_require b e).
Qed.

Lemma checks_bases fuel : forall seen_ path current, List.NoDup path -> incl path seen_ ->
  incl path (map (fun p => st_name p.2) (struct_map a)) -> (N + length (struct_map a) < fuel + length path)%nat ->
  checks (base_chain a fuel seen_ current).
Proof using resolved.
  induction fuel as [| fuel IH]; intros seen_ path current ND I1 I2 L;
    pose proof (List.NoDup_incl_length ND I2) as Le; rewrite length_map in Le; [lia |].
  cbn [base_chain]. destruct (String.eqb (st_base current) ""); [apply checks_ret |].
  destruct (resolved (st_base current)) as [r R].
  pose proof (get_struct_at (S fuel) _ r a (resolve_more N (S fuel) _ _ ltac:(lia) R)) as G.
  destruct (name_find r (struct_map a)) as [base |] eqn:E; [| right; eexists; exact (mbind_exc _ _ _ _ _ G)].
  unfold checks. rewrite (mbind_ret _ _ _ _ _ G). change (checks (require (negb (seen seen_ (st_name base))) "Circular reference in struct" ;; base_chain a fuel (seen_ ++ [st_name base]) base)).
  destruct (seen seen_ (st_name base)) eqn:Sn; [right; eexists; reflexivity |].
  apply checks_bind; [apply checks_require |].
  assert (Ny : ~ In (st_name base) seen_) by (intros I; apply seen_in in I; congruence).
  apply (IH (seen_ ++ [st_name base]) (path ++ [st_name base])).
  - apply (NoDup_snoc path _ ND). intros I. apply Ny, I1, I.
  - apply incl_app; [apply incl_appl, I1 | apply incl_appr, incl_refl].
  - apply incl_app; [exact I2 |]. intros x [<- | []]. apply find_some in E. apply (in_map (fun p => st_name p.2)) in E. exact E.
  - rewrite length_app. cbn. lia.
Qed.

Lemma checks_struct fuel x : (N + length (struct_map a) < fuel)%nat -> checks (validate_struct fuel x).
Proof using plain resolved.
  intros L. apply checks_gets, checks_capture, checks_bind.
  - apply (checks_bases fuel _ []); [constructor | intros y [] | intros y [] | cbn; lia].
  - apply checks_for_each. intros f _. apply checks_capture, checks_type. lia.
Qed.
End Resolved.

(** The whole of validate, once the definitions are not arrays. *)
Lemma checks_validate fuel : List.NoDup (map fst (typedefs a)) ->
  (forall k v, In (k, v) (typedefs a) -> is_array v = false) ->
  (length (typedefs a) + length (struct_map a) + 3 < fuel)%nat -> checks (validate fuel).
Proof.
  intros ND P L. apply checks_gets.
  assert (T := typedefs_checked (S (length (typedefs a))) ND ltac:(lia)).
  destruct (typedefs_checked fuel ND ltac:(lia)) as [[R A] | [R A]].
  2:{ right. eexists. unfold mbind, M_bind. rewrite R. reflexivity. }
  destruct T as [[_ Rs] | [_ [x Nx]]]; [| destruct (A x) as [r Rr]; rewrite Nx in Rr; discriminate].
  apply checks_bind; [left; exact R |].
  apply checks_bind; [apply checks_for_each; intros t _; apply checks_capture, (checks_type _ Rs P); lia |].
  apply checks_bind; [apply checks_for_each; intros t _; apply (checks_struct _ Rs P); lia |].
  apply checks_bind; apply checks_for_each; intros t _; apply checks_capture, (checks_type _ Rs P); lia.
Qed.
End Chains.

(** ** What set_abi leaves *)

Lemma for_each_keeps {S B} (P : S -> Prop) (f : B -> M S unit) l :
  (forall x s s', In x l -> P s -> f x s = Ret s' tt -> P s') -> forall s s', P s -> for_each l f s = Ret s' tt -> P s'.
Proof.
  induction l as [| x l IH]; intros K s s' Hs E; [injection E as <-; exact Hs |].
  cbn [for_each] in E. unfold mbind, M_bind in E. destruct (f x s) as [s1 [] | |] eqn:Ex; try discriminate.
  apply (IH ltac:(intros y; intros; eapply K; eauto; right; assumption) s1); [| exact E].
  eapply K; eauto. left. reflexivity.
Qed.

(** The definitions are those of the abi, under distinct names. *)
Record abi_set (d : abi) (a : abi_serializer) : Prop := {
  set_sorted : name_sorted (typedefs a);
  set_targets : forall k v, In (k, v) (typedefs a) -> exists td, In td (types d) /\ td_type td = v }.

Lemma require_inv {S} b e (s s' : S) : require b e s = Ret s' tt -> b = true /\ s' = s.
Proof. destruct b; cbn; intros E; [injection E as <-; auto | discriminate]. Qed.

Lemma set_abi_set fuel d a0 a : set_abi fuel d a0 = Ret a tt ->
  abi_set d a /\ length (typedefs a) = length (types d) /\ length (struct_map a) = length (structs d).
Proof.
  unfold set_abi. intros E. apply ret_of_bind in E as (s1 & [] & E1 & E). injection E1 as <-.
  assert (S0 : abi_set d empty_serializer) by (split; [constructor | intros k v []]).
  apply ret_of_bind in E as (s2 & [] & E1 & E).
  apply (for_each_keeps (abi_set d)) in E1; [| | exact S0].
  2:{ intros x s s' _ [A B] Ex. injection Ex as <-. split; assumption. }
  apply ret_of_bind in E as (s3 & [] & E2 & E).
  apply (for_each_keeps (abi_set d)) in E2; [| | exact E1].
  2:{ intros x s s' Hx [A B] Ex. apply ret_of_bind in Ex as (s4 & [] & T & Ex).
      assert (s4 = s).
      { unfold type_required, mbind, M_bind, gets, ended in T. destruct (is_type _ _ _); [| discriminate T].
        cbn in T. apply require_inv in T as [_ T]. exact T. }
      subst s4. injection Ex as <-. split; cbn [typedefs set_typedefs]; [apply assign_sorted, A |].
      intros k v I. apply (find_in k v) in I; [| apply sorted_keys, assign_sorted, A].
      rewrite name_find_assign in I. destruct (String.eqb k (new_type_name x)); [injection I as <-; eauto |].
      eapply B, find_some, I. }
  apply ret_of_bind in E as (s4 & [] & E3 & E).
  apply (for_each_keeps (abi_set d)) in E3; [| | exact E2].
  2:{ intros x s s' _ [A B] Ex. injection Ex as <-. split; assumption. }
  apply ret_of_bind in E as (s5 & [] & E4 & E).
  apply (for_each_keeps (abi_set d)) in E4; [| | exact E3].
  2:{ intros x s s' _ [A B] Ex. injection Ex as <-. split; assumption. }
  apply ret_of_bind in E as (s6 & x & E5 & E). injection E5 as <- <-.
  apply ret_of_bind in E as (s7 & [] & E5 & E). apply require_inv in E5 as [L1 ->]. apply Nat.eqb_eq in L1.
  apply ret_of_bind in E as (s8 & [] & E5 & E). apply require_inv in E5 as [L2 ->]. apply Nat.eqb_eq in L2.
  apply ret_of_bind in E as (s9 & [] & E5 & E). apply require_inv in E5 as [_ ->].
  apply require_inv in E as [_ ->]. auto.
Qed.
