(* ===== verification/AbiProps.v ===== *)
(** What validate promises of the types of a contract, and what it lets pass. *)

From Stdlib Require Import ZArith Lia Bool String Ascii List Sorted.
From stdpp Require Import base decidable list.
From S2P Require Import Prelude ChainUtils Effects Raw Abi AbiThm.
Import ListNotations.
Local Open Scope string_scope.
Local Open Scope Z_scope.

(** C17: the circular check of validate is exact.  Of an abi that was set,
    either every name is resolved through the definitions and the check
    passes, or validate throws the circular reference and some name is never
    resolved, however deep the recursion; the loop of the check itself always
    ends. *)
Theorem circular_check_is_exact d fuel a0 a n :
  set_abi fuel d a0 = Ret a tt -> (length (types d) < n)%nat ->
  (validate_typedefs n a = Ret a tt /\ forall x, exists r, resolve_type a (S (S n)) x = Some r) \/
  (validate n a = Exc a "Circular reference in type" /\ exists x, forall m, resolve_type a m x = None).
Proof.
  intros E L. destruct (set_abi_set _ _ _ _ E) as ([S _] & Lt & _). rewrite <- Lt in L.
  destruct (typedefs_checked a n (sorted_keys _ S) L) as [R | [R A]]; [left; exact R | right].
  split; [| exact A]. unfold validate. unfold mbind at 1, M_bind at 1, gets.
  apply Follows.mbind_exc, R.
Qed.

(** Validation ends.  Of an abi that was set and in which no definition
    names an array, validate returns or throws and changes nothing; the depth
    of its recursion and the turns of its loops are bounded by the number of
    definitions and structs. *)
Theorem validation_ends d fuel a0 a n :
  set_abi fuel d a0 = Ret a tt -> (forall td, In td (types d) -> is_array (td_type td) = false) ->
  (length (types d) + length (structs d) + 3 < n)%nat ->
  validate n a = Ret a tt \/ exists e, validate n a = Exc a e.
Proof.
  intros E P L. destruct (set_abi_set _ _ _ _ E) as ([S T] & Lt & Ls).
  apply (checks_validate a n (sorted_keys _ S)); [| lia].
  intros k v I. destruct (T k v I) as (td & Itd & <-). exact (P td Itd).
Qed.

(** The restriction is needed: a struct and a definition of its name as an
    array of itself pass the circular check, and the recursion of is_type
    never ends.  The contract that carries them ends every node that validates
    it. *)
Definition array_of_itself : abi := Abi [TypeDef "t" "t[]"] [Struct "t" "" []] [] [].

Definition array_of_itself_set : abi_serializer := Serializer [("t"%string, "t[]"%string)] [("t"%string, Struct "t" "" [])] [] [].

(** An abi can overflow the stack of validate.  It is set without an
    exception, passes the circular check, and validate does not end for any
    depth of its recursion. *)
Lemma array_definition_overflows :
  set_abi 1 array_of_itself empty_serializer = Ret array_of_itself_set tt /\
  (forall n, validate_typedefs n array_of_itself_set = Ret array_of_itself_set tt) /\
  (forall n, validate n array_of_itself_set = Undef).
Proof.
  assert (N : forall n, is_type array_of_itself_set n "t[]" = None).
  { induction n as [| n IH]; [reflexivity |]. cbn [is_type]. change (array_type "t[]") with "t"%string. cbn. exact IH. }
  split; [vm_compute; reflexivity |]. split; intros n; [destruct n; reflexivity |].
  unfold validate. unfold mbind at 1, M_bind at 1, gets.
  assert (V : validate_typedefs n array_of_itself_set = Ret array_of_itself_set tt) by (destruct n; reflexivity).
  rewrite (mbind_ret _ _ _ _ _ V). cbn [for_each typedefs array_of_itself_set snd].
  unfold mbind at 1, M_bind at 1. unfold mbind at 1, M_bind at 1.
  unfold capture_and_rethrow at 1, type_required at 1, ended. unfold mbind at 1, M_bind at 1, gets.
  rewrite N. reflexivity.
Qed.

(** ... and so for any depth of the stack when a contract is set. *)
Lemma array_of_itself_undefined n : (set_abi n array_of_itself ;; validate n) empty_serializer = Undef.
Proof.
  destruct n as [| n]; [reflexivity |].
  assert (E : set_abi (S n) array_of_itself empty_serializer = Ret array_of_itself_set tt) by reflexivity.
  rewrite (mbind_ret _ _ _ _ _ E). apply array_definition_overflows.
Qed.

(** A name defined as itself, and a second definition of it, overflow the
    stack in set_abi, before validate could find the circle. *)
Lemma circle_overflows_set_abi n :
  set_abi n (Abi [TypeDef "x" "x"; TypeDef "y" "x"] [Struct "x" "" []] [] []) empty_serializer = Undef.
Proof.
  assert (N : forall n, is_type (Serializer [("x"%string, "x"%string)] [("x"%string, Struct "x" "" [])] [] []) n "x" = None).
  { induction n0 as [| n0 IH]; [reflexivity |]. cbn [is_type]. change (array_type "x") with "x"%string. cbn. exact IH. }
  destruct n as [| n]; [reflexivity |]. specialize (N (S n)). remember (is_type _ (S n) "x") as stuck eqn:E.
  lazy. lazy in E. rewrite <- E, N. reflexivity.
Qed.

(** ** On concrete abis *)

(** Two names defined as each other, each of them also the name of a struct. *)
Definition two_circle : abi := Abi [TypeDef "x" "y"; TypeDef "y" "x"] [Struct "x" "" []; Struct "y" "" []] [] [].

Definition after_set (d : abi) : abi_serializer := match set_abi 5 d empty_serializer with Ret a _ => a | _ => empty_serializer end.

Lemma circular_check_is_exact_witness :
  validate 3 (after_set two_circle) = Exc (after_set two_circle) "Circular reference in type" /\
  exists x, forall m, resolve_type (after_set two_circle) m x = None.
Proof.
  assert (E : set_abi 5 two_circle empty_serializer = Ret (after_set two_circle) tt) by (vm_compute; reflexivity).
  destruct (circular_check_is_exact two_circle 5 empty_serializer _ 3 E ltac:(cbn; lia)) as [[R _] | R]; [| exact R].
  vm_compute in R. discriminate R.
Defined.

Definition derived_abi : abi := Abi [TypeDef "item" "cell"]
  [Struct "base" "" [Field "x" "uint8"]; Struct "cell" "" [Field "v" "uint8"]; Struct "list" "base" [Field "l" "item[]"]]
  [Action 7 "list"] [Table 8 "i64" [] [] "cell"].

Lemma validation_ends_witness :
  validate 8 (after_set derived_abi) = Ret (after_set derived_abi) tt \/ exists e, validate 8 (after_set derived_abi) = Exc (after_set derived_abi) e.
Proof.
  assert (E : set_abi 5 derived_abi empty_serializer = Ret (after_set derived_abi) tt) by (vm_compute; reflexivity).
  apply (validation_ends derived_abi 5 empty_serializer _ 8 E); [| cbn; lia].
  intros td [<- | []]. reflexivity.
Defined.

Example derived_abi_is_valid : validate 8 (after_set derived_abi) = Ret (after_set derived_abi) tt.
Proof. reflexivity. Qed.

(** The order of the loops, and the errors they end with. *)
Example unknown_member_type :
  validate 8 (after_set (Abi [] [Struct "s" "" [Field "f" "nosuch"]] [] [])) =
  Exc (after_set (Abi [] [Struct "s" "" [Field "f" "nosuch"]] [] [])) "is_type(field.type)".
Proof. reflexivity. Qed.

Example circular_bases :
  let d := Abi [] [Struct "a" "b" []; Struct "b" "a" []] [] [] in
  validate 8 (after_set d) = Exc (after_set d) "Circular reference in struct".
Proof. reflexivity. Qed.

Example unknown_base :
  let d := Abi [] [Struct "a" "b" []] [] [] in validate 8 (after_set d) = Exc (after_set d) "Unknown struct".
Proof. reflexivity. Qed.

Example duplicate_action :
  match set_abi 5 (Abi [] [] [Action 1 "a"; Action 1 "b"] []) empty_serializer with Exc _ e => e | _ => "" end =
  "actions.size() == abi.actions.size()".
Proof. reflexivity. Qed.
