(* ===== verification/AbiCodec.v ===== *)
(** Values of the types an abi describes are read back from the binary form
    they are written to. *)

From Stdlib Require Import ZArith Lia Bool String Ascii List.
From stdpp Require Import base decidable list.
From S2P Require Import Prelude ChainUtils Effects Raw Abi AbiThm.
Import ListNotations.
Local Open Scope string_scope.
Local Open Scope list_scope.
Local Open Scope Z_scope.

(** What the conversions of the built-in types are relied on for. *)
Class Builtins (L : Type) := {
  unpack_builtin : type_name -> bool -> M stream (variant L);
  pack_builtin : type_name -> bool -> variant L -> result (list Z);
  as_bytes : variant L -> result (list Z);
  builtin_value : type_name -> bool -> variant L -> Prop;
  builtin_roundtrip ty arr v : builtin_value ty arr v ->
    exists bs, pack_builtin ty arr v = Ok bs /\ forall rest, unpack_builtin ty arr (bs ++ rest) = Ret rest v }.

Section Codec.
Context {L : Type} `{Builtins L} (capacity : Z) (a : abi_serializer) (depth : nat).

Local Abbreviation read n := (binary_to_variant unpack_builtin a (S depth) n).
Local Abbreviation read_object n := (binary_to_object unpack_builtin a (S depth) n).
Local Abbreviation write n := (variant_to_binary pack_builtin capacity a (S depth) n).
Local Abbreviation resolve t := (resolve_type a (S depth) t).

(** ** The values of a type *)

Definition field_typed (typed : type_name -> variant L -> Prop) (f : field) (kv : string * variant L) : Prop :=
  field_text (field_name f) = kv.1 /\ typed (field_type f) kv.2 /\ exists r, resolve (field_type f) = Some r.

(** A value of a type, and the members of a struct with those of its bases
    before them; their depth is bounded. *)
Fixpoint typed_at (n : nat) : (type_name -> variant L -> Prop) * (type_name -> list (string * variant L) -> Prop) :=
  match n with
  | O => (fun _ _ => False, fun _ _ => False)
  | S n =>
      let '(typed, members) := typed_at n in
      let object r kvs := exists st kvs1 kvs2, name_find r (struct_map a) = Some st /\ kvs = kvs1 ++ kvs2 /\
        (if String.eqb (st_base st) "" then kvs1 = []
         else exists b, resolve (st_base st) = Some b /\ is_builtin_type (array_type b) = false /\ is_array b = false /\ members b kvs1) /\
        Forall2 (field_typed typed) (st_fields st) kvs2 in
      let value t v := exists r, resolve t = Some r /\
        if is_builtin_type (array_type r) then builtin_value (array_type r) (is_array r) v
        else if is_array r then exists l, v = V_array l /\ Z.of_nat (length l) < 2 ^ 32 /\ Forall (typed (array_type r)) l
        else exists vo, v = V_object vo /\ List.NoDup (map fst vo) /\ List.Forall (fun kv => c_str kv.1 = kv.1) vo /\ object r vo in
      (value, object)
  end.

Definition typed (n : nat) : type_name -> variant L -> Prop := fst (typed_at n).
Definition members (n : nat) : type_name -> list (string * variant L) -> Prop := snd (typed_at n).

(** ** Equations *)

Lemma resolve_resolved t r : resolve t = Some r -> resolve r = Some r.
Proof. intros R. cbn. rewrite (resolve_end a _ _ _ R). reflexivity. Qed.

Lemma ended_some {S A} (o : option A) x (s : S) : o = Some x -> ended o s = Ret s x.
Proof. intros ->. reflexivity. Qed.

Lemma read_S n t r s : resolve t = Some r ->
  read (S n) t s =
    (if is_builtin_type (array_type r) then unpack_builtin (array_type r) (is_array r)
     else if is_array r then
       size ← unpack unsigned_int;
       vars ← read_times (read n (array_type r)) (Z.to_nat size);
       mret (V_array vars)
     else
       mvo ← read_object (S n) r [];
       mret (V_object mvo)) s.
Proof.
  intros R. unfold binary_to_variant, binary_to_object. cbn [from_binary].
  destruct (from_binary unpack_builtin a (S depth) n) as [rd ro]. cbn [fst snd].
  rewrite (mbind_ret _ _ _ _ _ (ended_some _ _ s R)). reflexivity.
Qed.

Lemma read_object_S n r st obj s : resolve r = Some r -> name_find r (struct_map a) = Some st ->
  read_object (S n) r obj s =
    (obj ← (if String.eqb (st_base st) "" then mret obj else b ← ended (resolve (st_base st)); read_object n b obj);
     read_fields a (S depth) (read n) (st_fields st) obj) s.
Proof.
  intros R E. unfold binary_to_variant, binary_to_object. cbn [from_binary].
  destruct (from_binary unpack_builtin a (S depth) n) as [rd ro]. cbn [fst snd].
  pose proof (get_struct_at a (S depth) r r s R) as G. rewrite E in G.
  rewrite (mbind_ret _ _ _ _ _ G). reflexivity.
Qed.

Lemma read_resolved n t r s : resolve t = Some r -> read n t s = read n r s.
Proof.
  intros R. destruct n as [| n]; [reflexivity |]. rewrite (read_S n t r s R), (read_S n r r s (resolve_resolved _ _ R)). reflexivity.
Qed.

(** What is written of a resolved type. *)
Definition write_body n r v : M (list Z) unit :=
  if is_builtin_type (array_type r) then
    bs ← of_result (pack_builtin (array_type r) (is_array r) v); ds_write capacity bs
  else if is_array r then
    match v with
    | V_array vars => ds_write capacity (pack unsigned_int (u32 (Z.of_nat (length vars)))) ;;
                      for_each vars (fun v => write n (array_type r) v)
    | _ => throw "Invalid cast to Array"
    end
  else
    st ← get_struct a (S depth) r;
    match v with
    | V_object vo =>
        (if String.eqb (st_base st) "" then mret tt else b ← ended (resolve (st_base st)); write n b v) ;;
        for_each (st_fields st) (fun f =>
          match object_find (field_text (field_name f)) vo with
          | Some v => write n (field_type f) v
          | None => throw "Missing field in variant object"
          end)
    | _ => throw "Invalid cast to Object"
    end.

Lemma write_S n t r v w : resolve t = Some r -> write (S n) t v w = capture_and_rethrow (write_body n r v) w.
Proof.
  intros R. cbn [variant_to_binary]. unfold capture_and_rethrow. rewrite (mbind_ret _ _ _ _ _ (ended_some _ _ w R)). reflexivity.
Qed.

(** ** Runs that write *)

Definition over_run : string := "write datastream attempt over-run".

(** [m] appends [bs], or throws when there is no room for it. *)
Definition writes (m : M (list Z) unit) (bs : list Z) : Prop := forall w,
  Z.of_nat (length w) <= capacity ->
  if Z.of_nat (length w) + Z.of_nat (length bs) <=? capacity then m w = Ret (w ++ bs) tt else exists w', m w = Exc w' over_run.

Lemma writes_nil : writes (mret tt) [].
Proof.
  intros w Lw. change (Z.of_nat (length [])) with 0. rewrite Z.add_0_r, (proj2 (Z.leb_le _ _) Lw), app_nil_r. reflexivity.
Qed.

Lemma writes_seq m k bs cs : writes m bs -> writes k cs -> writes (m ;; k) (bs ++ cs).
Proof.
  intros Hm Hk w Lw. specialize (Hm w Lw). rewrite length_app.
  destruct (Z.leb_spec (Z.of_nat (length w) + Z.of_nat (length bs)) capacity) as [F | F].
  - specialize (Hk (w ++ bs) ltac:(rewrite length_app; lia)). rewrite length_app in Hk. rewrite (mbind_ret _ _ _ _ _ Hm).
    replace (Z.of_nat (length w) + Z.of_nat (length bs + length cs)) with (Z.of_nat (length w + length bs) + Z.of_nat (length cs)) by lia.
    rewrite app_assoc. exact Hk.
  - destruct Hm as [w' Hm]. destruct (Z.leb_spec (Z.of_nat (length w) + Z.of_nat (length bs + length cs)) capacity); [lia |].
    exists w'. exact (Follows.mbind_exc _ _ _ _ _ Hm).
Qed.

Lemma writes_ds bs : writes (ds_write capacity bs) bs.
Proof. intros w Lw. unfold ds_write. destruct (_ <=? _); [reflexivity | eexists; reflexivity]. Qed.

Lemma writes_ext m k bs : (forall w, m w = k w) -> writes k bs -> writes m bs.
Proof. intros E Hk w Lw. rewrite E. exact (Hk w Lw). Qed.

Lemma writes_capture m bs : writes m bs -> writes (capture_and_rethrow m) bs.
Proof.
  intros Hm w Lw. specialize (Hm w Lw). unfold capture_and_rethrow. destruct (_ <=? _); [rewrite Hm; reflexivity |].
  destruct Hm as [w' ->]. exists w'. reflexivity.
Qed.

Lemma writes_at n t r v bs : resolve t = Some r -> writes (write_body n r v) bs -> writes (write (S n) t v) bs.
Proof. intros R Hw. apply (writes_ext _ (capture_and_rethrow (write_body n r v))); [intros w; apply write_S, R | apply writes_capture, Hw]. Qed.

(** ** Round trips *)

Definition round n t v : Prop := exists bs, writes (write n t v) bs /\ forall rest, read n t (bs ++ rest) = Ret rest v.

Definition finds (vo kvs : list (string * variant L)) : Prop := forall k v, In (k, v) kvs -> object_find k vo = Some v.

Definition round_object n r kvs : Prop := exists bs,
  (forall vo, finds vo kvs -> writes (write n r (V_object vo)) bs) /\
  forall obj rest, read_object n r obj (bs ++ rest) = Ret rest (obj ++ kvs).

Lemma round_items n t l : Forall (round n t) l ->
  exists bs, writes (for_each l (fun v => write n t v)) bs /\
    forall rest, read_times (read n t) (length l) (bs ++ rest) = Ret rest l.
Proof.
  induction 1 as [| v l [bs [Wv Rv]] _ (cs & Wl & Rl)]; [exists []; split; [exact writes_nil | reflexivity] |].
  exists (bs ++ cs). split; [exact (writes_seq _ _ _ _ Wv Wl) |]. intros rest. cbn [length read_times].
  rewrite <- app_assoc, (mbind_ret _ _ _ _ _ (Rv (cs ++ rest))), (mbind_ret _ _ _ _ _ (Rl rest)). reflexivity.
Qed.

Lemma round_fields n fs kvs : Forall2 (field_typed (round n)) fs kvs ->
  exists bs, (forall vo, finds vo kvs ->
      writes (for_each fs (fun f => match object_find (field_text (field_name f)) vo with
                                    | Some v => write n (field_type f) v
                                    | None => throw "Missing field in variant object"
                                    end)) bs) /\
    forall obj rest, read_fields a (S depth) (read n) fs obj (bs ++ rest) = Ret rest (obj ++ kvs).
Proof.
  induction 1 as [| f [k v] fs kvs (Ek & (bs & Wv & Rv) & (r & Rr)) _ (cs & Wl & Rl)].
  { exists []. split; [intros vo _; exact writes_nil | intros obj rest; rewrite app_nil_r; reflexivity]. }
  cbn [fst snd] in *. exists (bs ++ cs). split.
  - intros vo F. cbn [for_each]. apply writes_seq; [| apply Wl; intros k' v' I; apply F; right; exact I].
    rewrite Ek, (F k v) by (left; reflexivity). exact Wv.
  - intros obj rest. cbn [read_fields]. rewrite <- app_assoc, (mbind_ret _ _ _ _ _ (ended_some _ _ _ Rr)).
    pose proof (Rv (cs ++ rest)) as Rv'. rewrite (read_resolved n _ _ _ Rr) in Rv'.
    rewrite (mbind_ret _ _ _ _ _ Rv'), Rl, <- app_assoc, Ek. reflexivity.
Qed.

(** The members of a struct, those of its bases first. *)
Lemma round_struct n r st kvs1 kvs2 :
  resolve r = Some r -> is_builtin_type (array_type r) = false -> is_array r = false ->
  name_find r (struct_map a) = Some st ->
  (if String.eqb (st_base st) "" then kvs1 = []
   else exists b, resolve (st_base st) = Some b /\ round_object n b kvs1) ->
  Forall2 (field_typed (round n)) (st_fields st) kvs2 -> round_object (S n) r (kvs1 ++ kvs2).
Proof.
  intros R Nb Na E B F. destruct (round_fields n _ _ F) as (cs & Wf & Rf).
  assert (Bs : exists bs, (forall vo, finds vo kvs1 ->
      writes (if String.eqb (st_base st) "" then mret tt else b ← ended (resolve (st_base st)); write n b (V_object vo)) bs) /\
    forall obj rest, (if String.eqb (st_base st) "" then mret obj else b ← ended (resolve (st_base st)); read_object n b obj) (bs ++ rest)
                     = Ret rest (obj ++ kvs1)).
  { destruct (String.eqb (st_base st) "").
    - subst kvs1. exists []. split; [intros vo _; exact writes_nil | intros obj rest; rewrite app_nil_r; reflexivity].
    - destruct B as (b & Rb & bs & Wb & Ro). exists bs. split.
      + intros vo Fv. apply (writes_ext _ (write n b (V_object vo))); [| exact (Wb vo Fv)].
        intros w. rewrite (mbind_ret _ _ _ _ _ (ended_some _ _ w Rb)). reflexivity.
      + intros obj rest. rewrite (mbind_ret _ _ _ _ _ (ended_some _ _ _ Rb)). apply Ro. }
  destruct Bs as (bs & Wb & Rb). exists (bs ++ cs). split.
  - intros vo Fv. apply (writes_at n r r _ _ R). unfold write_body. rewrite Nb, Na.
    eapply writes_ext;
      [intros w; pose proof (get_struct_at a (S depth) r r w R) as G; rewrite E in G; exact (mbind_ret _ _ _ _ _ G) |].
    apply writes_seq; [apply Wb | apply Wf]; intros k v I; apply Fv, in_or_app; auto.
  - intros obj rest. rewrite (read_object_S n r st obj _ R E), <- app_assoc.
    rewrite (mbind_ret _ _ _ _ _ (Rb obj (cs ++ rest))), Rf, <- app_assoc. reflexivity.
Qed.

Lemma typed_round n :
  (forall t v, typed n t v -> round n t v) /\
  (forall r kvs, resolve r = Some r -> is_builtin_type (array_type r) = false -> is_array r = false ->
     members n r kvs -> round_object n r kvs).
Proof.
  induction n as [| n [IHt IHm]]; [split; [intros t v [] | intros r kvs _ _ _ []] |].
  assert (Mem : forall r kvs, resolve r = Some r -> is_builtin_type (array_type r) = false -> is_array r = false ->
     members (S n) r kvs -> round_object (S n) r kvs).
  { intros r kvs R Nb Na M. unfold members in M, IHm. unfold typed in IHt. cbn [typed_at] in M.
    destruct (typed_at n) as [ty me]. cbn [fst snd] in *. destruct M as (st & kvs1 & kvs2 & E & -> & B & F).
    apply (round_struct n r st); try assumption.
    - destruct (String.eqb (st_base st) ""); [exact B |]. destruct B as (b & Rb & Bb & Ba & Mb).
      exists b. split; [exact Rb |]. apply IHm; try assumption. exact (resolve_resolved _ _ Rb).
    - eapply Forall2_impl; [exact F |]. intros f kv (A1 & A2 & A3). split; [exact A1 |]. split; [apply IHt, A2 | exact A3]. }
  split; [| exact Mem].
  intros t v T. unfold typed in T, IHt. cbn [typed_at] in T. unfold members in Mem. cbn [typed_at] in Mem.
  destruct (typed_at n) as [ty me]. cbn [fst snd] in *. destruct T as (r & R & T).
  destruct (is_builtin_type (array_type r)) eqn:Nb; [| destruct (is_array r) eqn:Na].
  - destruct (builtin_roundtrip _ _ _ T) as (bs & P & U). exists bs. split.
    + apply (writes_at n t r _ _ R). unfold write_body. rewrite Nb, P. exact (writes_ds bs).
    + intros rest. rewrite (read_S n t r _ R), Nb. apply U.
  - destruct T as (l & -> & Ll & F).
    destruct (round_items n (array_type r) l (Forall_impl _ _ _ F (fun v => IHt _ v))) as (bs & Wl & Rl).
    destruct (length_packed (Z.of_nat (length l)) ltac:(lia)) as [El Pl].
    exists (pack unsigned_int (Z.of_nat (length l)) ++ bs). split.
    + apply (writes_at n t r _ _ R). unfold write_body. rewrite Nb, Na, El.
      apply writes_seq; [exact (writes_ds _) | exact Wl].
    + intros rest. rewrite (read_S n t r _ R), Nb, Na, <- app_assoc, (unpack_then unsigned_int) by exact Pl.
      rewrite Nat2Z.id, (mbind_ret _ _ _ _ _ (Rl rest)). reflexivity.
  - destruct T as (vo & -> & ND & Nm & M). pose proof (resolve_resolved _ _ R) as Rr.
    destruct (Mem r vo Rr Nb Na M) as (bs & Wo & Ro). exists bs. split.
    + apply (writes_ext _ (write (S n) r (V_object vo))).
      * intros w. rewrite (write_S n t r _ w R), <- (write_S n r r _ w Rr). reflexivity.
      * apply Wo. intros k x I. unfold object_find. rewrite List.Forall_forall in Nm.
        rewrite (Nm _ I : c_str k = k). apply find_in; assumption.
    + intros rest. rewrite (read_S n t r _ R), Nb, Na, (mbind_ret _ _ _ _ _ (Ro [] rest)). reflexivity.
Qed.

(** ** Forming values *)

Lemma typed_builtin n t r v : resolve t = Some r -> is_builtin_type (array_type r) = true ->
  builtin_value (array_type r) (is_array r) v -> typed (S n) t v.
Proof. intros R B V. unfold typed. cbn [typed_at]. destruct (typed_at n). exists r. rewrite B. auto. Qed.

Lemma typed_list n t r l : resolve t = Some r -> is_builtin_type (array_type r) = false -> is_array r = true ->
  Z.of_nat (length l) < 2 ^ 32 -> Forall (typed n (array_type r)) l -> typed (S n) t (V_array l).
Proof.
  intros R B A Ll F. unfold typed in *. cbn [typed_at]. destruct (typed_at n). exists r. rewrite B, A. eauto.
Qed.

Lemma members_plain n r st kvs : name_find r (struct_map a) = Some st -> st_base st = "" ->
  Forall2 (field_typed (typed n)) (st_fields st) kvs -> members (S n) r kvs.
Proof.
  intros E B F. unfold members, typed in *. cbn [typed_at]. destruct (typed_at n). exists st, [], kvs. rewrite B.
  do 3 (split; [assumption || reflexivity |]). exact F.
Qed.

Lemma members_derived n r st b kvs1 kvs2 : name_find r (struct_map a) = Some st -> String.eqb (st_base st) "" = false ->
  resolve (st_base st) = Some b -> is_builtin_type (array_type b) = false -> is_array b = false -> members n b kvs1 ->
  Forall2 (field_typed (typed n)) (st_fields st) kvs2 -> members (S n) r (kvs1 ++ kvs2).
Proof.
  intros E B Rb Bb Ba M F. unfold members, typed in *. cbn [typed_at]. destruct (typed_at n). exists st, kvs1, kvs2. rewrite B.
  do 2 (split; [assumption || reflexivity |]). split; [exists b; auto | exact F].
Qed.

Lemma typed_object n t r vo : resolve t = Some r -> is_builtin_type (array_type r) = false -> is_array r = false ->
  List.NoDup (map fst vo) -> List.Forall (fun kv => c_str kv.1 = kv.1) vo -> members (S n) r vo -> typed (S n) t (V_object vo).
Proof.
  intros R B A ND Nm M. unfold typed, members in *. cbn [typed_at] in *. destruct (typed_at n). exists r. rewrite B, A. eauto 6.
Qed.

(** C40: what is written of a value is read back.  A value of a type - of a
    built-in type, a list of values, or an object with the members of its
    struct and of the structs that one is derived from, under different names
    without zero bytes - is written as bytes, when they fit into the buffer, from which the same
    value is read, up to what follows them. *)
Theorem abi_values_roundtrip n t v : 0 <= capacity -> typed n t v ->
  exists bs,
    (if Z.of_nat (length bs) <=? capacity then variant_to_binary pack_builtin capacity a (S depth) n t v [] = Ret bs tt
     else exists w, variant_to_binary pack_builtin capacity a (S depth) n t v [] = Exc w over_run) /\
    (forall rest, binary_to_variant unpack_builtin a (S depth) n t (bs ++ rest) = Ret rest v).
Proof.
  intros C T. destruct (proj1 (typed_round n) t v T) as (bs & W & R). exists bs. split; [exact (W [] C) | exact R].
Qed.
End Codec.

(** ** On a concrete abi *)

(** Bytes are the only built-in values here. *)
#[export, refine] Instance toy_builtins : Builtins Z := {
  unpack_builtin _ arr := if arr then throw "no arrays" else (b ← stream_get; mret (V_leaf b));
  pack_builtin _ arr v := match v with V_leaf b => Ok [b] | _ => Throw "bad cast" end;
  as_bytes _ := Throw "bad cast";
  builtin_value _ arr v := arr = false /\ exists b, v = V_leaf b }.
Proof. intros ty arr v [-> [b ->]]. exists [b]. split; reflexivity. Defined.

Definition toy_abi : abi := Abi [TypeDef "item" "cell"]
  [Struct "base" "" [Field "x" "uint8"]; Struct "cell" "" [Field "v" "uint8"]; Struct "list" "base" [Field "l" "item[]"; Field "y" "item"]] [] [].

Definition toy_serializer : abi_serializer :=
  match set_abi 5 toy_abi empty_serializer with Ret a _ => a | _ => empty_serializer end.

Definition toy_cell (b : Z) : variant Z := V_object [("v", V_leaf b)].
Definition toy_value : variant Z := V_object [("x", V_leaf 7); ("l", V_array [toy_cell 1; toy_cell 2]); ("y", toy_cell 8)].

Lemma toy_byte n t b : resolve_type toy_serializer 6 t = Some "uint8" -> typed toy_serializer 5 (S n) t (V_leaf b).
Proof. intros R. apply (typed_builtin _ _ _ _ _ _ R eq_refl). split; eauto. Qed.

Lemma toy_cell_typed n b : typed toy_serializer 5 (S (S n)) "item" (toy_cell b).
Proof.
  apply (typed_object _ _ _ _ "cell"); try reflexivity; [repeat constructor; intros [] | repeat constructor |].
  eapply members_plain; [reflexivity .. |]. constructor; [| constructor].
  split; [reflexivity |]. split; [apply toy_byte; reflexivity | eexists; reflexivity].
Qed.

Lemma toy_typed : typed toy_serializer 5 4 "list" toy_value.
Proof.
  apply (typed_object _ _ _ _ "list"); try reflexivity.
  { repeat (constructor; [cbn; intuition discriminate |]). constructor. }
  { repeat (constructor; [reflexivity |]). constructor. }
  apply (members_derived _ _ _ _ (Struct "list" "base" [Field "l" "item[]"; Field "y" "item"]) "base" [("x", V_leaf 7)]); try reflexivity.
  - eapply members_plain; [reflexivity .. |]. constructor; [| constructor].
    split; [reflexivity |]. split; [apply toy_byte; reflexivity | eexists; reflexivity].
  - constructor; [| constructor; [| constructor]]; (split; [reflexivity |]; split; [| eexists; reflexivity]).
    + apply (typed_list _ _ _ _ "item[]"); try reflexivity. repeat (constructor; [apply (toy_cell_typed 0) |]). constructor.
    + apply (toy_cell_typed 1).
Qed.

Lemma abi_values_roundtrip_witness : exists bs,
  variant_to_binary pack_builtin (1024 * 1024) toy_serializer 6 4 "list" toy_value [] = Ret bs tt /\ bs = [7; 2; 1; 2; 8] /\
  binary_to_variant unpack_builtin toy_serializer 6 4 "list" (bs ++ [9]) = Ret [9] toy_value.
Proof.
  assert (V : variant_to_binary pack_builtin (1024 * 1024) toy_serializer 6 4 "list" toy_value [] = Ret [7; 2; 1; 2; 8] tt) by (vm_compute; reflexivity).
  destruct (abi_values_roundtrip (1024 * 1024) toy_serializer 5 4 "list" toy_value ltac:(lia) toy_typed) as (bs & W & R).
  rewrite V in W. destruct (_ <=? _); [injection W as <- | destruct W as [w W]; discriminate W].
  exists [7; 2; 1; 2; 8]. split; [exact V |]. split; [reflexivity | exact (R [9])].
Defined.

(** A struct with itself as a member is valid, and its values are never read. *)
Definition struct_of_itself : abi := Abi [] [Struct "t" "" [Field "f" "t"]] [] [].
Definition struct_of_itself_set : abi_serializer := Serializer [] [("t", Struct "t" "" [Field "f" "t"])] [] [].

Lemma struct_of_itself_overflows :
  set_abi 1 struct_of_itself empty_serializer = Ret struct_of_itself_set tt /\
  validate 2 struct_of_itself_set = Ret struct_of_itself_set tt /\
  forall n s, binary_to_variant unpack_builtin struct_of_itself_set 2 n "t" s = Undef.
Proof.
  do 2 (split; [vm_compute; reflexivity |]). induction n as [| n IH]; intros s; [reflexivity |].
  rewrite (read_S _ 1 n "t" "t") by reflexivity.
  change (is_builtin_type (array_type "t")) with false. change (is_array "t") with false. cbv iota.
  unfold mbind at 1, M_bind at 1. rewrite (read_object_S _ 1 n "t" (Struct "t" "" [Field "f" "t"])) by reflexivity.
  change (binary_to_variant unpack_builtin struct_of_itself_set 2 n) with (fun t => binary_to_variant unpack_builtin struct_of_itself_set 2 n t).
  cbn [st_base st_fields read_fields String.eqb]. rewrite (mbind_ret (mret []) _ s s [] eq_refl).
  rewrite (mbind_ret _ _ s s "t") by reflexivity. unfold mbind at 1, M_bind at 1. rewrite IH. reflexivity.
Qed.

(** ** The stored form *)

Lemma text_bytes_text s : bytes_text (text_bytes s) = s.
Proof.
  unfold bytes_text, text_bytes. rewrite map_map. transitivity (string_of_list_ascii (list_ascii_of_string s)).
  - f_equal. transitivity (map id (list_ascii_of_string s)); [| apply map_id].
    apply map_ext. intros c. rewrite N2Z.id. apply ascii_N_embedding.
  - apply string_of_list_ascii_of_string.
Qed.

Lemma text_is_bytes s : bytes (text_bytes s).
Proof.
  apply List.Forall_forall. intros b I. apply in_map_iff in I as (c & <- & _).
  pose proof (N_ascii_bounded c). split; lia.
Qed.

Lemma strip_text bs : ~ In 0 bs -> strip_zeros bs = bs.
Proof.
  induction bs as [| b bs IH]; intros N; cbn; [reflexivity |].
  rewrite IH by (intros I; apply N; right; exact I). destruct bs; [| reflexivity].
  destruct (Z.eqb_spec b 0) as [-> | Nb]; [destruct N; left; reflexivity | reflexivity].
Qed.

Lemma c_str_text s : ~ In 0 (text_bytes s) -> c_str s = s.
Proof.
  induction s as [| c s IH]; cbn; intros N; [reflexivity |].
  destruct (Ascii.eqb_spec c zero) as [-> | _]; [destruct N; left; reflexivity |].
  rewrite IH; [reflexivity |]. intros I. apply N. right. exact I.
Qed.

Lemma fixed_text_text n s : ~ In 0 (text_bytes s) -> fixed_text n s = s.
Proof. intros N. unfold fixed_text. destruct (_ <=? _)%nat; [reflexivity | apply c_str_text, N]. Qed.

#[export] Instance fixed_string_lawful n : Lawful (raw_fixed_string n).
Proof.
  split; intros u; cbn [raw_fixed_string pack unpack packable].
  - intros (Ln & Hn & N). rewrite fixed_text_text by exact N. destruct (length_packed (Z.of_nat (length (text_bytes u))) ltac:(lia)) as [-> P].
    apply bytes_app; [exact (pack_bytes (c := unsigned_int) _ P) | apply text_is_bytes].
  - intros rest (Ln & Hn & N). rewrite fixed_text_text by exact N. destruct (length_packed (Z.of_nat (length (text_bytes u))) ltac:(lia)) as [-> P].
    rewrite <- app_assoc, (unpack_then unsigned_int) by exact P.
    destruct (Z.ltb_spec 0 (Z.of_nat (length (text_bytes u)))) as [G | G].
    + destruct (Z.ltb_spec (Z.of_nat n) (Z.of_nat (length (text_bytes u)))); [lia |].
      rewrite read_then by lia. rewrite strip_text, text_bytes_text by exact N. reflexivity.
    + assert (E : u = EmptyString) by (rewrite <- (text_bytes_text u); destruct (text_bytes u); [reflexivity | cbn in G; lia]).
      subst u. reflexivity.
Qed.

(** An abi is found again in the account it is stored in, when it is not empty. *)
Lemma stored_abi_found `{AbiSizes} d : packable raw_abi d -> (4 < length (pack raw_abi d))%nat ->
  to_abi (pack raw_abi d) = Ret [] (Some d).
Proof.
  intros P Ld. unfold to_abi, is_empty_abi. rewrite (proj2 (Nat.leb_gt _ _) Ld). cbn [negb].
  rewrite <- (app_nil_r (pack raw_abi d)) at 1. rewrite (unpack_then raw_abi) by exact P. reflexivity.
Qed.
