(* ===== verification/Chain.v ===== *)
(** The chain controller (blockchain/chain/chain_xmax.cpp, pending_block.hpp):
    building, applying, popping and finalising blocks, the switch between
    forks, and what happens when a block becomes irreversible.

    A block pack is an object of the fork database's heap, so the pack being
    built, the head and the packs in the fork database share one store.  The
    fork database calls back into the chain when a block becomes irreversible:
    its world [irr_world] holds the database, the block log and the number of
    the last irreversible block.  The log is the list of its blocks.

    Undefined behaviour and a loop out of fuel are both [Undef].  Logging and
    the signal on_finalize_block are left out. *)

From Stdlib Require Import ZArith Lia Bool String List.
From stdpp Require Import base decidable gmap list.
From S2P Require Import Prelude ChainUtils Block BlockPack Effects UndoIndex Objects Tables Context Authority Voting.
From S2P Require Import SystemContract NativeApi Transaction Applying Replay ForkDb ForkRun.
Import ListNotations.
Local Open Scope Z_scope.

Local Abbreviation database := (list (generic_index row)).

(** ** State *)

Record irr_world := IrrWorld {
  block_db : database;
  last_irreversible_block_num : Z;
  chain_log : list signed_block;
  log_failed : bool }.          (* the stream of the index has failed, and does nothing more *)

Record pending_block := Pending {
  pending_session : db_session;
  pack : option ptr;
  pending_receipts : list message_receipt }.

Record chain_context := Chain {
  fork_db : fork_context irr_world;
  building_block : option pending_block;
  building_status : Z * Z;
  head_pack : option ptr;
  selected : selection }.

Definition db_of (c : chain_context) : database := block_db (world (fork_db c)).

Definition set_block_db (db : database) (w : irr_world) : irr_world :=
  IrrWorld db (last_irreversible_block_num w) (chain_log w) (log_failed w).
Definition set_fork (f : fork_context irr_world) (c : chain_context) : chain_context :=
  Chain f (building_block c) (building_status c) (head_pack c) (selected c).
Definition set_db (db : database) (c : chain_context) : chain_context :=
  set_fork (set_world (set_block_db db (world (fork_db c))) (fork_db c)) c.
Definition set_building (b : option pending_block) (c : chain_context) : chain_context :=
  Chain (fork_db c) b (building_status c) (head_pack c) (selected c).
Definition set_status (s : Z * Z) (c : chain_context) : chain_context :=
  Chain (fork_db c) (building_block c) s (head_pack c) (selected c).
Definition set_head (p : option ptr) (c : chain_context) : chain_context :=
  Chain (fork_db c) (building_block c) (building_status c) p (selected c).
Definition set_selected (s : selection) (c : chain_context) : chain_context :=
  Chain (fork_db c) (building_block c) (building_status c) (head_pack c) s.

(** Programs on a part of the state. *)
Definition on_part {P A} (get : chain_context -> P) (set : P -> chain_context -> chain_context) (m : M P A) : M chain_context A := fun c =>
  match m (get c) with
  | Ret s a => Ret (set s c) a
  | Exc s e => Exc (set s c) e
  | Undef => Undef
  end.
Definition on_db {A} (m : M database A) : M chain_context A := on_part db_of set_db m.
Definition on_fork {A} (m : M (fork_context irr_world) A) : M chain_context A := on_part fork_db set_fork m.
Definition on_selection {A} (m : M selection A) : M chain_context A := on_part selected set_selected m.

(** *_context->block_head *)
Definition the_head : M chain_context ptr :=
  p ← gets head_pack;
  match p with Some p => mret p | None => undefined end.
Definition at_ptr (p : ptr) : M chain_context block_pack := gets (fun c => deref (fork_db c) p).
Definition head_block : M chain_context block_pack := p ← the_head; at_ptr p.

(** _context->building_block->pack *)
Definition the_pack : M chain_context ptr :=
  b ← gets building_block;
  match b with
  | Some pb => match pack pb with Some p => mret p | None => undefined end
  | None => undefined
  end.
Definition read_pack : M chain_context block_pack := p ← the_pack; at_ptr p.
Definition write_pack (f : block_pack -> block_pack) : M chain_context unit :=
  p ← the_pack;
  update (fun c => set_fork (store (fork_db c) p (f (deref (fork_db c) p))) c).

(** A program on the block being built. *)
Definition in_building {A} (m : M applying A) : M chain_context A := fun c =>
  match building_block c with
  | Some (Pending s (Some p) rs) =>
      let back (x : applying) :=
        set_status (status_trx_counter x, status_msg_counter x)
          (set_building (Some (Pending s (Some p) (message_receipts x)))
             (set_fork (store (fork_db (set_db (a_db x) c)) p (a_pack x)) c)) in
      match m (Applying (db_of c) (deref (fork_db c) p) rs (fst (building_status c)) (snd (building_status c))) with
      | Ret x a => Ret (back x) a
      | Exc x e => Exc (back x) e
      | Undef => Undef
      end
  | _ => Undef
  end.

(** Assignments to fields of a pack. *)
Definition with_header (h : signed_block_header) (p : block_pack) : block_pack :=
  let '(Pack a1 a2 _ a4 a5 a6 a7 a8 a9 a10 a11 a12 a13 a14 a15 a16 a17 a18 a19 a20) := p in
  Pack a1 a2 h a4 a5 a6 a7 a8 a9 a10 a11 a12 a13 a14 a15 a16 a17 a18 a19 a20.
Definition with_validated_id (i : sha256) (p : block_pack) : block_pack :=
  let '(Pack a1 _ a3 a4 a5 a6 a7 a8 a9 a10 a11 a12 a13 a14 a15 a16 _ a18 a19 a20) := p in
  Pack a1 i a3 a4 a5 a6 a7 a8 a9 a10 a11 a12 a13 a14 a15 a16 true a18 a19 a20.
Definition with_block (b : signed_block) (p : block_pack) : block_pack :=
  let '(Pack a1 a2 a3 a4 a5 a6 a7 a8 a9 a10 a11 a12 a13 a14 a15 a16 a17 a18 _ a20) := p in
  Pack a1 a2 a3 a4 a5 a6 a7 a8 a9 a10 a11 a12 a13 a14 a15 a16 a17 a18 (Some b) a20.

(** *pack->block *)
Definition block_of (p : block_pack) : M chain_context signed_block :=
  match block p with Some b => mret b | None => undefined end.

(** ** Irreversible blocks *)

Section Irreversible.
Context `{Crypto}.

(** chain_stream::append_block: an entry of the index has 64 bytes; a stream
    that failed tells -1 as its position. *)
Definition append_block (b : signed_block) : M irr_world unit :=
  w ← gets (fun w => w);
  require (u64 (64 * u64 (Block.block_num b - 1))
           =? u64 (if log_failed w then -1 else 64 * Z.of_nat (length (chain_log w))))
    "Append to index file occuring at wrong position." ;;
  update (fun w => IrrWorld (block_db w) (last_irreversible_block_num w) (chain_log w ++ [b]) (log_failed w)).

Definition _irreversible_block (p : block_pack) : M irr_world unit :=
  match block p with
  | None => undefined
  | Some b =>
      let block_num := Block.block_num b in
      update (fun w => IrrWorld (block_db w) block_num (chain_log w) (log_failed w)) ;;
      append_block b ;;
      update (fun w => set_block_db (db_commit block_num (block_db w)) w)
  end.

Definition on_irreversible (p : block_pack) : M irr_world unit :=
  w ← gets (fun w => w);
  match last (chain_log w), block p with
  | Some pre_block, Some b =>
      require (u32 (block_num p - 1) =? Block.block_num pre_block) "error block" ;;
      require (bool_decide (previous b = Block.id pre_block)) "new block doesn't link to pre block head" ;;
      _irreversible_block p
  | _, _ => undefined
  end.
End Irreversible.

(** ** Blocks *)

Section Blocks.
Context `{Crypto} (hash_pair : sha256 -> sha256 -> sha256) (xmax_build_public_key : list Z).

(** building_block.reset(): the destructor of the session undoes it. *)
Definition _abort_build : M chain_context unit :=
  b ← gets building_block;
  match b with
  | None => mret tt
  | Some pb => on_db (db_session_undo (pending_session pb)) ;; update (set_building None)
  end.

(** The assignment resets the optional before it holds the new session. *)
Definition start : M chain_context unit :=
  c ← gets (fun c => c);
  let '(db, session) := db_start_undo_session true (db_of c) in
  update (set_db db) ;;
  _abort_build ;;
  update (set_building (Some (Pending session None []))) ;;
  update (set_status (0, 0)).

(** ** Builders *)

Definition get_static_config : M chain_context static_config_object :=
  on_db (obj ← db_get_at static_config_object 0; Tables.deref obj).
Definition get_dynamic_states : M chain_context dynamic_states_object :=
  on_db (obj ← db_get_at dynamic_states_object 0; Tables.deref obj).

Definition get_order_builder (order_slot : Z) : M chain_context builder_info :=
  config ← get_static_config;
  from_result (select_builder (cfg_current_builders config) (cfg_next_builders config) order_slot).

Definition get_block_builder (delta_slot : Z) : M chain_context builder_info :=
  states ← get_dynamic_states;
  get_order_builder (u32 (ds_round_slot states + delta_slot)).

Definition find_builder_object (builder_name : Z) : M chain_context (option Z) :=
  on_db (db_find (fun b => bo_owner b =? builder_name)).

Definition head_block_timestamp : M chain_context chain_timestamp := h ← head_block; mret (timestamp (new_header h)).
Definition head_block_time : M chain_context Z := t ← head_block_timestamp; mret (to_time_point t).
Definition head_block_num : M chain_context Z := h ← head_block; mret (block_num h).
Definition head_block_id : M chain_context sha256 := h ← head_block; mret (block_id h).

Definition get_delta_slot_at_time (when : chain_timestamp) : M chain_context Z :=
  begin ← head_block_timestamp;
  mret (ChainUtils.get_delta_slot_at_time begin when).

Definition get_order_slot_at_time (when : chain_timestamp) : M chain_context Z :=
  delta ← get_delta_slot_at_time when;
  states ← get_dynamic_states;
  mret (u32 (ds_round_slot states + delta)).

Definition get_verifiers_by_order (order_slot : Z) : M chain_context builder_rule :=
  config ← get_static_config;
  mret (select_builder_rule (cfg_current_builders config) (cfg_next_builders config) order_slot).

Definition get_delta_slot_time (delta_slot : Z) : M chain_context chain_timestamp :=
  begin ← head_block_timestamp;
  mret (ChainUtils.get_delta_slot_time begin delta_slot).

Definition building_block_timestamp : M chain_context chain_timestamp :=
  b ← gets building_block;
  require (match b with Some _ => true | None => false end) "no pending block" ;;
  p ← read_pack;
  mret (timestamp (new_header p)).

(** ** The start of a block *)

Definition make_pack : M chain_context ptr := fun c =>
  let '(f, p) := alloc (fork_db c) new_pack in Ret (set_fork f c) p.

Definition set_pack (p : ptr) (c : chain_context) : chain_context :=
  match building_block c with
  | Some (Pending s _ rs) => set_building (Some (Pending s (Some p) rs)) c
  | None => c
  end.

Definition _start_first_build (when : chain_timestamp) : M chain_context unit :=
  let xmxinfo := Builder xmax_contract_name xmax_build_public_key in
  let rule := set_builders [xmxinfo] 1 in
  start ;;
  p ← make_pack;
  update (set_pack p) ;;
  write_pack (fun self => init_default self when xmxinfo rule) ;;
  update (set_head (Some p)).

Definition _generate_next_builders : M chain_context unit :=
  p ← read_pack;
  if new_round p then
    c ← gets (fun c => c);
    let new_builders := next_round xmax_contract_name xmax_build_public_key (db_of c) in
    let new_version := u32 (version (current_builders p) + 1) in
    p ← from_result (set_next_builders p (set_builders new_builders new_version));
    write_pack (fun _ => p)
  else mret tt.

(** A scope that resets building_block unless its end is reached. *)
Definition reset_on_exit (m : M chain_context unit) : M chain_context unit := fun c =>
  match m c with
  | Exc c e => (_abort_build ;; throw e) c
  | o => o
  end.

Definition _start_build (when : chain_timestamp) : M chain_context unit :=
  b ← gets building_block;
  require (match b with Some _ => false | None => true end) "!_context->building_block" ;;
  now ← head_block_time;
  require (now <? to_time_point when) "block must be generated at a timestamp after the head block time" ;;
  reset_on_exit
    (start ;;
     capture_and_rethrow
       (p ← make_pack;
        update (set_pack p) ;;
        head ← head_block;
        self ← read_pack;
        self ← from_result (init_by_pre_pack self head when true);
        write_pack (fun _ => self) ;;
        _generate_next_builders)).

(** ** The header of a block *)

Definition check_building : M chain_context unit :=
  b ← gets building_block;
  require (match b with Some _ => true | None => false end) "_context->building_block".

Definition _generate_block : M chain_context unit :=
  check_building ;;
  capture_and_rethrow
    (p ← read_pack;
     b ← block_of p;
     match cal_merkle hash_pair (map receipt_digest (receipts b)) with
     | None => undefined
     | Some trxs_mroot =>
         write_pack (fun p =>
           let h := new_header p in
           with_header (SignedHeader (Header (previous h) (timestamp h) trxs_mroot (builder h) (next_builders h)) (builder_signature h)) p)
     end).

Definition _sign_block (sign_private_key : private_key) : M chain_context unit :=
  capture_and_rethrow
    (write_pack (fun p => with_header (sign (new_header p) sign_private_key) p) ;;
     write_pack (fun p => with_validated_id (Block.id (new_header p)) p)).

Definition _validate_block_desc (b : signed_block) : M chain_context unit :=
  h ← head_block;
  require (bool_decide (block_id h = previous b)) "head block id != previous id of next block." ;;
  require (u32 (block_num h + 1) =? Block.block_num b) "head block number + 1 != next block number" ;;
  found ← find_builder_object (builder b);
  match found with
  | None => undefined
  | Some found =>
      obj ← on_db (Tables.deref found);
      valid ← from_result (is_signer_valid b (signing_key obj));
      require valid "bad block, sign data is not  from the key"
  end.

Definition _validate_block (next_block : signed_block) : M chain_context unit :=
  capture_and_rethrow
    (write_pack (fun p => with_header (SignedHeader (new_header p) (builder_signature next_block)) p) ;;
     p ← read_pack;
     let v_id := Block.id (new_header p) in
     require (bool_decide (v_id = Block.id next_block)) "bad block, id error." ;;
     write_pack (with_validated_id v_id)).

Definition _make_final_block : M chain_context unit :=
  p ← read_pack;
  b ← block_of p;
  write_pack (with_block (SignedBlock (new_header p) (receipts b))).

(** ** The state after a block *)

Definition update_or_create_builders (builders : builder_rule) : M chain_context unit :=
  for_each (ChainUtils.builders builders) (fun info =>
    obj ← find_builder_object (builder_name info);
    match obj with
    | Some id =>
        on_db
          (obj ← Tables.deref id;
           if bool_decide (signing_key obj <> block_signing_key info) then
             db_modify id (update (fun o => BuilderObject (bo_owner o) (block_signing_key info) (last_block_time o) (total_missed o)))
           else mret tt)
    | None => on_db (db_create (fun _ => BuilderObject (builder_name info) (block_signing_key info) 0 0) ;; mret tt)
    end).

(** A turn of the loop over the missed slots. *)
Definition add_missed (pre_slot i : Z) : M chain_context unit :=
  let miss_slot := s32 (u32 (pre_slot + i)) in
  info ← get_order_builder (u32 miss_slot);
  found ← find_builder_object (builder_name info);
  match found with
  | None => mret tt
  | Some id =>
      on_db
        (obj ← Tables.deref id;
         let last_miss := u64 (total_missed obj) in
         db_modify id (update (fun o => BuilderObject (bo_owner o) (signing_key o) (last_block_time o) (s64 (u64 (last_miss + 1))))))
  end.

Definition _update_final_state : M chain_context unit :=
  p ← read_pack;
  block_of p ≫= fun last_block : signed_block =>
  dy_state ← on_db (db_get_at dynamic_states_object 0);
  states ← get_dynamic_states;
  delta_slot ← get_delta_slot_at_time (timestamp last_block);
  let total_slot := u32 (total_slot states + delta_slot) in
  let missed_blocks := u32 (delta_slot - 1) in
  (if 0 <? missed_blocks then
     let fixed_missed := missed_blocks mod blocks_per_round in
     let pre_slot := u32 (ds_round_slot states + 1) in
     for_each (seq 0 (Z.to_nat fixed_missed)) (fun i => add_missed pre_slot (Z.of_nat i))
   else mret tt) ;;
  (if new_round p then
     match next_builders last_block with
     | None => throw "last_block.next_builders.valid()"
     | Some next =>
         update_or_create_builders next ;;
         static_config ← on_db (db_get_at static_config_object 0);
         on_db (db_modify static_config
           (update (fun _ => StaticConfig (mapped_of_rule (current_builders p)) (mapped_of_rule (new_builders p)))))
     end
   else mret tt) ;;
  found ← find_builder_object (builder last_block);
  (match found with
   | None => mret tt
   | Some id =>
       on_db (db_modify id (update (fun o =>
         BuilderObject (bo_owner o) (signing_key o) (to_time_point (timestamp last_block)) (total_missed o))))
   end) ;;
  on_db (db_modify dy_state (update (fun _ =>
    DynamicStates (Block.block_num last_block) (Block.id last_block) (to_time_point (timestamp last_block)) total_slot
      (builder last_block) (round_slot p)))).

Definition block_summary (next_block : signed_block) : M chain_context unit :=
  on_db
    (obj ← db_get_at block_summary_object (Z.land (Block.block_num next_block) 0xffff);
     db_modify obj (update (fun _ => BlockSummary (Block.id next_block)))).

Definition _final_block : M chain_context unit :=
  _make_final_block ;;
  _update_final_state ;;
  p ← read_pack;
  b ← block_of p;
  block_summary b.

(** ** The end of a block *)

Definition _push_block (updatefork : bool) : M chain_context unit :=
  check_building ;;
  ptr ← the_pack;
  p ← at_ptr ptr;
  capture_and_rethrow
    (h ← head_block;
     block_of p ≫= fun b : signed_block =>
     require (bool_decide (block_id h = previous b)) "previous block not found." ;;
     if updatefork then
       on_fork (run_add_block_pack on_irreversible ptr) ;;
       new_head ← gets (fun c => ForkDb.head (fork_db c));
       update (set_head new_head) ;;
       require (bool_decide (new_head = Some ptr)) "error new head in fork database"
     else mret tt).

Definition push_db (c : chain_context) : chain_context :=
  match building_block c with
  | Some (Pending s p rs) => set_building (Some (Pending (db_session_push s) p rs)) c
  | None => c
  end.

Definition _commit_block : M chain_context unit :=
  check_building ;;
  update push_db ;;
  _abort_build.

Definition _pop_block : M chain_context unit :=
  pop_ptr ← the_head;
  pop_pack ← at_ptr pop_ptr;
  c ← gets (fun c => c);
  on_fork (stepped (fun f => change_main_chain_flag f (block_id pop_pack) false)) ;;
  update (set_head (get_block (fork_db c) (prev_id pop_pack))) ;;
  on_db db_undo.
End Blocks.

(** ** The controller *)

Section Controller.
Context `{Crypto} `{AuthCodec} (hash_pair : sha256 -> sha256 -> sha256) (xmax_build_public_key : list Z) (skip_flags : Z).
Context (hs : handlers) (hash_message : message -> sha256) (js_apply : Z -> call -> M Context.world Z) (to_share : Z -> Z).
Context (chain_id : sha256) (raw_idx : Z) (fuel walk_fuel : nat).
Context (pop : list transaction_request -> option (transaction_request * list transaction_request)).

(** A value that may be missing because a loop had no end. *)
Definition from_walk {A} (r : result A) : M chain_context A :=
  match r with
  | Throw "diverges" => undefined
  | r => from_result r
  end.

Definition check_request (request : transaction_request) : M chain_context bool :=
  now ← head_block_time;
  on_db (check_trx skip_flags now request).

Definition apply_request_impl (request : transaction_request) (check_auth : bool) : M chain_context transaction_response :=
  now ← head_block_time;
  response ← in_building (apply_transaction_impl now hs hash_message js_apply to_share chain_id raw_idx fuel request check_auth);
  match response with Some r => mret r | None => undefined end.

(** chain_xmax::apply_transaction *)
Definition apply_request (request : transaction_request) : M chain_context transaction_response :=
  b ← gets building_block;
  require (match b with Some _ => true | None => false end) "not transaction apply time." ;;
  now ← head_block_time;
  response ← in_building (apply_transaction skip_flags now hs hash_message js_apply to_share chain_id raw_idx fuel request);
  match response with Some r => mret r | None => undefined end.

(** The queue is a collection of transactions; [pop] finds the next. *)
Definition push_pending (request : transaction_request) (s : selection) : selection :=
  Selection (selected_transaction_pool s) (selected_transaction_count s) (pending_transactions s ++ [request]).

Definition push_request (request : transaction_request) : M chain_context transaction_response :=
  ok ← check_request request;
  if (ok : bool) then
    b ← gets building_block;
    match b with
    | None => on_selection (update (push_pending request)) ;; mret (make_response None)
    | Some _ => apply_request_impl request true
    end
  else mret (make_response None).

Definition push_transaction (t : signed_transaction) : M chain_context transaction_response := push_request (request_of_trx t).

Definition process_confirmation (conf : block_confirmation) : M chain_context unit :=
  on_fork (stepped (fun f => ForkDb.add_confirmation f conf skip_flags)).
Definition push_confirmation (conf : block_confirmation) : M chain_context unit := process_confirmation conf.

(** ** Building a block *)

(** A turn of the loop over the selected transactions; check_trx reads
    through the pointer. *)
Definition apply_selected (i : nat) : M chain_context unit :=
  s ← gets selected;
  match selected_transaction_pool s !! i with
  | Some (Some request) =>
      apply_request request ;;
      on_selection (update (fun s =>
        Selection (<[i := None]> (selected_transaction_pool s)) (selected_transaction_count s) (pending_transactions s)))
  | _ => undefined
  end.

Definition build_block (when : chain_timestamp) (sign_private_key : private_key) : M chain_context ptr :=
  _abort_build ;;
  _start_build xmax_build_public_key when ;;
  on_selection (select_transactions_by_gas pop) ;;
  s ← gets selected;
  for_each (seq 0 (Z.to_nat (selected_transaction_count s))) apply_selected ;;
  on_selection (update (fun s => Selection (selected_transaction_pool s) 0 (pending_transactions s))) ;;
  _generate_block hash_pair ;;
  _sign_block sign_private_key ;;
  _final_block ;;
  pack ← the_pack;
  _push_block true ;;
  _commit_block ;;
  mret pack.

(** ** Applying a block *)

Definition _apply_block (b : signed_block) (updatefork : bool) : M chain_context ptr :=
  _validate_block_desc b ;;
  match requests_of (receipts b) with
  | None => throw "encountered unexpected package type."
  | Some transactions =>
      _abort_build ;;
      _start_build xmax_build_public_key (timestamp b) ;;
      for_each transactions (fun request => apply_request request ;; mret tt) ;;
      _generate_block hash_pair ;;
      _validate_block b ;;
      _final_block ;;
      _push_block updatefork ;;
      ptr ← the_pack;
      _commit_block ;;
      mret ptr
  end.

Definition confirm_block (next_block : signed_block) : M chain_context ptr := _apply_block next_block true.

(** The blocks of the new branch, the oldest first; the first that fails is
    removed with what is built on it. *)
Fixpoint apply_branch (l : list ptr) : M chain_context unit :=
  match l with
  | [] => mret tt
  | it :: l =>
      pack ← at_ptr it;
      ok ← catch_fc
        (block_of pack ≫= fun b : signed_block =>
         _apply_block b false ;;
         update (set_head (Some it)) ;;
         on_fork (stepped (fun f => change_main_chain_flag f (block_id pack) true)) ;;
         mret true)
        (fun _ => on_fork (stepped (fun f => remove_chain walk_fuel f (block_id pack))) ;; mret false);
      if (ok : bool) then apply_branch l else mret tt
  end.

(** A turn of the loop of _check_fork; begin() of an empty list is not to be
    dereferenced. *)
Definition switch_fork (new_head : block_pack) : M chain_context unit :=
  head ← head_block;
  c ← gets (fun c => c);
  branches ← from_walk (fetch_branch_from_fork (fork_db c) (block_id head) (block_id new_head));
  match first branches with
  | [] => undefined
  | it :: _ =>
      it ← at_ptr it;
      require (bool_decide (block_id it = block_id head)) "(*it)->block_id == _context->block_head->block_id" ;;
      for_each (first branches) (fun _ => _pop_block) ;;
      apply_branch (rev (second branches))
  end.

Fixpoint check_fork_loop (n : nat) : M chain_context unit :=
  h ← gets (fun c => ForkDb.head (fork_db c));
  match h, n with
  | None, _ => undefined
  | Some new_head, n =>
      new_head ← at_ptr new_head;
      if main_chain new_head then mret tt
      else match n with
           | O => undefined
           | S n => switch_fork new_head ;; check_fork_loop n
           end
  end.
Definition _check_fork : M chain_context unit := check_fork_loop walk_fuel.

(** FC_CAPTURE_AND_LOG *)
Definition push_fork (b : signed_block) : M chain_context unit :=
  catch_all (on_fork (run_add_block on_irreversible b) ;; _check_fork) (mret tt).

(** ** Blocks by number *)

(** The index is searched backwards from its last entry. A seek before its
    begin fails the stream, which throws then and at every later use. *)
Definition log_fails {A} : M irr_world A :=
  update (fun w => IrrWorld (block_db w) (last_irreversible_block_num w) (chain_log w) true) ;;
  throw "basic_ios::clear".

Definition read_log (num : Z) : M irr_world (option signed_block) :=
  w ← gets (fun w => w);
  if log_failed w then throw "basic_ios::clear" else
  match last (chain_log w) with
  | None => log_fails
  | Some last_block =>
      let last_num := Block.block_num last_block in
      if num <? last_num then
        let back := last_num - num in
        if back <? Z.of_nat (length (chain_log w)) then mret (rev (chain_log w) !! Z.to_nat back)
        else log_fails
      else if last_num =? num then mret (Some last_block)
      else mret None
  end.

Definition read_by_num (num : Z) : M chain_context (option signed_block) := on_fork (on_world (read_log num)).

Definition checked_num (num : Z) (b : signed_block) : M chain_context signed_block :=
  require (Block.block_num b =? num) "Wrong block was read from block log." ;; mret b.

Definition block_from_num (num : Z) : M chain_context signed_block :=
  capture_and_rethrow
    (pack ← gets (fun c => (get_main_block_by_num (fork_db c) num, fork_db c));
     match pack with
     | (Some p, f) => block_of (deref f p)
     | (None, _) =>
         block ← read_by_num num;
         match block with
         | None => throw "Wrong block was read from block log."
         | Some b => checked_num num b
         end
     end).

(** The pointer is not looked at here. *)
Definition confirmed_block_from_num (num : Z) : M chain_context signed_block :=
  capture_and_rethrow
    (block ← read_by_num num;
     match block with
     | None => undefined
     | Some b => checked_num num b
     end).

Definition block_id_from_num (num : Z) : M chain_context sha256 :=
  block_from_num num ≫= fun b : signed_block => mret (Block.id b).

(** From the head down to [lastnum]; the memory reserved for the list is left out. *)
Fixpoint sync_loop (currNum : nat) (lastnum : Z) (blockList : list signed_block) : M chain_context (list signed_block) :=
  match currNum with
  | O => mret blockList
  | S n =>
      if lastnum <? Z.of_nat currNum then
        block_from_num (Z.of_nat currNum) ≫= fun b : signed_block => sync_loop n lastnum (b :: blockList)
      else mret blockList
  end.

Definition get_syncblock_from_lastnum (lastnum : Z) : M chain_context (list signed_block) :=
  h ← head_block;
  blockList ← sync_loop (Z.to_nat (block_num h)) lastnum [];
  require (match blockList with [] => false | _ => true end) "blockList.size() > 0" ;;
  mret blockList.

Definition confirmed_head_block : M chain_context (option signed_block) := gets (fun c => last (chain_log (ForkDb.world (fork_db c)))).

(** ** Starting *)

Context (xmax_build_private_key : private_key) (prepare_data : M chain_context (list (message * list Z))).

Definition block_summary_count : nat := Z.to_nat 0x10000.

Definition default_trx_of (ms : list (message * list Z)) : signed_transaction :=
  let scopes := members (list_to_set (concat (map snd ms))) in
  SignedTransaction (Transaction 0 0 0 scopes [] (map fst ms) 0 0 0) [].

Definition first_initialize (init_point : Z) : M chain_context unit :=
  capture_and_rethrow
    (let init_stamp := from init_point in
     _start_first_build xmax_build_public_key init_stamp ;;
     p ← read_pack;
     on_db (db_create (fun _ => StaticConfig (mapped_of_rule (current_builders p)) empty_rule)) ;;
     on_db (db_create (fun _ => DynamicStates 0 empty_chain_id (to_time_point init_stamp) 0 (builder_name (bld_info p)) (round_slot p))) ;;
     on_db (db_create (fun _ => TrxStatus 0)) ;;
     on_db (db_create (fun _ => MsgStatus 0)) ;;
     for_each (seq 0 block_summary_count) (fun _ => on_db (db_create (fun _ => BlockSummary empty_chain_id)) ;; mret tt) ;;
     messages ← prepare_data;
     apply_request_impl (request_of_trx (default_trx_of messages)) false ;;
     _generate_next_builders xmax_build_public_key ;;
     _generate_block hash_pair ;;
     _sign_block xmax_build_private_key ;;
     _final_block ;;
     pack ← the_pack;
     head ← head_block;
     let block_num := block_num head in
     write_pack (fun p => with_irreversible_confirmed p true) ;;
     on_fork (run_add_block_pack on_irreversible pack) ;;
     p ← read_pack;
     on_fork (run_force_confirm on_irreversible (block_id p) block_num) ;;
     head ← head_block;
     block_of head ≫= fun b : signed_block =>
     on_fork (on_world (append_block b)) ;;
     update push_db ;;
     _abort_build ;;
     on_db (update (db_commit block_num)) ;;
     on_db (db_set_revision block_num)).

(** [roundslot] is cut to 16 bits. *)
Definition initialize_impl : M chain_context unit :=
  c ← gets (fun c => c);
  (match ForkDb.head (fork_db c) with
   | Some h => update (set_head (Some h))
   | None =>
       static_config ← get_static_config;
       dynamic_states ← get_dynamic_states;
       match last (chain_log (ForkDb.world (fork_db c))) with
       | None => undefined
       | Some head =>
           p ← make_pack;
           self ← at_ptr p;
           self ← from_result (refresh self head (cfg_current_builders static_config) (cfg_next_builders static_config)
                                 (u16 (ds_round_slot dynamic_states)) true true true);
           update (fun c => set_fork (store (fork_db c) p self) c) ;;
           update (set_head (Some p))
       end
   end) ;;
  c ← gets (fun c => c);
  let revision := db_revision (db_of c) in
  head ← head_block;
  let block_num := block_num head in
  require (block_num <=? revision) "Error: block_num > db revision." ;;
  (if negb (block_num =? revision) then
     on_db db_undo_all ;;
     on_db (db_set_revision block_num)
   else mret tt) ;;
  update (fun c => set_fork (set_world (IrrWorld (db_of c) (u32 revision) (chain_log (ForkDb.world (fork_db c))) (log_failed (ForkDb.world (fork_db c)))) (fork_db c)) c).

Definition initialize_chain (init_point : Z) : M chain_context unit :=
  c ← gets (fun c => c);
  (match table static_config_object (db_of c) !! 0 with
   | None => first_initialize init_point
   | Some _ => initialize_impl
   end) ;;
  update (fun c => set_selected (Selection (resize (Z.to_nat block_max_message_count) None (selected_transaction_pool (selected c))) 0
    (pending_transactions (selected c))) c).
End Controller.
