(* ===== verification/BlockLogThm.v ===== *)
(** The files of the block log implement the list of blocks that the
    controller of Chain.v works with: [stored] relates the two, and every
    operation keeps the relation and gives the same result. *)

From Stdlib Require Import ZArith Lia Bool String List.
From stdpp Require Import base decidable list.
From S2P Require Import Prelude ChainUtils Effects Block ForkRun Follows Chain Raw BlockLog.
Import ListNotations.
Local Open Scope Z_scope.

(** ** Streams *)

Lemma seekg_to off dir f : failed f = false -> 0 <= target off dir f -> seekg off dir f = Ret (at_position (target off dir f) f) tt.
Proof.
  intros F T. unfold seekg, good, seek, mbind, M_bind, gets. rewrite F. cbn.
  destruct (Z.ltb_spec (target off dir f) 0); [lia | reflexivity].
Qed.

Lemma seekg_before off dir f : failed f = false -> target off dir f < 0 -> seekg off dir f = Exc (fail_stream f) "basic_ios::clear".
Proof.
  intros F T. unfold seekg, good, seek, mbind, M_bind, gets. rewrite F. cbn.
  destruct (Z.ltb_spec (target off dir f) 0); [reflexivity | lia].
Qed.

Lemma seekg_failed off dir f : failed f = true -> seekg off dir f = Exc f "basic_ios::clear".
Proof. intros F. unfold seekg, good, mbind, M_bind, gets. rewrite F. reflexivity. Qed.

Lemma size_app f X Y : contents f = X ++ Y -> file_size f = Z.of_nat (length X) + Z.of_nat (length Y).
Proof. intros E. unfold file_size. rewrite E, length_app. lia. Qed.

Lemma read_at f X Y W :
  failed f = false -> contents f = X ++ Y ++ W -> position f = Z.of_nat (length X) ->
  read (Z.of_nat (length Y)) f = Ret (at_position (position f + Z.of_nat (length Y)) f) Y.
Proof.
  intros F E P. unfold read, good, mbind, M_bind, gets. rewrite F. cbn.
  rewrite (size_app f X (Y ++ W) E), length_app, P.
  destruct (Z.leb_spec (Z.of_nat (length X) + Z.of_nat (length Y)) (Z.of_nat (length X) + Z.of_nat (length Y + length W))); [| lia].
  cbn. rewrite E, !Nat2Z.id, drop_app_length, take_app_length. reflexivity.
Qed.

Lemma unpack_at {A} (c : codec A) `{!Lawful c} f X x W :
  failed f = false -> contents f = X ++ pack c x ++ W -> position f = Z.of_nat (length X) -> packable c x ->
  exists p, unpack_from c f = Ret (at_position p f) x.
Proof.
  intros F E P Hx. unfold unpack_from, good, unpack_here, mbind, M_bind, gets. rewrite F. cbn.
  rewrite P, Nat2Z.id, E, drop_app_length, unpack_pack by exact Hx. eexists. reflexivity.
Qed.

Lemma of_memory_pack {S A} (c : codec A) `{!Lawful c} x padding :
  packable c x -> (of_memory c (pack c x ++ padding) : M S A) = mret x.
Proof. intros Hx. unfold of_memory. rewrite unpack_pack by exact Hx. reflexivity. Qed.

Lemma write_end f bs : failed f = false ->
  write bs f = Ret (File (contents f ++ bs) (file_size f + Z.of_nat (length bs)) false) tt.
Proof. intros F. unfold write, good, mbind, M_bind, gets, update. rewrite F. reflexivity. Qed.

(** ** The layout of the two files

    [block 1][desc 1][eof] ... [block n][desc n][eof] and
    [index 1] ... [index n]. *)

Definition lsize (l : list Z) : Z := Z.of_nat (length l).

Section Layout.
Context `{Crypto} `{Sizes}.

Definition storable (b : signed_block) : Prop := packable raw_signed_block b /\ packable raw_sha256 (Block.id b).

Definition desc_of (p : Z) (b : signed_block) : block_desc := Desc (block_num b) p (lsize (pack raw_signed_block b)).
Definition index_of (p : Z) (b : signed_block) : block_index := Index (block_num b) p (lsize (pack raw_signed_block b)) (Block.id b).

Definition block_record (p : Z) (pd : list Z) (b : signed_block) : list Z :=
  pack raw_signed_block b ++ (pack mem_desc (desc_of p b) ++ pd) ++ slices 8 4 block_end_eof 0.
Definition index_record (p : Z) (pi : list Z) (b : signed_block) : list Z := pack mem_index (index_of p b) ++ pi.

Inductive files : list signed_block -> list Z -> list Z -> Prop :=
| files_none : files [] [] []
| files_append log B I (b : signed_block) pd pi :
    files log B I -> block_num b = Z.of_nat (length log) + 1 -> storable b ->
    length pd = desc_padding -> length pi = index_padding -> lsize (B ++ block_record (lsize B) pd b) < 2 ^ 63 ->
    files (log ++ [b]) (B ++ block_record (lsize B) pd b) (I ++ index_record (lsize B) pi b).

Lemma mem_desc_size d : length (pack mem_desc d) = 24%nat.
Proof. destruct d. reflexivity. Qed.

Lemma mem_index_size i : length (pack mem_index i) = 56%nat.
Proof. destruct i as [n p s []]. reflexivity. Qed.

Lemma index_record_size p pi (b : signed_block) : length pi = index_padding -> length (index_record p pi b) = 64%nat.
Proof. intros E. unfold index_record. rewrite length_app, mem_index_size, E. reflexivity. Qed.

Lemma block_record_size p pd (b : signed_block) : length pd = desc_padding -> length (block_record p pd b) = (length (pack raw_signed_block b) + 68)%nat.
Proof. intros E. unfold block_record. rewrite !length_app, mem_desc_size, E. reflexivity. Qed.

Lemma files_size log B I : files log B I -> lsize I = 64 * Z.of_nat (length log) /\ 68 * Z.of_nat (length log) <= lsize B < 2 ^ 63.
Proof.
  unfold lsize. induction 1 as [| log B I b pd pi F [IHi IHb] N S Ed Ei L]; [cbn; lia |].
  unfold lsize in *. rewrite !length_app, index_record_size in * by assumption. cbn [length].
  rewrite block_record_size in * by assumption. lia.
Qed.

(** Where block [i] is. *)
Lemma files_lookup log B I i (b : signed_block) : files log B I -> log !! i = Some b ->
  exists X W I1 pi I2, B = X ++ pack raw_signed_block b ++ W /\ I = I1 ++ index_record (lsize X) pi b ++ I2 /\
    lsize I1 = 64 * Z.of_nat i /\ length pi = index_padding /\ storable b /\ lsize X < 2 ^ 63
    /\ lsize (pack raw_signed_block b) < 2 ^ 63 /\ block_num b = Z.of_nat i + 1.
Proof.
  intros F. revert i b. induction F as [| log B I b0 pd pi F IH N S Ed Ei L]; intros i b E; [discriminate E |].
  apply lookup_app_Some in E as [E | [Le E]].
  - destruct (IH _ _ E) as (X & W & I1 & pi' & I2 & -> & -> & Rest). exists X, (W ++ block_record (lsize (X ++ pack raw_signed_block b ++ W)) pd b0), I1, pi',
      (I2 ++ index_record (lsize (X ++ pack raw_signed_block b ++ W)) pi b0).
    rewrite <- !app_assoc. auto.
  - assert (Ei' : i = length log) by (apply lookup_lt_Some in E; cbn [length] in E; lia). subst i.
    rewrite Nat.sub_diag in E. injection E as <-. destruct (files_size _ _ _ F) as [SI SB].
    unfold lsize in L. rewrite length_app, block_record_size in L by exact Ed.
    eexists B, _, I, pi, []. split; [reflexivity |]. rewrite app_nil_r. split; [reflexivity |].
    unfold lsize in *. repeat (split; [assumption || lia |]). exact N.
Qed.

(** ** Reading a laid out log *)

Lemma block_num_range (h : block_header) : 0 <= block_num h < 2 ^ 32.
Proof. apply Z.mod_pos_bound. lia. Qed.

Lemma mem_index_packable n p s h : 0 <= n < 2 ^ 64 -> 0 <= p < 2 ^ 64 -> 0 <= s < 2 ^ 64 -> packable raw_sha256 h ->
  packable mem_index (Index n p s h).
Proof. intros. split; [| reflexivity]. split; [assumption |]. split; [assumption |]. split; assumption. Qed.

Lemma mem_desc_packable n p s : 0 <= n < 2 ^ 64 -> 0 <= p < 2 ^ 64 -> 0 <= s < 2 ^ 64 -> packable mem_desc (Desc n p s).
Proof. intros. split; [| reflexivity]. split; [assumption |]. split; assumption. Qed.

Lemma index_packable p (b : signed_block) : 0 <= p < 2 ^ 63 -> lsize (pack raw_signed_block b) < 2 ^ 63 -> storable b ->
  packable mem_index (index_of p b) /\ packable mem_desc (desc_of p b).
Proof.
  intros P L [_ S]. pose proof (block_num_range b). unfold index_of, desc_of, lsize in *.
  split; [apply mem_index_packable | apply mem_desc_packable]; try exact S; lia.
Qed.

Lemma read_index_at f I1 p pi (b : signed_block) I2 :
  failed f = false -> contents f = I1 ++ index_record p pi b ++ I2 -> position f = lsize I1 ->
  length pi = index_padding -> packable mem_index (index_of p b) ->
  read_block_index f = Ret (at_position (position f + 64) f) (index_of p b).
Proof.
  intros F E P Lp Pi. unfold read_block_index. pose proof (read_at f I1 _ I2 F E P) as R.
  rewrite index_record_size in R by exact Lp. rewrite (mbind_ret _ _ _ _ _ R). unfold index_record.
  rewrite (of_memory_pack mem_index _ _ Pi). reflexivity.
Qed.

Lemma to_last_index_at f I1 r : failed f = false -> contents f = I1 ++ r -> length r = 64%nat ->
  to_last_block_index f = Ret (at_position (lsize I1) f) tt.
Proof.
  intros F E L. unfold to_last_block_index. change (s64 (u64 (- sizeof_block_index))) with (-64).
  assert (T : target (-64) end_ f = lsize I1) by (cbn; rewrite (size_app f I1 r E), L; unfold lsize; lia).
  rewrite seekg_to by (assumption || (rewrite T; unfold lsize; lia)). rewrite T. reflexivity.
Qed.

(** The same files, read at other positions. *)
Record same_files (s s' : chain_stream_impl) : Prop := {
  same_blocks : contents (block_stream s') = contents (block_stream s) /\ failed (block_stream s') = failed (block_stream s);
  same_index : contents (index_stream s') = contents (index_stream s) /\ failed (index_stream s') = failed (index_stream s);
  same_head : stream_head s' = stream_head s }.

Lemma read_block_at s X (b : signed_block) W :
  failed (block_stream s) = false -> contents (block_stream s) = X ++ pack raw_signed_block b ++ W ->
  storable b -> lsize X < 2 ^ 63 -> exists s', read_block_impl (lsize X) s = Ret s' b /\ same_files s s'.
Proof.
  intros F E [S _] L. unfold read_block_impl, on_blocks.
  assert (T : target (s64 (lsize X)) beg (block_stream s) = lsize X).
  { cbn. unfold s64, swrap, lsize in *. rewrite Z.mod_small by lia. destruct (Z.ltb_spec (Z.of_nat (length X)) (2 ^ (64 - 1))); lia. }
  rewrite (mbind_ret _ _ _ _ _ (seekg_to (s64 (lsize X)) beg _ F ltac:(rewrite T; unfold lsize; lia))), T.
  destruct (unpack_at raw_signed_block (at_position (lsize X) (block_stream s)) X b W F E eq_refl S) as [p ->].
  eexists. split; [reflexivity |]. split; [split; reflexivity .. | reflexivity].
Qed.

(** ** The files stand for the list *)

Record stored (log : list signed_block) (f : bool) (s : chain_stream_impl) : Prop := {
  stored_files : files log (contents (block_stream s)) (contents (index_stream s));
  stored_blocks : failed (block_stream s) = false;
  stored_index : failed (index_stream s) = f;
  stored_head : stream_head s = last log }.

Definition world_stored (w : irr_world) : chain_stream_impl -> Prop := stored (chain_log w) (log_failed w).

(** Two runs end alike, in states that stand for each other. *)
Definition alike {A B} (V : A -> B -> Prop) (o : outcome irr_world A) (o' : outcome chain_stream_impl B) : Prop :=
  match o, o' with
  | Ret w a, Ret s b => V a b /\ world_stored w s
  | Exc w e, Exc s e' => e = e' /\ world_stored w s
  | _, _ => False
  end.

Lemma stored_same log f s s' : stored log f s -> same_files s s' -> stored log f s'.
Proof. intros [F B I Hd] [[Eb Fb] [Ei Fi] Eh]. split; congruence. Qed.

Lemma on_index_ret {A} (m : M fstream A) s f a :
  m (index_stream s) = Ret f a -> on_index m s = Ret (Stream (block_stream s) f (stream_head s)) a.
Proof. intros E. unfold on_index. rewrite E. reflexivity. Qed.

Lemma on_index_exc {A} (m : M fstream A) s f e :
  m (index_stream s) = Exc f e -> on_index m s = Exc (Stream (block_stream s) f (stream_head s)) e.
Proof. intros E. unfold on_index. rewrite E. reflexivity. Qed.

Lemma on_blocks_ret {A} (m : M fstream A) s f a :
  m (block_stream s) = Ret f a -> on_blocks m s = Ret (Stream f (index_stream s) (stream_head s)) a.
Proof. intros E. unfold on_blocks. rewrite E. reflexivity. Qed.

(** The last entry of the index. *)
Lemma last_index_read log (b : signed_block) s : stored log false s -> last log = Some b ->
  exists s1 s2 p pi I1 X W, on_index to_last_block_index s = Ret s1 tt /\ on_index read_block_index s1 = Ret s2 (index_of p b) /\
    same_files s s1 /\ same_files s s2 /\ position (index_stream s1) = lsize I1 /\ contents (index_stream s) = I1 ++ index_record p pi b /\
    length pi = index_padding /\ lsize I1 = 64 * (Z.of_nat (length log) - 1) /\ block_num b = Z.of_nat (length log) /\
    contents (block_stream s) = X ++ pack raw_signed_block b ++ W /\ p = lsize X /\ p < 2 ^ 63 /\ storable b.
Proof.
  intros S La. assert (E : log !! (length log - 1)%nat = Some b) by (rewrite last_lookup in La; rewrite <- La; f_equal; lia).
  assert (N : (0 < length log)%nat) by (apply lookup_lt_Some in E; lia).
  destruct S as [F Fb Fi Hd]. destruct (files_size _ _ _ F) as [SI SB].
  destruct (files_lookup _ _ _ _ _ F E) as (X & W & I1 & pi & I2 & EB & EI & L1 & Lp & St & LX & Ls & Nb).
  assert (I2 = []) as ->.
  { rewrite EI in SI. unfold lsize in *. rewrite !length_app, index_record_size in SI by exact Lp. destruct I2; [reflexivity | cbn in SI; lia]. }
  rewrite app_nil_r in EI.
  assert (T := to_last_index_at (index_stream s) I1 _ Fi EI (index_record_size (lsize X) pi b Lp)).
  assert (R := read_index_at (at_position (lsize I1) (index_stream s)) I1 (lsize X) pi b [] Fi ltac:(rewrite app_nil_r; exact EI) eq_refl Lp
    (proj1 (index_packable (lsize X) b ltac:(unfold lsize in *; lia) Ls St))).
  eexists _, _, (lsize X), pi, I1, X, W. split; [apply on_index_ret, T |]. split; [apply on_index_ret; exact R |].
  split; [repeat split |]. split; [repeat split |]. split; [reflexivity |].
  do 2 (split; [assumption |]). split; [lia |]. split; [lia |]. auto.
Qed.

Lemma read_found s0 s log f X (b : signed_block) W :
  stored log f s0 -> same_files s0 s -> contents (block_stream s0) = X ++ pack raw_signed_block b ++ W ->
  storable b -> lsize X < 2 ^ 63 ->
  exists s', (read_block_impl (lsize X) ≫= fun b : signed_block => mret (Some b)) s = Ret s' (Some b) /\ stored log f s'.
Proof.
  intros S Sm E Sb L. destruct (stored_same _ _ _ _ S Sm) as [F Fb Fi Hd].
  destruct (read_block_at s X b W Fb ltac:(destruct (same_blocks _ _ Sm) as [-> _]; exact E) Sb L) as (s' & R & Sm').
  exists s'. split; [rewrite (mbind_ret _ _ _ _ _ R); reflexivity |].
  eapply stored_same; [| exact Sm']. split; assumption.
Qed.

(** A seek from the last entry of the index back to an earlier one. *)
Lemma seek_back n k : 0 <= k <= n -> n < 2 ^ 57 -> s64 (u64 (- u64 (64 * u64 k))) = - (64 * k).
Proof.
  intros Hk Hn. unfold u64 at 2 3. rewrite (Z.mod_small k), (Z.mod_small (64 * k)) by lia. apply s64_u64. lia.
Qed.

Lemma rev_lookup {A} (l : list A) i : (i < length l)%nat -> rev l !! i = l !! (length l - S i)%nat.
Proof.
  revert i. induction l as [| x l IH] using rev_ind; intros i L; [cbn in L; lia |].
  rewrite rev_app_distr, length_app in *. cbn [rev app length] in *. destruct i as [| i].
  - rewrite lookup_app_r by lia. replace (length l + 1 - 1 - length l)%nat with 0%nat by lia. reflexivity.
  - cbn [lookup list_lookup]. change (rev l !! i = (l ++ [x]) !! (length l + 1 - S (S i))%nat). rewrite IH, lookup_app_l by lia. f_equal. lia.
Qed.

Lemma read_early log (b : signed_block) s num : stored log false s -> last log = Some b -> 0 <= num < Z.of_nat (length log) ->
  if num =? 0 then exists s', read_block num s = Exc s' "basic_ios::clear" /\ stored log true s'
  else exists s', read_block num s = Ret s' (log !! Z.to_nat (num - 1)) /\ stored log false s'.
Proof.
  intros S La Hn.
  destruct (last_index_read log b s S La) as (s1 & s2 & p & pi & I1 & X & W & R1 & R2 & Sm1 & Sm2 & Ps & EI & Lp & L1 & Nb & EB & -> & Lx & St).
  destruct (files_size _ _ _ (stored_files _ _ _ S)) as [_ SB].
  unfold read_block. rewrite (mbind_ret _ _ _ _ _ R1), (mbind_ret _ _ _ _ _ R2). cbn [idx_num index_of].
  rewrite Nb. destruct (Z.ltb_spec num (Z.of_nat (length log))); [| lia].
  destruct (last_index_read log b s2 (stored_same _ _ _ _ S Sm2) La) as (s3 & _ & _ & _ & I3 & _ & _ & R3 & _ & Sm3 & _ & P3 & _ & _ & L3 & _).
  rewrite (mbind_ret _ _ _ _ _ R3). cbv zeta. change sizeof_block_index with 64.
  rewrite (seek_back (Z.of_nat (length log)) (Z.of_nat (length log) - num)) by lia.
  pose proof (stored_same _ _ _ _ (stored_same _ _ _ _ S Sm2) Sm3) as [F3 Fb3 Fi3 Hd3].
  assert (T : target (- (64 * (Z.of_nat (length log) - num))) cur (index_stream s3) = 64 * (num - 1)) by (cbn; rewrite P3; lia).
  destruct (Z.eqb_spec num 0) as [-> | Nz].
  - assert (Ex := on_index_exc _ s3 _ _ (seekg_before _ cur (index_stream s3) Fi3 ltac:(rewrite T; lia))).
    eexists. split; [exact (mbind_exc _ _ _ _ _ Ex) |]. split; cbn; assumption || reflexivity.
  - assert (Re := on_index_ret _ s3 _ _ (seekg_to _ cur (index_stream s3) Fi3 ltac:(rewrite T; lia))). rewrite T in Re.
    rewrite (mbind_ret _ _ _ _ _ Re). destruct (lookup_lt_is_Some_2 log (Z.to_nat (num - 1)) ltac:(lia)) as [c Ec].
    destruct (files_lookup _ _ _ _ _ F3 Ec) as (X' & W' & I1' & pi' & I2' & EB' & EI' & L1' & Lp' & St' & LX' & Ls' & _).
    assert (R := read_index_at (at_position (64 * (num - 1)) (index_stream s3)) I1' (lsize X') pi' c I2' Fi3 EI' ltac:(cbn; lia) Lp'
      (proj1 (index_packable (lsize X') c ltac:(unfold lsize in *; lia) Ls' St'))).
    rewrite (mbind_ret _ _ _ _ _ (on_index_ret _ (Stream _ _ _) _ _ R)). cbn [idx_pos index_of].
    rewrite Ec. eapply (read_found s3); [split; eassumption | repeat split | exact EB' | exact St' | exact LX'].
Qed.

Lemma to_last_index_fails {A} log f s (k : unit -> M chain_stream_impl A) : stored log f s -> f = true \/ log = [] ->
  exists s', (on_index to_last_block_index ≫= k) s = Exc s' "basic_ios::clear" /\ stored log true s'.
Proof.
  intros S C. pose proof S as [F Fb Fi Hd]. destruct f.
  - eexists. split; [exact (mbind_exc _ _ _ _ _ (on_index_exc _ s _ _ (seekg_failed _ _ _ Fi))) |]. split; assumption.
  - destruct C as [C | ->]; [discriminate C |].
    assert (EI : contents (index_stream s) = []) by (inversion F; [reflexivity | destruct log; discriminate]).
    assert (T : target (-64) end_ (index_stream s) < 0) by (cbn; unfold file_size; rewrite EI; cbn; lia).
    eexists. split; [exact (mbind_exc _ _ _ _ _ (on_index_exc _ s _ _ (seekg_before (-64) end_ _ Fi T))) |].
    split; assumption || reflexivity.
Qed.

Lemma read_block_fails log f s num : stored log f s -> f = true \/ log = [] ->
  exists s', read_block num s = Exc s' "basic_ios::clear" /\ stored log true s'.
Proof. apply to_last_index_fails. Qed.

Lemma read_alike log f s num db n : stored log f s -> 0 <= num ->
  alike eq (read_log num (IrrWorld db n log f)) (read_block num s).
Proof.
  intros S Hn. unfold read_log, mbind, M_bind, gets. cbn [log_failed chain_log]. destruct f.
  { destruct (read_block_fails log true s num S (or_introl eq_refl)) as (s' & -> & S'). split; [reflexivity | exact S']. }
  destruct (last log) as [b |] eqn:La.
  2:{ apply last_None in La. subst log.
      destruct (read_block_fails [] false s num S (or_intror eq_refl)) as (s' & -> & S'). split; [reflexivity | exact S']. }
  destruct (last_index_read log b s S La) as (s1 & s2 & p & pi & I1 & X & W & R1 & R2 & Sm1 & Sm2 & _ & _ & _ & _ & Nb & EB & -> & Lx & St).
  cbv zeta. rewrite Nb. destruct (Z.ltb_spec num (Z.of_nat (length log))) as [Lt | Ge].
  - pose proof (read_early log b s num S La ltac:(lia)) as R.
    destruct (Z.ltb_spec (Z.of_nat (length log) - num) (Z.of_nat (length log))); destruct (Z.eqb_spec num 0) as [-> | Nz]; try lia.
    + destruct R as (s' & -> & S'). cbn. split; [| exact S'].
      destruct (lookup_lt_is_Some_2 log (Z.to_nat (num - 1)) ltac:(lia)) as [c Ec].
      rewrite Ec, rev_lookup by lia. rewrite <- Ec. f_equal. lia.
    + destruct R as (s' & -> & S'). cbn. split; [reflexivity | exact S'].
  - unfold read_block. rewrite (mbind_ret _ _ _ _ _ R1), (mbind_ret _ _ _ _ _ R2). cbn [idx_num index_of]. rewrite Nb.
    destruct (Z.ltb_spec num (Z.of_nat (length log))); [lia |]. destruct (Z.of_nat (length log) =? num).
    + destruct (read_found s s2 log false X b W S Sm2 EB St Lx) as (s' & R & S'). cbn [idx_pos index_of]. rewrite R. split; [reflexivity | exact S'].
    + split; [reflexivity | exact (stored_same _ _ _ _ S Sm2)].
Qed.

(** ** Appending *)

Lemma seekp_end s : failed s = false -> stream_end_p s = Ret (at_position (file_size s) s) tt.
Proof.
  intros F. unfold stream_end_p, seekp, seek, mbind, M_bind, gets. rewrite F. cbn. rewrite Z.add_0_r.
  destruct (Z.ltb_spec (file_size s) 0); [unfold file_size in *; lia | reflexivity].
Qed.

Lemma seekp_failed s off dir : failed s = true -> seekp off dir s = Ret s tt.
Proof. intros F. unfold seekp, mbind, M_bind, gets. rewrite F. reflexivity. Qed.

(** The writes of one block at the ends of the two files. *)
Lemma record_written pd pi (b : signed_block) s : failed (block_stream s) = false -> failed (index_stream s) = false ->
  let p := file_size (block_stream s) in p < 2 ^ 63 ->
  exists q q', (on_blocks (seekp (s64 p) beg) ;; on_blocks (write (pack raw_signed_block b)) ;; on_blocks (write_block_desc (desc_of p b) pd) ;; on_blocks write_eof ;;
   on_index (write_block_index (index_of p b) pi) ;; mret p) s
  = Ret (Stream (File (contents (block_stream s) ++ block_record p pd b) q false)
                (File (contents (index_stream s) ++ index_record p pi b) q' false) (stream_head s)) p.
Proof.
  intros Fb Fi p Hp. assert (Zp : 0 <= p) by (unfold p, file_size; lia).
  assert (Es : seekp (s64 p) beg (block_stream s) = Ret (at_position p (block_stream s)) tt).
  { unfold seekp, seek, mbind, M_bind, gets. rewrite Fb. cbn. unfold s64, swrap. rewrite Z.mod_small by lia.
    destruct (Z.ltb_spec p (2 ^ (64 - 1))); [| lia]. destruct (Z.ltb_spec p 0); [lia | reflexivity]. }
  unfold on_blocks, on_index, write_block_desc, write_eof, write_block_index, mbind, M_bind.
  rewrite Es. cbn [block_stream index_stream stream_head]. rewrite write_end by exact Fb. cbn [block_stream index_stream stream_head].
  rewrite write_end by reflexivity. cbn [block_stream index_stream stream_head].
  rewrite write_end by reflexivity. cbn [block_stream index_stream stream_head].
  rewrite write_end by exact Fi. cbn [contents]. unfold block_record. rewrite <- !app_assoc.
  eexists _, _. reflexivity.
Qed.

(** The state when the position of the index is tested. *)
Definition at_ends (s : chain_stream_impl) : chain_stream_impl :=
  Stream (at_position (file_size (block_stream s)) (block_stream s))
    (if failed (index_stream s) then index_stream s else at_position (file_size (index_stream s)) (index_stream s)) (stream_head s).

Lemma ends_told {A} (k : Z -> Z -> M chain_stream_impl A) s : failed (block_stream s) = false ->
  (on_blocks stream_end_p ;; on_index stream_end_p ;; pos ← on_blocks tellp; idx_pos ← on_index tellp; k pos idx_pos) s
  = k (file_size (block_stream s)) (if failed (index_stream s) then -1 else file_size (index_stream s)) (at_ends s).
Proof.
  intros Fb. rewrite (mbind_ret _ _ _ _ _ (on_blocks_ret _ s _ _ (seekp_end _ Fb))).
  unfold at_ends. destruct (failed (index_stream s)) eqn:Fi.
  - rewrite (mbind_ret _ _ _ _ _ (on_index_ret _ (Stream _ _ _) _ _ (seekp_failed (index_stream s) 0 end_ Fi))).
    unfold mbind, M_bind, on_blocks, on_index, tellp, gets. cbn. rewrite Fb, Fi. reflexivity.
  - rewrite (mbind_ret _ _ _ _ _ (on_index_ret _ (Stream _ _ _) _ _ (seekp_end (index_stream s) Fi))).
    unfold mbind, M_bind, on_blocks, on_index, tellp, gets. cbn. rewrite Fb, Fi. reflexivity.
Qed.

Lemma at_ends_same s : same_files s (at_ends s).
Proof. unfold at_ends. destruct (failed (index_stream s)) eqn:F; repeat split; cbn; auto. Qed.

(** An entry for block [num] is where the index ends. *)
Lemma expected_position num len : 0 <= num < 2 ^ 32 -> 0 <= len < 2 ^ 57 ->
  u64 (64 * u64 (num - 1)) = u64 (64 * len) -> num = len + 1.
Proof.
  intros Hn Hl E. unfold u64 in E. rewrite (Z.mod_small (64 * len)) in E by lia.
  destruct (Z.eq_dec num 0) as [-> | Nz]; [change ((64 * ((0 - 1) mod 2 ^ 64)) mod 2 ^ 64) with (2 ^ 64 - 64) in E; lia |].
  rewrite (Z.mod_small (num - 1)), Z.mod_small in E by lia. lia.
Qed.

Lemma never_minus_one x : u64 (64 * x) <> u64 (-1).
Proof.
  unfold u64. change (-1 mod 2 ^ 64) with (2 ^ 64 - 1). intros E. pose proof (Z.div_mod (64 * x) (2 ^ 64) ltac:(lia)). lia.
Qed.

Lemma append_alike log f s pd pi (b : signed_block) db n : stored log f s -> storable b ->
  length pd = desc_padding -> length pi = index_padding ->
  file_size (block_stream s) + lsize (pack raw_signed_block b) + 68 < 2 ^ 63 ->
  alike (fun _ _ => True) (Chain.append_block b (IrrWorld db n log f)) (append_block pd pi b s).
Proof.
  intros S St Lp Li Sz. destruct (files_size _ _ _ (stored_files _ _ _ S)) as [SI SB]. pose proof S as [F Fb Fi Hd].
  assert (W : write_block pd pi b s = write_record pd pi b (u64 (file_size (block_stream s)))
              (u64 (if f then -1 else 64 * Z.of_nat (length log))) (at_ends s)).
  { unfold write_block. rewrite (ends_told _ s Fb), Fi. do 2 f_equal. destruct f; [reflexivity | exact SI]. }
  unfold append_block, Chain.append_block, mbind, M_bind, gets. rewrite W. cbn [log_failed chain_log]. clear W.
  unfold write_record. cbn [desc_num]. change sizeof_block_index with 64. rewrite (Z.eqb_sym (u64 (if f then _ else _))).
  destruct (Z.eqb_spec (u64 (64 * u64 (block_num b - 1))) (u64 (if f then -1 else 64 * Z.of_nat (length log)))) as [P | P].
  2:{ cbn. split; [reflexivity | exact (stored_same _ _ _ _ S (at_ends_same s))]. }
  destruct f; [destruct (never_minus_one _ P) |].
  apply expected_position in P; [| apply block_num_range | unfold lsize in *; lia].
  set (p := file_size (block_stream s)) in *. assert (Hl : 0 <= lsize (pack raw_signed_block b)) by apply Zle_0_nat. assert (Zp : 0 <= p) by (unfold p, file_size; lia).
  assert (Ep : u64 p = p) by (apply Z.mod_small; lia). rewrite Ep.
  destruct (record_written pd pi b (at_ends s)) as (q & q' & R);
    [exact Fb | cbn; rewrite Fi; exact Fi | change (p < 2 ^ 63); lia |].
  change (file_size (block_stream (at_ends s))) with p in R. unfold require.
  rewrite (mbind_ret _ _ (at_ends s) (at_ends s) tt eq_refl). cbn [desc_pos].
  change (Desc (block_num b) p (Z.of_nat (length (pack raw_signed_block b)))) with (desc_of p b).
  change (Index (block_num b) p (Z.of_nat (length (pack raw_signed_block b))) (Block.id b)) with (index_of p b).
  rewrite R. split; [exact Logic.I |]. split; cbn [block_stream index_stream contents failed at_ends set_stream_head stream_head chain_log log_failed].
  2,3: reflexivity.
  - rewrite Fi. apply (files_append log _ _ b pd pi F P St Lp Li).
    unfold lsize in *. rewrite length_app, block_record_size by exact Lp. unfold p, file_size in *. lia.
  - rewrite last_snoc. reflexivity.
Qed.

(** ** Opening *)

Lemma to_end_at k f : failed f = false -> 0 <= k <= file_size f ->
  seekg (- k) end_ f = Ret (at_position (file_size f - k) f) tt.
Proof. intros F L. rewrite seekg_to by (cbn; assumption || lia). reflexivity. Qed.

Lemma files_last log (b : signed_block) B I : files (log ++ [b]) B I ->
  exists B0 I0 pd pi, B = B0 ++ block_record (lsize B0) pd b /\ I = I0 ++ index_record (lsize B0) pi b /\
    length pd = desc_padding /\ length pi = index_padding /\ storable b /\ lsize B < 2 ^ 63 /\
    lsize B0 < 2 ^ 63 /\ lsize (pack raw_signed_block b) < 2 ^ 63.
Proof.
  intros F. inversion F as [E | log' B' I' b' pd pi F' N St Ed Ei L Eq]; [destruct log; discriminate |].
  apply app_inj_tail in Eq as [-> ->]. exists B', I', pd, pi. do 5 (split; [assumption || reflexivity |]). split; [assumption |].
  unfold lsize in *. rewrite length_app, block_record_size in L by assumption. lia.
Qed.

(** The last description of a block file. *)
Lemma last_desc_read f B0 pd (b : signed_block) : failed f = false -> contents f = B0 ++ block_record (lsize B0) pd b ->
  length pd = desc_padding -> packable mem_desc (desc_of (lsize B0) b) ->
  exists f1 q, to_last_block_desc f = Ret f1 tt /\ read_block_desc f1 = Ret (at_position q f) (desc_of (lsize B0) b).
Proof.
  intros F E Lp P. unfold to_last_block_desc. change (s64 (u64 (u64 (- sizeof_eof) - sizeof_block_desc))) with (- (68)).
  assert (Sz : file_size f = lsize B0 + lsize (pack raw_signed_block b) + 68).
  { rewrite (size_app f _ _ E), block_record_size by exact Lp. unfold lsize. lia. }
  eexists _, _. split; [apply to_end_at; [exact F | rewrite Sz; unfold lsize; lia] |].
  unfold read_block_desc. rewrite Sz.
  assert (R := read_at (at_position (file_size f - 68) f) (B0 ++ pack raw_signed_block b) (pack mem_desc (desc_of (lsize B0) b) ++ pd)
    (slices 8 4 block_end_eof 0) F).
  specialize (R ltac:(cbn [contents at_position]; rewrite E; unfold block_record; rewrite <- !app_assoc; reflexivity)
    ltac:(cbn [position at_position]; rewrite Sz, length_app; unfold lsize; lia)).
  rewrite length_app, mem_desc_size, Lp in R. rewrite <- Sz.
  rewrite (mbind_ret _ _ _ _ _ (R : read sizeof_block_desc _ = _)), (of_memory_pack mem_desc _ _ P). reflexivity.
Qed.

Lemma eof_read f B0 pd (b : signed_block) : failed f = false -> contents f = B0 ++ block_record (lsize B0) pd b -> length pd = desc_padding ->
  exists f1 q, to_end_eof f = Ret f1 tt /\ read_eof f1 = Ret (at_position q f) block_end_eof.
Proof.
  intros F E Lp. unfold to_end_eof. change (s64 (u64 (- sizeof_eof))) with (- (4)).
  assert (Sz : file_size f = lsize B0 + lsize (pack raw_signed_block b) + 68).
  { rewrite (size_app f _ _ E), block_record_size by exact Lp. unfold lsize. lia. }
  eexists _, _. split; [apply to_end_at; [exact F | rewrite Sz; unfold lsize; lia] |]. unfold read_eof.
  assert (R := read_at (at_position (file_size f - 4) f) (B0 ++ pack raw_signed_block b ++ pack mem_desc (desc_of (lsize B0) b) ++ pd)
    (slices 8 4 block_end_eof 0) [] F
    ltac:(cbn [contents at_position]; rewrite E, app_nil_r; unfold block_record; rewrite <- !app_assoc; reflexivity)
    ltac:(cbn [position at_position]; rewrite Sz, !length_app, mem_desc_size, Lp; unfold lsize, desc_padding; lia)).
  rewrite (mbind_ret _ _ _ _ _ (R : read sizeof_eof _ = _)). reflexivity.
Qed.

Lemma on_blocks_of {A} (m : M fstream A) s f s' a : m (block_stream s) = Ret f a ->
  s' = Stream f (index_stream s) (stream_head s) -> on_blocks m s = Ret s' a.
Proof. intros E ->. apply on_blocks_ret, E. Qed.

Lemma head_read s B0 pd (b : signed_block) : failed (block_stream s) = false ->
  contents (block_stream s) = B0 ++ block_record (lsize B0) pd b -> length pd = desc_padding -> storable b ->
  lsize (contents (block_stream s)) < 2 ^ 63 -> exists s', read_head s = Ret s' b /\ same_files s s'.
Proof.
  intros F E Lp St L. assert (Lb : 0 <= lsize B0 < 2 ^ 63 /\ lsize (pack raw_signed_block b) < 2 ^ 63).
  { rewrite E in L. unfold lsize in *. rewrite length_app, block_record_size in L by exact Lp. lia. }
  destruct Lb as [LB Lk]. destruct (index_packable (lsize B0) b LB Lk St) as [_ P].
  destruct (last_desc_read (block_stream s) B0 pd b F E Lp P) as (f1 & q & R1 & R2).
  unfold read_head. rewrite (mbind_ret _ _ _ _ _ (on_blocks_ret _ s _ _ R1)).
  rewrite (mbind_ret _ _ _ _ _ (on_blocks_ret _ (Stream _ _ _) _ _ R2)). cbn [desc_pos desc_of index_stream stream_head].
  destruct (read_block_at (Stream (at_position q (block_stream s)) (index_stream s) (stream_head s)) B0 b
    ((pack mem_desc (desc_of (lsize B0) b) ++ pd) ++ slices 8 4 block_end_eof 0) F E St (proj2 LB)) as (s' & R & Sm).
  exists s'. split; [exact R |]. destruct Sm as [[? ?] [? ?] ?]. split; [split; assumption .. | assumption].
Qed.

(** Opening compares what the two files end with. *)
Lemma ends_compared s B0 pd (b : signed_block) I0 p pi (c : signed_block) :
  failed (block_stream s) = false -> failed (index_stream s) = false ->
  contents (block_stream s) = B0 ++ block_record (lsize B0) pd b -> contents (index_stream s) = I0 ++ index_record p pi c ->
  length pd = desc_padding -> length pi = index_padding ->
  packable mem_desc (desc_of (lsize B0) b) -> packable mem_index (index_of p c) ->
  exists s', same_files s s' /\
    check_files s = (require (lsize B0 =? p) "Block log is corrupted" ;;
                     read_head ≫= fun b : signed_block => update (set_stream_head (Some b))) s'.
Proof.
  intros Fb Fi EB EI Lp Li PD PI. unfold check_files, mbind at 1, M_bind at 1, gets. cbv zeta.
  rewrite (size_app (index_stream s) _ _ EI), (size_app (block_stream s) _ _ EB), index_record_size, block_record_size by assumption.
  destruct (Z.eqb_spec 0 (Z.of_nat (length B0) + Z.of_nat (length (pack raw_signed_block b) + 68))); [lia |].
  destruct (Z.eqb_spec 0 (Z.of_nat (length I0) + Z.of_nat 64)); [lia |].
  destruct (Z.ltb_spec 0 (Z.of_nat (length I0) + Z.of_nat 64)); [| lia].
  destruct (Z.ltb_spec 0 (Z.of_nat (length B0) + Z.of_nat (length (pack raw_signed_block b) + 68))); [| lia]. cbn [andb].
  destruct (eof_read (block_stream s) B0 pd b Fb EB Lp) as (f1 & q1 & E1 & E2).
  rewrite (mbind_ret _ _ _ _ _ (on_blocks_ret _ s _ _ E1)), (mbind_ret _ _ _ _ _ (on_blocks_ret _ (Stream _ _ _) _ _ E2)).
  rewrite Z.eqb_refl, require_then by reflexivity. cbn [index_stream stream_head].
  destruct (last_desc_read (at_position q1 (block_stream s)) B0 pd b Fb EB Lp PD) as (f2 & q2 & E3 & E4).
  rewrite (mbind_ret _ _ _ _ _ (on_blocks_ret _ (Stream _ _ _) _ _ E3)). cbn [index_stream stream_head].
  assert (T := to_last_index_at (index_stream s) I0 _ Fi EI (index_record_size p pi c Li)).
  assert (R := read_index_at (at_position (lsize I0) (index_stream s)) I0 p pi c [] Fi ltac:(rewrite app_nil_r; exact EI) eq_refl Li PI).
  rewrite (mbind_ret _ _ _ _ _ (on_index_ret _ (Stream _ _ _) _ _ T)). cbn [block_stream index_stream stream_head].
  rewrite (mbind_ret _ _ _ _ _ (on_blocks_ret _ (Stream _ _ _) _ _ E4)). cbn [block_stream index_stream stream_head].
  rewrite (mbind_ret _ _ _ _ _ (on_index_ret _ (Stream _ _ _) _ _ R)). eexists. split; [| reflexivity]. repeat split.
Qed.

Lemma check_stored log s : stored log false s -> exists s', check_files s = Ret s' tt /\ stored log false s'.
Proof.
  intros S. pose proof S as [F Fb Fi Hd]. destruct (last log) as [b |] eqn:La.
  - apply last_Some in La as [l0 ->].
    destruct (files_last _ _ _ _ F) as (B0 & I0 & pd & pi & EB & EI & Lp & Li & St & LB & L0 & Lk).
    destruct (index_packable (lsize B0) b ltac:(unfold lsize in *; lia) Lk St) as [PI PD].
    destruct (ends_compared s B0 pd b I0 (lsize B0) pi b Fb Fi EB EI Lp Li PD PI) as (s1 & Sm & ->).
    rewrite Z.eqb_refl, require_then by reflexivity. pose proof Sm as [[Eb Fb1] _ _].
    destruct (head_read s1 B0 pd b) as (s' & R & Sm'); [congruence .. |].
    rewrite (mbind_ret _ _ _ _ _ R). eexists. split; [reflexivity |].
    destruct (stored_same _ _ _ _ (stored_same _ _ _ _ S Sm) Sm'). split; try assumption. cbn. rewrite last_snoc. reflexivity.
  - apply last_None in La. subst log. exists s. split; [| exact S]. unfold check_files, mbind, M_bind, gets, file_size. cbv zeta.
    assert (E : contents (block_stream s) = [] /\ contents (index_stream s) = []) by (inversion F; [auto | destruct log; discriminate]).
    destruct E as [-> ->]. reflexivity.
Qed.

(** Opening the files of a log again, also after a failure, finds it whole. *)
Lemma open_stored log f s : stored log f s -> exists s', open s = Ret s' tt /\ stored log false s'.
Proof.
  intros [F Fb Fi Hd]. apply (check_stored log (Stream (opened _) (opened _) _)).
  split; [exact F | reflexivity | reflexivity | exact Hd].
Qed.
End Layout.
