(* ===== verification/BlockLogProps.v ===== *)
(** What the files of the block log promise: they act as the list of blocks of
    the controller, whatever is appended and read, and a log is found again
    when its files are opened; and what becomes of damaged files. *)

From Stdlib Require Import ZArith Lia Bool String List.
From stdpp Require Import base decidable list.
From S2P Require Import Prelude ChainUtils Effects Block BlockPack ForkRun Follows Chain Raw BlockLog BlockLogThm.
Import ListNotations.
Local Open Scope Z_scope.

Section Refinement.
Context `{Crypto} `{Sizes}.

(** ** Requests to the log *)

Inductive log_op := log_append (pd pi : list Z) (b : signed_block) | log_read (num : Z) | log_reopen.

(** An exception is the answer to a request. *)
Definition attempt {S A} (m : M S A) : M S (A + string) := fun s =>
  match m s with
  | Ret s a => Ret s (inl a)
  | Exc s e => Ret s (inr e)
  | Undef => Undef
  end.

Definition reopened (w : irr_world) : irr_world := IrrWorld (block_db w) (last_irreversible_block_num w) (chain_log w) false.

(** A request to the list of the controller, and to the files. *)
Definition list_op (o : log_op) : M irr_world (option signed_block + string) :=
  attempt match o with
          | log_append _ _ b => Chain.append_block b ;; mret None
          | log_read num => read_log num
          | log_reopen => update reopened ;; mret None
          end.

Definition file_op (o : log_op) : M chain_stream_impl (option signed_block + string) :=
  attempt match o with
          | log_append pd pi b => append_block pd pi b ;; mret None
          | log_read num => read_block num
          | log_reopen => open ;; mret None
          end.

Fixpoint run_ops {S} (op : log_op -> M S (option signed_block + string)) (l : list log_op) : M S (list (option signed_block + string)) :=
  match l with
  | [] => mret []
  | o :: l => r ← op o; rs ← run_ops op l; mret (r :: rs)
  end.

(** ** Sizes *)

Definition record_bytes (b : signed_block) : Z := lsize (pack raw_signed_block b) + 68.

Fixpoint log_bytes (log : list signed_block) : Z :=
  match log with [] => 0 | b :: log => record_bytes b + log_bytes log end.

Definition op_bytes (o : log_op) : Z := match o with log_append _ _ b => record_bytes b | _ => 0 end.

Fixpoint ops_bytes (l : list log_op) : Z := match l with [] => 0 | o :: l => op_bytes o + ops_bytes l end.

Definition op_ok (o : log_op) : Prop :=
  match o with
  | log_append pd pi b => storable b /\ length pd = desc_padding /\ length pi = index_padding
  | log_read num => 0 <= num
  | log_reopen => True
  end.

Lemma log_bytes_snoc log (b : signed_block) : log_bytes (log ++ [b]) = log_bytes log + record_bytes b.
Proof. induction log as [| c log IH]; cbn [app log_bytes]; lia. Qed.

Lemma record_bytes_pos (b : signed_block) : 0 <= record_bytes b.
Proof. unfold record_bytes, lsize. lia. Qed.

Lemma files_bytes log B I : files log B I -> lsize B = log_bytes log.
Proof.
  induction 1 as [| log B I b pd pi F IH N S Ed Ei L]; [reflexivity |].
  rewrite log_bytes_snoc, <- IH. unfold record_bytes, lsize. rewrite length_app, block_record_size by exact Ed. lia.
Qed.

(** ** One request *)

Lemma attempt_alike (m : M irr_world (option signed_block)) (m' : M chain_stream_impl (option signed_block)) w s :
  alike eq (m w) (m' s) -> exists r w' s', attempt m w = Ret w' r /\ attempt m' s = Ret s' r /\ world_stored w' s'.
Proof.
  unfold attempt, alike. destruct (m w) as [w' a | w' e |], (m' s) as [s' a' | s' e' |]; try contradiction; intros [<- W];
    eexists _, w', s'; auto.
Qed.

Lemma append_none pd pi (b : signed_block) w s : alike (fun _ _ => True) (Chain.append_block b w) (append_block pd pi b s) ->
  alike eq ((Chain.append_block b ;; mret (@None signed_block)) w) ((append_block pd pi b ;; mret (@None signed_block)) s).
Proof.
  unfold alike, mbind, M_bind. destruct (Chain.append_block b w), (append_block pd pi b s); try contradiction; intros [V W]; split; auto.
Qed.

Lemma ops_bytes_pos l : 0 <= ops_bytes l.
Proof.
  induction l as [| o l IH]; cbn [ops_bytes]; [lia |].
  destruct o; cbn [op_bytes]; [pose proof (record_bytes_pos b) | |]; lia.
Qed.

Lemma read_log_keeps num w : match read_log num w with Ret w' _ | Exc w' _ => chain_log w' = chain_log w | Undef => False end.
Proof.
  unfold read_log, log_fails, mbind, M_bind, gets. destruct (log_failed w); [reflexivity |].
  destruct (last (chain_log w)); [| reflexivity]. cbv zeta.
  destruct (_ <? _); [destruct (_ <? _); reflexivity | destruct (_ =? _); reflexivity].
Qed.

Lemma list_op_bytes o w w' r : list_op o w = Ret w' r -> log_bytes (chain_log w') <= log_bytes (chain_log w) + op_bytes o.
Proof.
  unfold list_op, attempt. destruct o as [pd pi b | num |]; cbn [op_bytes].
  - unfold Chain.append_block, mbind, M_bind, gets, require. pose proof (record_bytes_pos b).
    destruct (_ =? _); cbn; intros E; injection E as <- _; cbn; [rewrite log_bytes_snoc |]; lia.
  - pose proof (read_log_keeps num w) as K. destruct (read_log num w); intros E; try discriminate; injection E as <- _; rewrite K; lia.
  - intros E. injection E as <- _. cbn. lia.
Qed.

Lemma op_alike o w s : world_stored w s -> op_ok o -> log_bytes (chain_log w) + op_bytes o < 2 ^ 63 ->
  exists r w' s', list_op o w = Ret w' r /\ file_op o s = Ret s' r /\ world_stored w' s'.
Proof.
  intros S Ok Sz. destruct w as [db n log f]. unfold world_stored in S. cbn [chain_log log_failed] in *. apply attempt_alike. destruct o as [pd pi b | num |].
  - destruct Ok as (St & Lp & Li). apply append_none, append_alike; try assumption.
    change (file_size (block_stream s)) with (lsize (contents (block_stream s))).
    rewrite (files_bytes _ _ _ (stored_files _ _ _ S)). unfold op_bytes, record_bytes in Sz. lia.
  - apply read_alike; [exact S | exact Ok].
  - destruct (open_stored _ _ _ S) as (s' & E & S'). unfold update, mbind, M_bind. rewrite E. split; [reflexivity | exact S'].
Qed.

(** C13: the two files are the list of blocks.  From files that hold a list of
    blocks in the layout of chain_stream.hpp, any requests to append blocks, to
    read blocks by number and to open the files again get the answers, and the
    exceptions, that the list itself gives, and leave files that hold the
    resulting list; as long as the block file is shorter than 2^63 bytes and
    the blocks have a binary form. *)
Theorem log_files_are_the_list ops : forall w s,
  world_stored w s -> Forall op_ok ops -> log_bytes (chain_log w) + ops_bytes ops < 2 ^ 63 ->
  exists rs w' s', run_ops list_op ops w = Ret w' rs /\ run_ops file_op ops s = Ret s' rs /\ world_stored w' s'.
Proof.
  induction ops as [| o ops IH]; intros w s S Ok Sz; [exists [], w, s; auto |].
  inversion_clear Ok as [| ? ? Oo Os]. cbn [ops_bytes] in Sz.
  pose proof (ops_bytes_pos ops).
  destruct (op_alike o w s S Oo ltac:(lia)) as (r & w1 & s1 & E1 & E1' & S1).
  destruct (IH w1 s1 S1 Os ltac:(pose proof (list_op_bytes _ _ _ _ E1); lia)) as (rs & w' & s' & E2 & E2' & S').
  exists (r :: rs), w', s'. cbn [run_ops].
  rewrite (mbind_ret _ _ _ _ _ E1), (mbind_ret _ _ _ _ _ E1'), (mbind_ret _ _ _ _ _ E2), (mbind_ret _ _ _ _ _ E2'). auto.
Qed.

(** ** Damaged files *)

Lemma packed_not_empty (b : signed_block) : 0 < lsize (pack raw_signed_block b).
Proof.
  unfold lsize, raw_signed_block, raw_signed_header, raw_object, raw_pair, raw_signature, raw_block_header, raw_object, raw_pair.
  cbn [pack fst snd]. rewrite !length_app. change (length (pack raw_sha256 (previous b))) with 32%nat. lia.
Qed.

(** The first [n] entries of an index. *)
Lemma index_prefix log B I n : files log B I -> (0 < n <= length log)%nat ->
  exists I1 p pi (c : signed_block), take (64 * n) I = I1 ++ index_record p pi c /\ length pi = index_padding /\
    packable mem_index (index_of p c) /\ p < lsize B.
Proof.
  intros F Hn. destruct (lookup_lt_is_Some_2 log (n - 1)%nat ltac:(lia)) as [c Ec].
  destruct (files_lookup _ _ _ _ _ F Ec) as (X & W & I1 & pi & I2 & EB & EI & L1 & Lp & St & LX & Ls & _).
  exists I1, (lsize X), pi, c. split.
  - rewrite EI, app_assoc. rewrite take_app_le, take_ge; [reflexivity | |];
      rewrite length_app, index_record_size by exact Lp; unfold lsize in L1; lia.
  - split; [exact Lp |]. split; [apply index_packable; try assumption; unfold lsize in *; lia |].
    pose proof (packed_not_empty c). rewrite EB. unfold lsize in *. rewrite !length_app. lia.
Qed.

(** A log whose files were cut off.  When the program stopped after the
    blocks and before their entries of the index were written, opening the
    files throws that the log is corrupted, and so does an index that misses
    any number of its last entries but not all; an index that is lost
    altogether is not made again: the file of the blocks is removed and the
    log opened empty. *)
Theorem cut_off_log_files log (b : signed_block) B I :
  files (log ++ [b]) B I ->
  (forall n, (0 < n <= length log)%nat -> exists s, chain_stream B (take (64 * n) I) = Exc s "Block log is corrupted") /\
  (exists s, chain_stream B [] = Ret s tt /\ contents (block_stream s) = [] /\ contents (index_stream s) = [] /\ stream_head s = None).
Proof.
  intros F. split.
  - intros n Hn. inversion F as [E | log' B' I' b' pd pi F' N St Ed Ei L Eq]; [destruct log; discriminate |].
    apply app_inj_tail in Eq as [-> ->]. destruct (files_size _ _ _ F') as [SI SB].
    assert (T : take (64 * n) (I' ++ index_record (lsize B') pi b) = take (64 * n) I') by (rewrite take_app_le; [reflexivity | unfold lsize in SI; lia]).
    rewrite T. destruct (index_prefix _ _ _ n F' Hn) as (I1 & p & pi' & c & -> & Lp' & PI & Lt).
    assert (Lk : lsize (pack raw_signed_block b) < 2 ^ 63) by (unfold lsize in *; rewrite length_app, block_record_size in L by exact Ed; lia).
    destruct (index_packable (lsize B') b ltac:(lia) Lk St) as [_ PD].
    destruct (ends_compared (Stream (opened (B' ++ block_record (lsize B') pd b)) (opened (I1 ++ index_record p pi' c)) None)
      B' pd b I1 p pi' c eq_refl eq_refl eq_refl eq_refl Ed Lp' PD PI) as (s' & _ & Ck).
    exists s'. unfold chain_stream, open. cbn [contents block_stream index_stream stream_head] in *.
    unfold update at 1, mbind at 1, M_bind at 1. cbn [contents opened block_stream index_stream stream_head]. rewrite Ck.
    destruct (Z.eqb_spec (lsize B') p); [lia | reflexivity].
  - destruct (files_size _ _ _ F) as [_ SB]. rewrite length_app in SB. cbn [length] in SB.
    unfold chain_stream, open, check_files, update, mbind, M_bind, gets. cbn [block_stream index_stream stream_head contents opened].
    unfold file_size. cbn [contents opened]. fold (lsize B).
    destruct (Z.eqb_spec 0 (lsize B)); [lia |]. destruct (Z.ltb_spec 0 (lsize B)); [| lia].
    cbn. eexists. split; [reflexivity |]. auto.
Qed.

(** A log of one block is reported as empty. *)
Lemma one_block_reported_empty (b : signed_block) s : stored [b] false s ->
  exists s', last_block_num s = Ret s' 0 /\ stored [b] false s'.
Proof.
  intros S. destruct (last_index_read [b] b s S eq_refl) as (s1 & s2 & p & pi & I1 & X & W & R1 & R2 & Sm1 & _ & P1 & _ & _ & L1 & _).
  exists s1. split; [| exact (stored_same _ _ _ _ S Sm1)]. unfold last_block_num. rewrite (mbind_ret _ _ _ _ _ R1).
  destruct (stored_same _ _ _ _ S Sm1) as [_ _ Fi _]. unfold tellg, good, on_index, gets, mbind, M_bind. rewrite Fi. cbn.
  rewrite P1, L1. destruct s1 as [fb fi hd]. reflexivity.
Qed.

(** The number of the last block is asked of an empty log: the stream fails. *)
Lemma last_number_of_empty_log s : stored [] false s ->
  exists s', last_block_num s = Exc s' "basic_ios::clear" /\ failed (index_stream s') = true.
Proof.
  intros S. destruct (to_last_index_fails [] false s (fun _ => g ← on_index tellg; if g <=? 0 then mret 0 else
    last_idx ← on_index read_block_index; mret (s64 (idx_num last_idx))) S (or_intror eq_refl)) as (s' & E & S').
  exists s'. split; [exact E | exact (stored_index _ _ _ S')].
Qed.
End Refinement.

(** ** On concrete files *)

#[local] Existing Instance toy_crypto.

#[export, refine] Instance toy_sizes : Sizes := {
  sizeof_name := 16; sizeof_account_auth := 32; sizeof_message := 80; sizeof_signature := 65; sizeof_builder_info := 64;
  sizeof_receipt := 352 }.
Proof. repeat constructor. Defined.

Definition logged_first : signed_block := toy_block empty_chain_id 100.
Definition logged_second : signed_block := toy_block (Block.id logged_first) 101.

Definition zeros_desc : list Z := repeat 0 desc_padding.
Definition zeros_index : list Z := repeat 0 index_padding.
Definition toy_requests : list log_op :=
  [log_append zeros_desc zeros_index logged_first; log_append zeros_desc zeros_index logged_second;
   log_append zeros_desc zeros_index logged_second; log_read 1; log_reopen; log_read 2; log_read 3; log_read 0; log_read 1].

Lemma zero_signature_bytes : bytes empty_signature.
Proof. apply List.Forall_forall. intros x Hx. apply repeat_spec in Hx as ->. split; lia. Qed.

(** Goes through the members of a concrete object. *)
Ltac solve_packable :=
  lazymatch goal with
  | |- packable (raw_object _ _ _) _ => split; [solve_packable | reflexivity]
  | |- packable (raw_pair _ _) _ => split; solve_packable
  | |- packable (uint _) _ => vm_compute; split; [discriminate | reflexivity]
  | |- packable (raw_array _) _ => split; [reflexivity | exact zero_signature_bytes]
  | |- packable (raw_optional _) _ => exact I
  | |- packable (raw_vector _ _) _ => split; [vm_compute; split; [discriminate | reflexivity] | split; [reflexivity | exact (List.Forall_nil _)]]
  | |- packable ?c ?v => let c' := eval red in c in change (packable c' v); solve_packable
  end.

Lemma toy_storable : storable logged_first /\ storable logged_second.
Proof.
  split; split; solve_packable.
Qed.

Lemma empty_files_stored : world_stored (IrrWorld [] 0 [] false) (Stream (opened []) (opened []) None).
Proof. split; [constructor | reflexivity ..]. Qed.

(** Two blocks are appended and read again, also from the files opened anew;
    the block appended twice and the number 0 throw, and after that every
    number does. *)
Lemma log_files_are_the_list_witness : exists w' s',
  run_ops file_op toy_requests (Stream (opened []) (opened []) None)
  = Ret s' [inl None; inl None; inr "Append to index file occuring at wrong position."%string; inl (Some logged_first); inl None;
            inl (Some logged_second); inl None; inr "basic_ios::clear"%string; inr "basic_ios::clear"%string] /\
  world_stored w' s' /\ chain_log w' = [logged_first; logged_second].
Proof.
  destruct toy_storable as [S1 S2].
  assert (Ok : Forall op_ok toy_requests) by (repeat (apply List.Forall_cons; [first [exact (conj S1 (conj eq_refl eq_refl)) | exact (conj S2 (conj eq_refl eq_refl)) | exact I | (cbn; lia)] |]); exact (List.Forall_nil _)).
  destruct (log_files_are_the_list toy_requests (IrrWorld [] 0 [] false) _ empty_files_stored Ok ltac:(vm_compute; reflexivity))
    as (rs & w' & s' & E1 & E2 & S).
  exists w', s'. rewrite E2. vm_compute in E1. injection E1 as <- <-. split; [reflexivity |]. split; [exact S | reflexivity].
Defined.

(** The files of these two blocks, and their index cut after its first entry. *)
Definition toy_stream : outcome chain_stream_impl unit :=
  (append_block zeros_desc zeros_index logged_first ;; append_block zeros_desc zeros_index logged_second ;; mret tt)
    (Stream (opened []) (opened []) None).

Lemma cut_off_log_files_witness : exists B I s,
  files [logged_first; logged_second] B I /\ chain_stream B (take 64 I) = Exc s "Block log is corrupted".
Proof.
  destruct toy_storable as [S1 S2].
  assert (F1 := files_append [] [] [] logged_first zeros_desc zeros_index files_none eq_refl S1 eq_refl eq_refl ltac:(vm_compute; reflexivity)).
  assert (F2 := files_append _ _ _ logged_second zeros_desc zeros_index F1 ltac:(vm_compute; reflexivity) S2 eq_refl eq_refl ltac:(vm_compute; reflexivity)).
  destruct (cut_off_log_files [logged_first] logged_second _ _ F2) as [C _].
  destruct (C 1%nat ltac:(cbn; lia)) as [s E]. eexists _, _, s. split; [exact F2 | exact E].
Defined.

Example packed_block_size : lsize (pack raw_signed_block logged_first) = 151.
Proof. reflexivity. Qed.

Lemma packed_block_is_unpacked_witness :
  unpack raw_signed_block (pack raw_signed_block logged_first ++ [1; 2; 3]) = Ret [1; 2; 3] logged_first.
Proof. exact (proj1 (packed_block_is_unpacked logged_first [1; 2; 3] (proj1 (proj1 toy_storable)))). Defined.
