(* ===== verification/ChainUndo.v ===== *)
(** A block and the database: the changes of a block are those of one undo
    session.  While a block is being built or applied, every index keeps a
    record of the way back to where it was ([stays]); so a block that fails
    half way is given up without a trace, and a block that was applied can be
    popped. *)

From Stdlib Require Import ZArith Lia Bool String List RelationClasses.
From stdpp Require Import base decidable gmap list.
From S2P Require Import Prelude ChainUtils Block BlockPack Effects UndoIndex UndoIndexThm DbSession Objects Tables Context Authority Voting.
From S2P Require Import SystemContract NativeApi Tracked Transaction Applying ApplyingThm Replay ForkDb ForkRun Follows ForkFrames Chain.
Import ListNotations.
Local Open Scope Z_scope.

Local Abbreviation database := (list (generic_index row)).

(** ** Transactions *)

Section Transactions.
Context `{Crypto} `{AuthCodec}.

Lemma tracked_catch {A} (m h : M database A) : tracked m -> tracked h -> tracked (catch_all m h).
Proof using.
  intros Hm Hh bases db R W. specialize (Hm bases db R W). unfold catch_all. destruct (m db); [exact Hm | apply Hh; assumption | exact I].
Qed.

Lemma tracked_check_trx skip now r : tracked (check_trx skip now r).
Proof.
  assert (A : forall n, tracked (require_account n)) by (intros n; unfold require_account; track).
  assert (F : forall (B : Type) (l : list B) f, (forall x, tracked (f x)) -> tracked (for_each l f)).
  { intros B l f Hf. induction l as [| x l IH]; [apply tracked_ret | apply tracked_bind; auto]. }
  apply tracked_catch; [| apply tracked_ret].
  unfold validate_scope, validate_expiration, validate_tapos, validate_referenced_accounts, validate_uniqueness, Tables.int64.
  repeat first [solve [eauto 2 with tracked nocore] | apply tracked_bind; [| intros ?] | apply F; intros ? | apply A | apply tracked_get_at
    | match goal with |- tracked (if ?b then _ else _) => destruct b end].
Qed.

Lemma tracked_in_trx {A} (m : M applying A) : tracked_in a_db m -> tracked_in a_db (in_trx m).
Proof.
  intros T bases s R W. pose proof (all_within_ready _ _ R W) as Rd. destruct (in_trx m s) as [s1 a | s1 e |] eqn:E; [| | exact I].
  - eapply in_trx_within; eauto.
  - destruct (in_trx_exception m s Rd T s1 e E) as (s2 & _ & ->). exact W.
Qed.

Section Apply.
Context (skip_flags now : Z) (hs : handlers) (hash_message : message -> sha256) (js_apply : Z -> call -> M Context.world Z) (to_share : Z -> Z).
Context (chain_id : sha256) (raw_idx : Z) (fuel : nat).
Hypothesis HS : tracked_handlers hs.
Hypothesis JS : forall limit cx, tracked_in w_db (js_apply limit cx).

Lemma tracked_apply_impl request check_auth :
  tracked_in a_db (apply_transaction_impl now hs hash_message js_apply to_share chain_id raw_idx fuel request check_auth).
Proof using HS JS.
  intros bases s R W. unfold apply_transaction_impl, catch_fc.
  assert (T : forall A (m : M applying A) (h : string -> M applying A), tracked_in a_db m -> (forall e, tracked_in a_db (h e)) ->
    match (match m s with Exc s e => if fc_exception e then h e s else Exc s e | o => o end) with
    | Ret s' _ | Exc s' _ => all_within bases (a_db s') | Undef => True end).
  { intros A m h Hm Hh. specialize (Hm bases s R W). destruct (m s) as [s1 a | s1 e |]; [exact Hm | | exact I].
    destruct (fc_exception e); [apply (Hh e bases s1 R Hm) | exact Hm]. }
  apply T; [| intros e; apply tracked_in_ret].
  apply tracked_in_bind; [apply tracked_in_trx, body_tracked; assumption |]. intros [[impl resp] |]; [| apply tracked_in_ret].
  apply tracked_in_bind; [apply tracked_in_update; reflexivity | intros _].
  apply tracked_in_bind; [apply tracked_in_gets | intros s1].
  apply tracked_in_bind; [apply tracked_int32 | intros n].
  apply tracked_in_bind; [apply tracked_in_update; reflexivity | intros _; apply tracked_in_ret].
Qed.

Lemma tracked_apply_transaction request :
  tracked_in a_db (apply_transaction skip_flags now hs hash_message js_apply to_share chain_id raw_idx fuel request).
Proof using HS JS.
  unfold apply_transaction. apply tracked_in_bind; [apply tracked_on_chain, tracked_check_trx |].
  intros [|]; [apply tracked_apply_impl | apply tracked_in_ret].
Qed.
End Apply.
End Transactions.

(** ** Inside the session of a block *)

Section Stays.
Context `{Crypto} (bases : database) (RB : Forall ready bases).

(** A block is being built on [bases]. *)
Definition building_on (c : chain_context) : Prop :=
  all_within bases (db_of c) /\
  exists s p rs, building_block c = Some (Pending s p rs) /\ open_sessions (length bases) s.

Definition stays (c c' : chain_context) : Prop := building_on c -> building_on c'.

#[local] Instance stays_preorder : PreOrder stays.
Proof. split; [intros c B; exact B | intros a b c A B X; auto]. Qed.

Lemma stays_on_db {A} (m : M database A) : tracked m -> follows stays (on_db m).
Proof using RB.
  intros T c. unfold on_db, on_part. specialize (T bases (db_of c) RB).
  destruct (m (db_of c)); [| | exact I]; intros (W & B); (split; [exact (T W) | exact B]).
Qed.

Lemma stays_in_building {A} (m : M applying A) : tracked_in a_db m -> follows stays (in_building m).
Proof using RB.
  intros T c. unfold in_building. destruct (building_block c) as [[s [p |] rs] |] eqn:E; [| exact I ..].
  match goal with |- context [m ?x] => specialize (T bases x RB); destruct (m x) end; [| | exact I];
    (intros (W & s1 & p1 & rs1 & B & O); rewrite E in B; injection B as <- <- <-; split; [exact (T W) | eexists _, _, _; split; [reflexivity | exact O]]).
Qed.

Lemma stays_update f : (forall c, db_of (f c) = db_of c) -> (forall c, building_block (f c) = building_block c) -> follows stays (update f).
Proof using. intros E1 E2. apply follows_update. intros c (W & B). split; [rewrite E1; exact W | rewrite E2; exact B]. Qed.

Lemma stays_write_pack f : follows stays (write_pack f).
Proof using.
  unfold write_pack, the_pack. apply follows_bind; [exact _ | | intros p; apply stays_update; reflexivity].
  apply follows_bind; [exact _ | apply follows_gets; exact _ | intros [b |]; [| apply follows_undefined]].
  destruct (pack b); [apply follows_ret; exact _ | apply follows_undefined].
Qed.

Lemma stays_set_pack p : follows stays (update (set_pack p)).
Proof using.
  apply follows_update. intros c (W & s & q & rs & B & O). unfold set_pack. rewrite B.
  split; [exact W | exists s, (Some p), rs; split; [reflexivity | exact O]].
Qed.

Lemma stays_make_pack : follows stays make_pack.
Proof using. intros c. cbn. intros B. exact B. Qed.

Hint Resolve stays_preorder stays_on_db stays_in_building stays_write_pack stays_make_pack stays_set_pack : follow.

Lemma tracked_modify_at {R} `{Object R} `{!Copyable R} id f : (forall r, same_keys (inj r) (inj (f r))) -> tracked (db_modify id (update f)).
Proof using. intros K. apply tracked_modify, keeps_update, K. Qed.

Ltac stay := unfold read_pack, head_block, the_head, the_pack, at_ptr, block_of, check_building in *;
  repeat first [follow_step | apply stays_update; reflexivity | apply stays_on_db
    | solve [eauto 2 with tracked nocore] | apply tracked_get_at | apply tracked_modify_at; keys
    | match goal with |- tracked (_ ≫= _) => apply tracked_bind; [| intros ?] end
    | match goal with |- tracked (if ?b then _ else _) => destruct b end ].

Section Programs.
Context (hash_pair : sha256 -> sha256 -> sha256) (xmax_build_public_key : list Z).

Lemma stays_next_builders : follows stays (_generate_next_builders xmax_build_public_key).
Proof using. unfold _generate_next_builders. stay. Qed.

Lemma stays_generate_block : follows stays (_generate_block hash_pair).
Proof using. unfold _generate_block. stay. Qed.

Lemma stays_sign_block key : follows stays (_sign_block key).
Proof using. unfold _sign_block. stay. Qed.

Lemma stays_validate b : follows stays (_validate_block b).
Proof using. unfold _validate_block. stay. Qed.

Lemma stays_final_block : follows stays _final_block.
Proof using RB.
  unfold _final_block, _make_final_block, _update_final_state, update_or_create_builders, block_summary, add_missed, get_order_builder,
    get_static_config, get_dynamic_states, get_delta_slot_at_time, head_block_timestamp, find_builder_object.
  unfold mapped_of_rule. stay.
Qed.

Lemma stays_push_block : follows stays (_push_block false).
Proof using. unfold _push_block. stay. Qed.
End Programs.
End Stays.

(** ** The session of a block from its start to its end *)

Section Blocks.
Context `{Crypto}.
Implicit Types (c : chain_context) (bases : database).

(** Giving up a block that is being built. *)
Lemma abort_restores bases c : building_on bases c ->
  _abort_build c = Ret (set_building None (set_db bases c)) tt.
Proof.
  intros (W & s & p & rs & B & O). unfold _abort_build, mbind, M_bind, gets. rewrite B. unfold Chain.on_db, on_part.
  change (db_session_undo (pending_session (Pending s p rs)) (db_of c)) with (db_session_undo s (db_of c)).
  rewrite (undo_sessions bases _ s W O). reflexivity.
Qed.

Lemma abort_nothing c : building_block c = None -> _abort_build c = Ret c tt.
Proof. intros B. unfold _abort_build, mbind, M_bind, gets. rewrite B. reflexivity. Qed.

Lemma commit_keeps bases c : building_on bases c ->
  exists c', _commit_block c = Ret c' tt /\ db_of c' = db_of c /\ fork_db c' = fork_db c /\ building_block c' = None /\ head_pack c' = head_pack c.
Proof.
  intros (W & s & p & rs & B & O). unfold _commit_block, check_building, _abort_build, push_db, mbind, M_bind, gets, update.
  rewrite B. cbn. rewrite B. cbn. eexists. split; [reflexivity |]. destruct c as [[] ? ? ? ?]; cbn. destruct world; repeat split.
Qed.

Lemma start_opens c : building_block c = None -> Forall ready (db_of c) ->
  exists c', start c = Ret c' tt /\ building_on (db_of c) c' /\ db_of c' = fst (db_start_undo_session true (db_of c)) /\
    c' = set_status (0, 0) (set_building (Some (Pending (snd (db_start_undo_session true (db_of c))) None []))
           (set_db (fst (db_start_undo_session true (db_of c))) c)).
Proof.
  intros B R. destruct (start_sessions _ R) as [W O]. unfold start, mbind, M_bind, gets.
  destruct (db_start_undo_session true (db_of c)) as [db s]. cbn [fst snd] in *. unfold update.
  rewrite abort_nothing by exact B. eexists. split; [reflexivity |]. split; [| split; reflexivity].
  split; [exact W | exists s, None, []; split; [reflexivity | exact O]].
Qed.

(** What a program keeps when all its steps do. *)
Lemma kept {A} bases (m : M chain_context A) c : follows (stays bases) m -> building_on bases c ->
  match m c with Ret c' _ | Exc c' _ => building_on bases c' | Undef => True end.
Proof. intros F B. specialize (F c). destruct (m c); [exact (F B) .. | exact I]. Qed.

(** Programs that only read. *)
Definition same {S} (s s' : S) : Prop := s' = s.
#[local] Instance same_preorder {S} : PreOrder (@same S).
Proof. split; [intros c; reflexivity | intros a b c -> ->; reflexivity]. Qed.

Lemma set_db_same c : set_db (db_of c) c = c.
Proof using. destruct c as [[] ? ? ? ?]; cbn. destruct world; reflexivity. Qed.

Lemma reads_on_db {A} (m : M database A) : follows same m -> follows same (on_db m).
Proof using.
  intros Hm c. specialize (Hm (db_of c)). unfold Chain.on_db, on_part. destruct (m (db_of c)); [rewrite Hm; apply set_db_same .. | exact I].
Qed.

Lemma reads_deref {R} `{Object R} id : follows same (Tables.deref id : M database R).
Proof using. unfold Tables.deref. follow. Qed.

Lemma reads_head_block_time : follows same head_block_time.
Proof. unfold head_block_time, head_block_timestamp, head_block, the_head, at_ptr. follow. Qed.

Lemma reads_validate_desc b : follows same (_validate_block_desc b).
Proof.
  unfold _validate_block_desc, find_builder_object, db_find, head_block, the_head, at_ptr.
  repeat first [follow_step | apply reads_on_db | apply reads_deref].
Qed.

Section Programs.
Context (hash_pair : sha256 -> sha256 -> sha256) (xmax_build_public_key : list Z).

Lemma start_build_opens when c : building_block c = None -> Forall ready (db_of c) ->
  match _start_build xmax_build_public_key when c with
  | Ret c' _ => building_on (db_of c) c'
  | Exc c' _ => db_of c' = db_of c /\ building_block c' = None
  | Undef => True
  end.
Proof.
  intros B R. destruct (start_opens c B R) as (c1 & Es & On & _).
  assert (F : follows (stays (db_of c)) (capture_and_rethrow
       (p ← make_pack;
        update (set_pack p) ;;
        head ← head_block;
        self ← read_pack;
        self ← from_result (init_by_pre_pack self head when true);
        write_pack (fun _ => self) ;;
        _generate_next_builders xmax_build_public_key))).
  { pose proof (stays_preorder (db_of c)). apply follows_capture.
    apply follows_bind; [exact _ | apply stays_make_pack | intros p].
    apply follows_bind; [exact _ | apply stays_set_pack | intros _].
    apply follows_bind; [exact _ | unfold head_block, the_head, at_ptr; follow | intros h].
    apply follows_bind; [exact _ | unfold read_pack, the_pack, at_ptr; follow | intros self].
    apply follows_bind; [exact _ | follow | intros self'].
    apply follows_bind; [exact _ | apply stays_write_pack | intros _; apply stays_next_builders]. }
  pose proof (kept _ _ _ F On) as K. unfold _start_build.
  rewrite (mbind_ret (gets building_block) _ c c None) by (unfold gets; rewrite B; reflexivity).
  rewrite (mbind_ret (require _ _) _ c c tt) by reflexivity.
  pose proof (reads_head_block_time c) as Hd. unfold mbind at 1, M_bind at 1.
  destruct (head_block_time c) as [c0 now | c0 e |]; [red in Hd; subst c0 | red in Hd; subst c0; auto | exact I].
  unfold require. destruct (_ <? _); [| rewrite (mbind_exc _ _ c c _ eq_refl); auto]. rewrite (mbind_ret (mret tt) _ c c tt) by reflexivity.
  unfold reset_on_exit. rewrite (mbind_ret _ _ _ _ _ Es).
  match type of K with match ?o with _ => _ end => destruct o as [c2 u | c2 e |] end; [exact K | | exact I].
  rewrite (mbind_ret _ _ _ _ _ (abort_restores _ _ K)). destruct c2 as [[] ? ? ? ?]; cbn. auto.
Qed.

Context `{AuthCodec} (skip_flags : Z) (hs : handlers) (hash_message : message -> sha256).
Context (js_apply : Z -> call -> M Context.world Z) (to_share : Z -> Z) (chain_id : sha256) (raw_idx : Z) (fuel : nat).
Hypothesis HS : tracked_handlers hs.
Hypothesis JS : forall limit cx, tracked_in w_db (js_apply limit cx).

Lemma stays_apply_request bases (RB : Forall ready bases) r :
  follows (stays bases) (apply_request skip_flags hs hash_message js_apply to_share chain_id raw_idx fuel r).
Proof.
  pose proof (stays_preorder bases). unfold apply_request, head_block_time, head_block_timestamp, head_block, the_head, at_ptr.
  repeat first [follow_step | apply stays_in_building, tracked_apply_transaction; assumption].
Qed.

(** How a block ends that began on [bases]. *)
Definition block_ends {A} bases (o : outcome chain_context A) : Prop :=
  match o with
  | Ret c' _ => building_block c' = None /\ all_within bases (db_of c')
  | Exc c' _ => building_on bases c' \/ building_block c' = None /\ db_of c' = bases
  | Undef => True
  end.

Lemma block_step {A B} bases (m : M chain_context A) (k : A -> M chain_context B) c :
  follows (stays bases) m -> building_on bases c -> (forall c1 a, building_on bases c1 -> block_ends bases (k a c1)) ->
  block_ends bases ((m ≫= k) c).
Proof.
  intros F B0 Hk. pose proof (kept _ _ _ F B0) as K. unfold mbind, M_bind. destruct (m c) as [c1 a | c1 e |]; [apply Hk, K | left; exact K | exact I].
Qed.

Lemma apply_block_ends b c : building_block c = None -> Forall ready (db_of c) ->
  block_ends (db_of c) (_apply_block hash_pair xmax_build_public_key skip_flags hs hash_message js_apply to_share chain_id raw_idx fuel b false c).
Proof using HS JS.
  intros B R. pose proof (stays_preorder (db_of c)). unfold _apply_block. pose proof (reads_validate_desc b c) as Rd.
  unfold mbind at 1, M_bind at 1. destruct (_validate_block_desc b c) as [c1 u | c1 e |]; [red in Rd; subst c1 | red in Rd; subst c1; right; auto | exact I].
  destruct (requests_of _) as [l |]; [| right; auto]. rewrite (mbind_ret _ _ _ _ _ (abort_nothing c B)).
  pose proof (start_build_opens (timestamp b) c B R) as S. unfold mbind at 1, M_bind at 1.
  destruct (_start_build _ _ c) as [c1 v | c1 e |]; [| right; tauto | exact I].
  apply block_step; [| exact S |].
  { apply follows_for_each; [exact _ | intros r]. apply follows_bind; [exact _ | apply stays_apply_request, R | intros a; apply follows_ret; exact _]. }
  intros c2 a2 S2. apply block_step; [apply stays_generate_block | exact S2 |]. intros c3 a3 S3.
  apply block_step; [apply stays_validate | exact S3 |]. intros c4 a4 S4.
  apply block_step; [apply stays_final_block, R | exact S4 |]. intros c5 a5 S5.
  apply block_step; [apply stays_push_block | exact S5 |]. intros c6 a6 S6.
  apply block_step; [unfold the_pack; follow | exact S6 |]. intros c7 p S7.
  destruct (commit_keeps _ _ S7) as (c8 & E8 & Db & _ & Bd & _). rewrite (mbind_ret _ _ _ _ _ E8). split; [exact Bd |].
  rewrite Db. apply S7.
Qed.

Lemma undo_within bases db : all_within bases db -> db_undo db = Ret bases tt.
Proof using.
  intros W. unfold db_undo. apply each_index; [eapply Forall2_length, W |]. intros i ix b Hi Hb. apply within_undo.
  exact (Forall2_lookup_lr _ _ _ _ _ _ W Hb Hi).
Qed.

(** Blocks applied one after the other, as on a branch of a fork; in between
    the head and the flags of the fork database change. *)
Inductive applied_blocks : chain_context -> list signed_block -> chain_context -> Prop :=
| applied_nil c : applied_blocks c [] c
| applied_cons c b l p c1 c2 c3 :
    _apply_block hash_pair xmax_build_public_key skip_flags hs hash_message js_apply to_share chain_id raw_idx fuel b false c = Ret c1 p ->
    db_of c2 = db_of c1 -> building_block c2 = building_block c1 -> applied_blocks c2 l c3 -> applied_blocks c (b :: l) c3.

Lemma for_each_last {S B} (m : M S unit) (l : list B) x : forall s, for_each (x :: l) (fun _ => m) s = (for_each l (fun _ => m) ≫= fun _ => m) s.
Proof using.
  induction l as [| y l IH]; intros s; [cbn; unfold mbind, M_bind, mret, M_ret; destruct (m s) as [? [] | |]; reflexivity |].
  cbn [for_each] in IH |- *. unfold mbind, M_bind in IH |- *. destruct (m s) as [s1 u | |]; [| reflexivity ..].
  rewrite IH. reflexivity.
Qed.

Lemma applied_undone c l c' : applied_blocks c l c' -> building_block c = None -> Forall ready (db_of c) ->
  Forall ready (db_of c') /\ building_block c' = None /\ for_each l (fun _ => db_undo) (db_of c') = Ret (db_of c) tt.
Proof using HS JS.
  induction 1 as [c | c b l p c1 c2 c3 E Ed Eb _ IH]; intros B R; [auto |].
  pose proof (apply_block_ends b c B R) as W. rewrite E in W. destruct W as [B1 W].
  destruct IH as (R3 & B3 & U3); [congruence | rewrite Ed; exact (all_within_ready _ _ R W) |].
  split; [exact R3 |]. split; [exact B3 |]. rewrite for_each_last, (mbind_ret _ _ _ _ _ U3), Ed. apply undo_within, W.
Qed.
End Programs.
End Blocks.
