(* ===== verification/ChainLog.v ===== *)
(** The irreversible part of the chain: whatever the controller does - build,
    apply or refuse blocks, switch forks, take confirmations and transactions -
    the block log is only appended to, it stays one chain of blocks linked by
    their ids and numbered without a gap, and the number of the last
    irreversible block is the length of the log. *)

From Stdlib Require Import ZArith Lia Bool String List RelationClasses.
From stdpp Require Import base decidable gmap list.
From S2P Require Import Prelude ChainUtils Block BlockPack Effects UndoIndex Objects Tables Context Authority Voting.
From S2P Require Import SystemContract NativeApi Transaction Applying Replay ForkDb ForkRun Follows ForkFrames Chain.
Import ListNotations.
Local Open Scope Z_scope.

Local Abbreviation database := (list (generic_index row)).

(** ** Relations on the world behind the fork database *)

Section Worlds.
Context `{Crypto} (Q : relation irr_world) `{!PreOrder Q}.
Hypothesis Q_db : forall w db, Q w (set_block_db db w).
Hypothesis Q_irreversible : forall b, follows Q (on_irreversible b).

Definition on_forks (f f' : fork_context irr_world) : Prop := Q (ForkDb.world f) (ForkDb.world f').
Definition on_chains (c c' : chain_context) : Prop := on_forks (fork_db c) (fork_db c').

#[local] Instance on_forks_preorder : PreOrder on_forks.
Proof. split; [intros f; red; reflexivity | intros a b c A B; red in A, B |- *; etransitivity; eassumption]. Qed.
#[local] Instance on_chains_preorder : PreOrder on_chains.
Proof. split; [intros f; red; reflexivity | intros a b c A B; red in A, B |- *; etransitivity; eassumption]. Qed.

Lemma follows_on_world {A} (m : M irr_world A) : follows Q m -> follows on_forks (on_world m).
Proof using. intros Hm f. specialize (Hm (ForkDb.world f)). unfold on_world. destruct (m (ForkDb.world f)); exact Hm. Qed.

#[local] Instance world_frame : ForkFrame on_irreversible on_forks.
Proof.
  split; [exact _ | intros c c' [_ E]; red; rewrite E; reflexivity | intros b; apply follows_on_world, Q_irreversible].
Qed.

Lemma follows_on_fork {A} (m : M (fork_context irr_world) A) : follows on_forks m -> follows on_chains (on_fork m).
Proof using. intros Hm c. specialize (Hm (fork_db c)). unfold on_fork, on_part. destruct (m (fork_db c)); exact Hm. Qed.

Lemma follows_on_db {A} (m : M database A) : follows on_chains (on_db m).
Proof using Q_db. intros c. unfold on_db, on_part. destruct (m (db_of c)); [apply Q_db .. | exact I]. Qed.

Lemma follows_on_selection {A} (m : M selection A) : follows on_chains (on_selection m).
Proof using PreOrder0. intros c. unfold on_selection, on_part. destruct (m (selected c)); [red; red; cbn; reflexivity .. | exact I]. Qed.

Lemma follows_in_building {A} (m : M applying A) : follows on_chains (in_building m).
Proof using Q_db.
  intros c. unfold in_building. destruct (building_block c) as [[s [p |] rs] |]; [| exact I ..].
  destruct (m _); [apply (Q_db (ForkDb.world (fork_db c))) .. | exact I].
Qed.

Lemma follows_write_pack f : follows on_chains (write_pack f).
Proof using PreOrder0.
  unfold write_pack, the_pack. apply follows_bind; [exact _ | | intros p; apply follows_update; intros c; red; red; cbn; reflexivity].
  apply follows_bind; [exact _ | apply follows_gets; exact _ | intros [b |]; [| apply follows_undefined]].
  destruct (pack b); [apply follows_ret; exact _ | apply follows_undefined].
Qed.

Lemma follows_frame_update f : (forall c, ForkDb.world (fork_db (f c)) = ForkDb.world (fork_db c)) -> follows on_chains (update f).
Proof using PreOrder0. intros E. apply follows_update. intros c. red. red. rewrite E. reflexivity. Qed.

Hint Resolve follows_on_db follows_on_selection follows_in_building follows_write_pack on_chains_preorder : follow.

Ltac log := unfold read_pack, head_block, the_head, the_pack, at_ptr, block_of, check_building, checked_num in *;
  repeat first [follow_step | apply follows_frame_update; intros ?; reflexivity].

Lemma log_abort : follows on_chains _abort_build.
Proof using Q_db PreOrder0. unfold _abort_build. log. Qed.

Lemma log_push_db c : ForkDb.world (fork_db (push_db c)) = ForkDb.world (fork_db c).
Proof using. unfold push_db. destruct (building_block c) as [[]|]; reflexivity. Qed.

Lemma log_set_pack p c : ForkDb.world (fork_db (set_pack p c)) = ForkDb.world (fork_db c).
Proof using. unfold set_pack. destruct (building_block c) as [[]|]; reflexivity. Qed.

Lemma log_make_pack : follows on_chains make_pack.
Proof using PreOrder0. intros c. cbn. red. red. cbn. reflexivity. Qed.

Hint Resolve log_abort log_make_pack : follow.

Lemma log_start : follows on_chains start.
Proof using Q_db PreOrder0.
  unfold start. log. apply follows_update. intros c0. apply Q_db.
Qed.

Section Programs.
Context (hash_pair : sha256 -> sha256 -> sha256) (xmax_build_public_key : list Z).

Lemma log_next_builders : follows on_chains (_generate_next_builders xmax_build_public_key).
Proof using Q_db PreOrder0. unfold _generate_next_builders. log. Qed.

Hint Resolve log_start log_next_builders : follow.

Lemma log_start_build when : follows on_chains (_start_build xmax_build_public_key when).
Proof using Q_db PreOrder0.
  unfold _start_build, head_block_time, head_block_timestamp. log.
  assert (G : forall m : M chain_context unit, follows on_chains m -> follows on_chains (reset_on_exit m)).
  { intros m Hm c. specialize (Hm c). unfold reset_on_exit. destruct (m c) as [| c1 e |]; [exact Hm | | exact I].
    assert (T : follows on_chains (_abort_build ;; throw e : M chain_context unit)) by log. specialize (T c1).
    destruct ((_abort_build ;; throw e : M chain_context unit) c1); [etransitivity; eassumption .. | exact I]. }
  apply G. log. apply follows_frame_update. intros c. apply log_set_pack.
Qed.

Lemma log_generate_block : follows on_chains (_generate_block hash_pair).
Proof using Q_db PreOrder0. unfold _generate_block. log. Qed.

Lemma log_sign_block key : follows on_chains (_sign_block key).
Proof using Q_db PreOrder0. unfold _sign_block. log. Qed.

Lemma log_validate_desc b : follows on_chains (_validate_block_desc b).
Proof using Q_db PreOrder0. unfold _validate_block_desc, find_builder_object. log. Qed.

Lemma log_validate b : follows on_chains (_validate_block b).
Proof using Q_db PreOrder0. unfold _validate_block. log. Qed.

Lemma log_final_block : follows on_chains _final_block.
Proof using Q_db PreOrder0.
  unfold _final_block, _make_final_block, _update_final_state, update_or_create_builders, block_summary, add_missed, get_order_builder,
    get_static_config, get_dynamic_states, get_delta_slot_at_time, head_block_timestamp, find_builder_object. log.
Qed.

Lemma log_push_block u : follows on_chains (_push_block u).
Proof using Q_db PreOrder0 Q_irreversible.
  unfold _push_block. log. apply follows_on_fork, frame_add_block_pack. exact _.
Qed.

Lemma log_commit_block : follows on_chains _commit_block.
Proof using Q_db PreOrder0. unfold _commit_block. log. apply follows_frame_update. apply log_push_db. Qed.

Lemma log_stepped f : (forall c c', f c = Ok c' -> unreported c c') -> follows on_chains (on_fork (stepped f)).
Proof using Q_db PreOrder0 Q_irreversible. intros Hf. apply follows_on_fork. exact (frame_stepped on_irreversible on_forks f Hf). Qed.

Lemma log_pop_block : follows on_chains _pop_block.
Proof using Q_db PreOrder0 Q_irreversible.
  unfold _pop_block. log. apply log_stepped. intros f f'. apply unreported_flag.
Qed.

Hint Resolve log_start_build log_generate_block log_sign_block log_validate_desc log_validate log_final_block log_push_block
  log_commit_block log_pop_block : follow.

Context `{AuthCodec} (skip_flags : Z) (hs : handlers) (hash_message : message -> sha256).
Context (js_apply : Z -> call -> M Context.world Z) (to_share : Z -> Z) (chain_id : sha256) (raw_idx : Z) (fuel walk_fuel : nat).
Context (pop : list transaction_request -> option (transaction_request * list transaction_request)).

Lemma log_apply_request r : follows on_chains (apply_request skip_flags hs hash_message js_apply to_share chain_id raw_idx fuel r).
Proof using Q_db PreOrder0. unfold apply_request, head_block_time, head_block_timestamp. log. Qed.

Hint Resolve log_apply_request : follow.

Lemma log_apply_block b u :
  follows on_chains (_apply_block hash_pair xmax_build_public_key skip_flags hs hash_message js_apply to_share chain_id raw_idx fuel b u).
Proof using Q_db PreOrder0 Q_irreversible. unfold _apply_block. log. Qed.

Lemma log_build_block when key :
  follows on_chains (build_block hash_pair xmax_build_public_key skip_flags hs hash_message js_apply to_share chain_id raw_idx fuel pop when key).
Proof using Q_db PreOrder0 Q_irreversible. unfold build_block, apply_selected. log. Qed.

Lemma log_push_transaction t :
  follows on_chains (push_transaction skip_flags hs hash_message js_apply to_share chain_id raw_idx fuel t).
Proof using Q_db PreOrder0.
  unfold push_transaction, push_request, check_request, apply_request_impl, head_block_time, head_block_timestamp. log.
Qed.

Lemma log_push_confirmation conf : follows on_chains (push_confirmation skip_flags conf).
Proof using Q_db PreOrder0 Q_irreversible.
  apply log_stepped. intros f f'. apply unreported_confirmation.
Qed.

Hint Resolve log_apply_block : follow.

Lemma log_apply_branch l :
  follows on_chains (apply_branch hash_pair xmax_build_public_key skip_flags hs hash_message js_apply to_share chain_id raw_idx fuel walk_fuel l).
Proof using Q_db PreOrder0 Q_irreversible.
  induction l as [| it l IH]; cbn [apply_branch]; log; try exact IH; apply log_stepped; intros f f';
    [apply unreported_flag | apply unreported_remove_chain].
Qed.

Hint Resolve log_apply_branch : follow.

Lemma log_push_fork b :
  follows on_chains (push_fork hash_pair xmax_build_public_key skip_flags hs hash_message js_apply to_share chain_id raw_idx fuel walk_fuel b).
Proof using Q_db PreOrder0 Q_irreversible.
  unfold push_fork. log.
  - apply follows_on_fork. unfold run_add_block. log; [intros c; cbn; red; cbn; reflexivity | apply frame_add_block_pack; exact _].
  - unfold _check_fork. generalize walk_fuel at 2 as n. induction n as [| n IH]; cbn [check_fork_loop]; log; try exact IH.
    unfold switch_fork, from_walk. log.
Qed.
End Programs.
End Worlds.

(** ** The log grows as one chain *)

(** What the plugins ask of the controller; an exception goes to the caller,
    who goes on. *)
Inductive chain_op `{Crypto} :=
| op_build (when : chain_timestamp) (key : private_key)
| op_confirm (b : signed_block)
| op_fork (b : signed_block)
| op_confirmation (conf : block_confirmation)
| op_transaction (t : signed_transaction).

Section Operations.
Context `{Crypto} `{AuthCodec} (hash_pair : sha256 -> sha256 -> sha256) (xmax_build_public_key : list Z) (skip_flags : Z).
Context (hs : handlers) (hash_message : message -> sha256) (js_apply : Z -> call -> M Context.world Z) (to_share : Z -> Z).
Context (chain_id : sha256) (raw_idx : Z) (fuel walk_fuel : nat).
Context (pop : list transaction_request -> option (transaction_request * list transaction_request)).

Definition run_op (o : chain_op) : M chain_context unit :=
  catch_all
    (match o with
     | op_build when key => build_block hash_pair xmax_build_public_key skip_flags hs hash_message js_apply to_share chain_id raw_idx fuel pop when key ;; mret tt
     | op_confirm b => confirm_block hash_pair xmax_build_public_key skip_flags hs hash_message js_apply to_share chain_id raw_idx fuel b ;; mret tt
     | op_fork b => push_fork hash_pair xmax_build_public_key skip_flags hs hash_message js_apply to_share chain_id raw_idx fuel walk_fuel b
     | op_confirmation conf => push_confirmation skip_flags conf
     | op_transaction t => push_transaction skip_flags hs hash_message js_apply to_share chain_id raw_idx fuel t ;; mret tt
     end)
    (mret tt).

Definition run_chain (l : list chain_op) : M chain_context unit := for_each l run_op.

Lemma log_run_chain (Q : relation irr_world) `{!PreOrder Q} l : (forall w db, Q w (set_block_db db w)) ->
  (forall b, follows Q (on_irreversible b)) -> follows (on_chains Q) (run_chain l).
Proof using.
  intros Qd Qi. pose proof (on_chains_preorder Q). unfold run_chain, run_op. apply follows_for_each; [exact _ |].
  intros o. apply follows_catch_all; [exact _ | | apply follows_ret; exact _]. unfold confirm_block.
  destruct o; [apply follows_bind; [exact _ | | intros _; apply follows_ret; exact _] .. | | |
    apply follows_bind; [exact _ | | intros _; apply follows_ret; exact _]];
    auto using log_build_block, log_apply_block, log_push_fork, log_push_confirmation, log_push_transaction.
Qed.
End Operations.

Definition lnum (l : list signed_block) : Z := Z.of_nat (length l).

(** The first block has number one, and each names its predecessor. *)
Record linked `{Crypto} (l : list signed_block) : Prop := {
  linked_first : exists b l', l = b :: l' /\ Block.block_num b = 1;
  linked_next : forall i (b b' : signed_block), l !! i = Some b -> l !! S i = Some b' -> previous b' = Block.id b }.

Section Grows.
Context `{Crypto} (hash_header_word : forall h, word (hash0 (hash_header h))).

Lemma linked_num l i (b : signed_block) : linked l -> l !! i = Some b -> Block.block_num b = u32 (Z.of_nat i + 1).
Proof using hash_header_word.
  intros L. revert b. induction i as [| i IH]; intros b E.
  - destruct (linked_first _ L) as (b0 & l' & -> & N). injection E as ->. exact N.
  - destruct (lookup_lt_is_Some_2 l i) as [b' Eb']; [apply lookup_lt_Some in E; lia |].
    pose proof (linked_next _ L i b' b Eb' E) as P. unfold Block.block_num. rewrite P, (id_num hash_header_word), (IH b' Eb').
    unfold u32. rewrite Zplus_mod_idemp_l. f_equal. lia.
Qed.

(** The log of [w'] is that of [w] with more blocks. *)
Record grows (w w' : irr_world) : Prop := {
  grows_failed : log_failed w' = log_failed w;
  grows_linked : linked (chain_log w) -> linked (chain_log w');
  grows_log : exists l, chain_log w' = chain_log w ++ l /\
    (linked (chain_log w) -> log_failed w = false -> lnum (chain_log w') < 2 ^ 32 - 1 ->
     last_irreversible_block_num w' = match l with [] => last_irreversible_block_num w | _ => lnum (chain_log w') end) }.

#[export] Instance grows_preorder : PreOrder grows.
Proof.
  split.
  - intros w. split; [reflexivity | auto |]. exists []. rewrite app_nil_r. auto.
  - intros a b c [A0 A1 (l & A2 & A3)] [B0 B1 (m & B2 & B3)]. split; [congruence | auto |].
    exists (l ++ m). split; [rewrite B2, A2, app_assoc; reflexivity |]. intros L F N. assert (log_failed b = false) by congruence. assert (Nb : lnum (chain_log b) < 2 ^ 32 - 1).
    { unfold lnum in *. rewrite B2, length_app in N. lia. }
    rewrite B3, A3 by auto. destruct m as [| x m]; [rewrite app_nil_r in *; rewrite B2; reflexivity | destruct l; reflexivity].
Qed.

Lemma grows_db w db : grows w (set_block_db db w).
Proof using. split; [reflexivity | auto |]. exists []. rewrite app_nil_r. auto. Qed.

Lemma linked_snoc l (pre b : signed_block) : linked l -> last l = Some pre -> previous b = Block.id pre -> linked (l ++ [b]).
Proof using.
  intros [(b0 & l' & -> & N) K] La P. split; [exists b0, (l' ++ [b]); auto |]. intros i x y Hx Hy.
  apply lookup_app_Some in Hy as [Hy | [Le Hy]].
  - apply (K i); [| exact Hy]. apply lookup_lt_Some in Hy. rewrite lookup_app_l in Hx by lia. exact Hx.
  - assert (E : (S i - length (b0 :: l') = 0)%nat) by (apply lookup_lt_Some in Hy; cbn [length] in *; lia).
    rewrite E in Hy. injection Hy as <-. rewrite lookup_app_l in Hx by (cbn [length] in *; lia).
    rewrite last_lookup in La. replace (Init.Nat.pred (length (b0 :: l'))) with i in La by (cbn [length] in *; lia). congruence.
Qed.

(** What an irreversible block does to a linked log. *)
Lemma grows_irreversible p : follows grows (on_irreversible p).
Proof using hash_header_word.
  intros w. unfold on_irreversible, mbind, M_bind, gets.
  destruct (last (chain_log w)) as [pre |] eqn:La; [| exact I]. destruct (block p) as [b |] eqn:Eb; [| exact I].
  unfold require. destruct (u32 _ =? _); cbn [mret M_ret throw]; [| apply (reflexivity (R := grows))].
  destruct (bool_decide_reflect (previous b = Block.id pre)) as [P |]; cbn [mret M_ret throw]; [| apply (reflexivity (R := grows))].
  unfold _irreversible_block. rewrite Eb. unfold append_block, mbind, M_bind, gets, update, require. cbv zeta. cbn [chain_log block_db].
  set (c := u64 _ =? u64 _).
  assert (Num : linked (chain_log w) -> Block.block_num b = u32 (lnum (chain_log w) + 1)).
  { intros L. assert (E : chain_log w !! (length (chain_log w) - 1)%nat = Some pre) by (rewrite last_lookup in La; rewrite <- La; f_equal; lia).
    unfold Block.block_num. rewrite P, (id_num hash_header_word), (linked_num _ _ _ L E). apply lookup_lt_Some in E.
    unfold lnum, u32. rewrite Zplus_mod_idemp_l. f_equal. lia. }
  destruct c eqn:Ec; cbn -[u64 Z.mul lnum].
  - split; [reflexivity | |]; cbn.
    + intros L. eapply linked_snoc; eauto.
    + exists [b]. split; [reflexivity |]. intros L F N. rewrite (Num L). unfold lnum, u32 in *. rewrite length_app in *. cbn [length] in *.
      rewrite Z.mod_small by lia. lia.
  - split; cbn; [reflexivity | auto |]. exists []. rewrite app_nil_r. split; [reflexivity |]. intros L F N. exfalso.
    subst c. rewrite F in Ec. apply Z.eqb_neq in Ec. apply Ec. cbn. rewrite (Num L). unfold lnum, u32, u64 in *. f_equal.
    rewrite (Z.mod_small (_ + 1)) by lia. rewrite Z.mod_small by lia. lia.
Qed.
End Grows.

(** Once its stream has failed the log stays as it is. *)
Definition stuck (w w' : irr_world) : Prop :=
  log_failed w = true -> log_failed w' = true /\ chain_log w' = chain_log w.

#[export] Instance stuck_preorder : PreOrder stuck.
Proof.
  split; [intros w F; auto |]. intros a b c A B F. destruct (A F) as [Fb Eb], (B Fb) as [Fc Ec]. split; congruence.
Qed.

Lemma stuck_db w db : stuck w (set_block_db db w).
Proof. intros F. auto. Qed.

Lemma stuck_irreversible `{Crypto} p : follows stuck (on_irreversible p).
Proof.
  intros w. unfold on_irreversible, mbind, M_bind, gets.
  destruct (last (chain_log w)) as [pre |]; [| exact I]. destruct (block p) as [b |] eqn:Eb; [| exact I].
  unfold require. destruct (u32 _ =? _); cbn [mret M_ret throw]; [| apply (reflexivity (R := stuck))].
  destruct (bool_decide _); cbn [mret M_ret throw]; [| apply (reflexivity (R := stuck))].
  unfold _irreversible_block. rewrite Eb. unfold append_block, mbind, M_bind, gets, update, require. cbv zeta. cbn [chain_log block_db log_failed].
  destruct (_ =? _) eqn:E; cbn; intros F; [| auto]. exfalso. rewrite F in E. apply Z.eqb_eq in E. unfold u64 in E.
  set (y := (Block.block_num b - 1) mod 2 ^ 64) in E. change (-1 mod 2 ^ 64) with (2 ^ 64 - 1) in E.
  pose proof (Z.div_mod (64 * y) (2 ^ 64) ltac:(lia)). lia.
Qed.

(** A number before the log, of no block of the fork database. *)
Lemma early_read_fails num (last_block : signed_block) c :
  get_main_block_by_num (fork_db c) num = None ->
  last (chain_log (ForkDb.world (fork_db c))) = Some last_block ->
  num + lnum (chain_log (ForkDb.world (fork_db c))) <= Block.block_num last_block ->
  exists c1, block_from_num num c = Exc c1 "basic_ios::clear" /\
    log_failed (ForkDb.world (fork_db c1)) = true /\ chain_log (ForkDb.world (fork_db c1)) = chain_log (ForkDb.world (fork_db c)).
Proof.
  intros M La B. unfold block_from_num, capture_and_rethrow. unfold mbind at 1, M_bind at 1, gets. rewrite M.
  assert (N : (0 < length (chain_log (ForkDb.world (fork_db c))))%nat) by (destruct (chain_log _); [discriminate La | cbn; lia]).
  unfold lnum in B.
  assert (R : exists w1, read_log num (ForkDb.world (fork_db c)) = Exc w1 "basic_ios::clear" /\ log_failed w1 = true
              /\ chain_log w1 = chain_log (ForkDb.world (fork_db c))).
  { unfold read_log, mbind, M_bind, gets. destruct (log_failed _) eqn:F; [eexists; split; [reflexivity | auto] |].
    rewrite La. destruct (Z.ltb_spec num (Block.block_num last_block)); [| lia]. cbv zeta.
    destruct (Z.ltb_spec (Block.block_num last_block - num) (Z.of_nat (length (chain_log (ForkDb.world (fork_db c)))))); [lia |].
    eexists. split; [reflexivity | auto]. }
  destruct R as (w1 & R & F & El). unfold mbind, M_bind, read_by_num, on_fork, on_part, on_world. rewrite R. cbn.
  eexists. split; [reflexivity |]. cbn. auto.
Qed.
