(* ===== verification/ChainReplay.v ===== *)
(** A block built here is accepted elsewhere: a controller in the state in
    which the block was built applies it and comes to the very same state. *)

From Stdlib Require Import ZArith Lia Bool String List RelationClasses Permutation.
From stdpp Require Import base decidable gmap list.
From S2P Require Import Prelude ChainUtils Block BlockPack Effects UndoIndex UndoIndexThm DbSession Objects Tables Context Authority Voting.
From S2P Require Import SystemContract NativeApi Tracked Transaction Applying ApplyingThm Replay ForkDb ForkRun Follows ForkFrames Chain ChainUndo.
Import ListNotations.
Local Open Scope Z_scope.

Local Abbreviation database := (list (generic_index row)).

(** ** The queue of transactions is beside the chain

    A program that neither reads nor writes it. *)

Definition beside {A} (s : selection) (o : outcome chain_context A) : outcome chain_context A :=
  match o with
  | Ret c a => Ret (set_selected s c) a
  | Exc c e => Exc (set_selected s c) e
  | Undef => Undef
  end.

Definition blind {A} (m : M chain_context A) : Prop := forall s c, m (set_selected s c) = beside s (m c).

Lemma set_selected_same c : set_selected (selected c) c = c.
Proof. destruct c; reflexivity. Qed.

Lemma blind_selected {A} (m : M chain_context A) c c' a : blind m -> m c = Ret c' a -> selected c' = selected c.
Proof. intros B E. pose proof (B (selected c) c) as X. rewrite set_selected_same, E in X. injection X as ->. reflexivity. Qed.

Lemma blind_ret {A} (a : A) : blind (mret a).
Proof. intros s c. reflexivity. Qed.

Lemma blind_throw {A} e : blind (throw e : M _ A).
Proof. intros s c. reflexivity. Qed.

Lemma blind_undefined {A} : blind (undefined : M _ A).
Proof. intros s c. reflexivity. Qed.

Lemma blind_require b e : blind (require b e).
Proof. destruct b; intros s c; reflexivity. Qed.

Lemma blind_gets {A} (f : chain_context -> A) : (forall s c, f (set_selected s c) = f c) -> blind (gets f).
Proof. intros E s c. cbn. unfold gets. rewrite E. reflexivity. Qed.

Lemma blind_update f : (forall s c, f (set_selected s c) = set_selected s (f c)) -> blind (update f).
Proof. intros E s c. unfold update. cbn. rewrite E. reflexivity. Qed.

Lemma blind_bind {A B} (m : M chain_context A) (k : A -> M _ B) : blind m -> (forall a, blind (k a)) -> blind (m ≫= k).
Proof. intros Hm Hk s c. unfold mbind, M_bind. rewrite Hm. destruct (m c) as [c1 a | |]; cbn; [apply Hk | reflexivity ..]. Qed.

(** Reading the whole state, as far as the rest looks at it. *)
Lemma blind_self {B} (k : chain_context -> M _ B) : (forall s c, k (set_selected s c) = k c) -> (forall c, blind (k c)) -> blind (gets (fun c => c) ≫= k).
Proof. intros E Hk s c. unfold mbind, M_bind, gets. rewrite E. apply Hk. Qed.

Lemma blind_for_each {B} (l : list B) f : (forall x, blind (f x)) -> blind (for_each l f).
Proof. intros Hf. induction l as [| x l IH]; [apply blind_ret | apply blind_bind; auto]. Qed.

Lemma blind_from_result {A} (r : result A) : blind (from_result r).
Proof. destruct r as [a | e]; [apply blind_ret |]. intros s c. cbn. destruct (String.eqb e "undefined"); reflexivity. Qed.

Lemma blind_capture {A} (m : M chain_context A) : blind m -> blind (capture_and_rethrow m).
Proof. intros Hm s c. unfold capture_and_rethrow. rewrite Hm. destruct (m c); reflexivity. Qed.

Lemma blind_on_part {P A} get set (m : M P A) : (forall s c, get (set_selected s c) = get c) ->
  (forall x s c, set x (set_selected s c) = set_selected s (set x c)) -> blind (on_part get set m).
Proof. intros Eg Es s c. unfold on_part. rewrite Eg. destruct (m (get c)); cbn; rewrite ?Es; reflexivity. Qed.

Lemma blind_on_db {A} (m : M database A) : blind (on_db m).
Proof. apply blind_on_part; reflexivity. Qed.
Lemma blind_on_fork {A} (m : M (fork_context irr_world) A) : blind (on_fork m).
Proof. apply blind_on_part; reflexivity. Qed.

Lemma blind_in_building {A} (m : M applying A) : blind (in_building m).
Proof.
  intros s c. unfold in_building. cbn. destruct (building_block c) as [[s0 [p |] rs] |]; [| reflexivity ..].
  match goal with |- context [m ?x] => change (m x) with (m (Applying (db_of c) (deref (fork_db c) p) rs (building_status c).1 (building_status c).2)) end.
  destruct (m _); reflexivity.
Qed.

Create HintDb blind.
#[export] Hint Resolve blind_ret blind_throw blind_undefined blind_require blind_from_result blind_on_db blind_on_fork blind_in_building : blind.

Ltac blind := repeat first
  [ match goal with
    | |- blind (match ?x with _ => _ end) => destruct x
    | |- blind (let _ := _ in _) => cbv zeta
    | |- blind (gets (fun c => c) ≫= _) => apply blind_self; [reflexivity | intros ?]
    | |- blind (_ ≫= _) => apply blind_bind; [| intros ?]
    | |- blind (for_each _ _) => apply blind_for_each; intros ?
    | |- blind (capture_and_rethrow _) => apply blind_capture
    end
  | solve [auto with blind]
  | apply blind_gets; reflexivity
  | apply blind_update; reflexivity ].

Section Blind.
Context `{Crypto} (hash_pair : sha256 -> sha256 -> sha256) (xmax_build_public_key : list Z).

Lemma blind_the_pack : blind the_pack.
Proof. unfold the_pack. blind. Qed.
Lemma blind_the_head : blind the_head.
Proof. unfold the_head. blind. Qed.
Lemma blind_at_ptr p : blind (at_ptr p).
Proof. unfold at_ptr. blind. Qed.
Hint Resolve blind_the_pack blind_the_head blind_at_ptr : blind.
Lemma blind_write_pack f : blind (write_pack f).
Proof. unfold write_pack. blind. Qed.
Lemma blind_block_of p : blind (block_of p).
Proof. unfold block_of. blind. Qed.
Hint Resolve blind_write_pack blind_block_of : blind.

Lemma blind_abort : blind _abort_build.
Proof. unfold _abort_build. blind. Qed.

Lemma blind_make_pack : blind make_pack.
Proof. intros s c. reflexivity. Qed.

Lemma blind_set_pack p : blind (update (set_pack p)).
Proof. apply blind_update. intros s c. unfold set_pack. cbn. destruct (building_block c) as [[] |]; reflexivity. Qed.
Hint Resolve blind_abort blind_make_pack blind_set_pack : blind.

Lemma blind_start : blind start.
Proof. unfold start. blind. Qed.

Lemma blind_next_builders : blind (_generate_next_builders xmax_build_public_key).
Proof. unfold _generate_next_builders, read_pack. blind. Qed.
Hint Resolve blind_start blind_next_builders : blind.

Lemma blind_start_build when : blind (_start_build xmax_build_public_key when).
Proof.
  unfold _start_build, head_block_time, head_block_timestamp, head_block, read_pack. blind.
  intros s c. unfold reset_on_exit.
  match goal with |- match ?m (set_selected s c) with _ => _ end = _ =>
    assert (B : blind m) by blind; rewrite (B s c); destruct (m c) as [| c1 e |]; cbn; [reflexivity | | reflexivity] end.
  assert (B2 : blind (_abort_build ;; throw e : M _ unit)) by blind. apply B2.
Qed.

Lemma blind_generate_block : blind (_generate_block hash_pair).
Proof. unfold _generate_block, check_building, read_pack. blind. Qed.

Lemma blind_sign_block key : blind (_sign_block key).
Proof. unfold _sign_block. blind. Qed.

Lemma blind_validate_desc b : blind (_validate_block_desc b).
Proof. unfold _validate_block_desc, head_block, find_builder_object. blind. Qed.

Lemma blind_validate b : blind (_validate_block b).
Proof. unfold _validate_block, read_pack. blind. Qed.

Lemma blind_final_block : blind _final_block.
Proof.
  unfold _final_block, _make_final_block, _update_final_state, update_or_create_builders, block_summary, add_missed, get_order_builder,
    get_static_config, get_dynamic_states, get_delta_slot_at_time, head_block_timestamp, find_builder_object, head_block, read_pack. blind.
Qed.

Lemma blind_push_block u : blind (_push_block u).
Proof. unfold _push_block, check_building, head_block. blind. Qed.

Lemma blind_commit_block : blind _commit_block.
Proof.
  unfold _commit_block, check_building. blind. apply blind_update. intros s c. unfold push_db. cbn. destruct (building_block c) as [[] |]; reflexivity.
Qed.

Context `{AuthCodec} (skip_flags : Z) (hs : handlers) (hash_message : message -> sha256).
Context (js_apply : Z -> call -> M Context.world Z) (to_share : Z -> Z) (chain_id : sha256) (raw_idx : Z) (fuel : nat).

Lemma blind_apply_request r : blind (apply_request skip_flags hs hash_message js_apply to_share chain_id raw_idx fuel r).
Proof. unfold apply_request, head_block_time, head_block_timestamp, head_block. blind. Qed.

Hint Resolve blind_start_build blind_generate_block blind_validate_desc blind_validate blind_final_block blind_push_block blind_commit_block
  blind_apply_request : blind.

Lemma blind_apply_block b u :
  blind (_apply_block hash_pair xmax_build_public_key skip_flags hs hash_message js_apply to_share chain_id raw_idx fuel b u).
Proof. unfold _apply_block. blind. Qed.
End Blind.

(** ** The transactions of a block, seen from the chain *)

(** *p = pk *)
Definition put (p : ptr) (pk : block_pack) (c : chain_context) : chain_context := set_fork (store (fork_db c) p pk) c.

Definition view (p : ptr) (rs : list message_receipt) (c : chain_context) : applying :=
  Applying (db_of c) (deref (fork_db c) p) rs (fst (building_status c)) (snd (building_status c)).
Definition back (s : db_session) (p : ptr) (x : applying) (c : chain_context) : chain_context :=
  set_status (status_trx_counter x, status_msg_counter x)
    (set_building (Some (Pending s (Some p) (message_receipts x)))
       (set_fork (store (fork_db (set_db (a_db x) c)) p (a_pack x)) c)).

(** A block is being built in the pack at [p], on a head that is another pack. *)
Record at_work (s : db_session) (p h : ptr) (now : Z) (c : chain_context) : Prop := {
  work_building : exists rs, building_block c = Some (Pending s (Some p) rs);
  work_pack : exists pk, heap (fork_db c) !! p = Some pk;
  work_head : head_pack c = Some h;
  work_other : h <> p;
  work_now : to_time_point (timestamp (new_header (deref (fork_db c) h))) = now }.

Lemma deref_put p pk c q : deref (fork_db (put p pk c)) q = if decide (q = p) then pk else deref (fork_db c) q.
Proof.
  unfold put, deref, deref_in. cbn. destruct (decide (q = p)) as [-> | N]; [rewrite lookup_insert_eq | rewrite lookup_insert_ne by congruence]; reflexivity.
Qed.

Lemma back_work s p h now x c : at_work s p h now c -> at_work s p h now (back s p x c).
Proof.
  intros [B (pk & P) Hd N T]. split; [eexists; reflexivity | exists (a_pack x); apply lookup_insert_eq | exact Hd | exact N |].
  rewrite <- T. unfold deref, deref_in, back. cbn. rewrite lookup_insert_ne by congruence. reflexivity.
Qed.

Lemma view_back s p x c : view p (message_receipts x) (back s p x c) = x.
Proof. unfold view, back, deref, deref_in. cbn. rewrite lookup_insert_eq. destruct x; reflexivity. Qed.

Lemma back_back s p x y c : back s p y (back s p x c) = back s p y c.
Proof. unfold back, store, set_fork, set_db, set_status, set_building, set_world. cbn. rewrite insert_insert_eq. reflexivity. Qed.

Lemma back_view s p rs pk c : building_block c = Some (Pending s (Some p) rs) -> heap (fork_db c) !! p = Some pk -> back s p (view p rs c) c = c.
Proof.
  intros B P. destruct c as [[hp fr i1 i2 i3 i4 hd w] b [st1 st2] h sel]. cbn in *. subst b.
  unfold back, view, store, set_fork, set_db, set_status, set_building, set_world, deref, deref_in, db_of. cbn. rewrite P. cbn.
  rewrite insert_id by exact P. destruct w; reflexivity.
Qed.

Lemma in_building_runs {A} (m : M applying A) s p rs c : building_block c = Some (Pending s (Some p) rs) ->
  in_building m c = match m (view p rs c) with Ret x a => Ret (back s p x c) a | Exc x e => Exc (back s p x c) e | Undef => Undef end.
Proof. intros B. unfold in_building. rewrite B. reflexivity. Qed.

Section Runs.
Context `{Crypto} `{AuthCodec} (skip_flags : Z) (hs : handlers) (hash_message : message -> sha256).
Context (js_apply : Z -> call -> M Context.world Z) (to_share : Z -> Z) (chain_id : sha256) (raw_idx : Z) (fuel : nat).

Local Abbreviation request_of now := (apply_transaction skip_flags now hs hash_message js_apply to_share chain_id raw_idx fuel).
Local Abbreviation all_of now := (apply_transactions skip_flags now hs hash_message js_apply to_share chain_id raw_idx fuel).
Local Abbreviation one := (apply_request skip_flags hs hash_message js_apply to_share chain_id raw_idx fuel).

Lemma request_runs s p h now rs r c : at_work s p h now c -> building_block c = Some (Pending s (Some p) rs) ->
  one r c = match request_of now r (view p rs c) with
            | Ret x (Some a) => Ret (back s p x c) a
            | Ret _ None => Undef
            | Exc x e => Exc (back s p x c) e
            | Undef => Undef
            end.
Proof.
  intros [_ _ Hd _ T] B. unfold apply_request.
  rewrite (mbind_ret (gets building_block) _ c c (Some (Pending s (Some p) rs))) by (unfold gets; rewrite B; reflexivity).
  rewrite (mbind_ret (require _ _) _ c c tt) by reflexivity.
  assert (Now : head_block_time c = Ret c now).
  { unfold head_block_time, head_block_timestamp, head_block, the_head, at_ptr, mbind, M_bind, gets. rewrite Hd. cbn. rewrite T. reflexivity. }
  rewrite (mbind_ret _ _ _ _ _ Now). unfold mbind at 1, M_bind at 1. rewrite (in_building_runs _ _ _ _ _ B).
  destruct (request_of now r (view p rs c)) as [x [a |] | |]; reflexivity.
Qed.

Lemma requests_run s p h now l : forall rs c, at_work s p h now c -> building_block c = Some (Pending s (Some p) rs) ->
  for_each l (fun r => one r ;; mret tt) c =
    match all_of now l (view p rs c) with
    | Ret x true => Ret (back s p x c) tt
    | Ret _ false => Undef
    | Exc x e => Exc (back s p x c) e
    | Undef => Undef
    end.
Proof.
  induction l as [| r l IH]; intros rs c W B.
  - cbn. destruct (work_pack _ _ _ _ _ W) as [pk P]. rewrite (back_view s p rs pk c B P). reflexivity.
  - pose proof (request_runs s p h now rs r c W B) as Rr. cbn [for_each]. unfold apply_transactions. cbn [exec_all]. fold (all_of now l).
    destruct (request_of now r (view p rs c)) as [x [a |] | x e |] eqn:Er; [| unfold mbind, M_bind; rewrite Rr, Er; reflexivity ..].
    rewrite (mbind_ret (one r ;; mret tt) _ c (back s p x c) tt) by (unfold mbind, M_bind; rewrite Rr; reflexivity).
    rewrite (mbind_ret (response ← request_of now r; mret (match response with Some _ => true | None => false end)) _ (view p rs c) x true)
      by (unfold mbind, M_bind; rewrite Er; reflexivity).
    rewrite (IH (message_receipts x) (back s p x c) (back_work _ _ _ _ _ _ W) eq_refl), view_back.
    destruct (all_of now l x) as [y [|] | |]; rewrite ?back_back; reflexivity.
Qed.

(** ** The selected transactions *)

Definition formed (r : transaction_request) : Prop := r = request_of_trx (signed_trx r).
Definition pool_formed (s : selection) : Prop := Forall (fun o => forall r, o = Some r -> formed r) (selected_transaction_pool s).

Lemma selected_requests n : forall k c c' u, pool_formed (selected c) ->
  for_each (seq k n) (apply_selected skip_flags hs hash_message js_apply to_share chain_id raw_idx fuel) c = Ret c' u ->
  exists l, Forall formed l /\ for_each l (fun r => one r ;; mret tt) c = Ret (set_selected (selected c) c') tt.
Proof.
  induction n as [| n IH]; intros k c c' u P E.
  - cbn in E. injection E as <- _. exists []. split; [constructor |]. cbn. rewrite set_selected_same. reflexivity.
  - cbn [seq for_each] in E. unfold mbind at 1, M_bind at 1 in E.
    destruct (apply_selected _ _ _ _ _ _ _ _ k c) as [c1 v | |] eqn:E1; [| discriminate E ..].
    unfold apply_selected in E1. unfold mbind at 1, M_bind at 1, gets at 1 in E1.
    destruct (selected_transaction_pool (selected c) !! k) as [[r |] |] eqn:Ek; [| discriminate E1 ..].
    unfold mbind, M_bind in E1. destruct (one r c) as [c2 a | |] eqn:E2; [| discriminate E1 ..].
    pose proof (blind_selected _ _ _ _ (blind_apply_request skip_flags hs hash_message js_apply to_share chain_id raw_idx fuel r) E2) as S2.
    unfold on_selection, on_part, update in E1. injection E1 as <- _.
    assert (F : formed r).
    { unfold pool_formed in P. rewrite Forall_lookup in P. exact (P k _ Ek r eq_refl). }
    set (s1 := Selection _ _ _) in E. destruct (IH (S k) (set_selected s1 c2) c' u) as (l & Fl & El).
    + cbn. unfold pool_formed in *. subst s1. cbn. rewrite S2. apply Forall_insert; [exact P |]. discriminate.
    + exact E.
    + exists (r :: l). split; [constructor; assumption |]. cbn [for_each].
      assert (E3 : (one r ;; mret tt) c = Ret c2 tt) by (unfold mbind, M_bind; rewrite E2; reflexivity).
      rewrite (mbind_ret _ _ _ _ _ E3).
      assert (B : blind (for_each l (fun r => one r ;; mret tt))) by
        (apply blind_for_each; intros x; apply blind_bind; [apply blind_apply_request | intros y; apply blind_ret]).
      rewrite <- (set_selected_same c2) at 1. change (set_selected (selected c2) c2) with (set_selected (selected c2) (set_selected s1 c2)).
      rewrite (B (selected c2) (set_selected s1 c2)), El. cbn. rewrite S2. reflexivity.
Qed.

(** ** The header stays while transactions are applied *)

Definition same_header (s s' : applying) : Prop := new_header (a_pack s') = new_header (a_pack s).
#[local] Instance same_header_preorder : PreOrder same_header.
Proof. split; [intros s; reflexivity | intros a b c A B; red in A, B |- *; congruence]. Qed.

Lemma header_on_chain {A} (m : M database A) : follows same_header (on_chain m).
Proof. intros s. unfold on_chain. destruct (m (a_db s)); exact eq_refl || exact I. Qed.

Lemma header_on_block f : follows same_header (on_block f).
Proof.
  intros s. unfold on_block. destruct (block (a_pack s)); [| exact I]. unfold same_header. destruct s as [d [] m t1 t2]. reflexivity.
Qed.

Lemma header_in_trx {A} (m : M applying A) : follows same_header m -> follows same_header (in_trx m).
Proof.
  intros Hm s. unfold in_trx. destruct (db_start_undo_session true (a_db s)) as [db ses].
  specialize (Hm (set_a_db db s)). destruct (m (set_a_db db s)) as [s1 a | s1 e |]; [| | exact I].
  - pose proof (header_on_chain (session ← leave_squash ses; db_session_undo session ;; mret a) s1) as X.
    destruct (on_chain _ s1); [etransitivity; [exact Hm | exact X] .. | exact I].
  - destruct (db_session_undo ses (a_db s1)); [exact Hm | exact I ..].
Qed.

Hint Resolve same_header_preorder header_on_chain header_on_block : follow.

Lemma header_request now r : follows same_header (request_of now r).
Proof.
  unfold apply_transaction, apply_transaction_impl.
  apply follows_bind; [exact _ | apply header_on_chain |]. intros [|]; [| apply follows_ret; exact _].
  apply follows_catch_fc; [exact _ | | intros e; apply follows_ret; exact _].
  apply follows_bind; [exact _ | apply header_in_trx |].
  - unfold apply_body, apply_transaction_receipt, exec_transaction. cbv zeta. follow.
    intros s. destruct (exec _ _ _ _ _ _ _ _ _); exact eq_refl || exact I.
  - intros [[impl resp] |]; [| apply follows_ret; exact _]. unfold int32. follow;
      apply follows_update; intros s; unfold same_header; destruct s as [d [] m t1 t2]; reflexivity.
Qed.

Lemma header_apply now l : follows same_header (all_of now l).
Proof.
  unfold apply_transactions. induction l as [| r l IH]; cbn [exec_all]; [apply follows_ret; exact _ |].
  apply follows_bind; [exact _ | |].
  - apply follows_bind; [exact _ | apply header_request | intros [|]; apply follows_ret; exact _].
  - intros [|]; [exact IH | apply follows_ret; exact _].
Qed.
End Runs.

(** ** From the start of a block to its end *)

Definition same_building (c c' : chain_context) : Prop := building_block c' = building_block c.
#[export] Instance same_building_preorder : PreOrder same_building.
Proof. split; [intros c; reflexivity | intros a b c A B; red in A, B |- *; congruence]. Qed.

(** The packs are untouched, but for the numbers of confirmed and the flags. *)
Definition packs_kept (c c' : chain_context) : Prop := same_building c c' /\ same_blocks (fork_db c) (fork_db c').
#[export] Instance packs_kept_preorder : PreOrder packs_kept.
Proof. split; [intros c; split; [reflexivity | intros p; reflexivity] | intros a b c [A1 A2] [B1 B2]; split; [etransitivity; eassumption | etransitivity; [exact A2 | exact B2]]]. Qed.

Lemma kept_on_db {A} (m : M database A) : follows packs_kept (on_db m).
Proof. intros c. unfold on_db, on_part. destruct (m (db_of c)); [split; [reflexivity | intros p; reflexivity] .. | exact I]. Qed.

Lemma kept_on_fork {A} (m : M (fork_context irr_world) A) : follows same_blocks m -> follows packs_kept (on_fork m).
Proof. intros Hm c. specialize (Hm (fork_db c)). unfold on_fork, on_part. destruct (m (fork_db c)); [split; [reflexivity | exact Hm] .. | exact I]. Qed.

Lemma kept_update f : (forall c, packs_kept c (f c)) -> follows packs_kept (update f).
Proof. intros E. apply follows_update, E. Qed.

#[export] Instance blocks_frame `{Crypto} : ForkFrame on_irreversible same_blocks.
Proof.
  split; [exact _ | intros c c' [E _]; exact E |]. intros b f. unfold on_world.
  destruct (on_irreversible b (ForkDb.world f)); [intros p; reflexivity .. | exact I].
Qed.

#[export] Hint Resolve packs_kept_preorder kept_on_db : follow.

Section Ends.
Context `{Crypto}.

Lemma kept_update_final_state : follows packs_kept _update_final_state.
Proof.
  unfold _update_final_state, update_or_create_builders, add_missed, get_order_builder, get_static_config, get_dynamic_states,
    get_delta_slot_at_time, head_block_timestamp, find_builder_object, head_block, read_pack, the_head, the_pack, at_ptr, block_of. follow.
Qed.

Lemma kept_block_summary b : follows packs_kept (block_summary b).
Proof. unfold block_summary. follow. Qed.

Lemma kept_push_block u : follows packs_kept (_push_block u).
Proof.
  unfold _push_block, check_building, head_block, the_head, the_pack, at_ptr, block_of.
  repeat first [follow_step | apply kept_update; intros c; split; [reflexivity | intros p; reflexivity]].
  apply kept_on_fork, frame_add_block_pack. exact _.
Qed.

Lemma commit_blocks : follows (fun c c' => same_blocks (fork_db c) (fork_db c')) _commit_block.
Proof.
  assert (P : PreOrder (fun c c' : chain_context => same_blocks (fork_db c) (fork_db c')))
    by (split; [intros c p; reflexivity | intros a b c A B; etransitivity; eassumption]).
  assert (U : forall f, (forall c, heap (fork_db (f c)) = heap (fork_db c)) -> follows (fun c c' => same_blocks (fork_db c) (fork_db c')) (update f)).
  { intros f E. apply follows_update. intros c p. unfold deref, deref_in. rewrite E. reflexivity. }
  assert (D : forall (A : Type) (m : M database A), follows (fun c c' => same_blocks (fork_db c) (fork_db c')) (on_db m)).
  { intros A m. eapply follows_weaken; [| apply kept_on_db]. intros s s' [_ K]. exact K. }
  unfold _commit_block, check_building, _abort_build. follow; try apply D; apply U; intros c;
    [unfold push_db; destruct (building_block c) as [[] |] | ..]; reflexivity.
Qed.

(** Programs at the pack that is being built. *)
Definition building_at (p : ptr) (c : chain_context) : Prop := exists s rs, building_block c = Some (Pending s (Some p) rs).

Lemma the_pack_at p c : building_at p c -> the_pack c = Ret c p.
Proof. intros (s & rs & B). unfold the_pack, mbind, M_bind, gets. rewrite B. reflexivity. Qed.

Lemma read_pack_at p c : building_at p c -> read_pack c = Ret c (deref (fork_db c) p).
Proof. intros B. unfold read_pack. rewrite (mbind_ret _ _ _ _ _ (the_pack_at p c B)). reflexivity. Qed.

Lemma write_pack_at p f c : building_at p c -> write_pack f c = Ret (put p (f (deref (fork_db c) p)) c) tt.
Proof. intros B. unfold write_pack. rewrite (mbind_ret _ _ _ _ _ (the_pack_at p c B)). reflexivity. Qed.

Lemma put_at p pk c : building_at p c -> building_at p (put p pk c).
Proof. intros (s & rs & B). exists s, rs. exact B. Qed.

Lemma put_put p pk pk' c : put p pk' (put p pk c) = put p pk' c.
Proof. unfold put, store, set_fork. cbn. rewrite insert_insert_eq. reflexivity. Qed.

Lemma check_building_at p c : building_at p c -> check_building c = Ret c tt.
Proof. intros (s & rs & B). unfold check_building, mbind, M_bind, gets. rewrite B. reflexivity. Qed.

(** The header with the merkle root of the receipts. *)
Definition rooted (h : signed_block_header) (root : sha256) : signed_block_header :=
  SignedHeader (Header (previous h) (timestamp h) root (builder h) (next_builders h)) (builder_signature h).

Lemma generate_at hash_pair p (b : signed_block) c c' u : building_at p c -> block (deref (fork_db c) p) = Some b ->
  _generate_block hash_pair c = Ret c' u ->
  exists root, c' = put p (with_header (rooted (new_header (deref (fork_db c) p)) root) (deref (fork_db c) p)) c.
Proof.
  intros B Eb E. unfold _generate_block in E. rewrite (mbind_ret _ _ _ _ _ (check_building_at p c B)) in E.
  unfold capture_and_rethrow in E. rewrite (mbind_ret _ _ _ _ _ (read_pack_at p c B)) in E.
  unfold block_of in E. rewrite Eb in E. rewrite (mbind_ret (mret b) _ c c b) in E by reflexivity.
  destruct (cal_merkle hash_pair (map receipt_digest (receipts b))) as [root |]; [| discriminate E].
  rewrite (write_pack_at p _ c B) in E. injection E as <- _. exists root. reflexivity.
Qed.

Lemma sign_at key p c : building_at p c ->
  let h := sign (new_header (deref (fork_db c) p)) key in
  _sign_block key c = Ret (put p (with_validated_id (Block.id h) (with_header h (deref (fork_db c) p))) c) tt.
Proof.
  intros B h. unfold _sign_block, capture_and_rethrow. rewrite (mbind_ret _ _ _ _ _ (write_pack_at p _ c B)).
  rewrite (write_pack_at p _ _ (put_at p _ c B)), put_put, deref_put, decide_True by reflexivity.
  subst h. destruct (deref (fork_db c) p). reflexivity.
Qed.

Lemma validate_at (b : signed_block) p c : building_at p c ->
  let h := SignedHeader (new_header (deref (fork_db c) p)) (builder_signature b) in
  Block.id h = Block.id b ->
  _validate_block b c = Ret (put p (with_validated_id (Block.id h) (with_header h (deref (fork_db c) p))) c) tt.
Proof.
  intros B h Ei. unfold _validate_block, capture_and_rethrow. rewrite (mbind_ret _ _ _ _ _ (write_pack_at p _ c B)).
  rewrite (mbind_ret _ _ _ _ _ (read_pack_at p _ (put_at p _ c B))). cbv zeta. rewrite deref_put, decide_True by reflexivity.
  assert (Eh : new_header (with_header h (deref (fork_db c) p)) = h) by (destruct (deref (fork_db c) p); reflexivity).
  fold h. rewrite Eh, bool_decide_true by exact Ei. rewrite (mbind_ret (require true _) _ _ (put p (with_header h (deref (fork_db c) p)) c) tt) by reflexivity.
  rewrite (write_pack_at p _ _ (put_at p _ c B)), put_put, deref_put, decide_True by reflexivity. reflexivity.
Qed.

(** The final block is the header of the pack with the receipts so far. *)
Lemma final_at p (b : signed_block) c c' u : building_at p c -> block (deref (fork_db c) p) = Some b -> _final_block c = Ret c' u ->
  building_at p c' /\ block (deref (fork_db c') p) = Some (SignedBlock (new_header (deref (fork_db c) p)) (receipts b)).
Proof.
  intros B Eb E. unfold _final_block in E.
  assert (E1 : _make_final_block c = Ret (put p (with_block (SignedBlock (new_header (deref (fork_db c) p)) (receipts b)) (deref (fork_db c) p)) c) tt).
  { unfold _make_final_block. rewrite (mbind_ret _ _ _ _ _ (read_pack_at p c B)). unfold block_of. rewrite Eb.
    rewrite (mbind_ret (mret b) _ c c b) by reflexivity. rewrite (write_pack_at p _ c B). reflexivity. }
  rewrite (mbind_ret _ _ _ _ _ E1) in E. set (c1 := put p _ c) in E.
  assert (B1 : building_at p c1) by (apply put_at, B).
  unfold mbind at 1, M_bind at 1 in E. pose proof (kept_update_final_state c1) as K.
  destruct (_update_final_state c1) as [c2 v | |]; [| discriminate E ..]. destruct K as [K1 K2].
  assert (B2 : building_at p c2) by (destruct B1 as (s & rs & B1); exists s, rs; rewrite K1; exact B1).
  rewrite (mbind_ret _ _ _ _ _ (read_pack_at p c2 B2)) in E.
  assert (Eb2 : block (deref (fork_db c2) p) = Some (SignedBlock (new_header (deref (fork_db c) p)) (receipts b))).
  { rewrite K2. subst c1. rewrite deref_put, decide_True by reflexivity. destruct (deref (fork_db c) p); reflexivity. }
  unfold block_of in E. rewrite Eb2 in E. unfold mbind, M_bind, mret, M_ret in E.
  pose proof (kept_block_summary (SignedBlock (new_header (deref (fork_db c) p)) (receipts b)) c2) as K.
  rewrite E in K. destruct K as [K3 K4]. split; [| rewrite K4; exact Eb2].
  destruct B2 as (s & rs & B2). exists s, rs. rewrite K3. exact B2.
Qed.
End Ends.

(** ** The pack of a new block *)

Lemma init_by_pre_pack_header pre when m q : init_by_pre_pack new_pack pre when m = Ok q ->
  previous (new_header q) = block_id pre /\ timestamp (new_header q) = when /\ block q = Some default_block.
Proof.
  unfold init_by_pre_pack. intros E. cbv zeta in E. apply bind_ok in E as (b & _ & E).
  destruct (if _ >=? _ then _ else _) as [cur new]. injection E as <-. unfold generate_dpos. cbv zeta.
  destruct (last_block_of_builders pre); [| destruct (_ =? _); [| destruct (_ <? _)]]; unfold with_dpos; cbn; auto.
Qed.

Lemma set_next_builders_header self next q : set_next_builders self next = Ok q ->
  previous (new_header q) = previous (new_header self) /\ timestamp (new_header q) = timestamp (new_header self) /\ block q = block self.
Proof.
  unfold set_next_builders. intros E. apply bind_ok in E as (u1 & _ & E). apply bind_ok in E as (u2 & _ & E). cbv zeta in E.
  destruct self. injection E as <-. cbn. auto.
Qed.

Section Start.
Context `{Crypto} (xmax_build_public_key : list Z).

(** A controller between two blocks, with the head [hd] at [h]. *)
Record idle (h : ptr) (hd : block_pack) (c : chain_context) : Prop := {
  idle_building : building_block c = None;
  idle_head : head_pack c = Some h;
  idle_pack : heap (fork_db c) !! h = Some hd;
  idle_fresh : heap (fork_db c) !! fresh (fork_db c) = None;
  idle_ready : Forall ready (db_of c) }.

Lemma next_builders_at p c c' u : building_at p c -> _generate_next_builders xmax_build_public_key c = Ret c' u ->
  exists pk, c' = put p pk c /\ previous (new_header pk) = previous (new_header (deref (fork_db c) p)) /\
    timestamp (new_header pk) = timestamp (new_header (deref (fork_db c) p)) /\ block pk = block (deref (fork_db c) p) \/ c' = c.
Proof.
  intros B E. unfold _generate_next_builders in E. rewrite (mbind_ret _ _ _ _ _ (read_pack_at p c B)) in E.
  destruct (new_round _); [| injection E as <- _; exists new_pack; right; reflexivity].
  rewrite (mbind_ret (gets (fun c => c)) _ c c c) in E by reflexivity. cbv zeta in E.
  destruct (set_next_builders _ _) as [q | e] eqn:S; [| unfold mbind, M_bind in E; cbn in E; destruct (String.eqb e "undefined"); discriminate].
  rewrite (mbind_ret (from_result (Ok q)) _ c c q) in E by reflexivity. rewrite (write_pack_at p _ c B) in E. injection E as <- _.
  exists q. left. split; [reflexivity |]. exact (set_next_builders_header _ _ _ S).
Qed.

Lemma start_facts when h hd c c1 u : idle h hd c -> _start_build xmax_build_public_key when c = Ret c1 u ->
  let p := fresh (fork_db c) in
  exists s, building_block c1 = Some (Pending s (Some p) []) /\ at_work s p h (to_time_point (timestamp (new_header hd))) c1 /\
    building_on (db_of c) c1 /\
    previous (new_header (deref (fork_db c1) p)) = block_id hd /\ timestamp (new_header (deref (fork_db c1) p)) = when /\
    block (deref (fork_db c1) p) = Some default_block.
Proof.
  intros [B Hd Hp Hf R] E p. pose proof (start_build_opens xmax_build_public_key when c B R) as On. rewrite E in On.
  assert (Np : h <> p) by (intros ->; subst p; congruence).
  destruct (start_opens c B R) as (c0 & Es & _ & _ & Ec). unfold _start_build in E.
  rewrite (mbind_ret (gets building_block) _ c c None) in E by (unfold gets; rewrite B; reflexivity).
  rewrite (mbind_ret (require _ _) _ c c tt) in E by reflexivity.
  unfold mbind at 1, M_bind at 1 in E. destruct (head_block_time c) as [c' now | |] eqn:Eh; [| discriminate E ..].
  pose proof (reads_head_block_time c) as Rh. rewrite Eh in Rh. red in Rh. subst c'.
  unfold require in E. destruct (_ <? _); [| rewrite (mbind_exc _ _ c c _ eq_refl) in E; discriminate E].
  rewrite (mbind_ret (mret tt) _ c c tt) in E by reflexivity. unfold reset_on_exit in E. rewrite (mbind_ret _ _ _ _ _ Es) in E.
  set (ses := snd (db_start_undo_session true (db_of c))) in *. set (db1 := fst (db_start_undo_session true (db_of c))) in *.
  destruct (capture_and_rethrow _ c0) as [c2 v | c2 e |] eqn:E2; [| destruct (_abort_build c2) eqn:Ab; unfold mbind, M_bind in E; rewrite Ab in E; discriminate E | discriminate E].
  injection E as -> _. unfold capture_and_rethrow in E2.
  match type of E2 with match ?o with _ => _ end = _ => destruct o as [c2 w | |] eqn:E; [| discriminate E2 ..] end. injection E2 as -> _.
  set (c3 := set_building (Some (Pending ses (Some p) [])) (set_fork (fst (alloc (fork_db c0) new_pack)) c0)).
  assert (Em : make_pack c0 = Ret (set_fork (fst (alloc (fork_db c0) new_pack)) c0) p) by (rewrite Ec; reflexivity).
  rewrite (mbind_ret _ _ _ _ _ Em) in E.
  assert (Eu : update (set_pack p) (set_fork (fst (alloc (fork_db c0) new_pack)) c0) = Ret c3 tt) by (subst c3; rewrite Ec; reflexivity).
  rewrite (mbind_ret _ _ _ _ _ Eu) in E.
  assert (B3 : building_at p c3) by (eexists _, _; reflexivity).
  assert (D3 : forall q, deref (fork_db c3) q = if decide (q = p) then new_pack else deref (fork_db c) q).
  { intros q. subst c3. rewrite Ec. unfold deref, deref_in. cbn. fold p.
    destruct (decide (q = p)) as [-> | N]; [rewrite lookup_insert_eq | rewrite lookup_insert_ne by congruence]; reflexivity. }
  assert (Hd3 : head_pack c3 = Some h) by (subst c3; rewrite Ec; exact Hd).
  assert (Dh : deref (fork_db c) h = hd) by (unfold deref, deref_in; rewrite Hp; reflexivity).
  assert (E4 : head_block c3 = Ret c3 hd).
  { unfold head_block, the_head, at_ptr, mbind, M_bind, gets. rewrite Hd3. cbn. rewrite D3, decide_False by exact Np. rewrite Dh. reflexivity. }
  rewrite (mbind_ret _ _ _ _ _ E4), (mbind_ret _ _ _ _ _ (read_pack_at p c3 B3)), D3, decide_True in E by reflexivity.
  destruct (init_by_pre_pack new_pack hd when true) as [q | e] eqn:I; [| unfold mbind, M_bind in E; cbn in E; destruct (String.eqb e "undefined"); discriminate].
  destruct (init_by_pre_pack_header _ _ _ _ I) as (I1 & I2 & I3).
  rewrite (mbind_ret (from_result (Ok q)) _ c3 c3 q), (mbind_ret _ _ _ _ _ (write_pack_at p _ c3 B3)) in E by reflexivity.
  assert (Bf : building_block (put p q c3) = Some (Pending ses (Some p) [])) by reflexivity.
  assert (G : exists pk, c1 = put p pk c3 /\ previous (new_header pk) = block_id hd /\ timestamp (new_header pk) = when /\ block pk = Some default_block).
  { destruct (next_builders_at p _ c1 w (put_at p q c3 B3) E) as (pk & [(-> & P1 & P2 & P3) | ->]).
    - rewrite put_put. exists pk. rewrite deref_put, decide_True in P1, P2, P3 by reflexivity. split; [reflexivity | split; [congruence | split; congruence]].
    - exists q. auto. }
  destruct G as (pk & -> & P1 & P2 & P3). exists ses. split; [reflexivity |].
  assert (Dp : deref (fork_db (put p pk c3)) p = pk) by (rewrite deref_put, decide_True by reflexivity; reflexivity).
  split; [| split; [exact On | rewrite Dp; auto]]. split; [eexists; reflexivity | exists pk; unfold put; cbn; apply lookup_insert_eq | exact Hd3 | exact Np |].
  rewrite deref_put, decide_False, D3, decide_False, Dh by exact Np. reflexivity.
Qed.
End Start.

(** ** A block built and applied *)

(** A program that takes no notice of the queue, after the queue has changed. *)
Lemma blind_run {A} (m : M chain_context A) s c c' a : blind m -> m (set_selected s c) = Ret c' a ->
  m c = Ret (set_selected (selected c) c') a /\ c' = set_selected s c'.
Proof.
  intros B E. pose proof (B s c) as X. rewrite E in X. destruct (m c) as [c2 a2 | |] eqn:E2; [| discriminate X ..].
  injection X as -> ->. rewrite <- (blind_selected m c c2 a2 B E2). destruct c2; split; reflexivity.
Qed.

Lemma blind_move {A} (m : M chain_context A) s c c' a : blind m -> m c = Ret c' a -> m (set_selected s c) = Ret (set_selected s c') a.
Proof. intros B E. rewrite (B s c), E. reflexivity. Qed.

(** Only the transactions that [pop] takes from the queue get into the pool. *)
Lemma pool_formed_selection pop s s' u : (forall l x rest, pop l = Some (x, rest) -> x :: rest ≡ₚ l) ->
  pool_formed s -> Forall formed (pending_transactions s) -> select_transactions_by_gas pop s = Ret s' u -> pool_formed s'.
Proof.
  intros Pop P F E. unfold select_transactions_by_gas in E. unfold mbind, M_bind, update, gets in E. cbn in E.
  set (s0 := Selection (selected_transaction_pool s) 0 (pending_transactions s)) in E.
  assert (P0 : pool_formed s0) by exact P. assert (F0 : Forall formed (pending_transactions s0)) by exact F.
  clearbody s0. clear P F. revert E. generalize 0 at 1 as sent. generalize (length (pending_transactions s)) as n. intros n. revert s0 P0 F0.
  induction n as [| n IH]; intros s0 P0 F0 sent E; cbn [select_loop] in E; unfold undefined, mbind, M_bind, gets in E;
    destruct (pop (pending_transactions s0)) as [[top rest] |] eqn:Po.
  - discriminate E.
  - injection E as <- _. exact P0.
  - destruct (_ <? _); [injection E as <- _; exact P0 |]. cbv zeta in E. destruct (_ <=? _); [discriminate E |].
    unfold mbind, M_bind, update in E. pose proof (Pop _ _ _ Po) as Pm.
    assert (Fp : Forall formed (top :: rest)) by (rewrite Pm; exact F0). apply Forall_cons in Fp as [Ft Fr].
    refine (IH _ _ _ _ E); [| exact Fr]. apply Forall_insert; [exact P0 |]. intros r [= <-]. exact Ft.
  - injection E as <- _. exact P0.
Qed.

Section Equal.
Context `{Crypto} `{AuthCodec} (hash_pair : sha256 -> sha256 -> sha256) (xmax_build_public_key : list Z) (skip_flags : Z) (hs : handlers).
Context (hash_message : message -> sha256) (js_apply : Z -> call -> M Context.world Z) (to_share : Z -> Z) (chain_id : sha256) (raw_idx : Z) (fuel : nat).
Context (pop : list transaction_request -> option (transaction_request * list transaction_request)).
Hypothesis HS : tracked_handlers hs.
Hypothesis JS : forall limit cx, tracked_in w_db (js_apply limit cx).
Hypothesis Pop : forall l x rest, pop l = Some (x, rest) -> x :: rest ≡ₚ l.

Local Abbreviation one := (apply_request skip_flags hs hash_message js_apply to_share chain_id raw_idx fuel).
Local Abbreviation build := (build_block hash_pair xmax_build_public_key skip_flags hs hash_message js_apply to_share chain_id raw_idx fuel pop).
Local Abbreviation apply_block := (_apply_block hash_pair xmax_build_public_key skip_flags hs hash_message js_apply to_share chain_id raw_idx fuel).

(** The transactions of the block that is built, again from its receipts. *)
Lemma transactions_again s p h now c1 c2 n k u : 0 <= now < 2 ^ 62 -> at_work s p h now c1 -> building_block c1 = Some (Pending s (Some p) []) ->
  block (deref (fork_db c1) p) = Some default_block -> (exists bases, Forall ready bases /\ building_on bases c1) -> pool_formed (selected c1) ->
  for_each (seq k n) (apply_selected skip_flags hs hash_message js_apply to_share chain_id raw_idx fuel) c1 = Ret c2 u ->
  exists (b : signed_block) reqs, requests_of (receipts b) = Some reqs /\
    for_each reqs (fun r => one r ;; mret tt) c1 = Ret (set_selected (selected c1) c2) tt /\
    building_at p c2 /\ block (deref (fork_db c2) p) = Some b /\ new_header (deref (fork_db c2) p) = new_header (deref (fork_db c1) p).
Proof using HS JS.
  intros HT W B Eb (bases & RB & On & _) P E.
  destruct (selected_requests skip_flags hs hash_message js_apply to_share chain_id raw_idx fuel n k c1 c2 u P E) as (l & Fl & El).
  pose proof (requests_run skip_flags hs hash_message js_apply to_share chain_id raw_idx fuel s p h now l [] c1 W B) as Rl. rewrite El in Rl.
  destruct (apply_transactions _ _ _ _ _ _ _ _ _ l (view p [] c1)) as [x [|] | |] eqn:El2; [| discriminate Rl ..].
  assert (Ex : set_selected (selected c1) c2 = back s p x c1) by congruence. clear Rl.
  destruct (all_replayed skip_flags now hs hash_message js_apply to_share chain_id raw_idx fuel HS JS bases RB HT l Fl (view p [] c1) x default_block
    On Eb El2) as (_ & rs & reqs & b & Bb & _ & Rc & Rq & _ & Again).
  pose proof (header_apply skip_flags hs hash_message js_apply to_share chain_id raw_idx fuel now l (view p [] c1)) as Hh. rewrite El2 in Hh.
  assert (Bk : forall q, deref (fork_db c2) q = deref (fork_db (back s p x c1)) q) by (intros q; rewrite <- Ex; reflexivity).
  assert (Dp : deref (fork_db c2) p = a_pack x) by (rewrite Bk; unfold back, deref, deref_in; cbn; rewrite lookup_insert_eq; reflexivity).
  exists b, reqs. cbn in Rc. rewrite Rc. split; [exact Rq |]. split.
  - rewrite (requests_run skip_flags hs hash_message js_apply to_share chain_id raw_idx fuel s p h now reqs [] c1 W B), Again, Ex. reflexivity.
  - split; [| rewrite Dp; split; [exact Bb | exact Hh]]. exists s, (message_receipts x).
    change (building_block c2) with (building_block (set_selected (selected c1) c2)). rewrite Ex. reflexivity.
Qed.

(** The checks on a received block. *)
Lemma desc_accepts h hd c (b : signed_block) id o pub : idle h hd c -> previous b = block_id hd -> num_from_id (block_id hd) = block_num hd ->
  find_id (fun o => bo_owner o =? builder b) (table builder_object (db_of c)) = Some id -> table builder_object (db_of c) !! id = Some o ->
  signing_key o = pub -> recover (builder_signature b) (hash_header b) = Ok pub ->
  _validate_block_desc b c = Ret c tt.
Proof using.
  intros [_ Hd Hp _ _] Pr Nm F T K Rc. unfold _validate_block_desc.
  assert (E : head_block c = Ret c hd).
  { unfold head_block, the_head, at_ptr, mbind, M_bind, gets, deref, deref_in. rewrite Hd. cbn. rewrite Hp. reflexivity. }
  rewrite (mbind_ret _ _ _ _ _ E), Pr, bool_decide_true by reflexivity.
  rewrite (mbind_ret (require true _) _ c c tt) by reflexivity.
  unfold Block.block_num at 1. rewrite Pr, Nm, Z.eqb_refl. rewrite (mbind_ret (require true _) _ c c tt) by reflexivity.
  rewrite (mbind_ret (find_builder_object (builder b)) _ c c (Some id)).
  2:{ unfold find_builder_object, Chain.on_db, on_part, db_find, gets. rewrite F, set_db_same. reflexivity. }
  rewrite (mbind_ret (on_db (Tables.deref id)) _ c c o).
  2:{ unfold Chain.on_db, on_part, Tables.deref, mbind, M_bind, gets. rewrite T. cbn. rewrite set_db_same. reflexivity. }
  unfold is_signer_valid, get_signer_key, digest. rewrite Rc. cbn [bind]. rewrite K, bool_decide_true by reflexivity. reflexivity.
Qed.

(** The states a block goes through, on the way that is common to the one who
    builds it and the one who applies it. *)
Record stages (c : chain_context) (hd : block_pack) (q : ptr) (when : chain_timestamp) (key : private_key) (b : signed_block) (c7 : chain_context) : Prop := Stages {
  st_previous : previous b = block_id hd;
  st_time : timestamp b = when;
  st_signature : builder_signature b = sign_compact key (hash_header b);
  st_states : exists c1 c2 c3 c4 c5 c6 reqs,
    _start_build xmax_build_public_key when c = Ret c1 tt /\
    requests_of (receipts b) = Some reqs /\
    for_each reqs (fun r => one r ;; mret tt) c1 = Ret (set_selected (selected c1) c2) tt /\
    _generate_block hash_pair c2 = Ret c3 tt /\
    (forall s, _validate_block b (set_selected s c3) = Ret (set_selected s c4) tt) /\
    _final_block c4 = Ret c5 tt /\ _push_block true c5 = Ret c6 tt /\ building_at q c6 /\ _commit_block c6 = Ret c7 tt }.

(** Applying a block that went through its stages. *)
Lemma stages_applied h hd c q when key (b : signed_block) c7 id o pub : idle h hd c -> num_from_id (block_id hd) = block_num hd ->
  (forall d, recover (sign_compact key d) d = Ok pub) ->
  find_id (fun o => bo_owner o =? builder b) (table builder_object (db_of c)) = Some id -> table builder_object (db_of c) !! id = Some o ->
  signing_key o = pub -> stages c hd q when key b c7 ->
  apply_block b true c = Ret (set_selected (selected c) c7) q.
Proof using.
  intros I Nm Rec F T K [Pr Tm Sg (c1 & c2 & c3 & c4 & c5 & c6 & reqs & E1 & Rq & E2 & E3 & E4 & E5 & E6 & At & E7)].
  pose proof (blind_selected _ _ _ _ (blind_start_build xmax_build_public_key when) E1) as S1. unfold _apply_block.
  rewrite (mbind_ret _ _ _ _ _ (desc_accepts h hd c b id o pub I Pr Nm F T K ltac:(rewrite Sg; apply Rec))).
  rewrite Rq, (mbind_ret _ _ _ _ _ (abort_nothing c (idle_building _ _ _ I))), Tm, (mbind_ret _ _ _ _ _ E1), (mbind_ret _ _ _ _ _ E2).
  rewrite (mbind_ret _ _ _ _ _ (blind_move _ _ _ _ _ (blind_generate_block hash_pair) E3)), (mbind_ret _ _ _ _ _ (E4 _)).
  rewrite (mbind_ret _ _ _ _ _ (blind_move _ _ _ _ _ blind_final_block E5)), (mbind_ret _ _ _ _ _ (blind_move _ _ _ _ _ (blind_push_block true) E6)).
  rewrite (mbind_ret _ _ _ _ _ (the_pack_at q (set_selected (selected c1) c6) At)).
  rewrite (mbind_ret _ _ _ _ _ (blind_move _ _ _ _ _ blind_commit_block E7)), S1. reflexivity.
Qed.

(** From the merkle root to the end. *)
Lemma sealed_stages key q c2 c3 c4 c5 c6 c7 (b2 b : signed_block) u5 u6 u7 u8 u9 : building_at q c2 -> block (deref (fork_db c2) q) = Some b2 ->
  _generate_block hash_pair c2 = Ret c3 u5 -> _sign_block key c3 = Ret c4 u6 -> _final_block c4 = Ret c5 u7 -> _push_block true c5 = Ret c6 u8 ->
  _commit_block c6 = Ret c7 u9 -> block (deref (fork_db c7) q) = Some b ->
  building_at q c5 /\ building_at q c6 /\ receipts b = receipts b2 /\ builder_signature b = sign_compact key (hash_header b) /\
  previous b = previous (new_header (deref (fork_db c2) q)) /\ timestamp b = timestamp (new_header (deref (fork_db c2) q)) /\
  forall s, _validate_block b (set_selected s c3) = Ret (set_selected s c4) tt.
Proof using.
  intros B2 Eb2 E5 E6 E7 E9 E10 Eb.
  destruct (generate_at hash_pair q b2 c2 c3 u5 B2 Eb2 E5) as (root & Ec3).
  assert (B3 : building_at q c3) by (rewrite Ec3; apply put_at, B2).
  rewrite (sign_at key q c3 B3) in E6. injection E6 as <- _.
  set (h4 := sign (new_header (deref (fork_db c3) q)) key) in *.
  set (pk4 := with_validated_id (Block.id h4) (with_header h4 (deref (fork_db c3) q))) in *.
  assert (Dp3 : deref (fork_db c3) q = with_header (rooted (new_header (deref (fork_db c2) q)) root) (deref (fork_db c2) q))
    by (rewrite Ec3, deref_put, decide_True by reflexivity; reflexivity).
  assert (Eb4 : block (deref (fork_db (put q pk4 c3)) q) = Some b2).
  { rewrite deref_put, decide_True by reflexivity. subst pk4. rewrite Dp3. clear -Eb2. destruct (deref (fork_db c2) q); exact Eb2. }
  destruct (final_at q b2 (put q pk4 c3) c5 u7 (put_at q pk4 c3 B3) Eb4 E7) as [B5 Eb5].
  assert (Hp4 : new_header (deref (fork_db (put q pk4 c3)) q) = h4).
  { rewrite deref_put, decide_True by reflexivity. subst pk4. destruct (deref (fork_db c3) q); reflexivity. }
  rewrite Hp4 in Eb5. pose proof (kept_push_block true c5) as K6. rewrite E9 in K6. destruct K6 as [K6 K6'].
  assert (B6 : building_at q c6) by (destruct B5 as (s5 & rs5 & B5); exists s5, rs5; rewrite K6; exact B5).
  assert (Ebb : b = SignedBlock h4 (receipts b2)).
  { pose proof (commit_blocks c6) as K7. rewrite E10 in K7. rewrite K7, K6', Eb5 in Eb. congruence. }
  split; [exact B5 |]. split; [exact B6 |]. rewrite Ebb. split; [reflexivity |]. split; [reflexivity |].
  assert (Hd4 : previous h4 = previous (new_header (deref (fork_db c2) q)) /\ timestamp h4 = timestamp (new_header (deref (fork_db c2) q)))
    by (subst h4; rewrite Dp3; clear; destruct (deref (fork_db c2) q); auto).
  split; [apply Hd4 |]. split; [apply Hd4 |]. intros s. rewrite (validate_at _ q (set_selected s c3) B3); reflexivity.
Qed.

(** Building a block goes through the stages. *)
Lemma build_stages h hd c c' p when key (b : signed_block) : idle h hd c -> pool_formed (selected c) ->
  Forall formed (pending_transactions (selected c)) -> 0 <= to_time_point (timestamp (new_header hd)) < 2 ^ 62 ->
  build when key c = Ret c' p -> block (deref (fork_db c') p) = Some b -> stages c hd p when key b c'.
Proof using HS JS Pop.
  intros I Pf Ff HT E Eb.
  unfold build_block in E. rewrite (mbind_ret _ _ _ _ _ (abort_nothing c (idle_building _ _ _ I))) in E.
  apply ret_of_bind in E as (c1 & [] & E1 & E).
  destruct (start_facts xmax_build_public_key when h hd c c1 tt I E1) as (ses & B1 & W1 & On1 & P1 & T1 & K1). set (q := fresh (fork_db c)) in *.
  apply ret_of_bind in E as (c1' & u2 & E2 & E). unfold on_selection, on_part in E2.
  destruct (select_transactions_by_gas pop (selected c1)) as [sel v | |] eqn:Sel; [| discriminate E2 ..]. injection E2 as <- _.
  pose proof (blind_selected _ _ _ _ (blind_start_build xmax_build_public_key when) E1) as S1.
  assert (Pf1 : pool_formed sel) by (eapply (pool_formed_selection pop); [exact Pop | | | exact Sel]; rewrite S1; assumption).
  apply ret_of_bind in E as (c1' & sel' & Eg & E). injection Eg as <- <-.
  apply ret_of_bind in E as (c2 & u3 & E3 & E).
  destruct (transactions_again ses q h _ (set_selected sel c1) c2 _ _ u3 HT ltac:(destruct W1; split; assumption) B1 K1
    (ex_intro _ (db_of c) (conj (idle_ready _ _ _ I) On1)) Pf1 E3) as (b2 & reqs & Rq & Again & B2 & Eb2 & Hh).
  assert (Bl : blind (for_each reqs (fun r => one r ;; mret tt))) by
    (apply blind_for_each; intros x; apply blind_bind; [apply blind_apply_request | intros y; apply blind_ret]).
  apply (blind_run _ sel c1 _ tt Bl) in Again as [Again _].
  apply ret_of_bind in E as (c2' & u4 & E4 & E). unfold on_selection, on_part, update in E4. injection E4 as <- _.
  set (sel2 := Selection _ 0 _) in E.
  apply ret_of_bind in E as (c3 & [] & E5 & E). apply ret_of_bind in E as (c4 & u6 & E6 & E).
  apply ret_of_bind in E as (c5 & [] & E7 & E). apply ret_of_bind in E as (c5' & q' & E8 & E).
  apply ret_of_bind in E as (c6 & [] & E9 & E). apply ret_of_bind in E as (c7 & [] & E10 & E). injection E as <- <-.
  assert (Eq : q' = q /\ c5' = c5).
  { destruct (generate_at hash_pair q b2 (set_selected sel2 c2) c3 tt B2 Eb2 E5) as (root & Ec3).
    assert (B3 : building_at q c3) by (rewrite Ec3; apply put_at, B2). pose proof E6 as E6'. rewrite (sign_at key q c3 B3) in E6'. injection E6' as Ec4 _.
    assert (Eb4 : block (deref (fork_db c4) q) = Some b2).
    { rewrite <- Ec4, deref_put, decide_True by reflexivity. rewrite Ec3, deref_put, decide_True by reflexivity.
      change (fork_db (set_selected sel2 c2)) with (fork_db c2). clear -Eb2. destruct (deref (fork_db c2) q); exact Eb2. }
    destruct (final_at q b2 c4 c5 tt ltac:(rewrite <- Ec4; apply put_at, B3) Eb4 E7) as [B5 _].
    rewrite (the_pack_at q c5 B5) in E8. injection E8 as <- <-. auto. }
  destruct Eq as [-> ->].
  destruct (sealed_stages key q (set_selected sel2 c2) c3 c4 c5 c6 c7 b2 b tt u6 tt tt tt B2 Eb2 E5 E6 E7 E9 E10 Eb) as (_ & B6 & Rc & Sg & Pr & Tm & V).
  change (fork_db (set_selected sel2 c2)) with (fork_db c2) in Pr, Tm. rewrite Hh in Pr, Tm. change (fork_db (set_selected sel c1)) with (fork_db c1) in Pr, Tm.
  rewrite P1 in Pr. rewrite T1 in Tm. split; [exact Pr | exact Tm | exact Sg |].
  exists c1, (set_selected sel2 c2), c3, c4, c5, c6, reqs. rewrite Rc. repeat split; try assumption.
Qed.

(** A block that was built is applied by a controller in the state in which it
    was built. *)
Lemma build_applied h hd c c' p when key (b : signed_block) id o pub queue : (forall d, recover (sign_compact key d) d = Ok pub) ->
  idle h hd c -> 0 <= to_time_point (timestamp (new_header hd)) < 2 ^ 62 -> num_from_id (block_id hd) = block_num hd ->
  pool_formed (selected c) -> Forall formed (pending_transactions (selected c)) ->
  build when key c = Ret c' p -> block (deref (fork_db c') p) = Some b ->
  find_id (fun o => bo_owner o =? builder b) (table builder_object (db_of c)) = Some id ->
  table builder_object (db_of c) !! id = Some o -> signing_key o = pub ->
  apply_block b true (set_selected queue c) = Ret (set_selected queue c') p.
Proof using HS JS Pop.
  intros Rec I HT Nm Pf Ff E Eb F T K. rewrite (blind_apply_block hash_pair xmax_build_public_key skip_flags hs hash_message js_apply to_share chain_id raw_idx fuel b true queue c).
  rewrite (stages_applied h hd c p when key b c' id o pub I Nm Rec F T K (build_stages h hd c c' p when key b I Pf Ff HT E Eb)). reflexivity.
Qed.
End Equal.
