(* ===== verification/ChainProps.v ===== *)
(** Properties of the chain controller: the log of irreversible blocks; and a
    small chain on which they are tried out. *)

From Stdlib Require Import ZArith Lia Bool String List.
From stdpp Require Import base decidable gmap list.
From S2P Require Import Prelude ChainUtils Block BlockPack Effects UndoIndex DbSession Objects Tables Context Authority AuthorityThm.
From S2P Require Import Voting SystemContract SystemContractProps NativeApi Tracked Transaction Applying ApplyingThm ApplyingProps Replay.
From S2P Require Import ForkDb ForkRun Follows ForkFrames Chain ChainUndo ChainLog ChainReplay.
Import ListNotations.
Local Open Scope Z_scope.

Local Abbreviation database := (list (generic_index row)).


(** C11: one early number stops the finality of the chain.  A block asked for
    by a number from before the block log, such as 0, which is not in the fork
    database either, throws; and from then on, whatever is asked of the
    controller, no block is added to the log any more, since the stream of its
    index has failed. *)
Theorem early_number_stops_the_log `{Crypto} `{AuthCodec} hash_pair xmax_build_public_key skip_flags hs hash_message js_apply to_share
    chain_id raw_idx fuel walk_fuel pop num (last_block : signed_block) l c c' :
  get_main_block_by_num (fork_db c) num = None ->
  last (chain_log (ForkDb.world (fork_db c))) = Some last_block ->
  num + lnum (chain_log (ForkDb.world (fork_db c))) <= Block.block_num last_block ->
  exists c1, block_from_num num c = Exc c1 "basic_ios::clear" /\
    (run_chain hash_pair xmax_build_public_key skip_flags hs hash_message js_apply to_share chain_id raw_idx fuel walk_fuel pop l c1 = Ret c' tt ->
     chain_log (ForkDb.world (fork_db c')) = chain_log (ForkDb.world (fork_db c))).
Proof.
  intros M La B. destruct (early_read_fails num last_block c M La B) as (c1 & -> & F & El). exists c1. split; [reflexivity |]. intros E.
  pose proof (log_run_chain hash_pair xmax_build_public_key skip_flags hs hash_message js_apply to_share chain_id raw_idx fuel walk_fuel pop
    stuck l stuck_db stuck_irreversible c1) as G.
  rewrite E in G. destruct (G F) as [_ G']. rewrite G'. exact El.
Qed.




(** ** A small chain *)

#[local] Existing Instances BlockPack.toy_crypto AuthorityThm.toy_codec.

(** A chain after its genesis block: one builder, and the accounts of
    [toy_chain_db]. *)
Definition toy_genesis : block_pack :=
  with_irreversible_confirmed (with_last_confirmed toy_first 1 (block_id toy_first)) true.
Definition toy_genesis_db : database :=
  created (BlockSummary empty_chain_id) (created (BlockSummary empty_chain_id) (created (BlockSummary empty_chain_id)
  (created (BlockSummary empty_chain_id) (created (BlockSummary empty_chain_id)
  (created (BuilderObject 5 empty_public_key 0 0) (created (DynamicStates 1 (block_id toy_first) 0 0 5 0)
  (created (StaticConfig toy_rule empty_rule) (map (with_revision 1) toy_chain_db)))))))).
Definition toy_fork : fork_context irr_world :=
  let '(f, p) := alloc (empty_context (IrrWorld toy_genesis_db 0 [toy_block empty_chain_id 100] false)) toy_genesis in
  match insert_pack f p with Ok f => f | Throw _ => f end.
Definition toy_chain : chain_context := Chain toy_fork None (0, 0) (Some 0%nat) (Selection (repeat None 4) 0 []).

Definition toy_runs (l : list chain_op) : M chain_context unit :=
  run_chain (fun a _ => a) empty_public_key 0 toy_registered (fun _ => empty_chain_id) toy_js (fun z => z) empty_chain_id 0 5 9 toy_pop l.
Definition toy_run (l : list chain_op) : outcome chain_context unit := toy_runs l toy_chain.

Definition toy_confirmation (n : Z) : block_confirmation :=
  Confirmation (Block.id (toy_block (block_id toy_first) n)) 5 empty_signature.
Definition toy_ops : list chain_op := [op_build (Stamp 101) tt; op_confirmation (toy_confirmation 101); op_build (Stamp 105) tt].

Lemma toy_linked : linked (chain_log (ForkDb.world (fork_db toy_chain))).
Proof.
  split; [eexists _, []; split; reflexivity |]. intros [| i] b b' Hb Hb'; [discriminate Hb' | discriminate Hb].
Qed.


(** Block 0 is asked for; the block the confirmation would have made
    irreversible is not appended. *)
Lemma early_number_stops_the_log_witness : exists c1 c',
  block_from_num 0 toy_chain = Exc c1 "basic_ios::clear" /\ toy_runs toy_ops c1 = Ret c' tt /\
  chain_log (ForkDb.world (fork_db c')) = [toy_block empty_chain_id 100].
Proof.
  assert (T : match block_from_num 0 toy_chain with Exc c1 _ => returns (toy_runs toy_ops c1) | _ => false end = true) by (vm_compute; reflexivity).
  unfold toy_runs in *.
  pose proof (fun c' => early_number_stops_the_log (fun a _ => a) empty_public_key 0 toy_registered (fun _ => empty_chain_id) toy_js (fun z => z)
    empty_chain_id 0 5 9 toy_pop 0 (toy_block empty_chain_id 100) toy_ops toy_chain c'
    ltac:(vm_compute; reflexivity) ltac:(vm_compute; reflexivity) ltac:(vm_compute; discriminate)) as P.
  destruct (P toy_chain) as (c1 & E1 & _). rewrite E1 in T. apply returns_ret in T as (c' & [] & E2).
  exists c1, c'. split; [exact E1 |]. split; [exact E2 |].
  destruct (P c') as (c2 & E2' & K). rewrite E1 in E2'. injection E2' as <-. exact (K E2).
Defined.

Definition toy_tracked_js : forall limit cx, tracked_in w_db (toy_js limit cx) := fun limit cx => tracked_in_ret w_db 0.

Definition toy_apply_block (b : signed_block) : M chain_context ptr :=
  _apply_block (fun a _ => a) empty_public_key 0 (interface_handlers toy_registered) (fun _ => empty_chain_id) toy_js (fun z => z) empty_chain_id 0 5 b false.

Definition toy_second_block : signed_block := toy_block (block_id toy_first) 101.

Lemma toy_chain_ready : Forall ready (db_of toy_chain).
Proof.
  assert (Ed : db_of toy_chain = toy_genesis_db) by (vm_compute; reflexivity). rewrite Ed.
  apply (created_ready (MsgStatus 0)); [| vm_compute; reflexivity]. unfold toy_genesis_db.
  do 8 apply created_valid.
  assert (V : valid toy_chain_db) by (unfold toy_chain_db; do 7 apply created_valid; apply empty_valid). destruct V as [L G T].
  assert (Lk : forall i, slot_rows i (map (with_revision 1) toy_chain_db) = slot_rows i toy_chain_db).
  { intros i. unfold slot_rows. rewrite list_lookup_fmap. destruct (toy_chain_db !! i); reflexivity. }
  split; [rewrite length_map; exact L | | intros i id x; rewrite Lk; apply T].
  intros i ix E. apply list_lookup_fmap_Some in E as (ix0 & -> & E). exact (G i ix0 E).
Qed.


(** Two transfers are in the queue; the second asks for more than there is. *)
Definition toy_queued (amount : Z) : transaction_request :=
  request_of_trx (SignedTransaction (Transaction 0 0 946685000000000 [7; 9] [] [toy_transfer amount] 0 0 0) []).
Definition toy_loaded : chain_context := set_selected (Selection (repeat None 4) 0 [toy_queued 500; toy_queued 10]) toy_chain.

Definition toy_build (c : chain_context) : outcome chain_context ptr :=
  build_block (fun a _ => a) empty_public_key 0 (interface_handlers toy_registered) (fun _ => empty_chain_id) toy_js (fun z => z) empty_chain_id 0 5
    toy_pop (Stamp 101) tt c.

(** The built block, if there is one, and the number of its receipts. *)
Definition toy_built : option (signed_block * nat) :=
  match toy_build toy_loaded with
  | Ret c p => match block (deref (fork_db c) p) with Some b => Some (b, length (receipts b)) | None => None end
  | _ => None
  end.

Lemma toy_idle : idle 0%nat toy_genesis toy_loaded.
Proof. split; [reflexivity .. | exact toy_chain_ready]. Qed.


(** ** Forks and restarts *)

Definition toy_by_id : transaction_receipt := Receipt 0 applied (by_id empty_chain_id).
Definition toy_bad_block : signed_block := SignedBlock (toy_block (block_id toy_first) 103) [toy_by_id].

(** The head, and the numbers and flags of the packs. *)
Definition toy_heads (o : outcome chain_context unit) : option (option ptr * list (Z * bool)) :=
  match o with
  | Ret c _ => Some (head_pack c, map (fun kv => (block_num kv.2, main_chain kv.2)) (map_to_list (heap (fork_db c))))
  | _ => None
  end.

(** Two blocks on the genesis block overtake the block built here: the chain
    switches to them. *)
Example fork_switched :
  toy_heads (toy_run [op_build (Stamp 101) tt; op_fork (toy_block (block_id toy_first) 103);
                      op_fork (toy_block (Block.id (toy_block (block_id toy_first) 103)) 104)])
  = Some (Some 3%nat, [(2, true); (2, true); (3, true); (3, true); (2, false); (1, true)]).
Proof. vm_compute. reflexivity. Qed.

(** When the first block of the overtaking branch cannot be applied, the own
    block is the best again, but it is not marked as the main chain any more;
    the way from the genesis block to it gives no block to take back, and the
    first of them is dereferenced all the same. *)
Example rejected_fork_undefined :
  toy_run [op_build (Stamp 101) tt; op_fork toy_bad_block; op_fork (toy_block (Block.id toy_bad_block) 104)] = Undef.
Proof. vm_compute. reflexivity. Qed.

(** A restart where the database is one block ahead of the fork database's
    head, block 2: all blocks that are not irreversible are undone, block 2
    with them, and the state of block 1 is taken for that of block 2. *)
Definition toy_restart : outcome chain_context unit :=
  match toy_run [op_build (Stamp 101) tt; op_build (Stamp 102) tt] with
  | Ret c _ =>
      let f := fork_db c in
      initialize_impl (set_fork (Fork (heap f) (fresh f) (by_block_id f) (by_pre_id f) (by_number_less f) (by_longest_num f) (Some 1%nat) (ForkDb.world f)) c)
  | o => o
  end.

Example restart_goes_back_too_far :
  match toy_restart with
  | Ret c _ =>
      match head_pack c with
      | Some h => Some (block_num (deref (fork_db c) h), db_revision (db_of c),
                        option_map head_block_number (table dynamic_states_object (db_of c) !! 0), last_irreversible_block_num (ForkDb.world (fork_db c)))
      | None => None
      end
  | _ => None
  end = Some (2, 2, Some 1, 3).
Proof. vm_compute. reflexivity. Qed.
