(* ===== verification/Protocol.v ===== *)
(** The messages between nodes (plugins/chainnet_plugin/include/protocol.hpp).

    How fc packs a message is a parameter of the files that use them. *)

From Stdlib Require Import ZArith Bool String List.
From stdpp Require Import base decidable.
From S2P Require Import Prelude ChainUtils Block.
Import ListNotations.
Local Open Scope string_scope.
Local Open Scope Z_scope.

Record handshake_message := Handshake {
  network_version : Z; hs_chain_id : sha256; hs_node_id : sha256; key : list Z; time : Z; token : sha256; sig : list Z; p2p_address : string;
  last_irreversible_block_num : Z; last_irreversible_block_id : sha256; head_num : Z; head_id : sha256; os : string; agent : string; generation : Z }.

(** handshake_message(); a generation that is not set is taken for 0. *)
Definition new_handshake : handshake_message :=
  Handshake 0 empty_chain_id empty_chain_id empty_public_key 0 empty_chain_id empty_signature "" 0 empty_chain_id 0 empty_chain_id "" "" 0.

Inductive leave_reason :=
| no_reason | self | duplicate | wrong_chain | wrong_version | forked | unlinkable | bad_transaction | validation | benign_other | fatal_other | authentication.

#[export] Instance leave_reason_eq_dec : EqDecision leave_reason.
Proof. solve_decision. Defined.

Record leave_message := Leave { reason : leave_reason; leave_node_id : sha256 }.

(** leave_message(r) *)
Definition leave (r : leave_reason) : leave_message := Leave r empty_chain_id.

Record time_message := TimeMessage { org : Z; rec : Z; xmt : Z; dst : Z }.

Inductive id_list_modes := none | catch_up | last_irr_catch_up | normal.

Record select_ids := SelectIds { mode : id_list_modes; pending : Z; ids : list sha256 }.

Definition no_ids : select_ids := SelectIds none 0 [].

(** select_ids::empty *)
Definition ids_empty (s : select_ids) : bool :=
  match mode s with none => true | _ => match ids s with [] => true | _ => false end end.

Record notice_message := Notice { known_trx : select_ids; known_blocks : select_ids }.
Record request_message := Request { req_trx : select_ids; req_blocks : select_ids }.
Record sync_request_message := SyncRequest { start_block : Z; end_block : Z }.

(** The variant, in its order. *)
Inductive net_message :=
| a_handshake (m : handshake_message)
| a_leave (m : leave_message)
| a_time (m : time_message)
| a_notice (m : notice_message)
| a_request (m : request_message)
| a_sync_request (m : sync_request_message)
| a_block_summary (block_header : signed_block_header)
| a_transaction (t : signed_transaction)
| a_block (b : signed_block)
| a_block_list (blockList : list signed_block)
| a_confirmation (conf : block_confirmation)
| a_request_block (last_irreversible_block_num : Z)
| a_connecting_nodes (endingPointList : list string).
