(* ===== verification/Connection.v ===== *)
(** The sending side of a connection: class connection_xmax
    (plugins/chainnet_plugin/connection_xmax.cpp and chainnet_plugin.cpp), and
    the handlers of the messages that steer it.

    A [session] is the chain controller, a connection and what the plugin counts
    for it.  A [channel] is the part of the connection that writes: [writing]
    are the buffers given to async_write that have not been reported yet, the
    oldest first, [written] those the socket has sent, and [accepted] the
    messages that were queued; the code has no such fields.  Closing the socket
    does not take back what was given to async_write: a report comes, with an
    error or without.

    The callbacks of queued writes are those of msg_enqueue.  The transactions
    txn_send would queue are never put into local_txns, so it sends nothing.
    Timers, the log, blk_state and trx_state, which nothing reads, are left out;
    write_depth is an int that is taken not to overflow. *)

From Stdlib Require Import ZArith Lia Bool String List.
From stdpp Require Import base decidable list.
From S2P Require Import Prelude ChainUtils Block BlockPack Effects SystemContract ForkDb Chain Protocol MessageBuffer PeerReading PeerReadingThm.
Import ListNotations.
Local Open Scope Z_scope.

(** close_after_send is what the callback has captured. *)
Record queued_write := Queued { buff : list Z; close_after_send : bool }.

Record channel := Channel {
  write_queue : list queued_write;
  write_depth : Z;
  writing : list (list Z);
  written : list (list Z);
  accepted : list net_message }.

Record sync_state := SyncState { sync_start : Z; sync_end : Z; sync_last : Z }.

Record connection := Conn {
  chan : channel;
  sync_requested : option sync_state;
  is_open : bool;
  pending_message_buffer : message_buffer;
  pending_block_list : list signed_block;
  conn_node_id : sha256;
  last_handshake_recv : handshake_message;
  last_handshake_sent : handshake_message;
  sent_handshake_count : Z;
  connecting : bool;
  syncing : bool;
  peer_addr : string;
  pending_fetch : option request_message;
  no_retry : leave_reason }.

Record session := Session { controller : chain_context; conn : connection; num_clients : Z }.

Definition new_channel : channel := Channel [] 0 [] [] [].

(** What the plugin knows of itself. *)
Record plugin := Plugin {
  my_network_version : Z; network_version_match : bool; my_chain_id : sha256; my_node_id : sha256; my_p2p_address : string; user_agent_name : string }.

Section Connection.
Context `{Crypto} (pack : net_message -> list Z) (my : plugin) (hash_time : Z -> sha256) (str : sha256 -> string).

(** *** Assignments *)

Definition on_conn (f : connection -> connection) (s : session) : session := Session (controller s) (f (conn s)) (num_clients s).
Definition set_chan (ch : channel) (c : connection) : connection :=
  let '(Conn _ b1 b2 b3 b4 b5 b6 b7 b8 b9 b10 b11 b12 b13) := c in Conn ch b1 b2 b3 b4 b5 b6 b7 b8 b9 b10 b11 b12 b13.
Definition set_sync (x : option sync_state) (c : connection) : connection :=
  let '(Conn ch _ b2 b3 b4 b5 b6 b7 b8 b9 b10 b11 b12 b13) := c in Conn ch x b2 b3 b4 b5 b6 b7 b8 b9 b10 b11 b12 b13.
Definition set_blocks (x : list signed_block) (c : connection) : connection :=
  let '(Conn ch b1 b2 b3 _ b5 b6 b7 b8 b9 b10 b11 b12 b13) := c in Conn ch b1 b2 b3 x b5 b6 b7 b8 b9 b10 b11 b12 b13.
Definition set_fetch (x : option request_message) (c : connection) : connection :=
  let '(Conn ch b1 b2 b3 b4 b5 b6 b7 b8 b9 b10 b11 _ b13) := c in Conn ch b1 b2 b3 b4 b5 b6 b7 b8 b9 b10 b11 x b13.
Definition set_no_retry (x : leave_reason) (c : connection) : connection :=
  let '(Conn ch b1 b2 b3 b4 b5 b6 b7 b8 b9 b10 b11 b12 _) := c in Conn ch b1 b2 b3 b4 b5 b6 b7 b8 b9 b10 b11 b12 x.
Definition set_node_id (x : sha256) (c : connection) : connection :=
  let '(Conn ch b1 b2 b3 b4 _ b6 b7 b8 b9 b10 b11 b12 b13) := c in Conn ch b1 b2 b3 b4 x b6 b7 b8 b9 b10 b11 b12 b13.
Definition set_syncing (x : bool) (c : connection) : connection :=
  let '(Conn ch b1 b2 b3 b4 b5 b6 b7 b8 b9 _ b11 b12 b13) := c in Conn ch b1 b2 b3 b4 b5 b6 b7 b8 b9 x b11 b12 b13.

Definition set_recv (x : handshake_message) (c : connection) : connection :=
  let '(Conn ch b1 b2 b3 b4 b5 _ b7 b8 b9 b10 b11 b12 b13) := c in Conn ch b1 b2 b3 b4 b5 x b7 b8 b9 b10 b11 b12 b13.
Definition set_connecting (open connecting : bool) (c : connection) : connection :=
  let '(Conn ch b1 _ b3 b4 b5 b6 b7 b8 _ b10 b11 b12 b13) := c in Conn ch b1 open b3 b4 b5 b6 b7 b8 connecting b10 b11 b12 b13.

Definition on_channel {A} (m : M channel A) : M session A := fun s =>
  match m (chan (conn s)) with
  | Ret ch a => Ret (on_conn (set_chan ch) s) a
  | Exc ch e => Exc (on_conn (set_chan ch) s) e
  | Undef => Undef
  end.

Definition on_chain {A} (m : M chain_context A) : M session A := fun s =>
  match m (controller s) with
  | Ret c a => Ret (Session c (conn s) (num_clients s)) a
  | Exc c e => Exc (Session c (conn s) (num_clients s)) e
  | Undef => Undef
  end.

(** ** Writing *)

Definition add_depth (d : Z) : M channel unit :=
  update (fun ch => Channel (write_queue ch) (write_depth ch + d) (writing ch) (written ch) (accepted ch)).

(** async_write of the buffer at the front. *)
Definition do_queue_write : M channel unit :=
  q ← gets write_queue;
  match q with
  | [] => mret tt
  | front :: _ =>
      add_depth 1 ;;
      update (fun ch => Channel (write_queue ch) (write_depth ch) (writing ch ++ [buff front]) (written ch) (accepted ch))
  end.

Definition queue_write (b : list Z) (trigger_send close_after_send : bool) : M channel unit :=
  update (fun ch => Channel (write_queue ch ++ [Queued b close_after_send]) (write_depth ch) (writing ch) (written ch) (accepted ch)) ;;
  q ← gets write_queue;
  if (length q =? 1)%nat && trigger_send then do_queue_write else mret tt.

Definition flush_queues : M channel unit :=
  update (fun ch => Channel (if 0 <? write_depth ch then take 1 (write_queue ch) else []) (write_depth ch) (writing ch) (written ch) (accepted ch)).

Definition msg_enqueue (m : net_message) (trigger_send : bool) : M session unit :=
  (match m with a_request r => update (on_conn (set_fetch (Some r))) | _ => mret tt end) ;;
  let close_after_send := match m with a_leave _ => true | _ => false end in
  let payload_size := u32 (Z.of_nat (length (pack m))) in
  on_channel
    (update (fun ch => Channel (write_queue ch) (write_depth ch) (writing ch) (written ch) (accepted ch ++ [m])) ;;
     add_depth 1 ;;
     queue_write (le32 payload_size ++ pack m) trigger_send close_after_send).

(** ** Closing *)

(** connection_xmax::close, which resets the buffer last. *)
Definition conn_close : M session unit :=
  on_channel flush_queues ;;
  s ← gets (fun s => s);
  match MessageBuffer.reset (pending_message_buffer (conn s)) with
  | Ret b _ =>
      update (on_conn (fun c => Conn (chan c) None false b (pending_block_list c) (conn_node_id c) new_handshake new_handshake 0 false false
                                  (peer_addr c) (pending_fetch c) (no_retry c)))
  | _ => undefined
  end.

(** chainnet_plugin_impl::close *)
Definition plugin_close : M session unit :=
  update (fun s => if String.eqb (peer_addr (conn s)) "" then Session (controller s) (conn s) (u32 (num_clients s - 1)) else s) ;;
  conn_close.

(** ** Blocks *)

Definition send_signedblock (b : signed_block) : M session unit := update (on_conn (fun c => set_blocks (pending_block_list c ++ [b]) c)).
Definition send_signedblocklist (l : list signed_block) : M session unit := update (on_conn (set_blocks l)).

Definition max_sending_num : nat := 10.

Definition send_pending_block : M session unit :=
  s ← gets (fun s => s);
  let sending_num := Nat.min max_sending_num (length (pending_block_list (conn s))) in
  for_each (seq 0 sending_num) (fun _ =>
    s ← gets (fun s => s);
    match pending_block_list (conn s) with
    | [] => undefined
    | sb :: _ =>
        msg_enqueue (a_block sb) true ;;
        update (on_conn (fun c => set_blocks (tl (pending_block_list c)) c))
    end).

Definition send_blockconfirm (conf : block_confirmation) : M session unit := msg_enqueue (a_confirmation conf) true.

(** The pointer block_from_num returns is not null where it returns. *)
Definition enqueue_sync_block : M session bool :=
  s ← gets (fun s => s);
  match sync_requested (conn s) with
  | None => mret false
  | Some y =>
      let num := u32 (sync_last y + 1) in
      let trigger_send := num =? sync_start y in
      update (on_conn (set_sync (if num =? sync_end y then None else Some (SyncState (sync_start y) (sync_end y) num)))) ;;
      catch_all
        (on_chain (block_from_num num) ≫= fun sb : signed_block =>
         msg_enqueue (a_block sb) trigger_send ;;
         mret true)
        (mret false)
  end.

(** The callback of async_write; [ec] is whether it reports an error.  What it
    throws is caught. *)
Definition write_reported (ec : bool) : M session unit :=
  catch_all
    (s ← gets (fun s => s);
     match writing (chan (conn s)) with
     | [] => mret tt
     | w :: ws =>
         on_channel (update (fun ch => Channel (write_queue ch) (write_depth ch) ws (if ec then written ch else written ch ++ [w]) (accepted ch))) ;;
         (match write_queue (chan (conn s)) with
          | [] => mret tt
          | front :: _ =>
              on_channel (add_depth (-1)) ;;
              if close_after_send front then plugin_close else mret tt
          end) ;;
         on_channel (add_depth (-1)) ;;
         if ec then plugin_close
         else
           s ← gets (fun s => s);
           match write_queue (chan (conn s)) with
           | [] => undefined
           | _ :: rest =>
               on_channel (update (fun ch => Channel rest (write_depth ch) (writing ch) (written ch) (accepted ch))) ;;
               enqueue_sync_block ;;
               on_channel do_queue_write
           end
     end)
    (mret tt).

(** ** Messages that steer the connection *)

Definition cancel_sync (r : leave_reason) : M session unit :=
  on_channel flush_queues ;;
  match r with
  | validation | fatal_other => update (on_conn (set_no_retry r)) ;; msg_enqueue (a_leave (leave r)) true
  | _ => mret tt
  end.

Definition cancel_fetch : M session unit := msg_enqueue (a_request (Request no_ids no_ids)) true.

(** The timer of a request that was answered by nothing. *)
Definition fetch_timeout : M session unit :=
  s ← gets (fun s => s);
  match pending_fetch (conn s) with
  | None => undefined
  | Some f => if negb (ids_empty (req_trx f) || ids_empty (req_blocks f)) then cancel_fetch else mret tt
  end.

Definition stop_send : M session unit := update (on_conn (set_syncing false)).

(** sign_compact gives the empty signature; [now] is the clock.  Nothing throws
    the exception that is caught here. *)
Definition sign_compact_of (signer : list Z) (digest : sha256) : list Z := empty_signature.

Definition setup (now : Z) (h : handshake_message) : M chain_context handshake_message :=
  let sig := sign_compact_of (key h) (hash_time now) in
  let token := if bool_decide (sig = empty_signature) then empty_chain_id else hash_time now in
  head_num ← head_block_num;
  lib ← gets (fun c => Chain.last_irreversible_block_num (ForkDb.world (fork_db c)));
  lib_id ← (if lib =? 0 then mret empty_chain_id else block_id_from_num lib);
  head_id ← (if head_num =? 0 then mret empty_chain_id else block_id_from_num head_num);
  mret (Handshake (my_network_version my) (my_chain_id my) (my_node_id my) (key h) now token sig
          (String.append (my_p2p_address my) (String.append " - " (substring 0 7 (str (my_node_id my)))))
          (if lib =? 0 then 1 else lib) lib_id head_num head_id "linux" (user_agent_name my) (generation h)).

Definition send_handshake (now : Z) : M session unit :=
  s ← gets (fun s => s);
  h ← on_chain (setup now (last_handshake_sent (conn s)));
  let count := swrap 16 (u16 (sent_handshake_count (conn s) + 1)) in
  let h := Handshake (network_version h) (hs_chain_id h) (hs_node_id h) (key h) (time h) (token h) (sig h) (p2p_address h)
             (Protocol.last_irreversible_block_num h) (last_irreversible_block_id h) (head_num h) (head_id h) (os h) (agent h) count in
  update (on_conn (fun c => Conn (chan c) (sync_requested c) (is_open c) (pending_message_buffer c) (pending_block_list c) (conn_node_id c)
                              (last_handshake_recv c) h count (connecting c) (syncing c) (peer_addr c) (pending_fetch c) (no_retry c))) ;;
  msg_enqueue (a_handshake h) true.

Definition handle_leave (m : leave_message) : M session unit :=
  update (on_conn (set_no_retry (reason m))) ;;
  (match reason m with duplicate => update (on_conn (set_node_id (leave_node_id m))) | _ => mret tt end) ;;
  on_channel flush_queues ;;
  plugin_close.

Definition handle_sync_request (m : sync_request_message) : M session unit :=
  if end_block m =? 0 then update (on_conn (set_sync None)) ;; on_channel flush_queues
  else
    update (on_conn (set_sync (Some (SyncState (start_block m) (end_block m) (u32 (start_block m - 1)))))) ;;
    enqueue_sync_block ;;
    mret tt.

(** find looks for a colon with something before it. *)
Definition bad_address (a : string) : bool := match String.index 0 ":" a with None | Some O => true | Some (S _) => false end.

(** connect(c): whether the resolver is started. *)
Definition connect : M session bool := gets (fun s => bool_decide (no_retry (conn s) = no_reason) && negb (bad_address (peer_addr (conn s)))).

(** connect(c, endpoint_itr), which opens the socket. *)
Definition connect_to : M session unit :=
  s ← gets (fun s => s);
  if bool_decide (no_retry (conn s) <> no_reason) then mret tt else update (on_conn (set_connecting true true)).

(** The callback of async_connect; [err] is whether it reports an error and
    [more] whether the resolver found another endpoint.  start_session only
    starts to read. *)
Definition connect_done (err more : bool) (now : Z) : M session unit :=
  if negb err then send_handshake now
  else if more then conn_close ;; connect_to
  else
    s ← gets (fun s => s);
    update (on_conn (set_connecting (is_open (conn s)) false)) ;;
    plugin_close.

(** ** A connection at work *)

(** Nothing changes between connect and the answer of the resolver that its
    callback does not look at again. *)

Inductive connection_event :=
| enqueues (m : net_message)
| gets_block (b : signed_block)
| gets_blocks (l : list signed_block)
| pending_timer
| reports (ec : bool)
| fetch_timer
| closes
| leaves (m : leave_message)
| sync_asked (m : sync_request_message)
| resolves
| dialled (err more : bool) (now : Z).

Definition happens (e : connection_event) : M session unit :=
  match e with
  | enqueues m => msg_enqueue m true
  | gets_block b => send_signedblock b
  | gets_blocks l => send_signedblocklist l
  | pending_timer => send_pending_block
  | reports ec => write_reported ec
  | fetch_timer => fetch_timeout
  | closes => plugin_close
  | leaves m => handle_leave m
  | sync_asked m => handle_sync_request m
  | resolves => go ← connect; if go : bool then connect_to else mret tt
  | dialled err more now => connect_done err more now
  end.

Definition goes_on (l : list connection_event) : M session unit := for_each l happens.
End Connection.
