(* ===== verification/PeerMessages.v ===== *)
(** What a node does with the messages of a peer that are about the connection
    (plugins/chainnet_plugin/chainnet_plugin.cpp): the handshake, and the notices
    and requests from which peers learn what they lack.

    local_txns is empty: nothing inserts into it. *)

From Stdlib Require Import ZArith Lia Bool String List.
From stdpp Require Import base decidable list.
From S2P Require Import Prelude ChainUtils Block BlockPack Effects SystemContract Objects ForkDb Chain Protocol MessageBuffer PeerReading PeerReadingThm Connection.
Import ListNotations.
Local Open Scope string_scope.
Local Open Scope Z_scope.

Section PeerMessages.
Context `{Crypto} (pack : net_message -> list Z) (my : plugin) (hash_time : Z -> sha256) (str : sha256 -> string).

Definition is_valid (msg : handshake_message) : bool :=
  negb (head_num msg <? Protocol.last_irreversible_block_num msg)
  && negb (String.eqb (p2p_address msg) "")
  && negb (String.eqb (os msg) "")
  && negb ((negb (bool_decide (sig msg = empty_signature)) || negb (bool_decide (token msg = empty_chain_id)))
           && negb (bool_decide (token msg = hash_time (time msg)))).

Definition connected (c : connection) : bool := is_open c && negb (connecting c).

Definition peer_name (c : connection) : string :=
  if negb (String.eqb (p2p_address (last_handshake_recv c)) "") then p2p_address (last_handshake_recv c)
  else if negb (String.eqb (peer_addr c) "") then peer_addr c
  else "connecting client".

Definition with_head_num (n : Z) (h : handshake_message) : handshake_message :=
  let '(Handshake a1 a2 a3 a4 a5 a6 a7 a8 a9 a10 _ a12 a13 a14 a15) := h in Handshake a1 a2 a3 a4 a5 a6 a7 a8 a9 a10 n a12 a13 a14 a15.

Definition authenticate_peer (msg : handshake_message) : bool := true.

(** Sums of times; one that overflows is undefined. *)
Definition time_sum (a b : Z) : M session Z := if bool_decide (- 2 ^ 63 <= a + b < 2 ^ 63) then mret (a + b) else undefined.

(** Whether another connection to the peer is kept instead of this one;
    [others] are the other connections of the plugin. *)
Fixpoint is_duplicate (others : list connection) (msg : handshake_message) : M session bool :=
  match others with
  | [] => mret false
  | check :: others =>
      if connected check && String.eqb (peer_name check) (p2p_address msg) then
        s ← gets (fun s => s);
        ours ← time_sum (time msg) (time (last_handshake_sent (conn s)));
        theirs ← time_sum (time (last_handshake_sent check)) (time (last_handshake_recv check));
        if ours <=? theirs then is_duplicate others msg else mret true
      else is_duplicate others msg
  end.

(** get_sync_blocklist only calls the chain. *)
Definition _send_blocklist_impl (last_irreversible_block_num : Z) : M session unit :=
  blockList ← on_chain (get_syncblock_from_lastnum last_irreversible_block_num);
  send_signedblocklist blockList.

Definition refuse (r : leave_reason) : M session unit := msg_enqueue pack (a_leave (leave r)) true.

Definition handle_handshake (now : Z) (others : list connection) (msg : handshake_message) : M session unit :=
  if negb (is_valid msg) then refuse fatal_other
  else
    liblock_num ← on_chain (gets (fun c => Chain.last_irreversible_block_num (ForkDb.world (fork_db c))));
    let peer_liblock := Protocol.last_irreversible_block_num msg in
    update (on_conn (fun c => set_connecting (is_open c) false c)) ;;
    (if generation msg =? 1 then
       if bool_decide (hs_node_id msg = my_node_id my) then refuse self ;; mret true
       else
         s ← gets (fun s => s);
         twice ← (if String.eqb (peer_addr (conn s)) "" || bool_decide (hs_node_id (last_handshake_recv (conn s)) = empty_chain_id)
                  then is_duplicate others msg else mret false);
         if twice : bool then
           msg_enqueue pack (a_leave (Leave duplicate (my_node_id my))) true ;;
           update (on_conn (set_no_retry duplicate)) ;;
           mret true
         else if negb (bool_decide (hs_chain_id msg = my_chain_id my)) then refuse wrong_chain ;; mret true
         else if negb (network_version msg =? my_network_version my) && network_version_match my then refuse wrong_version ;; mret true
         else
           update (on_conn (set_node_id (hs_node_id msg))) ;;
           if negb (authenticate_peer msg) then refuse authentication ;; mret true
           else
             (if peer_liblock <? liblock_num then catch_all (_send_blocklist_impl peer_liblock) (mret tt) else mret tt) ;;
             s ← gets (fun s => s);
             (if sent_handshake_count (conn s) =? 0 then send_handshake pack my hash_time str now else mret tt) ;;
             mret false
     else mret false) ≫= fun refused : bool =>
    if refused then mret tt else update (on_conn (set_recv msg)).

(** handle_message of request_block_message *)
Definition handle_request_block (last_irreversible_block_num : Z) : M session unit := _send_blocklist_impl last_irreversible_block_num.

(** ** Notices and requests *)

(** Filled by nothing yet: the pointer it returns is null. *)
Definition block_from_id (id : sha256) : M chain_context (option signed_block) := mret Datatypes.None.

(** The exceptions that are of the type assert_exception, of those that
    block_id_from_num throws. *)
Definition assert_exception (e : string) : bool := String.eqb e "Wrong block was read from block log.".

(** The blocks from [bid] back to the last irreversible one, with [fuel] for
    the loop; copying from a null pointer is undefined. *)
Fixpoint branch_from (fuel : nat) (bid lib_id : sha256) : M session (list signed_block) :=
  match fuel with
  | O => undefined
  | S fuel =>
      if bool_decide (bid = empty_chain_id) || bool_decide (bid = lib_id) then mret []
      else
        next ← catch_all
          (p ← on_chain (block_from_id bid);
           match p with
           | Datatypes.None => undefined
           | Some b => mret (Some b)
           end)
          (mret Datatypes.None);
        match next : option signed_block with
        | Datatypes.None => mret []
        | Some b => branch_from fuel (Block.previous b) lib_id ≫= fun rest : list signed_block => mret (b :: rest)
        end
  end.

(** The ids of the last irreversible block and of the head, zero where an
    exception that is no assert_exception prevents them; nothing where it is one. *)
Definition branch_ends (head_num : Z) : M chain_context (option (sha256 * sha256)) := fun c =>
  let lib := Chain.last_irreversible_block_num (ForkDb.world (fork_db c)) in
  match (if lib =? 0 then mret empty_chain_id else block_id_from_num lib) c with
  | Undef => Undef
  | Exc c e => Ret c (if assert_exception e then Datatypes.None else Some (empty_chain_id, empty_chain_id))
  | Ret c lib_id =>
      match block_id_from_num head_num c with
      | Undef => Undef
      | Exc c e => Ret c (if assert_exception e then Datatypes.None else Some (lib_id, empty_chain_id))
      | Ret c head_id => Ret c (Some (lib_id, head_id))
      end
  end.

Definition blk_send_branch : M session unit :=
  states ← on_chain get_dynamic_states;
  let head_num := head_block_number states in
  let note := a_notice (Notice no_ids (SelectIds normal 0 [])) in
  if head_num =? 0 then msg_enqueue pack note true
  else
    ends ← on_chain (branch_ends head_num);
    match ends with
    | Datatypes.None => msg_enqueue pack note true
    | Some (lib_id, head_id) =>
        branch_from (S (Z.to_nat head_num)) head_id lib_id ≫= fun bstack : list signed_block =>
        match last bstack with
        | Datatypes.None => undefined
        | Some b =>
            (if bool_decide (Block.previous b = lib_id) then for_each (rev bstack) (fun b : signed_block => msg_enqueue pack (a_block b) true) else mret tt) ;;
            update (on_conn (set_syncing false))
        end
    end.

Fixpoint blk_send (ids : list sha256) : M session unit :=
  match ids with
  | [] => mret tt
  | blkid :: ids =>
      sent ← catch_all
        (p ← on_chain (block_from_id blkid);
         match p with
         | Datatypes.None => undefined
         | Some b => msg_enqueue pack (a_block b) true ;; mret true
         end)
        (mret false);
      if sent : bool then blk_send ids else mret tt
  end.

(** handle_message of request_message; with no local transactions txn_send and
    txn_send_pending send nothing. *)
Definition handle_request (msg : request_message) : M session unit :=
  (match mode (req_blocks msg) with
   | catch_up => blk_send_branch
   | normal => blk_send (ids (req_blocks msg))
   | _ => mret tt
   end) ;;
  match mode (req_trx msg), mode (req_blocks msg) with
  | none, none => stop_send
  | _, _ => mret tt
  end.

(** handle_message of notice_message *)
Definition handle_notice (msg : notice_message) : M session unit :=
  send_req ← match mode (known_trx msg) with
             | last_irr_catch_up =>
                 update (on_conn (fun c => set_recv (with_head_num (pending (known_trx msg)) (last_handshake_recv c)) c)) ;;
                 mret false
             | catch_up => mret (0 <? pending (known_trx msg))
             | _ => mret false
             end;
  match mode (known_blocks msg), mode (known_trx msg) with
  | none, (none | catch_up | last_irr_catch_up) => mret tt
  | _, _ => if send_req : bool then msg_enqueue pack (a_request (Request (SelectIds catch_up 0 []) no_ids)) true else mret tt
  end.
End PeerMessages.
