(* ===== verification/ConnectionThm.v ===== *)
(** What the sending side of a connection keeps: while nothing closes it, what
    was queued is written in order, one buffer at a time; and a channel that has
    lost count of its writes stays silent. *)

From Stdlib Require Import ZArith Lia Bool String List RelationClasses.
From stdpp Require Import base decidable list.
From S2P Require Import Prelude ChainUtils Block BlockPack Effects SystemContract Applying Follows ForkDb Chain Protocol MessageBuffer PeerReading PeerReadingThm.
From S2P Require Import Connection.
Import ListNotations.
Local Open Scope Z_scope.

(** The states of a session seen through its channel. *)
Abbreviation ch_of s := (chan (conn s)).

Lemma set_chan_chan ch c : chan (set_chan ch c) = ch.
Proof. destruct c. reflexivity. Qed.

Lemma set_chan_set ch ch' c : set_chan ch' (set_chan ch c) = set_chan ch' c.
Proof. destruct c. reflexivity. Qed.

Section Silence.
Context `{Crypto} (pack : net_message -> list Z) (my : plugin) (hash_time : Z -> sha256) (str : sha256 -> string).

Local Abbreviation happens := (Connection.happens pack my hash_time str).
Local Abbreviation goes_on := (Connection.goes_on pack my hash_time str).
Local Abbreviation msg_enqueue := (Connection.msg_enqueue pack).

(** ** Silence *)

(** Something is queued, nothing is being written, and flush_queues believes
    that something is. *)
Definition stalled (ch : channel) : Prop := writing ch = [] /\ write_queue ch <> [] /\ 0 < write_depth ch.

Definition stays_stalled (ch ch' : channel) : Prop := stalled ch -> stalled ch' /\ written ch' = written ch.
#[local] Instance stays_stalled_preorder : PreOrder stays_stalled.
Proof. split; [intros a S; auto |]. intros a b c AB BC S. destruct (AB S) as [S' E]. destruct (BC S') as [S2 E2]. split; [exact S2 | congruence]. Qed.

Definition silent (s s' : session) : Prop := stays_stalled (ch_of s) (ch_of s').
#[local] Instance silent_preorder : PreOrder silent.
Proof. split; [intros a; unfold silent; reflexivity | intros a b c; unfold silent; etransitivity; eassumption]. Qed.

Lemma silent_channel {A} (m : M channel A) : follows stays_stalled m -> follows silent (on_channel m).
Proof using.
  intros Hm s. specialize (Hm (ch_of s)). unfold on_channel. destruct (m (ch_of s)); [| | exact I];
    unfold silent; cbn; rewrite set_chan_chan; exact Hm.
Qed.

Lemma silent_conn f : (forall c, chan (f c) = chan c) -> follows silent (update (on_conn f)).
Proof using. intros E. apply follows_update. intros s. unfold silent. cbn. rewrite E. reflexivity. Qed.

Lemma silent_chain {A} (m : M chain_context A) : follows silent (on_chain m).
Proof using. intros s. unfold on_chain. destruct (m (controller s)); [unfold silent; reflexivity .. | exact I]. Qed.

Lemma stalled_flush : follows stays_stalled flush_queues.
Proof using.
  apply follows_update. intros ch (W & Q & D). unfold stalled. cbn. destruct (Z.ltb_spec 0 (write_depth ch)); [| lia].
  split; [| reflexivity]. split; [exact W |]. split; [destruct (write_queue ch); [congruence | discriminate] | lia].
Qed.

(** A message joins a queue that is not empty, and nobody starts to write. *)
Lemma stalled_enqueue m b trigger close :
  follows stays_stalled (update (fun ch => Channel (write_queue ch) (write_depth ch) (writing ch) (written ch) (accepted ch ++ [m])) ;;
                         add_depth 1 ;; queue_write b trigger close).
Proof using.
  intros ch. destruct ch as [q d w wr ac]. unfold add_depth, queue_write, mbind, M_bind, update, gets. cbn.
  destruct q as [| x [| y q]]; cbn.
  - destruct trigger; intros (_ & Q & _); destruct (Q eq_refl).
  - intros (W & Q & D). cbn in *. repeat split; cbn; [exact W | discriminate | lia].
  - intros (W & Q & D). cbn in *. repeat split; cbn; [exact W | discriminate | lia].
Qed.

Lemma silent_enqueue m trigger : follows silent (msg_enqueue m trigger).
Proof using.
  unfold Connection.msg_enqueue. apply follows_bind; [exact _ | |].
  - destruct m; try (apply follows_ret; exact _). apply silent_conn. intros []; reflexivity.
  - intros _. cbv zeta. apply silent_channel, stalled_enqueue.
Qed.

Lemma silent_reset : follows silent conn_close.
Proof using.
  unfold conn_close. apply follows_bind; [exact _ | apply silent_channel, stalled_flush |]. intros _.
  apply follows_bind; [exact _ | apply follows_gets; exact _ |]. intros s.
  destruct (MessageBuffer.reset _); [apply silent_conn; reflexivity | apply follows_undefined ..].
Qed.

Lemma silent_close : follows silent plugin_close.
Proof using.
  unfold plugin_close. apply follows_bind; [exact _ | | intros _; apply silent_reset].
  apply follows_update. intros s. destruct (String.eqb _ _); unfold silent; reflexivity.
Qed.

Lemma silent_dial : follows silent connect_to.
Proof using. unfold connect_to. follow. apply silent_conn. intros []; reflexivity. Qed.

Local Hint Resolve silent_preorder silent_enqueue silent_close silent_chain : follow.

Lemma silent_sync : follows silent (enqueue_sync_block pack).
Proof using.
  unfold enqueue_sync_block. follow. apply silent_conn. intros []; reflexivity.
Qed.

Lemma silent_report ec s : stalled (ch_of s) -> write_reported pack ec s = Ret s tt.
Proof using. intros (W & _). unfold write_reported, catch_all, mbind, M_bind, gets. rewrite W. reflexivity. Qed.

Lemma silent_happens e : follows silent (happens e).
Proof using.
  destruct e as [m | b | l | | ec | | | m | m | | err more now]; cbn [Connection.happens].
  - apply silent_enqueue.
  - apply silent_conn. intros []; reflexivity.
  - apply silent_conn. intros []; reflexivity.
  - unfold send_pending_block. follow. apply silent_conn. intros []; reflexivity.
  - intros s. assert (D : stalled (ch_of s) \/ ~ stalled (ch_of s)).
    { unfold stalled. destruct (writing (ch_of s)); [| right; intros [E _]; discriminate E].
      destruct (write_queue (ch_of s)); [right; intros (_ & E & _); congruence |].
      destruct (Z.lt_ge_cases 0 (write_depth (ch_of s))); [left; split; [reflexivity | split; [discriminate | assumption]] | right; intros (_ & _ & L); lia]. }
    destruct D as [D | N]; [rewrite (silent_report ec s D); unfold silent; reflexivity |].
    destruct (write_reported pack ec s); [intros S; contradiction .. | exact I].
  - unfold fetch_timeout, cancel_fetch. follow.
  - apply silent_close.
  - unfold handle_leave. follow; try (apply silent_channel, stalled_flush); apply silent_conn; intros []; reflexivity.
  - unfold handle_sync_request. follow; try (apply silent_channel, stalled_flush); try apply silent_sync; apply silent_conn; intros []; reflexivity.
  - unfold connect. follow; try apply silent_dial.
  - unfold connect_done, send_handshake. cbv zeta. follow; try apply silent_dial; try apply silent_reset; apply silent_conn; intros []; reflexivity.
Qed.

Lemma silent_goes_on l : follows silent (goes_on l).
Proof using. apply follows_for_each; [exact _ | intros e; apply silent_happens]. Qed.
End Silence.

(** ** Order *)

Lemma le32_u32 v : le32 (u32 v) = le32 v.
Proof.
  unfold le32. apply map_ext_in. intros i Hi. apply in_seq in Hi. unfold u8, u32.
  apply Z.bits_inj'. intros j Hj. rewrite !Z.testbit_mod_pow2, !Z.shiftr_spec, Z.testbit_mod_pow2 by lia.
  destruct (Z.ltb_spec j 8); [| reflexivity]. destruct (Z.ltb_spec (j + 8 * Z.of_nat i) 32); [reflexivity | lia].
Qed.

Section Order.
Context `{Crypto} (pack : net_message -> list Z) (my : plugin) (hash_time : Z -> sha256) (str : sha256 -> string).

Local Abbreviation happens := (Connection.happens pack my hash_time str).
Local Abbreviation goes_on := (Connection.goes_on pack my hash_time str).
Local Abbreviation msg_enqueue := (Connection.msg_enqueue pack).
Local Abbreviation frame := (PeerReadingThm.frame pack).

Definition is_leave (m : net_message) : bool := match m with a_leave _ => true | _ => false end.

(** The channel after a message was queued. *)
Definition enqueued (m : net_message) (trigger : bool) (ch : channel) : channel :=
  let q := write_queue ch ++ [Queued (frame m) (is_leave m)] in
  if (length q =? 1)%nat && trigger then Channel q (write_depth ch + 2) (writing ch ++ [frame m]) (written ch) (accepted ch ++ [m])
  else Channel q (write_depth ch + 1) (writing ch) (written ch) (accepted ch ++ [m]).

Lemma msg_enqueue_runs m trigger s : exists s', msg_enqueue m trigger s = Ret s' tt /\ ch_of s' = enqueued m trigger (ch_of s) /\
  controller s' = controller s /\ sync_requested (conn s') = sync_requested (conn s) /\ pending_block_list (conn s') = pending_block_list (conn s).
Proof using.
  unfold Connection.msg_enqueue. unfold mbind at 1, M_bind at 1.
  assert (F : exists s1, (match m with a_request r => update (on_conn (set_fetch (Some r))) | _ => mret tt end) s = Ret s1 tt /\ ch_of s1 = ch_of s /\
    controller s1 = controller s /\ sync_requested (conn s1) = sync_requested (conn s) /\ pending_block_list (conn s1) = pending_block_list (conn s)).
  { destruct m; try (exists s; auto; fail). eexists. split; [reflexivity |]. destruct s as [c [] n]. auto. }
  destruct F as (s1 & -> & E1 & E2 & E3 & E4). cbv zeta. rewrite le32_u32. fold (frame m). fold (is_leave m).
  exists (on_conn (set_chan (enqueued m trigger (ch_of s))) s1). rewrite <- E1, <- E2, <- E3, <- E4. clear E1 E2 E3 E4.
  destruct s1 as [c [ch ? ? ? ? ? ? ? ? ? ? ? ? ?] n]. cbn. split; [| auto].
  unfold on_channel, add_depth, queue_write, enqueued, mbind, M_bind, update, gets. cbn. destruct ch as [q d w wr ac]. cbn.
  destruct q as [| x q]; cbn.
  - destruct trigger; cbn; unfold do_queue_write, add_depth, mbind, M_bind, update, gets; cbn; rewrite <- ?Z.add_assoc; reflexivity.
  - rewrite length_app, Nat.add_comm. reflexivity.
Qed.

(** Every message queued was written or is in the queue, in order, and each is
    counted, once more while it is written. *)
Record counted (ch : channel) : Prop := {
  count_depth : write_depth ch = Z.of_nat (length (write_queue ch)) + Z.of_nat (length (writing ch));
  count_open : Forall (fun q => close_after_send q = false) (write_queue ch);
  count_order : written ch ++ map buff (write_queue ch) = map frame (accepted ch) }.

(** The front of the queue, if there is one, is being written. *)
Definition flowing (ch : channel) : Prop := counted ch /\ writing ch = map buff (take 1 (write_queue ch)).
Definition paused (ch : channel) : Prop := counted ch /\ writing ch = [].

(** The channel with a message behind the queue. *)
Definition pushed (m : net_message) (ch : channel) : channel :=
  Channel (write_queue ch ++ [Queued (frame m) false]) (write_depth ch + 1) (writing ch) (written ch) (accepted ch ++ [m]).

Lemma counted_pushed m ch : counted ch -> counted (pushed m ch).
Proof using.
  intros [D O E]. unfold pushed. split; cbn [write_queue write_depth writing written accepted].
  - rewrite length_app. cbn [length]. lia.
  - apply Forall_app. split; [exact O | repeat constructor].
  - rewrite !map_app, app_assoc, E. reflexivity.
Qed.

Lemma enqueued_busy m trigger ch : is_leave m = false -> write_queue ch <> [] -> enqueued m trigger ch = pushed m ch.
Proof using.
  intros L N. unfold enqueued. rewrite L, length_app. destruct (write_queue ch) as [| x q] eqn:Q; [congruence |].
  unfold pushed. rewrite Q. cbn [length]. rewrite Nat.add_comm. reflexivity.
Qed.

Lemma flowing_enqueued m ch : is_leave m = false -> flowing ch -> flowing (enqueued m true ch).
Proof using.
  intros L [C W]. destruct (write_queue ch) as [| x q] eqn:Q.
  - destruct C as [D O E]. unfold enqueued. rewrite L, Q, W. cbn [app length Nat.eqb andb]. rewrite Q, W in D. rewrite Q in E.
    split; [split; cbn [write_queue write_depth writing written accepted] |]; [cbn in *; lia | repeat constructor | | reflexivity].
    cbn [map] in *. rewrite app_nil_r in E. rewrite E, map_app. reflexivity.
  - rewrite enqueued_busy by (assumption || (rewrite Q; discriminate)). split; [apply counted_pushed, C |].
    unfold pushed. cbn [writing write_queue]. rewrite W, Q. reflexivity.
Qed.

Lemma paused_enqueued m ch : is_leave m = false -> paused ch -> paused (enqueued m false ch).
Proof using.
  intros L [C W]. unfold enqueued. rewrite L, andb_false_r. split; [exact (counted_pushed m ch C) | exact W].
Qed.

Definition sync_ok (c : connection) : Prop :=
  match sync_requested c with None => True | Some y => 0 <= sync_start y <= sync_last y /\ sync_last y < sync_end y < 2 ^ 32 end.

Definition good (s : session) : Prop := flowing (ch_of s) /\ sync_ok (conn s).
Definition flows (s s' : session) : Prop := good s -> good s'.
#[local] Instance flows_preorder : PreOrder flows.
Proof. split; [intros a G; exact G | intros a b c AB BC G; auto]. Qed.

Lemma flows_conn f : (forall c, chan (f c) = chan c) -> (forall c, sync_requested (f c) = sync_requested c) -> follows flows (update (on_conn f)).
Proof using. intros E1 E2. apply follows_update. intros s. unfold flows, good, sync_ok. cbn. rewrite E1, E2. auto. Qed.

Lemma flows_chain {A} (m : M chain_context A) : follows flows (on_chain m).
Proof using. intros s. unfold on_chain. destruct (m (controller s)); [intros G; exact G .. | exact I]. Qed.

Lemma flows_enqueue m : is_leave m = false -> follows flows (msg_enqueue m true).
Proof using.
  intros L s. destruct (msg_enqueue_runs m true s) as (s' & -> & C & _ & Y & _). intros [F S]. split; [rewrite C; apply flowing_enqueued; assumption |].
  unfold sync_ok. rewrite Y. exact S.
Qed.
Local Hint Resolve flows_preorder flows_chain : follow.

(** The next block of a sync request. *)
Lemma sync_block (P : channel -> Prop) s y : sync_requested (conn s) = Some y ->
  (forall b ch, P ch -> P (enqueued (a_block b) (u32 (sync_last y + 1) =? sync_start y) ch)) ->
  match enqueue_sync_block pack s with
  | Ret s' _ | Exc s' _ => (P (ch_of s) -> P (ch_of s')) /\
      sync_requested (conn s') = (if u32 (sync_last y + 1) =? sync_end y then None else Some (SyncState (sync_start y) (sync_end y) (u32 (sync_last y + 1))))
  | Undef => True
  end.
Proof using.
  intros Y PE. unfold enqueue_sync_block. unfold mbind at 1, M_bind at 1, gets. rewrite Y. cbv zeta.
  unfold mbind at 1, M_bind at 1, update. set (s1 := on_conn _ s).
  assert (E1 : ch_of s1 = ch_of s) by (destruct s as [c [] n]; reflexivity).
  assert (Y1 : sync_requested (conn s1) = (if u32 (sync_last y + 1) =? sync_end y then None else Some (SyncState (sync_start y) (sync_end y) (u32 (sync_last y + 1)))))
    by (subst s1; destruct s as [c [] n]; reflexivity).
  clearbody s1. rewrite <- E1, <- Y1. unfold catch_all. unfold mbind at 1, M_bind at 1. unfold on_chain.
  destruct (block_from_num _ (controller s1)) as [c b | c e |]; [| cbn; auto | exact I].
  unfold mbind at 1, M_bind at 1.
  destruct (msg_enqueue_runs (a_block b) (u32 (sync_last y + 1) =? sync_start y) (Session c (conn s1) (num_clients s1))) as (s2 & -> & C2 & _ & Y2 & _).
  cbn. rewrite C2, Y2. auto.
Qed.

Lemma flows_sync_asked m : 0 <= start_block m <= end_block m -> 0 < end_block m < 2 ^ 32 -> follows flows (handle_sync_request pack m).
Proof using.
  intros B E s. unfold handle_sync_request. destruct (Z.eqb_spec (end_block m) 0); [lia |].
  unfold mbind at 1, M_bind at 1, update. set (s1 := on_conn _ s).
  assert (E1 : ch_of s1 = ch_of s) by (destruct s as [c [] n0]; reflexivity).
  assert (Y1 : sync_requested (conn s1) = Some (SyncState (start_block m) (end_block m) (u32 (start_block m - 1)))) by (destruct s as [c [] n0]; reflexivity).
  clearbody s1. assert (N : u32 (u32 (start_block m - 1) + 1) = start_block m).
  { unfold u32. rewrite Zplus_mod_idemp_l. replace (start_block m - 1 + 1) with (start_block m) by lia. apply Z.mod_small. lia. }
  pose proof (sync_block flowing s1 _ Y1) as Sb. cbn [sync_last sync_start sync_end] in Sb. rewrite N, Z.eqb_refl in Sb.
  specialize (Sb (fun b ch F => flowing_enqueued (a_block b) ch eq_refl F)). unfold mbind, M_bind.
  destruct (enqueue_sync_block pack s1) as [s2 r | s2 e |]; [| | exact I]; destruct Sb as [Fl Y2]; intros [F _]; rewrite E1 in Fl;
    (split; [exact (Fl F) |]); unfold sync_ok; cbn; rewrite Y2; destruct (Z.eqb_spec (start_block m) (end_block m)); cbn; (exact I || lia).
Qed.

(** A write is done: the next begins. *)
Lemma flowing_do ch : paused ch -> exists ch', do_queue_write ch = Ret ch' tt /\ flowing ch'.
Proof using.
  intros [[D O E] W]. unfold do_queue_write. unfold mbind at 1, M_bind at 1, gets. destruct (write_queue ch) as [| x q] eqn:Q.
  - exists ch. split; [reflexivity |]. split; [split; rewrite ?Q; assumption | rewrite Q; exact W].
  - eexists. split; [reflexivity |]. split; [split |]; cbn [write_queue write_depth writing written accepted]; rewrite ?Q; auto.
    + rewrite W in D |- *. cbn [app length] in *. lia.
    + rewrite W. reflexivity.
Qed.

(** The end of the report of a write. *)
Lemma flows_next s : paused (ch_of s) -> sync_ok (conn s) ->
  match ((enqueue_sync_block pack ;; on_channel do_queue_write) : M session unit) s with
  | Ret s' _ | Exc s' _ => good s'
  | Undef => True
  end.
Proof using.
  intros P Y.
  assert (G : forall s1, paused (ch_of s1) -> sync_ok (conn s1) -> match on_channel do_queue_write s1 with Ret s' _ | Exc s' _ => good s' | Undef => True end).
  { intros s1 P1 Y1. destruct (flowing_do (ch_of s1) P1) as (ch & R & F). unfold on_channel. rewrite R. unfold good, sync_ok in *.
    destruct s1 as [c [] n]. cbn in *. split; [exact F | exact Y1]. }
  unfold mbind, M_bind. destruct (sync_requested (conn s)) as [y |] eqn:Ys.
  - unfold sync_ok in Y. rewrite Ys in Y. pose proof (sync_block paused s y Ys) as Sb.
    assert (N : u32 (sync_last y + 1) = sync_last y + 1) by (unfold u32; apply Z.mod_small; lia). rewrite N in Sb.
    destruct (Z.eqb_spec (sync_last y + 1) (sync_start y)); [lia |]. specialize (Sb (fun b ch F => paused_enqueued (a_block b) ch eq_refl F)).
    destruct (enqueue_sync_block pack s) as [s1 r | s1 e |] eqn:En; [| | exact I].
    + destruct Sb as [P1 Y1]. apply G; [exact (P1 P) |]. unfold sync_ok. rewrite Y1. destruct (Z.eqb_spec (sync_last y + 1) (sync_end y)); cbn; (exact I || lia).
    + exfalso. unfold enqueue_sync_block in En. unfold mbind at 1, M_bind at 1, gets in En. rewrite Ys in En. cbv zeta in En.
      unfold mbind at 1, M_bind at 1, update in En. unfold catch_all in En.
      match type of En with match ?m with _ => _ end = _ => destruct m; discriminate En end.
  - unfold enqueue_sync_block. unfold mbind, M_bind, gets. rewrite Ys. exact (G s P Y).
Qed.

(** The session when the front of its queue has been sent. *)
Definition popped (s : session) : session :=
  let ch := ch_of s in
  on_conn (set_chan (Channel (tl (write_queue ch)) (write_depth ch + -1 + -1) [] (written ch ++ map buff (take 1 (write_queue ch))) (accepted ch))) s.

Lemma popped_fields s : sync_requested (conn (popped s)) = sync_requested (conn s) /\ controller (popped s) = controller s.
Proof using. destruct s as [c [] n]. auto. Qed.

Lemma popped_paused s x q : good s -> write_queue (ch_of s) = x :: q -> paused (ch_of (popped s)).
Proof using.
  intros [[[D O E] W] _] Q. unfold popped. cbn [conn on_conn]. rewrite set_chan_chan.
  rewrite Q in *. cbn [tl take map length] in *. rewrite W, take_0 in *. cbn [map length] in *. apply Forall_cons in O as [_ O].
  split; [split | reflexivity]; cbn [write_queue writing write_depth written accepted length].
  - lia.
  - exact O.
  - rewrite <- app_assoc. exact E.
Qed.

(** What a report without an error does before the next block is looked for. *)
Lemma report_runs s x q : good s -> write_queue (ch_of s) = x :: q ->
  write_reported pack false s = catch_all (enqueue_sync_block pack ;; on_channel do_queue_write) (mret tt) (popped s).
Proof using.
  intros [[[D O E] W] _] Q. unfold write_reported, catch_all, popped. unfold mbind at 1, M_bind at 1, gets. rewrite W, Q. cbn [take map tl]. rewrite take_0. cbn [map].
  rewrite Q in O. apply Forall_cons in O as [Ox _]. rewrite Ox.
  destruct s as [c [ch sy b2 b3 b4 b5 b6 b7 b8 b9 b10 b11 b12 b13] n]. destruct ch as [q' d w wr ac].
  cbn [chan conn write_queue writing write_depth written accepted] in *. subst q' w. reflexivity.
Qed.

Lemma flows_report : follows flows (write_reported pack false).
Proof using.
  intros s. destruct (write_queue (ch_of s)) as [| x q] eqn:Q.
  - assert (E : good s -> write_reported pack false s = Ret s tt).
    { intros [[_ W] _]. rewrite Q in W. unfold write_reported, catch_all. unfold mbind at 1, M_bind at 1, gets. rewrite W. reflexivity. }
    destruct (write_reported pack false s) eqn:R; [| | exact I]; intros G; specialize (E G); [injection E as ->; exact G | discriminate E].
  - assert (E : good s -> match write_reported pack false s with Ret s' _ | Exc s' _ => good s' | Undef => True end).
    { intros G. rewrite (report_runs s x q G Q). unfold catch_all.
      pose proof (flows_next (popped s) (popped_paused s x q G Q)) as N. destruct (popped_fields s) as [Y _]. unfold sync_ok at 1 in N. rewrite Y in N.
      specialize (N (proj2 G)). match goal with |- match match ?m with _ => _ end with _ => _ end => destruct m; exact N end. }
    destruct (write_reported pack false s); [exact E .. | exact I].
Qed.

(** ** Runs that nothing closes *)

Definition smooth (e : connection_event) : Prop :=
  match e with
  | enqueues m => is_leave m = false
  | reports ec => ec = false
  | dialled err _ _ => err = false
  | closes | leaves _ => False
  | sync_asked m => 0 <= start_block m <= end_block m /\ 0 < end_block m < 2 ^ 32
  | _ => True
  end.

Lemma flows_happens e : smooth e -> follows flows (happens e).
Proof using.
  destruct e as [m | b | l | | ec | | | m | m | | err more now]; cbn [smooth Connection.happens]; intros Sm.
  - apply flows_enqueue, Sm.
  - apply flows_conn; intros []; reflexivity.
  - apply flows_conn; intros []; reflexivity.
  - unfold send_pending_block. follow; try (apply flows_enqueue; reflexivity). apply flows_conn; intros []; reflexivity.
  - subst ec. apply flows_report.
  - unfold fetch_timeout, cancel_fetch. follow. apply flows_enqueue; reflexivity.
  - destruct Sm.
  - destruct Sm.
  - apply flows_sync_asked; apply Sm.
  - unfold connect, connect_to. follow; apply flows_conn; intros []; reflexivity.
  - subst err. unfold connect_done, send_handshake. cbn [negb]. cbv zeta. follow; try (apply flows_enqueue; reflexivity); apply flows_conn; reflexivity.
Qed.

Lemma flows_goes_on l : Forall smooth l -> follows flows (goes_on l).
Proof using.
  induction l as [| e l IH]; intros Sm; [apply follows_ret; exact _ |]. apply Forall_cons in Sm as [Se Sl].
  unfold Connection.goes_on. cbn [for_each]. apply follows_bind; [exact _ | apply flows_happens, Se | intros _; apply IH, Sl].
Qed.

(** Without a sync request each report sends one more of what is queued. *)
Lemma drain_step s x q : good s -> sync_requested (conn s) = None -> write_queue (ch_of s) = x :: q ->
  exists s', write_reported pack false s = Ret s' tt /\ good s' /\ sync_requested (conn s') = None /\ write_queue (ch_of s') = q /\
    written (ch_of s') = written (ch_of s) ++ [buff x] /\ accepted (ch_of s') = accepted (ch_of s).
Proof using.
  intros G Y Q. pose proof (popped_paused s x q G Q) as P. destruct (popped_fields s) as [Yp _].
  assert (Sp : ch_of (popped s) = Channel q (write_depth (ch_of s) + -1 + -1) [] (written (ch_of s) ++ [buff x]) (accepted (ch_of s))).
  { unfold popped. cbn [conn on_conn]. rewrite set_chan_chan, Q. cbn [tl take map]. rewrite take_0. reflexivity. }
  rewrite (report_runs s x q G Q). unfold catch_all. rewrite Y in Yp.
  assert (E : (enqueue_sync_block pack : M session bool) (popped s) = Ret (popped s) false) by (unfold enqueue_sync_block, mbind, M_bind, gets; rewrite Yp; reflexivity).
  rewrite (mbind_ret _ _ _ _ _ E). destruct (flowing_do _ P) as (ch & R & F). unfold on_channel. rewrite R.
  exists (on_conn (set_chan ch) (popped s)). split; [reflexivity |].
  assert (C : ch_of (on_conn (set_chan ch) (popped s)) = ch) by (cbn [conn on_conn]; apply set_chan_chan).
  assert (Y2 : sync_requested (conn (on_conn (set_chan ch) (popped s))) = None) by (rewrite <- Yp; destruct (popped s) as [c [] n]; reflexivity).
  unfold good, sync_ok. rewrite C, Y2. split; [auto |]. split; [reflexivity |].
  rewrite Sp in R. unfold do_queue_write, add_depth, mbind, M_bind, gets, update in R. cbn in R.
  destruct q as [| z q]; injection R as <-; auto.
Qed.

Lemma drained q : forall s, good s -> sync_requested (conn s) = None -> write_queue (ch_of s) = q ->
  exists s', goes_on (replicate (length q) (reports false)) s = Ret s' tt /\ good s' /\ write_queue (ch_of s') = [] /\
    written (ch_of s') = map frame (accepted (ch_of s)).
Proof using.
  induction q as [| x q IH]; intros s G Y Q; cbn [length replicate]; unfold Connection.goes_on; cbn [for_each].
  - exists s. split; [reflexivity |]. split; [exact G |]. split; [exact Q |]. destruct G as [[[_ _ E] _] _]. rewrite Q in E. cbn [map] in E.
    rewrite app_nil_r in E. exact E.
  - cbn [Connection.happens]. destruct (drain_step s x q G Y Q) as (s1 & R & G1 & Y1 & Q1 & _ & A1). rewrite (mbind_ret _ _ _ _ _ R).
    destruct (IH s1 G1 Y1 Q1) as (s2 & R2 & G2 & Q2 & W2). exists s2. rewrite A1 in W2. auto.
Qed.

Lemma flowing_written ch : flowing ch -> let k := length (written ch) in
  written ch = map frame (take k (accepted ch)) /\ map buff (write_queue ch) = map frame (drop k (accepted ch)) /\
  writing ch = take 1 (map frame (drop k (accepted ch))).
Proof using.
  intros [[_ _ E] W] k.
  assert (Ew : written ch = map frame (take k (accepted ch))) by (rewrite <- firstn_map, <- E; symmetry; apply take_app_length).
  assert (Eq : map buff (write_queue ch) = map frame (drop k (accepted ch))) by (rewrite <- skipn_map, <- E; symmetry; apply drop_app_length).
  split; [exact Ew |]. split; [exact Eq |]. rewrite W, <- Eq. destruct (write_queue ch); [reflexivity | cbn; rewrite !take_0; reflexivity].
Qed.
(** *** What was said *)

Definition grows (s s' : session) : Prop := accepted (ch_of s) `prefix_of` accepted (ch_of s').
#[local] Instance grows_preorder : PreOrder grows.
Proof. split; [intros a; unfold grows; reflexivity | intros a b c; unfold grows; etransitivity; eassumption]. Qed.

Lemma grows_conn f : (forall c, chan (f c) = chan c) -> follows grows (update (on_conn f)).
Proof using. intros E. apply follows_update. intros s. unfold grows. cbn. rewrite E. reflexivity. Qed.

Lemma grows_chain {A} (m : M chain_context A) : follows grows (on_chain m).
Proof using. intros s. unfold on_chain. destruct (m (controller s)); [unfold grows; reflexivity .. | exact I]. Qed.

Definition keeps_accepted (ch ch' : channel) : Prop := accepted ch' = accepted ch.
#[local] Instance keeps_accepted_preorder : PreOrder keeps_accepted.
Proof. split; [intros a; reflexivity | intros a b c E1 E2; unfold keeps_accepted in *; congruence]. Qed.

Lemma grows_channel {A} (m : M channel A) : follows keeps_accepted m -> follows grows (on_channel m).
Proof using.
  intros Hm s. specialize (Hm (ch_of s)). unfold on_channel. destruct (m (ch_of s)); [| | exact I];
    unfold grows; cbn; rewrite set_chan_chan, Hm; reflexivity.
Qed.

Lemma accepted_enqueued m trigger ch : accepted (enqueued m trigger ch) = accepted ch ++ [m].
Proof using. unfold enqueued. destruct (_ && _); reflexivity. Qed.

Lemma grows_enqueue m trigger : follows grows (msg_enqueue m trigger).
Proof using.
  intros s. destruct (msg_enqueue_runs m trigger s) as (s' & -> & C & _). unfold grows. rewrite C, accepted_enqueued. apply prefix_app_r. reflexivity.
Qed.
Local Hint Resolve grows_preorder grows_enqueue grows_chain keeps_accepted_preorder : follow.

Lemma grows_flush : follows grows (on_channel flush_queues).
Proof using. apply grows_channel, follows_update. reflexivity. Qed.

Lemma grows_do : follows grows (on_channel do_queue_write).
Proof using. apply grows_channel. unfold do_queue_write, add_depth. follow; apply follows_update; reflexivity. Qed.

Lemma grows_reset : follows grows conn_close.
Proof using.
  unfold conn_close. apply follows_bind; [exact _ | apply grows_flush |]. intros _.
  apply follows_bind; [exact _ | apply follows_gets; exact _ |]. intros s.
  destruct (MessageBuffer.reset _); [apply grows_conn; reflexivity | apply follows_undefined ..].
Qed.

Lemma grows_close : follows grows plugin_close.
Proof using.
  unfold plugin_close. apply follows_bind; [exact _ | | intros _; apply grows_reset].
  apply follows_update. intros s. destruct (String.eqb _ _); unfold grows; reflexivity.
Qed.

Lemma grows_dial : follows grows connect_to.
Proof using. unfold connect_to. follow. apply grows_conn. intros []; reflexivity. Qed.

Lemma grows_sync : follows grows (enqueue_sync_block pack).
Proof using. unfold enqueue_sync_block. follow. apply grows_conn. intros []; reflexivity. Qed.
Local Hint Resolve grows_flush grows_do grows_close grows_sync : follow.

Lemma grows_report ec : follows grows (write_reported pack ec).
Proof using.
  unfold write_reported, add_depth. follow; apply grows_channel, follows_update; reflexivity.
Qed.

Lemma grows_happens e : follows grows (happens e).
Proof using.
  destruct e as [m | b | l | | ec | | | m | m | | err more now]; cbn [Connection.happens].
  - apply grows_enqueue.
  - apply grows_conn. intros []; reflexivity.
  - apply grows_conn. intros []; reflexivity.
  - unfold send_pending_block. follow. apply grows_conn. intros []; reflexivity.
  - apply grows_report.
  - unfold fetch_timeout, cancel_fetch. follow.
  - apply grows_close.
  - unfold handle_leave. follow; apply grows_conn; intros []; reflexivity.
  - unfold handle_sync_request. follow; apply grows_conn; intros []; reflexivity.
  - unfold connect. follow; try apply grows_dial.
  - unfold connect_done, send_handshake. cbv zeta. follow; try apply grows_dial; try apply grows_reset; apply grows_conn; intros []; reflexivity.
Qed.

Definition said (e : connection_event) : list net_message := match e with enqueues m => [m] | _ => [] end.

Lemma said_accepted evs : forall s s', goes_on evs s = Ret s' tt ->
  exists l, accepted (ch_of s') = accepted (ch_of s) ++ l /\ concat (map said evs) `sublist_of` l.
Proof using.
  induction evs as [| e evs IH]; intros s s' R.
  - injection R as <-. exists []. rewrite app_nil_r. split; [reflexivity | constructor].
  - unfold Connection.goes_on in R. cbn [for_each] in R. unfold mbind, M_bind in R.
    destruct (happens e s) as [s1 [] | |] eqn:E; [| discriminate R ..]. destruct (IH s1 s' R) as (l & -> & Sub).
    assert (G : exists l1, accepted (ch_of s1) = accepted (ch_of s) ++ l1 /\ said e `sublist_of` l1).
    { assert (G : grows s s1) by (pose proof (grows_happens e s) as G; rewrite E in G; exact G).
      destruct e; try (destruct G as [l1 ->]; exists l1; split; [reflexivity | apply sublist_nil_l]; fail).
      cbn [Connection.happens] in E. destruct (msg_enqueue_runs m true s) as (s2 & R2 & C & _). rewrite R2 in E. injection E as <-.
      exists [m]. rewrite C, accepted_enqueued. split; reflexivity. }
    destruct G as (l1 & -> & Sub1). exists (l1 ++ l). rewrite app_assoc. split; [reflexivity |].
    cbn [map concat]. apply sublist_app; assumption.
Qed.

(** *** Closing *)

Definition sane (mb : message_buffer) : Prop := chain_size mb = sanity_check mb /\ chain_size mb <= 1000000.

Lemma reset_sane mb : sane mb -> exists b, MessageBuffer.reset mb = Ret b tt /\ sane b.
Proof using.
  intros [E L]. unfold MessageBuffer.reset, gets, update, mbind, M_bind, id. cbn. rewrite <- E, Z.eqb_refl. cbn [negb orb].
  destruct (Z.ltb_spec 1000000 (chain_size mb)); [lia |]. eexists. split; [reflexivity |]. unfold sane, chain_size in *. cbn [buffers sanity_check] in *.
  rewrite <- E, length_take, length_drop. lia.
Qed.

Definition flushed (ch : channel) : channel :=
  Channel (if 0 <? write_depth ch then take 1 (write_queue ch) else []) (write_depth ch) (writing ch) (written ch) (accepted ch).

Lemma plugin_close_runs s : sane (pending_message_buffer (conn s)) -> exists s', plugin_close s = Ret s' tt /\
  ch_of s' = flushed (ch_of s) /\ sync_requested (conn s') = None /\ is_open (conn s') = false /\ sane (pending_message_buffer (conn s')).
Proof using.
  intros Sn. destruct (reset_sane _ Sn) as (b & R & Sb). unfold plugin_close. unfold mbind at 1, M_bind at 1, update. set (s1 := if String.eqb _ _ then _ else _).
  assert (E : conn s1 = conn s) by (subst s1; destruct (String.eqb _ _); reflexivity). clearbody s1. rewrite <- E in *. clear s E.
  unfold conn_close. unfold mbind at 1, M_bind at 1, on_channel at 1, flush_queues, update. fold (flushed (ch_of s1)).
  assert (P : pending_message_buffer (set_chan (flushed (ch_of s1)) (conn s1)) = pending_message_buffer (conn s1)) by (destruct s1 as [c [] n]; reflexivity).
  unfold mbind, M_bind, gets. cbn [conn on_conn]. rewrite P, R.
  eexists. split; [reflexivity |]. cbn. rewrite set_chan_chan. auto.
Qed.

(** A report with an error, for the only write there is. *)
Lemma error_runs s x q w : write_queue (ch_of s) = x :: q -> writing (ch_of s) = [w] -> close_after_send x = false ->
  sane (pending_message_buffer (conn s)) -> exists s', write_reported pack true s = Ret s' tt /\
  ch_of s' = flushed (Channel (x :: q) (write_depth (ch_of s) - 2) [] (written (ch_of s)) (accepted (ch_of s))) /\
  sync_requested (conn s') = None /\ sane (pending_message_buffer (conn s')).
Proof using.
  intros Q W Cx Sn. unfold write_reported, catch_all. unfold mbind at 1, M_bind at 1, gets. rewrite W, Q, Cx.
  destruct s as [c [ch sy b2 b3 b4 b5 b6 b7 b8 b9 b10 b11 b12 b13] n]. destruct ch as [q' d w' wr ac].
  cbn [chan conn write_queue writing write_depth written accepted pending_message_buffer] in *. subst q' w'.
  set (s2 := Session c (Conn (Channel (x :: q) (d - 2) [] wr ac) sy b2 b3 b4 b5 b6 b7 b8 b9 b10 b11 b12 b13) n).
  destruct (plugin_close_runs s2 Sn) as (s3 & R & C & Y & _ & S3). exists s3. split; [| auto].
  assert (E : Session c (Conn (Channel (x :: q) (d + -1 + -1) [] wr ac) sy b2 b3 b4 b5 b6 b7 b8 b9 b10 b11 b12 b13) n = s2)
    by (subst s2; do 3 f_equal; lia).
  unfold mbind, M_bind, on_channel, add_depth, update, on_conn, set_chan. cbn [chan conn write_queue writing write_depth written accepted controller num_clients mret M_ret].
  rewrite E, R. reflexivity.
Qed.

(** The connection is closed while a write goes on, which then fails. *)
Lemma closed_runs s x q : good s -> write_queue (ch_of s) = x :: q -> sane (pending_message_buffer (conn s)) ->
  exists s', goes_on [closes; reports true] s = Ret s' tt /\ sync_requested (conn s') = None /\
    ch_of s' = Channel (if decide (q = []) then [] else [x]) (Z.of_nat (length q)) [] (written (ch_of s)) (accepted (ch_of s)).
Proof using.
  intros [[[D O E] W] _] Q Sn. unfold Connection.goes_on. cbn [for_each Connection.happens].
  rewrite Q in *. cbn [take map length] in *. rewrite take_0 in W. cbn [map] in W. rewrite W in D. cbn [length] in D. apply Forall_cons in O as [Ox _].
  destruct (plugin_close_runs s Sn) as (s1 & R1 & C1 & _ & _ & S1). rewrite (mbind_ret _ _ _ _ _ R1).
  assert (C1' : ch_of s1 = Channel [x] (Z.of_nat (length q) + 2) [buff x] (written (ch_of s)) (accepted (ch_of s))).
  { rewrite C1. unfold flushed. rewrite Q, W. destruct (Z.ltb_spec 0 (write_depth (ch_of s))); [| lia]. cbn [take]. rewrite take_0. f_equal. lia. }
  destruct (error_runs s1 x [] (buff x)) as (s2 & R2 & C2 & Y2 & _); [rewrite C1'; reflexivity .. | exact Ox | exact S1 |].
  rewrite (mbind_ret _ _ _ _ _ R2). exists s2. split; [reflexivity |]. split; [exact Y2 |]. rewrite C2, C1'. unfold flushed.
  cbn [write_queue writing write_depth written accepted take]. replace (Z.of_nat (length q) + 2 - 2) with (Z.of_nat (length q)) by lia.
  destruct q as [| z q]; case_decide; try congruence; cbn; reflexivity.
Qed.

(** *** Blocks that a peer asked for *)

Definition sync_left (start_block end_block last : Z) : option sync_state :=
  if last =? end_block then None else Some (SyncState start_block end_block last).

Lemma sync_block_runs s y b : sync_requested (conn s) = Some y -> let num := u32 (sync_last y + 1) in
  block_from_num num (controller s) = Ret (controller s) b ->
  exists s', enqueue_sync_block pack s = Ret s' true /\ ch_of s' = enqueued (a_block b) (num =? sync_start y) (ch_of s) /\
    sync_requested (conn s') = sync_left (sync_start y) (sync_end y) num /\ controller s' = controller s.
Proof using.
  intros Y num B. unfold enqueue_sync_block. unfold mbind at 1, M_bind at 1, gets. rewrite Y. cbv zeta. fold num.
  unfold mbind at 1, M_bind at 1, update. set (s1 := on_conn _ s).
  assert (E : ch_of s1 = ch_of s /\ controller s1 = controller s /\ sync_requested (conn s1) = sync_left (sync_start y) (sync_end y) num)
    by (subst s1; destruct s as [c [] n]; auto).
  clearbody s1. destruct E as (E1 & E2 & E3). rewrite <- E1, <- E2, <- E3. rewrite <- E2 in B.
  unfold catch_all. unfold mbind at 1, M_bind at 1. unfold on_chain. rewrite B.
  destruct (msg_enqueue_runs (a_block b) (num =? sync_start y) (Session (controller s1) (conn s1) (num_clients s1))) as (s2 & R & C2 & K2 & Y2 & _).
  rewrite (mbind_ret _ _ _ _ _ R). exists s2. cbn in *. auto.
Qed.

Lemma enqueued_idle m ch : is_leave m = false -> write_queue ch = [] ->
  write_queue (enqueued m true ch) = [Queued (frame m) false] /\ accepted (enqueued m true ch) = accepted ch ++ [m].
Proof using. intros L Q. unfold enqueued. rewrite Q, L. auto. Qed.

(** The first block begins to be written. *)
Lemma sync_begins s m b : good s -> write_queue (ch_of s) = [] -> 0 <= start_block m <= end_block m -> 0 < end_block m < 2 ^ 32 ->
  block_from_num (start_block m) (controller s) = Ret (controller s) b ->
  exists s', handle_sync_request pack m s = Ret s' tt /\ good s' /\ write_queue (ch_of s') = [Queued (frame (a_block b)) false] /\
    sync_requested (conn s') = sync_left (start_block m) (end_block m) (start_block m) /\
    accepted (ch_of s') = accepted (ch_of s) ++ [a_block b] /\ controller s' = controller s.
Proof using.
  intros G Q L1 L2 B. pose proof (flows_sync_asked m L1 L2 s) as Fl. unfold handle_sync_request in *. destruct (Z.eqb_spec (end_block m) 0); [lia |].
  set (s1 := on_conn (set_sync (Some (SyncState (start_block m) (end_block m) (u32 (start_block m - 1))))) s).
  rewrite (mbind_ret _ _ s s1 tt) in Fl |- * by reflexivity.
  assert (E1 : ch_of s1 = ch_of s /\ controller s1 = controller s /\
    sync_requested (conn s1) = Some (SyncState (start_block m) (end_block m) (u32 (start_block m - 1)))) by (subst s1; destruct s as [c [] n0]; auto).
  clearbody s1. destruct E1 as (E1 & E2 & Y1). pose proof (sync_block_runs s1 _ b Y1) as Sb. cbn [sync_last sync_start sync_end] in Sb.
  assert (N : u32 (u32 (start_block m - 1) + 1) = start_block m).
  { unfold u32. rewrite Zplus_mod_idemp_l. replace (start_block m - 1 + 1) with (start_block m) by lia. apply Z.mod_small. lia. }
  rewrite N, Z.eqb_refl, E1, E2 in Sb. destruct (Sb B) as (s2 & R & C2 & Y2 & K2).
  rewrite (mbind_ret _ _ _ _ _ R) in Fl |- *. destruct (enqueued_idle (a_block b) (ch_of s) eq_refl Q) as [Q2 A2]. rewrite <- C2 in Q2, A2.
  exists s2. split; [reflexivity |]. split; [exact (Fl G) | auto].
Qed.

(** Each block that was sent fetches the next. *)
Lemma sync_continues s x y b : good s -> write_queue (ch_of s) = [x] -> sync_requested (conn s) = Some y ->
  block_from_num (sync_last y + 1) (controller s) = Ret (controller s) b ->
  exists s', write_reported pack false s = Ret s' tt /\ good s' /\ write_queue (ch_of s') = [Queued (frame (a_block b)) false] /\
    sync_requested (conn s') = sync_left (sync_start y) (sync_end y) (sync_last y + 1) /\
    accepted (ch_of s') = accepted (ch_of s) ++ [a_block b] /\ controller s' = controller s.
Proof using.
  intros G Q Y B. pose proof (flows_report s) as Fl. destruct (popped_fields s) as [Yp Kp]. rewrite (report_runs s x [] G Q) in Fl |- *.
  pose proof (proj2 G) as Ok. unfold sync_ok in Ok. rewrite Y in Ok.
  assert (N : u32 (sync_last y + 1) = sync_last y + 1) by (unfold u32; apply Z.mod_small; lia).
  destruct (sync_block_runs (popped s) y b) as (s1 & R1 & C1 & Y1 & K1); [rewrite Yp; exact Y | rewrite N, Kp; exact B |].
  rewrite N in C1, Y1. destruct (Z.eqb_spec (sync_last y + 1) (sync_start y)); [lia |].
  assert (C : ch_of s1 = Channel [Queued (frame (a_block b)) false] (write_depth (ch_of s) + -1 + -1 + 1) [] (written (ch_of s) ++ [buff x])
                        (accepted (ch_of s) ++ [a_block b])).
  { rewrite C1. unfold popped. cbn [conn on_conn]. rewrite set_chan_chan, Q. reflexivity. }
  unfold catch_all in *. rewrite (mbind_ret _ _ _ _ _ R1) in Fl |- *. unfold on_channel in *. rewrite C in Fl |- *.
  unfold do_queue_write, add_depth, mbind, M_bind, gets, update in Fl |- *. cbn in Fl |- *.
  eexists. split; [reflexivity |]. split; [exact (Fl G) |].
  destruct s1 as [c1 [] n1]. cbn in *. subst. auto.
Qed.

Lemma blocks_follow (blocks : Z -> signed_block) start_block end_block k : 0 <= start_block -> end_block < 2 ^ 32 -> forall s x last,
  good s -> write_queue (ch_of s) = [x] -> sync_requested (conn s) = sync_left start_block end_block last ->
  start_block <= last -> last + Z.of_nat k = end_block ->
  (forall i, last < i <= end_block -> block_from_num i (controller s) = Ret (controller s) (blocks i)) ->
  exists s', goes_on (replicate (S k) (reports false)) s = Ret s' tt /\ good s' /\ write_queue (ch_of s') = [] /\ sync_requested (conn s') = None /\
    accepted (ch_of s') = accepted (ch_of s) ++ map (fun i => a_block (blocks (last + 1 + Z.of_nat i))) (seq 0 k).
Proof using.
  intros L0 L1. induction k as [| k IH]; intros s x last G Q Y L2 L3 B; cbn [replicate]; unfold Connection.goes_on; cbn [for_each Connection.happens];
    unfold sync_left in Y; destruct (Z.eqb_spec last end_block); try lia.
  - destruct (drain_step s x [] G Y Q) as (s1 & R & G1 & Y1 & Q1 & _ & A1). rewrite (mbind_ret _ _ _ _ _ R).
    exists s1. cbn [seq map]. rewrite app_nil_r. auto.
  - destruct (sync_continues s x _ (blocks (last + 1)) G Q Y) as (s1 & R & G1 & Q1 & Y1 & A1 & K1); [cbn [sync_last]; apply B; lia |].
    cbn [sync_last sync_start sync_end] in Y1. rewrite (mbind_ret _ _ _ _ _ R).
    destruct (IH s1 _ (last + 1) G1 Q1 Y1) as (s2 & R2 & G2 & Q2 & Y2 & A2); [lia .. | intros i Li; rewrite K1; apply B; lia |].
    exists s2. split; [exact R2 |]. split; [exact G2 |]. split; [exact Q2 |]. split; [exact Y2 |].
    rewrite A2, A1, <- app_assoc. f_equal. cbn [seq map app]. f_equal; [f_equal; f_equal; lia |].
    rewrite <- seq_shift, map_map. apply map_ext. intros i. f_equal. f_equal. lia.
Qed.

End Order.
