(* ===== verification/PeerMessagesThm.v ===== *)
(** How the handshake of a peer is answered and how the blocks it lacks are
    sent. *)

From Stdlib Require Import ZArith Lia Bool String List.
From stdpp Require Import base decidable list.
From S2P Require Import Prelude ChainUtils Block BlockPack Effects SystemContract Objects ForkDb Chain Protocol MessageBuffer PeerReading PeerReadingThm.
From S2P Require Import Connection ConnectionThm PeerMessages.
Import ListNotations.
Local Open Scope Z_scope.

Section Reads.
Context `{Crypto}.

Lemma on_chain_ret {A} (m : M chain_context A) s a : m (controller s) = Ret (controller s) a -> on_chain m s = Ret s a.
Proof using. unfold on_chain. intros ->. destruct s. reflexivity. Qed.

(** The numbers after [first], as many as there are up to [last]. *)
Definition after (first last : Z) (blocks : Z -> signed_block) : list signed_block :=
  map (fun i => blocks (first + 1 + Z.of_nat i)) (seq 0 (Z.to_nat (last - first))).

Lemma after_length first last blocks : length (after first last blocks) = Z.to_nat (last - first).
Proof using. unfold after. rewrite length_map, length_seq. reflexivity. Qed.

Lemma after_snoc first last blocks : 0 <= first <= last -> after first (last + 1) blocks = after first last blocks ++ [blocks (last + 1)].
Proof using.
  intros L. unfold after. replace (Z.to_nat (last + 1 - first)) with (Z.to_nat (last - first) + 1)%nat by lia.
  rewrite seq_app, map_app. cbn [seq map]. do 3 f_equal. lia.
Qed.

Lemma sync_loop_runs c first blocks : 0 <= first -> forall n acc,
  (forall i, first < i <= Z.of_nat n -> block_from_num i c = Ret c (blocks i)) ->
  sync_loop n first acc c = Ret c (after first (Z.of_nat n) blocks ++ acc).
Proof using.
  intros L0. induction n as [| n IH]; intros acc B.
  - unfold after. replace (Z.to_nat (Z.of_nat 0 - first)) with 0%nat by lia. reflexivity.
  - cbn [sync_loop]. destruct (Z.ltb_spec first (Z.of_nat (S n))).
    + rewrite (mbind_ret _ _ _ _ _ (B (Z.of_nat (S n)) ltac:(lia))). rewrite IH by (intros i Li; apply B; lia).
      replace (Z.of_nat (S n)) with (Z.of_nat n + 1) by lia. rewrite after_snoc, <- app_assoc by lia. reflexivity.
    + unfold after. replace (Z.to_nat (Z.of_nat (S n) - first)) with 0%nat by lia. reflexivity.
Qed.

Lemma syncblock_runs c hd first blocks : head_block c = Ret c hd -> 0 <= first < block_num hd ->
  (forall i, first < i <= block_num hd -> block_from_num i c = Ret c (blocks i)) ->
  get_syncblock_from_lastnum first c = Ret c (after first (block_num hd) blocks).
Proof using.
  intros Hd L B. unfold get_syncblock_from_lastnum. rewrite (mbind_ret _ _ _ _ _ Hd).
  assert (R : sync_loop (Z.to_nat (block_num hd)) first [] c = Ret c (after first (block_num hd) blocks)).
  { rewrite (sync_loop_runs c first blocks) by (lia || (intros i Li; apply B; lia)). rewrite app_nil_r, Z2Nat.id by lia. reflexivity. }
  rewrite (mbind_ret _ _ _ _ _ R). pose proof (after_length first (block_num hd) blocks) as Ln.
  destruct (after first (block_num hd) blocks); [cbn in Ln; lia | reflexivity].
Qed.
End Reads.

Section Answers.
Context `{Crypto} (pack : net_message -> list Z) (my : plugin) (hash_time : Z -> sha256) (str : sha256 -> string).

Local Abbreviation goes_on := (Connection.goes_on pack my hash_time str).
Local Abbreviation frame := (PeerReadingThm.frame pack).
Local Abbreviation good := (ConnectionThm.good pack).

Lemma written_enqueued m trigger ch : written (enqueued pack m trigger ch) = written ch.
Proof using. unfold enqueued. destruct (_ && _); reflexivity. Qed.

(** ** The pending blocks *)

(** The session where [l] was queued after what [s] has queued, and the blocks
    [rest] are pending. *)
Record queues (l : list net_message) (rest : list signed_block) (s s' : session) : Prop := {
  q_good : good s';
  q_accepted : accepted (ch_of s') = accepted (ch_of s) ++ l;
  q_written : written (ch_of s') = written (ch_of s);
  q_sync : sync_requested (conn s') = sync_requested (conn s);
  q_pending : pending_block_list (conn s') = rest;
  q_recv : last_handshake_recv (conn s') = last_handshake_recv (conn s) }.

Lemma recv_enqueue m trigger s s' : Connection.msg_enqueue pack m trigger s = Ret s' tt -> last_handshake_recv (conn s') = last_handshake_recv (conn s).
Proof using.
  unfold Connection.msg_enqueue. intros R. unfold mbind at 1, M_bind at 1 in R.
  assert (E : forall f s1, last_handshake_recv (conn (on_conn (set_chan f) s1)) = last_handshake_recv (conn s1)) by (intros f [c [] n]; reflexivity).
  assert (C : forall (k : M channel unit) s1, on_channel k s1 = Ret s' tt -> last_handshake_recv (conn s') = last_handshake_recv (conn s1)).
  { intros k s1 Ek. unfold on_channel in Ek. destruct (k (ch_of s1)) as [ch [] | |]; [| discriminate Ek ..]. injection Ek as <-. apply E. }
  destruct m; try exact (C _ _ R). cbn [update] in R. apply C in R. rewrite R. destruct s as [c [] n]. reflexivity.
Qed.

Lemma queues_block b bs s : good s -> pending_block_list (conn s) = b :: bs ->
  exists s', (Connection.msg_enqueue pack (a_block b) true ;; update (on_conn (fun c => set_blocks (tl (pending_block_list c)) c))) s = Ret s' tt /\
    queues [a_block b] bs s s'.
Proof using.
  intros G P. destruct (msg_enqueue_runs pack (a_block b) true s) as (s1 & R & C & K & Y & Pb).
  pose proof (flows_enqueue pack (a_block b) eq_refl s) as Fl. rewrite R in Fl. specialize (Fl G). pose proof (recv_enqueue _ _ _ _ R) as Rv.
  rewrite (mbind_ret _ _ _ _ _ R). eexists. split; [reflexivity |]. rewrite P in Pb.
  destruct s1 as [c1 [ch1 y1 o1 m1 p1 i1 r1 h1 n1 g1 z1 a1 f1 t1] k1]. cbn in Rv, Y, Pb, C, Fl |- *. subst p1 ch1. split; cbn; auto using accepted_enqueued, written_enqueued.
Qed.

Lemma queues_trans l1 l2 r1 r2 s s1 s2 : queues l1 r1 s s1 -> queues l2 r2 s1 s2 -> queues (l1 ++ l2) r2 s s2.
Proof using. intros [G1 A1 W1 Y1 P1 R1] [G2 A2 W2 Y2 P2 R2]. split; try congruence. rewrite A2, A1, app_assoc. reflexivity. Qed.

(** A tick of the timer queues ten blocks, or all there are. *)
Lemma tick_runs l : forall s, good s -> pending_block_list (conn s) = l ->
  exists s', Connection.happens pack my hash_time str pending_timer s = Ret s' tt /\ queues (map a_block (take 10 l)) (drop 10 l) s s'.
Proof using.
  intros s G P. cbn [Connection.happens]. unfold send_pending_block. rewrite (mbind_ret _ _ s s s) by reflexivity. cbv zeta. rewrite P.
  unfold max_sending_num. revert s l G P. generalize 10%nat as k. generalize 0%nat as from.
  intros from k. revert from. induction k as [| k IH]; intros from s l G P.
  - exists s. split; [reflexivity |]. rewrite take_0, drop_0. cbn [map]. split; auto. rewrite app_nil_r. reflexivity.
  - destruct l as [| b bs]; cbn [length Nat.min seq for_each take drop map].
    + exists s. split; [reflexivity |]. split; auto. rewrite app_nil_r. reflexivity.
    + destruct (queues_block b bs s G P) as (s1 & R & Q1).
      destruct (IH (S from) s1 bs (q_good _ _ _ _ Q1) (q_pending _ _ _ _ Q1)) as (s2 & R2 & Q2).
      exists s2. split; [| exact (queues_trans [a_block b] _ _ _ _ _ _ Q1 Q2)].
      unfold mbind at 1, M_bind at 1. rewrite (mbind_ret _ _ s s s) by reflexivity. rewrite P, R. exact R2.
Qed.

(** Enough ticks queue them all. *)
Lemma ticks_run k : forall l s, good s -> pending_block_list (conn s) = l -> (length l <= 10 * k)%nat ->
  exists s', goes_on (replicate k pending_timer) s = Ret s' tt /\ queues (map a_block l) [] s s'.
Proof using.
  induction k as [| k IH]; intros l s G P L; unfold Connection.goes_on; cbn [replicate for_each].
  - destruct l; [| cbn in L; lia]. exists s. split; [reflexivity |]. split; auto. rewrite app_nil_r. reflexivity.
  - destruct (tick_runs l s G P) as (s1 & R & Q1). rewrite (mbind_ret _ _ _ _ _ R).
    destruct (IH (drop 10 l) s1 (q_good _ _ _ _ Q1) (q_pending _ _ _ _ Q1)) as (s2 & R2 & Q2); [rewrite length_drop; lia |].
    exists s2. split; [exact R2 |]. pose proof (queues_trans _ _ _ _ _ _ _ Q1 Q2) as Q. rewrite <- map_app, take_drop in Q. exact Q.
Qed.
(** ** The handshake *)

(** A handshake that tells of the node and its chain. *)
Record tells (lib head : Z) (h : handshake_message) : Prop := {
  tells_chain : hs_chain_id h = my_chain_id my;
  tells_node : hs_node_id h = my_node_id my;
  tells_version : network_version h = my_network_version my;
  tells_lib : Protocol.last_irreversible_block_num h = lib;
  tells_head : head_num h = head }.

Definition lib_of (c : chain_context) : Z := Chain.last_irreversible_block_num (ForkDb.world (fork_db c)).

Lemma setup_runs c hd now h b1 b2 : head_block c = Ret c hd -> block_num hd <> 0 -> lib_of c <> 0 ->
  block_from_num (lib_of c) c = Ret c b1 -> block_from_num (block_num hd) c = Ret c b2 ->
  exists h', setup my hash_time str now h c = Ret c h' /\ tells (lib_of c) (block_num hd) h'.
Proof using.
  intros Hd N1 N2 B1 B2. unfold setup. cbv zeta.
  assert (Hn : head_block_num c = Ret c (block_num hd)) by (unfold head_block_num; rewrite (mbind_ret _ _ _ _ _ Hd); reflexivity).
  rewrite (mbind_ret _ _ _ _ _ Hn). rewrite (mbind_ret _ _ c c (lib_of c)) by reflexivity.
  destruct (Z.eqb_spec (lib_of c) 0); [contradiction |]. destruct (Z.eqb_spec (block_num hd) 0); [contradiction |].
  unfold block_id_from_num. rewrite (mbind_ret _ _ c c (Block.id b1)) by (rewrite (mbind_ret _ _ _ _ _ B1); reflexivity).
  rewrite (mbind_ret _ _ c c (Block.id b2)) by (rewrite (mbind_ret _ _ _ _ _ B2); reflexivity).
  eexists. split; [reflexivity |]. split; reflexivity.
Qed.

(** What sends the first handshake. *)
Lemma send_handshake_runs s hd now b1 b2 : let c := controller s in
  good s -> head_block c = Ret c hd -> block_num hd <> 0 -> lib_of c <> 0 ->
  block_from_num (lib_of c) c = Ret c b1 -> block_from_num (block_num hd) c = Ret c b2 -> sent_handshake_count (conn s) = 0 ->
  exists s' h, send_handshake pack my hash_time str now s = Ret s' tt /\ tells (lib_of c) (block_num hd) h /\ generation h = 1 /\
    queues [a_handshake h] (pending_block_list (conn s)) s s' /\
    (write_queue (ch_of s) = [] -> write_queue (ch_of s') = [Queued (frame (a_handshake h)) false]).
Proof using.
  intros c G Hd N1 N2 B1 B2 Z0. unfold send_handshake. rewrite (mbind_ret _ _ s s s) by reflexivity.
  destruct (setup_runs c hd now (last_handshake_sent (conn s)) b1 b2 Hd N1 N2 B1 B2) as (h & R & T).
  rewrite (mbind_ret _ _ s s h) by (apply on_chain_ret, R). cbv zeta. rewrite Z0. change (swrap 16 (u16 (0 + 1))) with 1.
  set (h1 := Handshake _ _ _ _ _ _ _ _ _ _ _ _ _ _ 1). set (f := fun c0 : connection => Conn (chan c0) _ _ _ _ _ _ h1 _ _ _ _ _ _).
  set (s1 := on_conn f s). rewrite (mbind_ret _ _ s s1 tt) by reflexivity.
  assert (G1 : good s1) by exact G.
  destruct (msg_enqueue_runs pack (a_handshake h1) true s1) as (s2 & R2 & C & _ & Y & Pb).
  pose proof (flows_enqueue pack (a_handshake h1) eq_refl s1) as Fl. rewrite R2 in Fl. specialize (Fl G1).
  exists s2, h1. split; [exact R2 |]. split; [destruct T; split; assumption |]. split; [reflexivity |]. split.
  - split; [exact Fl | rewrite C, accepted_enqueued; reflexivity | rewrite C, written_enqueued; reflexivity | exact Y | exact Pb |].
    rewrite (recv_enqueue _ _ _ _ R2). reflexivity.
  - intros Q. rewrite C. apply (enqueued_idle pack (a_handshake h1) (ch_of s1) eq_refl Q).
Qed.

(** No other connection leads to the peer. *)
Definition only_one (others : list connection) (msg : handshake_message) : Prop :=
  Forall (fun c => connected c && String.eqb (peer_name c) (p2p_address msg) = false) others.

Lemma not_duplicate others msg s : only_one others msg -> is_duplicate others msg s = Ret s false.
Proof using. induction 1 as [| c others E _ IH]; [reflexivity |]. cbn [is_duplicate]. rewrite E. exact IH. Qed.
(** A first handshake of another node of the same chain. *)
Record welcome (others : list connection) (msg : handshake_message) : Prop := {
  w_valid : is_valid hash_time msg = true;
  w_first : generation msg = 1;
  w_other : hs_node_id msg <> my_node_id my;
  w_once : only_one others msg;
  w_chain : hs_chain_id msg = my_chain_id my;
  w_version : network_version msg = my_network_version my \/ network_version_match my = false }.

(** The blocks that can be sent. *)
Definition has_blocks (c : chain_context) (first last : Z) (blocks : Z -> signed_block) : Prop :=
  forall i, first < i <= last -> block_from_num i c = Ret c (blocks i).

Lemma good_conn f s : (forall c, chan (f c) = chan c) -> (forall c, sync_requested (f c) = sync_requested c) -> good s -> good (on_conn f s).
Proof using. intros E1 E2 G. exact (flows_conn pack f E1 E2 s G). Qed.

(** The end of the handshake: the blocks the peer lacks are pending, and it is
    greeted. *)
Lemma sends_missing now hd first blocks s : let c := controller s in
  good s -> write_queue (ch_of s) = [] -> sent_handshake_count (conn s) = 0 -> head_block c = Ret c hd ->
  0 <= first < lib_of c -> lib_of c <= block_num hd -> has_blocks c first (block_num hd) blocks ->
  exists s' h,
    ((if first <? lib_of c then catch_all (_send_blocklist_impl first) (mret tt) else mret tt) ;;
     s ← gets (fun s => s);
     (if sent_handshake_count (conn s) =? 0 then send_handshake pack my hash_time str now else mret tt) ;;
     mret false) s = Ret s' false /\
    tells (lib_of c) (block_num hd) h /\ generation h = 1 /\ queues [a_handshake h] (after first (block_num hd) blocks) s s' /\
    write_queue (ch_of s') = [Queued (frame (a_handshake h)) false].
Proof using.
  intros c G Q Z0 Hd L1 L2 B. destruct (Z.ltb_spec first (lib_of c)); [| lia].
  set (s3 := on_conn (set_blocks (after first (block_num hd) blocks)) s).
  assert (E3 : controller s3 = c /\ sent_handshake_count (conn s3) = 0 /\ ch_of s3 = ch_of s /\ sync_requested (conn s3) = sync_requested (conn s) /\
               pending_block_list (conn s3) = after first (block_num hd) blocks /\ last_handshake_recv (conn s3) = last_handshake_recv (conn s))
    by (subst s3 c; destruct s as [c0 [] n]; split_and!; trivial).
  assert (G3 : good s3) by (apply good_conn; [intros []; reflexivity .. | exact G]). destruct E3 as (K3 & N3 & C3 & Y3 & P3 & V3).
  assert (Sb : catch_all (_send_blocklist_impl first) (mret tt) s = Ret s3 tt).
  { unfold catch_all, _send_blocklist_impl. rewrite (mbind_ret _ _ s s (after first (block_num hd) blocks)); [reflexivity |].
    apply on_chain_ret, syncblock_runs; [exact Hd | lia | exact B]. }
  pose proof (send_handshake_runs s3 hd now (blocks (lib_of c)) (blocks (block_num hd))) as Sh. cbv zeta in Sh. rewrite K3 in Sh.
  destruct (Sh G3 Hd ltac:(lia) ltac:(lia) (B (lib_of c) ltac:(lia)) (B (block_num hd) ltac:(lia)) N3) as (s4 & h & R4 & T & Gh & [G4 A4 W4 Y4 P4 V4] & Wq).
   exists s4, h. split; [| split; [exact T |]; split; [exact Gh |]; split; [split; congruence | apply Wq; congruence]].
  rewrite (mbind_ret _ _ _ _ _ Sb), (mbind_ret _ _ s3 s3 s3), N3 by reflexivity. cbn [Z.eqb]. rewrite (mbind_ret _ _ _ _ _ R4). reflexivity.
Qed.

Lemma welcomed_runs now others msg hd blocks s : let c := controller s in let first := Protocol.last_irreversible_block_num msg in
  welcome others msg -> good s -> write_queue (ch_of s) = [] -> sent_handshake_count (conn s) = 0 -> head_block c = Ret c hd ->
  0 <= first < lib_of c -> lib_of c <= block_num hd -> has_blocks c first (block_num hd) blocks ->
  exists s' h, handle_handshake pack my hash_time str now others msg s = Ret s' tt /\ tells (lib_of c) (block_num hd) h /\ generation h = 1 /\ good s' /\
    write_queue (ch_of s') = [Queued (frame (a_handshake h)) false] /\ accepted (ch_of s') = accepted (ch_of s) ++ [a_handshake h] /\
    written (ch_of s') = written (ch_of s) /\ sync_requested (conn s') = sync_requested (conn s) /\
    pending_block_list (conn s') = after first (block_num hd) blocks /\ last_handshake_recv (conn s') = msg.
Proof using.
  intros c first [W1 W2 W3 W4 W5 W6] G Q Z0 Hd L1 L2 B. unfold handle_handshake. rewrite W1. cbn [negb].
  rewrite (mbind_ret _ _ s s (lib_of c)) by (apply on_chain_ret; reflexivity). cbv zeta. fold first.
  set (s1 := on_conn (fun c0 => set_connecting (is_open c0) false c0) s). rewrite (mbind_ret _ _ s s1 tt) by reflexivity.
  rewrite W2. cbn [Z.eqb Pos.eqb]. rewrite (bool_decide_eq_false_2 _ W3), (bool_decide_eq_true_2 _ W5). cbn [negb authenticate_peer].
  assert (V : negb (network_version msg =? my_network_version my) && network_version_match my = false)
    by (destruct W6 as [-> | ->]; [rewrite Z.eqb_refl; reflexivity | apply andb_false_r]). rewrite V.
  assert (Tw : (if String.eqb (peer_addr (conn s1)) "" || bool_decide (hs_node_id (last_handshake_recv (conn s1)) = empty_chain_id)
                then is_duplicate others msg else mret false) s1 = Ret s1 false) by (destruct (_ || _); [apply not_duplicate, W4 | reflexivity]).
  set (s2 := on_conn (set_node_id (hs_node_id msg)) s1).
  assert (E : controller s2 = c /\ sent_handshake_count (conn s2) = 0 /\ ch_of s2 = ch_of s /\ sync_requested (conn s2) = sync_requested (conn s))
    by (subst s2 s1 c; destruct s as [c0 [] n]; split_and!; trivial).
  assert (G2 : good s2) by (apply good_conn; [intros []; reflexivity .. | apply good_conn; [intros []; reflexivity .. | exact G]]).
  clearbody s1. assert (R2 : update (on_conn (set_node_id (hs_node_id msg))) s1 = Ret s2 tt) by reflexivity. clearbody s2. destruct E as (K2 & N2 & C2 & Y2).
  pose proof (sends_missing now hd first blocks s2 G2) as Sm. cbv zeta in Sm. rewrite K2, C2 in Sm.
  destruct (Sm Q N2 Hd L1 L2 B) as (s4 & h & R4 & T & Gh & [G4 A4 W4' Y4 P4 _] & Wq).
  exists (on_conn (set_recv msg) s4), h. split.
  - rewrite (mbind_ret _ _ s1 s4 false); [reflexivity |]. rewrite (mbind_ret _ _ s1 s1 s1) by reflexivity.
    rewrite (mbind_ret _ _ _ _ _ Tw), (mbind_ret _ _ _ _ _ R2). exact R4.
  - split; [exact T |]. split; [exact Gh |]. split; [apply good_conn; [intros []; reflexivity .. | exact G4] |].
    rewrite C2 in A4, W4'. rewrite Y2 in Y4. rewrite <- A4, <- W4', <- Y4, <- P4, <- Wq. clear. destruct s4 as [c0 [] n]. split_and!; trivial.
Qed.
(** ** Refusals *)

(** The node itself, or a node of another chain or of another version where
    versions must match. *)
Definition stranger (msg : handshake_message) : Prop :=
  hs_node_id msg = my_node_id my \/ hs_chain_id msg <> my_chain_id my \/
  (network_version msg <> my_network_version my /\ network_version_match my = true).

(** What a refusal leaves as it was. *)
Definition same_peer (s s' : session) : Prop :=
  last_handshake_recv (conn s') = last_handshake_recv (conn s) /\ pending_block_list (conn s') = pending_block_list (conn s) /\
  pending_message_buffer (conn s') = pending_message_buffer (conn s).

Lemma same_trans s1 s2 s3 : same_peer s1 s2 -> same_peer s2 s3 -> same_peer s1 s3.
Proof using. unfold same_peer. intros (A1 & B1 & C1) (A2 & B2 & C2). split_and!; congruence. Qed.

Lemma refuse_runs r s : exists s', refuse pack r s = Ret s' tt /\ ch_of s' = enqueued pack (a_leave (leave r)) true (ch_of s) /\ same_peer s s'.
Proof using.
  unfold refuse. destruct (msg_enqueue_runs pack (a_leave (leave r)) true s) as (s' & R & C & _ & _ & P). exists s'. split; [exact R |]. split; [exact C |].
  split; [exact (recv_enqueue _ _ _ _ R) |]. split; [exact P |]. unfold Connection.msg_enqueue, on_channel in R. cbv zeta in R.
  rewrite (mbind_ret _ _ s s tt) in R by reflexivity. match type of R with match ?x with _ => _ end = _ => destruct x; [| discriminate R ..] end.
  injection R as <-. destruct s as [c [] n]. reflexivity.
Qed.

Lemma refused_runs now others msg s : is_valid hash_time msg = true -> generation msg = 1 -> only_one others msg -> stranger msg ->
  exists r s', handle_handshake pack my hash_time str now others msg s = Ret s' tt /\
    ch_of s' = enqueued pack (a_leave (leave r)) true (ch_of s) /\ same_peer s s'.
Proof using.
  intros V Gn O St. unfold handle_handshake. rewrite V. cbn [negb]. rewrite (mbind_ret _ _ s s (lib_of (controller s))) by (apply on_chain_ret; reflexivity).
  cbv zeta. set (s1 := on_conn (fun c => set_connecting (is_open c) false c) s). rewrite (mbind_ret _ _ s s1 tt) by reflexivity.
  rewrite Gn. cbn [Z.eqb Pos.eqb]. assert (E : ch_of s1 = ch_of s /\ same_peer s s1) by (destruct s as [c [] n]; repeat split). clearbody s1.
  destruct E as [<- Sp]. set (after_refusal := fun refused : bool => if refused then mret tt else update (on_conn (set_recv msg))).
  assert (L : forall r (m : M session bool), m s1 = (refuse pack r ;; mret true) s1 -> exists r s', (m ≫= after_refusal) s1 = Ret s' tt /\
    ch_of s' = enqueued pack (a_leave (leave r)) true (ch_of s1) /\ same_peer s s').
  { intros r m E. destruct (refuse_runs r s1) as (s2 & R & C & S2). rewrite (mbind_ret _ _ _ _ _ R) in E. exists r, s2.
    rewrite (mbind_ret _ _ _ _ _ E). split; [reflexivity |]. split; [exact C | exact (same_trans _ _ _ Sp S2)]. }
  destruct (bool_decide_reflect (hs_node_id msg = my_node_id my)) as [D | D]; [apply (L self); reflexivity |].
  assert (Tw : (if String.eqb (peer_addr (conn s1)) "" || bool_decide (hs_node_id (last_handshake_recv (conn s1)) = empty_chain_id)
                then is_duplicate others msg else mret false) s1 = Ret s1 false) by (destruct (_ || _); [apply not_duplicate, O | reflexivity]).
  destruct (bool_decide_reflect (hs_chain_id msg = my_chain_id my)) as [D2 | D2]; cbn [negb].
  - destruct St as [St | [St | [St Mt]]]; [contradiction .. |]. apply (L wrong_version).
    rewrite (mbind_ret _ _ s1 s1 s1), (mbind_ret _ _ _ _ _ Tw) by reflexivity. destruct (Z.eqb_spec (network_version msg) (my_network_version my)); [contradiction |].
    rewrite Mt. reflexivity.
  - apply (L wrong_chain). rewrite (mbind_ret _ _ s1 s1 s1), (mbind_ret _ _ _ _ _ Tw) by reflexivity. reflexivity.
Qed.

(** When the leave message is written the connection closes. *)
Lemma leave_written r s : good s -> write_queue (ch_of s) = [] -> sane (pending_message_buffer (conn s)) -> forall s1,
  ch_of s1 = enqueued pack (a_leave (leave r)) true (ch_of s) -> same_peer s s1 ->
  exists s', write_reported pack false s1 = Ret s' tt /\ is_open (conn s') = false /\
    ch_of s' = Channel [] 0 [] (written (ch_of s) ++ [frame (a_leave (leave r))]) (accepted (ch_of s) ++ [a_leave (leave r)]).
Proof using.
  intros [[[D _ _] W] _] Q Sn s1 C (_ & _ & P). rewrite <- P in Sn. unfold enqueued in C. rewrite Q in *. cbn in C. rewrite W in *. cbn [app take map length] in *.
  unfold write_reported, catch_all. rewrite (mbind_ret _ _ s1 s1 s1) by reflexivity. rewrite C. cbn [write_queue writing write_depth written accepted close_after_send].
  destruct s1 as [c [ch sy o b p i rv hs n g z a f t] k]. cbn [conn chan pending_message_buffer] in *. subst ch.
  set (w := written (ch_of s)) in *. set (ac := accepted (ch_of s) ++ [a_leave (leave r)]) in *. rewrite D.
  set (s2 := Session c (Conn (Channel [Queued (frame (a_leave (leave r))) true] 1 [] (w ++ [frame (a_leave (leave r))]) ac) sy o b p i rv hs n g z a f t) k).
  destruct (plugin_close_runs s2 Sn) as (s3 & R & C3 & Y3 & O3 & _).
  rewrite (mbind_ret _ _ _ (Session c (Conn (Channel [Queued (frame (a_leave (leave r))) true] 2 [] (w ++ [frame (a_leave (leave r))]) ac) sy o b p i rv hs n g z a f t) k) tt)
    by reflexivity.
  rewrite (mbind_ret _ _ _ s3 tt) by (rewrite (mbind_ret _ _ _ s2 tt) by reflexivity; exact R).
  destruct s3 as [c3 [ch3 sy3 o3 b3 p3 i3 rv3 hs3 n3 g3 z3 a3 f3 t3] k3]. cbn [conn chan sync_requested is_open] in *. subst ch3 sy3 o3.
  eexists. split; [reflexivity |]. split; reflexivity.
Qed.

(** A handshake of another generation. *)
Lemma later_runs now others msg s : is_valid hash_time msg = true -> generation msg <> 1 ->
  handle_handshake pack my hash_time str now others msg s = Ret (on_conn (set_recv msg) (on_conn (fun c => set_connecting (is_open c) false c) s)) tt.
Proof using.
  intros V Gn. unfold handle_handshake. rewrite V. cbn [negb]. rewrite (mbind_ret _ _ s s (lib_of (controller s))) by (apply on_chain_ret; reflexivity).
  cbv zeta. destruct (Z.eqb_spec (generation msg) 1); [contradiction | reflexivity].
Qed.
End Answers.
