(* ===== verification/ConnectionProps.v ===== *)
(** Properties of the sending side of a connection: what is queued is heard, a
    peer is sent the blocks it asks for, and a connection that is closed with
    messages waiting never speaks again. *)

From Stdlib Require Import ZArith Lia Bool String List.
From stdpp Require Import base decidable list.
From S2P Require Import Prelude ChainUtils Block BlockPack Effects SystemContract SystemContractProps ForkDb Chain ChainProps.
From S2P Require Import Protocol MessageBuffer MessageBufferThm PeerReading PeerReadingThm PeerReadingProps Connection ConnectionThm.
Import ListNotations.
Local Open Scope Z_scope.


(** C28: a peer that asks for a range of blocks is sent these blocks, each once
    and in order, and after one report for each the connection is idle. *)
Theorem sync_sends_range `{Crypto} (pack : net_message -> list Z) my hash_time str m (blocks : Z -> signed_block) s :
  let first := start_block m in let last := end_block m in
  good pack s -> write_queue (ch_of s) = [] -> 0 <= first <= last -> 0 < last < 2 ^ 32 ->
  (forall i, first <= i <= last -> block_from_num i (controller s) = Ret (controller s) (blocks i)) ->
  let n := Z.to_nat (last - first + 1) in
  exists s', Connection.goes_on pack my hash_time str (sync_asked m :: replicate n (reports false)) s = Ret s' tt /\
    written (ch_of s') = written (ch_of s) ++ map (frame pack) (map (fun i => a_block (blocks (first + Z.of_nat i))) (seq 0 n)) /\
    write_queue (ch_of s') = [] /\ writing (ch_of s') = [] /\ write_depth (ch_of s') = 0 /\ sync_requested (conn s') = None.
Proof.
  intros first last G Q L1 L2 B n. unfold Connection.goes_on. cbn [for_each Connection.happens].
  destruct (sync_begins pack s m (blocks first) G Q L1 L2 (B first ltac:(lia))) as (s1 & R1 & G1 & Q1 & Y1 & A1 & K1).
  rewrite (mbind_ret _ _ _ _ _ R1). subst n. replace (Z.to_nat (last - first + 1)) with (Datatypes.S (Z.to_nat (last - first))) by lia.
  destruct (blocks_follow pack my hash_time str blocks first last (Z.to_nat (last - first)) ltac:(lia) ltac:(lia) s1 _ first G1 Q1 Y1 ltac:(lia) ltac:(lia))
    as (s2 & R2 & [[[D2 _ E2] W2] _] & Q2 & Y2 & A2); [intros i Li; rewrite K1; apply B; lia |].
  exists s2. rewrite Q2 in *. cbn [take map length] in *. rewrite W2 in D2. rewrite app_nil_r in E2. destruct G as [[[_ _ E] _] _].
  rewrite Q in E. cbn [map] in E. rewrite app_nil_r in E. split_and!; auto.
  rewrite E2, A2, A1, E, !map_app, <- app_assoc. f_equal. cbn [seq map app]. rewrite Z.add_0_r. f_equal.
  rewrite <- seq_shift, !map_map. apply map_ext. intros i. do 2 f_equal. f_equal. lia.
Qed.

(** C26: flush_queues takes messages out of the queue without taking them off
    write_depth.  If a connection is closed while a write goes on and another
    message waits, and the write then reports its error, nothing is ever written
    to that connection again, whatever is queued and however often it is
    connected again; if no message waits, the next one is written. *)
Theorem closing_can_silence `{Crypto} (pack : net_message -> list Z) my hash_time str s x q :
  let goes_on := Connection.goes_on pack my hash_time str in
  good pack s -> write_queue (ch_of s) = x :: q -> sane (pending_message_buffer (conn s)) ->
  exists s1, goes_on [closes; reports true] s = Ret s1 tt /\ writing (ch_of s1) = [] /\ written (ch_of s1) = written (ch_of s) /\
    (q <> [] -> forall evs s2, goes_on evs s1 = Ret s2 tt -> writing (ch_of s2) = [] /\ written (ch_of s2) = written (ch_of s)) /\
    (q = [] -> forall m, exists s2, goes_on [enqueues m] s1 = Ret s2 tt /\ writing (ch_of s2) = [frame pack m]).
Proof.
  intros goes_on G Q Sn. destruct (closed_runs pack my hash_time str s x q G Q Sn) as (s1 & R & _ & C). exists s1.
  split; [exact R |]. rewrite C. cbn [writing written]. split; [reflexivity |]. split; [reflexivity |]. split.
  - intros Nq evs s2 R2. pose proof (silent_goes_on pack my hash_time str evs s1) as Si. fold goes_on in Si. rewrite R2 in Si. unfold silent, stays_stalled in Si.
    rewrite C in Si. destruct Si as [[W _] E]; [| split; [exact W | exact E]].
    unfold stalled. cbn. case_decide; [contradiction |]. split; [reflexivity |]. split; [discriminate | destruct q; [contradiction | cbn; lia]].
  - intros -> m. destruct (msg_enqueue_runs pack m true s1) as (s2 & R2 & C2 & _). exists s2.
    unfold goes_on, Connection.goes_on. cbn [for_each Connection.happens]. rewrite (mbind_ret _ _ _ _ _ R2). split; [reflexivity |].
    rewrite C2, C. case_decide; [| contradiction]. reflexivity.
Qed.

(** ** Witnesses *)

#[local] Existing Instance toy_crypto.

Definition toy_plugin : plugin := Plugin 1 false empty_chain_id empty_chain_id "localhost:9876" "node".
Definition toy_connection (addr : string) : connection :=
  Conn new_channel None true (new_message_buffer toy_raw) [] empty_chain_id new_handshake new_handshake 0 false false addr None no_reason.

(** A node whose chain has the blocks 1 and 2. *)
Definition toy_longer : chain_context := match toy_build toy_loaded with Ret c _ => c | _ => toy_chain end.
Definition toy_session : session := Session toy_longer (toy_connection "localhost:9877") 1.

Lemma toy_good (pack : net_message -> list Z) : good pack toy_session.
Proof. split; [| exact I]. split; [split; [reflexivity | constructor | reflexivity] | reflexivity]. Qed.

(** Requests for blocks by small numbers are the messages that can be sent. *)
#[local, refine] Instance toy_net_wire : Wire net_message := {
  wire_pack m := match m with a_request_block n => [11; n] | a_block b => [8; Block.block_num b] | _ => [] end;
  wire_unpack l := match l with 11 :: n :: l => Ret l (a_request_block n) | _ => Exc [] "read datastream" end;
  sendable m := exists n, m = a_request_block n }.
Proof.
  - intros _ rest [n ->]. reflexivity.
  - intros _ [n ->]. change max_message with 8388608. cbn. lia.
  - intros _ [n ->]. eexists 11, _. split; [reflexivity | lia].
Defined.

Definition toy_hash (time : Z) : sha256 := empty_chain_id.
Definition toy_str (id : sha256) : string := "0".
#[local] Abbreviation toy_goes_on := (Connection.goes_on wire_pack toy_plugin toy_hash toy_str).

Definition toy_talk : list connection_event :=
  map enqueues [a_request_block 7; a_request_block 8] ++ [reports false; enqueues (a_request_block 9)].

Definition toy_hears (m : net_message) : M (reader (list net_message)) unit := update (fun r => Reader (mb r) (others r ++ [m])).
Definition toy_closes : M (reader (list net_message)) unit := on_mb MessageBuffer.reset.
Definition toy_listener : reader (list net_message) := Reader (new_message_buffer toy_raw) [].
Definition toy_cuts : list (list Z) := [[2; 0]; [0; 0; 11; 7; 2]; [0; 0; 0; 11; 8; 2; 0; 0]; [0; 11; 9]].


(** The block of a number, where there is one. *)
Definition toy_numbered (i : Z) : signed_block := match block_from_num i toy_longer with Ret _ b => b | _ => toy_block empty_chain_id 0 end.

Lemma sync_sends_range_witness : exists s',
  toy_goes_on [sync_asked (SyncRequest 1 2); reports false; reports false] toy_session = Ret s' tt /\
  written (ch_of s') = map (frame wire_pack) [a_block (toy_numbered 1); a_block (toy_numbered 2)].
Proof.
  assert (B : forall i, 1 <= i <= 2 -> block_from_num i (controller toy_session) = Ret (controller toy_session) (toy_numbered i)).
  { intros i Li. assert (C : i = 1 \/ i = 2) by lia. destruct C as [-> | ->]; vm_compute; reflexivity. }
  destruct (sync_sends_range wire_pack toy_plugin toy_hash toy_str (SyncRequest 1 2) toy_numbered toy_session
              (toy_good _) eq_refl ltac:(cbn; lia) ltac:(cbn; lia) B) as (s' & R & W & _).
  exists s'. split; [exact R | exact W].
Defined.

(** Two messages are queued when the connection is closed; it is connected again. *)
Definition toy_busy : session :=
  match toy_goes_on (map enqueues [a_request_block 7; a_request_block 8]) toy_session with
  | Ret s _ => s
  | _ => toy_session
  end.

Lemma toy_busy_good : good wire_pack toy_busy.
Proof. split; [| exact I]. split; [split; [reflexivity | repeat constructor | reflexivity] | reflexivity]. Qed.

Lemma closing_can_silence_witness : exists s1 s2,
  toy_goes_on [closes; reports true] toy_busy = Ret s1 tt /\
  toy_goes_on [resolves; dialled false false 5; enqueues (a_request_block 9)] s1 = Ret s2 tt /\
  writing (ch_of s2) = [] /\ written (ch_of s2) = [].
Proof.
  destruct (closing_can_silence wire_pack toy_plugin toy_hash toy_str toy_busy
              (Queued (frame (@wire_pack _ toy_net_wire) (a_request_block 7)) false) [Queued (frame (@wire_pack _ toy_net_wire) (a_request_block 8)) false]
              toy_busy_good eq_refl ltac:(vm_compute; split; [reflexivity | discriminate])) as (s1 & R & _ & _ & Silent & _).
  assert (T : match toy_goes_on [closes; reports true] toy_busy with
              | Ret s _ => match toy_goes_on [resolves; dialled false false 5; enqueues (a_request_block 9)] s with Ret _ _ => true | _ => false end
              | _ => false
              end = true) by (vm_compute; reflexivity).
  cbv zeta in R, Silent. rewrite R in T.
  specialize (Silent ltac:(discriminate) [resolves; dialled false false 5; enqueues (a_request_block 9)]).
  destruct (toy_goes_on [resolves; _; _] s1) as [s2 [] | |] eqn:E; [| discriminate T ..].
  exists s1, s2. split; [exact R |]. split; [exact E | exact (Silent s2 eq_refl)].
Defined.
