(* ===== verification/PeerMessagesProps.v ===== *)
(** Properties of how a node answers its peers: one that connects is sent the
    blocks it lacks, a stranger is turned away if it says it is new, and a
    request for blocks by id ends the node. *)

From Stdlib Require Import ZArith Lia Bool String List.
From stdpp Require Import base decidable list.
From S2P Require Import Prelude ChainUtils Block BlockPack Effects SystemContract SystemContractProps Objects ForkDb Chain ChainProps.
From S2P Require Import Protocol MessageBuffer PeerReading PeerReadingThm PeerReadingProps Connection ConnectionThm ConnectionProps PeerMessages PeerMessagesThm.
Import ListNotations.
Local Open Scope Z_scope.



(** C27: chain_xmax::block_from_id is empty and returns a null pointer.  A
    request message for blocks by their ids ends the node, and so does one for
    the branch of the node, unless it has no block: either a null pointer is
    copied from, or the last element of an empty vector is looked at.  No
    handshake is needed. *)
Theorem requests_end_the_node `{Crypto} (pack : net_message -> list Z) msg s :
  match mode (req_blocks msg) with
  | normal => ids (req_blocks msg) <> []
  | catch_up => exists d lib_id head_id, get_dynamic_states (controller s) = Ret (controller s) d /\ head_block_number d <> 0 /\
      branch_ends (head_block_number d) (controller s) = Ret (controller s) (Some (lib_id, head_id))
  | _ => False
  end ->
  handle_request pack msg s = Undef.
Proof.
  unfold handle_request. destruct (mode (req_blocks msg)); try contradiction.
  - intros (d & lib_id & head_id & Rd & N & Re).
    assert (U : blk_send_branch pack s = Undef); [| unfold mbind at 1, M_bind at 1; rewrite U; reflexivity].
    unfold blk_send_branch. rewrite (mbind_ret _ _ s s d) by (apply on_chain_ret, Rd). cbv zeta.
    destruct (Z.eqb_spec (head_block_number d) 0); [contradiction |].
    rewrite (mbind_ret _ _ s s (Some (lib_id, head_id))) by (apply on_chain_ret, Re). cbn [branch_from].
    destruct (bool_decide _ || _); [reflexivity |]. reflexivity.
  - destruct (ids (req_blocks msg)); [congruence | reflexivity].
Qed.

(** ** Witnesses *)

#[local] Existing Instance toy_crypto.

(** A chain of three blocks, two of them irreversible. *)
Definition toy_three : chain_context := match toy_run toy_ops with Ret c _ => c | _ => toy_chain end.
Definition toy_three_head : block_pack := match head_block toy_three with Ret _ p => p | _ => toy_first end.
Definition toy_three_block (i : Z) : signed_block := match block_from_num i toy_three with Ret _ b => b | _ => toy_block empty_chain_id 0 end.

(** A peer has connected. *)
Definition toy_visit : session := Session toy_three (toy_connection ""%string) 1.

(** It has the first block. *)
Definition toy_greeting (chain_id : sha256) (generation : Z) : handshake_message :=
  Handshake 1 chain_id (Sha 0 0 0 7) empty_public_key 5 empty_chain_id empty_signature "peer:9876 - 0000000"%string 1 empty_chain_id 1 empty_chain_id
    "linux"%string "node"%string generation.

Definition toy_tags (m : net_message) : list Z :=
  match m with a_handshake _ => [0] | a_leave _ => [1] | a_block b => [8; Block.block_num b] | _ => [] end.

Lemma toy_visit_good : good toy_tags toy_visit.
Proof. split; [| exact I]. split; [split; [reflexivity | constructor | reflexivity] | reflexivity]. Qed.



Definition toy_three_states : dynamic_states_object :=
  match get_dynamic_states toy_three with Ret _ d => d | _ => DynamicStates 0 empty_chain_id 0 0 0 0 end.

(** A request for a block, and one for the branch. *)
Lemma requests_end_the_node_witness :
  handle_request toy_tags (Request no_ids (SelectIds normal 0 [Sha 0 0 0 1])) toy_visit = Undef /\
  handle_request toy_tags (Request no_ids (SelectIds catch_up 0 [])) toy_visit = Undef.
Proof.
  split; apply requests_end_the_node; [discriminate |].
  exists toy_three_states, (Block.id (toy_three_block 2)), (Block.id (toy_three_block 3)).
  split; [vm_compute; reflexivity |]. split; [vm_compute; discriminate | vm_compute; reflexivity].
Defined.
