(* ===== verification/BlockBuilder.v ===== *)
(** The plugin that builds and confirms blocks
    (plugins/blockbuilder_plugin/blockbuilder_plugin.cpp), and the messages of
    plugins/chainnet_plugin that it answers.

    A [node] is the chain controller with the keys of the builders it speaks
    for, the timer, and what it has given to the network, the last at the end.
    A timer that is due fires with the readings of the clock that its callback
    makes; clocks count microseconds.  [public_of] is private_key::get_public_key.

    chain.flushdb, the log and assert, which release builds leave out, are not
    modelled; fc::canceled_exception is thrown nowhere in what is called. *)

From Stdlib Require Import ZArith Lia Bool String List.
From stdpp Require Import base decidable gmap list.
From S2P Require Import Prelude ChainUtils Block BlockPack Effects UndoIndex Objects Tables Context Authority Voting.
From S2P Require Import SystemContract NativeApi Transaction Applying Replay ForkDb ForkRun Chain.
Import ListNotations.
Local Open Scope Z_scope.

Inductive block_build_condition := generated | exception | not_time_yet | not_my_turn | no_private_key.

(** What broadcast_block and broadcast_confirm are given. *)
Inductive broadcast := sent_block (b : signed_block) | sent_confirm (conf : block_confirmation).

(** The callback the timer is set for. *)
Inductive callback := call_next_block | call_next_block_impl.

Record node `{Crypto} := Node {
  chain : chain_context;
  _builders : gset Z;
  _builder_keys : gmap (list Z) private_key;
  _timer : option (Z * callback);
  broadcasts : list broadcast }.

Definition start_delay : Z := 1000000.
Definition mini_next_block_us : Z := chain_timestamp_unit_us / 10.

Section Plugin.
Context `{Crypto} `{AuthCodec} (hash_pair : sha256 -> sha256 -> sha256) (xmax_build_public_key : list Z) (skip_flags : Z).
Context (hs : handlers) (hash_message : message -> sha256) (js_apply : Z -> call -> M Context.world Z) (to_share : Z -> Z).
Context (chain_id : sha256) (raw_idx : Z) (fuel walk_fuel : nat).
Context (pop : list transaction_request -> option (transaction_request * list transaction_request)).
Context (public_of : private_key -> list Z).

Local Abbreviation chain_build_block := (Chain.build_block hash_pair xmax_build_public_key skip_flags hs hash_message js_apply to_share chain_id raw_idx fuel pop).
Local Abbreviation chain_confirm_block := (Chain.confirm_block hash_pair xmax_build_public_key skip_flags hs hash_message js_apply to_share chain_id raw_idx fuel).
Local Abbreviation chain_push_fork := (Chain.push_fork hash_pair xmax_build_public_key skip_flags hs hash_message js_apply to_share chain_id raw_idx fuel walk_fuel).

Definition set_chain (c : chain_context) (n : node) : node := Node _ c (_builders n) (_builder_keys n) (_timer n) (broadcasts n).
Definition set_timer (t : option (Z * callback)) (n : node) : node := Node _ (chain n) (_builders n) (_builder_keys n) t (broadcasts n).
Definition send (x : broadcast) (n : node) : node := Node _ (chain n) (_builders n) (_builder_keys n) (_timer n) (broadcasts n ++ [x]).

Definition on_controller {A} (m : M chain_context A) : M node A := fun n =>
  match m (chain n) with
  | Ret c a => Ret (set_chain c n) a
  | Exc c e => Exc (set_chain c n) e
  | Undef => Undef
  end.

(** ** Keys *)

(** With wif_to_key done. *)
Definition import_key (builder : Z) (key : private_key) : M node bool :=
  update (fun n => Node _ (chain n) ({[builder]} ∪ _builders n) (<[public_of key := key]> (_builder_keys n)) (_timer n) (broadcasts n)) ;;
  mret true.

Definition init_builders (import_builders : list (Z * private_key)) : M node unit :=
  for_each import_builders (fun it => import_key it.1 it.2 ;; mret tt).

(** ** Building *)

(** [armed] is the clock when the timer is set. *)
Definition start_build (armed : Z) : M node unit := update (set_timer (Some (armed + start_delay, call_next_block))).

Definition time_to_next (now : Z) : Z :=
  let time_to_next_block_time := chain_timestamp_unit_us - Z.rem now chain_timestamp_unit_us in
  if time_to_next_block_time <? mini_next_block_us then time_to_next_block_time + chain_timestamp_unit_us
  else time_to_next_block_time.

Definition next_block (now armed : Z) : M node unit :=
  update (set_timer (Some (armed + time_to_next now, call_next_block_impl))).

Definition build_block (now : Z) : M node block_build_condition :=
  let now_timestamp := from now in
  delta_slot ← on_controller (get_delta_slot_at_time now_timestamp);
  if delta_slot =? 0 then mret not_time_yet
  else
    current_builder ← on_controller (get_block_builder delta_slot);
    n ← gets (fun n => n);
    if negb (bool_decide (builder_name current_builder ∈ _builders n)) then mret not_my_turn
    else match _builder_keys n !! block_signing_key current_builder with
         | None => mret no_private_key
         | Some private_key =>
             pack ← on_controller (chain_build_block now_timestamp private_key);
             pack ← on_controller (at_ptr pack);
             on_controller (block_of pack) ≫= fun b : signed_block =>
             update (send (sent_block b)) ;;
             mret generated
         end.

(** The loop reads through the shared pointer of the head at its begin. *)
Definition confirmation_block_self : M node unit :=
  head ← gets (fun n => head_pack (chain n));
  match head with
  | None => mret tt
  | Some pack_ptr =>
      verifiers ← on_controller (p ← at_ptr pack_ptr; mret (current_builders p));
      for_each (builders verifiers) (fun v =>
        p ← on_controller (at_ptr pack_ptr);
        if builder_name v =? builder (new_header p) then mret tt
        else
          n ← gets (fun n => n);
          match _builder_keys n !! block_signing_key v with
          | None => mret tt
          | Some private_key =>
              let conf := conf_sign (Confirmation (block_id p) (builder_name v) empty_signature) private_key in
              on_controller (push_confirmation skip_flags conf)
          end)
  end.

(** [later] is the clock when next_block reads it. *)
Definition next_block_impl (now later armed : Z) : M node block_build_condition :=
  result ← catch_fc (build_block now) (fun _ => mret exception);
  (match result with generated => confirmation_block_self | _ => mret tt end) ;;
  next_block later armed ;;
  mret result.

(** ** Receiving *)

Definition keys_of (verifiers : builder_rule) (keys : gmap (list Z) private_key) : list (Z * private_key) :=
  concat (map (fun it => match keys !! block_signing_key it with Some k => [(builder_name it, k)] | None => [] end) (builders verifiers)).

Definition confirm_with (id : sha256) (key : Z * private_key) : M node unit :=
  let conf := make_conf id key.1 key.2 in
  on_controller (push_confirmation skip_flags conf) ;;
  update (send (sent_confirm conf)).

Definition confirm_block (b : signed_block) : M node unit :=
  order_slot ← on_controller (get_order_slot_at_time (timestamp b));
  verifiers ← on_controller (get_verifiers_by_order order_slot);
  n ← gets (fun n => n);
  let keys := keys_of verifiers (_builder_keys n) in
  pack ← on_controller (chain_confirm_block b);
  for_each keys (fun key =>
    p ← on_controller (at_ptr pack);
    confirm_with (block_id p) key).

Definition fork_block (b : signed_block) : M node unit := on_controller (chain_push_fork b).

(** && evaluates its right side only when the left one holds. *)
Definition recieve_block (b : signed_block) : M node unit :=
  let num := Block.block_num b in
  head_num ← on_controller head_block_num;
  linked ← (if head_num =? u32 (num - 1)
            then id ← on_controller head_block_id; mret (bool_decide (id = previous b))
            else mret false);
  if linked : bool then confirm_block b
  else
    last ← gets (fun n => last_irreversible_block_num (ForkDb.world (fork_db (chain n))));
    require (last <? num) "bad block num" ;;
    fork_block b.

Definition get_sync_blocklist (lastnum : Z) : M node (list signed_block) := on_controller (get_syncblock_from_lastnum lastnum).

(** chainnet_plugin_impl::handle_message of the messages about blocks; both
    kinds of exception are caught. *)
Definition handle_block (b : signed_block) : M node unit := catch_all (recieve_block b) (mret tt).
Definition handle_confirmation (conf : block_confirmation) : M node unit :=
  catch_all (on_controller (push_confirmation skip_flags conf)) (mret tt).
Definition handle_block_list (l : list signed_block) : M node unit := catch_all (for_each l recieve_block) (mret tt).

(** ** A node at work *)

Inductive node_event :=
| timer_fires (now later armed : Z)
| block_arrives (b : signed_block)
| block_list_arrives (l : list signed_block)
| confirmation_arrives (conf : block_confirmation)
| transaction_arrives (t : signed_transaction).

Definition handle (e : node_event) : M node unit :=
  match e with
  | timer_fires now later armed =>
      t ← gets _timer;
      update (set_timer None) ;;
      match t with
      | Some (_, call_next_block) => next_block now armed
      | Some (_, call_next_block_impl) => next_block_impl now later armed ;; mret tt
      | None => mret tt
      end
  | block_arrives b => handle_block b
  | block_list_arrives l => handle_block_list l
  | confirmation_arrives conf => handle_confirmation conf
  | transaction_arrives t =>
      catch_all (on_controller (push_transaction skip_flags hs hash_message js_apply to_share chain_id raw_idx fuel t) ;; mret tt) (mret tt)
  end.

Definition work (l : list node_event) : M node unit := for_each l handle.

(** The clock goes forward from [clock], the timer does not fire before it is
    due, and the times have a stamp. *)
Fixpoint timely (clock : Z) (l : list node_event) (n : node) : Prop :=
  match l with
  | [] => True
  | e :: l =>
      let next clock := match handle e n with Ret n _ => timely clock l n | _ => True end in
      match e with
      | timer_fires now later armed =>
          clock <= now /\ now <= later /\ later <= armed /\
          chain_timestamp_epoch_us <= now /\ armed < chain_timestamp_epoch_us + 2 ^ 32 * chain_timestamp_unit_us /\
          match _timer n with Some (due, _) => due <= now | None => True end /\ next armed
      | _ => next clock
      end
  end.
End Plugin.
