(* ===== verification/BlockBuilderThm.v ===== *)
(** What the plugin that builds blocks keeps: the times of its timer, the
    header of a block it builds, and what becomes of confirmations. *)

From Stdlib Require Import ZArith Lia Bool String List RelationClasses.
From stdpp Require Import base decidable gmap list.
From S2P Require Import Prelude ChainUtils Block BlockPack Effects UndoIndex UndoIndexThm DbSession Objects Tables Context Authority Voting.
From S2P Require Import SystemContract NativeApi Tracked Transaction Applying ApplyingThm Replay ForkDb ForkDbInv ForkDbThm ForkRun Follows ForkFrames.
From S2P Require Import Chain ChainUndo ChainReplay BlockBuilder.
Import ListNotations.
Local Open Scope Z_scope.

(** ** Times *)

Definition has_stamp (us : Z) : Prop := chain_timestamp_epoch_us <= us < chain_timestamp_epoch_us + 2 ^ 32 * chain_timestamp_unit_us.

Lemma stamp_from us : has_stamp us -> _stamp (from us) = (us - chain_timestamp_epoch_us) / chain_timestamp_unit_us.
Proof.
  unfold has_stamp, from. change chain_timestamp_unit_us with 1000000. change chain_timestamp_epoch_us with 946684800000000. intros H. cbn [_stamp].
  unfold u64. rewrite (Z.mod_small us), (Z.mod_small (us - _)) by lia. unfold u32. apply Z.mod_small.
  split; [apply Z.div_pos; lia | apply Z.div_lt_upper_bound; lia].
Qed.

Lemma from_mono a b : has_stamp a -> has_stamp b -> a <= b -> _stamp (from a) <= _stamp (from b).
Proof. intros A B L. rewrite !stamp_from by assumption. apply Z.div_le_mono; [reflexivity | lia]. Qed.

(** The timer is set for the next slot, or for the one after when less than a
    tenth of a slot is left. *)
Lemma time_to_next_bounds now : 0 <= now ->
  mini_next_block_us <= time_to_next now < chain_timestamp_unit_us + mini_next_block_us /\ (now + time_to_next now) mod chain_timestamp_unit_us = 0.
Proof.
  unfold time_to_next, mini_next_block_us. change chain_timestamp_unit_us with 1000000. intros H. change (1000000 / 10) with 100000.
  rewrite Z.rem_mod_nonneg by lia. pose proof (Z.mod_pos_bound now 1000000 ltac:(lia)). pose proof (Z.div_mod now 1000000 ltac:(lia)) as E.
  destruct (Z.ltb_spec (1000000 - now mod 1000000) 100000); (split; [lia |]).
  - replace (now + _) with ((now / 1000000 + 2) * 1000000) by lia. apply Z_mod_mult.
  - replace (now + _) with ((now / 1000000 + 1) * 1000000) by lia. apply Z_mod_mult.
Qed.

Lemma next_slot now due : has_stamp now -> has_stamp due -> now + time_to_next now <= due -> _stamp (from now) < _stamp (from due).
Proof.
  intros A B L. rewrite !stamp_from by assumption. unfold has_stamp in A, B.
  pose proof (time_to_next_bounds now) as T. revert A B L T. unfold mini_next_block_us.
  change chain_timestamp_unit_us with 1000000. change chain_timestamp_epoch_us with 946684800000000. change (1000000 / 10) with 100000.
  intros A B L T. destruct (T ltac:(lia)) as [T1 T2]. clear T.
  apply Z.mod_divide in T2 as [k T2]; [| lia].
  apply (Z.lt_le_trans _ (k - 946684800)); [apply Z.div_lt_upper_bound; lia | apply Z.div_le_lower_bound; lia].
Qed.

(** ** The header of a block that is built *)

Section Built.
Context `{Crypto} `{AuthCodec} (hash_pair : sha256 -> sha256 -> sha256) (xmax_build_public_key : list Z) (skip_flags : Z) (hs : handlers).
Context (hash_message : message -> sha256) (js_apply : Z -> call -> M Context.world Z) (to_share : Z -> Z) (chain_id : sha256) (raw_idx : Z) (fuel : nat).
Context (pop : list transaction_request -> option (transaction_request * list transaction_request)).

Local Abbreviation build := (Chain.build_block hash_pair xmax_build_public_key skip_flags hs hash_message js_apply to_share chain_id raw_idx fuel pop).
Local Abbreviation one := (apply_request skip_flags hs hash_message js_apply to_share chain_id raw_idx fuel).

Lemma start_runs c : building_block c = None -> exists s,
  start c = Ret (set_status (0, 0) (set_building (Some (Pending s None [])) (set_db (fst (db_start_undo_session true (db_of c))) c))) tt.
Proof.
  intros B. unfold start, mbind, M_bind, gets. destruct (db_start_undo_session true (db_of c)) as [db s]. unfold update.
  rewrite abort_nothing by exact B. exists s. reflexivity.
Qed.

(** The parts of a header that are set at the start. *)
Definition header_start (h : signed_block_header) : sha256 * chain_timestamp * Z := (previous h, timestamp h, builder h).

Lemma init_by_pre_pack_start pre when m q : init_by_pre_pack new_pack pre when m = Ok q ->
  exists info, select_builder (current_builders pre) (new_builders pre)
      (u32 (round_slot pre + ChainUtils.get_delta_slot_at_time (timestamp (new_header pre)) when)) = Ok info /\
    header_start (new_header q) = (block_id pre, when, builder_name info).
Proof.
  unfold init_by_pre_pack. intros E. cbv zeta in E. apply bind_ok in E as (info & S & E). exists info. split; [exact S |].
  destruct (if _ >=? _ then _ else _) as [cur new]. injection E as <-. unfold generate_dpos. cbv zeta.
  destruct (last_block_of_builders pre); [| destruct (_ =? _); [| destruct (_ <? _)]]; reflexivity.
Qed.

Lemma next_builders_start p c c' u : building_at p c -> _generate_next_builders xmax_build_public_key c = Ret c' u ->
  building_at p c' /\ header_start (new_header (deref (fork_db c') p)) = header_start (new_header (deref (fork_db c) p)).
Proof.
  intros B E. unfold _generate_next_builders in E. rewrite (mbind_ret _ _ _ _ _ (read_pack_at p c B)) in E.
  destruct (new_round _); [| injection E as <- _; auto].
  rewrite (mbind_ret (gets (fun c => c)) _ c c c) in E by reflexivity. cbv zeta in E.
  destruct (set_next_builders _ _) as [q | e] eqn:S; [| unfold mbind, M_bind in E; cbn in E; destruct (String.eqb e "undefined"); discriminate].
  rewrite (mbind_ret (from_result (Ok q)) _ c c q), (write_pack_at p _ c B) in E by reflexivity. injection E as <- _.
  split; [apply put_at, B |]. rewrite deref_put, decide_True by reflexivity.
  unfold set_next_builders in S. apply bind_ok in S as (u1 & _ & S). apply bind_ok in S as (u2 & _ & S). cbv zeta in S.
  destruct (deref (fork_db c) p). injection S as <-. reflexivity.
Qed.

(** The pack a new block is made from, after it was put on the heap. *)
Definition head_after (c : chain_context) (h : ptr) : block_pack :=
  if decide (h = fresh (fork_db c)) then new_pack else deref (fork_db c) h.

Lemma started when c c1 u : _start_build xmax_build_public_key when c = Ret c1 u ->
  let p := fresh (fork_db c) in
  exists h q, building_at p c1 /\ head_pack c = Some h /\ init_by_pre_pack new_pack (head_after c h) when true = Ok q /\
    header_start (new_header (deref (fork_db c1) p)) = header_start (new_header q).
Proof.
  intros E p. unfold _start_build in E.
  unfold mbind at 1, M_bind at 1, gets at 1 in E. destruct (building_block c) as [|] eqn:B; [discriminate E |].
  rewrite (mbind_ret (require _ _) _ c c tt) in E by reflexivity.
  unfold mbind at 1, M_bind at 1 in E. destruct (head_block_time c) as [c' now | |] eqn:Eh; [| discriminate E ..].
  pose proof (reads_head_block_time c) as Rh. rewrite Eh in Rh. red in Rh. subst c'.
  unfold require in E. destruct (_ <? _); [| rewrite (mbind_exc _ _ c c _ eq_refl) in E; discriminate E].
  destruct (start_runs c B) as (s & Es).
  rewrite (mbind_ret (mret tt) _ c c tt) in E by reflexivity. unfold reset_on_exit in E. rewrite (mbind_ret _ _ _ _ _ Es) in E.
  set (c0 := set_status _ _) in *.
  destruct (capture_and_rethrow _ c0) as [c2 v | c2 e |] eqn:E2; [| destruct (_abort_build c2) eqn:Ab; unfold mbind, M_bind in E; rewrite Ab in E; discriminate E | discriminate E].
  injection E as -> _. unfold capture_and_rethrow in E2.
  match type of E2 with match ?o with _ => _ end = _ => destruct o as [c2 w | |] eqn:E; [| discriminate E2 ..] end. injection E2 as -> _.
  set (c3 := set_building (Some (Pending s (Some p) [])) (set_fork (fst (alloc (fork_db c0) new_pack)) c0)).
  rewrite (mbind_ret make_pack _ c0 (set_fork (fst (alloc (fork_db c0) new_pack)) c0) p) in E by reflexivity.
  rewrite (mbind_ret (update (set_pack p)) _ _ c3 tt) in E by reflexivity.
  assert (B3 : building_at p c3) by (eexists _, _; reflexivity).
  assert (D3 : forall q, deref (fork_db c3) q = if decide (q = p) then new_pack else deref (fork_db c) q).
  { intros q. unfold deref, deref_in. cbn. fold p.
    destruct (decide (q = p)) as [-> | N]; [rewrite lookup_insert_eq | rewrite lookup_insert_ne by congruence]; reflexivity. }
  unfold mbind at 1, M_bind at 1 in E. destruct (head_block c3) as [c4 hd | |] eqn:Hb; [| discriminate E ..].
  unfold head_block, the_head, at_ptr, mbind, M_bind, gets in Hb. change (head_pack c3) with (head_pack c) in Hb.
  destruct (head_pack c) as [h |] eqn:Hp; [| discriminate Hb]. unfold mret, M_ret in Hb. injection Hb as <- <-.
  exists h. rewrite D3 in E.
  rewrite (mbind_ret _ _ _ _ _ (read_pack_at p c3 B3)), D3, decide_True in E by reflexivity.
  unfold head_after. fold p.
  destruct (init_by_pre_pack new_pack _ when true) as [q | e] eqn:I; [| unfold mbind, M_bind in E; cbn in E; destruct (String.eqb e "undefined"); discriminate].
  rewrite (mbind_ret (from_result (Ok q)) _ c3 c3 q), (mbind_ret _ _ _ _ _ (write_pack_at p _ c3 B3)) in E by reflexivity.
  destruct (next_builders_start p _ _ _ (put_at p q c3 B3) E) as [B4 Hs].
  rewrite deref_put, decide_True in Hs by reflexivity. exists q. auto.
Qed.

(** Transactions leave the header alone. *)
Definition header_kept (c c' : chain_context) : Prop :=
  forall p, building_at p c -> building_at p c' /\ new_header (deref (fork_db c') p) = new_header (deref (fork_db c) p).
#[local] Instance header_kept_preorder : PreOrder header_kept.
Proof.
  split; [intros c p B; auto |]. intros a b c A B p Ba. destruct (A p Ba) as [Bb Eb]. destruct (B p Bb) as [Bc Ec]. split; [exact Bc | congruence].
Qed.

Lemma kept_in_building {A} (m : M applying A) : follows same_header m -> follows header_kept (in_building m).
Proof using.
  intros Hm c. unfold in_building. destruct (building_block c) as [[s [p |] rs] |] eqn:B; [| exact I ..].
  specialize (Hm (Applying (db_of c) (deref (fork_db c) p) rs (building_status c).1 (building_status c).2)).
  destruct (m _) as [x a | x e |]; [| | exact I]; intros p' (s' & rs' & B'); rewrite B in B'; injection B' as <- <- <-;
    (split; [eexists _, _; reflexivity |]; unfold deref at 1, deref_in; cbn; rewrite lookup_insert_eq; exact Hm).
Qed.

Lemma kept_apply_selected i : follows header_kept (apply_selected skip_flags hs hash_message js_apply to_share chain_id raw_idx fuel i).
Proof using.
  assert (U : forall f, follows header_kept (on_selection (update f))) by (intros f c p B; split; [exact B | reflexivity]).
  unfold apply_selected, apply_request, head_block_time, head_block_timestamp, head_block, the_head, at_ptr.
  repeat first [follow_step | apply U | apply kept_in_building, header_request].
Qed.

Lemma kept_selected n : forall k, follows header_kept (for_each (seq k n) (apply_selected skip_flags hs hash_message js_apply to_share chain_id raw_idx fuel)).
Proof using. intros k. apply follows_for_each; [exact _ | intros i; apply kept_apply_selected]. Qed.

Lemma kept_run {A} (m : M chain_context A) c c' a p : follows header_kept m -> m c = Ret c' a -> building_at p c ->
  building_at p c' /\ new_header (deref (fork_db c') p) = new_header (deref (fork_db c) p).
Proof using. intros F E B. specialize (F c). rewrite E in F. exact (F p B). Qed.

(** From the merkle root to the end. *)
Lemma sealed key q c2 c3 c4 c5 u3 u4 u5 : building_at q c2 ->
  _generate_block hash_pair c2 = Ret c3 u3 -> _sign_block key c3 = Ret c4 u4 -> _final_block c4 = Ret c5 u5 ->
  building_at q c5 /\ exists b : signed_block, block (deref (fork_db c5) q) = Some b /\
    header_start b = header_start (new_header (deref (fork_db c2) q)) /\ builder_signature b = sign_compact key (hash_header b).
Proof using.
  intros B2 E3 E4 E5.
  destruct (block (deref (fork_db c2) q)) as [b2 |] eqn:Eb2.
  2:{ exfalso. unfold _generate_block in E3. rewrite (mbind_ret _ _ _ _ _ (check_building_at q c2 B2)) in E3. unfold capture_and_rethrow in E3.
      rewrite (mbind_ret _ _ _ _ _ (read_pack_at q c2 B2)) in E3. unfold block_of in E3. rewrite Eb2 in E3. discriminate E3. }
  destruct (generate_at hash_pair q b2 c2 c3 u3 B2 Eb2 E3) as (root & Ec3).
  assert (B3 : building_at q c3) by (rewrite Ec3; apply put_at, B2).
  rewrite (sign_at key q c3 B3) in E4. injection E4 as <- _.
  set (h4 := sign (new_header (deref (fork_db c3) q)) key) in *.
  set (pk4 := with_validated_id (Block.id h4) (with_header h4 (deref (fork_db c3) q))) in *.
  assert (Dp3 : deref (fork_db c3) q = with_header (rooted (new_header (deref (fork_db c2) q)) root) (deref (fork_db c2) q))
    by (rewrite Ec3, deref_put, decide_True by reflexivity; reflexivity).
  assert (Eb4 : block (deref (fork_db (put q pk4 c3)) q) = Some b2).
  { rewrite deref_put, decide_True by reflexivity. subst pk4. rewrite Dp3. clear -Eb2. destruct (deref (fork_db c2) q); exact Eb2. }
  destruct (final_at q b2 (put q pk4 c3) c5 u5 (put_at q pk4 c3 B3) Eb4 E5) as [B5 Eb5]. split; [exact B5 |].
  assert (Hp4 : new_header (deref (fork_db (put q pk4 c3)) q) = h4).
  { rewrite deref_put, decide_True by reflexivity. subst pk4. destruct (deref (fork_db c3) q); reflexivity. }
  rewrite Hp4 in Eb5. exists (SignedBlock h4 (receipts b2)). split; [exact Eb5 |]. split; [| reflexivity].
  subst h4. rewrite Dp3. clear. destruct (deref (fork_db c2) q). reflexivity.
Qed.

(** A block that was built: made from the head, for the time it was asked for,
    and signed with the key that was given. *)
Lemma built when key c c' p : build when key c = Ret c' p ->
  exists c0 h info (b : signed_block), _abort_build c = Ret c0 tt /\ head_pack c0 = Some h /\ block (deref (fork_db c') p) = Some b /\
    let pre := head_after c0 h in
    select_builder (current_builders pre) (new_builders pre)
      (u32 (round_slot pre + ChainUtils.get_delta_slot_at_time (timestamp (new_header pre)) when)) = Ok info /\
    header_start b = (block_id pre, when, builder_name info) /\ builder_signature b = sign_compact key (hash_header b).
Proof using.
  intros E. unfold Chain.build_block in E. apply ret_of_bind in E as (c0 & [] & E0 & E). apply ret_of_bind in E as (c1 & [] & E1 & E).
  destruct (started when c0 c1 tt E1) as (h & q & B1 & Hp & I & Hs). set (r := fresh (fork_db c0)) in *.
  apply ret_of_bind in E as (c1' & u2 & E2 & E). unfold on_selection, on_part in E2.
  destruct (select_transactions_by_gas pop (selected c1)) as [sel v | |]; [| discriminate E2 ..]. injection E2 as <- _.
  apply ret_of_bind in E as (c1' & sel' & Eg & E). injection Eg as <- <-.
  apply ret_of_bind in E as (c2 & u3 & E3 & E).
  destruct (kept_run _ _ _ _ r (kept_selected _ _) E3 B1) as [B2 Hh].
  apply ret_of_bind in E as (c2' & u4 & E4 & E). unfold on_selection, on_part, update in E4. injection E4 as <- _.
  set (c2' := set_selected _ c2) in E. assert (B2' : building_at r c2') by exact B2.
  apply ret_of_bind in E as (c3 & u5 & E5 & E). apply ret_of_bind in E as (c4 & u6 & E6 & E).
  apply ret_of_bind in E as (c5 & u7 & E7 & E). apply ret_of_bind in E as (c5' & q' & E8 & E).
  apply ret_of_bind in E as (c6 & u9 & E9 & E). apply ret_of_bind in E as (c7 & u10 & E10 & E). injection E as <- <-.
  destruct (sealed key r c2' c3 c4 c5 u5 u6 u7 B2' E5 E6 E7) as (B5 & b & Eb & Hb & Sg).
  rewrite (the_pack_at r c5 B5) in E8. injection E8 as <- <-.
  pose proof (kept_push_block true c5) as K6. rewrite E9 in K6. destruct K6 as [_ K6].
  pose proof (commit_blocks c6) as K7. rewrite E10 in K7. rewrite <- K6, <- K7 in Eb.
  destruct (init_by_pre_pack_start _ _ _ _ I) as (info & S & Hi).
  exists c0, h, info, b. cbv zeta. split; [exact E0 |]. split; [exact Hp |]. split; [exact Eb |]. split; [exact S |]. split; [| exact Sg].
  rewrite Hb. change (fork_db c2') with (fork_db c2). rewrite Hh. change (fork_db (set_selected sel c1)) with (fork_db c1). rewrite Hs. exact Hi.
Qed.
End Built.

(** ** What a node sends *)

Definition blocks_of (l : list broadcast) : list signed_block := omap (fun x => match x with sent_block b => Some b | sent_confirm _ => None end) l.

(** The keys and the timer are untouched, and only confirmations were sent. *)
Record quiet `{Crypto} (n n' : node) : Prop := {
  quiet_builders : _builders n' = _builders n;
  quiet_keys : _builder_keys n' = _builder_keys n;
  quiet_timer : _timer n' = _timer n;
  quiet_sent : exists confs, broadcasts n' = broadcasts n ++ map sent_confirm confs }.
#[export] Instance quiet_preorder `{Crypto} : PreOrder quiet.
Proof.
  split; [intros n; split; [reflexivity .. |]; exists []; rewrite app_nil_r; reflexivity |].
  intros a b c [A1 A2 A3 (l & A4)] [B1 B2 B3 (m & B4)]. split; [congruence .. |]. exists (l ++ m). rewrite B4, A4, map_app, app_assoc. reflexivity.
Qed.

Lemma blocks_of_app l m : blocks_of (l ++ m) = blocks_of l ++ blocks_of m.
Proof. apply omap_app. Qed.
Lemma blocks_of_confirms confs : blocks_of (map sent_confirm confs) = [].
Proof. induction confs as [| x confs IH]; [reflexivity | exact IH]. Qed.
Lemma quiet_blocks `{Crypto} n n' : quiet n n' -> blocks_of (broadcasts n') = blocks_of (broadcasts n).
Proof. intros [_ _ _ (confs & ->)]. rewrite blocks_of_app, blocks_of_confirms, app_nil_r. reflexivity. Qed.

Section Node.
Context `{Crypto} `{AuthCodec} (hash_pair : sha256 -> sha256 -> sha256) (xmax_build_public_key : list Z) (skip_flags : Z).
Context (hs : handlers) (hash_message : message -> sha256) (js_apply : Z -> call -> M Context.world Z) (to_share : Z -> Z).
Context (chain_id : sha256) (raw_idx : Z) (fuel walk_fuel : nat).
Context (pop : list transaction_request -> option (transaction_request * list transaction_request)).

Local Abbreviation build_block := (BlockBuilder.build_block hash_pair xmax_build_public_key skip_flags hs hash_message js_apply to_share chain_id raw_idx fuel pop).
Local Abbreviation next_block_impl := (BlockBuilder.next_block_impl hash_pair xmax_build_public_key skip_flags hs hash_message js_apply to_share chain_id raw_idx fuel pop).
Local Abbreviation recieve_block := (BlockBuilder.recieve_block hash_pair xmax_build_public_key skip_flags hs hash_message js_apply to_share chain_id raw_idx fuel walk_fuel).
Local Abbreviation handle := (BlockBuilder.handle hash_pair xmax_build_public_key skip_flags hs hash_message js_apply to_share chain_id raw_idx fuel walk_fuel pop).
Local Abbreviation work := (BlockBuilder.work hash_pair xmax_build_public_key skip_flags hs hash_message js_apply to_share chain_id raw_idx fuel walk_fuel pop).
Local Abbreviation timely := (BlockBuilder.timely hash_pair xmax_build_public_key skip_flags hs hash_message js_apply to_share chain_id raw_idx fuel walk_fuel pop).

Lemma quiet_controller {A} (m : M chain_context A) : follows quiet (on_controller m).
Proof using. intros n. unfold on_controller. destruct (m (chain n)); [split; [reflexivity .. | exists []; rewrite app_nil_r; reflexivity] .. | exact I]. Qed.

Lemma quiet_confirm conf : follows quiet (update (send (sent_confirm conf))).
Proof using. apply follows_update. intros n. split; [reflexivity .. | exists [conf]; reflexivity]. Qed.

Local Hint Resolve quiet_controller quiet_confirm quiet_preorder : follow.

Lemma quiet_recieve b : follows quiet (recieve_block b).
Proof using.
  unfold BlockBuilder.recieve_block, BlockBuilder.confirm_block, confirm_with, fork_block. follow.
Qed.

Lemma quiet_self : follows quiet (confirmation_block_self skip_flags).
Proof using. unfold confirmation_block_self. follow. Qed.

(** A message sends no block and leaves the timer alone. *)
Lemma quiet_message e : (forall now later armed, e <> timer_fires now later armed) -> follows quiet (handle e).
Proof using.
  intros N. destruct e as [now later armed | b | l | conf | t]; [destruct (N now later armed eq_refl) | ..]; cbn [BlockBuilder.handle];
    unfold handle_block, handle_block_list, handle_confirmation; repeat first [follow_step | apply quiet_recieve].
Qed.

(** What a turn of the timer may have sent. *)
Definition may_build (now : Z) (n n' : node) : Prop :=
  blocks_of (broadcasts n') = blocks_of (broadcasts n) \/
  exists b : signed_block, timestamp b = from now /\ blocks_of (broadcasts n') = blocks_of (broadcasts n) ++ [b].

Lemma may_build_quiet now n n1 n2 : may_build now n n1 -> quiet n1 n2 -> may_build now n n2.
Proof using. intros M Q. unfold may_build in *. rewrite (quiet_blocks _ _ Q). exact M. Qed.
Lemma quiet_may_build now n n1 : quiet n n1 -> may_build now n n1.
Proof using. intros Q. left. apply quiet_blocks, Q. Qed.

(** The last steps of build_block, from the pack on. *)
Lemma build_block_may now n :
  match build_block now n with
  | Ret n' _ | Exc n' _ => _timer n' = _timer n /\ may_build now n n'
  | Undef => True
  end.
Proof using.
  unfold BlockBuilder.build_block. cbv zeta.
  assert (S : forall {A B} (m : M chain_context A) (k : A -> M node B) n0, quiet n n0 ->
    (forall a n1 c, m (chain n0) = Ret c a -> n1 = set_chain c n0 -> quiet n n1 ->
       match k a n1 with Ret n' _ | Exc n' _ => _timer n' = _timer n /\ may_build now n n' | Undef => True end) ->
    match (a ← on_controller m; k a) n0 with Ret n' _ | Exc n' _ => _timer n' = _timer n /\ may_build now n n' | Undef => True end).
  { intros A B m k n0 Q K. pose proof (quiet_controller m n0) as Qm. unfold mbind, M_bind, on_controller in *.
    destruct (m (chain n0)) as [c a | c e |] eqn:E; [| | exact I].
    - exact (K a (set_chain c n0) c eq_refl eq_refl (transitivity Q Qm)).
    - assert (Q2 : quiet n (set_chain c n0)) by exact (transitivity Q Qm). split; [apply (quiet_timer _ _ Q2) | apply quiet_may_build, Q2]. }
  assert (Stop : forall n1 : node, quiet n n1 -> _timer n1 = _timer n /\ may_build now n n1)
    by (intros n1 Q; split; [apply (quiet_timer _ _ Q) | apply quiet_may_build, Q]).
  apply S; [reflexivity |]. intros delta n1 c1 _ _ Q1. destruct (delta =? 0); [apply Stop, Q1 |].
  apply S; [exact Q1 |]. intros info n2 c2 _ _ Q2. unfold mbind at 1, M_bind at 1, gets.
  destruct (negb _); [apply Stop, Q2 |]. destruct (_builder_keys n2 !! _) as [key |]; [| apply Stop, Q2].
  apply S; [exact Q2 |]. intros p n3 c3 E3 -> Q3.
  destruct (built _ _ _ _ _ _ _ _ _ _ _ _ _ _ _ _ E3) as (c0 & h & inf & b & _ & _ & Eb & _ & Hb & _). injection Hb as _ Hw _.
  rewrite (mbind_ret (on_controller (at_ptr p)) _ _ (set_chain c3 n2) (deref (fork_db c3) p)) by reflexivity.
  unfold block_of. rewrite Eb. rewrite (mbind_ret (on_controller (mret b)) _ _ (set_chain c3 n2) b) by reflexivity.
  unfold mbind, M_bind, update, mret, M_ret. split; [apply (quiet_timer _ _ Q3) |]. right. exists b. split; [exact Hw |].
  cbn [send broadcasts]. rewrite blocks_of_app. fold (set_chain c3 n2). rewrite (quiet_blocks _ _ Q3). reflexivity.
Qed.

Lemma next_block_impl_may now later armed n :
  match next_block_impl now later armed n with
  | Ret n' _ => _timer n' = Some (armed + time_to_next later, call_next_block_impl) /\ may_build now n n'
  | Exc n' _ => _timer n' = _timer n /\ may_build now n n'
  | Undef => True
  end.
Proof using.
  unfold BlockBuilder.next_block_impl. pose proof (build_block_may now n) as B. unfold mbind at 1, M_bind at 1. unfold catch_fc.
  destruct (build_block now n) as [n1 cond | n1 e |]; [| | exact I].
  - set (m := match cond with generated => confirmation_block_self skip_flags | _ => mret tt end).
    assert (G : follows quiet m) by (subst m; destruct cond; [apply quiet_self | apply follows_ret; exact _ ..]). specialize (G n1). clearbody m.
    unfold mbind at 1, M_bind at 1. destruct (m n1) as [n2 u | n2 e |]; [| | exact I].
    + cbn. split; [reflexivity |]. exact (may_build_quiet now n n1 n2 (proj2 B) G).
    + split; [rewrite (quiet_timer _ _ G); apply B | exact (may_build_quiet now n n1 n2 (proj2 B) G)].
  - destruct (fc_exception e); [| exact B]. cbn. split; [reflexivity | apply B].
Qed.

(** ** The blocks of a run *)

Definition later_block (b b' : signed_block) : Prop := _stamp (timestamp b) < _stamp (timestamp b').

(** What was sent is in order, and any time the timer may fire at has a later
    stamp. *)
Definition in_order (n : node) : Prop :=
  Sorted.StronglySorted later_block (blocks_of (broadcasts n)) /\
  match _timer n with
  | Some (due, _) => forall t, has_stamp t -> due <= t -> Forall (fun b : signed_block => _stamp (timestamp b) < _stamp (from t)) (blocks_of (broadcasts n))
  | None => True
  end.

Lemma sorted_snoc l b : Sorted.StronglySorted later_block l -> Forall (fun x : signed_block => later_block x b) l -> Sorted.StronglySorted later_block (l ++ [b]).
Proof using.
  intros S F. induction S as [| x l S IH Fx]; cbn; [repeat constructor |]. apply Forall_cons in F as [Hx F].
  constructor; [exact (IH F) |]. apply Forall_app. split; [exact Fx | repeat constructor; exact Hx].
Qed.

Lemma sorted_lookup l i j b b' : Sorted.StronglySorted later_block l -> l !! i = Some b -> l !! j = Some b' -> (i < j)%nat -> later_block b b'.
Proof using.
  intros S. revert i j. induction S as [| x l S IH F]; intros i j Ei Ej L; [discriminate Ei |].
  destruct j as [| j]; [lia |]. destruct i as [| i]; [| exact (IH i j Ei Ej ltac:(lia))].
  injection Ei as <-. exact (proj1 (Forall_lookup _ _) F j b' Ej).
Qed.

Lemma may_build_sorted now n n' : may_build now n n' -> Sorted.StronglySorted later_block (blocks_of (broadcasts n)) ->
  Forall (fun b : signed_block => _stamp (timestamp b) < _stamp (from now)) (blocks_of (broadcasts n)) ->
  Sorted.StronglySorted later_block (blocks_of (broadcasts n')) /\ Forall (fun b : signed_block => _stamp (timestamp b) <= _stamp (from now)) (blocks_of (broadcasts n')).
Proof using.
  intros M S F. assert (F' : Forall (fun b : signed_block => _stamp (timestamp b) <= _stamp (from now)) (blocks_of (broadcasts n)))
    by (eapply Forall_impl; [exact F | cbn; intros; lia]).
  destruct M as [-> | (b & Hb & ->)]; [auto |]. split.
  - apply sorted_snoc; [exact S |]. eapply Forall_impl; [exact F |]. intros x Hx. unfold later_block. rewrite Hb. exact Hx.
  - apply Forall_app. split; [exact F' |]. repeat constructor. rewrite Hb. lia.
Qed.

Lemma timer_in_order now later armed n : has_stamp now -> now <= later -> later <= armed -> has_stamp armed ->
  match _timer n with Some (due, _) => due <= now | None => True end -> in_order n ->
  match handle (timer_fires now later armed) n with
  | Ret n' _ | Exc n' _ => in_order n'
  | Undef => True
  end.
Proof using.
  intros Hn Hl Ha Sa D [S O]. cbn [BlockBuilder.handle]. unfold mbind at 1, M_bind at 1, gets. unfold mbind at 1, M_bind at 1, update at 1. set (n0 := set_timer None n).
  assert (Sl : has_stamp later) by (unfold has_stamp in *; lia).
  destruct (_timer n) as [[due cb] |] eqn:T; [| split; [exact S | exact I]].
  assert (F : Forall (fun b : signed_block => _stamp (timestamp b) < _stamp (from now)) (blocks_of (broadcasts n0))) by exact (O now Hn D).
  assert (Next : forall t, has_stamp t -> armed + time_to_next later <= t -> _stamp (from now) < _stamp (from t)).
  { intros t Ht L. pose proof (from_mono now later Hn Sl Hl). pose proof (next_slot later t Sl Ht ltac:(lia)). lia. }
  destruct cb.
  - cbn. split; [exact S |]. intros t Ht L. pose proof (time_to_next_bounds now) as B. assert (Hn0 : 0 <= now) by (destruct Hn as [Hn _]; change chain_timestamp_epoch_us with 946684800000000 in Hn; lia).
    specialize (B Hn0). apply O; [exact Ht |].
    destruct B as [[B _] _]. change mini_next_block_us with 100000 in B. lia.
  - pose proof (next_block_impl_may now later armed n0) as M. unfold mbind at 1, M_bind at 1.
    destruct (next_block_impl now later armed n0) as [n' c | n' e |]; [| | exact I]; destruct M as [Tm M];
      destruct (may_build_sorted now n0 n' M S F) as [S' F']; (split; [exact S' |]); rewrite Tm; [| exact I].
    intros t Ht L. eapply Forall_impl; [exact F' |]. intros b Hb. exact (Z.le_lt_trans _ _ _ Hb (Next t Ht L)).
Qed.

Lemma quiet_in_order n n' : quiet n n' -> in_order n -> in_order n'.
Proof using. intros Q O. split; [rewrite (quiet_blocks _ _ Q); apply O |]. rewrite (quiet_timer _ _ Q), (quiet_blocks _ _ Q). apply O. Qed.

Lemma handle_in_order e l clock n : timely clock (e :: l) n -> in_order n ->
  match handle e n with Ret n' _ | Exc n' _ => in_order n' | Undef => True end.
Proof using.
  intros T O. destruct e as [now later armed | | | |].
  - cbn [BlockBuilder.timely] in T. destruct T as (_ & T2 & T3 & T4 & T5 & T6 & _).
    apply timer_in_order; [unfold has_stamp; lia | assumption .. | unfold has_stamp; lia | assumption | assumption].
  - pose proof (quiet_message (block_arrives b) ltac:(discriminate) n) as Q. destruct (handle _ n); [exact (quiet_in_order _ _ Q O) .. | exact I].
  - pose proof (quiet_message (block_list_arrives l0) ltac:(discriminate) n) as Q. destruct (handle _ n); [exact (quiet_in_order _ _ Q O) .. | exact I].
  - pose proof (quiet_message (confirmation_arrives conf) ltac:(discriminate) n) as Q. destruct (handle _ n); [exact (quiet_in_order _ _ Q O) .. | exact I].
  - pose proof (quiet_message (transaction_arrives t) ltac:(discriminate) n) as Q. destruct (handle _ n); [exact (quiet_in_order _ _ Q O) .. | exact I].
Qed.

Lemma work_in_order l : forall clock n, timely clock l n -> in_order n ->
  match work l n with Ret n' _ | Exc n' _ => in_order n' | Undef => True end.
Proof using.
  induction l as [| e l IH]; intros clock n T O; [exact O |].
  pose proof (handle_in_order e l clock n T O) as G. unfold BlockBuilder.work in *. cbn [for_each]. unfold mbind, M_bind.
  assert (C : exists clock', match handle e n with Ret n' _ => timely clock' l n' | _ => True end).
  { destruct e as [now later armed | | | |]; cbn [BlockBuilder.timely] in T; [exists armed; apply T | exists clock; exact T ..]. }
  destruct C as (clock' & C). destruct (handle e n) as [n' u | |]; [exact (IH clock' n' C G) | exact G | exact I].
Qed.

(** ** In its turn *)

(** The database has the builder lists and the slot of the head. *)
Definition agreed (hd : block_pack) (c : chain_context) : Prop :=
  get_static_config c = Ret c (StaticConfig (current_builders hd) (new_builders hd)) /\
  exists st, get_dynamic_states c = Ret c st /\ ds_round_slot st = round_slot hd.

(** Who builds the block after [hd] at a time, by the rule of the packs. *)
Definition scheduled (hd : block_pack) (when : chain_timestamp) : result builder_info :=
  select_builder (current_builders hd) (new_builders hd) (u32 (round_slot hd + ChainUtils.get_delta_slot_at_time (timestamp (new_header hd)) when)).

Lemma head_block_at h hd c : idle h hd c -> head_block c = Ret c hd.
Proof using.
  intros [_ Hd Hp _ _]. unfold head_block, the_head, at_ptr, mbind, M_bind, gets, deref, deref_in. rewrite Hd. cbn. rewrite Hp. reflexivity.
Qed.

Lemma delta_slot_at h hd c when : idle h hd c -> get_delta_slot_at_time when c = Ret c (ChainUtils.get_delta_slot_at_time (timestamp (new_header hd)) when).
Proof using.
  intros I. unfold get_delta_slot_at_time, head_block_timestamp. unfold mbind, M_bind. rewrite (head_block_at h hd c I). reflexivity.
Qed.

Lemma block_builder_at h hd c when : idle h hd c -> agreed hd c ->
  get_block_builder (ChainUtils.get_delta_slot_at_time (timestamp (new_header hd)) when) c = from_result (scheduled hd when) c.
Proof using.
  intros I (Cf & st & Ds & Sl). unfold get_block_builder, get_order_builder, scheduled.
  rewrite (mbind_ret _ _ _ _ _ Ds), (mbind_ret _ _ _ _ _ Cf), Sl. reflexivity.
Qed.

Lemma on_controller_ret {A} (m : M chain_context A) n c a : m (chain n) = Ret c a -> on_controller m n = Ret (set_chain c n) a.
Proof using. unfold on_controller. intros ->. reflexivity. Qed.

Lemma set_chain_same n : set_chain (chain n) n = n.
Proof using. destruct n; reflexivity. Qed.

Lemma on_controller_read {A} (m : M chain_context A) n a : m (chain n) = Ret (chain n) a -> on_controller m n = Ret n a.
Proof using. intros E. rewrite (on_controller_ret _ _ _ _ E), set_chain_same. reflexivity. Qed.

(** What build_block does, up to the controller. *)
Lemma build_block_runs h hd now n : idle h hd (chain n) -> agreed hd (chain n) ->
  build_block now n =
    (let delta := ChainUtils.get_delta_slot_at_time (timestamp (new_header hd)) (from now) in
     if delta =? 0 then Ret n not_time_yet
     else match scheduled hd (from now) with
          | Throw e => if String.eqb e "undefined" then Undef else Exc n e
          | Ok info =>
              if negb (bool_decide (builder_name info ∈ _builders n)) then Ret n not_my_turn
              else match _builder_keys n !! block_signing_key info with
                   | None => Ret n no_private_key
                   | Some key =>
                       match Chain.build_block hash_pair xmax_build_public_key skip_flags hs hash_message js_apply to_share chain_id raw_idx fuel pop
                               (from now) key (chain n) with
                       | Ret c p => match block (deref (fork_db c) p) with
                                    | Some b => Ret (send (sent_block b) (set_chain c n)) generated
                                    | None => Undef end
                       | Exc c e => Exc (set_chain c n) e
                       | Undef => Undef
                       end
                   end
          end).
Proof using.
  intros I A. unfold BlockBuilder.build_block. cbv zeta.
  rewrite (mbind_ret _ _ _ _ _ (on_controller_read _ n _ (delta_slot_at h hd _ (from now) I))).
  destruct (_ =? 0); [reflexivity |]. unfold mbind at 1, M_bind at 1. unfold on_controller at 1. rewrite (block_builder_at h hd _ _ I A).
  destruct (scheduled hd (from now)) as [info | e]; [| cbn; destruct (String.eqb e "undefined"); [reflexivity | unfold throw; rewrite set_chain_same; reflexivity]].
  cbn [from_result mret M_ret]. unfold mret, M_ret. rewrite set_chain_same.
  rewrite (mbind_ret (gets (fun n => n)) _ n n n) by reflexivity.
  destruct (negb _); [reflexivity |]. destruct (_builder_keys n !! _) as [key |]; [| reflexivity].
  unfold mbind at 1, M_bind at 1. unfold on_controller at 1.
  destruct (Chain.build_block _ _ _ _ _ _ _ _ _ _ _ (from now) key (chain n)) as [c p | |]; [| reflexivity ..].
  rewrite (mbind_ret (on_controller (at_ptr p)) _ _ (set_chain c n) (deref (fork_db c) p)) by reflexivity.
  unfold block_of. destruct (block (deref (fork_db c) p)) as [b |]; [| reflexivity].
  rewrite (mbind_ret (on_controller (mret b)) _ _ (set_chain c n) b) by reflexivity. reflexivity.
Qed.

(** The block is the scheduled builder's, on the head. *)
Lemma built_on_head h hd when key c c' p info : idle h hd c -> scheduled hd when = Ok info ->
  Chain.build_block hash_pair xmax_build_public_key skip_flags hs hash_message js_apply to_share chain_id raw_idx fuel pop when key c = Ret c' p ->
  exists b : signed_block, block (deref (fork_db c') p) = Some b /\ header_start b = (block_id hd, when, builder_name info) /\
    builder_signature b = sign_compact key (hash_header b).
Proof using.
  intros I S E. destruct (built _ _ _ _ _ _ _ _ _ _ _ _ _ _ _ _ E) as (c0 & h' & info' & b & E0 & Hp & Eb & S' & Hb & Sg).
  rewrite (abort_nothing c (idle_building _ _ _ I)) in E0. injection E0 as <-.
  rewrite (idle_head _ _ _ I) in Hp. injection Hp as <-.
  assert (Eh : head_after c h = hd).
  { unfold head_after. pose proof (idle_pack _ _ _ I) as P. rewrite decide_False by (intros ->; rewrite (idle_fresh _ _ _ I) in P; discriminate).
    unfold deref, deref_in. rewrite P. reflexivity. }
  rewrite Eh in S', Hb. unfold scheduled in S. rewrite S in S'. injection S' as <-. exists b. auto.
Qed.

Lemma idle_queue h hd c queue : idle h hd c -> idle h hd (set_selected queue c).
Proof using. intros [B Hd P F R]. split; assumption. Qed.

Lemma agreed_queue hd c queue : agreed hd c -> agreed hd (set_selected queue c).
Proof using.
  intros (Cf & st & Ds & Sl). split; [| exists st; split; [| exact Sl]].
  - exact (blind_move get_static_config queue c c _ (blind_on_db _) Cf).
  - exact (blind_move get_dynamic_states queue c c _ (blind_on_db _) Ds).
Qed.

(** A block on the head goes to confirm_block. *)
Lemma recieve_linked h hd (b : signed_block) n : idle h hd (chain n) -> num_from_id (block_id hd) = block_num hd -> 0 <= block_num hd < 2 ^ 32 ->
  previous b = block_id hd ->
  recieve_block b n = BlockBuilder.confirm_block hash_pair xmax_build_public_key skip_flags hs hash_message js_apply to_share chain_id raw_idx fuel b n.
Proof using.
  intros I Nm R Pr. unfold BlockBuilder.recieve_block. cbv zeta.
  assert (Hn : on_controller head_block_num n = Ret n (block_num hd)).
  { apply on_controller_read. unfold head_block_num. rewrite (mbind_ret _ _ _ _ _ (head_block_at h hd _ I)). reflexivity. }
  assert (Hi : on_controller head_block_id n = Ret n (block_id hd)).
  { apply on_controller_read. unfold head_block_id. rewrite (mbind_ret _ _ _ _ _ (head_block_at h hd _ I)). reflexivity. }
  rewrite (mbind_ret _ _ _ _ _ Hn). unfold Block.block_num. rewrite Pr, Nm.
  assert (E : u32 (u32 (block_num hd + 1) - 1) = block_num hd).
  { unfold u32. rewrite Zminus_mod_idemp_l. replace (block_num hd + 1 - 1) with (block_num hd) by lia. apply Z.mod_small, R. }
  rewrite E, Z.eqb_refl. rewrite (mbind_ret _ _ n n true); [reflexivity |]. rewrite (mbind_ret _ _ _ _ _ Hi), bool_decide_true; reflexivity.
Qed.

(** confirm_block, up to the confirmations. *)
Lemma confirm_block_runs h hd (b : signed_block) n c p : idle h hd (chain n) -> agreed hd (chain n) ->
  Chain.confirm_block hash_pair xmax_build_public_key skip_flags hs hash_message js_apply to_share chain_id raw_idx fuel b (chain n) = Ret c p ->
  exists keys, BlockBuilder.confirm_block hash_pair xmax_build_public_key skip_flags hs hash_message js_apply to_share chain_id raw_idx fuel b n =
    for_each keys (fun key => x ← on_controller (at_ptr p); confirm_with skip_flags (block_id x) key) (set_chain c n).
Proof using.
  intros I A E. destruct A as (Cf & st & Ds & _). unfold BlockBuilder.confirm_block.
  assert (So : exists slot, on_controller (get_order_slot_at_time (timestamp b)) n = Ret n slot).
  { eexists. apply on_controller_read. unfold get_order_slot_at_time. rewrite (mbind_ret _ _ _ _ _ (delta_slot_at h hd _ _ I)), (mbind_ret _ _ _ _ _ Ds). reflexivity. }
  destruct So as (slot & So). rewrite (mbind_ret _ _ _ _ _ So).
  assert (Sv : exists rule, on_controller (get_verifiers_by_order slot) n = Ret n rule).
  { eexists. apply on_controller_read. unfold get_verifiers_by_order. rewrite (mbind_ret _ _ _ _ _ Cf). reflexivity. }
  destruct Sv as (rule & Sv). rewrite (mbind_ret _ _ _ _ _ Sv), (mbind_ret (gets (fun n => n)) _ n n n) by reflexivity. cbv zeta.
  rewrite (mbind_ret _ _ _ _ _ (on_controller_ret _ n c p E)). eexists. reflexivity.
Qed.
End Node.

(** ** Confirmations *)

Section Confirm.
Context `{Crypto} (skip_flags : Z) (public_of : private_key -> list Z).
Hypothesis Recover : forall key d, recover (sign_compact key d) d = Ok (public_of key).

Local Abbreviation handle_confirmation := (BlockBuilder.handle_confirmation skip_flags).

Definition settled (c : chain_context) : Prop := wf (fork_db c) /\ numbered (fork_db c).

(** A confirmation signed with a key is taken or refused, and when it is
    refused nothing has changed. *)
Lemma push_settles conf key c : conf_signature conf = sign_compact key (conf_digest conf) -> settled c ->
  match push_confirmation skip_flags conf c with
  | Ret c' _ => settled c'
  | Exc c' _ => c' = c
  | Undef => False
  end.
Proof using Recover.
  intros Sg [W N]. unfold push_confirmation, process_confirmation, Chain.on_fork, on_part, stepped.
  destruct (ForkDb.add_confirmation (fork_db c) conf skip_flags) as [f' | e] eqn:E.
  - exact (add_confirmation_wf _ _ _ _ W N E).
  - assert (X : e = "Unknown block id"%string \/ e = "confirmation_validate_exception"%string).
    { unfold ForkDb.add_confirmation in E. destruct (get_block (fork_db c) (conf_block_id conf)) as [p |] eqn:G; [| injection E as <-; auto]. right.
      destruct (BlockPack.add_confirmation (deref (fork_db c) p) conf skip_flags) as [b | e'] eqn:Eb; cbn [bind] in E.
      - exfalso. cbv zeta in E. destruct (enough_confirmation b); [| discriminate E]. destruct (_ <? _); [| discriminate E].
        destruct (confirmed_store_wf _ p _ _ b W N Eb) as (W' & N' & Ib).
        assert (G' : by_block_id (store (fork_db c) p b) !! block_id b = Some p).
        { rewrite Ib. cbn. apply (member_lookup _ p W). eexists. exact G. }
        destruct (set_last_confirmed_spec _ _ _ W' N' G') as (c'' & E' & _). rewrite E' in E. discriminate E.
      - injection E as <-. unfold BlockPack.add_confirmation in Eb. destruct (_ =? _); [| discriminate Eb].
        destruct (confirmations _); [| discriminate Eb]. unfold conf_is_signer_valid, conf_signer_key in Eb. rewrite Sg, Recover in Eb. cbn in Eb.
        destruct (bool_decide _); [discriminate Eb | injection Eb as <-; reflexivity]. }
    destruct X as [-> | ->]; cbn; destruct c; reflexivity.
Qed.

(** What one node confirms and sends another takes, and they agree. *)
Lemma confirm_both id key (a b : node) queue : settled (chain a) -> chain b = set_selected queue (chain a) ->
  match confirm_with skip_flags id key b with
  | Ret b' _ => exists a' conf, handle_confirmation conf a = Ret a' tt /\ broadcasts b' = broadcasts b ++ [sent_confirm conf] /\
      chain b' = set_selected queue (chain a') /\ settled (chain a')
  | Exc b' _ => broadcasts b' = broadcasts b /\ chain b' = set_selected queue (chain a)
  | Undef => False
  end.
Proof using Recover.
  intros Sa Eb. unfold confirm_with. cbv zeta. set (conf := make_conf id key.1 key.2).
  pose proof (push_settles conf key.2 (chain a) eq_refl Sa) as P.
  assert (B : blind (push_confirmation skip_flags conf)) by apply blind_on_fork. specialize (B queue (chain a)).
  unfold mbind, M_bind. unfold on_controller. rewrite Eb, B. destruct (push_confirmation skip_flags conf (chain a)) as [c [] | c e |] eqn:E; cbn.
  - exists (set_chain c a), conf. split; [| auto]. unfold BlockBuilder.handle_confirmation, catch_all, on_controller. rewrite E. reflexivity.
  - subst c. auto.
  - destruct P.
Qed.

Lemma confirm_loop keys p : forall (a b : node) queue, settled (chain a) -> chain b = set_selected queue (chain a) ->
  match for_each keys (fun key => x ← on_controller (at_ptr p); confirm_with skip_flags (block_id x) key) b with
  | Ret b' _ | Exc b' _ => exists a' confs, for_each confs handle_confirmation a = Ret a' tt /\
      broadcasts b' = broadcasts b ++ map sent_confirm confs /\ chain b' = set_selected queue (chain a')
  | Undef => False
  end.
Proof using Recover.
  induction keys as [| key keys IH]; intros a b queue Sa Eb.
  - exists a, []. cbn. rewrite app_nil_r. auto.
  - cbn [for_each]. unfold mbind at 1, M_bind at 1.
    rewrite (mbind_ret (on_controller (at_ptr p)) _ b b (deref (fork_db (chain b)) p)) by (unfold on_controller, at_ptr, gets; rewrite set_chain_same; reflexivity).
    pose proof (confirm_both (block_id (deref (fork_db (chain b)) p)) key a b queue Sa Eb) as C.
    destruct (confirm_with skip_flags _ key b) as [b1 u | b1 e |]; [| | exact C].
    + destruct C as (a1 & conf & Ea & Bc & Ec & S1). specialize (IH a1 b1 queue S1 Ec).
      assert (Go : forall b', (exists a' confs, for_each confs handle_confirmation a1 = Ret a' tt /\
        broadcasts b' = broadcasts b1 ++ map sent_confirm confs /\ chain b' = set_selected queue (chain a')) ->
        exists a' confs, for_each confs handle_confirmation a = Ret a' tt /\
          broadcasts b' = broadcasts b ++ map sent_confirm confs /\ chain b' = set_selected queue (chain a')).
      { intros b' (a' & confs & X & Y & Z). exists a', (conf :: confs). cbn [for_each map]. split; [rewrite (mbind_ret _ _ _ _ _ Ea); exact X |].
        split; [| exact Z]. rewrite Y, Bc, <- app_assoc. reflexivity. }
      destruct (for_each keys _ b1); [exact (Go _ IH) .. | exact IH].
    + destruct C as [Bc Ec]. exists a, []. cbn. rewrite app_nil_r. auto.
Qed.
End Confirm.
