(* ===== verification/BlockBuilderProps.v ===== *)
(** Properties of a node that builds and confirms blocks: it builds in its
    turn, once in a slot, and what it builds other nodes take and confirm. *)

From Stdlib Require Import ZArith Lia Bool String List.
From stdpp Require Import base decidable gmap list.
From S2P Require Import Prelude ChainUtils Block BlockPack Effects UndoIndex UndoIndexThm DbSession Objects Tables Context Authority AuthorityThm Voting.
From S2P Require Import SystemContract SystemContractProps NativeApi Tracked Transaction Applying ApplyingThm ApplyingProps Replay ForkDb ForkDbInv ForkRun.
From S2P Require Import Chain ChainUndo ChainReplay ChainProps BlockBuilder BlockBuilderThm.
Import ListNotations.
Local Open Scope Z_scope.

(** C3: a node signs no two blocks for one slot.  Whatever it receives and
    whatever becomes of it, the blocks a node sends over any run have stamps
    that grow strictly, as long as its clock does not go back, its timer never
    fires before it is due, and times have stamps. *)
Theorem one_block_per_slot `{Crypto} `{AuthCodec} hash_pair xmax_build_public_key skip_flags hs hash_message js_apply to_share chain_id
    raw_idx fuel walk_fuel pop clock l (n : node) :
  blocks_of (broadcasts n) = [] ->
  timely hash_pair xmax_build_public_key skip_flags hs hash_message js_apply to_share chain_id raw_idx fuel walk_fuel pop clock l n ->
  match work hash_pair xmax_build_public_key skip_flags hs hash_message js_apply to_share chain_id raw_idx fuel walk_fuel pop l n with
  | Ret n' _ | Exc n' _ =>
      forall i j (b b' : signed_block), (i < j)%nat -> blocks_of (broadcasts n') !! i = Some b -> blocks_of (broadcasts n') !! j = Some b' ->
        _stamp (timestamp b) < _stamp (timestamp b')
  | Undef => True
  end.
Proof.
  intros None T. assert (O : in_order n).
  { split; rewrite None; [constructor |]. destruct (_timer n) as [[due cb] |]; [intros; constructor | exact I]. }
  pose proof (work_in_order hash_pair xmax_build_public_key skip_flags hs hash_message js_apply to_share chain_id raw_idx fuel walk_fuel pop
    l clock n T O) as W.
  destruct (work _ _ _ _ _ _ _ _ _ _ _ _ l n) as [n' u | n' e |]; [| | exact W];
    intros i j b b' L Ei Ej; exact (sorted_lookup _ i j b b' (proj1 W) Ei Ej L).
Qed.

(** C4: a node builds in its turn only, and says why it does not.  Between two
    blocks, with a database that agrees with the head: before the next slot, in
    the slot of a builder it does not speak for, or without the key of that
    builder, build_block changes nothing; otherwise it either throws and sends
    nothing, or sends one block and nothing else, which is built on the head for
    the current slot, names the builder of the slot by the rule the packs of all
    nodes use, and is signed with the key imported for that builder's key. *)
Theorem builds_in_its_turn `{Crypto} `{AuthCodec} hash_pair xmax_build_public_key skip_flags hs hash_message js_apply to_share chain_id
    raw_idx fuel pop h hd now (n : node) :
  idle h hd (chain n) -> agreed hd (chain n) ->
  match BlockBuilder.build_block hash_pair xmax_build_public_key skip_flags hs hash_message js_apply to_share chain_id raw_idx fuel pop now n with
  | Ret n' generated => exists info key (b : signed_block),
      0 < ChainUtils.get_delta_slot_at_time (timestamp (new_header hd)) (from now) /\
      scheduled hd (from now) = Ok info /\ builder_name info ∈ _builders n /\ _builder_keys n !! block_signing_key info = Some key /\
      broadcasts n' = broadcasts n ++ [sent_block b] /\
      previous b = block_id hd /\ timestamp b = from now /\ builder b = builder_name info /\ builder_signature b = sign_compact key (hash_header b)
  | Ret n' why => n' = n /\
      match why with
      | not_time_yet => ChainUtils.get_delta_slot_at_time (timestamp (new_header hd)) (from now) = 0
      | not_my_turn => exists info, scheduled hd (from now) = Ok info /\ builder_name info ∉ _builders n
      | no_private_key => exists info, scheduled hd (from now) = Ok info /\ _builder_keys n !! block_signing_key info = None
      | _ => False
      end
  | Exc n' _ => broadcasts n' = broadcasts n
  | Undef => True
  end.
Proof.
  intros I A. rewrite (build_block_runs _ _ _ _ _ _ _ _ _ _ _ h hd now n I A). cbv zeta.
  assert (D0 : 0 <= ChainUtils.get_delta_slot_at_time (timestamp (new_header hd)) (from now)).
  { unfold ChainUtils.get_delta_slot_at_time. destruct (stamp_lt _ _); [lia |]. apply Z.mod_pos_bound. lia. }
  destruct (Z.eqb_spec (ChainUtils.get_delta_slot_at_time (timestamp (new_header hd)) (from now)) 0); [auto |].
  destruct (scheduled hd (from now)) as [info | e] eqn:S; [| destruct (String.eqb e "undefined"); exact Logic.I || reflexivity].
  destruct (negb (bool_decide (builder_name info ∈ _builders n))) eqn:In.
  { split; [reflexivity |]. exists info. split; [reflexivity |]. apply negb_true_iff, bool_decide_eq_false in In. exact In. }
  apply negb_false_iff, bool_decide_eq_true in In.
  destruct (_builder_keys n !! block_signing_key info) as [key |] eqn:K; [| eauto].
  destruct (Chain.build_block _ _ _ _ _ _ _ _ _ _ _ (from now) key (chain n)) as [c p | c e |] eqn:E; [| reflexivity | exact Logic.I].
  destruct (built_on_head _ _ _ _ _ _ _ _ _ _ _ h hd (from now) key (chain n) c p info I S E) as (b & -> & Hb & Sg).
  injection Hb as P T B. exists info, key, b. split_and!; auto. lia.
Qed.

(** The builder's object holds the key it is scheduled with. *)
Definition registered (info : builder_info) (db : list (generic_index row)) : Prop :=
  exists id o, find_id (fun o => bo_owner o =? builder_name info) (table builder_object db) = Some id /\
    table builder_object db !! id = Some o /\ signing_key o = block_signing_key info.

Definition keys_match `{Crypto} (public_of : private_key -> list Z) (n : node) : Prop :=
  forall pub key, _builder_keys n !! pub = Some key -> public_of key = pub.


(** ** Witnesses *)

#[local] Existing Instances BlockPack.toy_crypto AuthorityThm.toy_codec.

(** Seconds after the epoch of stamps. *)
Definition toy_time (s : Z) : Z := chain_timestamp_epoch_us + s * 1000000.
Definition toy_node : node := Node _ toy_loaded {[5]} {[empty_public_key := tt]} (Some (toy_time 101, call_next_block)) [].

Definition toy_work (l : list node_event) (n : node) : outcome node unit :=
  work (fun a _ => a) empty_public_key 0 (interface_handlers toy_registered) (fun _ => empty_chain_id) toy_js (fun z => z) empty_chain_id 0 5 9 toy_pop l n.

(** The timer fires, a block that is not taken comes, the timer fires twice. *)
Definition toy_events : list node_event :=
  [timer_fires (toy_time 101) (toy_time 101) (toy_time 101); block_arrives toy_bad_block;
   timer_fires (toy_time 102) (toy_time 102 + 300) (toy_time 102 + 400); timer_fires (toy_time 103 + 200) (toy_time 103 + 200) (toy_time 103 + 300)].

Lemma one_block_per_slot_witness : exists n' b b',
  toy_work toy_events toy_node = Ret n' tt /\ blocks_of (broadcasts n') = [b; b'] /\ _stamp (timestamp b) < _stamp (timestamp b').
Proof.
  assert (T : match toy_work toy_events toy_node with Ret n' _ => length (blocks_of (broadcasts n')) | _ => 0%nat end = 2%nat) by (vm_compute; reflexivity).
  assert (L : timely (fun a _ => a) empty_public_key 0 (interface_handlers toy_registered) (fun _ => empty_chain_id) toy_js (fun z => z)
    empty_chain_id 0 5 9 toy_pop (toy_time 101) toy_events toy_node) by (vm_compute; repeat split; discriminate).
  pose proof (one_block_per_slot (fun a _ => a) empty_public_key 0 (interface_handlers toy_registered) (fun _ => empty_chain_id) toy_js (fun z => z)
    empty_chain_id 0 5 9 toy_pop (toy_time 101) toy_events toy_node eq_refl L) as P.
  unfold toy_work in *. destruct (work _ _ _ _ _ _ _ _ _ _ _ _ toy_events toy_node) as [n' [] | |]; [| discriminate T ..].
  destruct (blocks_of (broadcasts n')) as [| b [| b' [| ? ?]]] eqn:E; try discriminate T.
  exists n', b, b'. split; [reflexivity |]. split; [exact E |]. exact (P 0%nat 1%nat b b' ltac:(lia) eq_refl eq_refl).
Defined.

Definition toy_build_block (now : Z) (n : node) : outcome node block_build_condition :=
  BlockBuilder.build_block (fun a _ => a) empty_public_key 0 (interface_handlers toy_registered) (fun _ => empty_chain_id) toy_js (fun z => z)
    empty_chain_id 0 5 toy_pop now n.

Lemma toy_agreed : agreed toy_genesis toy_loaded.
Proof. split; [vm_compute; reflexivity | eexists; split; vm_compute; reflexivity]. Qed.

Lemma builds_in_its_turn_witness : exists n' b,
  toy_build_block (toy_time 101) toy_node = Ret n' generated /\ broadcasts n' = [sent_block b] /\ timestamp b = Stamp 101 /\ builder b = 5.
Proof.
  assert (T : match toy_build_block (toy_time 101) toy_node with Ret _ generated => true | _ => false end = true) by (vm_compute; reflexivity).
  pose proof (builds_in_its_turn (fun a _ => a) empty_public_key 0 (interface_handlers toy_registered) (fun _ => empty_chain_id) toy_js (fun z => z)
    empty_chain_id 0 5 toy_pop 0%nat toy_genesis (toy_time 101) toy_node toy_idle toy_agreed) as P.
  unfold toy_build_block in *. destruct (BlockBuilder.build_block _ _ _ _ _ _ _ _ _ _ _ (toy_time 101) toy_node) as [n' [] | |]; try discriminate T.
  destruct P as (info & key & b & _ & S & _ & _ & Sent & _ & Tm & Bl & _). exists n', b.
  assert (Si : scheduled toy_genesis (from (toy_time 101)) = Ok toy_builder) by (vm_compute; reflexivity).
  rewrite Si in S. injection S as <-. split_and!; auto. 
Defined.

(** The consistency of a fork database, decided. *)
Section Settled.
Context {W : Type} (c : fork_context W).

Fixpoint neighbours (lt : block_pack -> block_pack -> bool) (l : list ptr) : bool :=
  match l with
  | [] => true
  | p :: l => match l with q :: _ => negb (lt (deref c q) (deref c p)) | [] => true end && neighbours lt l
  end.

Definition members_of : list ptr := map snd (map_to_list (by_block_id c)).

Definition index_settled (lt : block_pack -> block_pack -> bool) (l : list ptr) : bool :=
  bool_decide (NoDup l) && forallb (fun p => bool_decide (p ∈ members_of)) l && forallb (fun p => bool_decide (p ∈ l)) members_of && neighbours lt l.

Definition pack_settled (kv : sha256 * ptr) : bool :=
  (kv.2 <? fresh c)%nat &&
  match heap c !! kv.2 with
  | Some b => bool_decide (block_id b = kv.1) && (num_from_id (block_id b) =? block_num b) && (block_num b =? num_from_id (prev_id b) + 1)
  | None => false
  end.

Definition settled_bool : bool :=
  forallb pack_settled (map_to_list (by_block_id c)) && index_settled lt_pre_id (by_pre_id c) && index_settled lt_number_less (by_number_less c) &&
  index_settled lt_longest_num (by_longest_num c).

Lemma neighbours_ordered lt l : neighbours lt l = true -> ForkDb.ordered lt (deref c) l.
Proof using.
  induction l as [| p l IH]; [constructor |]. destruct l as [| q l]; [repeat constructor |]. intros E.
  cbn [neighbours] in E. apply andb_true_iff in E as [E1 E2]. constructor; [exact (IH E2) |]. constructor. apply negb_true_iff, E1.
Qed.

Lemma index_settled_indexed lt l : index_settled lt l = true -> indexed c lt l.
Proof using.
  unfold index_settled. intros E. apply andb_true_iff in E as [E O]. apply andb_true_iff in E as [E B]. apply andb_true_iff in E as [N A].
  apply bool_decide_eq_true in N. rewrite forallb_forall in A, B. split; [exact N |]. split; [| apply neighbours_ordered, O]. intros p. split.
  - intros Hp. apply list_elem_of_In, A, bool_decide_eq_true, list_elem_of_fmap in Hp as ([id p'] & -> & Hp). exists id. apply elem_of_map_to_list, Hp.
  - intros [id Hp]. eapply bool_decide_eq_true, B, list_elem_of_In, list_elem_of_fmap. exists (id, p). split; [reflexivity |]. apply elem_of_map_to_list, Hp.
Qed.

Lemma settled_bool_wf : settled_bool = true -> wf c /\ numbered c.
Proof using.
  unfold settled_bool. intros E. apply andb_true_iff in E as [E I3]. apply andb_true_iff in E as [E I2]. apply andb_true_iff in E as [F I1].
  rewrite forallb_forall in F.
  assert (G : forall (id : sha256) (p : ptr), by_block_id c !! id = Some p -> (p < fresh c)%nat /\ is_Some (heap c !! p) /\ block_id (deref c p) = id /\ numbered_block (deref c p)).
  { intros id p Hp. apply elem_of_map_to_list, list_elem_of_In, F in Hp. unfold pack_settled in Hp. cbn [fst snd] in Hp.
    apply andb_true_iff in Hp as [L Hp]. unfold deref, deref_in. destruct (heap c !! p) as [b |]; [| discriminate Hp].
    apply andb_true_iff in Hp as [Hp N2]. apply andb_true_iff in Hp as [Hi N1]. apply bool_decide_eq_true in Hi.
    split; [apply Nat.ltb_lt, L |]. split; [eexists; reflexivity |]. split; [exact Hi |]. split; [apply Z.eqb_eq, N1 | apply Z.eqb_eq, N2]. }
  split; [split; [| apply index_settled_indexed; assumption ..] |].
  - intros id p Hp. destruct (G id p Hp) as (? & ? & ? & _). auto.
  - intros p [id Hp]. apply (G id p Hp).
Qed.
End Settled.

Definition toy_after : node := match toy_build_block (toy_time 101) toy_node with Ret n _ => n | _ => toy_node end.

Lemma toy_settled : settled (chain toy_after).
Proof. apply settled_bool_wf. vm_compute. reflexivity. Qed.

Definition toy_peer : node := Node _ toy_chain {[5]} {[empty_public_key := tt]} None [].

Definition toy_handle_block (b : signed_block) (n : node) : outcome node unit :=
  handle_block (fun a _ => a) empty_public_key 0 (interface_handlers toy_registered) (fun _ => empty_chain_id) toy_js (fun z => z) empty_chain_id 0 5 9 b n.


(** A node with the keys of two builders confirms its own block with the key of
    the other, and tells nobody: its block has a confirmation that the peers
    never get. *)
Definition toy_pair_rule : builder_rule := Rule 1 [toy_builder; Builder 6 empty_public_key].
Definition toy_pair_pack : block_pack :=
  let '(Pack a1 a2 a3 a4 a5 _ a7 a8 a9 a10 a11 a12 a13 a14 a15 a16 a17 a18 a19 a20) := toy_genesis in
  Pack a1 a2 a3 a4 a5 toy_pair_rule a7 a8 a9 a10 a11 a12 a13 a14 a15 a16 a17 a18 a19 a20.
Definition toy_pair_chain : chain_context :=
  match Chain.on_db (db_modify 0 (update (fun _ => StaticConfig toy_pair_rule empty_rule))) (set_fork (store toy_fork 0%nat toy_pair_pack) toy_chain) with
  | Ret c _ => c
  | _ => toy_chain
  end.
Definition head_confirmations (n : node) : nat :=
  match head_pack (chain n) with Some p => length (confirmations (deref (fork_db (chain n)) p)) | None => 0 end.

Example own_confirmations_stay :
  match next_block_impl (fun a _ => a) empty_public_key 0 (interface_handlers toy_registered) (fun _ => empty_chain_id) toy_js (fun z => z)
          empty_chain_id 0 5 toy_pop (toy_time 102) (toy_time 102) (toy_time 102)
          (Node _ toy_pair_chain {[5; 6]} {[empty_public_key := tt]} None []) with
  | Ret a _ =>
      match broadcasts a with
      | [sent_block b] => match toy_handle_block b (Node _ toy_pair_chain ∅ ∅ None []) with
                          | Ret peer _ => Some (block_num (deref (fork_db (chain peer)) 1%nat), head_confirmations a, head_confirmations peer)
                          | _ => None end
      | _ => None
      end
  | _ => None
  end = Some (2, 1%nat, 0%nat).
Proof. vm_compute. reflexivity. Qed.
