(* ===== verification/ContractsProps.v ===== *)
(** What the handlers of contracts do to the accounts: the contract that is
    stored, the abis they stop at, and what the undo of an upgrade leaves. *)

From Stdlib Require Import ZArith Lia Bool String List.
From stdpp Require Import base decidable gmap fin_maps list.
From S2P Require Import Prelude ChainUtils Block Effects UndoIndex UndoIndexThm DbSession Objects Tables Context.
From S2P Require Import Authority Voting SystemContract NativeApi Tracked Raw Abi AbiProps AbiCodec Contracts.
Import ListNotations.
Local Open Scope string_scope.
Local Open Scope list_scope.
Local Open Scope Z_scope.

Local Abbreviation database := (list (generic_index row)).
Local Abbreviation accounts db := (Tables.table account_object db).

(** ** Steps *)

Lemma authorization_runs cx n w :
  (authorized cx n /\ exists w', require_authorization cx n w = Ret w' tt /\ w_db w' = w_db w) \/
  (~ authorized cx n /\ exists e, require_authorization cx n w = Exc w e).
Proof.
  pose proof (require_authorization_ends cx n w) as E. unfold ends in E.
  destruct (require_authorization cx n w) as [w' [] | w' e |]; [left | right | contradiction].
  - destruct E as [D A]. split; [exact A | exists w'; auto].
  - destruct E as [-> N]. split; [exact N | exists e; reflexivity].
Qed.

Lemma changed_twice {R} `{Object R} db m1 db1 m2 db2 : changed R db m1 db1 -> changed R db1 m2 db2 -> changed R db m2 db2.
Proof.
  intros C1 C2. split; [apply C2 | apply C2 |]. intros i N.
  rewrite (changed_others _ _ _ _ C2) by exact N. apply (changed_others _ _ _ _ C1), N.
Qed.

Section Handlers.
Context `{AbiSizes} (sha256_hash : list Z -> sha256) (depth : nat) (jsvm_init : call -> M world unit) (cx : call).

Definition free_name (name : Z) (db : database) : Prop := forall id a, accounts db !! id = Some a -> acc_name a <> name.

(** An account as it is with its contract. *)
Definition with_contract (code : list Z) (d : abi) (a : account_object) : account_object :=
  Account (acc_name a) (acc_type a) (creation_date a) (Some (AccountContract (sha256_hash code) code (pack raw_abi d))).

(** The account under a name gets the contract. *)
Lemma modify_contract_runs name code d id a w : valid (w_db w) -> accounts (w_db w) !! id = Some a -> acc_name a = name ->
  exists w', modify_contract sha256_hash name code d w = Ret w' tt /\ w_ctx w' = w_ctx w /\
    changed account_object (w_db w) (<[id := with_contract code d a]> (accounts (w_db w))) (w_db w').
Proof.
  intros V L N. set (P := fun w' : world => w_ctx w' = w_ctx w /\
    changed account_object (w_db w) (<[id := with_contract code d a]> (accounts (w_db w))) (w_db w')).
  assert (E : ends (modify_contract sha256_hash name code d) w (fun w' _ => P w') no_exc).
  { unfold modify_contract. apply wp_get.
    - intros id' a' L' N'. apply ends_bind_ret.
      assert (id' = id).
      { destruct (decide (id' = id)) as [| D]; [assumption |]. pose proof (table_unique _ _ _ _ _ V L' L D) as C.
        cbn in C. apply Z.eqb_neq in C. lia. }
      subst id'. assert (a' = a) by congruence. subst a'.
      eapply wp_modify; [exact V | exact L |]. cbn. split; [intros []; reflexivity |]. intros w' E C. split; assumption.
    - intros F. pose proof (find_id_None _ _ _ _ F L) as X. cbn in X. apply Z.eqb_neq in X. contradiction. }
  unfold ends in E. destruct (modify_contract _ _ _ _ w) as [w' [] | |]; try contradiction. exists w'. auto.
Qed.

Lemma new_account_runs name t ty w : valid (w_db w) ->
  (free_name name (w_db w) /\ exists id w', xmax_new_account name t ty w = Ret w' id /\ accounts (w_db w) !! id = None /\
     changed account_object (w_db w) (<[id := Account name ty t None]> (accounts (w_db w))) (w_db w')) \/
  (~ free_name name (w_db w) /\ exists w', xmax_new_account name t ty w = Exc w' create_failed /\ w_db w' = w_db w).
Proof.
  intros V. destruct (slot_index (R := account_object) (w_db w) V) as (ix & E & Er). pose proof (valid_good _ V _ _ E) as G.
  pose proof (db_create_spec (fun _ => Account name ty t None) (w_db w) V) as Sp. unfold xmax_new_account, on_db.
  unfold ends in Sp. remember (db_create (fun _ => Account name ty t None) (w_db w)) as o eqn:O.
  destruct o as [db' id | db' e |]; [left | right | contradiction].
  - destruct Sp as (F & U & C). split; [| exists id, (World db' (w_ctx w)); auto].
    intros j a L N. specialize (U j a L). cbn in U. apply Z.eqb_neq in U. lia.
  - subst db'. unfold db_create, on_index in O. rewrite E, emplace_runs in O by (apply good_fresh, G).
    destruct (placeable _ _ _) eqn:P; [discriminate O |]. injection O as _ ->.
    split; [| exists (World (w_db w) (w_ctx w)); auto]. intros F.
    assert (P' : placeable (indices ix) (next_id ix) (RAccount (Account name ty t None)) = true).
    { apply placeable_spec. intros j x Lx Nx. destruct x as [a | | | | | | | | | | | | | | | | | | | |]; try reflexivity.
      cbn. apply Z.eqb_neq. intros Q. apply (F j a); [| congruence].
      apply (table_lookup (R := account_object)). rewrite Er. exact Lx. }
    cbn [inj account_Object] in P. congruence.
Qed.

(** C18: what addcontract does.  Without the authorization of the creator, or
    under a name that is taken, it throws and leaves the accounts as they are.
    Otherwise the abi decides: one that validate throws at is refused with its
    exception, one that overflows the stack ends the node, and one that is
    valid is stored with the code and its hash in a new account of that name,
    every other account and table unchanged, before the code is run; from the
    stored bytes of the abi, when it is not empty, the same abi is read. *)
Theorem contracts_are_deployed m rest w :
  valid (w_db w) -> unpack raw_addcontract (msg_data (call_msg cx)) = Ret rest m ->
  (~ authorized cx (ac_creator m) -> exists e, xmax_system_addcontract sha256_hash depth jsvm_init cx w = Exc w e) /\
  (authorized cx (ac_creator m) -> ~ free_name (ac_name m) (w_db w) ->
     exists w', xmax_system_addcontract sha256_hash depth jsvm_init cx w = Exc w' create_failed /\ w_db w' = w_db w) /\
  (authorized cx (ac_creator m) -> free_name (ac_name m) (w_db w) ->
     match (set_abi depth (ac_abi m) ;; validate depth) empty_serializer with
     | Undef => xmax_system_addcontract sha256_hash depth jsvm_init cx w = Undef
     | Exc _ e => exists w', xmax_system_addcontract sha256_hash depth jsvm_init cx w = Exc w' e
     | Ret _ _ => exists id w1,
         xmax_system_addcontract sha256_hash depth jsvm_init cx w = in_init_context cx (ac_name m) 0 jsvm_init w1 /\
         accounts (w_db w) !! id = None /\
         changed account_object (w_db w)
           (<[id := with_contract (ac_code m) (ac_abi m) (Account (ac_name m) acc_contract (current_time cx) None)]> (accounts (w_db w)))
           (w_db w1) /\
         (packable raw_abi (ac_abi m) -> (4 < length (pack raw_abi (ac_abi m)))%nat ->
          to_abi (pack raw_abi (ac_abi m)) = Ret [] (Some (ac_abi m)))
     end).
Proof.
  intros V U. unfold xmax_system_addcontract.
  rewrite (mbind_ret _ _ w w m) by (unfold message_as; rewrite U; reflexivity).
  destruct (authorization_runs cx (ac_creator m) w) as [[A (w1 & E1 & D1)] | [A (e & E1)]].
  2:{ split; [intros _; exists e; exact (Follows.mbind_exc _ _ _ _ _ E1) | split; intros A'; contradiction]. }
  rewrite (mbind_ret _ _ _ _ _ E1). split; [intros N; contradiction |]. rewrite <- D1 in *.
  destruct (new_account_runs (ac_name m) (current_time cx) acc_contract w1 V) as [[F (id & w2 & E2 & L2 & C2)] | [F (w2 & E2 & D2)]].
  2:{ split; [intros _ _ | intros _ F'; contradiction]. exists w2. split; [exact (Follows.mbind_exc _ _ _ _ _ E2) | exact D2]. }
  rewrite (mbind_ret _ _ _ _ _ E2). split; [intros _ F'; contradiction |]. intros _ _.
  assert (Ev : validate_abi depth (ac_abi m) w2 =
    match (set_abi depth (ac_abi m) ;; validate depth) empty_serializer with Ret _ _ => Ret w2 tt | Exc _ e => Exc w2 e | Undef => Undef end)
    by reflexivity.
  destruct ((set_abi depth (ac_abi m) ;; validate depth) empty_serializer) as [a' [] | a' e |].
  2: { exists w2. exact (Follows.mbind_exc _ _ _ _ _ Ev). }
  2: { unfold mbind at 1, M_bind at 1. rewrite Ev. reflexivity. }
  rewrite (mbind_ret _ _ _ _ _ Ev).
  assert (L3 : accounts (w_db w2) !! id = Some (Account (ac_name m) acc_contract (current_time cx) None))
    by (rewrite (changed_table _ _ _ _ C2); apply lookup_insert_eq).
  destruct (modify_contract_runs (ac_name m) (ac_code m) (ac_abi m) id _ w2 (changed_valid _ _ _ _ C2) L3 eq_refl) as (w3 & E3 & _ & C3).
  exists id, w3. split; [exact (mbind_ret _ _ _ _ _ E3) |]. split; [exact L2 |]. split; [| apply stored_abi_found].
  pose proof (changed_twice _ _ _ _ _ C2 C3) as C. rewrite (changed_table _ _ _ _ C2) in C. rewrite insert_insert_eq in C. exact C.
Qed.
End Handlers.

(** A contract can end the nodes.  A message that sets a contract with the
    abi that defines a type as an array of itself, declared by the account, is
    not refused: however deep the stack, the recursion over its types overflows
    it, for either machine. *)
Theorem overflowing_abi_ends_the_node `{AbiSizes} sha256_hash depth jsvm_init vm_init cx m rest w :
  unpack raw_setcode (msg_data (call_msg cx)) = Ret rest m -> authorized cx (sc_account m) ->
  sc_vm_type m = 0 -> sc_vm_version m = 0 -> sc_abi m = array_of_itself ->
  xmax_system_setjscode sha256_hash depth jsvm_init cx w = Undef /\ xmax_system_setcode sha256_hash depth vm_init cx w = Undef.
Proof.
  intros U A T Vn D. assert (Em : message_as cx raw_setcode w = Ret w m) by (unfold message_as; rewrite U; reflexivity).
  unfold xmax_system_setjscode, xmax_system_setcode. rewrite !(mbind_ret _ _ _ _ _ Em), T, Vn, D.
  destruct (authorization_runs cx (sc_account m) w) as [[_ (w1 & E1 & _)] | [N _]]; [| contradiction].
  rewrite !(mbind_ret _ _ _ _ _ E1), !(mbind_ret (require (0 =? 0) _) _ w1 w1 tt eq_refl).
  assert (Ev : validate_abi depth array_of_itself w1 = Undef) by (unfold validate_abi; rewrite array_of_itself_undefined; reflexivity).
  unfold mbind, M_bind. rewrite Ev. auto.
Qed.

(** ** The undo of an upgrade *)

Definition without_contract (a : account_object) : account_object := Account (acc_name a) (acc_type a) (creation_date a) None.

(** C19: undoing an upgrade loses the contract.  When a new contract is set in
    a session of the database that is undone, the account is left without any
    contract, and not with the one it had; every other account and table is
    as it was. *)
Theorem undone_upgrade_loses_contract `{AbiSizes} sha256_hash code d id a db :
  valid db -> Forall ready db -> accounts db !! id = Some a ->
  exists db', in_session (db_modify id (set_contract sha256_hash code d)) leave_undo db = Ret db' tt /\
    accounts db' = <[id := without_contract a]> (accounts db) /\
    forall i, i <> @slot account_object _ -> slot_rows i db' = slot_rows i db.
Proof.
  intros V R L. destruct (slot_index (R := account_object) db V) as (ix & E & Er). pose proof L as L'.
  rewrite table_lookup, Er in L'. assert (Rx : ready ix) by (rewrite Forall_lookup in R; eapply R, E).
  set (a' := with_contract sha256_hash code d a).
  assert (K : same_keys (RAccount a) (RAccount a')) by (intros []; reflexivity).
  pose proof (within_copied ix id (RAccount a) (RAccount a') Rx L' K) as W. set (base := with_indices _ ix) in W.
  set (ix2 := with_indices _ _) in W. destruct (start_sessions db R) as [W1 O].
  unfold in_session. destruct (db_start_undo_session true db) as [db1 s] eqn:St. cbn [fst snd] in *.
  assert (E1 : db1 !! @slot account_object _ = Some (fst (start_undo_session true ix))).
  { injection St as <- _. cbn in E |- *. rewrite map_map. change (map ?f ?l) with (f <$> l). rewrite list_lookup_fmap, E. reflexivity. }
  assert (Em : db_modify id (set_contract sha256_hash code d) db1 = Ret (<[@slot account_object _ := ix2]> db1) tt).
  { unfold db_modify, on_index. rewrite E1. unfold modify_with, mbind at 1, M_bind at 1, gets. cbn [fst start_undo_session indices].
    cbn [inj account_Object] in L'. rewrite L'. unfold on_object. cbn [prj account_Object]. unfold set_contract, update. cbn [inj account_Object].
    rewrite (modify_runs id (fun _ => RAccount a') (RAccount a)); [reflexivity | exact L' | apply Rx | exact K]. }
  rewrite Em. clear Em.
  assert (Wb : all_within (<[@slot account_object _ := base]> db) (<[@slot account_object _ := ix2]> db1)) by (apply Forall2_insert; assumption).
  assert (Ob : open_sessions (length (<[@slot account_object _ := base]> db)) s) by (rewrite length_insert; exact O).
  unfold mbind at 1, M_bind at 1, leave_undo. rewrite (undo_sessions _ _ _ Wb Ob). unfold db_session_undo; cbn.
  eexists. split; [reflexivity |].
  assert (C : changed account_object db (<[id := without_contract a]> (accounts db)) (<[@slot account_object _ := base]> db)).
  { assert (Kc : same_keys (RAccount a) (RAccount (without_contract a))) by (intros []; reflexivity).
    apply (table_changed db ix); [exact V | exact E | | |].
    - eapply change_good; [apply Rx | apply (change_modify _ _ id (RAccount a)); [exact L' | exact Kc]].
    - intros j x. cbn. rewrite lookup_insert_Some. intros [[_ <-] | [_ Lj]]; [reflexivity |]. rewrite <- Er in Lj. eapply V, Lj.
    - intros j. cbn. destruct (decide (j = id)) as [-> | N]; [rewrite !lookup_insert_eq; reflexivity |].
      rewrite !lookup_insert_ne by congruence. unfold Tables.table. rewrite lookup_omap, Er. reflexivity. }
  split; [apply C | apply C].
Qed.

(** ** addcontract keeps to the interface of the database *)

Lemma all_within_at bases db i ix : all_within bases db -> db !! i = Some ix -> exists base, bases !! i = Some base /\ within base ix.
Proof. intros W E. destruct (Forall2_lookup_r _ _ _ _ _ W E) as (base & B & Wi). eauto. Qed.

Lemma all_within_insert bases db i base ix : all_within bases db -> bases !! i = Some base -> within base ix -> all_within bases (<[i := ix]> db).
Proof. intros W B Wi. rewrite <- (list_insert_id bases i base B). apply Forall2_insert; assumption. Qed.

Lemma within_good base ix : within base ix -> good (indices ix) (next_id ix).
Proof. intros (s & m & n & -> & G & _). exact G. Qed.

(** An account is made and its contract set at once: it had none to lose. *)
Lemma tracked_new_contract `{AbiSizes} sha256_hash depth name t code d :
  tracked_in w_db (xmax_new_account name t acc_contract ;; validate_abi depth d ;; modify_contract sha256_hash name code d).
Proof.
  intros bases w R W. pose proof (tracked_create (fun _ => Account name acc_contract t None) bases (w_db w) R W) as T.
  unfold mbind at 1, M_bind at 1, xmax_new_account, on_db.
  destruct (db_create (fun _ => Account name acc_contract t None) (w_db w)) as [db id | db e |] eqn:Ec; [| exact T | exact I].
  unfold mbind at 1, M_bind at 1, validate_abi at 1. destruct ((set_abi depth d ;; validate depth) empty_serializer); [| exact T | exact I].
  assert (N : exists ix, db !! 0%nat = Some ix /\ indices ix !! id = Some (RAccount (Account name acc_contract t None))).
  { unfold db_create, on_index in Ec. cbn [slot account_Object] in Ec. destruct (w_db w !! 0%nat) as [ix |] eqn:E0; [| discriminate].
    destruct (all_within_at _ _ _ _ W E0) as (base & _ & Wi). rewrite emplace_runs in Ec by (apply good_fresh, (within_good _ _ Wi)).
    destruct (placeable _ _ _); [| discriminate]. injection Ec as <- <-.
    eexists. split; [apply list_lookup_insert_eq, (lookup_lt_Some _ _ _ E0) |].
    match goal with |- indices (on_create ?i ?x) !! _ = _ => destruct (on_head_rest (UndoIndexThm.created i) x) as (E & _) end.
    unfold UndoIndexThm.created in E. unfold on_create. rewrite E. cbn. apply lookup_insert_eq. }
  destruct N as (ix & Ex & Lx). destruct (all_within_at _ _ _ _ T Ex) as (base & B & Wi).
  unfold modify_contract, on_db, db_get, db_find, gets. unfold mbind, M_bind. cbn [w_db w_ctx].
  destruct (find_id (fun a => acc_name a =? name) (accounts db)) as [id' |] eqn:F; [| exact T].
  destruct (find_id_Some _ _ _ F) as (acc & La & Na). apply Z.eqb_eq in Na.
  apply (table_lookup (R := account_object)) in La. cbn [slot account_Object inj] in La. unfold slot_rows in La. rewrite Ex in La.
  assert (id' = id).
  { destruct (decide (id' = id)) as [| D]; [assumption |].
    pose proof (good_unique _ _ (within_good _ _ Wi) _ _ _ _ La Lx D) as C. cbn in C. apply Z.eqb_neq in C. contradiction. }
  subst id'. rewrite Lx in La. injection La as <-.
  unfold mret, M_ret. cbn [w_db w_ctx]. unfold db_modify, on_index. cbn [slot account_Object]. rewrite Ex.
  pose proof (within_modify_with base ix id _ (on_object (set_contract sha256_hash code d)) Wi Lx eq_refl) as M. cbn in M.
  specialize (M ltac:(intros []; reflexivity)). unfold ends in M.
  destruct (modify_with id _ ix) as [ix' u | ix' e |]; [.. | exact I]; exact (all_within_insert _ _ _ _ _ T B M).
Qed.

Lemma tracked_init_context cx code n m : (forall cx, tracked_in w_db (m cx)) -> tracked_in w_db (in_init_context cx code n m).
Proof.
  intros Hm bases w R W. unfold in_init_context.
  specialize (Hm (Call (call_trx cx) (call_msg cx) n (current_time cx) (building_time cx)) bases
                 (World (w_db w) (new_context (Call (call_trx cx) (call_msg cx) n (current_time cx) (building_time cx)) code)) R W).
  destruct (m _ _); exact Hm.
Qed.

Lemma addcontract_tracked `{AbiSizes} sha256_hash depth jsvm_init :
  (forall cx, tracked_in w_db (jsvm_init cx)) -> tracked_handler (xmax_system_addcontract sha256_hash depth jsvm_init).
Proof.
  intros J cx. unfold xmax_system_addcontract. apply tracked_in_bind.
  { intros bases w _ W. unfold message_as. destruct (unpack _ _); [exact W | exact W | exact I]. }
  intros m. apply tracked_in_bind; [apply tracked_require_auth | intros _].
  pose proof (tracked_new_contract sha256_hash depth (ac_name m) (current_time cx) (ac_code m) (ac_abi m)) as T.
  pose proof (tracked_in_bind _ _ _ T (fun _ => tracked_init_context cx (ac_name m) 0 _ J)) as T'.
  intros bases w R W. specialize (T' bases w R W). revert T'. unfold mbind, M_bind.
  destruct (xmax_new_account _ _ _ w) as [w1 ? | |]; try (intros X; exact X).
  destruct (validate_abi _ _ w1) as [w2 ? | |]; intros X; exact X.
Qed.

(** ** On a concrete chain *)

#[local] Instance toy_abi_sizes : AbiSizes := {
  sizeof_type_name := 32; sizeof_field_name := 16; sizeof_field := 48; sizeof_type_def := 64; sizeof_struct_t := 88;
  sizeof_action := 48; sizeof_table := 128 }.

Definition toy_hash (code : list Z) : sha256 := Sha (Z.of_nat (length code)) 0 0 0.
Definition toy_init : call -> M world unit := fun _ => mret tt.

(** Account 7 without a contract. *)
Definition toy_accounts_db : database := created (Account 7 acc_personal 70 None) empty_db.

Definition toy_contract_call (data : list Z) : call :=
  Call (Transaction 0 0 0 [] [] [] 0 0 0) (Message xmax_contract_name 5 [AccountAuth 7 3] data) 0 77 78.

Definition toy_contract_world (cx : call) : world := World toy_accounts_db (new_context cx xmax_contract_name).

Definition toy_addcontract : call := toy_contract_call (pack raw_addcontract (AddContract 7 9 [1; 2] derived_abi)).

Lemma toy_accounts : map_to_list (accounts toy_accounts_db) = [(0, Account 7 acc_personal 70 None)].
Proof. vm_compute. reflexivity. Qed.

Lemma toy_accounts_valid : valid toy_accounts_db.
Proof. apply created_valid, empty_valid. Qed.

Lemma toy_authorized data : authorized (toy_contract_call data) 7.
Proof. exists (AccountAuth 7 3). split; [left | reflexivity]. Qed.

Lemma contracts_are_deployed_witness : exists id w1,
  xmax_system_addcontract toy_hash 8 toy_init toy_addcontract (toy_contract_world toy_addcontract) =
    in_init_context toy_addcontract 9 0 toy_init w1 /\
  accounts (w_db w1) !! id =
    Some (Account 9 acc_contract 77 (Some (AccountContract (Sha 2 0 0 0) [1; 2] (pack raw_abi derived_abi)))).
Proof.
  assert (U : unpack raw_addcontract (msg_data (call_msg toy_addcontract)) = Ret [] (AddContract 7 9 [1; 2] derived_abi))
    by (vm_compute; reflexivity).
  destruct (contracts_are_deployed toy_hash 8 toy_init toy_addcontract _ _ (toy_contract_world toy_addcontract) toy_accounts_valid U) as (_ & _ & D).
  assert (F : free_name 9 toy_accounts_db).
  { intros id a L. apply elem_of_map_to_list in L. rewrite toy_accounts in L. apply list_elem_of_singleton in L. injection L as _ ->. discriminate. }
  specialize (D (toy_authorized _) F).
  assert (E : (set_abi 8 derived_abi ;; validate 8) empty_serializer = Ret (after_set derived_abi) tt) by (vm_compute; reflexivity).
  cbn [ac_abi] in D. rewrite E in D. destruct D as (id & w1 & R & _ & C & _). exists id, w1. split; [exact R |].
  rewrite (changed_table _ _ _ _ C). apply lookup_insert_eq.
Defined.

Definition toy_setcode : call := toy_contract_call (pack raw_setcode (SetCode 7 0 0 [1] array_of_itself)).

Lemma overflowing_abi_ends_the_node_witness :
  xmax_system_setjscode toy_hash 1000 toy_init toy_setcode (toy_contract_world toy_setcode) = Undef.
Proof.
  assert (U : unpack raw_setcode (msg_data (call_msg toy_setcode)) = Ret [] (SetCode 7 0 0 [1] array_of_itself)) by (vm_compute; reflexivity).
  exact (proj1 (overflowing_abi_ends_the_node toy_hash 1000 toy_init toy_init toy_setcode _ _ (toy_contract_world toy_setcode) U
                  (toy_authorized _) eq_refl eq_refl eq_refl)).
Defined.

(** An account with a contract, upgraded in a session that is undone. *)
Definition toy_contract_account : account_object := Account 9 acc_contract 70 (Some (AccountContract (Sha 1 0 0 0) [5] [])).
Definition toy_contract_db : database := created toy_contract_account empty_db.

Lemma undone_upgrade_loses_contract_witness : exists db',
  in_session (db_modify 0 (set_contract toy_hash [1; 2] derived_abi)) leave_undo toy_contract_db = Ret db' tt /\
  accounts toy_contract_db !! 0 = Some toy_contract_account /\ accounts db' !! 0 = Some (Account 9 acc_contract 70 None).
Proof.
  assert (V : valid toy_contract_db) by apply created_valid, empty_valid.
  assert (R : Forall ready toy_contract_db).
  { apply Forall_lookup. intros i ix E. split; [eapply valid_good; eassumption |].
    assert (B : forallb (fun ix => -1 <=? revision ix) toy_contract_db = true) by (vm_compute; reflexivity).
    rewrite List.forallb_forall in B. specialize (B ix ltac:(eapply list_elem_of_In, list_elem_of_lookup_2, E)). lia. }
  assert (L : accounts toy_contract_db !! 0 = Some toy_contract_account) by (vm_compute; reflexivity).
  destruct (undone_upgrade_loses_contract toy_hash [1; 2] derived_abi 0 _ _ V R L) as (db' & E & A & _).
  exists db'. split; [exact E |]. split; [exact L |]. rewrite A. apply lookup_insert_eq.
Defined.
